(* ===== verification/_CoqProject ===== *)
-Q . S2P
Prelude.v
RustStr.v
Floats.v
StdPath.v
Tokenize.v
RiskModel.v
RiskPaths.v
Assess.v
RiskTheorems.v
Kahn.v
DagModel.v
DagOps.v
DagSchedule.v
DagInvariant.v
DagSafety.v
DagTheorems.v
DagRun.v
PlanModel.v
PlanTheorems.v
Bridge.v
Compaction.v
SwarmChannels.v
Json.v
SchemaModel.v
SchemaRecovery.v
SchemaWalk.v
SchemaNormal.v
SchemaTheorems.v
SchemaMeaning.v
SchemaLearning.v
SchemaFlatten.v
StrictSchema.v
DeviceIdentity.v
DeviceStores.v
DeviceTheorems.v
PeerSubnet.v
PeerPages.v
PeerListing.v
NetParse.v
PeerGate.v
PeerTrust.v
PeerAlone.v
TrimFacts.v
ProviderAuth.v
ProviderModels.v
ProviderRoutes.v
ProviderDedupe.v
ProviderFallback.v
ProviderFailover.v
ProviderCatalog.v
SessionRoute.v
SessionTheorems.v
Utf8.v
CoreUtil.v
Glob.v
PermissionRules.v
Hooks.v
ToolTypes.v
ToolRegistry.v
ToolGates.v
Checkpoints.v
AutoCommit.v
TextEdit.v
FileTools.v
ApplyPatch.v
ApplyPatchTheorems.v
UnifiedPatch.v
CompactionText.v
CompactionManager.v
CompactionManagerTheorems.v
OpenAiRequest.v
OpenAiRequestTheorems.v
AnthropicRequest.v
AnthropicTheorems.v
AnthropicCache.v
SessionStore.v
SessionStoreTheorems.v
AgentTurn.v
SessionSearch.v
