(* ===== verification/Prelude.v ===== *)
(** * Arterm: a verification library

    Arterm is a coding agent for the terminal: models propose tool calls, swarms of agents work
    through a shared plan, long conversations are compacted to fit a context window, and devices of
    one owner find each other on the local network.  This library models the decision cores of the
    program and the file tools, and proves them correct.  Paths below are relative to [src/crates/].

    ** Parts and how they interact

    - The life of a tool call.  A model names a tool; [arterm-tool-types] resolves the alias,
      [arterm-app-core/src/tool/mod.rs] asks plan mode, the permission rules
      ([arterm-base/src/config/permission_rules.rs]), the session's policy and the [pre_tool] hook
      ([arterm-base/src/hooks.rs]), runs the tool, and lets the context guard look at the output.
    - The file tools ([tool/edit.rs], [write.rs], [multiedit.rs], [apply_patch.rs], [patch.rs]).  Each
      takes a checkpoint ([checkpoint.rs]) before it writes, so that [undo.rs] can restore it, publishes
      what it touched, and commits it when the user asked for that ([git_auto_commit.rs]).
    - Command risk ([arterm-command-risk/src]).  Before a shell command runs, it is assessed:
      [tokenize.rs] cuts it into tokens and segments, [paths.rs] decides what a target is worth,
      [lib.rs] unwraps wrappers and inline scripts and collects findings, [gate.rs] turns the
      verdict into run, reflect or deny.  [apply_patch] asks [paths.rs] before it deletes.
    - The task graph ([arterm-plan/src/dag]).  A plan in deep mode is a graph of nodes that
      agents seed, expand, complete, fail and inject work into; gates audit what they depend on.
      [mod.rs] has the data and the cycle detector, [ops.rs] the validated mutations,
      [schedule.rs] the ready set and dispatch, [sim.rs] a driver loop.  The shared plan
      ([arterm-plan/src/lib.rs]) is what the swarm stores, and [bridge.rs] lifts it into a graph
      and lowers the graph back after each mutation.
    - Schema dialects ([arterm-schema-dialect/src], and [openai_schema.rs] of [arterm-provider-core]).
      The schema of every tool is rewritten into the subset of JSON Schema a provider accepts; what a
      provider rejects is learned and left out of the next request.
    - Providers ([arterm-provider-core], [arterm-provider-metadata]): the words for credentials and
      routes, model ids and context windows, the merge of catalogs, the choice of a fallback, what an
      error says about retrying; and the route a session remembers ([arterm-base/src/provider]).
    - Devices ([arterm-device], [arterm-peer]): invites are minted and spent, devices are trusted and
      forgotten, a connection is established only with a device that is trusted or holds a secret, and
      the list of sessions crosses the wire in pages.
    - Compaction.  [arterm-compaction-core/src/lib.rs] chooses where a conversation may be cut,
      accounts for tokens, and shrinks oversized requests.  The manager
      ([arterm-base/src/compaction.rs]) decides when to summarize, runs that in the background,
      applies the result, drops messages at once when the context is nearly full, and prefixes every
      request with the summary; a session stores what it knows.  Swarm channels
      ([arterm-swarm-core/src/lib.rs]) are the subscription index.
    - Requests.  What compaction returns becomes the input of a provider: for OpenAI a list of items in
      which every output follows its call ([arterm-provider-openai/src/request.rs]), for Anthropic messages
      that alternate, with cache markers, tools and the system prompt ([arterm-provider-anthropic/src/lib.rs]).

    - Sessions on disk ([arterm-base/src/session.rs], [session/journal.rs], [session/persistence.rs]).  A
      session is the transcript and what goes with it.  A save writes a snapshot or appends a line to a
      journal, loading replays the journal and salvages damaged lines ([arterm-storage/src/lib.rs] does the
      writing), and the messages a provider is given are a cache over the transcript.  A search over past
      sessions ([arterm-session-types]) reads raw files first and scores the texts of those that pass.

    - A turn of an agent ([arterm-app-core/src/agent.rs], [agent/compaction.rs]).  Interrupted calls get a
      placeholder, then the transcript of the session goes through compaction into a request: this is where
      sessions, compaction and requests meet.

    ** Files

    - [Prelude]: results and their binding notations, stable sorting, ordered deduplication, sums
      over lists, the tactics and the hint database [arterm].
    - [RustStr], [Floats] (and [ConfidenceLevel::parse]), [StdPath], [TrimFacts], [Utf8], [Json] (sorted maps and the JSON value),
      [NetParse]: the operations of the standard library that the code uses, over byte strings.  A
      [String] is its list of UTF-8 bytes; offsets are byte offsets.
    - Risk: [Tokenize] ([tokenize.rs]), [RiskModel] (the types of [lib.rs], and [gate.rs]), [RiskPaths]
      ([paths.rs]), [Assess] (the functions of [lib.rs]), [RiskTheorems].
    - Plan: [Kahn] (the worklist loop both cycle detectors run), [DagModel] ([dag/mod.rs]), [DagOps] ([dag/ops.rs]),
      [DagSchedule] ([schedule.rs], [sim.rs]), [DagInvariant] (the step relation, reachability),
      [DagSafety] (the life cycle of nodes), [DagTheorems], [DagRun]; [PlanModel] ([lib.rs]),
      [PlanTheorems]; [Bridge] ([bridge.rs]) with its theorems.
    - Schemas: [SchemaModel] ([keyword.rs], [dialect.rs], [registry.rs],
      [conformance.rs]), [SchemaRecovery] ([rejection.rs], [quirks.rs], [lib.rs]), [SchemaWalk],
      [SchemaNormal], [SchemaTheorems], [SchemaMeaning], [SchemaLearning], [SchemaFlatten];
      [StrictSchema] ([openai_schema.rs]).
    - Devices: [DeviceIdentity], [DeviceStores] ([invite.rs], [join.rs], [trust.rs]), [DeviceTheorems];
      [PeerSubnet], [PeerPages] ([hello.rs]), [PeerListing], [PeerGate] ([gate.rs], [listen.rs],
      [tls.rs]), [PeerTrust], [PeerAlone].
    - Providers: [ProviderAuth] ([auth_mode.rs], [selection.rs]), [ProviderModels] ([models.rs],
      [model_id.rs], [anthropic.rs]), [ProviderRoutes] ([lib.rs]), [ProviderDedupe],
      [ProviderFallback] ([fallback_pick.rs]), [ProviderFailover] ([failover.rs], [retry_after.rs],
      [reasoning.rs], [catalog_refresh.rs]), [ProviderCatalog] ([arterm-provider-metadata]),
      [SessionRoute], [SessionTheorems].
    - Tools: [CoreUtil] ([arterm-core/src/util.rs]), [Glob] and [PermissionRules]
      ([permission_rules.rs], [permission_gate.rs]), [Hooks] ([hooks.rs]), [ToolTypes]
      ([arterm-tool-types], [arterm-tool-core]), [ToolRegistry] ([tool/mod.rs], [inflight.rs]),
      [ToolGates].
    - File tools: [Checkpoints] ([checkpoint.rs], [undo.rs]; the interface [FileSystem] with its laws),
      [AutoCommit], [TextEdit] (the text routines), [FileTools] ([edit.rs], [write.rs],
      [multiedit.rs], with their theorems), [ApplyPatch], [ApplyPatchTheorems], [UnifiedPatch]
      ([patch.rs]).
    - [Compaction], [CompactionText] (the texts and the embeddings on binary32), [CompactionManager]
      ([arterm-base/src/compaction.rs]) and [CompactionManagerTheorems]; [SwarmChannels].
    - Requests: [OpenAiRequest] ([request.rs]) with [OpenAiRequestTheorems]; [AnthropicRequest]
      ([arterm-provider-anthropic]) with [AnthropicTheorems] (merging, the final
      check and the results) and [AnthropicCache] (markers and tools).

    - Sessions: [SessionStore] (the session and its edits, the cache, saving and loading) with
      [SessionStoreTheorems]; [SessionSearch] (the query, the tests, scores and snippets of the
      search in [arterm-session-types]).
    - [AgentTurn]: the repair of interrupted calls, the messages of a turn, and the theorems that span
      [SessionStore], [CompactionManager] and [AnthropicRequest].

    Functions keep the names of the source; where a method name is taken, the comment at the
    definition gives the method.  A loop body or a closure of a long function is a definition of
    its own.  Mutation through [&mut] is a function from the old state to the new one; an early
    return with [?] is the [let?] notation; an operation that fails returns [Err]; a body that can
    panic returns [option], and [None] is the panic.

    ** What the theorems show

    - Tool calls: a tool runs exactly when every gate admits the call, and a refusal is the same
      whatever the tool does; deny beats ask beats allow; rules survive being saved; the glob is
      its specification; the first hook that blocks decides; the context guard never spends more
      than is left; every schema sent declares the intent.
    - File tools: an edit replaces exactly the occurrences it reports; a patch changes the places
      its chunks matched and nothing else; what a tool did can be undone; [edit] and [apply_patch]
      answer on every input; only touched files are ever staged.  Inputs on which the tools do less
      than their comments say are evaluated beside the theorems.
    - Risk: [assess] is total; the verdict on a sequence of commands is the worst of its parts;
      wrappers and inline scripts are transparent; a destructive command on a protected path is
      denied under every justification, for every spelling that resolves to the path; the
      protected-path check is exactly its specification on path components.
    - Graph: every reachable graph has unique ids, resolved dependencies and no cycle; nothing
      finishes before its dependencies; finished work is immutable; a composite and a deep plan
      close only through a gate that named what it had to; the scheduler cannot deadlock; the
      driver terminates.  Bridge: lowering then lifting is the identity, and the ready sets agree.
    - Schemas: what is sent conforms to the dialect, keeps the meaning of the schema, and is a
      fixed point; a provider's rejections cause a bounded number of retries.
    - Devices: trust needs an invite, an invite survives fewer than five wrong guesses, a spent
      secret is gone, a forgotten device is refused; a listing misses no session.
    - Providers: the vocabularies read back, catalogs are merged without loss, the failover decision
      is characterised, a session that switched is restored to what it switched to.
    - Compaction: the cutoff is the largest one that separates no result from its call; image
      stripping is minimal; after every interleaving of messages, background tasks, hard compactions,
      recoveries and restarts ([reachable]) a request leaves nothing out that no summary stands for and
      has no result without its call; the character count is exact; a hard compaction cuts where it
      can; a restart changes no request; with a stall window nothing panics.  Channels: the two maps are one relation.
    - Requests: to OpenAI every call is followed at once by its output and no output stands alone, and
      the passes compute a reference that reads the conversation once; to Anthropic messages alternate,
      every call is answered in the next message and only once, at most four markers are set, a
      conversation that grows keeps the prefix the provider cached, and the tools offered exist.
    - Sessions: after every sequence of edits, saves and loads a save is read back, a transcript on disk
      is never wiped, the messages of a request are the transcript and their hashes those of its prefixes;
      a damaged line of a journal costs only itself.  A field that the journal forgets, a journal that
      outlives its snapshot and a torn character are evaluated beside the theorems.
    - Turns: the repair is one pass over the transcript and leaves no call without a result but those that
      were running; for every session and manager in a state they can reach, what the agent asks for becomes
      a request that Anthropic accepts.  Two ways in which the repair falls short are evaluated beside them.
    - Search: the byte search is the comparison of every window in lower case; a file whose text matches is
      never dropped by the first pass; no text with ordinary spaces makes a snippet panic, and one with a
      wide space that does is evaluated; no text closes the code block around it.
    - Streams: however a text is cut into chunks, the decoder returns the same text.

    ** Bounds and fuel

    - [assess] runs with the length of the command as fuel: a nested script is shorter than the
      segment it stands in ([assess_total]).  [kahn_loop] counts visited ids.  [gate_id_from] tries
      at most [length (nodes g)] suffixes before a fresh one.  [run_loop] needs [S max_steps] rounds.
    - Scans of a text ([mentions_from], [extract_all_from], [decode_go], [from_utf8_go]) take the
      length of the text and one more: each round consumes a byte.
    - [glob_loop] has [glob_fuel]: every step advances the text or the mark.  [parse_chunks] has
      [chunk_fuel], twice the lines left and two: a round consumes a line or is the first of its hunk.
    - [keep_loop] halves the turns it keeps and has one unit of fuel per turn.
    - The bisection of a page has [budget_fuel]; the peer asks for at most 64 pages.
    - Plan versions are [u64] and reclaim counters [u32]; both wrap in the model.  The guard's
      thresholds are computed on binary32.  Lengths and counts of data in memory are unbounded.

    ** Parameters and what is not modelled

    What is not in the repository is an argument of the definitions that use it, with what the code
    relies on as laws: the text of a JSON value ([serde_json]), the line diff ([similar]), git, the file
    system ([FileSystem], [FileSystemLaws]), the clock, the printing of floats, what a model summarizes
    or embeds and when a background task ends, [hex], timestamps, HTTP
    dates, random jitter, the byte scan of [memchr] ([Memchr], with an instance), lower case outside ASCII.  Everything a hook process, an HTTP policy or a model answers is an outcome,
    and so is what the file system makes of a write of a session ([Io]); the laws of [serde_json] that
    sessions need ([json_laws]) are met by a codec in [SessionStoreTheorems].
    Iteration order of a [HashMap] is arbitrary where the result could depend on it.

    Not modelled: serialization itself, sockets and TLS, the terminal interface and the desktop client,
    the HTTP clients of the providers, [mermaid.rs], the report texts of the swarm crate.  The manager
    of compaction is told of every message here; in the program a message whose notification finds
    the lock taken is not counted, and the count is computed anew while the two numbers differ.

    What is left, and why.  Most of the program is the terminal interface, the desktop client and the
    server: rendering, event loops, sockets and processes, which a model would have to invent rather than
    translate.  Of the rest, the report and label functions of [arterm-swarm-core], [mermaid.rs] and the
    pricing tables only build texts; the memory graph and the fuzzy scores are sums on binary32 over
    vectors an embedding model returns; [read.rs], [batch.rs] and [todo.rs] are glue over the file system
    and over other tools.  Of a session, crash detection, startup stubs and the files of other processes
    are left out. *)

From stdpp Require Export base gmap strings list sorting pretty fin_maps.
From Stdlib Require Export Sorting.Sorted.

#[export] Set Default Goal Selector "!".

(** ** Results of fallible operations *)

(** Rust's [Result<A, E>]. *)
Inductive result (A E : Type) : Type :=
  | Ok (a : A)
  | Err (e : E).
Arguments Ok {A E} a.
Arguments Err {A E} e.

Declare Scope arterm_scope.
Delimit Scope arterm_scope with arterm.
Open Scope arterm_scope.

(** [let? x := m in k] is Rust's [let x = m?; k]. *)
Notation "'let?' x ':=' m 'in' k" :=
  (match m with Ok x => k | Err e => Err e end)
  (at level 200, x pattern, m at level 100, k at level 200, right associativity,
   only parsing) : arterm_scope.

(** [let?? x := m in k] is the same for [Option]. *)
Notation "'let??' x ':=' m 'in' k" :=
  (match m with Some x => k | None => None end)
  (at level 200, x pattern, m at level 100, k at level 200, right associativity,
   only parsing) : arterm_scope.

#[export] Instance result_eq_dec {A E} `{EqDecision A, EqDecision E} :
  EqDecision (result A E).
Proof. solve_decision. Defined.

(** ** Stable insertion sort, the model of [slice::sort_by]

    [leb x y] is [cmp(x, y) != Greater].  Only the result order of a stable sort is
    observable, so the algorithm used to compute it is immaterial. *)
Section sort_by.
Context {A : Type} (leb : A → A → bool).

Fixpoint insert_by (x : A) (l : list A) : list A :=
  match l with
  | [] => [x]
  | y :: l' => if leb x y then x :: y :: l' else y :: insert_by x l'
  end.

Fixpoint sort_by (l : list A) : list A :=
  match l with
  | [] => []
  | x :: l' => insert_by x (sort_by l')
  end.

Lemma insert_by_perm x l : insert_by x l ≡ₚ x :: l.
Proof.
  induction l as [|y l IH]; simpl; [done|].
  destruct (leb x y); [done|]. rewrite IH. constructor.
Qed.

Lemma sort_by_perm l : sort_by l ≡ₚ l.
Proof. induction l as [|x l IH]; simpl; [done|]. by rewrite insert_by_perm, IH. Qed.

Lemma elem_of_sort_by x l : x ∈ sort_by l ↔ x ∈ l.
Proof. by rewrite sort_by_perm. Qed.

Lemma NoDup_sort_by l : NoDup l → NoDup (sort_by l).
Proof. by rewrite sort_by_perm. Qed.

Lemma length_sort_by l : length (sort_by l) = length l.
Proof. by rewrite sort_by_perm. Qed.

Context (leb_total : ∀ x y, leb x y = true ∨ leb y x = true).

Lemma insert_by_HdRel y x l :
  leb y x = true → HdRel (λ a b, leb a b = true) y l →
  HdRel (λ a b, leb a b = true) y (insert_by x l).
Proof.
  intros Hyx Hl. destruct l as [|z l]; simpl; [by constructor|].
  destruct (leb x z); constructor; [done|]. by inversion Hl.
Qed.

Lemma insert_by_sorted x l :
  Sorted (λ a b, leb a b = true) l → Sorted (λ a b, leb a b = true) (insert_by x l).
Proof using leb_total.
  induction l as [|y l IH]; simpl; intros Hl.
  - by repeat constructor.
  - destruct (leb x y) eqn:Hxy; [constructor; [done|by constructor]|].
    apply Sorted_inv in Hl as [Hl Hhd]. constructor; [by apply IH|].
    apply insert_by_HdRel; [|done]. destruct (leb_total x y); congruence.
Qed.

Lemma sort_by_sorted l : Sorted (λ a b, leb a b = true) (sort_by l).
Proof using leb_total.
  induction l as [|x l IH]; simpl; [constructor|]. by apply insert_by_sorted.
Qed.

Context (leb_trans : ∀ x y z, leb x y = true → leb y z = true → leb x z = true).

(** Every element precedes, in the order, all the elements after it. *)
Lemma sort_by_strongly_sorted l :
  StronglySorted (λ a b, leb a b = true) (sort_by l).
Proof using leb_total leb_trans.
  apply Sorted_StronglySorted; [|apply sort_by_sorted].
  intros x y z; apply leb_trans.
Qed.
End sort_by.

(** ** Lists and boolean predicates *)

Lemma existsb_elem {A} (f : A → bool) l :
  existsb f l = true ↔ ∃ x, x ∈ l ∧ f x = true.
Proof. rewrite existsb_exists. by setoid_rewrite list_elem_of_In. Qed.

Lemma existsb_elem_false {A} (f : A → bool) l :
  existsb f l = false ↔ ∀ x, x ∈ l → f x = false.
Proof.
  rewrite <- not_true_iff_false, existsb_elem. split.
  - intros H x Hx. apply not_true_iff_false. naive_solver.
  - intros H (x & Hx & Hf). rewrite H in Hf; done.
Qed.

Lemma forallb_elem {A} (f : A → bool) l :
  forallb f l = true ↔ ∀ x, x ∈ l → f x = true.
Proof. rewrite forallb_forall. by setoid_rewrite list_elem_of_In. Qed.

Lemma find_Some_elem {A} (f : A → bool) l x :
  List.find f l = Some x → x ∈ l ∧ f x = true.
Proof. intros H%List.find_some. by rewrite list_elem_of_In. Qed.

Lemma find_None_elem {A} (f : A → bool) l :
  List.find f l = None ↔ ∀ x, x ∈ l → f x = false.
Proof.
  split.
  - intros H x Hx%list_elem_of_In. by eapply List.find_none.
  - induction l as [|y l IH]; intros H; simpl; [done|].
    rewrite (H y); [|set_solver]. apply IH. intros x Hx. apply H. set_solver.
Qed.

Lemma bool_eq_iff (b c : bool) : (b = true ↔ c = true) → b = c.
Proof. destruct b, c; naive_solver. Qed.

Lemma bool_decide_eq_iff (P : Prop) `{Decision P} (b : bool) :
  (P ↔ b = true) → bool_decide P = b.
Proof. intros Hb. apply bool_eq_iff. by rewrite bool_decide_eq_true. Qed.

Lemma filter_ext_elem {A} (P Q : A → Prop) `{!∀ x, Decision (P x), !∀ x, Decision (Q x)} (l : list A) :
  (∀ x, x ∈ l → P x ↔ Q x) → filter P l = filter Q l.
Proof.
  induction l as [|y l IH]; intros HP; [done|]. rewrite !filter_cons.
  rewrite IH by set_solver. specialize (HP y ltac:(set_solver)).
  destruct (decide (P y)), (decide (Q y)); naive_solver.
Qed.

Lemma filter_all_elem {A} (P : A → Prop) `{!∀ x, Decision (P x)} (l : list A) :
  (∀ x, x ∈ l → P x) → filter P l = l.
Proof.
  induction l as [|y l IH]; intros HP; [done|].
  rewrite filter_cons_True by (apply HP; set_solver). rewrite IH; set_solver.
Qed.

Lemma omap_ext_elem {A B} (f f' : A → option B) (l : list A) :
  (∀ x, x ∈ l → f x = f' x) → omap f l = omap f' l.
Proof.
  induction l as [|y l IH]; intros H; [done|]. cbn.
  rewrite (H y) by set_solver. fold (omap (M:=list) f l) (omap (M:=list) f' l).
  by rewrite IH by set_solver.
Qed.

(** [l.iter().position(f)] *)
Fixpoint position {A} (f : A → bool) (l : list A) : option nat :=
  match l with
  | [] => None
  | x :: l => if f x then Some 0 else S <$> position f l
  end.

Lemma position_ext {A} (f g : A → bool) l : (∀ x, f x = g x) → position f l = position g l.
Proof. intros H. induction l as [|x l IH]; simpl; [done|]. by rewrite H, IH. Qed.

Lemma position_Some {A} (f : A → bool) l i :
  position f l = Some i → ∃ x, l !! i = Some x ∧ f x = true.
Proof.
  revert i. induction l as [|x l IH]; intros i; simpl; [done|]. case_match.
  - intros [= <-]. by exists x.
  - intros (j & Hj & ->)%fmap_Some. by apply IH.
Qed.

Lemma position_None {A} (f : A → bool) l : position f l = None ↔ ∀ x, x ∈ l → f x = false.
Proof.
  induction l as [|x l IH]; simpl; [split; [set_solver|done]|]. destruct (f x) eqn:E.
  - split; [done|]. intros H. rewrite H in E by left. done.
  - rewrite fmap_None, IH. split; [intros H y [->|Hy]%elem_of_cons; auto|intros H y Hy; apply H; by right].
Qed.

(** [Vec::is_empty] *)
Definition is_nil {A} (l : list A) : bool := match l with [] => true | _ => false end.

Lemma elem_of_concat_map {A B} (f : A → list B) (l : list A) i x y : l !! i = Some x → y ∈ f x → y ∈ concat (map f l).
Proof.
  revert i. induction l as [|z l IH]; intros [|i] H Hy; try done; cbn in *; apply elem_of_app; [left|right].
  - by injection H as ->.
  - by eapply IH.
Qed.

(** The last element of a [Vec], what [pop] returns. *)
Lemma last_app_singleton {A} (l : list A) (x : A) : last (l ++ [x]) = Some x.
Proof. by rewrite last_snoc. Qed.

(** The sum of a weight over a list. *)
Definition sum_of {A} (w : A → nat) (l : list A) : nat := sum_list_with w l.

Lemma sum_of_app {A} (w : A → nat) l1 l2 :
  sum_of w (l1 ++ l2) = sum_of w l1 + sum_of w l2.
Proof. apply sum_list_with_app. Qed.

Lemma sum_of_nil {A} (w : A → nat) : sum_of w [] = 0.
Proof. done. Qed.

Lemma sum_of_cons {A} (w : A → nat) x l : sum_of w (x :: l) = w x + sum_of w l.
Proof. done. Qed.

Lemma sum_of_singleton {A} (w : A → nat) x : sum_of w [x] = w x.
Proof. unfold sum_of. simpl. lia. Qed.

Lemma sum_of_perm {A} (w : A → nat) l1 l2 : l1 ≡ₚ l2 → sum_of w l1 = sum_of w l2.
Proof. unfold sum_of. induction 1; simpl; lia. Qed.

Lemma sum_of_zero {A} (w : A → nat) l :
  sum_of w l = 0 ↔ ∀ x, x ∈ l → w x = 0.
Proof.
  unfold sum_of. induction l as [|y l IH]; simpl.
  - split; [intros _ x Hx; set_solver|done].
  - rewrite Nat.eq_add_0, IH. set_solver.
Qed.

Lemma sum_of_ext {A} (w w' : A → nat) l :
  (∀ x, x ∈ l → w x = w' x) → sum_of w l = sum_of w' l.
Proof.
  unfold sum_of. induction l as [|y l IH]; intros H; simpl; [done|].
  rewrite (H y), IH; set_solver.
Qed.

Lemma sum_of_le {A} (w w' : A → nat) l :
  (∀ x, x ∈ l → w x ≤ w' x) → sum_of w l ≤ sum_of w' l.
Proof.
  unfold sum_of. induction l as [|y l IH]; intros H; simpl; [done|].
  apply Nat.add_le_mono; [apply H; set_solver|]. apply IH. set_solver.
Qed.

Lemma sum_of_elem {A} (w : A → nat) l x : x ∈ l → w x ≤ sum_of w l.
Proof.
  unfold sum_of. induction 1; simpl; lia.
Qed.

(** Deduplication that keeps the first occurrence, what collecting through a
    [HashSet::insert] filter computes. *)
Fixpoint dedup_first `{EqDecision A} (seen : list A) (l : list A) : list A :=
  match l with
  | [] => []
  | x :: l' => if bool_decide (x ∈ seen) then dedup_first seen l'
               else x :: dedup_first (x :: seen) l'
  end.

Section dedup_first.
Context `{EqDecision A}.

Lemma elem_of_dedup_first (seen l : list A) x :
  x ∈ dedup_first seen l ↔ x ∈ l ∧ x ∉ seen.
Proof.
  revert seen. induction l as [|y l IH]; intros seen; simpl; [set_solver|].
  case_bool_decide; [rewrite IH; set_solver|].
  rewrite elem_of_cons, IH. destruct (decide (x = y)); set_solver.
Qed.

Lemma NoDup_dedup_first (seen l : list A) : NoDup (dedup_first seen l).
Proof.
  revert seen. induction l as [|y l IH]; intros seen; simpl; [constructor|].
  case_bool_decide; [done|]. constructor; [|done].
  rewrite elem_of_dedup_first. set_solver.
Qed.

Lemma dedup_first_id (seen l : list A) :
  NoDup l → (∀ x, x ∈ l → x ∉ seen) → dedup_first seen l = l.
Proof.
  revert seen. induction l as [|y l IH]; intros seen Hl Hs; simpl; [done|].
  apply NoDup_cons in Hl as [Hy Hl]. rewrite bool_decide_false by set_solver.
  f_equal. apply IH; [done|]. set_solver.
Qed.
End dedup_first.

(** ** Automation *)

Create HintDb arterm discriminated.

(** [destruct_or] style cleanup of boolean hypotheses. *)
Ltac simp_bool :=
  repeat match goal with
  | H : _ && _ = true |- _ => apply andb_true_iff in H as [? ?]
  | H : _ || _ = false |- _ => apply orb_false_iff in H as [? ?]
  | H : negb _ = true |- _ => apply negb_true_iff in H
  | H : negb _ = false |- _ => apply negb_false_iff in H
  | H : bool_decide _ = true |- _ => apply bool_decide_eq_true in H
  | H : bool_decide _ = false |- _ => apply bool_decide_eq_false in H
  end.

(** Walk through the guards of a handler whose result is known. *)
Ltac walk_guards :=
  repeat match goal with
  | H : context [match ?x with _ => _ end] |- _ =>
      lazymatch type of H with
      | _ = Ok _ => destruct x eqn:?; try discriminate H
      | _ = Some _ => destruct x eqn:?; try discriminate H
      end
  end.
