(* ===== verification/RustStr.v ===== *)
(** * Rust's [str] and [String] operations over bytes

    A Rust string is a valid UTF-8 byte sequence; here it is a [string], the list of its
    bytes.  [len], [find], [starts_with] and comparison are byte operations in Rust too.
    The operations the program applies [char]-wise ([chars], [trim], splitting on an ASCII
    character) agree with the byte-wise definitions below on valid UTF-8, because no byte
    of a multi-byte character is an ASCII byte, and a valid pattern can only match at a
    character boundary.  [trim] recognises the whole Unicode [White_Space] set through its
    UTF-8 encodings. *)

From Stdlib Require Export Ascii.
From Stdlib Require String.
From S2P Require Export Prelude.

#[global] Arguments String.append : simpl nomatch.

(** ** Characters *)

Definition dquote : ascii := "034"%char.
Definition newline : ascii := "010"%char.
Definition tab : ascii := "009"%char.
Definition str1 (c : ascii) : string := String c "".
Definition nl : string := str1 newline.

Definition byte (c : ascii) : N := N_of_ascii c.

Definition is_ascii_digit (c : ascii) : bool := ((48 <=? byte c) && (byte c <=? 57))%N.
Definition is_ascii_upper (c : ascii) : bool := ((65 <=? byte c) && (byte c <=? 90))%N.
Definition is_ascii_lower (c : ascii) : bool := ((97 <=? byte c) && (byte c <=? 122))%N.
Definition is_ascii_alphanumeric (c : ascii) : bool :=
  is_ascii_digit c || is_ascii_upper c || is_ascii_lower c.

Definition to_ascii_lowercase_char (c : ascii) : ascii :=
  if is_ascii_upper c then ascii_of_N (byte c + 32) else c.

Fixpoint string_map (f : ascii → ascii) (s : string) : string :=
  match s with
  | EmptyString => EmptyString
  | String c s' => String (f c) (string_map f s')
  end.

Definition to_ascii_lowercase : string → string := string_map to_ascii_lowercase_char.

(** [str::to_lowercase], as far as a comparison with an ASCII word can tell: the ASCII
    letters, and the one other character whose lower case is ASCII, U+212A KELVIN SIGN
    (bytes E2 84 AA), which becomes [k].  The rest of the text keeps a non-ASCII character
    where it had one. *)
Fixpoint to_lowercase (s : string) : string :=
  match s with
  | EmptyString => EmptyString
  | String a s1 =>
      match s1 with
      | String b (String c s3) =>
          if ((byte a =? 226) && (byte b =? 132) && (byte c =? 170))%N
          then String "k" (to_lowercase s3)
          else String (to_ascii_lowercase_char a) (to_lowercase s1)
      | _ => String (to_ascii_lowercase_char a) (to_lowercase s1)
      end
  end.

Fixpoint string_forallb (f : ascii → bool) (s : string) : bool :=
  match s with
  | EmptyString => true
  | String c s' => f c && string_forallb f s'
  end.

(** The number of bytes of the character a lead byte starts ([char::len_utf8]). *)
Definition utf8_len (c : ascii) : nat :=
  if (byte c <? 128)%N then 1 else
  if (byte c <? 224)%N then 2 else
  if (byte c <? 240)%N then 3 else 4.

(** [str::is_char_boundary]: the ends, and every byte that is not a continuation byte. *)
Definition is_continuation (c : ascii) : bool := ((128 <=? byte c) && (byte c <? 192))%N.

(** The number of [char]s of a string. *)
Fixpoint char_count (s : string) : nat :=
  match s with
  | EmptyString => 0
  | String c s' => (if is_continuation c then 0 else 1) + char_count s'
  end.

(** ** Slices *)

(** [&s[n..]] *)
Fixpoint str_drop (n : nat) (s : string) : string :=
  match n, s with
  | 0, _ => s
  | S n', String _ s' => str_drop n' s'
  | S _, EmptyString => EmptyString
  end.

(** [&s[..n]] *)
Fixpoint str_take (n : nat) (s : string) : string :=
  match n, s with
  | S n', String c s' => String c (str_take n' s')
  | _, _ => EmptyString
  end.

Definition is_empty (s : string) : bool :=
  match s with EmptyString => true | String _ _ => false end.

Definition first_char (s : string) : option ascii :=
  match s with EmptyString => None | String c _ => Some c end.

(** [s.chars().next_back()], on the last byte. *)
Fixpoint last_char (s : string) : option ascii :=
  match s with
  | EmptyString => None
  | String c EmptyString => Some c
  | String _ s' => last_char s'
  end.

(** ** Patterns *)

Definition starts_with (p s : string) : bool := String.prefix p s.

Definition strip_prefix (p s : string) : option string :=
  if starts_with p s then Some (str_drop (String.length p) s) else None.

(** [s.find(p)]: the byte offset of the first occurrence. *)
Fixpoint str_find (p s : string) : option nat :=
  if starts_with p s then Some 0 else
  match s with
  | EmptyString => None
  | String _ s' => S <$> str_find p s'
  end.

Definition contains (p s : string) : bool :=
  match str_find p s with Some _ => true | None => false end.

Fixpoint contains_char (c : ascii) (s : string) : bool :=
  match s with
  | EmptyString => false
  | String d s' => Ascii.eqb c d || contains_char c s'
  end.

(** [s.replace(p, to)] for a non-empty [p]: leftmost non-overlapping occurrences.  [skip]
    counts the bytes of an occurrence that are still to be dropped. *)
Fixpoint replace_go (p to : string) (skip : nat) (s : string) : string :=
  match s with
  | EmptyString => EmptyString
  | String c s' =>
      match skip with
      | S k => replace_go p to k s'
      | 0 => if starts_with p s
             then to +:+ replace_go p to (String.length p - 1) s'
             else String c (replace_go p to 0 s')
      end
  end.

Definition replace (p to s : string) : string := replace_go p to 0 s.

(** [s.split_once(c)] *)
Fixpoint split_once (c : ascii) (s : string) : option (string * string) :=
  match s with
  | EmptyString => None
  | String d s' =>
      if Ascii.eqb c d then Some (EmptyString, s')
      else match split_once c s' with
           | Some (a, b) => Some (String d a, b)
           | None => None
           end
  end.

(** [s.split(c)] *)
Fixpoint split_on (c : ascii) (s : string) : list string :=
  match s with
  | EmptyString => [EmptyString]
  | String d s' =>
      if Ascii.eqb c d then EmptyString :: split_on c s'
      else match split_on c s' with
           | w :: ws => String d w :: ws
           | [] => [String d EmptyString]
           end
  end.

(** [s.rsplit(c).next()]: the text after the last [c]. *)
Fixpoint after_last (c : ascii) (s : string) : string :=
  match s with
  | EmptyString => EmptyString
  | String d s' => if contains_char c s then
                     (if contains_char c s' then after_last c s' else s')
                   else s
  end.

(** [s.rsplit_once(c)] *)
Definition rsplit_once (c : ascii) (s : string) : option (string * string) :=
  let?? (after, before) := split_once c (String.rev s) in Some (String.rev before, String.rev after).

(** [s.strip_suffix(p)] *)
Definition strip_suffix (p s : string) : option string :=
  String.rev <$> strip_prefix (String.rev p) (String.rev s).

(** [s.ends_with(p)] *)
Definition ends_with (p s : string) : bool := starts_with (String.rev p) (String.rev s).

(** [a.eq_ignore_ascii_case(b)] *)
Definition eq_ignore_ascii_case (a b : string) : bool :=
  String.eqb (to_ascii_lowercase a) (to_ascii_lowercase b).

(** A [match] on string literals with one outcome: [matches!(s, l1 | l2 | ...)]. *)
Definition one_of (l : list string) (s : string) : bool := existsb (String.eqb s) l.
#[global] Arguments one_of : simpl never.

(** ** White space *)

Definition ws_ascii (c : ascii) : bool :=
  ((9 <=? byte c) && (byte c <=? 13) || (byte c =? 32))%N.

(** U+0085 and U+00A0. *)
Definition ws_two (a b : ascii) : bool :=
  ((byte a =? 194) && ((byte b =? 133) || (byte b =? 160)))%N.

(** U+1680, U+2000 to U+200A, U+2028, U+2029, U+202F, U+205F and U+3000. *)
Definition ws_three (a b c : ascii) : bool :=
  ((byte a =? 225) && (byte b =? 154) && (byte c =? 128)
   || (byte a =? 226) && (byte b =? 128) &&
      ((128 <=? byte c) && (byte c <=? 138) || (byte c =? 168) || (byte c =? 169)
       || (byte c =? 175))
   || (byte a =? 226) && (byte b =? 129) && (byte c =? 159)
   || (byte a =? 227) && (byte b =? 128) && (byte c =? 128))%N.

Fixpoint trim_start (s : string) : string :=
  match s with
  | EmptyString => EmptyString
  | String a s1 =>
      if ws_ascii a then trim_start s1 else
      match s1 with
      | EmptyString => s
      | String b s2 =>
          if ws_two a b then trim_start s2 else
          match s2 with
          | EmptyString => s
          | String c s3 => if ws_three a b c then trim_start s3 else s
          end
      end
  end.

(** [trim_start] on the reversed string. *)
Fixpoint trim_start_rev (s : string) : string :=
  match s with
  | EmptyString => EmptyString
  | String a s1 =>
      if ws_ascii a then trim_start_rev s1 else
      match s1 with
      | EmptyString => s
      | String b s2 =>
          if ws_two b a then trim_start_rev s2 else
          match s2 with
          | EmptyString => s
          | String c s3 => if ws_three c b a then trim_start_rev s3 else s
          end
      end
  end.

Definition trim_end (s : string) : string := String.rev (trim_start_rev (String.rev s)).

Definition trim (s : string) : string := trim_end (trim_start s).

Fixpoint drop_while (f : ascii → bool) (s : string) : string :=
  match s with
  | EmptyString => EmptyString
  | String c s' => if f c then drop_while f s' else s
  end.

Fixpoint take_while (f : ascii → bool) (s : string) : string :=
  match s with
  | EmptyString => EmptyString
  | String c s' => if f c then String c (take_while f s') else EmptyString
  end.

(** [s.trim_end_matches(f)] for a set of ASCII characters. *)
Definition trim_end_matches (f : ascii → bool) (s : string) : string :=
  String.rev (drop_while f (String.rev s)).

(** [s.chars()], each character as its bytes: a continuation byte belongs to the byte before it. *)
Fixpoint chars (s : string) : list string :=
  match s with
  | EmptyString => []
  | String c s =>
      match chars s with
      | w :: ws =>
          match w with
          | String d _ => if is_continuation d then String c w :: ws else str1 c :: w :: ws
          | EmptyString => str1 c :: ws
          end
      | [] => [str1 c]
      end
  end.

(** [s.split_whitespace()], with the word read so far. *)
(** [char::is_alphanumeric] on a character given as its bytes; which characters outside ASCII are
    alphanumeric is a parameter. *)
Definition is_alphanumeric (wide_alphanumeric : string → bool) (w : string) : bool :=
  match w with
  | EmptyString => false
  | String c _ => if (byte c <? 128)%N then is_ascii_alphanumeric c else wide_alphanumeric w
  end.

Definition flush_word (word : string) : list string := if is_empty word then [] else [word].

Fixpoint split_ws (word s : string) : list string :=
  match s with
  | EmptyString => flush_word word
  | String a s1 =>
      if ws_ascii a then flush_word word ++ split_ws "" s1 else
      match s1 with
      | EmptyString => split_ws (word +:+ str1 a) s1
      | String b s2 =>
          if ws_two a b then flush_word word ++ split_ws "" s2 else
          match s2 with
          | EmptyString => split_ws (word +:+ str1 a) s1
          | String c s3 =>
              if ws_three a b c then flush_word word ++ split_ws "" s3
              else split_ws (word +:+ str1 a) s1
          end
      end
  end%list.

Definition split_whitespace (s : string) : list string := split_ws "" s.

(** ** Lines *)

Definition strip_cr (s : string) : string :=
  match last_char s with
  | Some c => if Ascii.eqb c "013"%char then str_take (String.length s - 1) s else s
  | None => s
  end.

(** [s.lines()]: split at newlines, one trailing carriage return removed from each
    terminated line, and no last empty line. *)
Fixpoint lines_of (ws : list string) : list string :=
  match ws with
  | [] => []
  | [w] => if is_empty w then [] else [w]
  | w :: ws' => strip_cr w :: lines_of ws'
  end.

Definition lines (s : string) : list string := lines_of (split_on newline s).

(** The decimal rendering of an unsigned integer by [format!]. *)
Definition show_nat (n : nat) : string := pretty n.
Definition show_N (n : N) : string := pretty n.

(** ** Lemmas *)

Lemma str_app_nil_r (s : string) : s +:+ "" = s.
Proof. induction s as [|c s IH]; simpl; [done|]. by rewrite IH. Qed.

Lemma str_app_assoc (a b c : string) : a +:+ (b +:+ c) = (a +:+ b) +:+ c.
Proof. induction a as [|x a IH]; simpl; [done|]. by rewrite IH. Qed.

Lemma str_length_app (a b : string) :
  String.length (a +:+ b) = String.length a + String.length b.
Proof. induction a as [|x a IH]; simpl; [done|]. by rewrite IH. Qed.

Lemma str_app_inj_l (a b c : string) : a +:+ b = a +:+ c → b = c.
Proof. induction a; simpl; [done|]. intros [= ?]. auto. Qed.

Lemma starts_with_iff (p s : string) : starts_with p s = true ↔ ∃ t, s = p +:+ t.
Proof.
  unfold starts_with. revert s. induction p as [|c p IH]; intros s.
  { destruct s; simpl; naive_solver. }
  destruct s as [|d s]; simpl.
  - split; [done|]. intros [t Ht]. done.
  - destruct (ascii_dec c d) as [->|Hne].
    + rewrite IH. split; intros [t Ht]; exists t; by simplify_eq.
    + split; [done|]. intros [t Ht]. by simplify_eq.
Qed.

Lemma starts_with_refl s : starts_with s s = true.
Proof. apply starts_with_iff. exists "". by rewrite str_app_nil_r. Qed.

Lemma starts_with_app p t : starts_with p (p +:+ t) = true.
Proof. apply starts_with_iff. by exists t. Qed.

Lemma str_drop_app (a b : string) : str_drop (String.length a) (a +:+ b) = b.
Proof. by induction a. Qed.

Lemma str_take_app (a b : string) : str_take (String.length a) (a +:+ b) = a.
Proof. induction a as [|x a IH]; simpl; [by destruct b|]. by rewrite IH. Qed.

Lemma str_take_drop n (s : string) : str_take n s +:+ str_drop n s = s.
Proof. revert s. induction n; intros [|c s]; simpl; try done. by rewrite IHn. Qed.

Lemma str_length_take n (s : string) :
  n <= String.length s → String.length (str_take n s) = n.
Proof.
  revert s. induction n as [|n IH]; intros s Hn; [by destruct s|].
  destruct s as [|c s]; simpl in *; [lia|]. rewrite IH; lia.
Qed.

Lemma str_length_drop n (s : string) :
  String.length (str_drop n s) = String.length s - n.
Proof.
  revert s. induction n as [|n IH]; intros s; simpl; [lia|].
  destruct s as [|c s]; simpl; [done|]. apply IH.
Qed.

Lemma strip_prefix_Some p s t : strip_prefix p s = Some t ↔ s = p +:+ t.
Proof.
  unfold strip_prefix. destruct (starts_with p s) eqn:Hp.
  - apply starts_with_iff in Hp as [u ->]. rewrite str_drop_app.
    split; [by intros [= ->]|]. by intros ->%str_app_inj_l.
  - split; [done|]. intros ->. by rewrite starts_with_app in Hp.
Qed.

Lemma str_find_Some p s n :
  str_find p s = Some n → ∃ a b, s = a +:+ p +:+ b ∧ String.length a = n.
Proof.
  revert n. induction s as [|c s IH]; intros n; cbn [str_find].
  - destruct (starts_with p "") eqn:Hp; [|done]. intros [= <-].
    apply starts_with_iff in Hp as [t Ht]. by exists "", t.
  - destruct (starts_with p (String c s)) eqn:Hp.
    + intros [= <-]. apply starts_with_iff in Hp as [t ->]. by exists "", t.
    + destruct (str_find p s) as [m|] eqn:Hs; [|done]. intros [= <-].
      destruct (IH m eq_refl) as (a & b & -> & Ha).
      exists (String c a), b. simpl. by rewrite Ha.
Qed.

Lemma str_find_None p s : str_find p s = None → ∀ a b, s ≠ a +:+ p +:+ b.
Proof.
  induction s as [|c s IH]; cbn [str_find]; intros Hf a b Hab.
  - destruct (starts_with p "") eqn:Hp; [done|].
    destruct a; simpl in Hab; [|done]. rewrite Hab, starts_with_app in Hp. done.
  - destruct (starts_with p (String c s)) eqn:Hp; [done|].
    destruct (str_find p s) eqn:Hs; [done|].
    destruct a as [|x a]; simpl in Hab.
    + rewrite Hab, starts_with_app in Hp. done.
    + injection Hab as _ Hab. by apply (IH eq_refl a b).
Qed.

(** The offset [find] returns is that of the first occurrence. *)
Lemma str_find_first p s n a b :
  str_find p s = Some n → s = a +:+ p +:+ b → n <= String.length a.
Proof.
  revert n a. induction s as [|c s IH]; intros n a; cbn [str_find].
  - destruct (starts_with p ""); [|done]. intros [= <-] _. lia.
  - destruct (starts_with p (String c s)) eqn:Hp; [intros [= <-] _; lia|].
    destruct (str_find p s) as [m|] eqn:Hs; [|done]. intros [= <-] Hab.
    destruct a as [|x a]; simpl in Hab |- *.
    + rewrite Hab, starts_with_app in Hp. done.
    + injection Hab as _ Hab. specialize (IH m a eq_refl Hab). lia.
Qed.

Lemma contains_iff p s : contains p s = true ↔ ∃ a b, s = a +:+ p +:+ b.
Proof.
  unfold contains. destruct (str_find p s) as [n|] eqn:Hs.
  - apply str_find_Some in Hs as (a & b & -> & _). naive_solver.
  - split; [done|]. intros (a & b & Hab). by destruct (str_find_None p s Hs a b).
Qed.

Lemma contains_char_app c (a b : string) :
  contains_char c (a +:+ b) = contains_char c a || contains_char c b.
Proof. induction a as [|x a IH]; simpl; [done|]. by rewrite IH, orb_assoc. Qed.

Lemma string_map_app f a b : string_map f (a +:+ b) = string_map f a +:+ string_map f b.
Proof.
  induction a as [|c a IH]; [done|]. change (String c a +:+ b) with (String c (a +:+ b)).
  simpl. by rewrite IH.
Qed.

Lemma string_map_id f s : string_forallb (λ c, Ascii.eqb (f c) c) s = true → string_map f s = s.
Proof.
  induction s as [|c s IH]; simpl; [done|]. by intros [->%Ascii.eqb_eq ->%IH]%andb_true_iff.
Qed.

Lemma string_forallb_impl (f g : ascii → bool) s :
  (∀ c, f c = true → g c = true) → string_forallb f s = true → string_forallb g s = true.
Proof.
  intros H. induction s as [|c s IH]; simpl; [done|]. intros [?%H ?%IH]%andb_true_iff.
  by apply andb_true_iff.
Qed.

Lemma string_forallb_app f (a b : string) :
  string_forallb f (a +:+ b) = string_forallb f a && string_forallb f b.
Proof. induction a as [|x a IH]; simpl; [done|]. by rewrite IH, andb_assoc. Qed.

Lemma is_empty_true s : is_empty s = true ↔ s = "".
Proof. by destruct s. Qed.

Lemma is_empty_false s : is_empty s = false ↔ s ≠ "".
Proof. by destruct s. Qed.

(** ** Reversal and trimming *)

Lemma rev_app_app a b : String.rev_app a b = String.rev a +:+ b.
Proof.
  unfold String.rev. revert b. induction a as [|c a IH]; intros b; simpl; [done|].
  rewrite IH. rewrite (IH (String c "")). by rewrite <- str_app_assoc.
Qed.

Lemma rev_cons c a : String.rev (String c a) = String.rev a +:+ str1 c.
Proof. unfold String.rev. simpl. by rewrite rev_app_app. Qed.

Lemma rev_app a b : String.rev (a +:+ b) = String.rev b +:+ String.rev a.
Proof.
  induction a as [|c a IH]; simpl; [by rewrite str_app_nil_r|].
  by rewrite !rev_cons, IH, str_app_assoc.
Qed.

Lemma rev_rev a : String.rev (String.rev a) = a.
Proof. induction a as [|c a IH]; [done|]. by rewrite rev_cons, rev_app, IH. Qed.

Lemma string_forallb_rev f a : string_forallb f (String.rev a) = string_forallb f a.
Proof.
  induction a as [|c a IH]; [done|]. rewrite rev_cons, string_forallb_app, IH. simpl.
  by rewrite andb_true_r, andb_comm.
Qed.

(** An ASCII character that is not white space stops trimming. *)
Definition solid (c : ascii) : bool := (byte c <? 128)%N && negb (ws_ascii c).

(** No byte of a wide white-space character is an ASCII character. *)
Lemma ascii_not_ws c :
  (byte c < 128)%N →
  (∀ b, ws_two c b = false) ∧ (∀ b, ws_two b c = false)
  ∧ (∀ b d, ws_three c b d = false) ∧ (∀ b d, ws_three b c d = false) ∧ (∀ b d, ws_three b d c = false).
Proof.
  intros Hlt.
  assert (∀ k, (128 <= k)%N → (byte c =? k)%N = false) as He
    by (intros; apply N.eqb_neq; lia).
  assert (∀ k, (128 <= k)%N → (k <=? byte c)%N = false) as Hl
    by (intros; apply N.leb_gt; lia).
  unfold ws_two, ws_three. split_and!; intros;
    rewrite ?(He 194%N), ?(He 133%N), ?(He 160%N), ?(He 225%N), ?(He 226%N), ?(He 227%N),
      ?(He 154%N), ?(He 128%N), ?(He 129%N), ?(He 168%N), ?(He 169%N), ?(He 175%N), ?(He 159%N), ?(Hl 128%N) by lia;
    simpl; rewrite ?andb_false_r; reflexivity.
Qed.

Lemma solid_spec c :
  solid c = true →
  ws_ascii c = false ∧ (∀ b, ws_two c b = false) ∧ (∀ b, ws_two b c = false)
  ∧ (∀ b d, ws_three c b d = false) ∧ (∀ b d, ws_three b d c = false).
Proof.
  unfold solid. intros [Hlt%N.ltb_lt Hw%negb_true_iff]%andb_true_iff.
  by destruct (ascii_not_ws c Hlt) as (? & ? & ? & ? & ?).
Qed.

Lemma trim_start_ws ws s : string_forallb ws_ascii ws = true → trim_start (ws +:+ s) = trim_start s.
Proof.
  induction ws as [|c ws IH]; simpl; [done|].
  intros [Hc Hws]%andb_true_iff. change (String c ws +:+ s) with (String c (ws +:+ s)).
  cbn [trim_start]. rewrite Hc. auto.
Qed.

Lemma trim_start_rev_ws ws s :
  string_forallb ws_ascii ws = true → trim_start_rev (ws +:+ s) = trim_start_rev s.
Proof.
  induction ws as [|c ws IH]; simpl; [done|].
  intros [Hc Hws]%andb_true_iff. change (String c ws +:+ s) with (String c (ws +:+ s)).
  cbn [trim_start_rev]. rewrite Hc. auto.
Qed.

Lemma trim_start_solid c s : solid c = true → trim_start (String c s) = String c s.
Proof.
  intros (H1 & H2 & _ & H3 & _)%solid_spec. cbn [trim_start]. rewrite H1.
  destruct s as [|b s]; [done|]. rewrite H2. destruct s as [|d s]; [done|]. by rewrite H3.
Qed.

Lemma trim_start_rev_solid c s : solid c = true → trim_start_rev (String c s) = String c s.
Proof.
  intros (H1 & _ & H2 & _ & H3)%solid_spec. cbn [trim_start_rev]. rewrite H1.
  destruct s as [|b s]; [done|]. rewrite H2. destruct s as [|d s]; [done|]. by rewrite H3.
Qed.

(** Trimming removes exactly the padding of a text with solid ends. *)
Lemma trim_padded ws1 s ws2 c1 t1 c2 t2 :
  string_forallb ws_ascii ws1 = true → string_forallb ws_ascii ws2 = true →
  s = String c1 t1 → s = t2 +:+ str1 c2 → solid c1 = true → solid c2 = true →
  trim (ws1 +:+ s +:+ ws2) = s.
Proof.
  intros Hw1 Hw2 H1 H2 Hc1 Hc2. unfold trim.
  rewrite trim_start_ws by done. rewrite H1 at 1.
  change (String c1 t1 +:+ ws2) with (String c1 (t1 +:+ ws2)).
  rewrite trim_start_solid by done.
  change (String c1 (t1 +:+ ws2)) with (String c1 t1 +:+ ws2). rewrite <- H1.
  unfold trim_end. rewrite rev_app, trim_start_rev_ws by (by rewrite string_forallb_rev).
  rewrite H2, rev_app. change (String.rev (str1 c2)) with (str1 c2).
  change (str1 c2 +:+ String.rev t2) with (String c2 (String.rev t2)).
  rewrite trim_start_rev_solid by done. by rewrite rev_cons, rev_rev.
Qed.

Lemma drop_while_app f a b :
  string_forallb f a = true → drop_while f (a +:+ b) = drop_while f b.
Proof.
  induction a as [|c a IH]; simpl; [done|]. intros [Hc Ha]%andb_true_iff.
  change (String c a +:+ b) with (String c (a +:+ b)). cbn [drop_while]. rewrite Hc. auto.
Qed.

(** [trim_end_matches] removes exactly a matching tail. *)
Lemma trim_end_matches_tail f s p c t :
  string_forallb f p = true → s = t +:+ str1 c → f c = false →
  trim_end_matches f (s +:+ p) = s.
Proof.
  intros Hp -> Hc. unfold trim_end_matches.
  rewrite rev_app, drop_while_app by (by rewrite string_forallb_rev).
  rewrite rev_app. change (String.rev (str1 c) +:+ String.rev t) with (String c (String.rev t)).
  cbn [drop_while]. rewrite Hc. by rewrite rev_cons, rev_rev.
Qed.

(** ** The byte-wise order of [str] *)

Lemma str_leb_total a b : String.leb a b = true ∨ String.leb b a = true.
Proof. apply String.leb_total. Qed.

Lemma str_leb_antisym a b : String.leb a b = true → String.leb b a = true → a = b.
Proof. apply String.leb_antisym. Qed.

Lemma str_leb_trans a b c :
  String.leb a b = true → String.leb b c = true → String.leb a c = true.
Proof.
  intros Hab Hbc. assert (String.le a c) as H; [|by apply Is_true_true in H].
  transitivity b; by apply Is_true_true.
Qed.

Lemma str_leb_refl a : String.leb a a = true.
Proof. by destruct (str_leb_total a a). Qed.

(** [sort] on a vector of strings. *)
Definition sort_strings (l : list string) : list string := sort_by String.leb l.

Lemma elem_of_sort_strings x l : x ∈ sort_strings l ↔ x ∈ l.
Proof. apply elem_of_sort_by. Qed.

Lemma sort_strings_perm l : sort_strings l ≡ₚ l.
Proof. apply sort_by_perm. Qed.

(** Sorting forgets the order of its input. *)
Lemma sort_strings_Permutation l1 l2 : l1 ≡ₚ l2 → sort_strings l1 = sort_strings l2.
Proof.
  intros Hp. unfold sort_strings.
  eapply (StronglySorted_unique_strong (λ a b, String.leb a b = true)).
  - intros; by apply str_leb_antisym.
  - apply sort_by_strongly_sorted; [apply str_leb_total|apply str_leb_trans].
  - apply sort_by_strongly_sorted; [apply str_leb_total|apply str_leb_trans].
  - by rewrite !sort_by_perm.
Qed.

Lemma show_nat_inj a b : show_nat a = show_nat b → a = b.
Proof. apply pretty_nat_inj. Qed.

#[export] Hint Rewrite str_app_nil_r str_length_app str_drop_app str_take_app : arterm.

(** ** Evaluation checks *)

Example trim_ex : trim "  a b	 " = "a b". Proof. reflexivity. Qed.
Example replace_ex : replace "$HOME" "/h" "$HOME/x$HOME" = "/h/x/h".
Proof. reflexivity. Qed.
Example split_ex : split_on "/" "/a//b" = [""; "a"; ""; "b"]. Proof. reflexivity. Qed.
Example after_last_ex : after_last "/" "/bin/rm" = "rm". Proof. reflexivity. Qed.
Example lines_ex : lines ("a" +:+ nl +:+ "b" +:+ nl) = ["a"; "b"].
Proof. reflexivity. Qed.
