(* ===== verification/Floats.v ===== *)
(** * [f32] and [f64]

    The floating-point operations of Rust that the code uses, on [SpecFloat]: binary32 and binary64,
    every result rounded to nearest even.  A constant of the source is the value nearest to its
    decimal, which [f32_ratio] computes by one correctly rounded division. *)


From Stdlib Require Export ZArith SpecFloat.
From S2P Require Export RustStr.

(** [n as f32], [x * y], ... on binary32. *)
Definition f32_of (n : N) : spec_float := binary_normalize 24 128 (Z.of_N n) 0 false.
Definition f32_add : spec_float → spec_float → spec_float := SFadd 24 128.
Definition f32_mul : spec_float → spec_float → spec_float := SFmul 24 128.
Definition f32_div : spec_float → spec_float → spec_float := SFdiv 24 128.
Definition f32_sqrt : spec_float → spec_float := SFsqrt 24 128.

(** [n / d] for integers below [2^24]. *)
Definition f32_ratio (n d : N) : spec_float := f32_div (f32_of n) (f32_of d).

(** [x as usize]: toward zero, saturating. *)
Definition f32_to_usize (x : spec_float) : N :=
  match x with
  | S754_finite false m e => N.min (Z.to_N (Z.shiftl (Zpos m) e)) (2 ^ 64 - 1)
  | S754_infinity false => 2 ^ 64 - 1
  | _ => 0
  end.

(** [iter.sum::<f32>()] *)
Definition f32_sum (l : list spec_float) : spec_float := foldl f32_add (S754_zero true) l.

(** [x as f64] for an [f32], which is exact. *)
Definition f64_of_f32 (x : spec_float) : spec_float :=
  match x with
  | S754_finite s m e => binary_normalize 53 1024 (if s then Zneg m else Zpos m) e s
  | other => other
  end.

(** [n as f64] *)
Definition f64_of_N (n : N) : spec_float := binary_normalize 53 1024 (Z.of_N n) 0 false.
Definition f64_add : spec_float → spec_float → spec_float := SFadd 53 1024.
Definition f64_sub : spec_float → spec_float → spec_float := SFsub 53 1024.
Definition f64_times : spec_float → spec_float → spec_float := SFmul 53 1024.

(** [x.max(0.0)] *)
Definition f64_max0 (x : spec_float) : spec_float := if SFltb (S754_zero false) x then x else S754_zero false.

Example float_constants :
  f32_ratio 90 100 = S754_finite false 15099494 (-24) ∧ f32_ratio 30 100 = S754_finite false 10066330 (-25)
  ∧ f64_of_f32 (f32_ratio 80 100) = S754_finite false 7205759511166976 (-53).
Proof. by vm_compute. Qed.

(** * [arterm-plan]: the confidence rung (crates/arterm-plan/src/dag/mod.rs)

    [ConfidenceLevel::parse] reads free text: words first, then a number with an optional
    denominator.  Numbers are binary64: [parse_f64] rounds the decimal token once, to
    nearest even, and the arithmetic is [SpecFloat]'s. *)

Inductive ConfidenceLevel := ConfLow | ConfMedium | ConfHigh.

#[export] Instance ConfidenceLevel_eq_dec : EqDecision ConfidenceLevel.
Proof. solve_decision. Defined.

(** [ConfidenceLevel::as_str] *)
Definition confidence_str (l : ConfidenceLevel) : string :=
  match l with ConfLow => "low" | ConfMedium => "medium" | ConfHigh => "high" end.

(** ** binary64 *)

Definition f64_of_Z (z : Z) : spec_float := binary_normalize 53 1024 z 0 false.
Definition f64_mul : spec_float → spec_float → spec_float := SFmul 53 1024.
Definition f64_div : spec_float → spec_float → spec_float := SFdiv 53 1024.

(** The binary64 value nearest to [n / d]. *)
Definition f64_of_ratio (n : N) (d : positive) : spec_float :=
  match n with
  | N0 => S754_zero false
  | Npos p =>
      let '(mz, ez, lz) := SFdiv_core_binary 53 1024 (Zpos p) 0 (Zpos d) 0 in
      binary_round_aux 53 1024 false mz ez lz
  end.

Definition digit_value (c : ascii) : N := (byte c - 48)%N.

Fixpoint decimal_value (acc : N) (s : string) : N :=
  match s with
  | EmptyString => acc
  | String c s' => decimal_value (10 * acc + digit_value c) s'
  end.

Definition all_digits (s : string) : bool := string_forallb is_ascii_digit s.

(** [token.parse::<f64>()] on a token of digits and dots: at most one dot, at least one
    digit. *)
Definition parse_f64 (token : string) : option spec_float :=
  match split_on "." token with
  | [w] =>
      if all_digits w && negb (is_empty w)
      then Some (f64_of_ratio (decimal_value 0 w) 1) else None
  | [w; f] =>
      if all_digits w && all_digits f && negb (is_empty (w +:+ f))
      then Some (f64_of_ratio (decimal_value 0 (w +:+ f))
                   (Z.to_pos (10 ^ Z.of_nat (String.length f))))
      else None
  | _ => None
  end.

Definition is_number_char (c : ascii) : bool := is_ascii_digit c || Ascii.eqb c ".".

(** [extract_leading_number]: the first number of the text, its token and the rest. *)
Definition extract_leading_number (s : string) : option (spec_float * string * string) :=
  let rest := drop_while (λ c, negb (is_number_char c)) s in
  if is_empty rest then None
  else
    let token := take_while is_number_char rest in
    let?? value := parse_f64 token in
    Some (value, token, str_drop (String.length token) rest).

Definition NEGATIONS : list string :=
  ["not high"; "not confident"; "not certain"; "not sure"; "no confidence"; "unsure";
   "uncertain"].

(** The explicit denominator after a number, when it is positive. *)
Definition explicit_denominator (after0 : string) : option spec_float :=
  let after := trim_start after0 in
  let rest :=
    match strip_prefix "/" after with
    | Some r => Some r
    | None =>
        match strip_prefix "out of " after with
        | Some r => Some r
        | None => strip_prefix "of " after
        end
    end in
  let?? r := rest in
  let?? x := extract_leading_number (trim_start r) in
  let d := x.1.1 in
  if SFltb (f64_of_Z 0) d then Some d else None.

(** [ConfidenceLevel::parse] *)
Definition parse_confidence (raw : string) : option ConfidenceLevel :=
  let normalized := to_ascii_lowercase (trim raw) in
  if is_empty normalized then None
  else if existsb (λ neg, contains neg normalized) NEGATIONS then Some ConfLow
  else if contains "low" normalized then Some ConfLow
  else if contains "med" normalized || contains "moderate" normalized then Some ConfMedium
  else if contains "high" normalized || contains "certain" normalized
          || contains "confident" normalized then Some ConfHigh
  else
    let?? (value, raw_token, after) := extract_leading_number normalized in
    let percent :=
      match explicit_denominator after with
      | Some denominator => f64_mul (f64_div value denominator) (f64_of_Z 100)
      | None =>
          if contains "%" normalized || SFltb (f64_of_Z 10) value then value
          else if SFleb value (f64_of_Z 1) && contains "." raw_token
          then f64_mul value (f64_of_Z 100)
          else f64_mul value (f64_of_Z 10)
      end in
    Some (if SFltb percent (f64_of_Z 50) then ConfLow
          else if SFltb percent (f64_of_Z 80) then ConfMedium
          else ConfHigh).

(** ** The rung words read back *)

Lemma parse_confidence_str l : parse_confidence (confidence_str l) = Some l.
Proof. by destruct l; vm_compute. Qed.

Example conf1 : parse_confidence "Medium-high" = Some ConfMedium. Proof. by vm_compute. Qed.
Example conf2 : parse_confidence "7 out of 10" = Some ConfMedium. Proof. by vm_compute. Qed.
Example conf3 : parse_confidence "0.9" = Some ConfHigh. Proof. by vm_compute. Qed.
Example conf4 : parse_confidence "1/10" = Some ConfLow. Proof. by vm_compute. Qed.
Example conf5 : parse_confidence "1" = Some ConfLow. Proof. by vm_compute. Qed.
Example conf6 : parse_confidence "1.2.3" = None. Proof. by vm_compute. Qed.
Example conf7 : parse_confidence "not confident" = Some ConfLow. Proof. by vm_compute. Qed.
Example f64_third : f64_of_ratio 1 10 = f64_div (f64_of_Z 1) (f64_of_Z 10).
Proof. by vm_compute. Qed.
