(* ===== verification/StdPath.v ===== *)
(** * [std::path] on Unix

    A [Path] is its byte string.  Equality and [starts_with] of paths compare their
    [components]; [push], [pop], [parent] and [join] work on the string.  The definitions
    follow the documented behaviour of the Rust standard library on Unix; nothing touches a
    file system. *)

From S2P Require Export RustStr.

Inductive Component :=
  | RootDir
  | CurDir
  | ParentDir
  | Normal (name : string).

#[export] Instance Component_eq_dec : EqDecision Component.
Proof. solve_decision. Defined.

Definition has_root (p : string) : bool := starts_with "/" p.

(** On Unix a path is absolute exactly when it has a root. *)
Definition is_absolute (p : string) : bool := has_root p.

(** The text between two separators: empty and ["."] segments are skipped. *)
Definition segment_component (w : string) : option Component :=
  if String.eqb w "" then None else
  if String.eqb w "." then None else
  if String.eqb w ".." then Some ParentDir else Some (Normal w).

(** A leading ["."] of a relative path is kept as [CurDir]. *)
Definition include_cur_dir (p : string) : bool :=
  negb (has_root p) &&
  match split_on "/" p with w :: _ => String.eqb w "." | [] => false end.

Definition components (p : string) : list Component :=
  (if has_root p then [RootDir] else if include_cur_dir p then [CurDir] else [])
  ++ omap segment_component (split_on "/" p).

Definition path_eq (p q : string) : bool := bool_decide (components p = components q).

Fixpoint list_prefixb {A} `{EqDecision A} (p l : list A) : bool :=
  match p, l with
  | [], _ => true
  | x :: p', y :: l' => bool_decide (x = y) && list_prefixb p' l'
  | _ :: _, [] => false
  end.

(** [p.starts_with(base)]: by whole components. *)
Definition path_starts_with (p base : string) : bool :=
  list_prefixb (components base) (components p).

Definition ends_with_sep (p : string) : bool :=
  match last_char p with Some c => Ascii.eqb c "/" | None => false end.

(** [PathBuf::push] *)
Definition push (p q : string) : string :=
  if is_absolute q then q
  else if is_empty p || ends_with_sep p then p +:+ q
  else p +:+ "/" +:+ q.

(** [Path::join] *)
Definition path_join (p q : string) : string := push p q.

Definition is_skip (w : string) : bool :=
  match segment_component w with None => true | Some _ => false end.

Fixpoint drop_while_list {A} (f : A → bool) (l : list A) : list A :=
  match l with
  | [] => []
  | x :: l' => if f x then drop_while_list f l' else l
  end.

Definition trim_right (ws : list string) : list string :=
  reverse (drop_while_list is_skip (reverse ws)).

(** The bytes before the body: the root or the leading ["."]. *)
Definition len_before_body (p : string) : nat :=
  if has_root p || include_cur_dir p then 1 else 0.

(** [Path::parent]: the path without its last component, a prefix of the string. *)
Definition parent (p : string) : option string :=
  match last (components p) with
  | None | Some RootDir => None
  | Some CurDir => Some ""
  | Some _ =>
      let n := len_before_body p in
      let body := trim_right (split_on "/" (str_drop n p)) in
      Some (str_take n p +:+
            String.concat "/" (trim_right (take (length body - 1) body)))
  end.

(** [PathBuf::pop] *)
Definition pop (p : string) : string :=
  match parent p with Some q => q | None => p end.

(** [Path::file_name] *)
Definition file_name (p : string) : option string :=
  match last (components p) with Some (Normal w) => Some w | _ => None end.

(** [Component::as_os_str] *)
Definition as_os_str (c : Component) : string :=
  match c with
  | RootDir => "/"
  | CurDir => "."
  | ParentDir => ".."
  | Normal w => w
  end.

(** ** Names, and the canonical text of a list of names *)

Definition valid_name (w : string) : Prop :=
  contains_char "/" w = false ∧ is_skip w = false ∧ w ≠ "..".

Definition render (rooted : bool) (names : list string) : string :=
  (if rooted then "/" else "") +:+ String.concat "/" names.

(** ** Splitting and joining *)

Lemma split_on_ne c s : split_on c s ≠ [].
Proof.
  induction s as [|d s IH]; simpl; [done|].
  destruct (Ascii.eqb c d); [done|]. by destruct (split_on c s).
Qed.

Lemma split_on_no_sep c s : contains_char c s = false → split_on c s = [s].
Proof.
  induction s as [|d s IH]; simpl; [done|].
  intros [-> H]%orb_false_iff. by rewrite IH.
Qed.

Lemma split_on_app_sep c a b :
  contains_char c a = false → split_on c (a +:+ String c b) = a :: split_on c b.
Proof.
  induction a as [|d a IH]; simpl.
  - by rewrite Ascii.eqb_refl.
  - intros [-> H]%orb_false_iff. by rewrite IH.
Qed.

(** Splitting distributes over a separator. *)
Lemma split_on_sep c a b : split_on c (a +:+ String c b) = split_on c a ++ split_on c b.
Proof.
  induction a as [|d a IH].
  - simpl. by rewrite Ascii.eqb_refl.
  - change (String d a +:+ String c b) with (String d (a +:+ String c b)).
    cbn [split_on]. rewrite IH. destruct (Ascii.eqb c d); [done|].
    pose proof (split_on_ne c a). by destruct (split_on c a).
Qed.

Lemma split_on_concat c names :
  names ≠ [] → (∀ w, w ∈ names → contains_char c w = false) →
  split_on c (String.concat (str1 c) names) = names.
Proof.
  induction names as [|w [|w' names] IH]; intros Hne Hw; [done| |].
  - simpl. apply split_on_no_sep, Hw. set_solver.
  - change (String.concat (str1 c) (w :: w' :: names))
      with (w +:+ (str1 c +:+ String.concat (str1 c) (w' :: names))).
    change (str1 c +:+ String.concat (str1 c) (w' :: names))
      with (String c (String.concat (str1 c) (w' :: names))).
    rewrite split_on_app_sep by (apply Hw; set_solver).
    f_equal. apply IH; [done|]. intros; apply Hw; set_solver.
Qed.

Lemma split_on_segments c s w : w ∈ split_on c s → contains_char c w = false.
Proof.
  revert w. induction s as [|d s IH]; intros w; cbn [split_on].
  - by intros ->%list_elem_of_singleton.
  - destruct (Ascii.eqb c d) eqn:Hd.
    + intros [->|H]%elem_of_cons; [done|]. by apply IH.
    + destruct (split_on c s) as [|v vs] eqn:Hs.
      * intros ->%list_elem_of_singleton. simpl. by rewrite Hd.
      * intros [->|H]%elem_of_cons.
        -- simpl. rewrite Hd. apply (IH v). set_solver.
        -- apply IH. set_solver.
Qed.

Lemma concat_snoc sep names w :
  names ≠ [] →
  String.concat sep (names ++ [w]) = String.concat sep names +:+ sep +:+ w.
Proof.
  induction names as [|v [|v' names] IH]; intros Hne; [done|done|].
  change (String.concat sep ((v :: v' :: names) ++ [w]))
    with (v +:+ sep +:+ String.concat sep ((v' :: names) ++ [w])).
  rewrite IH by done. simpl. by rewrite !str_app_assoc.
Qed.

Lemma last_char_app s c t : last_char (s +:+ String c t) = last_char (String c t).
Proof.
  induction s as [|d s IH]; [done|].
  change (String d s +:+ String c t) with (String d (s +:+ String c t)).
  rewrite <- IH. destruct (s +:+ String c t) eqn:E; [by destruct s|done].
Qed.

Lemma last_char_no_sep c w : contains_char c w = false → last_char w ≠ Some c.
Proof.
  induction w as [|d w IH]; simpl; [done|].
  intros [Hd Hw]%orb_false_iff. destruct w as [|e w].
  - intros [= ->]. by rewrite Ascii.eqb_refl in Hd.
  - by apply IH.
Qed.

Lemma has_root_cons c s : has_root (String c s) = Ascii.eqb "/" c.
Proof.
  apply bool_eq_iff. unfold has_root. rewrite starts_with_iff, Ascii.eqb_eq. split.
  - intros [t Ht]. by injection Ht as ->.
  - intros <-. by exists s.
Qed.

(** The components of [a/b] are those of [a] and then the segments of [b]. *)
Definition body_components (b : string) : list Component :=
  omap segment_component (split_on "/" b).

Lemma components_slash a b :
  a ≠ "" → components (a +:+ "/" +:+ b) = components a ++ body_components b.
Proof.
  intros Ha. unfold components, include_cur_dir, body_components.
  change ("/" +:+ b) with (String "/" b). rewrite split_on_sep.
  destruct a as [|c a]; [done|].
  assert (has_root (String c a +:+ String "/" b) = has_root (String c a)) as ->.
  { change (String c a +:+ String "/" b) with (String c (a +:+ String "/" b)).
    by rewrite !has_root_cons. }
  rewrite omap_app, app_assoc. pose proof (split_on_ne "/" (String c a)).
  by destruct (split_on "/" (String c a)).
Qed.

Lemma body_components_slash a b :
  body_components (a +:+ "/" +:+ b) = body_components a ++ body_components b.
Proof.
  unfold body_components. change ("/" +:+ b) with (String "/" b).
  by rewrite split_on_sep, omap_app.
Qed.

(** ** Valid names *)

Lemma valid_name_component w : valid_name w → segment_component w = Some (Normal w).
Proof.
  unfold valid_name, is_skip, segment_component. intros (_ & Hs & Hd).
  destruct (String.eqb w ""); [done|]. destruct (String.eqb w "."); [done|].
  destruct (String.eqb w "..") eqn:E; [by apply String.eqb_eq in E|done].
Qed.

Lemma valid_name_nonempty w : valid_name w → w ≠ "".
Proof. intros (_ & Hs & _) ->. done. Qed.

Lemma components_names_valid p w : Normal w ∈ components p → valid_name w.
Proof.
  unfold components. intros [H|H]%elem_of_app.
  - destruct (has_root p), (include_cur_dir p); set_solver.
  - apply list_elem_of_omap in H as (v & Hv & Hc).
    apply split_on_segments in Hv.
    assert (v = w) as <-.
    { revert Hc. unfold segment_component. repeat case_match; naive_solver. }
    split_and!; [done|unfold is_skip; by rewrite Hc|].
    intros ->. done.
Qed.

Lemma omap_valid names :
  Forall valid_name names → omap segment_component names = Normal <$> names.
Proof.
  induction 1 as [|w names Hw _ IH]; [done|].
  cbn [omap list_omap fmap list_fmap]. rewrite (valid_name_component w Hw).
  f_equal. apply IH.
Qed.

Lemma concat_first names :
  Forall valid_name names → has_root (String.concat "/" names) = false.
Proof.
  intros H. destruct H as [|w names Hw _]; [done|].
  pose proof (valid_name_nonempty w Hw) as Hne. destruct Hw as (Hc & _ & _).
  assert (∃ t, String.concat "/" (w :: names) = w +:+ t) as [t ->].
  { destruct names; [exists ""; by rewrite str_app_nil_r|eexists; reflexivity]. }
  destruct w as [|c w]; [done|]. simpl in Hc. apply orb_false_iff in Hc as [Hc _].
  destruct (has_root (String c w +:+ t)) eqn:Hr; [|done].
  apply starts_with_iff in Hr as [u Hu]. injection Hu as -> _. done.
Qed.

Lemma split_render_names names :
  names ≠ [] → Forall valid_name names →
  split_on "/" (String.concat "/" names) = names.
Proof.
  intros Hne Hv. apply (split_on_concat "/"); [done|].
  intros w Hw. rewrite Forall_forall in Hv. by destruct (Hv w Hw).
Qed.

(** The components of a canonical path are its names. *)
Lemma components_render r names :
  Forall valid_name names →
  components (render r names) = (if r then [RootDir] else []) ++ (Normal <$> names).
Proof.
  intros Hv. unfold components, include_cur_dir, render. destruct r.
  - change ("/" +:+ String.concat "/" names) with (String "/" (String.concat "/" names)).
    assert (has_root (String "/" (String.concat "/" names)) = true) as ->.
    { unfold has_root, starts_with. simpl. by destruct (String.concat "/" names). }
    f_equal. cbn [split_on]. rewrite Ascii.eqb_refl.
    destruct (decide (names = [])) as [->|Hne]; [done|].
    rewrite split_render_names by done. cbn [omap list_omap].
    by rewrite (omap_valid names).
  - change ("" +:+ String.concat "/" names) with (String.concat "/" names).
    rewrite concat_first by done. destruct (decide (names = [])) as [->|Hne]; [done|].
    rewrite split_render_names by done.
    replace (match names with w :: _ => String.eqb w "." | [] => false end) with false.
    { simpl. by rewrite (omap_valid names). }
    destruct Hv as [|w ? (_ & Hs & _)]; [done|].
    destruct (String.eqb w ".") eqn:E; [|done].
    apply String.eqb_eq in E as ->. done.
Qed.

#[export] Instance Normal_inj : Inj (=) (=) Normal.
Proof. by intros ?? [= ->]. Qed.

Lemma fmap_Normal_inj (l l' : list string) : Normal <$> l = Normal <$> l' → l = l'.
Proof. apply (inj (fmap Normal)). Qed.

Lemma render_inj r names r' names' :
  Forall valid_name names → Forall valid_name names' →
  components (render r names) = components (render r' names') →
  r = r' ∧ names = names'.
Proof.
  intros Hv Hv'. rewrite !components_render by done.
  destruct r, r'; simpl; intros H.
  - injection H as H. auto using fmap_Normal_inj.
  - destruct names'; done.
  - destruct names; done.
  - auto using fmap_Normal_inj.
Qed.

Lemma has_root_name w : valid_name w → has_root w = false.
Proof. intros Hw. apply (concat_first [w]). by constructor. Qed.

Lemma ends_with_sep_concat names :
  Forall valid_name names → ends_with_sep (String.concat "/" names) = false.
Proof.
  intros Hv. unfold ends_with_sep.
  destruct names as [|w names _] using rev_ind; [done|].
  apply Forall_app in Hv as [_ [Hw _]%Forall_cons].
  pose proof (valid_name_nonempty w Hw) as Hne. destruct Hw as (Hc & _ & _).
  assert (last_char (String.concat "/" (names ++ [w])) = last_char w) as ->.
  { destruct w as [|c w]; [done|].
    destruct (decide (names = [])) as [->|Hn]; [done|].
    rewrite concat_snoc by done. by rewrite str_app_assoc, last_char_app. }
  apply last_char_no_sep in Hc. destruct (last_char w) as [c|]; [|done].
  apply Ascii.eqb_neq. naive_solver.
Qed.

Lemma concat_names_nonempty names :
  names ≠ [] → Forall valid_name names → String.concat "/" names ≠ "".
Proof.
  intros Hne Hv. destruct Hv as [|v l Hw _]; [done|].
  apply valid_name_nonempty in Hw. destruct v; [done|]. by destruct l.
Qed.

Lemma concat_app sep l1 l2 :
  l1 ≠ [] → l2 ≠ [] →
  String.concat sep (l1 ++ l2) = String.concat sep l1 +:+ sep +:+ String.concat sep l2.
Proof.
  induction l1 as [|v [|v' l1] IH]; intros H1 H2; [done|by destruct l2|].
  change (String.concat sep ((v :: v' :: l1) ++ l2))
    with (v +:+ sep +:+ String.concat sep ((v' :: l1) ++ l2)).
  rewrite IH by done. simpl. by rewrite !str_app_assoc.
Qed.

(** [push] of a relative path of names appends them. *)
Lemma push_render r names subs :
  Forall valid_name names → subs ≠ [] → Forall valid_name subs →
  push (render r names) (String.concat "/" subs) = render r (names ++ subs).
Proof.
  intros Hv Hs Hvs. unfold push, is_absolute. rewrite concat_first by done.
  destruct (decide (names = [])) as [->|Hne]; [by destruct r|].
  pose proof (concat_names_nonempty names Hne Hv) as Hcn.
  assert (is_empty (render r names) = false) as ->.
  { apply is_empty_false. by destruct r. }
  assert (ends_with_sep (render r names) = false) as ->.
  { pose proof (ends_with_sep_concat names Hv) as He. unfold render.
    destruct r; [|done]. revert He. unfold ends_with_sep.
    change ("/" +:+ String.concat "/" names) with (String "/" (String.concat "/" names)).
    by destruct (String.concat "/" names). }
  cbn [orb]. unfold render. rewrite concat_app by done. by rewrite !str_app_assoc.
Qed.

Lemma drop_while_list_false {A} (f : A → bool) l :
  (∀ x, x ∈ l → f x = false) → drop_while_list f l = l.
Proof.
  destruct l as [|x l]; simpl; [done|]. intros H. rewrite H; [done|set_solver].
Qed.

Lemma trim_right_valid names : Forall valid_name names → trim_right names = names.
Proof.
  intros Hv. unfold trim_right. rewrite drop_while_list_false.
  - apply reverse_involutive.
  - intros w Hw. rewrite elem_of_reverse in Hw. rewrite Forall_forall in Hv. by destruct (Hv w Hw) as (_ & ? & _).
Qed.

Lemma len_before_body_render r names :
  Forall valid_name names → len_before_body (render r names) = if r then 1 else 0.
Proof.
  intros Hv. unfold len_before_body. destruct r.
  - assert (has_root (render true names) = true) as ->; [|done].
    unfold render, has_root. apply starts_with_app.
  - assert (components (render false names) = Normal <$> names) as Hc
      by (by rewrite components_render).
    unfold components in Hc.
    destruct (has_root (render false names)); [by destruct names|].
    destruct (include_cur_dir (render false names)); [by destruct names|done].
Qed.

(** [pop] removes the last name, and leaves a root or an empty path alone. *)
Lemma pop_render r names :
  Forall valid_name names → pop (render r names) = render r (take (length names - 1) names).
Proof.
  intros Hv. unfold pop, parent.
  rewrite components_render, len_before_body_render by done.
  destruct names as [|w names _] using rev_ind; [by destruct r|].
  rewrite fmap_app, app_assoc. cbn [fmap list_fmap]. rewrite last_snoc.
  assert (str_take (if r then 1 else 0) (render r (names ++ [w]))
          = if r then "/" else "") as ->.
  { destruct r; [|by destruct (render false _)]. unfold render.
    change ("/" +:+ ?x) with (String "/" x). simpl.
    by destruct (String.concat "/" (names ++ [w])). }
  assert (str_drop (if r then 1 else 0) (render r (names ++ [w]))
          = String.concat "/" (names ++ [w])) as ->.
  { destruct r; [|done]. unfold render.
    change ("/" +:+ ?x) with (String "/" x). simpl.
    by destruct (String.concat "/" (names ++ [w])). }
  rewrite split_render_names by (done || by destruct names).
  rewrite (trim_right_valid (names ++ [w])) by done.
  rewrite trim_right_valid by (by apply Forall_take).
  by destruct r.
Qed.

Lemma list_prefixb_iff `{EqDecision A} (p l : list A) :
  list_prefixb p l = true ↔ p `prefix_of` l.
Proof.
  revert l. induction p as [|x p IH]; intros l; simpl.
  { split; [intros _; apply prefix_nil|done]. }
  destruct l as [|y l].
  - split; [done|]. by intros ?%prefix_nil_inv.
  - rewrite andb_true_iff, bool_decide_eq_true, IH. split.
    + intros [-> ?]. by apply prefix_cons.
    + intros H. split; [by apply prefix_cons_inv_1 in H|by apply prefix_cons_inv_2 in H].
Qed.

Lemma path_starts_with_iff p base :
  path_starts_with p base = true ↔ components base `prefix_of` components p.
Proof. apply list_prefixb_iff. Qed.

(** ** Evaluation checks *)

Example components_ex :
  components "/a/./b//../c/" = [RootDir; Normal "a"; Normal "b"; ParentDir; Normal "c"].
Proof. reflexivity. Qed.
Example components_cur_ex : components "./a" = [CurDir; Normal "a"].
Proof. reflexivity. Qed.
Example parent_ex : parent "/a//b/." = Some "/a" ∧ parent "/" = None ∧ parent "/a" = Some "/"
  ∧ parent "./a" = Some "." ∧ parent "a" = Some "".
Proof. by vm_compute. Qed.
