(* ===== verification/Tokenize.v ===== *)
(** * [arterm-command-risk]: the shell tokenizer (crates/arterm-command-risk/src/tokenize.rs)

    [tokenize] reads a command line into words and control operators, [split_segments]
    cuts the token list at the separators.  The source's nested loops share one character
    iterator; here the loop that is running is the [Mode], so the whole tokenizer is one
    structural recursion over the remaining input. *)

From S2P Require Export RustStr.

Record Token := mkToken {
  text : string;
  receives_pipe : bool;
  is_truncating_redirect_target : bool;
  is_operator : bool;
}.

#[export] Instance Token_eq_dec : EqDecision Token.
Proof. solve_decision. Defined.

(** [Token::word] *)
Definition word (t : string) : Token := mkToken t false false false.

Definition set_operator (t : Token) : Token :=
  mkToken (text t) (receives_pipe t) (is_truncating_redirect_target t) true.

Definition set_redirect_target (t : Token) : Token :=
  mkToken (text t) (receives_pipe t) true (is_operator t).

Definition set_receives_pipe (b : bool) (t : Token) : Token :=
  mkToken (text t) b (is_truncating_redirect_target t) (is_operator t).

(** [Token::basename]: the program name without its directory. *)
Definition basename (t : Token) : string := after_last "/" (text t).

(** [Token::is_flag] *)
Definition is_flag (t : Token) : bool :=
  starts_with "-" (text t) && Nat.ltb 1 (String.length (text t)).

(** [Token::is_recursive_flag] *)
Definition is_recursive_flag (t : Token) : bool :=
  if negb (is_flag t) then false
  else if starts_with "--" (text t) then String.eqb (text t) "--recursive"
  else contains_char "r" (text t) || contains_char "R" (text t).

(** ** The tokenizer *)

(** The loop that holds the iterator: the main loop, the single-quote loop, the
    double-quote loop. *)
Inductive Mode := MNormal | MSingle | MDouble.

(** The local variables of [tokenize]. *)
Record TokState := mkTok {
  current : string;
  has_content : bool;
  pending_redirect : bool;
  tokens : list Token;
}.

Definition init_state : TokState := mkTok "" false false [].

(** [current.push(c)] *)
Definition push_char (c : ascii) (st : TokState) : TokState :=
  mkTok (current st +:+ str1 c) (has_content st) (pending_redirect st) (tokens st).

Definition mark_content (st : TokState) : TokState :=
  mkTok (current st) true (pending_redirect st) (tokens st).

Definition mark_pending (st : TokState) : TokState :=
  mkTok (current st) (has_content st) true (tokens st).

(** The [flush!] macro. *)
Definition flush (st : TokState) : TokState :=
  if has_content st then
    let token := word (current st) in
    if pending_redirect st
    then mkTok "" false false (tokens st ++ [set_redirect_target token])
    else mkTok "" false (pending_redirect st) (tokens st ++ [token])
  else st.

(** [op.is_operator = true; tokens.push(op)] *)
Definition push_op (op : string) (st : TokState) : TokState :=
  mkTok (current st) (has_content st) (pending_redirect st)
    (tokens st ++ [set_operator (word op)]).

(** The escapes a double-quoted string resolves. *)
Definition is_dquote_escape (c : ascii) : bool :=
  Ascii.eqb c dquote || Ascii.eqb c "\" || Ascii.eqb c "$" || Ascii.eqb c "`".

Definition is_blank (c : ascii) : bool := Ascii.eqb c " " || Ascii.eqb c tab.

Fixpoint tokenize_loop (m : Mode) (s : string) (st : TokState) : TokState :=
  match s with
  | EmptyString => st
  | String c s' =>
      match m with
      | MSingle =>
          if Ascii.eqb c "'" then tokenize_loop MNormal s' st
          else tokenize_loop MSingle s' (push_char c st)
      | MDouble =>
          if Ascii.eqb c dquote then tokenize_loop MNormal s' st
          else if Ascii.eqb c "\" then
            match s' with
            | String next s'' =>
                if is_dquote_escape next
                then tokenize_loop MDouble s'' (push_char next st)
                else tokenize_loop MDouble s' (push_char c st)
            | EmptyString => push_char c st
            end
          else tokenize_loop MDouble s' (push_char c st)
      | MNormal =>
          if Ascii.eqb c "'" then tokenize_loop MSingle s' (mark_content st)
          else if Ascii.eqb c dquote then tokenize_loop MDouble s' (mark_content st)
          else if Ascii.eqb c "\" then
            match s' with
            | String next s'' => tokenize_loop MNormal s'' (push_char next (mark_content st))
            | EmptyString => st
            end
          else if is_blank c then tokenize_loop MNormal s' (flush st)
          else if Ascii.eqb c newline || Ascii.eqb c ";" then
            tokenize_loop MNormal s' (push_op (str1 c) (flush st))
          else if Ascii.eqb c "&" || Ascii.eqb c "|" then
            match s' with
            | String next s'' =>
                if Ascii.eqb next c
                then tokenize_loop MNormal s'' (push_op (String c (str1 c)) (flush st))
                else tokenize_loop MNormal s' (push_op (str1 c) (flush st))
            | EmptyString => push_op (str1 c) (flush st)
            end
          else if Ascii.eqb c "(" || Ascii.eqb c ")" then
            tokenize_loop MNormal s' (push_op (str1 c) (flush st))
          else if Ascii.eqb c ">" then
            match s' with
            | String next s'' =>
                if Ascii.eqb next ">" then tokenize_loop MNormal s'' (flush st)
                else if Ascii.eqb next "|"
                then tokenize_loop MNormal s'' (mark_pending (flush st))
                else tokenize_loop MNormal s' (mark_pending (flush st))
            | EmptyString => mark_pending (flush st)
            end
          else if Ascii.eqb c "<" then tokenize_loop MNormal s' (flush st)
          else tokenize_loop MNormal s' (push_char c (mark_content st))
      end
  end.

Definition tokenize (command : string) : list Token :=
  tokens (flush (tokenize_loop MNormal command init_state)).

(** ** Segments *)

Definition SEGMENT_SEPARATORS : list string := ["&&"; "||"; ";"; "|"; nl; "("; ")"].

Record SegState := mkSeg {
  segments : list (list Token);
  seg_current : list Token;
  next_receives_pipe : bool;
}.

Definition is_separator (t : Token) : bool :=
  is_operator t && bool_decide (text t ∈ SEGMENT_SEPARATORS).

(** [if !current.is_empty() { segments.push(take(current)) }] *)
Definition close_segment (st : SegState) : SegState :=
  match seg_current st with
  | [] => st
  | cur => mkSeg (segments st ++ [cur]) [] (next_receives_pipe st)
  end.

Definition segment_step (st : SegState) (t : Token) : SegState :=
  if is_separator t then
    let st' := close_segment st in
    mkSeg (segments st') (seg_current st') (String.eqb (text t) "|")
  else
    mkSeg (segments st)
      (seg_current st ++ [set_receives_pipe (next_receives_pipe st) t])
      (next_receives_pipe st).

Definition split_segments (command : string) : list (list Token) :=
  segments (close_segment (foldl segment_step (mkSeg [] [] false) (tokenize command))).

(** ** When a command line can be continued

    [closed m s] holds when reading [s] in mode [m] ends outside quotes and not on a lone
    backslash. *)
Fixpoint closed (m : Mode) (s : string) : bool :=
  match s with
  | EmptyString => match m with MNormal => true | _ => false end
  | String c s' =>
      match m with
      | MSingle => if Ascii.eqb c "'" then closed MNormal s' else closed MSingle s'
      | MDouble =>
          if Ascii.eqb c dquote then closed MNormal s'
          else if Ascii.eqb c "\" then
            match s' with
            | String next s'' =>
                if is_dquote_escape next then closed MDouble s'' else closed MDouble s'
            | EmptyString => false
            end
          else closed MDouble s'
      | MNormal =>
          if Ascii.eqb c "'" then closed MSingle s'
          else if Ascii.eqb c dquote then closed MDouble s'
          else if Ascii.eqb c "\" then
            match s' with String _ s'' => closed MNormal s'' | EmptyString => false end
          else closed MNormal s'
      end
  end.

(** A complete command line: nothing of it is left open for the text that follows, neither
    a quote, nor an escape, nor a redirection without its target. *)
Definition self_contained (a : string) : bool :=
  closed MNormal a &&
  negb (pending_redirect (flush (tokenize_loop MNormal a init_state))).

(** The ways to put a second command after a first one. *)
Definition SEQUENCE_SEPARATORS : list string := [";"; nl; " && "; " || "].

(** ** Lemmas on the tokenizer *)

(** Strings by induction on their length: the tokenizer looks one character ahead. *)
Lemma string_len_ind (P : string → Prop) :
  (∀ s, (∀ t, String.length t < String.length s → P t) → P s) → ∀ s, P s.
Proof.
  intros H s. remember (String.length s) as n eqn:Hn. revert s Hn.
  induction n as [n IH] using lt_wf_ind. intros s ->. apply H. eauto.
Qed.

Definition add_tokens (ts : list Token) (st : TokState) : TokState :=
  mkTok (current st) (has_content st) (pending_redirect st) (ts ++ tokens st).

Lemma flush_add ts st : flush (add_tokens ts st) = add_tokens ts (flush st).
Proof.
  unfold flush, add_tokens. destruct st as [c h p t]; simpl.
  destruct h, p; simpl; by rewrite ?app_assoc.
Qed.

Lemma push_op_add op ts st : push_op op (add_tokens ts st) = add_tokens ts (push_op op st).
Proof. unfold push_op, add_tokens. simpl. by rewrite app_assoc. Qed.

(** The tokens already read are never looked at again. *)
Lemma tokenize_loop_add ts s : ∀ m st,
  tokenize_loop m s (add_tokens ts st) = add_tokens ts (tokenize_loop m s st).
Proof.
  induction s as [s IH] using string_len_ind. intros m st.
  destruct s as [|c s]; [done|]. cbn [tokenize_loop].
  assert (∀ m' st', tokenize_loop m' s (add_tokens ts st')
                    = add_tokens ts (tokenize_loop m' s st')) as IH1
    by (intros; apply IH; simpl; lia).
  assert (∀ n s' m' st', s = String n s' →
            tokenize_loop m' s' (add_tokens ts st')
            = add_tokens ts (tokenize_loop m' s' st')) as IH2
    by (intros; apply IH; subst; simpl; lia).
  destruct m; rewrite ?flush_add, ?push_op_add;
    repeat (case_match; try done);
    repeat first
      [ progress (change (mark_content (add_tokens ts st))
                    with (add_tokens ts (mark_content st)))
      | progress (change (mark_pending (add_tokens ts (flush st)))
                    with (add_tokens ts (mark_pending (flush st))))
      | progress (repeat match goal with
          | |- context [push_char ?c (add_tokens ts ?st)] =>
              change (push_char c (add_tokens ts st)) with (add_tokens ts (push_char c st))
          end)
      | rewrite push_op_add ];
    first [done | by apply IH1 | by eapply IH2 | by rewrite push_op_add].
Qed.

(** No operator of the shell starts with [c], and [c] is not an escape. *)
Definition no_lookahead (c : ascii) : bool :=
  negb (Ascii.eqb c "&") && negb (Ascii.eqb c "|") && negb (Ascii.eqb c ">").

Lemma closed_after_operator n d a :
  Ascii.eqb d "'" = false → Ascii.eqb d dquote = false → Ascii.eqb d "\" = false →
  Ascii.eqb n d = true ∨ Ascii.eqb n ">" = true ∨ Ascii.eqb n "|" = true →
  closed MNormal (String n a) = true → closed MNormal a = true.
Proof.
  intros H1 H2 H3 [Hn|[Hn|Hn]]; apply Ascii.eqb_eq in Hn as ->; [|done|done].
  cbn [closed]. by rewrite H1, H2, H3.
Qed.

(** Reading a closed text and then more text is reading the two in turn. *)
Lemma tokenize_loop_app a c b : ∀ m st,
  closed m a = true → no_lookahead c = true →
  tokenize_loop m (a +:+ String c b) st
  = tokenize_loop MNormal (String c b) (tokenize_loop m a st).
Proof.
  induction a as [a IH] using string_len_ind. intros m st Hcl Hc.
  assert (Ascii.eqb c "&" = false ∧ Ascii.eqb c "|" = false ∧ Ascii.eqb c ">" = false)
    as (Hc1 & Hc2 & Hc3) by (unfold no_lookahead in Hc; simp_bool; done).
  destruct a as [|d a]; [by destruct m|].
  change (String d a +:+ String c b) with (String d (a +:+ String c b)).
  assert (∀ m' st', closed m' a = true →
            tokenize_loop m' (a +:+ String c b) st'
            = tokenize_loop MNormal (String c b) (tokenize_loop m' a st')) as IH1
    by (intros; apply IH; [simpl; lia|done..]).
  assert (∀ n a' m' st', a = String n a' → closed m' a' = true →
            tokenize_loop m' (a' +:+ String c b) st'
            = tokenize_loop MNormal (String c b) (tokenize_loop m' a' st')) as IH2
    by (intros; apply IH; [subst; simpl; lia|done..]).
  clear IH. destruct a as [|n a].
  - clear IH1 IH2. change ("" +:+ String c b) with (String c b).
    remember (String c b) as t eqn:Ht.
    cbn [tokenize_loop closed] in Hcl |- *.
    destruct m; repeat (case_match; try discriminate; try done); simplify_eq; try done;
      repeat match goal with
      | H : _ || _ = true |- _ => apply orb_true_iff in H as [H|H]
      | H : Ascii.eqb _ _ = true |- _ => apply Ascii.eqb_eq in H; subst
      end; first [congruence | discriminate].
  - assert (∀ m' st', closed m' a = true →
            tokenize_loop m' (a +:+ String c b) st'
            = tokenize_loop MNormal (String c b) (tokenize_loop m' a st')) as IH3
      by (intros; by eapply IH2).
    clear IH2. remember (String c b) as t eqn:Ht. clear Ht.
    remember (String n a +:+ t) as at0 eqn:Hat.
    change (String n a +:+ t) with (String n (a +:+ t)) in Hat.
    remember (String n a) as a0 eqn:Ha0.
    cbn [tokenize_loop closed] in Hcl |- *.
    destruct m; repeat (case_match; try discriminate); simplify_eq;
      first [by apply IH1 | by apply IH3 | congruence | idtac];
      apply IH3; by eapply (closed_after_operator n d); eauto.
Qed.

(** Reading [sep] after a finished word closes it and yields one separator that is not
    a pipe. *)
Lemma sequence_separator_loop sep :
  sep ∈ SEQUENCE_SEPARATORS →
  ∃ op c t, sep = String c t ∧ no_lookahead c = true
    ∧ op ∈ SEGMENT_SEPARATORS ∧ op ≠ "|"
    ∧ ∀ b st, tokenize_loop MNormal (sep +:+ b) st
              = tokenize_loop MNormal b (push_op op (flush st)).
Proof.
  assert (∀ op st, flush (push_op op (flush st)) = push_op op (flush st)) as Hff.
  { intros op st. unfold flush, push_op.
    destruct (has_content st) eqn:Hc; [by destruct (pending_redirect st)|].
    simpl. by rewrite Hc. }
  assert (∀ st, flush (flush st) = flush st) as Hfl.
  { intros st. unfold flush. destruct (has_content st) eqn:Hc; [|by rewrite Hc].
    by destruct (pending_redirect st). }
  unfold SEQUENCE_SEPARATORS, SEGMENT_SEPARATORS. rewrite !elem_of_cons, elem_of_nil.
  intros [->|[->|[->|[->|[]]]]].
  - exists ";", ";"%char, "". split_and!; [done|done|set_solver|done|done].
  - exists nl, newline, "". split_and!; [done|done|set_solver|done|done].
  - exists "&&", " "%char, "&& ". split_and!; [done|done|set_solver|done|].
    intros b st. change (" && " +:+ b) with (String " " (String "&" (String "&" (String " " b)))).
    cbn -[flush push_op str1]. by rewrite Hfl, Hff.
  - exists "||", " "%char, "|| ". split_and!; [done|done|set_solver|done|].
    intros b st. change (" || " +:+ b) with (String " " (String "|" (String "|" (String " " b)))).
    cbn -[flush push_op str1]. by rewrite Hfl, Hff.
Qed.

(** A word under construction is marked: without the mark there is no text. *)
Definition tok_wf (m : Mode) (st : TokState) : Prop :=
  has_content st = false → current st = "" ∧ m = MNormal.

Lemma flush_wf st : tok_wf MNormal st → tok_wf MNormal (flush st).
Proof.
  unfold tok_wf, flush. destruct (has_content st) eqn:E; [|by rewrite E].
  by destruct (pending_redirect st).
Qed.

Lemma tokenize_loop_wf s : ∀ m st,
  tok_wf m st →
  has_content (tokenize_loop m s st) = false → current (tokenize_loop m s st) = "".
Proof.
  induction s as [s IH] using string_len_ind. intros m st Hwf.
  destruct s as [|c s]; [intros H; by destruct (Hwf H)|].
  assert (∀ m' st', tok_wf m' st' → has_content (tokenize_loop m' s st') = false →
            current (tokenize_loop m' s st') = "") as IH1
    by (intros m' st'; apply IH; simpl; lia).
  assert (∀ n s' m' st', s = String n s' → tok_wf m' st' →
            has_content (tokenize_loop m' s' st') = false →
            current (tokenize_loop m' s' st') = "") as IH2
    by (intros n s' m' st' ->; apply IH; simpl; lia).
  clear IH.
  assert (m = MNormal → tok_wf MNormal (flush st)) as Hfl
    by (intros ->; by apply flush_wf).
  cbn [tokenize_loop].
  destruct m; repeat case_match; first [apply IH1 | eapply IH2; [done|] | idtac];
    try (specialize (Hfl eq_refl)); unfold tok_wf in *; simpl; naive_solver.
Qed.

(** Tokens of a sequence: those of the parts, around one separator. *)
Lemma tokenize_sequence a sep b :
  self_contained a = true → sep ∈ SEQUENCE_SEPARATORS →
  ∃ op, op ∈ SEGMENT_SEPARATORS ∧ op ≠ "|" ∧
    tokenize (a +:+ sep +:+ b)
    = tokenize a ++ [set_operator (word op)] ++ tokenize b.
Proof.
  unfold self_contained. intros [Hcl Hp]%andb_true_iff Hsep.
  apply negb_true_iff in Hp.
  destruct (sequence_separator_loop sep Hsep) as (op & c & t & -> & Hc & Hop & Hnp & Hloop).
  exists op. split_and!; [done..|]. unfold tokenize.
  change (String c t +:+ b) with (String c (t +:+ b)).
  rewrite tokenize_loop_app by done.
  change (String c (t +:+ b)) with (String c t +:+ b). rewrite Hloop.
  set (sa := tokenize_loop MNormal a init_state) in *.
  assert (push_op op (flush sa)
          = add_tokens (tokens (flush sa) ++ [set_operator (word op)]) init_state) as ->.
  { unfold push_op, add_tokens. simpl. rewrite Hp, app_nil_r.
    assert (has_content (flush sa) = false ∧
            (has_content sa = true → current (flush sa) = "")) as [Hh Hcur].
    { unfold flush. destruct (has_content sa) eqn:E; [|done].
      by destruct (pending_redirect sa). }
    rewrite Hh. f_equal. unfold flush in *. destruct (has_content sa) eqn:E.
    - by apply Hcur.
    - by apply (tokenize_loop_wf a MNormal init_state). }
  rewrite tokenize_loop_add, flush_add. simpl. by rewrite <- app_assoc.
Qed.

(** ** Segments of a sequence *)

Definition add_segments (ss : list (list Token)) (st : SegState) : SegState :=
  mkSeg (ss ++ segments st) (seg_current st) (next_receives_pipe st).

Lemma close_segment_add ss st :
  close_segment (add_segments ss st) = add_segments ss (close_segment st).
Proof.
  unfold close_segment, add_segments. destruct st as [s [|t c] p]; simpl; [done|].
  by rewrite app_assoc.
Qed.

Lemma segment_step_add ss st t :
  segment_step (add_segments ss st) t = add_segments ss (segment_step st t).
Proof. unfold segment_step. rewrite close_segment_add. by destruct (is_separator t). Qed.

Lemma segment_fold_add ss ts st :
  foldl segment_step (add_segments ss st) ts = add_segments ss (foldl segment_step st ts).
Proof.
  revert st. induction ts as [|t ts IH]; intros st; simpl; [done|].
  by rewrite segment_step_add, IH.
Qed.

(** Sequencing two command lines concatenates their segments. *)
Lemma split_segments_sequence a sep b :
  self_contained a = true → sep ∈ SEQUENCE_SEPARATORS →
  split_segments (a +:+ sep +:+ b) = split_segments a ++ split_segments b.
Proof.
  intros Ha Hsep. destruct (tokenize_sequence a sep b Ha Hsep) as (op & Hop & Hnp & Ht).
  unfold split_segments. rewrite Ht, !foldl_app. cbn [foldl].
  set (sa := foldl segment_step (mkSeg [] [] false) (tokenize a)).
  assert (segment_step sa (set_operator (word op))
          = add_segments (segments (close_segment sa)) (mkSeg [] [] false)) as ->.
  { unfold segment_step, is_separator. simpl. rewrite bool_decide_true by done.
    assert (String.eqb op "|" = false) as -> by (by apply String.eqb_neq).
    unfold add_segments. simpl. rewrite app_nil_r. f_equal.
    unfold close_segment. destruct (seg_current sa) eqn:E; [by rewrite E|done]. }
  rewrite segment_fold_add, close_segment_add. done.
Qed.

(** ** Sizes: no text is invented *)

Definition token_size (t : Token) : nat := String.length (text t).
Definition tokens_size (ts : list Token) : nat := sum_of token_size ts.

Definition state_size (st : TokState) : nat :=
  tokens_size (tokens st) + String.length (current st).

Lemma flush_size st : state_size (flush st) = state_size st.
Proof.
  unfold state_size, flush, tokens_size, sum_of.
  destruct (has_content st), (pending_redirect st); simpl;
    rewrite ?sum_list_with_app; simpl; unfold token_size; simpl; lia.
Qed.

Lemma push_op_size op st :
  state_size (push_op op st) = state_size st + String.length op.
Proof.
  unfold state_size, push_op, tokens_size, sum_of. simpl.
  rewrite sum_list_with_app. simpl. unfold token_size. simpl. lia.
Qed.

Lemma push_char_size c st : state_size (push_char c st) = S (state_size st).
Proof.
  unfold state_size, push_char. simpl. rewrite str_length_app. simpl. lia.
Qed.

Lemma tokenize_loop_size s : ∀ m st,
  state_size (tokenize_loop m s st) <= state_size st + String.length s.
Proof.
  induction s as [s IH] using string_len_ind. intros m st.
  destruct s as [|c s]; [simpl; lia|].
  assert (∀ m' st', state_size (tokenize_loop m' s st') <= state_size st' + String.length s)
    as IH1 by (intros; apply IH; simpl; lia).
  assert (∀ n s' m' st', s = String n s' →
    state_size (tokenize_loop m' s' st') <= state_size st' + String.length s') as IH2
    by (intros n s' m' st' ->; apply IH; simpl; lia).
  assert (∀ st', state_size (mark_content st') = state_size st') as Hmc by done.
  assert (∀ st', state_size (mark_pending st') = state_size st') as Hmp by done.
  clear IH. cbn [tokenize_loop String.length].
  destruct m; repeat case_match; subst;
    first
      [ etrans; [apply IH1|] | etrans; [eapply IH2; reflexivity|] | idtac ];
    rewrite ?push_char_size, ?push_op_size, ?Hmc, ?Hmp, ?flush_size;
    cbn [String.length str1]; lia.
Qed.

Lemma tokenize_size command : tokens_size (tokenize command) <= String.length command.
Proof.
  unfold tokenize.
  pose proof (tokenize_loop_size command MNormal init_state) as H.
  rewrite <- flush_size in H. unfold state_size in H at 1 2. simpl in H. lia.
Qed.

Definition segments_size (ss : list (list Token)) : nat := sum_of tokens_size ss.

Definition seg_state_size (st : SegState) : nat :=
  segments_size (segments st) + tokens_size (seg_current st).

Lemma close_segment_size st : seg_state_size (close_segment st) = seg_state_size st.
Proof.
  unfold seg_state_size, close_segment. destruct (seg_current st) as [|t ts] eqn:E.
  - by rewrite E.
  - cbn [segments seg_current]. unfold segments_size. rewrite sum_of_app, sum_of_singleton.
    unfold tokens_size. rewrite sum_of_nil. lia.
Qed.

Lemma segment_step_size st t :
  seg_state_size (segment_step st t) <= seg_state_size st + token_size t.
Proof.
  unfold segment_step. destruct (is_separator t).
  - rewrite <- (close_segment_size st). unfold seg_state_size. simpl. lia.
  - unfold seg_state_size, tokens_size. cbn [segments seg_current].
    rewrite sum_of_app, sum_of_singleton. unfold token_size. simpl. lia.
Qed.

Lemma split_segments_size command :
  segments_size (split_segments command) <= String.length command.
Proof.
  assert (∀ ts st, seg_state_size (foldl segment_step st ts)
                   <= seg_state_size st + tokens_size ts) as Hfold.
  { induction ts as [|t ts IH]; intros st; cbn [foldl]; [lia|].
    etrans; [apply IH|]. pose proof (segment_step_size st t).
    unfold tokens_size in *. rewrite sum_of_cons. lia. }
  specialize (Hfold (tokenize command) (mkSeg [] [] false)).
  pose proof (tokenize_size command). unfold split_segments.
  pose proof (close_segment_size
    (foldl segment_step (mkSeg [] [] false) (tokenize command))) as Hc.
  unfold seg_state_size in *. simpl in Hfold. lia.
Qed.

(** ** Evaluation checks *)

Example tokenize_ex :
  text <$> tokenize "rm -rf 'a b'; echo hi > out" = ["rm"; "-rf"; "a b"; ";"; "echo"; "hi"; "out"].
Proof. reflexivity. Qed.
Example split_ex1 :
  map (map text) (split_segments "find . | xargs rm && ls")
  = [["find"; "."]; ["xargs"; "rm"]; ["ls"]].
Proof. reflexivity. Qed.
