(* ===== verification/RiskModel.v ===== *)
(** * [arterm-command-risk]: verdicts and context (crates/arterm-command-risk/src/lib.rs)

    The risk levels with their order, the findings and the assessment built from them, and
    the context a command is judged in. *)

From S2P Require Export RustStr.

Inductive RiskLevel := Safe | Low | Confirm | Catastrophic.

#[export] Instance RiskLevel_eq_dec : EqDecision RiskLevel.
Proof. solve_decision. Defined.

(** The derived [Ord]: declaration order. *)
Definition level_rank (l : RiskLevel) : nat :=
  match l with Safe => 0 | Low => 1 | Confirm => 2 | Catastrophic => 3 end.

Definition level_max (a b : RiskLevel) : RiskLevel :=
  if Nat.leb (level_rank a) (level_rank b) then b else a.

(** [RiskLevel::runs_immediately] *)
Definition runs_immediately (l : RiskLevel) : bool :=
  match l with Safe | Low => true | _ => false end.

(** [RiskLevel::is_absolute_deny] *)
Definition is_absolute_deny (l : RiskLevel) : bool :=
  match l with Catastrophic => true | _ => false end.

Record RiskFinding := mkFinding {
  f_level : RiskLevel;
  reason : string;
  target : option string;
}.

Record RiskAssessment := mkAssessment {
  level : RiskLevel;
  findings : list RiskFinding;
}.

#[export] Instance RiskFinding_eq_dec : EqDecision RiskFinding.
Proof. solve_decision. Defined.
#[export] Instance RiskAssessment_eq_dec : EqDecision RiskAssessment.
Proof. solve_decision. Defined.

(** [RiskAssessment::safe] *)
Definition safe_assessment : RiskAssessment := mkAssessment Safe [].

(** [iter().max().unwrap_or(Safe)] *)
Definition max_level (ls : list RiskLevel) : RiskLevel := foldr level_max Safe ls.

(** [RiskAssessment::from_findings] *)
Definition from_findings (fs : list RiskFinding) : RiskAssessment :=
  mkAssessment (max_level (map f_level fs)) fs.

(** [RiskAssessment::explanation] *)
Definition explain_finding (f : RiskFinding) : string :=
  "- " +:+ reason f
  +:+ match target f with Some t => " (target: " +:+ t +:+ ")" | None => "" end
  +:+ nl.

Definition explanation (a : RiskAssessment) : string :=
  foldl (λ out f, out +:+ explain_finding f) "" (findings a).

Record RiskContext := mkContext {
  working_dir : option string;
  home_dir : option string;
}.

(** [dirs_home]; [home_var] is the environment's [HOME]. *)
Definition dirs_home (home_var : option string) : option string :=
  match home_var with Some h => if is_empty h then None else Some h | None => None end.

(** [RiskContext::from_env] *)
Definition from_env (working_dir home_var : option string) : RiskContext :=
  mkContext working_dir (dirs_home home_var).

(** ** The order of levels *)

Lemma level_rank_inj a b : level_rank a = level_rank b → a = b.
Proof. by destruct a, b. Qed.

Lemma level_max_rank a b : level_rank (level_max a b) = level_rank a `max` level_rank b.
Proof. unfold level_max. destruct (Nat.leb_spec (level_rank a) (level_rank b)); lia. Qed.

Lemma level_max_assoc a b c : level_max a (level_max b c) = level_max (level_max a b) c.
Proof. apply level_rank_inj. rewrite !level_max_rank. lia. Qed.

Lemma max_level_app l1 l2 :
  max_level (l1 ++ l2) = level_max (max_level l1) (max_level l2).
Proof.
  induction l1 as [|x l1 IH]; simpl.
  - by destruct (max_level l2).
  - by rewrite IH, level_max_assoc.
Qed.

Lemma max_level_ge l x : x ∈ l → level_rank x <= level_rank (max_level l).
Proof.
  induction 1 as [x l|x y l _ IH]; simpl; rewrite level_max_rank; lia.
Qed.

Lemma max_level_elem l : max_level l = Safe ∨ max_level l ∈ l.
Proof.
  induction l as [|x l IH]; simpl; [by left|].
  unfold level_max. destruct (Nat.leb (level_rank x) (level_rank (max_level l))).
  - destruct IH; [by left|right; set_solver].
  - right. set_solver.
Qed.

(** The catastrophic level is reached exactly when some finding is catastrophic. *)
Lemma from_findings_catastrophic fs :
  level (from_findings fs) = Catastrophic ↔ ∃ f, f ∈ fs ∧ f_level f = Catastrophic.
Proof.
  simpl. split.
  - intros H. destruct (max_level_elem (map f_level fs)) as [E|E]; [congruence|].
    rewrite H in E. apply list_elem_of_fmap in E as (f & ? & ?). eauto.
  - intros (f & Hf & Hl). apply level_rank_inj.
    pose proof (max_level_ge (map f_level fs) Catastrophic) as Hge.
    rewrite <- Hl in Hge at 1. specialize (Hge ltac:(by apply list_elem_of_fmap_2)).
    revert Hge. rewrite ?Hl. destruct (max_level (map f_level fs)); simpl; lia.
Qed.

(** * [arterm-command-risk]: the reflection gate (crates/arterm-command-risk/src/gate.rs)

    What happens to an assessed command: run, reflect, or deny for good. *)

Inductive GateOutcome :=
  | Allow
  | Reflect (prompt : string)
  | Deny (reason : string).

#[export] Instance GateOutcome_eq_dec : EqDecision GateOutcome.
Proof. solve_decision. Defined.

(** [Justification], with its only field. *)
Record Justification := mkJustification { justification_text : option string }.

Definition MIN_JUSTIFICATION_LEN : nat := 25.

Definition EMPTY_AFFIRMATIONS : list string :=
  ["yes"; "ok"; "okay"; "sure"; "confirmed"; "proceed"; "do it"; "continue"; "y";
   "approved"; "go ahead"].

Definition is_final_punctuation (c : ascii) : bool :=
  Ascii.eqb c "." || Ascii.eqb c "!" || Ascii.eqb c "?".

(** The lowercased justification without its final punctuation. *)
Definition stripped (text : string) : string :=
  trim (trim_end_matches is_final_punctuation (to_lowercase text)).

(** [Justification::is_substantive] *)
Definition is_substantive (j : Justification) : bool :=
  match justification_text j with
  | None => false
  | Some t =>
      let text := trim t in
      if Nat.ltb (String.length text) MIN_JUSTIFICATION_LEN then false
      else negb (existsb (String.eqb (stripped text)) EMPTY_AFFIRMATIONS)
  end.

Definition deny_reason (a : RiskAssessment) : string :=
  "This command is blocked and cannot be confirmed." +:+ nl +:+ nl +:+ explanation a +:+ nl
  +:+ "If the user genuinely wants this, they must run it themselves outside the agent.".

Definition reflection_prompt (a : RiskAssessment) : string :=
  "This command was not run. It is irreversible:" +:+ nl +:+ nl +:+ explanation a +:+ nl
  +:+ "Before it can proceed, stop and check it against the user's actual request:" +:+ nl
  +:+ "- Which specific thing the user asked for requires deleting this?" +:+ nl
  +:+ "- Did the user name this path, or did you infer it?" +:+ nl
  +:+ "- If you inferred it, is a narrower target enough?" +:+ nl
  +:+ "- If this is wrong, nothing here can be recovered." +:+ nl +:+ nl
  +:+ "If it is genuinely what the user asked for, re-issue the same call with a `justification` field explaining which request it serves. If you are not sure, ask the user instead: that costs one message, and being wrong costs their data.".

Definition gate (a : RiskAssessment) (j : Justification) : GateOutcome :=
  match level a with
  | Safe | Low => Allow
  | Catastrophic => Deny (deny_reason a)
  | Confirm => if is_substantive j then Allow else Reflect (reflection_prompt a)
  end.
