(* ===== verification/RiskPaths.v ===== *)
(** * [arterm-command-risk]: path classification (crates/arterm-command-risk/src/paths.rs)

    Which paths may never be destroyed, and what one target of a destructive command is
    worth.  Everything is lexical: [normalize] resolves ["."] and [".."] on the text of a
    path, and the protected sets are compared component by component. *)

From S2P Require Export StdPath RiskModel.

Definition PROTECTED_CREDENTIAL_SUBPATHS : list string :=
  [".ssh"; ".gnupg"; ".aws"; ".kube"; ".docker"].

Definition PROTECTED_HOME_SUBPATHS : list string :=
  [".config"; ".arterm"; ".claude"; ".local"; ".local/share"; "Documents"; "Desktop"].

Definition PROTECTED_SYSTEM_PATHS : list string :=
  ["/"; "/bin"; "/boot"; "/dev"; "/etc"; "/lib"; "/lib64"; "/opt"; "/proc"; "/root";
   "/sbin"; "/srv"; "/sys"; "/usr"; "/var"; "/Applications"; "/System"; "/Library";
   "/Users"; "/home"].

Definition SYSTEM_PATHS_PROTECTED_RECURSIVELY : list string :=
  ["/bin"; "/boot"; "/dev"; "/etc"; "/lib"; "/lib64"; "/proc"; "/sbin"; "/sys"; "/usr";
   "/var/lib"; "/System"; "/Library"].

(** One iteration of the loop of [normalize]. *)
Definition normalize_step (out : string) (c : Component) : string :=
  match c with
  | ParentDir => pop out
  | CurDir => out
  | other => push out (as_os_str other)
  end.

Definition normalize (path : string) : string :=
  let out := foldl normalize_step "" (components path) in
  if is_empty out then "/" else out.

Definition expand_home (home raw : string) : string :=
  let text := replace "$HOME" home (replace "${HOME}" home raw) in
  if String.eqb text "~" then home
  else match strip_prefix "~/" text with
       | Some rest => home +:+ "/" +:+ rest
       | None => text
       end.

Definition expand (raw : string) (ctx : RiskContext) : string :=
  let text :=
    match home_dir ctx with Some home => expand_home home raw | None => raw end in
  if is_absolute text then normalize text
  else match working_dir ctx with
       | Some cwd => normalize (path_join cwd text)
       | None => text
       end.

Definition is_catastrophic_target (path0 : string) (ctx : RiskContext) : bool :=
  let path := normalize path0 in
  if existsb (λ p, path_eq path p) PROTECTED_SYSTEM_PATHS then true
  else if existsb (λ p, path_starts_with path p) SYSTEM_PATHS_PROTECTED_RECURSIVELY then true
  else
    match home_dir ctx with
    | None => false
    | Some home0 =>
        let home := normalize home0 in
        if path_eq path home then true
        else if existsb (λ sub, path_starts_with path (path_join home sub))
                  PROTECTED_CREDENTIAL_SUBPATHS then true
        else existsb (λ sub, path_eq path (path_join home sub)) PROTECTED_HOME_SUBPATHS
    end.

Definition is_temp_path (path : string) : bool :=
  existsb (λ prefix, path_starts_with path prefix) ["/tmp"; "/var/tmp"; "/private/tmp"].

(** [ctx.working_dir.is_some_and(|cwd| path.starts_with(normalize(cwd)))] *)
Definition inside_working_dir (path : string) (ctx : RiskContext) : bool :=
  match working_dir ctx with
  | Some cwd => path_starts_with path (normalize cwd)
  | None => false
  end.

Definition has_glob (s : string) : bool := contains_char "*" s || contains_char "?" s.

Definition reason_glob_protected : string :=
  "would destroy the entire contents of a protected directory".
Definition reason_glob_bounded : string :=
  "glob is bounded to the working or temporary directory".
Definition reason_glob_unknown : string :=
  "target contains a glob, so the exact set of affected files is not known before execution".
Definition reason_protected : string :=
  "targets a protected system or home path that must never be destroyed".
Definition reason_runtime : string :=
  "target is computed at runtime (variable or command substitution), so its value cannot be checked in advance".
Definition reason_device : string :=
  "writes directly to a device node, which can destroy a filesystem or disk".
Definition reason_recursive : string :=
  "recursive delete inside the working directory".
Definition reason_outside : string :=
  "destructive operation targets a concrete path outside the working directory".

(** The glob branch of [classify_target]. *)
Definition classify_glob (expanded raw : string) (ctx : RiskContext) : RiskFinding :=
  if match parent expanded with
     | Some parent_of_glob =>
         is_catastrophic_target parent_of_glob ctx &&
         match file_name expanded with Some n => String.eqb n "*" | None => false end
     | None => false
     end
  then mkFinding Catastrophic reason_glob_protected (Some raw)
  else if match parent expanded with
          | Some parent => negb (has_glob parent) &&
                           (inside_working_dir parent ctx || is_temp_path parent)
          | None => false
          end
  then mkFinding Low reason_glob_bounded (Some raw)
  else mkFinding Confirm reason_glob_unknown (Some raw).

Definition is_device_node (expanded : string) : bool :=
  path_starts_with expanded "/dev" && negb (path_starts_with expanded "/dev/null")
  && negb (path_starts_with expanded "/dev/stdout")
  && negb (path_starts_with expanded "/dev/stderr").

Definition classify_target (expanded raw : string) (recursive : bool) (ctx : RiskContext)
  : option RiskFinding :=
  if has_glob raw then Some (classify_glob expanded raw ctx)
  else if is_catastrophic_target expanded ctx
  then Some (mkFinding Catastrophic reason_protected (Some expanded))
  else if contains_char "$" raw || contains_char "`" raw
  then Some (mkFinding Confirm reason_runtime (Some raw))
  else if is_device_node expanded
  then Some (mkFinding Catastrophic reason_device (Some expanded))
  else if inside_working_dir expanded ctx
  then (if recursive then Some (mkFinding Low reason_recursive (Some expanded)) else None)
  else if is_temp_path expanded then None
  else Some (mkFinding Low reason_outside (Some expanded)).

(** ** The meaning of a path: its walk from the start

    [walk] follows the components of a path with a stack of names, which is what a file
    system without symbolic links does: [".."] goes up, and going up from the top stays. *)
Definition walk_step (st : bool * list string) (c : Component) : bool * list string :=
  match c with
  | RootDir => (true, [])
  | CurDir => st
  | ParentDir => (st.1, take (length st.2 - 1) st.2)
  | Normal w => (st.1, st.2 ++ [w])
  end.

Definition walk (path : string) : bool * list string :=
  foldl walk_step (false, []) (components path).

(** The components a path resolves to. *)
Definition resolve (path : string) : list Component :=
  let '(rooted, names) := walk path in
  if negb rooted && bool_decide (names = []) then [RootDir]
  else (if rooted then [RootDir] else []) ++ (Normal <$> names).

(** ** [normalize] computes the walk *)

Lemma walk_valid path : Forall valid_name (walk path).2.
Proof.
  unfold walk.
  assert (∀ cs st, (∀ w, Normal w ∈ cs → valid_name w) → Forall valid_name st.2 →
            Forall valid_name (foldl walk_step st cs).2) as H.
  { induction cs as [|c cs IH]; intros st Hcs Hst; [done|].
    apply IH; [set_solver|]. destruct c; simpl; [constructor|done|by apply Forall_take|].
    apply Forall_app; split; [done|]. constructor; [|constructor]. apply Hcs. set_solver. }
  apply H; [|constructor]. intros w. apply components_names_valid.
Qed.

Lemma normalize_fold cs st :
  (∀ w, Normal w ∈ cs → valid_name w) → Forall valid_name st.2 →
  foldl normalize_step (render st.1 st.2) cs
  = let '(r, names) := foldl walk_step st cs in render r names.
Proof.
  revert st. induction cs as [|c cs IH]; intros [r names] Hcs Hst; [done|].
  cbn [foldl fst snd]. simpl in Hst.
  assert (normalize_step (render r names) c
          = render (walk_step (r, names) c).1 (walk_step (r, names) c).2) as ->.
  { destruct c; simpl; [done|done|by apply pop_render|].
    apply (push_render r names [name]); [done..|].
    constructor; [apply Hcs; set_solver|constructor]. }
  apply IH; [set_solver|].
  destruct c; simpl; [constructor|done|by apply Forall_take|].
  apply Forall_app; split; [done|]. constructor; [|constructor]. apply Hcs. set_solver.
Qed.

Lemma normalize_render path :
  normalize path = let '(r, names) := walk path in
                   if negb r && bool_decide (names = []) then "/" else render r names.
Proof.
  unfold normalize, walk.
  pose proof (normalize_fold (components path) (false, [])) as Hf.
  change (render (false, []).1 (false, []).2) with "" in Hf.
  rewrite Hf; [|apply components_names_valid|constructor].
  pose proof (walk_valid path) as Hv. unfold walk in Hv.
  destruct (foldl walk_step (false, []) (components path)) as [r names]. simpl in Hv.
  destruct r; simpl; [done|].
  destruct (decide (names = [])) as [->|Hne]; [done|].
  rewrite bool_decide_false by done.
  assert (is_empty (render false names) = false) as ->; [|done].
  by apply is_empty_false, concat_names_nonempty.
Qed.

Lemma components_normalize path : components (normalize path) = resolve path.
Proof.
  rewrite normalize_render. unfold resolve. pose proof (walk_valid path) as Hv.
  destruct (walk path) as [r names]. simpl in Hv.
  destruct (negb r && bool_decide (names = [])); [done|]. by apply components_render.
Qed.

Lemma walk_names cs r names :
  foldl walk_step (r, names) (Normal <$> cs) = (r, names ++ cs).
Proof.
  revert names. induction cs as [|c cs IH]; intros names; simpl.
  - by rewrite app_nil_r.
  - rewrite IH. by rewrite <- app_assoc.
Qed.

Lemma walk_normalize path :
  walk (normalize path) = (λ st, if negb st.1 && bool_decide (st.2 = []) then (true, []) else st)
                            (walk path).
Proof.
  unfold walk at 1. rewrite components_normalize. unfold resolve.
  destruct (walk path) as [r names]. simpl.
  destruct (negb r && bool_decide (names = [])) eqn:E; [done|].
  rewrite foldl_app. destruct r; simpl; by rewrite walk_names.
Qed.

(** Two paths with one meaning normalize to the same text. *)
Lemma normalize_resolve p q : resolve p = resolve q ↔ normalize p = normalize q.
Proof.
  split; intros H; [|by rewrite <- !components_normalize, H].
  rewrite !normalize_render. revert H. unfold resolve.
  pose proof (walk_valid p) as Hp. pose proof (walk_valid q) as Hq.
  destruct (walk p) as [r names], (walk q) as [r' names']. simpl in Hp, Hq.
  destruct r, r'; simpl; repeat case_bool_decide; subst; simpl; intros Heq;
    simplify_eq/=; try done; try (by destruct names); try (by destruct names').
Qed.

(** [normalize] is idempotent: its result resolves to what the path resolves to. *)
Lemma resolve_normalize p : resolve (normalize p) = resolve p.
Proof.
  unfold resolve at 1. rewrite walk_normalize. unfold resolve.
  destruct (walk p) as [[] names]; simpl; [done|].
  case_bool_decide; simpl; [done|]. by rewrite bool_decide_false.
Qed.

Lemma normalize_idemp p : normalize (normalize p) = normalize p.
Proof. apply normalize_resolve, resolve_normalize. Qed.

(** ** The protected set as a set of component lists *)

(** [subs] under the resolved home directory. *)
Definition home_path (home : string) (sub : string) : list Component :=
  resolve home ++ body_components sub.

Definition catastrophic_spec (path : string) (ctx : RiskContext) : Prop :=
  (∃ d, d ∈ PROTECTED_SYSTEM_PATHS ∧ resolve path = components d)
  ∨ (∃ d, d ∈ SYSTEM_PATHS_PROTECTED_RECURSIVELY ∧ components d `prefix_of` resolve path)
  ∨ ∃ home, home_dir ctx = Some home ∧
      (resolve path = resolve home
       ∨ (∃ sub, sub ∈ PROTECTED_CREDENTIAL_SUBPATHS
                 ∧ home_path home sub `prefix_of` resolve path)
       ∨ (∃ sub, sub ∈ PROTECTED_HOME_SUBPATHS ∧ resolve path = home_path home sub)).

Lemma components_home_join home sub names :
  sub = String.concat "/" names → names ≠ [] → Forall valid_name names →
  components (path_join (normalize home) sub) = home_path home sub.
Proof.
  intros -> Hne Hv. unfold home_path, path_join. rewrite <- components_normalize.
  unfold body_components. rewrite split_render_names by done. rewrite omap_valid by done.
  rewrite normalize_render. pose proof (walk_valid home) as Hw.
  destruct (walk home) as [r hs]. simpl in Hw.
  destruct (negb r && bool_decide (hs = [])).
  - change "/" with (render true []).
    rewrite push_render by (done || constructor). by rewrite !components_render.
  - rewrite push_render by done. rewrite !components_render by (done || by apply Forall_app).
    by rewrite fmap_app, app_assoc.
Qed.

(** Every protected subpath of the home directory is a list of names. *)
Lemma protected_subpaths_names sub :
  sub ∈ PROTECTED_CREDENTIAL_SUBPATHS ∨ sub ∈ PROTECTED_HOME_SUBPATHS →
  ∃ names, sub = String.concat "/" names ∧ names ≠ [] ∧ Forall valid_name names.
Proof.
  assert (∀ w, contains_char "/" w || is_skip w || String.eqb w ".." = false → valid_name w)
    as Hval.
  { intros w ([? ?]%orb_false_iff & ?)%orb_false_iff. split_and!; [done..|].
    by apply String.eqb_neq. }
  assert (∀ w, contains_char "/" w || is_skip w || String.eqb w ".." = false →
            ∃ names, w = String.concat "/" names ∧ names ≠ [] ∧ Forall valid_name names)
    as Hone.
  { intros w Hw. exists [w]. split_and!; [done..|]. constructor; [by apply Hval|done]. }
  unfold PROTECTED_CREDENTIAL_SUBPATHS, PROTECTED_HOME_SUBPATHS.
  rewrite !elem_of_cons, !elem_of_nil.
  intros Hs. destruct (decide (sub = ".local/share")) as [->|Hls].
  - exists [".local"; "share"]. split_and!; [done..|].
    repeat (constructor; [by apply Hval|]). constructor.
  - apply Hone. naive_solver.
Qed.

Lemma components_protected home sub :
  sub ∈ PROTECTED_CREDENTIAL_SUBPATHS ∨ sub ∈ PROTECTED_HOME_SUBPATHS →
  components (path_join (normalize home) sub) = home_path home sub.
Proof.
  intros (names & ? & ? & ?)%protected_subpaths_names. by eapply components_home_join.
Qed.

(** The check decides the specification. *)
Lemma is_catastrophic_target_spec path ctx :
  is_catastrophic_target path ctx = true ↔ catastrophic_spec path ctx.
Proof.
  assert (∀ l, existsb (λ p, path_eq (normalize path) p) l = true
               ↔ ∃ d, d ∈ l ∧ resolve path = components d) as Heq.
  { intros l. rewrite existsb_elem. unfold path_eq. setoid_rewrite bool_decide_eq_true.
    by rewrite components_normalize. }
  assert (∀ l, existsb (λ p, path_starts_with (normalize path) p) l = true
               ↔ ∃ d, d ∈ l ∧ components d `prefix_of` resolve path) as Hst.
  { intros l. rewrite existsb_elem. setoid_rewrite path_starts_with_iff.
    by rewrite components_normalize. }
  unfold is_catastrophic_target, catastrophic_spec.
  rewrite <- Heq, <- Hst. clear Heq Hst.
  destruct (existsb _ PROTECTED_SYSTEM_PATHS); [naive_solver|].
  destruct (existsb _ SYSTEM_PATHS_PROTECTED_RECURSIVELY); [naive_solver|].
  destruct (home_dir ctx) as [home|]; [|naive_solver].
  assert (path_eq (normalize path) (normalize home) = true ↔ resolve path = resolve home)
    as Hh.
  { unfold path_eq. by rewrite bool_decide_eq_true, !components_normalize. }
  assert (existsb (λ sub, path_starts_with (normalize path) (path_join (normalize home) sub))
            PROTECTED_CREDENTIAL_SUBPATHS = true
          ↔ ∃ sub, sub ∈ PROTECTED_CREDENTIAL_SUBPATHS
                   ∧ home_path home sub `prefix_of` resolve path) as Hc.
  { rewrite existsb_elem. setoid_rewrite path_starts_with_iff.
    setoid_rewrite components_normalize.
    split; intros (sub & Hin & H); exists sub; rewrite components_protected in *; auto. }
  assert (existsb (λ sub, path_eq (normalize path) (path_join (normalize home) sub))
            PROTECTED_HOME_SUBPATHS = true
          ↔ ∃ sub, sub ∈ PROTECTED_HOME_SUBPATHS ∧ resolve path = home_path home sub) as Hp.
  { rewrite existsb_elem. unfold path_eq. setoid_rewrite bool_decide_eq_true.
    setoid_rewrite components_normalize.
    split; intros (sub & Hin & H); exists sub; rewrite components_protected in *; auto. }
  transitivity (resolve path = resolve home
    ∨ (∃ sub, sub ∈ PROTECTED_CREDENTIAL_SUBPATHS ∧ home_path home sub `prefix_of` resolve path)
    ∨ (∃ sub, sub ∈ PROTECTED_HOME_SUBPATHS ∧ resolve path = home_path home sub));
    [|split; [intros H; right; right; by exists home
             |intros [[=]|[[=]|(h & [= <-] & H)]]; exact H]].
  rewrite <- Hh, <- Hc, <- Hp. clear Hh Hc Hp.
  destruct (path_eq (normalize path) (normalize home)); [naive_solver|].
  destruct (existsb _ PROTECTED_CREDENTIAL_SUBPATHS); naive_solver.
Qed.

(** ** Detours and globs *)

(** Going into a directory and back out of it leaves a path's meaning alone. *)
Lemma walk_detour path w rest :
  path ≠ "" → valid_name w →
  walk (path +:+ "/" +:+ w +:+ "/../" +:+ rest) = walk (path +:+ "/" +:+ rest).
Proof.
  intros Hp Hw. unfold walk. rewrite !components_slash by done.
  change ("/../" +:+ rest) with ("/" +:+ ".." +:+ "/" +:+ rest).
  rewrite !body_components_slash.
  assert (body_components w = [Normal w]) as ->.
  { unfold body_components. rewrite split_on_no_sep by apply Hw.
    cbn [omap list_omap]. by rewrite valid_name_component. }
  change (body_components "..") with [ParentDir].
  rewrite !foldl_app. set (st := foldl walk_step (false, []) (components path)).
  destruct st as [r names]. cbn [foldl walk_step fst snd].
  rewrite length_app, take_app_le by (simpl; lia).
  rewrite take_ge by (simpl; lia). done.
Qed.

Lemma resolve_detour path w rest :
  path ≠ "" → valid_name w →
  resolve (path +:+ "/" +:+ w +:+ "/../" +:+ rest) = resolve (path +:+ "/" +:+ rest).
Proof. intros Hp Hw. unfold resolve. by rewrite walk_detour. Qed.

Lemma catastrophic_resolve p q ctx :
  resolve p = resolve q → is_catastrophic_target p ctx = is_catastrophic_target q ctx.
Proof. intros Hr. unfold is_catastrophic_target. by apply normalize_resolve in Hr as ->. Qed.

(** A rooted path with a final name: its parent and its file name. *)
Lemma parent_render r names w :
  Forall valid_name names → valid_name w →
  parent (render r (names ++ [w])) = Some (render r names)
  ∧ file_name (render r (names ++ [w])) = Some w.
Proof.
  intros Hv Hw.
  assert (Forall valid_name (names ++ [w])) as Hvw by (apply Forall_app; auto).
  assert (last (components (render r (names ++ [w]))) = Some (Normal w)) as Hlast.
  { rewrite components_render by done. rewrite fmap_app. change (Normal <$> [w]) with [Normal w]. by rewrite app_assoc, last_snoc. }
  split; [|unfold file_name; by rewrite Hlast].
  pose proof (pop_render r (names ++ [w]) Hvw) as Hpop.
  rewrite length_app, Nat.add_sub, take_app_length in Hpop.
  revert Hpop. unfold pop, parent. rewrite Hlast. by intros ->.
Qed.

Lemma normalize_absolute_child d w :
  is_absolute d = true → valid_name w →
  ∃ names, Forall valid_name names
           ∧ normalize d = render true names
           ∧ normalize (d +:+ "/" +:+ w) = render true (names ++ [w]).
Proof.
  intros Hd Hw. pose proof (walk_valid d) as Hv.
  assert ((walk d).1 = true) as Hr.
  { unfold walk, components. unfold is_absolute in Hd. rewrite Hd.
    rewrite foldl_app. simpl. generalize (omap segment_component (split_on "/" d)).
    assert (∀ cs st, st.1 = true → (foldl walk_step st cs).1 = true) as H.
    { induction cs as [|c cs IH]; intros st Hst; [done|]. apply IH. by destruct c. }
    intros cs. by apply H. }
  exists (walk d).2. split; [done|].
  assert (walk (d +:+ "/" +:+ w) = (true, (walk d).2 ++ [w])) as Hw'.
  { unfold walk at 1. rewrite components_slash by (by destruct d).
    assert (body_components w = [Normal w]) as ->.
    { unfold body_components. rewrite split_on_no_sep by apply Hw.
      cbn [omap list_omap]. by rewrite valid_name_component. }
    rewrite foldl_app. fold (walk d). simpl. by rewrite Hr. }
  rewrite !normalize_render, Hw'. destruct (walk d) as [r names]. simpl in *. by subst.
Qed.
