(* ===== verification/Assess.v ===== *)
(** * [arterm-command-risk]: assessing a command (crates/arterm-command-risk/src/lib.rs)

    [assess] cuts a command line into segments and collects the findings of each.  A
    segment is unwrapped ([sudo], [env], ...) down to the program it runs; a shell's script
    arguments are assessed in their turn, every other program by what its operands and
    redirections would destroy.  The recursion into scripts runs on fuel; [assess] supplies
    the length of the command, which [assess_total] proves to be enough. *)

From S2P Require Export Tokenize RiskPaths.

Definition DESTRUCTIVE_COMMANDS : list string :=
  ["rm"; "rmdir"; "shred"; "unlink"; "truncate"; "dd"; "mkfs"; "fdisk"; "parted";
   "wipefs"; "srm"].

Definition WRAPPER_COMMANDS : list string :=
  ["sudo"; "doas"; "env"; "nice"; "ionice"; "time"; "timeout"; "nohup"; "xargs"; "command";
   "builtin"; "exec"; "setsid"; "stdbuf"; "chroot"; "su"; "watch"; "eval"].

Definition SHELL_CONTROL_PREFIXES : list string :=
  ["then"; "do"; "else"; "elif"; "if"; "while"; "until"; "case"; "in"; "select"].

Definition wrapper_flag_takes_value (wrapper flag : string) : bool :=
  if one_of ["sudo"; "doas"] wrapper then
    one_of ["-u"; "--user"; "-g"; "--group"; "-C"] flag
  else if String.eqb wrapper "nice" then one_of ["-n"; "--adjustment"] flag
  else if String.eqb wrapper "ionice" then
    one_of ["-c"; "--class"; "-n"; "--classdata"; "-p"; "--pid"] flag
  else if String.eqb wrapper "timeout" then
    one_of ["-s"; "--signal"; "-k"; "--kill-after"] flag
  else if String.eqb wrapper "xargs" then
    one_of ["-n"; "--max-args"; "-P"; "--max-procs"; "-s"; "--max-chars"] flag
  else if String.eqb wrapper "chroot" then one_of ["--userspec"; "--groups"] flag
  else false.

Definition SHELL_COMMANDS : list string := ["sh"; "bash"; "zsh"; "dash"; "ksh"; "fish"].

Definition CONDITIONALLY_DESTRUCTIVE : list (string * list string) :=
  [("find", ["-delete"; "-exec"]); ("git", ["clean"]); ("chmod", ["-R"]); ("chown", ["-R"])].

Definition is_safe_redirect_sink (raw : string) : bool :=
  one_of ["/dev/null"; "/dev/stdout"; "/dev/stderr"; "NUL"] raw.

(** The loop that strips shell grammar words. *)
Fixpoint strip_control (tokens : list Token) : list Token :=
  match tokens with
  | token :: rest =>
      match rest with
      | [] => tokens
      | _ :: _ => if one_of SHELL_CONTROL_PREFIXES (text token) then strip_control rest
                  else tokens
      end
  | [] => tokens
  end.

Definition is_number (t : Token) : bool :=
  string_forallb (λ c, is_ascii_digit c || Ascii.eqb c ".") (text t).

(** The inner loop: a wrapper's own options and assignments are skipped. *)
Fixpoint skip_wrapper_args (wrapper : string) (rest : list Token) : list Token :=
  match rest with
  | [] => []
  | token :: rest' =>
      if is_operator token || contains_char "=" (text token)
      then skip_wrapper_args wrapper rest'
      else if is_flag token then
        if wrapper_flag_takes_value wrapper (text token)
        then match rest' with _ :: rest'' => skip_wrapper_args wrapper rest'' | [] => [] end
        else skip_wrapper_args wrapper rest'
      else if is_number token then skip_wrapper_args wrapper rest'
      else rest
  end.

(** The unwrapping loop: the last wrapper seen and the tokens it runs. *)
Fixpoint unwrap (fuel : nat) (wrapped_by : option string) (tokens : list Token)
  : option (option string * list Token) :=
  match tokens with
  | [] => Some (wrapped_by, [])
  | first :: rest =>
      let name := basename first in
      if one_of WRAPPER_COMMANDS name then
        match fuel with
        | S fuel' => unwrap fuel' (Some name) (skip_wrapper_args name rest)
        | 0 => None
        end
      else Some (wrapped_by, tokens)
  end.

Definition finding_hidden (wrapper : string) : RiskFinding :=
  mkFinding Confirm
    ("`" +:+ wrapper +:+ "` runs another command that could not be identified statically")
    None.

Definition finding_pipe (program : string) : RiskFinding :=
  mkFinding Confirm
    ("`" +:+ program +:+ "` deletes paths supplied by a pipe, so the set of affected files cannot be checked before it runs")
    None.

Definition finding_no_target (program : string) : RiskFinding :=
  mkFinding Confirm
    ("`" +:+ program +:+ "` is destructive but its target could not be determined statically, so its blast radius is unknown")
    None.

(** The flags that make a program destructive. *)
Definition conditional_flags (program : string) : option (list string) :=
  snd <$> List.find (λ p, String.eqb p.1 program) CONDITIONALLY_DESTRUCTIVE.

Definition is_triggered (program : string) (tokens : list Token) : bool :=
  if one_of DESTRUCTIVE_COMMANDS program then true
  else match conditional_flags program with
       | Some flags => existsb (λ t, one_of flags (text t)) tokens
       | None => false
       end.

Definition redirect_targets (tokens : list Token) : list Token :=
  List.filter is_truncating_redirect_target tokens.

(** What the command would write or delete. *)
Definition segment_targets (triggered : bool) (tokens : list Token) : list Token :=
  (if triggered
   then List.filter (λ t, negb (is_flag t) && negb (is_operator t)) (drop 1 tokens)
   else [])
  ++ List.filter (λ t, negb (is_safe_redirect_sink (text t))) (redirect_targets tokens).

(** A [dd]-style [key=value] operand names its path after the equals sign. *)
Definition raw_operand (t : Token) : string :=
  match split_once "=" (text t) with
  | Some (key, value) => if one_of ["of"; "if"; "seek"; "conv"] key then value else text t
  | None => text t
  end.

Definition target_finding (recursive : bool) (ctx : RiskContext) (t : Token)
  : list RiskFinding :=
  let raw := raw_operand t in
  match classify_target (expand raw ctx) raw recursive ctx with
  | Some f => [f]
  | None => []
  end.

(** The part of [assess_segment] after the shell branch, for an unwrapped command. *)
Definition assess_program (tokens : list Token) (program : Token) (ctx : RiskContext)
  : list RiskFinding :=
  let program_name := basename program in
  let triggered := is_triggered program_name tokens in
  if negb triggered && bool_decide (redirect_targets tokens = []) then []
  else
    let targets := segment_targets triggered tokens in
    let piped := if triggered && receives_pipe program
                 then [finding_pipe program_name] else [] in
    if triggered && bool_decide (targets = [])
    then piped ++ [finding_no_target program_name]
    else
      let recursive := triggered && existsb is_recursive_flag tokens in
      piped ++ flat_map (target_finding recursive ctx) targets.

(** Collect the findings of a loop whose body may run out of fuel. *)
Fixpoint collect {A B} (f : A → option (list B)) (l : list A) : option (list B) :=
  match l with
  | [] => Some []
  | x :: l' =>
      let?? ys := f x in
      let?? zs := collect f l' in
      Some (ys ++ zs)
  end.

Fixpoint assess_segment (fuel : nat) (ctx : RiskContext) (tokens0 : list Token)
  : option (list RiskFinding) :=
  match fuel with
  | 0 => None
  | S fuel' =>
      let tokens1 := strip_control tokens0 in
      let?? (wrapped_by, tokens) := unwrap (length tokens1) None tokens1 in
      match tokens with
      | [] => Some (match wrapped_by with Some w => [finding_hidden w] | None => [] end)
      | program :: args =>
          if one_of SHELL_COMMANDS (basename program) then
            collect
              (λ token, collect (assess_segment fuel' ctx) (split_segments (text token)))
              (List.filter (λ t, negb (is_flag t)) args)
          else Some (assess_program tokens program ctx)
      end
  end.

Definition assess_with (fuel : nat) (command : string) (ctx : RiskContext)
  : option RiskAssessment :=
  let?? fs := collect (assess_segment fuel ctx) (split_segments command) in
  Some (match fs with [] => safe_assessment | _ => from_findings fs end).

(** [assess], with the fuel the command's length bounds. *)
Definition assess (command : string) (ctx : RiskContext) : option RiskAssessment :=
  assess_with (S (String.length command)) command ctx.

(** ** The loops terminate *)

Lemma skip_wrapper_args_length w ts : length (skip_wrapper_args w ts) <= length ts.
Proof.
  remember (length ts) as n eqn:Hn. revert ts Hn.
  induction n as [n IH] using lt_wf_ind. intros ts ->.
  destruct ts as [|t ts]; simpl; [lia|].
  assert (length (skip_wrapper_args w ts) <= length ts) as H1 by (eapply IH; [|done]; simpl; lia).
  repeat case_match; simpl in *; try lia.
  assert (length (skip_wrapper_args w l) <= length l) by (eapply IH; [|done]; lia). lia.
Qed.

Lemma skip_wrapper_args_suffix w ts : skip_wrapper_args w ts `suffix_of` ts.
Proof.
  remember (length ts) as n eqn:Hn. revert ts Hn.
  induction n as [n IH] using lt_wf_ind. intros ts ->.
  destruct ts as [|t ts]; [done|]. cbn [skip_wrapper_args].
  assert (skip_wrapper_args w ts `suffix_of` t :: ts) as H1.
  { apply suffix_cons_r. eapply IH; [|done]. simpl; lia. }
  repeat case_match; subst; try done; try apply suffix_nil.
  do 2 apply suffix_cons_r. eapply IH; [|done]. simpl; lia.
Qed.

Lemma unwrap_total fuel wb ts :
  length ts <= fuel → ∃ wb' ts', unwrap fuel wb ts = Some (wb', ts') ∧ ts' `suffix_of` ts.
Proof.
  revert wb ts. induction fuel as [|fuel IH]; intros wb ts Hlen;
    destruct ts as [|t ts]; simpl in *; try lia; [by do 2 eexists..|].
  destruct (one_of WRAPPER_COMMANDS (basename t)); [|by do 2 eexists].
  pose proof (skip_wrapper_args_length (basename t) ts).
  destruct (IH (Some (basename t)) (skip_wrapper_args (basename t) ts)) as (wb' & ts' & H' & Hs);
    [lia|]. exists wb', ts'. split; [done|].
  etrans; [done|]. apply suffix_cons_r, skip_wrapper_args_suffix.
Qed.

Lemma strip_control_suffix ts : strip_control ts `suffix_of` ts.
Proof.
  induction ts as [|t [|u ts] IH]; simpl in *; [done|done|].
  destruct (one_of SHELL_CONTROL_PREFIXES (text t)); [|done]. by apply suffix_cons_r.
Qed.

Lemma suffix_tokens_size ts ts' : ts' `suffix_of` ts → tokens_size ts' <= tokens_size ts.
Proof. intros [k ->]. unfold tokens_size. rewrite sum_of_app. lia. Qed.

Lemma collect_total {A B} (f : A → option (list B)) l :
  (∀ x, x ∈ l → is_Some (f x)) → is_Some (collect f l).
Proof.
  induction l as [|x l IH]; intros H; simpl; [by eexists|].
  destruct (H x) as [ys ->]; [set_solver|].
  destruct IH as [zs ->]; [set_solver|]. by eexists.
Qed.

Lemma collect_Some_elem {A B} (f : A → option (list B)) l r :
  collect f l = Some r → ∀ x, x ∈ l → ∃ ys, f x = Some ys ∧ ys ⊆ r.
Proof.
  revert r. induction l as [|y l IH]; intros r Hr x Hx; [set_solver|].
  simpl in Hr. destruct (f y) as [ys|] eqn:Hy; [|done].
  destruct (collect f l) as [zs|] eqn:Hz; [|done]. simplify_eq.
  apply elem_of_cons in Hx as [->|Hx]; [exists ys; set_solver|].
  destruct (IH zs eq_refl x Hx) as (ys' & ? & ?). exists ys'. set_solver.
Qed.

Lemma collect_app {A B} (f : A → option (list B)) l1 l2 r1 r2 :
  collect f l1 = Some r1 → collect f l2 = Some r2 → collect f (l1 ++ l2) = Some (r1 ++ r2).
Proof.
  revert r1. induction l1 as [|x l1 IH]; intros r1; simpl; [by intros [= <-]|].
  destruct (f x) as [ys|]; [|done]. destruct (collect f l1) as [zs|]; [|done].
  intros [= <-] H2. rewrite (IH zs) by done. by rewrite app_assoc.
Qed.

Lemma collect_mono {A B} (f g : A → option (list B)) l r :
  (∀ x ys, x ∈ l → f x = Some ys → g x = Some ys) →
  collect f l = Some r → collect g l = Some r.
Proof.
  revert r. induction l as [|x l IH]; intros r Hfg; simpl; [done|].
  destruct (f x) as [ys|] eqn:Hx; [|done]. rewrite (Hfg x ys) by set_solver.
  destruct (collect f l) as [zs|] eqn:Hl; [|done].
  rewrite (IH zs); [done| |done]. set_solver.
Qed.

Lemma shell_name_size t :
  one_of SHELL_COMMANDS (basename t) = true → 0 < token_size t.
Proof.
  unfold token_size. destruct t as [tx rp rt op]. unfold basename. simpl.
  by destruct tx; [|simpl; lia].
Qed.

Lemma split_segments_elem_size command seg :
  seg ∈ split_segments command → tokens_size seg <= String.length command.
Proof.
  intros Hs. pose proof (split_segments_size command).
  pose proof (sum_of_elem tokens_size (split_segments command) seg Hs).
  unfold segments_size in *. lia.
Qed.

(** A script argument is shorter than the command that carries it. *)
Lemma script_smaller (program token : Token) args ts0 seg :
  program :: args `suffix_of` ts0 →
  one_of SHELL_COMMANDS (basename program) = true → token ∈ args →
  seg ∈ split_segments (text token) → tokens_size seg < tokens_size ts0.
Proof.
  intros Hsuf Hsh Hin Hseg%split_segments_elem_size.
  apply suffix_tokens_size in Hsuf. apply shell_name_size in Hsh.
  pose proof (sum_of_elem token_size args token Hin).
  unfold tokens_size in Hsuf at 1. rewrite sum_of_cons in Hsuf.
  unfold token_size in *. lia.
Qed.

Lemma assess_segment_total fuel ctx ts :
  tokens_size ts < fuel → is_Some (assess_segment fuel ctx ts).
Proof.
  revert ts. induction fuel as [|fuel IH]; intros ts Hlt; [lia|]. cbn [assess_segment].
  destruct (unwrap_total (length (strip_control ts)) None (strip_control ts))
    as (wb & ts' & -> & Hsuf); [lia|].
  assert (ts' `suffix_of` ts) as Hsuf' by (etrans; [done|]; apply strip_control_suffix).
  destruct ts' as [|program args]; [by eexists|].
  destruct (one_of SHELL_COMMANDS (basename program)) eqn:Hsh; [|by eexists].
  apply collect_total. intros token Htok. apply collect_total. intros seg Hseg.
  apply IH. apply list_elem_of_In, filter_In in Htok as [Htok%list_elem_of_In _].
  pose proof (script_smaller program token args ts seg Hsuf' Hsh Htok Hseg). lia.
Qed.

(** More fuel does not change a result. *)
Lemma assess_segment_mono ctx ts : ∀ fuel fuel' r,
  fuel <= fuel' → assess_segment fuel ctx ts = Some r → assess_segment fuel' ctx ts = Some r.
Proof.
  intros fuel. revert ts. induction fuel as [|fuel IH]; intros ts fuel' r Hle; [done|].
  destruct fuel' as [|fuel']; [lia|]. cbn [assess_segment].
  destruct (unwrap _ _ _) as [[wb [|program args]]|]; [done| |done].
  destruct (one_of SHELL_COMMANDS (basename program)); [|done].
  apply collect_mono. intros token ys _. apply collect_mono. intros seg zs _.
  apply IH. lia.
Qed.

Lemma assess_segments_total fuel ctx command :
  String.length command < fuel →
  is_Some (collect (assess_segment fuel ctx) (split_segments command)).
Proof.
  intros Hlt. apply collect_total. intros seg Hseg. apply assess_segment_total.
  apply split_segments_elem_size in Hseg. lia.
Qed.

(** All findings of a command, with any sufficient fuel. *)
Lemma assess_findings command ctx fuel :
  String.length command < fuel →
  ∃ fs, collect (assess_segment fuel ctx) (split_segments command) = Some fs
        ∧ assess command ctx
          = Some (match fs with [] => safe_assessment | _ => from_findings fs end).
Proof.
  intros Hlt. unfold assess, assess_with.
  destruct (assess_segments_total (S (String.length command)) ctx command) as [fs Hfs]; [lia|].
  exists fs. rewrite Hfs. split; [|done].
  eapply collect_mono; [|exact Hfs]. intros seg ys _. apply assess_segment_mono. lia.
Qed.

Lemma level_of_findings fs :
  level (match fs with [] => safe_assessment | _ => from_findings fs end)
  = max_level (map f_level fs).
Proof. by destruct fs. Qed.

Lemma findings_of_findings fs :
  findings (match fs with [] => safe_assessment | _ => from_findings fs end) = fs.
Proof. by destruct fs. Qed.
