(* ===== verification/RiskTheorems.v ===== *)
(** * [arterm-command-risk]: what the risk filter guarantees

    The filter is total, sequences of commands are judged by their worst part, wrappers and
    inline scripts are transparent, a protected path is denied whatever its spelling and
    whatever the justification.  The last section records the commands whose program the filter
    does not find. *)

From S2P Require Import Assess RiskModel.

(** The unwrapped command of a segment. *)
Definition unwrapped (tokens0 : list Token) : option (option string * list Token) :=
  let ts := strip_control tokens0 in unwrap (length ts) None ts.

(** [t] is what the destructive command or the redirection of [seg] would destroy. *)
Definition destroys (seg : list Token) (t : Token) : Prop :=
  ∃ wb program args,
    unwrapped seg = Some (wb, program :: args)
    ∧ one_of SHELL_COMMANDS (basename program) = false
    ∧ t ∈ segment_targets (is_triggered (basename program) (program :: args)) (program :: args).

(** A token as the head of a segment that no unwrapping loop would skip. *)
Definition plain_head (t : Token) : bool :=
  negb (is_operator t) && negb (contains_char "=" (text t)) && negb (is_flag t)
  && negb (is_number t) && negb (one_of SHELL_CONTROL_PREFIXES (text t)).

(** ** Auxiliary facts *)

Lemma assess_program_target seg program args ctx t f :
  t ∈ segment_targets (is_triggered (basename program) (program :: args)) (program :: args) →
  seg = program :: args →
  f ∈ target_finding (is_triggered (basename program) seg && existsb is_recursive_flag seg)
        ctx t →
  f ∈ assess_program seg program ctx.
Proof.
  intros Ht -> Hf. unfold assess_program.
  set (trig := is_triggered (basename program) (program :: args)) in *.
  assert (negb trig && bool_decide (redirect_targets (program :: args) = []) = false) as ->.
  { apply andb_false_iff. destruct trig; [by left|right].
    apply bool_decide_eq_false. intros Hr. unfold segment_targets in Ht.
    rewrite Hr in Ht. set_solver. }
  destruct (trig && bool_decide (segment_targets trig (program :: args) = [])) eqn:E.
  - simp_bool. rewrite H0 in Ht. set_solver.
  - apply elem_of_app. right. apply list_elem_of_In, in_flat_map.
    exists t. split; by apply list_elem_of_In.
Qed.

Lemma assess_segment_catastrophic fuel ctx seg t fs :
  destroys seg t →
  has_glob (raw_operand t) = false →
  is_catastrophic_target (expand (raw_operand t) ctx) ctx = true →
  assess_segment fuel ctx seg = Some fs →
  ∃ f, f ∈ fs ∧ f_level f = Catastrophic.
Proof.
  intros (wb & program & args & Hu & Hsh & Ht) Hg Hc Hs.
  destruct fuel as [|fuel]; [done|]. cbn [assess_segment] in Hs.
  unfold unwrapped in Hu. rewrite Hu in Hs. rewrite Hsh in Hs. injection Hs as <-.
  exists (mkFinding Catastrophic reason_protected (Some (expand (raw_operand t) ctx))).
  split; [|done]. eapply assess_program_target; [done|done|].
  unfold target_finding, classify_target. rewrite Hg, Hc. set_solver.
Qed.

Lemma unwrap_wrapped_by fuel wb wb' ts wb1 t ts1 :
  unwrap fuel wb ts = Some (wb1, t :: ts1) →
  ∃ wb2, unwrap fuel wb' ts = Some (wb2, t :: ts1).
Proof.
  revert wb wb' ts. induction fuel as [|fuel IH]; intros wb wb' ts; destruct ts as [|u ts];
    simpl; try done; destruct (one_of WRAPPER_COMMANDS (basename u)); try done.
  - intros [= -> -> ->]. eauto.
  - apply IH.
  - intros [= -> -> ->]. eauto.
Qed.

Lemma unwrap_wrapper_step fuel wb w ts :
  one_of WRAPPER_COMMANDS (basename w) = true →
  unwrap (S fuel) wb (w :: ts)
  = unwrap fuel (Some (basename w)) (skip_wrapper_args (basename w) ts).
Proof. intros Hw. cbn [unwrap]. by rewrite Hw. Qed.

Lemma strip_control_plain t ts : plain_head t = true → strip_control (t :: ts) = t :: ts.
Proof.
  unfold plain_head. intros H. simp_bool. destruct ts as [|u ts]; simpl; [done|].
  by rewrite H0.
Qed.

Lemma skip_wrapper_args_plain w t ts :
  plain_head t = true → skip_wrapper_args w (t :: ts) = t :: ts.
Proof.
  unfold plain_head. intros H. simp_bool. simpl. by rewrite H, H3, H2, H1.
Qed.

Lemma strip_control_no_prefix t ts :
  one_of SHELL_CONTROL_PREFIXES (text t) = false → strip_control (t :: ts) = t :: ts.
Proof. intros H. destruct ts; simpl; [done|]. by rewrite H. Qed.

Lemma wrapper_not_prefix w :
  one_of WRAPPER_COMMANDS (basename w) = true → one_of SHELL_CONTROL_PREFIXES (text w) = false.
Proof.
  intros Hw. destruct (one_of SHELL_CONTROL_PREFIXES (text w)) eqn:E; [|done]. exfalso.
  unfold one_of, SHELL_CONTROL_PREFIXES in E. rewrite existsb_elem in E.
  destruct E as (p & Hp & Heq%String.eqb_eq). unfold basename in Hw. rewrite Heq in Hw.
  rewrite !elem_of_cons, elem_of_nil in Hp.
  repeat (destruct Hp as [->|Hp]; [by vm_compute in Hw|]). done.
Qed.

(** ** The properties *)

(** [assess] is total: whatever the command, the fuel its length provides is enough for
    every nested script to be assessed. *)
Theorem assess_total (command : string) (ctx : RiskContext) :
  ∃ a, assess command ctx = Some a.
Proof.
  destruct (assess_findings command ctx (S (String.length command))) as (fs & _ & H); [lia|].
  by eexists.
Qed.

(** A second command cannot hide behind a first one: when the first command line is
    complete, the findings of [a; b], [a && b], [a || b] and of the two on separate lines
    are those of [a] followed by those of [b], and the verdict is the worse of the two. *)
Theorem assess_sequence (a b sep : string) (ctx : RiskContext) (ra rb : RiskAssessment) :
  self_contained a = true →
  sep ∈ SEQUENCE_SEPARATORS →
  assess a ctx = Some ra →
  assess b ctx = Some rb →
  ∃ r, assess (a +:+ sep +:+ b) ctx = Some r
       ∧ findings r = findings ra ++ findings rb
       ∧ level r = level_max (level ra) (level rb).
Proof.
  intros Ha Hsep Hra Hrb. set (fuel := S (String.length (a +:+ sep +:+ b))).
  assert (String.length a < fuel ∧ String.length b < fuel) as [Hla Hlb]
    by (unfold fuel; rewrite !str_length_app; lia).
  destruct (assess_findings a ctx fuel Hla) as (fa & Hfa & Ea).
  destruct (assess_findings b ctx fuel Hlb) as (fb & Hfb & Eb).
  destruct (assess_findings (a +:+ sep +:+ b) ctx fuel) as (fr & Hfr & Er);
    [unfold fuel; lia|].
  rewrite split_segments_sequence in Hfr by done.
  rewrite (collect_app _ _ _ fa fb) in Hfr by done. injection Hfr as <-.
  eexists. split; [exact Er|]. simplify_eq.
  rewrite !findings_of_findings, !level_of_findings. split; [done|].
  by rewrite map_app, max_level_app.
Qed.


(** Wrappers are transparent: a command whose head the wrapper does not take for one of
    its own arguments is assessed behind [sudo], [env], [timeout], ... exactly as it is
    assessed alone. *)
Theorem wrapper_transparent
  (fuel : nat) (ctx : RiskContext) (w t : Token) (ts : list Token)
  (wb : option string) (p : Token) (args : list Token) :
  one_of WRAPPER_COMMANDS (basename w) = true →
  plain_head t = true →
  unwrapped (t :: ts) = Some (wb, p :: args) →
  assess_segment fuel ctx (w :: t :: ts) = assess_segment fuel ctx (t :: ts).
Proof.
  intros Hw Ht Hu. destruct fuel as [|fuel]; [done|]. cbn [assess_segment].
  unfold unwrapped in Hu. rewrite (strip_control_plain t ts) in Hu |- * by done. rewrite Hu.
  rewrite strip_control_no_prefix by (by apply wrapper_not_prefix).
  change (length (w :: t :: ts)) with (S (length (t :: ts))).
  rewrite unwrap_wrapper_step, skip_wrapper_args_plain by done.
  destruct (unwrap_wrapped_by _ _ (Some (basename w)) _ _ _ _ Hu) as [wb2 H2].
  by rewrite H2.
Qed.

(** An inline script is assessed as a command of its own: [sh -c script] has the
    findings of [script], for each of the shells. *)
Theorem inline_script_assessed
  (ctx : RiskContext) (sh flag script : string) (fuel : nat) (fs : list RiskFinding) :
  one_of SHELL_COMMANDS sh = true →
  is_flag (word flag) = true →
  is_flag (word script) = false →
  String.length script < fuel →
  assess_segment (S fuel) ctx [word sh; word flag; word script] = Some fs →
  ∃ a, assess script ctx = Some a ∧ findings a = fs.
Proof.
  intros Hsh Hfl Hsc Hlt. cbn [assess_segment].
  assert (basename (word sh) = sh ∧ one_of WRAPPER_COMMANDS sh = false
          ∧ one_of SHELL_CONTROL_PREFIXES sh = false) as (Hb & Hw & Hc).
  { unfold one_of in Hsh at 1. unfold SHELL_COMMANDS in Hsh.
    rewrite existsb_elem in Hsh. destruct Hsh as (p & Hp & ->%String.eqb_eq).
    rewrite !elem_of_cons, elem_of_nil in Hp.
    repeat (destruct Hp as [->|Hp]; [by vm_compute|]). done. }
  rewrite strip_control_no_prefix by done. cbn [length unwrap].
  rewrite Hb, Hw. cbv iota beta. rewrite Hb, Hsh.
  cbn [List.filter]. rewrite Hfl, Hsc. cbn [negb collect].
  destruct (assess_findings script ctx fuel Hlt) as (fs' & Hfs' & E).
  change (text (word script)) with script. rewrite Hfs'. rewrite app_nil_r. intros [= <-].
  eexists. split; [done|]. apply findings_of_findings.
Qed.

(** ** Evaluation contexts of the witnesses *)

Definition demo_ctx : RiskContext := mkContext (Some "/home/u/proj") (Some "/home/u").

(** C10. the protected-path check implements its specification on component lists: a path is
    catastrophic exactly when what it resolves to is a protected system path, lies under a
    recursively protected one, is the home directory, lies under a credential store of it,
    or is one of its protected subdirectories. *)
Theorem catastrophic_refines_spec (path : string) (ctx : RiskContext) :
  is_catastrophic_target path ctx = true ↔ catastrophic_spec path ctx.
Proof. apply is_catastrophic_target_spec. Qed.

(** Normalization computes the walk of a path and is idempotent, so a detour into a
    directory and back ([p/w/../rest] for [p/rest]), wherever it stands in a path, never
    changes the verdict on it. *)
Theorem detour_invisible (path w rest : string) (ctx : RiskContext) :
  path ≠ "" → valid_name w →
  let long := path +:+ "/" +:+ w +:+ "/../" +:+ rest in
  let short := path +:+ "/" +:+ rest in
  components (normalize long) = resolve short
  ∧ normalize (normalize long) = normalize short
  ∧ is_catastrophic_target long ctx = is_catastrophic_target short ctx.
Proof.
  intros Hp Hw. simpl. pose proof (resolve_detour path w rest Hp Hw) as Hr.
  split_and!.
  - by rewrite components_normalize.
  - rewrite normalize_idemp. by apply normalize_resolve.
  - by apply catastrophic_resolve.
Qed.

(** A glob of everything in a protected directory counts as its destruction: for an
    absolute protected directory [d], the target [d/*] is classified catastrophic, although
    no path it stands for is itself protected. *)
Theorem glob_of_protected_catastrophic (d : string) (recursive : bool) (ctx : RiskContext) :
  is_absolute d = true →
  is_catastrophic_target d ctx = true →
  classify_target (normalize (d +:+ "/*")) (d +:+ "/*") recursive ctx
  = Some (mkFinding Catastrophic reason_glob_protected (Some (d +:+ "/*"))).
Proof.
  intros Hd Hc. destruct (normalize_absolute_child d "*" Hd) as (names & Hv & Hn & Hn').
  { by split_and!. }
  destruct (parent_render true names "*" Hv) as [Hpar Hfile]; [by split_and!|].
  unfold classify_target.
  assert (has_glob (d +:+ "/*") = true) as ->.
  { unfold has_glob. rewrite contains_char_app. by rewrite orb_true_r. }
  unfold classify_glob. change ("/" +:+ "*") with "/*" in Hn'.
  rewrite Hn', Hpar, Hfile.
  assert (is_catastrophic_target (render true names) ctx = true) as ->; [|done].
  etrans; [|exact Hc]. apply catastrophic_resolve. by rewrite <- Hn, resolve_normalize.
Qed.

(** ** Affirmations *)

Definition lower_affirmation (w' w : string) : Prop :=
  w ∈ EMPTY_AFFIRMATIONS ∧ to_ascii_lowercase w' = w.

Definition ascii_char (c : ascii) : bool := (byte c <? 128)%N.

Lemma to_lowercase_ascii s :
  string_forallb ascii_char s = true → to_lowercase s = to_ascii_lowercase s.
Proof.
  induction s as [|a s IH]; [done|]. intros [Ha Hs]%andb_true_iff.
  assert ((byte a =? 226)%N = false) as He
    by (apply N.eqb_neq; apply N.ltb_lt in Ha; lia).
  change (to_ascii_lowercase (String a s))
    with (String (to_ascii_lowercase_char a) (to_ascii_lowercase s)).
  rewrite <- IH by done. destruct s as [|b [|c s]]; [done|done|].
  remember (String b (String c s)) as r eqn:Hr. cbn [to_lowercase].
  rewrite Hr at 1. by rewrite He, Hr.
Qed.

Lemma lower_char_ascii c : ascii_char (to_ascii_lowercase_char c) = true → ascii_char c = true.
Proof. destruct c as [[] [] [] [] [] [] [] []]; vm_compute; done. Qed.

Lemma lower_char_solid c : solid (to_ascii_lowercase_char c) = true → solid c = true.
Proof. destruct c as [[] [] [] [] [] [] [] []]; vm_compute; done. Qed.

Lemma lower_ascii s : string_forallb ascii_char (to_ascii_lowercase s) = true →
  string_forallb ascii_char s = true.
Proof.
  induction s as [|c s IH]; [done|]. intros [Hc Hs]%andb_true_iff. simpl.
  by rewrite (lower_char_ascii c Hc), IH.
Qed.

Lemma punctuation_chars p :
  string_forallb is_final_punctuation p = true →
  string_forallb ascii_char p = true ∧ string_forallb solid p = true
  ∧ to_ascii_lowercase p = p.
Proof.
  induction p as [|c p IH]; [done|]. intros [Hc Hp]%andb_true_iff.
  destruct (IH Hp) as (H1 & H2 & H3). simpl. unfold to_ascii_lowercase in *. simpl.
  rewrite H1, H2, H3.
  unfold is_final_punctuation in Hc.
  apply orb_true_iff in Hc as [[Hc|Hc]%orb_true_iff|Hc]; by apply Ascii.eqb_eq in Hc as ->.
Qed.

(** The last character of a non-empty text. *)
Lemma split_last s : s ≠ "" → ∃ t c, s = t +:+ str1 c.
Proof.
  induction s as [|c s IH]; [done|]. intros _. destruct s as [|d s].
  - by exists "", c.
  - destruct IH as (t & e & ->); [done|]. by exists (String c t), e.
Qed.

Lemma affirmation_ends w :
  w ∈ EMPTY_AFFIRMATIONS →
  ∃ c1 t1 c2 t2, w = String c1 t1 ∧ w = t2 +:+ str1 c2 ∧ solid c1 = true ∧ solid c2 = true
    ∧ is_final_punctuation c2 = false ∧ string_forallb ascii_char w = true ∧ trim w = w.
Proof.
  unfold EMPTY_AFFIRMATIONS. rewrite !elem_of_cons, elem_of_nil. intros Hw.
  repeat (destruct Hw as [->|Hw];
    [match goal with |- context [?w = String _ _] =>
       let r := eval vm_compute in (String.rev w) in
       match r with String ?c ?t =>
         match w with String ?d ?u =>
           exists d, u, c, (String.rev t); by vm_compute
         end
       end
     end|]).
  done.
Qed.

(** Repeating an affirmation unlocks nothing: an affirmation in any letter case, with
    any amount of final punctuation and of white space around it, leaves a command that
    needs confirmation refused with the reflection prompt. *)
Theorem padded_affirmation_reflects
  (a : RiskAssessment) (ws1 w' p ws2 w : string) :
  level a = Confirm →
  lower_affirmation w' w →
  string_forallb is_final_punctuation p = true →
  string_forallb ws_ascii ws1 = true →
  string_forallb ws_ascii ws2 = true →
  gate a (mkJustification (Some (ws1 +:+ (w' +:+ p) +:+ ws2)))
  = Reflect (reflection_prompt a).
Proof.
  intros Hl [Hw Hlow] Hp Hws1 Hws2. unfold gate. rewrite Hl.
  destruct (affirmation_ends w Hw) as (c1 & t1 & c2 & t2 & H1 & H2 & Hs1 & Hs2 & Hnp & Hasc & Htr).
  destruct (punctuation_chars p Hp) as (Hpa & Hps & Hpl).
  assert (string_forallb ascii_char w' = true) as Hasc' by (apply lower_ascii; by rewrite Hlow).
  assert (w' ≠ "") as Hne by (intros ->; subst w; done).
  assert (trim (ws1 +:+ (w' +:+ p) +:+ ws2) = w' +:+ p) as Htrim.
  { destruct w' as [|d1 u1]; [done|].
    assert (solid d1 = true) as Hd1.
    { apply lower_char_solid. rewrite <- Hlow in H1. cbn in H1. by injection H1 as ->. }
    destruct (split_last (String d1 u1 +:+ p)) as (t & c & Ht); [done|].
    assert (solid c = true) as Hc.
    { destruct (decide (p = "")) as [->|Hpne].
      - rewrite str_app_nil_r in Ht. apply lower_char_solid.
        rewrite Ht in Hlow. unfold to_ascii_lowercase in Hlow. rewrite string_map_app in Hlow.
        rewrite H2 in Hlow. apply (f_equal String.rev) in Hlow. rewrite !rev_app in Hlow.
        cbn in Hlow. by injection Hlow as ->.
      - destruct (split_last p Hpne) as (pt & pc & ->).
        rewrite str_app_assoc in Ht. apply (f_equal String.rev) in Ht.
        rewrite (rev_app _ (str1 pc)), (rev_app t) in Ht. cbn in Ht. injection Ht as -> _.
        rewrite string_forallb_app in Hps. apply andb_true_iff in Hps as [_ Hps].
        simpl in Hps. by rewrite andb_true_r in Hps. }
    by eapply trim_padded. }
  unfold is_substantive, justification_text. rewrite Htrim.
  destruct (Nat.ltb _ _); [done|].
  assert (stripped (w' +:+ p) = w) as ->.
  { unfold stripped. rewrite to_lowercase_ascii by (by rewrite string_forallb_app, Hasc', Hpa).
    unfold to_ascii_lowercase in *. rewrite string_map_app, Hlow, Hpl.
    rewrite (trim_end_matches_tail _ w p c2 t2) by done. done. }
  assert (existsb (String.eqb w) EMPTY_AFFIRMATIONS = true) as ->; [|done].
  apply existsb_elem. exists w. split; [done|]. apply String.eqb_refl.
Qed.

(** ** Witnesses *)

Definition demo_script : string := "cd src && sudo rm -rf ~/x/../..".

Lemma assess_sequence_witness :
  ∃ r, assess ("echo 'a b' >log" +:+ " && " +:+ "sudo rm -rf ~") demo_ctx = Some r
       ∧ level r = Catastrophic.
Proof.
  destruct (assess_sequence "echo 'a b' >log" "sudo rm -rf ~" " && " demo_ctx
              (default safe_assessment (assess "echo 'a b' >log" demo_ctx))
              (default safe_assessment (assess "sudo rm -rf ~" demo_ctx)))
    as (r & Hr & _ & Hl); [by vm_compute|by apply (bool_decide_unpack _); vm_compute
                          |by vm_compute|by vm_compute|].
  exists r. split; [exact Hr|]. rewrite Hl. by vm_compute.
Defined.


Lemma wrapper_transparent_witness :
  assess_segment 20 demo_ctx [word "sudo"; word "rm"; word "-r"; word "build"]
  = assess_segment 20 demo_ctx [word "rm"; word "-r"; word "build"].
Proof.
  apply (wrapper_transparent 20 demo_ctx (word "sudo") (word "rm") [word "-r"; word "build"]
           None (word "rm") [word "-r"; word "build"]); by vm_compute.
Defined.

Lemma inline_script_assessed_witness :
  ∃ a, assess "cd / && rm -rf etc" demo_ctx = Some a ∧ findings a ≠ [].
Proof.
  destruct (inline_script_assessed demo_ctx "bash" "-c" "cd / && rm -rf etc" 30
              (default [] (assess_segment 31 demo_ctx
                 [word "bash"; word "-c"; word "cd / && rm -rf etc"])))
    as (a & Ha & Hf); [by vm_compute|by vm_compute|by vm_compute|simpl; lia|by vm_compute|].
  exists a. split; [exact Ha|]. rewrite Hf. by vm_compute.
Defined.

Lemma detour_invisible_witness :
  is_catastrophic_target "/home/u/work/../.ssh/id" demo_ctx
  = is_catastrophic_target "/home/u/.ssh/id" demo_ctx.
Proof.
  apply (detour_invisible "/home/u" "work" ".ssh/id" demo_ctx); [done|].
  split_and!; [by vm_compute|by vm_compute|done].
Defined.

Lemma glob_of_protected_catastrophic_witness :
  classify_target (normalize "/home/u/*") "/home/u/*" true demo_ctx
  = Some (mkFinding Catastrophic reason_glob_protected (Some "/home/u/*")).
Proof.
  apply (glob_of_protected_catastrophic "/home/u" true demo_ctx); by vm_compute.
Defined.

Lemma padded_affirmation_reflects_witness :
  let a := mkAssessment Confirm [finding_hidden "sudo"] in
  gate a (mkJustification (Some (" " +:+ ("Go Ahead" +:+ "!!!!!!!!!!!!!!!!!!!!!!!!!") +:+ " ")))
  = Reflect (reflection_prompt a).
Proof.
  intros a. apply (padded_affirmation_reflects a " " "Go Ahead" "!!!!!!!!!!!!!!!!!!!!!!!!!" " "
                     "go ahead"); [done| |by vm_compute..].
  split; [|by vm_compute]. apply (bool_decide_unpack _). by vm_compute.
Defined.

(** ** Commands the filter does not see through

    The segment separators do not contain the background operator, so everything after a
    single [&] is read as operands of the first command. *)
Theorem background_operator_hides_command :
  assess "sleep 1 & rm -rf /" demo_ctx = Some safe_assessment
  ∧ assess "sleep 1 && rm -rf /" demo_ctx ≠ Some safe_assessment.
Proof. by vm_compute. Qed.

(** An assignment in front of a command, a brace group and a negation are taken for the
    program itself. *)
Theorem command_prefix_hides_command :
  assess "FOO=1 rm -rf /" demo_ctx = Some safe_assessment
  ∧ assess "{ rm -rf /; }" demo_ctx = Some safe_assessment
  ∧ assess "! rm -rf /" demo_ctx = Some safe_assessment.
Proof. by vm_compute. Qed.

(** A duration with a unit is not a number for the wrapper loop, so it is taken for the
    program [timeout] runs. *)
Theorem timeout_unit_hides_command :
  assess "timeout 5s rm -rf /" demo_ctx = Some safe_assessment
  ∧ assess "timeout 5 rm -rf /" demo_ctx ≠ Some safe_assessment.
Proof. by vm_compute. Qed.
