(* ===== verification/Kahn.v ===== *)
(** * Kahn's algorithm, as both plan crates run it

    [TaskGraph::cycle_nodes] (crates/arterm-plan/src/dag/mod.rs) and [cycle_item_ids]
    (crates/arterm-plan/src/lib.rs) repeat the same worklist loop: pop an id, skip it when
    it was visited, decrement the in-degree of everything that depends on it and push what
    drops to zero.  The loop is defined once, over the list of ids an id releases
    ([targets], with multiplicity), and proved correct for every start queue that holds the
    ids of in-degree zero once, in any order. *)

From S2P Require Export RustStr.

(** The body of the inner loop, for one dependent. *)
Definition relax_one (st : gmap string nat * list string) (child : string)
  : gmap string nat * list string :=
  match st.1 !! child with
  | Some deg =>
      let deg' := deg - 1 in
      (<[child := deg']> st.1, if Nat.eqb deg' 0 then child :: st.2 else st.2)
  | None => st
  end.

(** The worklist loop; the head of [queue] is the end of the source's [Vec]. *)
Fixpoint kahn_loop (targets : string → list string) (fuel : nat) (queue : list string)
  (indegree : gmap string nat) (visited : gset string)
  : option (gmap string nat * gset string) :=
  match queue with
  | [] => Some (indegree, visited)
  | id :: queue' =>
      match fuel with
      | 0 => None
      | S fuel' =>
          if decide (id ∈ visited) then kahn_loop targets fuel' queue' indegree visited
          else
            let '(indegree', queue'') := foldl relax_one (indegree, queue') (targets id) in
            kahn_loop targets fuel' queue'' indegree' ({[id]} ∪ visited)
      end
  end.

(** The loop only updates in-degrees that are there. *)
Lemma relax_one_dom st c : dom (relax_one st c).1 = dom st.1.
Proof.
  unfold relax_one. destruct (st.1 !! c) eqn:E; [|done]. cbn [fst].
  apply leibniz_equiv, dom_insert_lookup. by eexists.
Qed.

Lemma kahn_loop_dom targets fuel queue indegree visited indegree' visited' :
  kahn_loop targets fuel queue indegree visited = Some (indegree', visited') →
  dom indegree' = dom indegree.
Proof.
  revert queue indegree visited.
  induction fuel as [|fuel IH]; intros [|id queue] indegree visited; cbn [kahn_loop];
    try done; try (by intros [= -> ->]).
  destruct (decide (id ∈ visited)); [apply IH|].
  assert (∀ l st, dom (foldl relax_one st l).1 = dom st.1) as Hf.
  { induction l as [|x l IHl]; intros st; [done|]. cbn [foldl]. by rewrite IHl, relax_one_dom. }
  specialize (Hf (targets id) (indegree, queue)).
  destruct (foldl relax_one (indegree, queue) (targets id)) as [i q].
  intros H%IH. by rewrite H.
Qed.

Lemma Acc_iff {A} (R R' : A → A → Prop) x : (∀ a b, R a b ↔ R' a b) → Acc R x → Acc R' x.
Proof. intros He Hacc. induction Hacc as [x _ IH]. constructor. intros y Hy%He. by apply IH. Qed.

(** The number of occurrences of an id. *)
Definition occ (c : string) (l : list string) : nat :=
  sum_of (λ x, if decide (x = c) then 1 else 0) l.

Lemma occ_cons c x l : occ c (x :: l) = (if decide (x = c) then 1 else 0) + occ c l.
Proof. done. Qed.

Lemma occ_zero c l : occ c l = 0 ↔ c ∉ l.
Proof.
  unfold occ. rewrite sum_of_zero. split.
  - intros H Hc. specialize (H c Hc). by rewrite decide_True in H.
  - intros H x Hx. rewrite decide_False; [done|]. by intros ->.
Qed.

Section Kahn.
Context (ids : list string) (targets : string → list string).
Hypothesis ids_nodup : NoDup ids.
Hypothesis targets_ids : ∀ d c, d ∈ ids → c ∈ targets d → c ∈ ids.

(** [edge d c]: [c] waits for [d]. *)
Definition edge (d c : string) : Prop := d ∈ ids ∧ c ∈ targets d.

Definition unvisited (visited : gset string) : list string :=
  filter (λ d, d ∉ visited) ids.

(** The in-degree of [c] that the unvisited ids still account for. *)
Definition remaining (visited : gset string) (c : string) : nat :=
  sum_of (λ d, occ c (targets d)) (unvisited visited).

Lemma unvisited_visit visited id :
  id ∈ ids → id ∉ visited →
  unvisited visited ≡ₚ id :: unvisited ({[id]} ∪ visited).
Proof using ids_nodup.
  clear targets_ids targets. unfold unvisited. intros Hin Hv. induction ids as [|x l IH]; [set_solver|].
  apply NoDup_cons in ids_nodup as [Hx Hl]. rewrite !filter_cons.
  destruct (decide (x = id)) as [->|Hne].
  - rewrite decide_True by done. rewrite decide_False by set_solver.
    constructor. apply reflexive_eq, filter_ext_elem.
    intros d Hd. assert (d ≠ id) by set_solver. set_solver.
  - assert (id ∈ l) as Hin' by set_solver. specialize (IH Hl Hin').
    destruct (decide (x ∉ visited)).
    + rewrite (decide_True (P := x ∉ {[id]} ∪ visited)) by set_solver.
      rewrite IH. constructor.
    + rewrite (decide_False (P := x ∉ {[id]} ∪ visited)) by set_solver. done.
Qed.

Lemma remaining_visit visited id c :
  id ∈ ids → id ∉ visited →
  remaining visited c = occ c (targets id) + remaining ({[id]} ∪ visited) c.
Proof using ids_nodup.
  intros Hin Hv. unfold remaining.
  rewrite (sum_of_perm _ _ _ (unvisited_visit visited id Hin Hv)). by rewrite sum_of_cons.
Qed.

(** The loop invariant, with [rs] the dependents of the last id still to be relaxed. *)
Record loop_inv (rs queue : list string) (indegree : gmap string nat)
  (visited : gset string) : Prop := {
  inv_indegree : ∀ c, c ∈ ids → indegree !! c = Some (remaining visited c + occ c rs);
  inv_nodup : NoDup queue;
  inv_queue : ∀ c, c ∈ queue ↔ c ∈ ids ∧ c ∉ visited ∧ remaining visited c + occ c rs = 0;
  inv_visited : ∀ v, v ∈ visited → v ∈ ids ∧ remaining visited v + occ v rs = 0 ∧ Acc edge v;
}.

Lemma relax_one_inv r rs queue indegree visited :
  r ∈ ids →
  loop_inv (r :: rs) queue indegree visited →
  loop_inv rs (relax_one (indegree, queue) r).2 (relax_one (indegree, queue) r).1 visited.
Proof.
  intros Hr [Hi Hn Hq Hv]. unfold relax_one. cbn [fst snd]. rewrite (Hi r Hr).
  rewrite occ_cons, decide_True by done.
  replace (remaining visited r + (1 + occ r rs) - 1)
    with (remaining visited r + occ r rs) by lia.
  assert (r ∉ queue) as Hrq.
  { rewrite Hq, occ_cons, decide_True by done. lia. }
  assert (r ∉ visited) as Hrv.
  { intros (_ & H0 & _)%Hv. rewrite occ_cons, decide_True in H0 by done. lia. }
  split; cbn [fst snd].
  - intros c Hc. destruct (decide (r = c)) as [->|Hne].
    + by rewrite lookup_insert_eq.
    + rewrite lookup_insert_ne, Hi by done. by rewrite occ_cons, decide_False.
  - destruct (Nat.eqb_spec (remaining visited r + occ r rs) 0); [by constructor|done].
  - intros c. assert (c ∈ queue ↔ c ∈ ids ∧ c ∉ visited ∧ r ≠ c
                      ∧ remaining visited c + occ c rs = 0) as Hq'.
    { rewrite Hq, occ_cons. destruct (decide (r = c)); [|naive_solver].
      split; [lia|naive_solver]. }
    destruct (Nat.eqb_spec (remaining visited r + occ r rs) 0) as [He|He].
    + rewrite elem_of_cons, Hq'. destruct (decide (r = c)) as [->|]; naive_solver.
    + rewrite Hq'. destruct (decide (r = c)) as [->|]; naive_solver.
  - intros v Hin. destruct (Hv v Hin) as (? & H0 & ?). split_and!; [done| |done].
    rewrite occ_cons in H0. lia.
Qed.

Lemma relax_all_inv rs queue indegree visited :
  (∀ r, r ∈ rs → r ∈ ids) →
  loop_inv rs queue indegree visited →
  loop_inv [] (foldl relax_one (indegree, queue) rs).2
    (foldl relax_one (indegree, queue) rs).1 visited.
Proof.
  revert queue indegree. induction rs as [|r rs IH]; intros queue indegree Hrs Hinv; [done|].
  cbn [foldl]. destruct (relax_one (indegree, queue) r) as [ind' q'] eqn:E.
  pose proof (relax_one_inv r rs queue indegree visited) as H. rewrite E in H.
  apply IH; [set_solver|]. apply H; [set_solver|done].
Qed.

(** Visiting the next id keeps the invariant. *)
Lemma visit_inv id queue indegree visited :
  loop_inv [] (id :: queue) indegree visited →
  id ∉ visited ∧ id ∈ ids ∧ loop_inv (targets id) queue indegree ({[id]} ∪ visited).
Proof using ids_nodup targets_ids.
  intros [Hi Hn Hq Hv]. apply NoDup_cons in Hn as [Hnq Hn].
  destruct (proj1 (Hq id)) as (Hid & Hnv & H0); [set_solver|].
  split_and!; [done..|].
  assert (∀ c, remaining ({[id]} ∪ visited) c + occ c (targets id) = remaining visited c + occ c [])
    as Hrem.
  { intros c. rewrite (remaining_visit visited id c) by done. unfold occ at 3. simpl. lia. }
  assert (Acc edge id) as Hacc.
  { constructor. intros d [Hd Hdt]. destruct (decide (d ∈ visited)) as [Hdv|Hdv].
    - by apply Hv.
    - exfalso. assert (remaining visited id = 0) as Hr0 by lia.
      unfold remaining in Hr0. rewrite sum_of_zero in Hr0.
      specialize (Hr0 d). rewrite occ_zero in Hr0. apply Hr0; [|done].
      apply list_elem_of_filter. done. }
  split.
  - intros c Hc. rewrite Hi by done. by rewrite Hrem.
  - done.
  - intros c. rewrite Hrem. rewrite not_elem_of_union, not_elem_of_singleton.
    split.
    + intros Hcq. destruct (proj1 (Hq c)) as (? & ? & ?); [set_solver|].
      split_and!; [done| |done|done]. by intros ->.
    + intros (? & [? ?] & ?). assert (c ∈ id :: queue) as Hc by (by apply Hq). set_solver.
  - intros v. rewrite Hrem, elem_of_union, elem_of_singleton. intros [->|Hin]; [done|].
    by apply Hv.
Qed.

Lemma kahn_loop_inv fuel queue indegree visited :
  length (unvisited visited) <= fuel →
  loop_inv [] queue indegree visited →
  ∃ indegree' visited',
    kahn_loop targets fuel queue indegree visited = Some (indegree', visited')
    ∧ loop_inv [] [] indegree' visited'.
Proof using ids_nodup targets_ids.
  revert queue indegree visited.
  induction fuel as [|fuel IH]; intros queue indegree visited Hf Hinv;
    (destruct queue as [|id queue]; [by eauto|]);
    destruct (visit_inv _ _ _ _ Hinv) as (Hv & Hid & Hinv');
    pose proof (Permutation_length (unvisited_visit visited id Hid Hv)) as Hlen;
    simpl in Hlen; [lia|].
  cbn [kahn_loop]. rewrite decide_False by done.
  apply relax_all_inv in Hinv'; [|by eauto].
  destruct (foldl relax_one (indegree, queue) (targets id)) as [ind' q'].
  apply IH; [lia|done].
Qed.

(** At the end, exactly the ids without an infinite dependency chain were visited. *)
Lemma loop_inv_end indegree visited :
  loop_inv [] [] indegree visited →
  ∀ c, c ∈ ids → (c ∈ visited ↔ Acc edge c)
       ∧ (indegree !! c = Some 0 ↔ c ∈ visited) ∧ is_Some (indegree !! c).
Proof.
  intros [Hi _ Hq Hv] c Hc.
  assert (∀ c, c ∈ ids → remaining visited c = 0 → c ∈ visited) as Hzero.
  { intros c' Hc' H0. destruct (decide (c' ∈ visited)); [done|exfalso].
    assert (c' ∈ []) as Hin; [|set_solver]. apply Hq. split_and!; [done..|].
    rewrite H0. done. }
  split_and!.
  - split; [intros Hcv; by destruct (Hv c Hcv) as (_ & _ & Ha)|]. intros Hacc. revert Hc.
    induction Hacc as [c _ IH]; intros Hc.
    destruct (decide (remaining visited c = 0)) as [H0|Hne]; [by apply Hzero|exfalso].
    apply Hne. unfold remaining. rewrite sum_of_zero. intros d Hd.
    apply list_elem_of_filter in Hd as [Hdv Hd]. rewrite occ_zero. intros Hcd.
    apply Hdv, IH; by try split.
  - rewrite Hi by done. change (occ c []) with 0. rewrite Nat.add_0_r. split.
    + intros [= H0]. by apply Hzero.
    + intros (_ & H0 & _)%Hv. f_equal. revert H0. change (occ c []) with 0. lia.
  - rewrite Hi by done. by eexists.
Qed.

(** The loop with enough fuel, from the in-degrees and the zero ids in any order. *)
Lemma kahn_correct fuel queue indegree :
  length ids <= fuel →
  (∀ c, c ∈ ids → indegree !! c = Some (sum_of (λ d, occ c (targets d)) ids)) →
  NoDup queue →
  (∀ c, c ∈ queue ↔ c ∈ ids ∧ indegree !! c = Some 0) →
  ∃ indegree' visited',
    kahn_loop targets fuel queue indegree ∅ = Some (indegree', visited')
    ∧ visited' ⊆ list_to_set ids
    ∧ ∀ c, c ∈ ids → (c ∈ visited' ↔ Acc edge c)
                     ∧ (indegree' !! c = Some 0 ↔ c ∈ visited')
                     ∧ is_Some (indegree' !! c).
Proof using ids_nodup targets_ids.
  intros Hf Hi Hn Hq.
  assert (unvisited ∅ = ids) as Hun.
  { unfold unvisited. apply filter_all_elem. set_solver. }
  destruct (kahn_loop_inv fuel queue indegree ∅) as (i' & v' & Hk & Hinv).
  - by rewrite Hun.
  - split.
    + intros c Hc. rewrite Hi by done. unfold remaining. rewrite Hun.
      by change (occ c []) with 0; rewrite Nat.add_0_r.
    + done.
    + intros c. rewrite Hq. unfold remaining. rewrite Hun.
      change (occ c []) with 0. rewrite Nat.add_0_r.
      split; intros (Hc & H); (split; [done|]); rewrite Hi in * by done.
      * injection H as H. set_solver.
      * f_equal. by destruct H.
    + set_solver.
  - exists i', v'. split_and!; [done| |by apply loop_inv_end].
    intros v Hvv. apply elem_of_list_to_set. by destruct (inv_visited _ _ _ _ Hinv v Hvv).
Qed.
End Kahn.
