(* ===== verification/DagModel.v ===== *)
(** * [arterm-plan]: the task graph (crates/arterm-plan/src/dag/mod.rs)

    Node kinds, statuses, handoff artifacts, nodes, specs, errors and the graph with its
    lookups and its cycle detector.  Record fields carry a one-letter prefix ([n_] for
    [TaskNode], [s_] for [NodeSpec], [h_] for [HandoffArtifact]); everything else has the
    source's name.  [TaskGraph::nodes] is a [Vec], so ids may repeat in principle: the
    lookups find the first match and the cycle detector is proved correct for every
    graph. *)

From S2P Require Export Floats Kahn.

Inductive Mode := Deep | Light.
Inductive NodeOrigin := OriginSeed | OriginExpand | OriginGap | OriginGate.
Inductive NodeKind := Explore | Implement | Verify | Fix | Synthesize | Critique.
Inductive NodeStatus := Queued | Running | Done | Failed.

#[export] Instance Mode_eq_dec : EqDecision Mode. Proof. solve_decision. Defined.
#[export] Instance NodeOrigin_eq_dec : EqDecision NodeOrigin. Proof. solve_decision. Defined.
#[export] Instance NodeKind_eq_dec : EqDecision NodeKind. Proof. solve_decision. Defined.
#[export] Instance NodeStatus_eq_dec : EqDecision NodeStatus. Proof. solve_decision. Defined.

Definition requires_gates (m : Mode) : bool :=
  match m with Deep => true | Light => false end.

Definition is_gate_kind (k : NodeKind) : bool :=
  match k with Critique | Verify => true | _ => false end.

Definition gate_kind (k : NodeKind) : NodeKind :=
  match k with Implement | Fix => Verify | _ => Critique end.

(** ** Handoff artifacts *)

Record HandoffArtifact := {
  h_findings : string;
  h_evidence : list string;
  h_edge_cases_considered : list string;
  h_validation : option string;
  h_open_questions : list string;
  h_confidence : option string;
  h_what_i_did_not_check : list string;
}.

#[export] Instance HandoffArtifact_eq_dec : EqDecision HandoffArtifact.
Proof. solve_decision. Defined.

(** [HandoffArtifact::brief] *)
Definition brief (findings : string) : HandoffArtifact :=
  {| h_findings := findings; h_evidence := []; h_edge_cases_considered := [];
     h_validation := None; h_open_questions := []; h_confidence := None;
     h_what_i_did_not_check := [] |}.

(** [HandoffArtifact::confidence_level] *)
Definition confidence_level (a : HandoffArtifact) : option ConfidenceLevel :=
  let?? raw := h_confidence a in parse_confidence raw.

Definition join (sep : string) (l : list string) : string := String.concat sep l.

Definition labelled (label : string) (body : string) : string := label +:+ body +:+ nl.

(** [HandoffArtifact::render_section] *)
Definition render_section (a : HandoffArtifact) (id kind : string) : string :=
  ("## " +:+ id +:+ " (" +:+ kind +:+ ")" +:+ nl)
  +:+ (if is_empty (trim (h_findings a)) then "" else h_findings a +:+ nl)
  +:+ (if is_nil (h_evidence a) then "" else labelled "Evidence: " (join "; " (h_evidence a)))
  +:+ (if is_nil (h_edge_cases_considered a) then ""
       else labelled "Edge cases considered: " (join "; " (h_edge_cases_considered a)))
  +:+ (match h_validation a with Some v => labelled "Validation: " v | None => "" end)
  +:+ (if is_nil (h_open_questions a) then ""
       else labelled "Open questions: " (join "; " (h_open_questions a)))
  +:+ (match h_confidence a with Some c => labelled "Confidence: " c | None => "" end)
  +:+ (if is_nil (h_what_i_did_not_check a) then ""
       else labelled "What was not checked: " (join "; " (h_what_i_did_not_check a))).

(** ** Nodes and specs *)

Record TaskNode := {
  n_id : string;
  n_content : string;
  n_kind : NodeKind;
  n_status : NodeStatus;
  n_owner : option string;
  n_parent : option string;
  n_depends_on : list string;
  n_expanded : bool;
  n_is_gate : bool;
  n_planner : option string;
  n_priority : N;
  n_output : option HandoffArtifact;
  n_origin : option NodeOrigin;
}.

Record NodeSpec := {
  s_id : option string;
  s_content : string;
  s_kind : NodeKind;
  s_depends_on : list string;
  s_priority : N;
}.

#[export] Instance TaskNode_eq_dec : EqDecision TaskNode. Proof. solve_decision. Defined.
#[export] Instance NodeSpec_eq_dec : EqDecision NodeSpec. Proof. solve_decision. Defined.

(** [NodeSpec::new] *)
Definition new_spec (id content : string) (kind : NodeKind) : NodeSpec :=
  {| s_id := Some id; s_content := content; s_kind := kind; s_depends_on := [];
     s_priority := 0 |}.

(** The builder method [NodeSpec::depends_on] *)
Definition with_deps (s : NodeSpec) (deps : list string) : NodeSpec :=
  {| s_id := s_id s; s_content := s_content s; s_kind := s_kind s; s_depends_on := deps;
     s_priority := s_priority s |}.

(** The builder method [NodeSpec::priority] *)
Definition with_priority (s : NodeSpec) (p : N) : NodeSpec :=
  {| s_id := s_id s; s_content := s_content s; s_kind := s_kind s;
     s_depends_on := s_depends_on s; s_priority := p |}.

Definition is_composite (n : TaskNode) : bool := n_expanded n.

Definition is_done (n : TaskNode) : bool :=
  match n_status n with Done => true | _ => false end.

Definition is_failed (n : TaskNode) : bool :=
  match n_status n with Failed => true | _ => false end.

Definition is_terminal (n : TaskNode) : bool :=
  match n_status n with Done | Failed => true | _ => false end.

(** Field assignments on a [&mut TaskNode]. *)
Definition set_status (st : NodeStatus) (n : TaskNode) : TaskNode :=
  {| n_id := n_id n; n_content := n_content n; n_kind := n_kind n; n_status := st;
     n_owner := n_owner n; n_parent := n_parent n; n_depends_on := n_depends_on n;
     n_expanded := n_expanded n; n_is_gate := n_is_gate n; n_planner := n_planner n;
     n_priority := n_priority n; n_output := n_output n; n_origin := n_origin n |}.

Definition set_owner (o : option string) (n : TaskNode) : TaskNode :=
  {| n_id := n_id n; n_content := n_content n; n_kind := n_kind n; n_status := n_status n;
     n_owner := o; n_parent := n_parent n; n_depends_on := n_depends_on n;
     n_expanded := n_expanded n; n_is_gate := n_is_gate n; n_planner := n_planner n;
     n_priority := n_priority n; n_output := n_output n; n_origin := n_origin n |}.

Definition set_depends_on (deps : list string) (n : TaskNode) : TaskNode :=
  {| n_id := n_id n; n_content := n_content n; n_kind := n_kind n; n_status := n_status n;
     n_owner := n_owner n; n_parent := n_parent n; n_depends_on := deps;
     n_expanded := n_expanded n; n_is_gate := n_is_gate n; n_planner := n_planner n;
     n_priority := n_priority n; n_output := n_output n; n_origin := n_origin n |}.

Definition set_expanded (n : TaskNode) : TaskNode :=
  {| n_id := n_id n; n_content := n_content n; n_kind := n_kind n; n_status := n_status n;
     n_owner := n_owner n; n_parent := n_parent n; n_depends_on := n_depends_on n;
     n_expanded := true; n_is_gate := n_is_gate n; n_planner := n_planner n;
     n_priority := n_priority n; n_output := n_output n; n_origin := n_origin n |}.

Definition set_planner (p : option string) (n : TaskNode) : TaskNode :=
  {| n_id := n_id n; n_content := n_content n; n_kind := n_kind n; n_status := n_status n;
     n_owner := n_owner n; n_parent := n_parent n; n_depends_on := n_depends_on n;
     n_expanded := n_expanded n; n_is_gate := n_is_gate n; n_planner := p;
     n_priority := n_priority n; n_output := n_output n; n_origin := n_origin n |}.

Definition set_output (o : option HandoffArtifact) (n : TaskNode) : TaskNode :=
  {| n_id := n_id n; n_content := n_content n; n_kind := n_kind n; n_status := n_status n;
     n_owner := n_owner n; n_parent := n_parent n; n_depends_on := n_depends_on n;
     n_expanded := n_expanded n; n_is_gate := n_is_gate n; n_planner := n_planner n;
     n_priority := n_priority n; n_output := o; n_origin := n_origin n |}.

(** The loop [for id in ids { if !deps.contains(&id) { deps.push(id) } }]. *)
Definition add_dep (deps : list string) (id : string) : list string :=
  if bool_decide (id ∈ deps) then deps else deps ++ [id].

Definition add_deps (deps ids : list string) : list string := foldl add_dep deps ids.

(** ** Errors *)

Inductive DagError :=
  | UnknownNode (id : string)
  | DuplicateNode (id : string)
  | UnknownDependency (node dependency : string)
  | WouldCreateCycle (ids : list string)
  | NotOwner (node actor : string)
  | InvalidState (node : string) (status : NodeStatus)
  | ThinArtifact (node reason : string)
  | UnaddressedLowConfidence (gate : string) (nodes : list string)
  | UncoveredSiblings (gate : string) (nodes : list string)
  | StaleGateScope (gate : string) (pending : list string)
  | GateMisuse (msg : string).

#[export] Instance DagError_eq_dec : EqDecision DagError. Proof. solve_decision. Defined.

(** The derived [Debug] of [NodeStatus]. *)
Definition debug_status (st : NodeStatus) : string :=
  match st with
  | Queued => "Queued" | Running => "Running" | Done => "Done" | Failed => "Failed"
  end.

(** [<DagError as Display>::fmt] *)
Definition dag_error_message (e : DagError) : string :=
  match e with
  | UnknownNode id => "unknown node '" +:+ id +:+ "'"
  | DuplicateNode id => "duplicate node id '" +:+ id +:+ "'"
  | UnknownDependency node dependency =>
      "node '" +:+ node +:+ "' depends on unknown node '" +:+ dependency +:+ "'"
  | WouldCreateCycle ids => "operation would create a cycle among: " +:+ join ", " ids
  | NotOwner node actor => "actor '" +:+ actor +:+ "' does not own node '" +:+ node +:+ "'"
  | InvalidState node status =>
      "node '" +:+ node +:+ "' is in invalid state " +:+ debug_status status
      +:+ " for this operation"
  | ThinArtifact node reason => "node '" +:+ node +:+ "' artifact rejected: " +:+ reason
  | UnaddressedLowConfidence gate nodes =>
      "gate '" +:+ gate +:+ "' cannot pass: sibling node(s) [" +:+ join ", " nodes
      +:+ "] completed with LOW confidence and the gate artifact does not address them. Either inject_gap with follow-up nodes that shore up that work, or name each id in your findings with why its low confidence is acceptable"
  | UncoveredSiblings gate nodes =>
      "gate '" +:+ gate +:+ "' cannot pass: completed node(s) [" +:+ join ", " nodes
      +:+ "] in its audit scope are not addressed in the gate artifact. A passing deep gate must account for every node it audits: name each id in findings/open_questions with what you checked, or inject_gap with follow-up nodes for anything shaky"
  | StaleGateScope gate pending =>
      "gate '" +:+ gate +:+ "' cannot pass: node(s) [" +:+ join ", " pending
      +:+ "] entered its audit scope after it was dispatched and are not finished. The gate's view is stale; it re-runs after they drain"
  | GateMisuse msg => "gate misuse: " +:+ msg
  end.

(** ** The graph *)

Record TaskGraph := { mode : Mode; nodes : list TaskNode }.

#[export] Instance TaskGraph_eq_dec : EqDecision TaskGraph. Proof. solve_decision. Defined.

Definition new_graph (m : Mode) : TaskGraph := {| mode := m; nodes := [] |}.

Definition has_id (id : string) (n : TaskNode) : bool := String.eqb (n_id n) id.

Definition get (g : TaskGraph) (id : string) : option TaskNode :=
  List.find (has_id id) (nodes g).

(** [TaskGraph::contains] *)
Definition contains_node (g : TaskGraph) (id : string) : bool := existsb (has_id id) (nodes g).

(** [TaskGraph::push] and [push_node] *)
Definition push_node (g : TaskGraph) (n : TaskNode) : TaskGraph :=
  {| mode := mode g; nodes := nodes g ++ [n] |}.

(** Assigning through [TaskGraph::get_mut]: the first node with the id is replaced. *)
Fixpoint update_first (id : string) (f : TaskNode → TaskNode) (l : list TaskNode)
  : list TaskNode :=
  match l with
  | [] => []
  | n :: l' => if has_id id n then f n :: l' else n :: update_first id f l'
  end.

Definition update_node (g : TaskGraph) (id : string) (f : TaskNode → TaskNode) : TaskGraph :=
  {| mode := mode g; nodes := update_first id f (nodes g) |}.

Definition has_parent (id : string) (n : TaskNode) : bool :=
  bool_decide (n_parent n = Some id).

Definition children_of (g : TaskGraph) (id : string) : list TaskNode :=
  List.filter (λ n, has_parent id n && negb (n_is_gate n)) (nodes g).

Definition gate_of (g : TaskGraph) (id : string) : option TaskNode :=
  List.find (λ n, has_parent id n && n_is_gate n) (nodes g).

Definition output_confidence (n : TaskNode) : option ConfidenceLevel :=
  let?? a := n_output n in confidence_level a.

Definition low_confidence_done_ids (g : TaskGraph) : list string :=
  map n_id
    (List.filter (λ n, bool_decide (output_confidence n = Some ConfLow))
       (List.filter (λ n, is_done n && negb (n_is_gate n)) (nodes g))).

Definition all_terminal (g : TaskGraph) : bool := forallb is_terminal (nodes g).

(** ** Cycle detection *)

Definition node_ids (g : TaskGraph) : list string := map n_id (nodes g).

Definition known_ids (g : TaskGraph) : gset string := list_to_set (node_ids g).

(** The unique in-graph dependencies of a node (a [HashSet]; only its size is used). *)
Definition unique_deps (known : gset string) (n : TaskNode) : list string :=
  dedup_first [] (filter (λ d, d ∈ known) (n_depends_on n)).

Definition entry_zero (m : gmap string nat) (n : TaskNode) : gmap string nat :=
  match m !! n_id n with Some _ => m | None => <[n_id n := 0]> m end.

Definition entry_add (known : gset string) (m : gmap string nat) (n : TaskNode)
  : gmap string nat :=
  <[n_id n := default 0 (m !! n_id n) + length (unique_deps known n)]> m.

Definition init_indegree (g : TaskGraph) : gmap string nat :=
  foldl (entry_add (known_ids g)) (foldl entry_zero ∅ (nodes g)) (nodes g).

Definition zero_ids (indegree : gmap string nat) : list string :=
  sort_strings (map fst (filter (λ p, p.2 = 0) (map_to_list indegree))).

(** The nodes the inner loop relaxes when [id] is visited. *)
Definition dependents (g : TaskGraph) (id : string) : list string :=
  map n_id (filter (λ n, id ∈ n_depends_on n) (nodes g)).

(** [TaskGraph::cycle_nodes].  The source's loop has no bound; [length (nodes g)] steps are
    enough ([cycle_nodes_terminates]). *)
Definition cycle_visit (g : TaskGraph) : option (gmap string nat * gset string) :=
  kahn_loop (dependents g) (length (nodes g)) (reverse (zero_ids (init_indegree g)))
    (init_indegree g) ∅.

Definition cycle_nodes (g : TaskGraph) : list string :=
  match cycle_visit g with
  | Some (_, visited) => sort_strings (filter (λ id, id ∉ visited) (node_ids g))
  | None => []
  end.

(** ** Lookups and updates *)

Lemma has_id_iff id n : has_id id n = true ↔ n_id n = id.
Proof. apply String.eqb_eq. Qed.

Lemma has_id_refl n : has_id (n_id n) n = true.
Proof. by rewrite has_id_iff. Qed.

Lemma elem_ids n l : n ∈ l → n_id n ∈ map n_id l.
Proof. apply list_elem_of_fmap_2. Qed.

Lemma get_Some g id n : get g id = Some n → n ∈ nodes g ∧ n_id n = id.
Proof. intros H%find_Some_elem. by rewrite has_id_iff in H. Qed.

Lemma get_None g id : get g id = None ↔ id ∉ node_ids g.
Proof.
  unfold get, node_ids. rewrite find_None_elem. split.
  - intros H (n & -> & Hn)%list_elem_of_fmap. specialize (H n Hn).
    by rewrite has_id_refl in H.
  - intros H n Hn. apply not_true_iff_false. rewrite has_id_iff. intros <-.
    by apply H, elem_ids.
Qed.

Lemma get_is_Some g id : is_Some (get g id) ↔ id ∈ node_ids g.
Proof.
  destruct (get g id) as [n|] eqn:E; split.
  - intros _. apply get_Some in E as [Hn <-]. by apply elem_ids.
  - by eexists.
  - intros [? ?]; done.
  - intros Hid. by apply get_None in E.
Qed.

Lemma contains_node_iff g id : contains_node g id = true ↔ id ∈ node_ids g.
Proof.
  unfold contains_node, node_ids. rewrite existsb_elem. setoid_rewrite has_id_iff.
  change (map n_id) with (fmap (M:=list) n_id). rewrite list_elem_of_fmap. naive_solver.
Qed.

Lemma contains_node_false g id : contains_node g id = false ↔ id ∉ node_ids g.
Proof. by rewrite <- not_true_iff_false, contains_node_iff. Qed.

Lemma elem_node_ids g n : n ∈ nodes g → n_id n ∈ node_ids g.
Proof. apply elem_ids. Qed.

(** With unique ids a node is found under its own id. *)
Lemma get_elem g n : NoDup (node_ids g) → n ∈ nodes g → get g (n_id n) = Some n.
Proof.
  unfold get, node_ids. induction (nodes g) as [|x l IH]; simpl; intros Hnd Hn; [set_solver|].
  apply NoDup_cons in Hnd as [Hx Hl]. destruct (has_id (n_id n) x) eqn:E.
  - apply has_id_iff in E. apply elem_of_cons in Hn as [->|Hn]; [done|].
    exfalso. apply Hx. rewrite E. by apply elem_ids.
  - apply elem_of_cons in Hn as [->|Hn]; [by rewrite has_id_refl in E|]. by apply IH.
Qed.

Lemma get_iff g n id :
  NoDup (node_ids g) → get g id = Some n ↔ n ∈ nodes g ∧ n_id n = id.
Proof. intros Hnd. split; [apply get_Some|]. intros [Hn <-]. by apply get_elem. Qed.

Lemma update_first_ids id f l :
  (∀ n, n_id (f n) = n_id n) → map n_id (update_first id f l) = map n_id l.
Proof.
  intros Hf. induction l as [|n l IH]; simpl; [done|].
  destruct (has_id id n); simpl; [by rewrite Hf|by rewrite IH].
Qed.

Lemma node_ids_update g id f :
  (∀ n, n_id (f n) = n_id n) → node_ids (update_node g id f) = node_ids g.
Proof. apply update_first_ids. Qed.

Lemma node_ids_push g n : node_ids (push_node g n) = node_ids g ++ [n_id n].
Proof. unfold node_ids. simpl. by rewrite map_app. Qed.

(** With unique ids, an update changes exactly the node with the id. *)
Lemma update_first_map id f l :
  NoDup (map n_id l) →
  update_first id f l = map (λ n, if has_id id n then f n else n) l.
Proof.
  induction l as [|n l IH]; simpl; intros Hnd; [done|].
  apply NoDup_cons in Hnd as [Hn Hl]. destruct (has_id id n) eqn:E; f_equal; [|by apply IH].
  rewrite <- (map_id l) at 1. apply map_ext_in. intros x Hx%list_elem_of_In.
  destruct (has_id id x) eqn:Ex; [|done]. exfalso. apply Hn.
  apply has_id_iff in E, Ex. rewrite E, <- Ex. by apply elem_ids.
Qed.

Lemma elem_update_node g id f n :
  NoDup (node_ids g) →
  n ∈ nodes (update_node g id f)
  ↔ (∃ n0, n0 ∈ nodes g ∧ n_id n0 = id ∧ n = f n0) ∨ (n ∈ nodes g ∧ n_id n ≠ id).
Proof.
  intros Hnd. simpl. rewrite update_first_map by done.
  change (map ?h (nodes g)) with (fmap (M:=list) h (nodes g)). rewrite list_elem_of_fmap. split.
  - intros (n0 & -> & Hn0). destruct (has_id id n0) eqn:E.
    + apply has_id_iff in E. left. by exists n0.
    + right. split; [done|]. intros Hid%has_id_iff. congruence.
  - intros [(n0 & Hn0 & Hid & ->)|(Hn & Hid)].
    + exists n0. apply has_id_iff in Hid. by rewrite Hid.
    + exists n. destruct (has_id id n) eqn:E; [|done]. by apply has_id_iff in E.
Qed.

Lemma find_update_first_eq id f l n :
  n_id (f n) = n_id n → List.find (has_id id) l = Some n →
  List.find (has_id id) (update_first id f l) = Some (f n).
Proof.
  intros Hf. induction l as [|x l IH]; simpl; [done|].
  destruct (has_id id x) eqn:E; simpl.
  - intros [= ->]. unfold has_id in *. by rewrite Hf, E.
  - rewrite E. exact IH.
Qed.

Lemma find_update_first_ne id id' f l :
  (∀ n, n_id (f n) = n_id n) → id ≠ id' →
  List.find (has_id id') (update_first id f l) = List.find (has_id id') l.
Proof.
  intros Hf Hne. induction l as [|x l IH]; simpl; [done|].
  destruct (has_id id x) eqn:E; simpl.
  - apply has_id_iff in E. unfold has_id. rewrite Hf, E.
    destruct (String.eqb_spec id id'); [done|]. done.
  - by rewrite IH.
Qed.

Lemma get_update_eq g id f n :
  n_id (f n) = n_id n → get g id = Some n → get (update_node g id f) id = Some (f n).
Proof. apply find_update_first_eq. Qed.

Lemma get_update_ne g id id' f :
  (∀ n, n_id (f n) = n_id n) → id ≠ id' → get (update_node g id f) id' = get g id'.
Proof. apply find_update_first_ne. Qed.

Lemma get_push g n id :
  get (push_node g n) id
  = match get g id with Some m => Some m | None => if has_id id n then Some n else None end.
Proof.
  unfold get. simpl. induction (nodes g) as [|x l IH]; simpl; [done|].
  destruct (has_id id x); [done|]. exact IH.
Qed.

Lemma add_deps_iff deps ids d : d ∈ add_deps deps ids ↔ d ∈ deps ∨ d ∈ ids.
Proof.
  unfold add_deps. revert deps. induction ids as [|i ids IH]; intros deps; simpl; [set_solver|].
  rewrite IH. unfold add_dep. case_bool_decide; set_solver.
Qed.

Lemma NoDup_add_deps deps ids : NoDup deps → NoDup (add_deps deps ids).
Proof.
  unfold add_deps. revert deps. induction ids as [|i ids IH]; intros deps Hd; simpl; [done|].
  apply IH. unfold add_dep. case_bool_decide; [done|].
  apply NoDup_app. split_and!; [done|set_solver|apply NoDup_singleton].
Qed.

(** ** The cycle detector is exact *)

(** [dep_edge g d c]: some node with id [c] depends on the known id [d]. *)
Definition dep_edge (g : TaskGraph) (d c : string) : Prop :=
  d ∈ node_ids g ∧ ∃ n, n ∈ nodes g ∧ n_id n = c ∧ d ∈ n_depends_on n.

Lemma elem_dependents g d c :
  c ∈ dependents g d ↔ ∃ n, n ∈ nodes g ∧ n_id n = c ∧ d ∈ n_depends_on n.
Proof.
  unfold dependents. change (map n_id) with (fmap (M:=list) n_id).
  rewrite list_elem_of_fmap. setoid_rewrite list_elem_of_filter. naive_solver.
Qed.

Lemma entry_zero_fold l m c :
  foldl entry_zero m l !! c
  = match m !! c with Some v => Some v | None => if bool_decide (c ∈ map n_id l) then Some 0 else None end.
Proof.
  revert m. induction l as [|n l IH]; intros m; simpl.
  - by destruct (m !! c).
  - rewrite IH. unfold entry_zero. destruct (m !! n_id n) eqn:E.
    + destruct (m !! c) eqn:Ec; [done|]. assert (c ≠ n_id n) by congruence.
      repeat case_bool_decide; set_solver.
    + destruct (decide (c = n_id n)) as [->|Hne].
      * rewrite lookup_insert_eq, E. rewrite bool_decide_true by set_solver. done.
      * rewrite lookup_insert_ne by done. destruct (m !! c); [done|].
        repeat case_bool_decide; set_solver.
Qed.

Lemma entry_add_fold known l m c :
  c ∈ map n_id l ∨ is_Some (m !! c) →
  foldl (entry_add known) m l !! c
  = Some (default 0 (m !! c)
          + sum_of (λ n, if decide (n_id n = c) then length (unique_deps known n) else 0) l).
Proof.
  revert m. induction l as [|n l IH]; intros m Hc; cbn [foldl].
  - destruct Hc as [Hc|[v Hv]]; [set_solver|]. rewrite Hv. simpl. change (sum_of _ []) with 0.
    by rewrite Nat.add_0_r.
  - rewrite sum_of_cons, IH; unfold entry_add.
    + f_equal. destruct (decide (n_id n = c)) as [->|Hne].
      * rewrite lookup_insert_eq. simpl. lia.
      * rewrite lookup_insert_ne by done. lia.
    + destruct (decide (n_id n = c)) as [->|Hne].
      * right. rewrite lookup_insert_eq. by eexists.
      * rewrite lookup_insert_ne by done. simpl in Hc. set_solver.
Qed.

Lemma entry_add_fold_None known l m c :
  c ∉ map n_id l → foldl (entry_add known) m l !! c = m !! c.
Proof.
  revert m. induction l as [|n l IH]; intros m Hc; simpl in *; [done|].
  rewrite IH by set_solver. unfold entry_add. apply lookup_insert_ne. set_solver.
Qed.

(** Summing over pairs in either order. *)
Lemma sum_of_swap {A B} (w : A → B → nat) (la : list A) (lb : list B) :
  sum_of (λ a, sum_of (w a) lb) la = sum_of (λ b, sum_of (λ a, w a b) la) lb.
Proof.
  induction la as [|a la IH].
  - symmetry. by apply sum_of_zero.
  - rewrite sum_of_cons, IH. clear IH. induction lb as [|b lb IH]; [done|].
    rewrite !sum_of_cons. lia.
Qed.

Lemma sum_of_filter_length {A} (P : A → Prop) `{!∀ x, Decision (P x)} (l : list A) :
  sum_of (λ x, if decide (P x) then 1 else 0) l = length (filter P l).
Proof.
  induction l as [|x l IH]; [done|]. rewrite sum_of_cons, filter_cons, IH.
  destruct (decide (P x)); done.
Qed.

Lemma occ_dependents c d g :
  occ c (dependents g d)
  = sum_of (λ n, if decide (n_id n = c ∧ d ∈ n_depends_on n) then 1 else 0) (nodes g).
Proof.
  unfold dependents, occ. induction (nodes g) as [|n l IH]; [done|].
  rewrite sum_of_cons, filter_cons, <- IH.
  destruct (decide (d ∈ n_depends_on n)); cbn [map].
  - rewrite sum_of_cons. f_equal. destruct (decide (n_id n = c)), (decide _); naive_solver.
  - rewrite (decide_False (P := n_id n = c ∧ _)) by naive_solver. done.
Qed.

Definition unique_ids (g : TaskGraph) : list string := dedup_first [] (node_ids g).

Lemma elem_unique_ids g c : c ∈ unique_ids g ↔ c ∈ node_ids g.
Proof. unfold unique_ids. rewrite elem_of_dedup_first. set_solver. Qed.

(** A node's unique in-graph dependencies, counted over the ids of the graph. *)
Lemma unique_deps_count g n :
  sum_of (λ d, if decide (d ∈ n_depends_on n) then 1 else 0) (unique_ids g)
  = length (unique_deps (known_ids g) n).
Proof.
  rewrite sum_of_filter_length. apply Permutation_length, NoDup_Permutation.
  - apply NoDup_filter, NoDup_dedup_first.
  - apply NoDup_dedup_first.
  - intros d. unfold unique_deps. rewrite list_elem_of_filter, elem_of_dedup_first,
      list_elem_of_filter, elem_unique_ids. unfold known_ids. set_solver.
Qed.

Lemma init_indegree_lookup g c :
  c ∈ unique_ids g →
  init_indegree g !! c = Some (sum_of (λ d, occ c (dependents g d)) (unique_ids g)).
Proof.
  rewrite elem_unique_ids. intros Hc. unfold init_indegree.
  rewrite entry_add_fold by (by left). rewrite entry_zero_fold, lookup_empty.
  rewrite bool_decide_true by done. simpl. f_equal.
  rewrite (sum_of_ext _ _ (unique_ids g) (λ d _, occ_dependents c d g)), sum_of_swap.
  apply sum_of_ext. intros n Hn. rewrite <- unique_deps_count.
  destruct (decide (n_id n = c)) as [Heq|Hne].
  - apply sum_of_ext. intros d _.
    destruct (decide (d ∈ n_depends_on n)), (decide (_ ∧ _)); naive_solver.
  - symmetry. apply sum_of_zero. intros d _. rewrite decide_False; naive_solver.
Qed.

Lemma init_indegree_outside g c : c ∉ node_ids g → init_indegree g !! c = None.
Proof.
  intros Hc. unfold init_indegree. rewrite entry_add_fold_None by done.
  rewrite entry_zero_fold, lookup_empty. by rewrite bool_decide_false.
Qed.

Lemma elem_zero_ids m c : c ∈ zero_ids m ↔ m !! c = Some 0.
Proof.
  unfold zero_ids. rewrite elem_of_sort_strings.
  change (map fst) with (fmap (M:=list) (@fst string nat)). rewrite list_elem_of_fmap.
  setoid_rewrite list_elem_of_filter. split.
  - intros ([i x] & -> & Hx & Hi%elem_of_map_to_list). simpl in *. by subst.
  - intros Hc. exists (c, 0). split_and!; [done..|]. by apply elem_of_map_to_list.
Qed.

Lemma NoDup_zero_ids m : NoDup (zero_ids m).
Proof.
  unfold zero_ids, sort_strings. apply NoDup_sort_by.
  change (map fst) with (fmap (M:=list) (@fst string nat)).
  apply (sublist_NoDup _ _ (NoDup_fst_map_to_list m)).
  apply fmap_sublist, sublist_filter.
Qed.

Lemma length_unique_ids g : length (unique_ids g) ≤ length (nodes g).
Proof.
  transitivity (length (node_ids g)); [|unfold node_ids; by rewrite length_map].
  apply submseteq_length, NoDup_submseteq; [apply NoDup_dedup_first|].
  intros c. by rewrite elem_unique_ids.
Qed.

Lemma cycle_visit_spec g :
  ∃ indegree visited,
    cycle_visit g = Some (indegree, visited)
    ∧ ∀ c, c ∈ node_ids g → (c ∈ visited ↔ Acc (dep_edge g) c).
Proof.
  destruct (kahn_correct (unique_ids g) (dependents g)) with
    (fuel := length (nodes g)) (queue := reverse (zero_ids (init_indegree g)))
    (indegree := init_indegree g) as (i & v & Hk & _ & Hv).
  - apply NoDup_dedup_first.
  - intros d c _ (n & Hn & <- & _)%elem_dependents. by apply elem_unique_ids, elem_node_ids.
  - apply length_unique_ids.
  - apply init_indegree_lookup.
  - rewrite reverse_Permutation. apply NoDup_zero_ids.
  - intros c. rewrite elem_of_reverse, elem_zero_ids, elem_unique_ids.
    split; [|naive_solver]. intros Hc. split; [|done].
    destruct (decide (c ∈ node_ids g)) as [|Hn]; [done|].
    by rewrite init_indegree_outside in Hc.
  - exists i, v. split; [done|]. intros c Hc. destruct (Hv c) as [-> _]; [by apply elem_unique_ids|].
    assert (∀ a b, edge (unique_ids g) (dependents g) a b ↔ dep_edge g a b) as He.
    { intros a b. unfold edge, dep_edge. by rewrite elem_unique_ids, elem_dependents. }
    split; apply Acc_iff; [done|]. intros a b. by rewrite He.
Qed.

(** The cycle detector terminates on every graph with one visit per node. *)
Lemma cycle_nodes_terminates g : is_Some (cycle_visit g).
Proof. destruct (cycle_visit_spec g) as (i & v & -> & _). by eexists. Qed.

Lemma elem_cycle_nodes g c :
  c ∈ cycle_nodes g ↔ c ∈ node_ids g ∧ ¬ Acc (dep_edge g) c.
Proof.
  unfold cycle_nodes. destruct (cycle_visit_spec g) as (i & v & -> & Hv).
  rewrite elem_of_sort_strings, list_elem_of_filter. split.
  - intros [Hc Hin]. split; [done|]. by rewrite <- Hv.
  - intros [Hin Hc]. split; [|done]. by rewrite Hv.
Qed.

(** The graph has no dependency cycle. *)
Definition acyclic (g : TaskGraph) : Prop := ∀ c, c ∈ node_ids g → Acc (dep_edge g) c.

Lemma cycle_nodes_nil g : cycle_nodes g = [] ↔ acyclic g.
Proof.
  unfold acyclic. split.
  - intros Hg. unfold cycle_nodes in Hg.
    destruct (cycle_visit_spec g) as (i & v & E & Hv). rewrite E in Hg. intros c Hc.
    apply Hv; [done|]. destruct (decide (c ∈ v)) as [|Hn]; [done|exfalso].
    assert (c ∈ @nil string) as Hin; [|set_solver].
    rewrite <- Hg, elem_of_sort_strings, list_elem_of_filter. done.
  - intros Ha. destruct (cycle_nodes g) as [|c l] eqn:E; [done|exfalso].
    assert (c ∈ cycle_nodes g) as Hc by (rewrite E; set_solver).
    apply elem_cycle_nodes in Hc as [Hc Hn]. by apply Hn, Ha.
Qed.
