(* ===== verification/DagOps.v ===== *)
(** * [arterm-plan]: validated graph mutations (crates/arterm-plan/src/dag/ops.rs)

    Every mutation stages its result and commits it only when each guard passed, so an
    operation is a function from a graph to either an error (the graph is unchanged) or the
    new graph.  The guards are in the source's order: an input with several faults gets the
    error the source reports first. *)

From S2P Require Export DagModel.

(** ** Ids and specs *)

(** [validated_spec_id] *)
Definition validated_spec_id (spec : NodeSpec) (op : string) : result string DagError :=
  match s_id spec with
  | None => Err (GateMisuse (op +:+ " specs must carry explicit ids"))
  | Some id =>
      if is_empty (trim id) then Err (GateMisuse (op +:+ " specs must carry non-empty ids"))
      else Ok id
  end.

(** [spec_to_node] *)
Definition spec_to_node (spec : NodeSpec) (parent : option string) (origin : NodeOrigin)
  : TaskNode :=
  {| n_id := default "" (s_id spec); n_content := s_content spec; n_kind := s_kind spec;
     n_status := Queued; n_owner := None; n_parent := parent;
     n_depends_on := dedup_first [] (s_depends_on spec);
     n_expanded := false; n_is_gate := false; n_planner := None;
     n_priority := s_priority spec; n_output := None; n_origin := Some origin |}.

(** The counter loop of [unique_gate_id]. *)
Fixpoint gate_id_from (fuel : nat) (g : TaskGraph) (base : string) (n : nat) : option string :=
  let candidate := base +:+ show_nat n in
  if contains_node g candidate then
    match fuel with
    | 0 => None
    | S fuel' => gate_id_from fuel' g base (S n)
    end
  else Some candidate.

(** [unique_gate_id]; the counter stops within [length (nodes g)] steps, far below its
    [u32], so the [default] is never taken ([gate_id_from_total]). *)
Definition unique_gate_id (g : TaskGraph) (node_id : string) : string :=
  let base := node_id +:+ "::gate" in
  if contains_node g base then default base (gate_id_from (length (nodes g)) g base 2)
  else base.

(** Every dependency of a batch is in the batch or in the graph. *)
Fixpoint check_deps (g : TaskGraph) (known : gset string) (node : string)
  (deps : list string) : result unit DagError :=
  match deps with
  | [] => Ok tt
  | dep :: deps' =>
      if negb (bool_decide (dep ∈ known)) && negb (contains_node g dep)
      then Err (UnknownDependency node dep)
      else check_deps g known node deps'
  end.

Fixpoint check_batch (g : TaskGraph) (known : gset string) (batch : list (NodeSpec * string))
  : result unit DagError :=
  match batch with
  | [] => Ok tt
  | (spec, id) :: batch' =>
      let? _ := check_deps g known id (s_depends_on spec) in
      check_batch g known batch'
  end.

(** The id loop of [expand_node], and the first one of [inject_from_gate]. *)
Fixpoint new_batch_ids (op : string) (g : TaskGraph) (seen : gset string)
  (specs : list NodeSpec) : result (list string) DagError :=
  match specs with
  | [] => Ok []
  | spec :: specs' =>
      let? id := validated_spec_id spec op in
      if contains_node g id || bool_decide (id ∈ seen) then Err (DuplicateNode id)
      else
        let? ids := new_batch_ids op g ({[id]} ∪ seen) specs' in
        Ok (id :: ids)
  end.

(** The second id loop of [inject_from_gate]. *)
Fixpoint collect_ids (op : string) (specs : list NodeSpec) : result (list string) DagError :=
  match specs with
  | [] => Ok []
  | spec :: specs' =>
      let? id := validated_spec_id spec op in
      let? ids := collect_ids op specs' in
      Ok (id :: ids)
  end.

(** The loop that pushes a batch of nodes onto the staged graph. *)
Definition push_specs (g : TaskGraph) (specs : list NodeSpec) (parent : option string)
  (origin : NodeOrigin) : TaskGraph :=
  foldl (λ g spec, push_node g (spec_to_node spec parent origin)) g specs.

(** The closing check of every staged mutation. *)
Definition commit {A} (staged : TaskGraph) (a : A) : result (TaskGraph * A) DagError :=
  let cycle := cycle_nodes staged in
  if is_nil cycle then Ok (staged, a) else Err (WouldCreateCycle cycle).

(** ** Gates *)

Definition gate_content (kind : NodeKind) (parent : string) : string :=
  match kind with
  | Verify =>
      "Verify the work of '" +:+ parent +:+ "': run the declared acceptance checks (build, tests, lint). If anything fails, emit fix nodes back into the graph; do not pass until they drain."
  | _ =>
      "Critique the work of '" +:+ parent +:+ "' adversarially. Read every child's 'what_i_did_not_check' and find unexplored gaps given this task's stated scope. For each gap, emit a new child node; do not pass until no gaps remain."
  end.

Definition root_gate_content (kind : NodeKind) : string :=
  match kind with
  | Verify =>
      "Final plan-wide verify: run the acceptance checks for the whole plan's declared scope (build, tests, lint) across everything the plan changed. If anything fails, inject fix nodes; the plan cannot finish until they drain."
  | _ =>
      "Final plan-wide critique: audit the ENTIRE plan adversarially before it may finish. Read every completed node's artifact, especially each 'what_i_did_not_check' and every open question, and hunt for whole facets the plan never covered. For each gap, inject a new node; the plan cannot finish until they drain."
  end.

(** The gate node that [expand_node] and [ensure_root_gate] build. *)
Definition gate_node (id content : string) (kind : NodeKind) (parent : option string)
  (deps : list string) : TaskNode :=
  {| n_id := id; n_content := content; n_kind := kind; n_status := Queued; n_owner := None;
     n_parent := parent; n_depends_on := deps; n_expanded := false; n_is_gate := true;
     n_planner := None; n_priority := 0; n_output := None; n_origin := Some OriginGate |}.

Definition is_root_work (n : TaskNode) : bool :=
  bool_decide (n_parent n = None) && negb (n_is_gate n).

Definition is_root_gate (n : TaskNode) : bool :=
  n_is_gate n && bool_decide (n_parent n = None).

Definition is_code_kind (k : NodeKind) : bool :=
  match k with Implement | Fix => true | _ => false end.

(** The refresh of an existing root gate: widen it, and re-open it when it was closed. *)
Definition refresh_gate (root_ids : list string) (gate : TaskNode) : TaskNode :=
  let widened := existsb (λ id, negb (bool_decide (id ∈ n_depends_on gate))) root_ids in
  let gate' := set_depends_on (add_deps (n_depends_on gate) root_ids) gate in
  if widened && is_terminal gate' then set_owner None (set_status Queued gate') else gate'.

(** [ensure_root_gate] *)
Definition ensure_root_gate (g : TaskGraph) : TaskGraph :=
  let root_ids := map n_id (List.filter is_root_work (nodes g)) in
  if is_nil root_ids then g
  else
    match List.find is_root_gate (nodes g) with
    | Some gate => update_node g (n_id gate) (refresh_gate root_ids)
    | None =>
        let all_code :=
          forallb (λ n, is_code_kind (n_kind n)) (List.filter is_root_work (nodes g)) in
        let kind := if all_code then Verify else Critique in
        let gate_id := unique_gate_id g "plan" in
        push_node g (gate_node gate_id (root_gate_content kind) kind None root_ids)
    end.

(** ** Seeding *)

(** [dependency_sets_equal] and [dependency_sets_equal_iter]: equality of two [HashSet]s. *)
Definition dependency_sets_equal (left right : list string) : bool :=
  bool_decide (list_to_set left =@{gset string} list_to_set right).

(** [seed_specs_equivalent] *)
Definition seed_specs_equivalent (left right : NodeSpec) : bool :=
  bool_decide (s_id left = s_id right)
  && String.eqb (s_content left) (s_content right)
  && bool_decide (s_kind left = s_kind right)
  && N.eqb (s_priority left) (s_priority right)
  && dependency_sets_equal (s_depends_on left) (s_depends_on right).

(** The edges of a node that its own expansion did not add. *)
Definition declared_dependencies (g : TaskGraph) (n : TaskNode) : list string :=
  List.filter
    (λ d, match get g d with
          | None => true
          | Some candidate => negb (has_parent (n_id n) candidate)
          end)
    (n_depends_on n).

(** [seed_spec_matches_existing] *)
Definition seed_spec_matches_existing (g : TaskGraph) (n : TaskNode) (spec : NodeSpec) : bool :=
  if bool_decide (is_Some (n_parent n))
     || n_is_gate n
     || negb (match n_origin n with None | Some OriginSeed => true | _ => false end)
     || negb (String.eqb (n_content n) (s_content spec))
     || negb (bool_decide (n_kind n = s_kind spec))
     || negb (N.eqb (n_priority n) (s_priority spec))
  then false
  else dependency_sets_equal (declared_dependencies g n) (s_depends_on spec).

(** The first loop of [seed]: collapse exact replays within the request.  [indexes] maps an
    id to its place in [unique]; the [None] of the inner lookup is the source's
    out-of-range panic, which cannot happen ([collapse_specs_Ok]). *)
Fixpoint collapse_specs (specs unique : list NodeSpec) (indexes : gmap string nat)
  : result (list NodeSpec * gmap string nat) DagError :=
  match specs with
  | [] => Ok (unique, indexes)
  | spec :: specs' =>
      let? id := validated_spec_id spec "seed" in
      match indexes !! id with
      | Some existing_index =>
          match unique !! existing_index with
          | Some existing =>
              if seed_specs_equivalent existing spec
              then collapse_specs specs' unique indexes
              else Err (DuplicateNode id)
          | None => Err (DuplicateNode id)
          end
      | None => collapse_specs specs' (unique ++ [spec]) (<[id := length unique]> indexes)
      end
  end.

(** The commit loop of [seed]: existing ids are looked up in the graph before the call. *)
Fixpoint stage_seed (g staged : TaskGraph) (specs : list NodeSpec)
  : result TaskGraph DagError :=
  match specs with
  | [] => Ok staged
  | spec :: specs' =>
      let id := default "" (s_id spec) in
      match get g id with
      | Some existing =>
          if seed_spec_matches_existing g existing spec then stage_seed g staged specs'
          else Err (DuplicateNode id)
      | None => stage_seed g (push_node staged (spec_to_node spec None OriginSeed)) specs'
      end
  end.

(** [seed] *)
Definition seed (g : TaskGraph) (specs : list NodeSpec) : result TaskGraph DagError :=
  let? (unique, indexes) := collapse_specs specs [] ∅ in
  let? _ := check_batch g (dom indexes) (map (λ s, (s, default "" (s_id s))) unique) in
  let? staged := stage_seed g g unique in
  let staged' := if requires_gates (mode staged) then ensure_root_gate staged else staged in
  let? (g', _) := commit staged' tt in
  Ok g'.

(** ** Expanding *)

(** [ExpandOutcome] *)
Record ExpandOutcome := { child_ids : list string; gate_id : option string }.

(** The parent becomes a composite join. *)
Definition compose_parent (synth_deps : list string) (n : TaskNode) : TaskNode :=
  let n1 := set_status Queued (set_expanded n) in
  let n2 := match n_planner n1 with None => set_planner (n_owner n1) n1 | Some _ => n1 end in
  let n3 := set_owner None n2 in
  set_depends_on (add_deps (n_depends_on n3) synth_deps) n3.

(** [expand_node] *)
Definition expand_node (g : TaskGraph) (node_id actor : string) (children : list NodeSpec)
  : result (TaskGraph * ExpandOutcome) DagError :=
  match get g node_id with
  | None => Err (UnknownNode node_id)
  | Some node =>
      if negb (bool_decide (n_owner node = Some actor)) then Err (NotOwner node_id actor)
      else if n_is_gate node then
        Err (GateMisuse ("gate node '" +:+ node_id +:+ "' cannot be decomposed"))
      else if n_expanded node || negb (bool_decide (n_status node = Running)) then
        Err (InvalidState node_id (n_status node))
      else if is_nil children then Err (GateMisuse "expand requires at least one child")
      else
        let? ids := new_batch_ids "expand" g ∅ children in
        let? _ := check_batch g (list_to_set ids) (zip children ids) in
        let staged := push_specs g children (Some node_id) OriginExpand in
        let '(staged', synth_deps, gid) :=
          if requires_gates (mode staged) then
            let parent_kind :=
              match get staged node_id with Some n => n_kind n | None => Explore end in
            let kind := gate_kind parent_kind in
            let gid := unique_gate_id staged node_id in
            (push_node staged
               (gate_node gid (gate_content kind node_id) kind (Some node_id) ids),
             ids ++ [gid], Some gid)
          else (staged, ids, None) in
        let staged'' := update_node staged' node_id (compose_parent synth_deps) in
        commit staged'' {| child_ids := ids; gate_id := gid |}
  end.

(** ** Gate passes *)

Definition is_id_char (c : ascii) : bool :=
  is_ascii_alphanumeric c
  || Ascii.eqb c "-" || Ascii.eqb c "_" || Ascii.eqb c "." || Ascii.eqb c ":".

Definition opt_id_char (c : option ascii) : bool :=
  match c with Some c => is_id_char c | None => false end.

(** [after_ok]: what may follow a mention. *)
Definition mention_end (rest : string) : bool :=
  match rest with
  | EmptyString => true
  | String c rest' =>
      if Ascii.eqb c "." || Ascii.eqb c ":" then negb (opt_id_char (first_char rest'))
      else negb (is_id_char c)
  end.

(** [before_ok]: what may precede it. *)
Definition mention_start (before : string) : bool := negb (opt_id_char (last_char before)).

(** The search loop; [start] is a byte offset.  A character is read as its bytes: no byte
    of a multi-byte character is an id character. *)
Fixpoint mentions_from (fuel : nat) (text id : string) (start : nat) : bool :=
  match fuel with
  | 0 => false
  | S fuel' =>
      match str_find id (str_drop start text) with
      | None => false
      | Some pos =>
          let begin := start + pos in
          let fin := begin + String.length id in
          if mention_start (str_take begin text) && mention_end (str_drop fin text) then true
          else
            let step :=
              match first_char (str_drop begin text) with
              | Some c => utf8_len c
              | None => 1
              end in
            let start' := begin + step in
            if String.length text <=? start' then false
            else mentions_from fuel' text id start'
      end
  end.

(** [mentions_node_id]; one round per byte is enough ([mentions_node_id_spec]). *)
Definition mentions_node_id (text id : string) : bool :=
  if is_empty id then false else mentions_from (S (String.length text)) text id 0.

Definition GATE_COVERAGE_ENUMERATION_CAP : nat := 20.

(** [gate_audit_scope] *)
Definition gate_audit_scope (g : TaskGraph) (gate : TaskNode) : list TaskNode :=
  List.filter (λ n, negb (n_is_gate n)) (omap (get g) (n_depends_on gate)).

(** The closure [addressed]. *)
Definition addressed (a : HandoffArtifact) (id : string) : bool :=
  mentions_node_id (h_findings a) id
  || existsb (λ q, mentions_node_id q id) (h_open_questions a).

(** The scope nodes that the artifact leaves out, among those [must] selects. *)
Definition unaddressed (a : HandoffArtifact) (must : TaskNode → bool) (scope : list TaskNode)
  : list string :=
  map n_id (List.filter (λ n, negb (addressed a (n_id n))) (List.filter must scope)).

Definition reports_low (n : TaskNode) : bool :=
  bool_decide (output_confidence n = Some ConfLow).

Definition reports_high (n : TaskNode) : bool :=
  bool_decide (output_confidence n = Some ConfHigh).

(** [validate_gate_pass] *)
Definition validate_gate_pass (g : TaskGraph) (gate_id : string) (a : HandoffArtifact)
  : result unit DagError :=
  match get g gate_id with
  | None => Ok tt
  | Some gate =>
      let scope := gate_audit_scope g gate in
      if is_nil scope then Ok tt
      else
        let pending := map n_id (List.filter (λ n, negb (is_done n)) scope) in
        if negb (is_nil pending) then Err (StaleGateScope gate_id pending)
        else
          let debts := unaddressed a reports_low scope in
          if negb (is_nil debts) then Err (UnaddressedLowConfidence gate_id debts)
          else if length scope <=? GATE_COVERAGE_ENUMERATION_CAP then
            let uncovered := unaddressed a (λ _, true) scope in
            if negb (is_nil uncovered) then Err (UncoveredSiblings gate_id uncovered)
            else Ok tt
          else
            let uncovered := unaddressed a (λ n, negb (reports_high n)) scope in
            if negb (is_nil uncovered) then Err (UncoveredSiblings gate_id uncovered)
            else Ok tt
  end.

Definition reason_findings : string := "deep-mode artifact requires non-empty findings".
Definition reason_unchecked : string :=
  "deep-mode artifact must list 'what_i_did_not_check' (use an explicit 'nothing, fully covered' entry only when truly exhaustive)".
Definition reason_confidence : string :=
  "deep-mode artifact must state a confidence of low, medium, or high (honest 'low' is welcome: it routes follow-up work instead of penalizing you)".

(** [validate_artifact] *)
Definition validate_artifact (m : Mode) (node_id : string) (is_gate : bool)
  (a : HandoffArtifact) : result unit DagError :=
  if negb (requires_gates m) then Ok tt
  else if is_gate then Ok tt
  else if is_empty (trim (h_findings a)) then Err (ThinArtifact node_id reason_findings)
  else if is_nil (h_what_i_did_not_check a) then Err (ThinArtifact node_id reason_unchecked)
  else
    match confidence_level a with
    | None => Err (ThinArtifact node_id reason_confidence)
    | Some _ => Ok tt
    end.

(** [complete_node] *)
Definition complete_node (g : TaskGraph) (node_id actor : string) (a : HandoffArtifact)
  : result TaskGraph DagError :=
  match get g node_id with
  | None => Err (UnknownNode node_id)
  | Some node =>
      if negb (bool_decide (n_owner node = Some actor)) then Err (NotOwner node_id actor)
      else if negb (bool_decide (n_status node = Running)) then
        Err (InvalidState node_id (n_status node))
      else
        let? _ := validate_artifact (mode g) node_id (n_is_gate node) a in
        let? _ :=
          (if n_is_gate node && requires_gates (mode g) then validate_gate_pass g node_id a
           else Ok tt) in
        Ok (update_node g node_id (λ n, set_output (Some a) (set_status Done n)))
  end.

(** [fail_node] *)
Definition fail_node (g : TaskGraph) (node_id actor : string) : result TaskGraph DagError :=
  match get g node_id with
  | None => Err (UnknownNode node_id)
  | Some node =>
      if negb (bool_decide (n_owner node = Some actor)) then Err (NotOwner node_id actor)
      else if negb (bool_decide (n_status node = Running)) then
        Err (InvalidState node_id (n_status node))
      else Ok (update_node g node_id (set_status Failed))
  end.

(** The gate re-queues and waits for the injected nodes. *)
Definition requeue_gate (new_ids : list string) (gate : TaskNode) : TaskNode :=
  let gate' := set_owner None (set_status Queued gate) in
  set_depends_on (add_deps (n_depends_on gate') new_ids) gate'.

Definition wait_for (new_ids : list string) (n : TaskNode) : TaskNode :=
  set_depends_on (add_deps (n_depends_on n) new_ids) n.

(** [inject_from_gate] *)
Definition inject_from_gate (g : TaskGraph) (gate_id actor : string)
  (new_nodes : list NodeSpec) : result (TaskGraph * list string) DagError :=
  match get g gate_id with
  | None => Err (UnknownNode gate_id)
  | Some gate =>
      if negb (bool_decide (n_owner gate = Some actor)) then Err (NotOwner gate_id actor)
      else if negb (n_is_gate gate) then
        Err (GateMisuse ("node '" +:+ gate_id +:+ "' is not a gate; use expand_node to decompose work"))
      else if negb (bool_decide (n_status gate = Running)) then
        Err (InvalidState gate_id (n_status gate))
      else if is_nil new_nodes then
        Err (GateMisuse "inject_from_gate requires at least one new node")
      else
        let parent := n_parent gate in
        let? _ := new_batch_ids "inject_from_gate" g ∅ new_nodes in
        let? new_ids := collect_ids "inject_from_gate" new_nodes in
        let? _ := check_batch g (list_to_set new_ids) (zip new_nodes new_ids) in
        let staged := push_specs g new_nodes parent OriginGap in
        let staged' := update_node staged gate_id (requeue_gate new_ids) in
        let staged'' :=
          match parent with
          | Some parent_id => update_node staged' parent_id (wait_for new_ids)
          | None => staged'
          end in
        commit staged'' new_ids
  end.

(** [requeue_failed] *)
Definition requeue_failed (g : TaskGraph) (node_id : string) : result TaskGraph DagError :=
  match get g node_id with
  | None => Err (UnknownNode node_id)
  | Some node =>
      if negb (bool_decide (n_status node = Failed)) then
        Err (InvalidState node_id (n_status node))
      else Ok (update_node g node_id (λ n, set_owner None (set_status Queued n)))
  end.

(** ** Gate ids are fresh *)

Lemma gate_id_from_fresh fuel g base n c :
  gate_id_from fuel g base n = Some c → contains_node g c = false.
Proof.
  revert n. induction fuel as [|fuel IH]; intros n; simpl;
    destruct (contains_node g (base +:+ show_nat n)) eqn:E; try done.
  - by intros [= <-].
  - apply IH.
  - by intros [= <-].
Qed.

(** A search that fails has met [S fuel] different ids of the graph. *)
Lemma gate_id_from_None fuel g base n :
  gate_id_from fuel g base n = None →
  ∀ k, n ≤ k ≤ n + fuel → base +:+ show_nat k ∈ node_ids g.
Proof.
  revert n. induction fuel as [|fuel IH]; intros n; simpl;
    destruct (contains_node g (base +:+ show_nat n)) eqn:E; try done; intros Hn k Hk;
    apply contains_node_iff in E.
  - by replace k with n by lia.
  - destruct (decide (k = n)) as [->|]; [done|]. apply (IH (S n)); [done|lia].
Qed.

Lemma gate_id_from_total g base n : is_Some (gate_id_from (length (nodes g)) g base n).
Proof.
  destruct (gate_id_from _ _ _ _) as [c|] eqn:E; [by eexists|exfalso].
  pose proof (gate_id_from_None _ _ _ _ E) as Hin.
  set (cands := map (λ k, base +:+ show_nat k) (seq n (S (length (nodes g))))).
  assert (NoDup cands) as Hnd.
  { apply (NoDup_fmap_2_strong (λ k, base +:+ show_nat k)); [|apply NoDup_seq].
    intros k k' _ _ Hk%str_app_inj_l. by apply show_nat_inj. }
  assert (cands ⊆+ node_ids g) as Hsub.
  { apply NoDup_submseteq; [done|]. intros c (k & -> & Hk)%list_elem_of_fmap.
    apply elem_of_seq in Hk. apply Hin. lia. }
  apply submseteq_length in Hsub. unfold cands, node_ids in Hsub.
  rewrite !length_map, length_seq in Hsub. lia.
Qed.

Lemma unique_gate_id_new g id : unique_gate_id g id ∉ node_ids g.
Proof.
  rewrite <- contains_node_false. unfold unique_gate_id.
  destruct (contains_node g (id +:+ "::gate")) eqn:E; [|done].
  destruct (gate_id_from_total g (id +:+ "::gate") 2) as [c Hc]. rewrite Hc.
  by eapply gate_id_from_fresh.
Qed.

(** ** Batches *)

Lemma check_deps_intro g known node deps :
  (∀ d, d ∈ deps → d ∈ known ∨ d ∈ node_ids g) → check_deps g known node deps = Ok tt.
Proof.
  induction deps as [|dep deps IH]; intros H; cbn [check_deps]; [done|].
  assert (negb (bool_decide (dep ∈ known)) && negb (contains_node g dep) = false) as ->.
  { destruct (H dep ltac:(set_solver)) as [Hk|Hk].
    - by rewrite bool_decide_true.
    - apply contains_node_iff in Hk. rewrite Hk. apply andb_false_r. }
  apply IH. set_solver.
Qed.

Lemma check_batch_intro g known batch :
  (∀ spec id d, (spec, id) ∈ batch → d ∈ s_depends_on spec → d ∈ known ∨ d ∈ node_ids g) →
  check_batch g known batch = Ok tt.
Proof.
  induction batch as [|[spec id] batch IH]; intros H; cbn [check_batch]; [done|].
  rewrite check_deps_intro; [|intros d Hd; apply (H spec id d); [set_solver|done]].
  apply IH. intros s i d Hs. apply (H s i). set_solver.
Qed.

Lemma validated_spec_id_Ok spec op id :
  validated_spec_id spec op = Ok id → s_id spec = Some id ∧ is_empty (trim id) = false.
Proof.
  unfold validated_spec_id. destruct (s_id spec) as [i|]; [|done].
  destruct (is_empty (trim i)) eqn:E; [done|]. by intros [= ->].
Qed.

Lemma new_batch_ids_Ok op g seen specs ids :
  new_batch_ids op g seen specs = Ok ids →
  map s_id specs = map Some ids ∧ NoDup ids ∧ (∀ id, id ∈ ids → id ∉ node_ids g ∧ id ∉ seen).
Proof.
  revert seen ids. induction specs as [|spec specs IH]; intros seen ids; cbn [new_batch_ids].
  { intros [= <-]. split_and!; [done|constructor|set_solver]. }
  destruct (validated_spec_id spec op) as [id|] eqn:Ev; [|done].
  apply validated_spec_id_Ok in Ev as [Hid _].
  destruct (contains_node g id || bool_decide (id ∈ seen)) eqn:Ec; [done|].
  apply orb_false_iff in Ec as [Hc Hs]. apply contains_node_false in Hc.
  apply bool_decide_eq_false in Hs.
  destruct (new_batch_ids op g ({[id]} ∪ seen) specs) as [ids'|] eqn:Er; [|done].
  intros [= <-]. destruct (IH _ _ Er) as (Hm & Hnd & Hf). split_and!.
  - simpl. by rewrite Hid, Hm.
  - constructor; [|done]. intros Hin. destruct (Hf id Hin). set_solver.
  - intros i [->|Hi]%elem_of_cons; [done|]. destruct (Hf i Hi). set_solver.
Qed.

Lemma collect_ids_Ok op specs ids :
  collect_ids op specs = Ok ids → map s_id specs = map Some ids.
Proof.
  revert ids. induction specs as [|spec specs IH]; intros ids; cbn [collect_ids].
  { by intros [= <-]. }
  destruct (validated_spec_id spec op) as [id|] eqn:Ev; [|done].
  apply validated_spec_id_Ok in Ev as [Hid _].
  destruct (collect_ids op specs) as [ids'|]; [|done]. intros [= <-].
  simpl. by rewrite Hid, (IH ids').
Qed.

(** The second loop of [inject_from_gate] repeats the first one's answer. *)
Lemma collect_ids_new op g seen specs ids :
  new_batch_ids op g seen specs = Ok ids → collect_ids op specs = Ok ids.
Proof.
  revert seen ids. induction specs as [|spec specs IH]; intros seen ids;
    cbn [new_batch_ids collect_ids]; [done|].
  destruct (validated_spec_id spec op) as [id|]; [|done].
  destruct (_ || _); [done|].
  destruct (new_batch_ids op g ({[id]} ∪ seen) specs) as [ids'|] eqn:Er; [|done].
  intros [= <-]. by rewrite (IH _ _ Er).
Qed.

Lemma check_deps_Ok g known node deps :
  check_deps g known node deps = Ok tt →
  ∀ d, d ∈ deps → d ∈ known ∨ d ∈ node_ids g.
Proof.
  induction deps as [|dep deps IH]; cbn [check_deps]; [set_solver|].
  destruct (_ && _) eqn:E; [done|]. intros H d [->|Hd]%elem_of_cons; [|by apply IH].
  apply andb_false_iff in E as [E|E]; simp_bool; [by left|].
  right. by apply contains_node_iff.
Qed.

Lemma check_batch_Ok g known batch :
  check_batch g known batch = Ok tt →
  ∀ spec d, spec ∈ map fst batch → d ∈ s_depends_on spec → d ∈ known ∨ d ∈ node_ids g.
Proof.
  induction batch as [|[spec id] batch IH]; cbn [check_batch]; [set_solver|].
  destruct (check_deps g known id (s_depends_on spec)) as [[]|] eqn:E; [|done].
  intros H s d Hs Hd. simpl in Hs. apply elem_of_cons in Hs as [->|Hs]; [|by eapply IH].
  by eapply check_deps_Ok.
Qed.

Lemma spec_ids_default specs ids :
  map s_id specs = map Some ids → map (λ s, default "" (s_id s)) specs = ids.
Proof.
  revert ids. induction specs as [|s specs IH]; intros [|i ids]; simpl; try done.
  intros [= -> H]. by rewrite (IH _ H).
Qed.

Lemma length_spec_ids specs ids :
  map s_id specs = map Some ids → length specs = length ids.
Proof. intros H%(f_equal length). by rewrite !length_map in H. Qed.

Lemma map_fst_zip {A B} (l : list A) (k : list B) : length l = length k → map fst (zip l k) = l.
Proof. revert k. induction l as [|x l IH]; intros [|y k]; simpl; intros; try done. f_equal. auto. Qed.

(** The nodes a batch of specs becomes. *)
Definition batch_nodes (specs : list NodeSpec) (parent : option string) (origin : NodeOrigin)
  : list TaskNode := map (λ s, spec_to_node s parent origin) specs.

Lemma push_specs_nodes g specs parent origin :
  push_specs g specs parent origin
  = {| mode := mode g; nodes := nodes g ++ batch_nodes specs parent origin |}.
Proof.
  unfold push_specs. revert g. induction specs as [|s specs IH]; intros [m ns]; simpl.
  - by rewrite app_nil_r.
  - rewrite IH. simpl. by rewrite <- app_assoc.
Qed.

Lemma batch_node_ids specs parent origin ids :
  map s_id specs = map Some ids → map n_id (batch_nodes specs parent origin) = ids.
Proof.
  intros H%spec_ids_default. unfold batch_nodes. by rewrite map_map.
Qed.

Lemma elem_batch_nodes n specs parent origin :
  n ∈ batch_nodes specs parent origin ↔ ∃ s, s ∈ specs ∧ n = spec_to_node s parent origin.
Proof.
  unfold batch_nodes. change (map ?f specs) with (fmap (M:=list) f specs).
  rewrite list_elem_of_fmap. naive_solver.
Qed.

Lemma spec_to_node_deps s parent origin d :
  d ∈ n_depends_on (spec_to_node s parent origin) ↔ d ∈ s_depends_on s.
Proof. simpl. rewrite elem_of_dedup_first. set_solver. Qed.

Lemma commit_Ok {A} (staged g' : TaskGraph) (a b : A) :
  commit staged a = Ok (g', b) → g' = staged ∧ b = a ∧ acyclic staged.
Proof.
  unfold commit. destruct (cycle_nodes staged) as [|c l] eqn:E; simpl; [|done].
  intros [= <- <-]. by rewrite <- cycle_nodes_nil.
Qed.

(** ** Inversion of the operations *)

(** What the graph is extended with before the composite parent is updated. *)
Definition gate_suffix (m : Mode) (gid content : string) (kind : NodeKind) (node_id : string)
  (ids : list string) : list TaskNode :=
  if requires_gates m then [gate_node gid content kind (Some node_id) ids] else [].

Lemma expand_node_Ok g node_id actor children g' out :
  expand_node g node_id actor children = Ok (g', out) →
  ∃ n ids gid content kind,
    get g node_id = Some n ∧ n_owner n = Some actor ∧ n_is_gate n = false
    ∧ n_expanded n = false ∧ n_status n = Running ∧ children ≠ []
    ∧ child_ids out = ids ∧ gate_id out = (if requires_gates (mode g) then Some gid else None)
    ∧ map s_id children = map Some ids ∧ NoDup ids ∧ (∀ id, id ∈ ids → id ∉ node_ids g)
    ∧ gid ∉ node_ids g ∧ gid ∉ ids
    ∧ (∀ s d, s ∈ children → d ∈ s_depends_on s → d ∈ ids ∨ d ∈ node_ids g)
    ∧ g' = update_node
             {| mode := mode g;
                nodes := nodes g ++ batch_nodes children (Some node_id) OriginExpand
                         ++ gate_suffix (mode g) gid content kind node_id ids |}
             node_id
             (compose_parent (ids ++ if requires_gates (mode g) then [gid] else []))
    ∧ acyclic g'.
Proof.
  unfold expand_node. destruct (get g node_id) as [n|] eqn:Eg; [|done].
  destruct (negb (bool_decide _)) eqn:Eo; [done|].
  destruct (n_is_gate n) eqn:Egt; [done|].
  destruct (n_expanded n || _) eqn:Est; [done|].
  destruct (is_nil children) eqn:Ech; [done|].
  destruct (new_batch_ids "expand" g ∅ children) as [ids|] eqn:Eids; [|done].
  destruct (check_batch _ _ _) as [[]|] eqn:Ec; [|done].
  pose proof (new_batch_ids_Ok _ _ _ _ _ Eids) as (Hmap & Hnd & Hnew).
  rewrite push_specs_nodes. cbn [mode nodes].
  set (kd := gate_kind _).
  set (gid := unique_gate_id _ node_id).
  assert (gid ∉ node_ids g ∧ gid ∉ ids) as [Hg1 Hg2].
  { pose proof (unique_gate_id_new (push_specs g children (Some node_id) OriginExpand) node_id)
      as Hu. rewrite push_specs_nodes in Hu. unfold node_ids in Hu. cbn [nodes] in Hu.
    rewrite map_app, (batch_node_ids _ _ _ ids) in Hu by done. fold (node_ids g) in Hu.
    rewrite elem_of_app in Hu. split; intros ?; apply Hu; auto. }
  assert (∀ s d, s ∈ children → d ∈ s_depends_on s → d ∈ ids ∨ d ∈ node_ids g) as Hdeps.
  { intros s d Hs Hd. destruct (check_batch_Ok _ _ _ Ec s d) as [H|H]; [|done| |by right].
    - by rewrite map_fst_zip by (by apply length_spec_ids).
    - left. by apply elem_of_list_to_set in H. }
  apply negb_false_iff, bool_decide_eq_true in Eo. simp_bool.
  assert (children ≠ []) as Hne by (by intros ->).
  intros Hc. exists n, ids, gid, (gate_content kd node_id), kd. unfold gate_suffix.
  destruct (requires_gates (mode g)); apply commit_Ok in Hc as (-> & -> & Hac).
  - unfold push_node in *. cbn [mode nodes] in *. rewrite <- app_assoc in *.
    split_and!; try done. intros id Hid. by apply Hnew.
  - rewrite app_nil_r in *. rewrite !app_nil_r. split_and!; try done. intros id Hid. by apply Hnew.
Qed.

(** The graph an injection commits. *)
Definition inject_result (g : TaskGraph) (gate_id : string) (parent : option string)
  (new_nodes : list NodeSpec) (ids : list string) : TaskGraph :=
  let staged := {| mode := mode g; nodes := nodes g ++ batch_nodes new_nodes parent OriginGap |} in
  let staged' := update_node staged gate_id (requeue_gate ids) in
  match parent with
  | Some parent_id => update_node staged' parent_id (wait_for ids)
  | None => staged'
  end.

Lemma inject_from_gate_Ok g gate_id actor new_nodes g' ids :
  inject_from_gate g gate_id actor new_nodes = Ok (g', ids) →
  ∃ gate,
    get g gate_id = Some gate ∧ n_owner gate = Some actor ∧ n_is_gate gate = true
    ∧ n_status gate = Running ∧ new_nodes ≠ []
    ∧ map s_id new_nodes = map Some ids ∧ NoDup ids ∧ (∀ id, id ∈ ids → id ∉ node_ids g)
    ∧ (∀ s d, s ∈ new_nodes → d ∈ s_depends_on s → d ∈ ids ∨ d ∈ node_ids g)
    ∧ g' = inject_result g gate_id (n_parent gate) new_nodes ids
    ∧ acyclic g'.
Proof.
  unfold inject_from_gate. destruct (get g gate_id) as [gate|] eqn:Eg; [|done].
  destruct (negb (bool_decide (n_owner gate = _))) eqn:Eo; [done|].
  destruct (negb (n_is_gate gate)) eqn:Egt; [done|].
  destruct (negb (bool_decide (n_status gate = _))) eqn:Est; [done|].
  destruct (is_nil new_nodes) eqn:Ech; [done|].
  destruct (new_batch_ids _ g ∅ new_nodes) as [ids0|] eqn:Eids; [|done].
  pose proof (new_batch_ids_Ok _ _ _ _ _ Eids) as (Hmap & Hnd & Hnew).
  rewrite (collect_ids_new _ _ _ _ _ Eids).
  destruct (check_batch _ _ _) as [[]|] eqn:Ec; [|done].
  rewrite push_specs_nodes.
  assert (∀ s d, s ∈ new_nodes → d ∈ s_depends_on s → d ∈ ids0 ∨ d ∈ node_ids g) as Hdeps.
  { intros s d Hs Hd. destruct (check_batch_Ok _ _ _ Ec s d) as [H|H]; [|done| |by right].
    - by rewrite map_fst_zip by (by apply length_spec_ids).
    - left. by apply elem_of_list_to_set in H. }
  simp_bool. assert (new_nodes ≠ []) as Hne by (by intros ->).
  intros (-> & -> & Hac)%commit_Ok. exists gate. split_and!; try done.
  intros id Hid. by apply Hnew.
Qed.

Lemma complete_node_Ok g node_id actor a g' :
  complete_node g node_id actor a = Ok g' →
  ∃ n, get g node_id = Some n ∧ n_owner n = Some actor ∧ n_status n = Running
       ∧ validate_artifact (mode g) node_id (n_is_gate n) a = Ok tt
       ∧ (n_is_gate n && requires_gates (mode g) = true → validate_gate_pass g node_id a = Ok tt)
       ∧ g' = update_node g node_id (λ n, set_output (Some a) (set_status Done n)).
Proof.
  unfold complete_node. destruct (get g node_id) as [n|]; [|done].
  destruct (negb (bool_decide (n_owner n = _))) eqn:Eo; [done|].
  destruct (negb (bool_decide (n_status n = _))) eqn:Est; [done|].
  destruct (validate_artifact _ _ _ _) as [[]|] eqn:Ev; [|done].
  intros H. exists n. simp_bool.
  destruct (n_is_gate n && requires_gates (mode g)) eqn:Eg.
  - destruct (validate_gate_pass g node_id a) as [[]|] eqn:Ep; [|done].
    injection H as <-. done.
  - injection H as <-. done.
Qed.

Lemma fail_node_Ok g node_id actor g' :
  fail_node g node_id actor = Ok g' →
  ∃ n, get g node_id = Some n ∧ n_owner n = Some actor ∧ n_status n = Running
       ∧ g' = update_node g node_id (set_status Failed).
Proof.
  unfold fail_node. destruct (get g node_id) as [n|]; [|done].
  destruct (negb (bool_decide (n_owner n = _))) eqn:Eo; [done|].
  destruct (negb (bool_decide (n_status n = _))) eqn:Est; [done|].
  intros [= <-]. simp_bool. by exists n.
Qed.

Lemma requeue_failed_Ok g node_id g' :
  requeue_failed g node_id = Ok g' →
  ∃ n, get g node_id = Some n ∧ n_status n = Failed
       ∧ g' = update_node g node_id (λ n, set_owner None (set_status Queued n)).
Proof.
  unfold requeue_failed. destruct (get g node_id) as [n|]; [|done].
  destruct (negb (bool_decide (n_status n = _))) eqn:Est; [done|].
  intros [= <-]. simp_bool. by exists n.
Qed.

(** The specs of a seed that name no node of the graph. *)
Definition fresh_specs (g : TaskGraph) (specs : list NodeSpec) : list NodeSpec :=
  List.filter (λ s, negb (contains_node g (default "" (s_id s)))) specs.

Lemma get_contains g id :
  contains_node g id = match get g id with Some _ => true | None => false end.
Proof.
  destruct (get g id) eqn:E.
  - apply contains_node_iff, get_is_Some. by eexists.
  - apply contains_node_false. by apply get_None.
Qed.

Lemma stage_seed_Ok g staged specs g' :
  stage_seed g staged specs = Ok g' →
  g' = push_specs staged (fresh_specs g specs) None OriginSeed
  ∧ ∀ s n, s ∈ specs → get g (default "" (s_id s)) = Some n →
           seed_spec_matches_existing g n s = true.
Proof.
  revert staged. induction specs as [|s specs IH]; intros staged; cbn [stage_seed].
  { intros [= <-]. split; [done|]. set_solver. }
  unfold fresh_specs. cbn [List.filter]. rewrite get_contains. fold (fresh_specs g specs).
  destruct (get g (default "" (s_id s))) as [n|] eqn:Eg; cbn [negb].
  - destruct (seed_spec_matches_existing g n s) eqn:Em; [|done].
    intros (-> & Hall)%IH. split; [done|].
    intros s' n' [->|Hs]%elem_of_cons; [congruence|by apply Hall].
  - intros (-> & Hall)%IH. split; [done|].
    intros s' n' [->|Hs]%elem_of_cons; [congruence|by apply Hall].
Qed.

(** A batch that is already in the graph stages nothing. *)
Lemma stage_seed_replay g staged specs :
  (∀ s, s ∈ specs → ∃ n, get g (default "" (s_id s)) = Some n
                         ∧ seed_spec_matches_existing g n s = true) →
  stage_seed g staged specs = Ok staged.
Proof.
  induction specs as [|s specs IH]; intros H; cbn [stage_seed]; [done|].
  destruct (H s ltac:(set_solver)) as (n & -> & ->). apply IH. set_solver.
Qed.

(** The state of the first loop of [seed]. *)
Definition indexes_inv (unique : list NodeSpec) (indexes : gmap string nat) : Prop :=
  ∃ ids, map s_id unique = map Some ids ∧ NoDup ids
         ∧ ∀ id i, indexes !! id = Some i ↔ ids !! i = Some id.

Lemma indexes_inv_push unique indexes spec id :
  indexes_inv unique indexes → s_id spec = Some id → indexes !! id = None →
  indexes_inv (unique ++ [spec]) (<[id := length unique]> indexes).
Proof.
  intros (ids & Hm & Hnd & Hi) Hid Hn. exists (ids ++ [id]).
  pose proof (length_spec_ids _ _ Hm) as Hlen.
  assert (id ∉ ids) as Hfresh.
  { intros (i & Hin)%list_elem_of_lookup. apply Hi in Hin. congruence. }
  split_and!.
  - rewrite !map_app, Hm. simpl. by rewrite Hid.
  - apply NoDup_app. split_and!; [done| |apply NoDup_singleton]. set_solver.
  - intros id' i. destruct (decide (id = id')) as [<-|Hne].
    + rewrite lookup_insert_eq, Hlen. split.
      * intros [= <-]. by rewrite lookup_app_r, Nat.sub_diag by lia.
      * intros Hl. f_equal. destruct (decide (i < length ids)) as [Hlt|Hge].
        -- rewrite lookup_app_l in Hl by done. apply list_elem_of_lookup_2 in Hl. done.
        -- rewrite lookup_app_r in Hl by lia.
           apply lookup_lt_Some in Hl. simpl in Hl. lia.
    + rewrite lookup_insert_ne, Hi by done. split.
      * intros Hl. rewrite lookup_app_l; [done|]. by eapply lookup_lt_Some.
      * intros Hl. destruct (decide (i < length ids)) as [Hlt|Hge].
        -- by rewrite lookup_app_l in Hl.
        -- rewrite lookup_app_r in Hl by lia.
           apply list_elem_of_lookup_2 in Hl. set_solver.
Qed.

(** After the first loop the batch has unique ids, [indexes] knows exactly them, and every
    spec of the request is an exact replay of a kept one. *)
Lemma collapse_specs_Ok specs unique indexes unique' indexes' :
  indexes_inv unique indexes →
  collapse_specs specs unique indexes = Ok (unique', indexes') →
  indexes_inv unique' indexes' ∧ (∀ s, s ∈ unique' → s ∈ unique ∨ s ∈ specs).
Proof.
  revert unique indexes. induction specs as [|spec specs IH]; intros unique indexes Hinv;
    cbn [collapse_specs]; [intros [= <- <-]; set_solver|].
  destruct (validated_spec_id spec "seed") as [id|] eqn:Ev; [|done].
  apply validated_spec_id_Ok in Ev as [Hid _].
  destruct (indexes !! id) as [i|] eqn:Ei.
  - destruct (unique !! i) as [e|]; [|done]. destruct (seed_specs_equivalent e spec); [|done].
    intros H. destruct (IH _ _ Hinv H) as [? Hs]. split; [done|].
    intros s Hs'. destruct (Hs s Hs'); set_solver.
  - intros H. destruct (IH _ _ (indexes_inv_push _ _ _ _ Hinv Hid Ei) H) as [? Hs].
    split; [done|]. intros s Hs'. destruct (Hs s Hs'); set_solver.
Qed.

Lemma indexes_inv_empty : indexes_inv [] ∅.
Proof.
  exists []. split_and!; [done|constructor|]. intros id i. by rewrite lookup_empty, lookup_nil.
Qed.

(** The staged graph of a seed, before the root gate. *)
Definition seed_staged (g : TaskGraph) (specs : list NodeSpec) : TaskGraph :=
  {| mode := mode g; nodes := nodes g ++ batch_nodes (fresh_specs g specs) None OriginSeed |}.

Lemma seed_Ok g specs g' :
  seed g specs = Ok g' →
  ∃ unique indexes ids,
    collapse_specs specs [] ∅ = Ok (unique, indexes)
    ∧ map s_id unique = map Some ids ∧ NoDup ids ∧ (∀ s, s ∈ unique → s ∈ specs)
    ∧ (∀ s d, s ∈ unique → d ∈ s_depends_on s → d ∈ ids ∨ d ∈ node_ids g)
    ∧ (∀ s n, s ∈ unique → get g (default "" (s_id s)) = Some n →
              seed_spec_matches_existing g n s = true)
    ∧ g' = (if requires_gates (mode g) then ensure_root_gate (seed_staged g unique)
            else seed_staged g unique)
    ∧ acyclic g'.
Proof.
  unfold seed. destruct (collapse_specs specs [] ∅) as [[unique indexes]|] eqn:Ec; [|done].
  destruct (collapse_specs_Ok _ _ _ _ _ indexes_inv_empty Ec) as [(ids & Hm & Hnd & Hi) Hs].
  destruct (check_batch _ _ _) as [[]|] eqn:Eb; [|done].
  destruct (stage_seed g g unique) as [staged|] eqn:Est; [|done].
  apply stage_seed_Ok in Est as [-> Hall]. rewrite push_specs_nodes. cbn [mode].
  fold (seed_staged g unique).
  destruct (commit _ tt) as [[g1 []]|] eqn:Ecm; [|done].
  apply commit_Ok in Ecm as (-> & _ & Hac). intros [= <-].
  exists unique, indexes, ids. split_and!; try done.
  - intros s Hsu. destruct (Hs s Hsu); set_solver.
  - intros s d Hsu Hd. destruct (check_batch_Ok _ _ _ Eb s d) as [H|H]; [|done| |by right].
    + rewrite map_map. simpl. by rewrite map_id.
    + left. apply elem_of_dom in H as [i H]. apply Hi in H. by eapply list_elem_of_lookup_2.
Qed.

(** The ids a seed adds are new and distinct. *)
Lemma fresh_specs_ids g specs ids :
  map s_id specs = map Some ids → NoDup ids →
  ∃ new, map s_id (fresh_specs g specs) = map Some new ∧ NoDup new
         ∧ ∀ id, id ∈ new ↔ id ∈ ids ∧ id ∉ node_ids g.
Proof.
  unfold fresh_specs. revert ids. induction specs as [|s specs IH]; intros [|id ids]; try done.
  - intros _ _. exists []. split_and!; [done|constructor|set_solver].
  - intros [= Hs Hm] [Hid Hnd]%NoDup_cons. destruct (IH ids Hm Hnd) as (new & Hn & Hnn & Hiff).
    cbn [List.filter]. rewrite Hs. change (default "" (Some id)) with id.
    destruct (contains_node g id) eqn:E; cbn [negb].
    + apply contains_node_iff in E. exists new. split_and!; [done..|]. set_solver.
    + apply contains_node_false in E. exists (id :: new). split_and!.
      * simpl. by rewrite Hs, Hn.
      * constructor; [|done]. by rewrite Hiff; intros [? ?].
      * set_solver.
Qed.
