(* ===== verification/DagSchedule.v ===== *)
(** * [arterm-plan]: scheduling and the driver (crates/arterm-plan/src/dag/schedule.rs, sim.rs)

    The ready set, dispatch, the hydration of a node's input from its finished
    dependencies, and the deterministic driver loop, with the worker as a state-passing
    function. *)

From S2P Require Export DagOps.

(** ** The ready set and dispatch *)

(** [deps_satisfied] *)
Definition deps_satisfied (g : TaskGraph) (n : TaskNode) : bool :=
  forallb (λ dep, match get g dep with Some d => is_done d | None => false end)
    (n_depends_on n).

Definition is_queued (n : TaskNode) : bool :=
  match n_status n with Queued => true | _ => false end.

Definition dispatchable (g : TaskGraph) (n : TaskNode) : bool :=
  is_queued n && deps_satisfied g n.

(** [a.priority.cmp(&b.priority).then_with(|| a.id.cmp(&b.id))] is not [Greater]. *)
Definition ready_leb (a b : TaskNode) : bool :=
  N.ltb (n_priority a) (n_priority b)
  || (N.eqb (n_priority a) (n_priority b) && String.leb (n_id a) (n_id b)).

Definition ready_nodes (g : TaskGraph) : list TaskNode :=
  sort_by ready_leb (List.filter (dispatchable g) (nodes g)).

(** [dispatch]; the flag is the returned [bool]. *)
Definition dispatch (g : TaskGraph) (node_id worker : string) : TaskGraph * bool :=
  match get g node_id with
  | Some n =>
      if dispatchable g n then
        (update_node g node_id (λ n, set_status Running (set_owner (Some worker) n)), true)
      else (g, false)
  | None => (g, false)
  end.

(** ** Dataflow *)

Definition kind_label (k : NodeKind) : string :=
  match k with
  | Explore => "explore" | Implement => "implement" | Verify => "verify" | Fix => "fix"
  | Synthesize => "synthesize" | Critique => "critique"
  end.

Definition input_section (dep : TaskNode) : string :=
  nl +:+ match n_output dep with
         | Some a => render_section a (n_id dep) (kind_label (n_kind dep))
         | None => "## " +:+ n_id dep +:+ " (" +:+ kind_label (n_kind dep) +:+ ")" +:+ nl
         end.

Definition upstream (g : TaskGraph) (n : TaskNode) : list TaskNode :=
  List.filter is_done (omap (get g) (n_depends_on n)).

(** [assemble_input] *)
Definition assemble_input (g : TaskGraph) (node_id : string) : string :=
  match get g node_id with
  | None => ""
  | Some n =>
      let up := upstream g n in
      if is_nil up then n_content n
      else
        foldl (λ out dep, out +:+ input_section dep)
          (n_content n +:+ nl +:+ nl +:+ "# Inputs from completed dependencies" +:+ nl) up
  end.

(** ** The driver *)

Inductive WorkerAction :=
  | ActComplete (a : HandoffArtifact)
  | ActExpand (children : list NodeSpec)
  | ActInjectGap (new_nodes : list NodeSpec)
  | ActFail.

(** The [FnMut] worker: its captured state is passed along. *)
Definition Worker (W : Type) : Type := W → string → NodeKind → string → WorkerAction * W.

Record SimReport := { steps : nat; completed : nat; failed : nat; stalled : bool }.

(** [report] *)
Definition report (g : TaskGraph) (steps : nat) (stalled : bool) : SimReport :=
  {| steps := steps; completed := length (List.filter is_done (nodes g));
     failed := length (List.filter is_failed (nodes g)); stalled := stalled |}.

(** The mutation an action asks for. *)
Definition apply_action (g : TaskGraph) (node_id worker_name : string) (act : WorkerAction)
  : result TaskGraph DagError :=
  match act with
  | ActComplete a => complete_node g node_id worker_name a
  | ActExpand children => let? (g', _) := expand_node g node_id worker_name children in Ok g'
  | ActInjectGap new_nodes =>
      let? (g', _) := inject_from_gate g node_id worker_name new_nodes in Ok g'
  | ActFail => fail_node g node_id worker_name
  end.

(** The inner loop of [run] over one round of ready nodes; [inr] is the early return of
    [?], with the graph as the failed round left it. *)
Fixpoint run_round {W} (worker : Worker W) (max_workers : nat) (idx : nat)
  (ready : list (string * NodeKind)) (g : TaskGraph) (w : W) (steps : nat)
  : (TaskGraph * W * nat) + (TaskGraph * DagError) :=
  match ready with
  | [] => inl (g, w, steps)
  | (node_id, kind) :: ready' =>
      let worker_name := "w" +:+ show_nat (idx mod max_workers) in
      let '(g1, dispatched) := dispatch g node_id worker_name in
      if negb dispatched then run_round worker max_workers (S idx) ready' g1 w steps
      else
        let '(act, w') := worker w node_id kind (assemble_input g1 node_id) in
        match apply_action g1 node_id worker_name act with
        | Err e => inr (g1, e)
        | Ok g2 => run_round worker max_workers (S idx) ready' g2 w' (S steps)
        end
  end.

(** [run]: [None] when [fuel] rounds were not enough; [S max_steps] rounds are
    ([run_loop_total]). *)
Fixpoint run_loop {W} (worker : Worker W) (max_workers max_steps fuel : nat)
  (g : TaskGraph) (w : W) (steps : nat)
  : option (TaskGraph * result SimReport DagError) :=
  if all_terminal g then Some (g, Ok (report g steps false))
  else if max_steps <=? steps then Some (g, Ok (report g steps true))
  else
    let ready := take max_workers (map (λ n, (n_id n, n_kind n)) (ready_nodes g)) in
    if is_nil ready then Some (g, Ok (report g steps true))
    else
      match fuel with
      | 0 => None
      | S fuel' =>
          match run_round worker max_workers 0 ready g w steps with
          | inr (g', e) => Some (g', Err e)
          | inl (g', w', steps') => run_loop worker max_workers max_steps fuel' g' w' steps'
          end
      end.

Definition run {W} (g : TaskGraph) (max_workers max_steps : nat) (worker : Worker W) (w : W)
  : option (TaskGraph * result SimReport DagError) :=
  run_loop worker max_workers max_steps (S max_steps) g w 0.

(** ** The scripted artifacts *)

(** [deep_artifact] *)
Definition deep_artifact (findings : string) : HandoffArtifact :=
  {| h_findings := findings; h_evidence := []; h_edge_cases_considered := [];
     h_validation := None; h_open_questions := []; h_confidence := Some "high";
     h_what_i_did_not_check := ["nothing material; covered the stated scope"] |}.

(** [rest.split(" (").next()]: the text before the first separator. *)
Definition before_sep (sep s : string) : string :=
  match str_find sep s with Some n => str_take n s | None => s end.

(** [gate_pass_artifact] *)
Definition gate_pass_artifact (input : string) : HandoffArtifact :=
  let audited := map (before_sep " (") (omap (strip_prefix "## ") (lines input)) in
  brief
    (if is_nil audited then "gate passed: no audited nodes in scope"
     else "gate passed; audited each node: " +:+ join ", " audited +:+ ". No gaps remain.").
