(* ===== verification/DagInvariant.v ===== *)
(** * [arterm-plan]: what the mutations keep true

    The step relation of the engine (every operation of ops.rs and [dispatch]), the
    structural invariant of the graph and its preservation. *)

From S2P Require Export DagSchedule.

(** ** The step relation *)

Inductive step : TaskGraph → TaskGraph → Prop :=
  | step_seed g specs g' : seed g specs = Ok g' → step g g'
  | step_expand g id actor children g' out :
      expand_node g id actor children = Ok (g', out) → step g g'
  | step_complete g id actor a g' : complete_node g id actor a = Ok g' → step g g'
  | step_fail g id actor g' : fail_node g id actor = Ok g' → step g g'
  | step_inject g id actor new_nodes g' ids :
      inject_from_gate g id actor new_nodes = Ok (g', ids) → step g g'
  | step_requeue g id g' : requeue_failed g id = Ok g' → step g g'
  | step_dispatch g id worker g' : dispatch g id worker = (g', true) → step g g'.

(** The graphs the engine can build in a mode. *)
Definition reachable (m : Mode) (g : TaskGraph) : Prop := rtc step (new_graph m) g.

(** ** The structural invariant *)

Record Struct (g : TaskGraph) : Prop := {
  st_nodup : NoDup (node_ids g);
  st_deps : ∀ n d, n ∈ nodes g → d ∈ n_depends_on n → d ∈ node_ids g;
  st_acyclic : acyclic g;
  st_parent : ∀ n p, n ∈ nodes g → n_parent n = Some p →
    ∃ pn, pn ∈ nodes g ∧ n_id pn = p ∧ n_expanded pn = true ∧ n_is_gate pn = false
          ∧ n_id n ∈ n_depends_on pn;
  st_gate_deps : ∀ n dn, n ∈ nodes g → n_is_gate n = true → dn ∈ nodes g →
    n_id dn ∈ n_depends_on n → n_is_gate dn = false;
  st_light : mode g = Light → ∀ n, n ∈ nodes g → n_is_gate n = false;
  st_root_gate : mode g = Deep → ∀ n, n ∈ nodes g → is_root_work n = true →
    ∃ rg, rg ∈ nodes g ∧ is_root_gate rg = true ∧ n_id n ∈ n_depends_on rg;
  st_gate_unique : ∀ r1 r2, r1 ∈ nodes g → r2 ∈ nodes g →
    n_is_gate r1 = true → n_is_gate r2 = true → n_parent r1 = n_parent r2 → r1 = r2;
  st_audited : ∀ n gt, n ∈ nodes g → gt ∈ nodes g → n_is_gate n = false →
    n_is_gate gt = true → n_parent n = n_parent gt → n_id n ∈ n_depends_on gt;
  st_composite : mode g = Deep → ∀ n, n ∈ nodes g → n_expanded n = true →
    ∃ gt, gt ∈ nodes g ∧ n_is_gate gt = true ∧ n_parent gt = Some (n_id n);
}.

(** The fields the structure is about; [complete_node], [fail_node], [requeue_failed] and
    [dispatch] leave them alone. *)
Definition skeleton (n : TaskNode) : string * option string * list string * bool * bool :=
  (n_id n, n_parent n, n_depends_on n, n_is_gate n, n_expanded n).

Definition keeps_skeleton (f : TaskNode → TaskNode) : Prop := ∀ n, skeleton (f n) = skeleton n.

Lemma skeleton_inv n n' :
  skeleton n = skeleton n' →
  n_id n = n_id n' ∧ n_parent n = n_parent n' ∧ n_depends_on n = n_depends_on n'
  ∧ n_is_gate n = n_is_gate n' ∧ n_expanded n = n_expanded n'.
Proof. unfold skeleton. intros [= ? ? ? ? ?]. done. Qed.

Lemma skeleton_nodes g id f :
  keeps_skeleton f → map skeleton (nodes (update_node g id f)) = map skeleton (nodes g).
Proof.
  intros Hf. simpl. induction (nodes g) as [|n l IH]; simpl; [done|].
  destruct (has_id id n); simpl; [by rewrite Hf|by rewrite IH].
Qed.

Section same_skeleton.
Context (g g' : TaskGraph).
Hypothesis same_mode : mode g' = mode g.
Hypothesis same_nodes : map skeleton (nodes g') = map skeleton (nodes g).

Lemma skeleton_ids : node_ids g' = node_ids g.
Proof using same_nodes.
  unfold node_ids. apply (f_equal (map (λ k, k.1.1.1.1))) in same_nodes.
  rewrite !map_map in same_nodes. exact same_nodes.
Qed.

Lemma skeleton_back n' : n' ∈ nodes g' → ∃ n, n ∈ nodes g ∧ skeleton n = skeleton n'.
Proof using same_nodes.
  intros Hn. assert (skeleton n' ∈ map skeleton (nodes g)) as Hin.
  { rewrite <- same_nodes. by apply (list_elem_of_fmap_2 skeleton). }
  apply (list_elem_of_fmap skeleton) in Hin as (n & ? & ?). by exists n.
Qed.

Lemma skeleton_forth n : n ∈ nodes g → ∃ n', n' ∈ nodes g' ∧ skeleton n' = skeleton n.
Proof using same_nodes.
  intros Hn. assert (skeleton n ∈ map skeleton (nodes g')) as Hin.
  { rewrite same_nodes. by apply (list_elem_of_fmap_2 skeleton). }
  apply (list_elem_of_fmap skeleton) in Hin as (n' & ? & ?). by exists n'.
Qed.
End same_skeleton.

Lemma is_root_work_iff n : is_root_work n = true ↔ n_parent n = None ∧ n_is_gate n = false.
Proof. unfold is_root_work. rewrite andb_true_iff, bool_decide_eq_true, negb_true_iff. done. Qed.

Lemma is_root_gate_iff n : is_root_gate n = true ↔ n_is_gate n = true ∧ n_parent n = None.
Proof. unfold is_root_gate. by rewrite andb_true_iff, bool_decide_eq_true. Qed.

Lemma dep_edge_iff g d c :
  dep_edge g d c ↔ d ∈ node_ids g ∧ ∃ n, n ∈ nodes g ∧ n_id n = c ∧ d ∈ n_depends_on n.
Proof. done. Qed.

Lemma node_unique g n n' :
  NoDup (node_ids g) → n ∈ nodes g → n' ∈ nodes g → n_id n = n_id n' → n = n'.
Proof.
  intros Hnd Hn Hn' Hid. apply (get_elem g) in Hn, Hn'; [|done..]. rewrite Hid in Hn. congruence.
Qed.

Lemma skeleton_dep_edge g g' :
  map skeleton (nodes g') = map skeleton (nodes g) → ∀ a b, dep_edge g a b ↔ dep_edge g' a b.
Proof.
  intros Hs a b. unfold dep_edge. rewrite (skeleton_ids _ _ Hs).
  split; intros (Ha & n & Hn & <- & Hd); (split; [done|]).
  - destruct (skeleton_forth _ _ Hs n Hn) as (n' & Hn' & (? & _ & ? & _)%skeleton_inv).
    exists n'. split_and!; congruence.
  - destruct (skeleton_back _ _ Hs n Hn) as (n' & Hn' & (? & _ & ? & _)%skeleton_inv).
    exists n'. split_and!; congruence.
Qed.

Lemma Struct_same_skeleton g g' :
  mode g' = mode g → map skeleton (nodes g') = map skeleton (nodes g) → Struct g → Struct g'.
Proof.
  intros Hm Hs [Hnd Hdeps Hac Hpar Hgd Hli Hrg Hru Hau Hco].
  pose proof (skeleton_ids _ _ Hs) as Hids.
  pose proof (skeleton_back _ _ Hs) as Hback.
  pose proof (skeleton_forth _ _ Hs) as Hforth.
  assert (NoDup (node_ids g')) as Hnd' by (by rewrite Hids).
  pose proof (skeleton_dep_edge _ _ Hs) as He.
  split.
  - done.
  - intros n' d Hn' Hd. destruct (Hback n' Hn') as (n & Hn & (_ & _ & E & _)%skeleton_inv).
    rewrite Hids. apply (Hdeps n); [done|]. by rewrite E.
  - intros c Hc. rewrite Hids in Hc. eapply Acc_iff; [exact He|]. by apply Hac.
  - intros n' p Hn' Hp. destruct (Hback n' Hn') as (n & Hn & (? & ? & _)%skeleton_inv).
    destruct (Hpar n p) as (pn & Hpn & ? & ? & ? & ?); [done|congruence|].
    destruct (Hforth pn Hpn) as (pn' & Hpn' & (? & _ & E & ? & ?)%skeleton_inv).
    exists pn'. split_and!; congruence.
  - intros n' dn' Hn' Hg Hdn' Hd.
    destruct (Hback n' Hn') as (n & Hn & (_ & _ & E & ? & _)%skeleton_inv).
    destruct (Hback dn' Hdn') as (dn & Hdn & (E2 & _ & _ & <- & _)%skeleton_inv).
    apply (Hgd n dn); [done|congruence|done|]. rewrite E, E2. done.
  - intros Hl n' Hn'. destruct (Hback n' Hn') as (n & Hn & (_ & _ & _ & <- & _)%skeleton_inv).
    apply Hli; congruence.
  - intros Hd n' Hn' Hw. destruct (Hback n' Hn') as (n & Hn & (E & ? & _ & ? & _)%skeleton_inv).
    apply is_root_work_iff in Hw as [? ?].
    destruct (Hrg ltac:(congruence) n Hn) as (rg & Hr & [? ?]%is_root_gate_iff & Hin).
    { apply is_root_work_iff. split; congruence. }
    destruct (Hforth rg Hr) as (rg' & Hr' & (_ & ? & E3 & ? & _)%skeleton_inv).
    exists rg'. split_and!; [done| |]; [|rewrite E3; congruence].
    apply is_root_gate_iff. split; congruence.
  - intros r1' r2' H1 H2 Hg1 Hg2 Hpp.
    destruct (Hback r1' H1) as (r1 & Hr1 & (E1 & ? & _ & ? & _)%skeleton_inv).
    destruct (Hback r2' H2) as (r2 & Hr2 & (E2 & ? & _ & ? & _)%skeleton_inv).
    apply (node_unique g'); try done. rewrite <- E1, <- E2. f_equal.
    apply Hru; try done; congruence.
  - intros n' gt' Hn' Hgt' Hg1 Hg2 Hpp.
    destruct (Hback n' Hn') as (n & Hn & (E1 & ? & _ & ? & _)%skeleton_inv).
    destruct (Hback gt' Hgt') as (gt & Hgt & (_ & ? & E2 & ? & _)%skeleton_inv).
    rewrite <- E1, <- E2. apply Hau; try done; congruence.
  - intros Hd n' Hn' He'.
    destruct (Hback n' Hn') as (n & Hn & (? & _ & _ & _ & ?)%skeleton_inv).
    destruct (Hco ltac:(congruence) n Hn) as (gt & Hgt & ? & ?); [congruence|].
    destruct (Hforth gt Hgt) as (gt' & Hgt' & (_ & ? & _ & ? & _)%skeleton_inv).
    exists gt'. split_and!; congruence.
Qed.

(** There is at most one root gate. *)
Lemma st_root_unique g (S : Struct g) r1 r2 :
  r1 ∈ nodes g → r2 ∈ nodes g →
  is_root_gate r1 = true → is_root_gate r2 = true → r1 = r2.
Proof.
  intros H1 H2 [? ?]%is_root_gate_iff [? ?]%is_root_gate_iff.
  apply (st_gate_unique _ S); congruence.
Qed.

Lemma Struct_update g id f : keeps_skeleton f → Struct g → Struct (update_node g id f).
Proof. intros Hf. apply Struct_same_skeleton; [done|]. by apply skeleton_nodes. Qed.

Lemma Struct_new m : Struct (new_graph m).
Proof. split; simpl; try set_solver. constructor. Qed.

(** ** Growth

    [seed], [expand_node] and [inject_from_gate] all change a graph the same way: every old
    node [n] becomes [h n], with its identity kept and its dependencies extended, and a
    batch [N] of new nodes is appended.  What the structure needs of the batch is stated
    once. *)
Record Batch (g : TaskGraph) (N : list TaskNode) : Prop := {
  ba_nodup : NoDup (map n_id N);
  ba_fresh : ∀ id, id ∈ map n_id N → id ∉ node_ids g;
  ba_deps : ∀ n d, n ∈ N → d ∈ n_depends_on n → d ∈ node_ids g ∨ d ∈ map n_id N;
  ba_light : mode g = Light → ∀ n, n ∈ N → n_is_gate n = false;
  ba_idle : ∀ n, n ∈ N → n_status n = Queued ∧ n_owner n = None ∧ n_expanded n = false;
}.

Record Growth (g g' : TaskGraph) (h : TaskNode → TaskNode) (N : list TaskNode) : Prop := {
  gr_mode : mode g' = mode g;
  gr_nodes : nodes g' = map h (nodes g) ++ N;
  gr_same : ∀ n, n_id (h n) = n_id n ∧ n_parent (h n) = n_parent n
                 ∧ n_is_gate (h n) = n_is_gate n;
  gr_mono : ∀ n d, d ∈ n_depends_on n → d ∈ n_depends_on (h n);
  gr_expanded_mono : ∀ n, n_expanded n = true → n_expanded (h n) = true;
  gr_batch : Batch g N;
  gr_old_deps : ∀ n d, n ∈ nodes g → d ∈ n_depends_on (h n) →
    d ∈ n_depends_on n ∨ ∃ dn, dn ∈ N ∧ n_id dn = d ∧ (n_is_gate n = true → n_is_gate dn = false);
  gr_new_gate_deps : ∀ n d dn, n ∈ N → n_is_gate n = true → d ∈ n_depends_on n →
    dn ∈ nodes g' → n_id dn = d → n_is_gate dn = false;
  gr_new_parent : ∀ n p, n ∈ N → n_parent n = Some p →
    ∃ pn, pn ∈ nodes g ∧ n_id pn = p ∧ n_expanded (h pn) = true ∧ n_is_gate pn = false
          ∧ n_id n ∈ n_depends_on (h pn);
  gr_new_root : mode g = Deep → ∀ n, n ∈ N → is_root_work n = true →
    ∃ rg, rg ∈ nodes g' ∧ is_root_gate rg = true ∧ n_id n ∈ n_depends_on rg;
  gr_gate_unique : ∀ r1 r2, r1 ∈ N → n_is_gate r1 = true →
    r2 ∈ nodes g' → n_is_gate r2 = true → n_parent r2 = n_parent r1 → r2 = r1;
  gr_audited : ∀ n gt, n ∈ nodes g' → gt ∈ nodes g' → n ∈ N ∨ gt ∈ N → n_is_gate n = false →
    n_is_gate gt = true → n_parent n = n_parent gt → n_id n ∈ n_depends_on gt;
  gr_composite : mode g = Deep → ∀ n, n ∈ nodes g → n_expanded (h n) = true →
    n_expanded n = true ∨ ∃ gt, gt ∈ N ∧ n_is_gate gt = true ∧ n_parent gt = Some (n_id n);
  gr_acyclic : acyclic g';
}.

Section growth.
Context {g g' : TaskGraph} {h : TaskNode → TaskNode} {N : list TaskNode}.
Hypothesis G : Growth g g' h N.

Lemma growth_elem n' : n' ∈ nodes g' ↔ (∃ n, n ∈ nodes g ∧ n' = h n) ∨ n' ∈ N.
Proof using G.
  rewrite (gr_nodes _ _ _ _ G), elem_of_app.
  change (map h (nodes g)) with (fmap (M:=list) h (nodes g)).
  rewrite list_elem_of_fmap. naive_solver.
Qed.

Lemma growth_ids : node_ids g' = node_ids g ++ map n_id N.
Proof using G.
  unfold node_ids. rewrite (gr_nodes _ _ _ _ G), map_app, map_map. f_equal.
  apply map_ext. intros n. apply (gr_same _ _ _ _ G).
Qed.

Lemma growth_nodup : NoDup (node_ids g) → NoDup (node_ids g').
Proof using G.
  intros Hnd. rewrite growth_ids. apply NoDup_app. split_and!; [done| |apply (ba_nodup _ _ (gr_batch _ _ _ _ G))].
  intros id Hid Hin. by apply (ba_fresh _ _ (gr_batch _ _ _ _ G) id).
Qed.

Lemma growth_old n : n ∈ nodes g → h n ∈ nodes g'.
Proof using G. intros Hn. apply growth_elem. eauto. Qed.

Lemma growth_new n : n ∈ N → n ∈ nodes g'.
Proof using G. intros Hn. apply growth_elem. eauto. Qed.

Lemma growth_root_gate n : is_root_gate (h n) = is_root_gate n.
Proof using G. unfold is_root_gate. by destruct (gr_same _ _ _ _ G n) as (_ & -> & ->). Qed.

Lemma growth_root_work n : is_root_work (h n) = is_root_work n.
Proof using G. unfold is_root_work. by destruct (gr_same _ _ _ _ G n) as (_ & -> & ->). Qed.

Lemma growth_parent : Struct g → ∀ n p, n ∈ nodes g' → n_parent n = Some p →
  ∃ pn, pn ∈ nodes g' ∧ n_id pn = p ∧ n_expanded pn = true ∧ n_is_gate pn = false
        ∧ n_id n ∈ n_depends_on pn.
Proof using G.
  intros S n p [(n0 & Hn0 & ->)|Hn]%growth_elem Hp; pose proof (gr_same _ _ _ _ G) as Hsame.
  - destruct (Hsame n0) as (Hi & Hq & _). rewrite Hi. rewrite Hq in Hp.
    destruct (st_parent _ S n0 p Hn0 Hp) as (pn & Hpn & Hid & He & Hg & Hin).
    destruct (Hsame pn) as (Hi' & _ & Hg').
    exists (h pn). split_and!; [by apply growth_old|congruence| |congruence|].
    + by apply (gr_expanded_mono _ _ _ _ G).
    + by apply (gr_mono _ _ _ _ G).
  - destruct (gr_new_parent _ _ _ _ G n p Hn Hp) as (pn & Hpn & Hid & He & Hg & Hin).
    destruct (Hsame pn) as (Hi' & _ & Hg').
    exists (h pn). split_and!; [by apply growth_old|congruence|done|congruence|done].
Qed.

Lemma growth_gate_deps : Struct g → ∀ n dn, n ∈ nodes g' → n_is_gate n = true → dn ∈ nodes g' →
  n_id dn ∈ n_depends_on n → n_is_gate dn = false.
Proof using G.
  intros S n dn [(n0 & Hn0 & ->)|Hn]%growth_elem Hg Hdn Hd; [|by eapply gr_new_gate_deps].
  pose proof (gr_same _ _ _ _ G) as Hsame. destruct (Hsame n0) as (_ & _ & Hg0).
  rewrite Hg0 in Hg. destruct (gr_old_deps _ _ _ _ G n0 _ Hn0 Hd) as [Hd0|(dn1 & Hdn1 & Hid & Hng)].
  - apply growth_elem in Hdn as [(dn0 & Hdn0 & ->)|Hdn].
    + destruct (Hsame dn0) as (Hi & _ & ->). rewrite Hi in Hd0. by apply (st_gate_deps _ S n0 dn0).
    + exfalso. apply (ba_fresh _ _ (gr_batch _ _ _ _ G) (n_id dn)); [by apply elem_ids|].
      by apply (st_deps _ S n0).
  - rewrite (node_unique g' dn dn1); [by apply Hng|apply growth_nodup, S|done| |done].
    by apply growth_new.
Qed.

Lemma growth_has_gate : Struct g → mode g = Deep → ∀ n, n ∈ nodes g' → n_expanded n = true →
  ∃ gt, gt ∈ nodes g' ∧ n_is_gate gt = true ∧ n_parent gt = Some (n_id n).
Proof using G.
  intros S Hd n [(n0 & Hn0 & ->)|Hn]%growth_elem He.
  - pose proof (gr_same _ _ _ _ G) as Hsame. destruct (Hsame n0) as (-> & _).
    destruct (gr_composite _ _ _ _ G Hd n0 Hn0 He) as [He0|(gt & Hgt & Hgg & Hgp)].
    + destruct (st_composite _ S Hd n0 Hn0 He0) as (gt & Hgt & Hgg & Hgp).
      destruct (Hsame gt) as (_ & Hp & Hgg').
      exists (h gt). split_and!; [by apply growth_old|congruence|congruence].
    + exists gt. split_and!; [by apply growth_new|done..].
  - destruct (ba_idle _ _ (gr_batch _ _ _ _ G) n Hn) as (_ & _ & Hf). congruence.
Qed.

Lemma growth_struct : Struct g → Struct g'.
Proof using G.
  intros S. pose proof S as [Hnd Hdeps _ _ _ Hli Hrg Hru Hau _].
  pose proof (gr_same _ _ _ _ G) as Hsame.
  split; try rewrite (gr_mode _ _ _ _ G).
  - by apply growth_nodup.
  - intros n d [(n0 & Hn0 & ->)|Hn]%growth_elem Hd; rewrite growth_ids, elem_of_app.
    + destruct (gr_old_deps _ _ _ _ G n0 d Hn0 Hd) as [Hd0|(dn & Hdn & <- & _)].
      * left. by apply (Hdeps n0).
      * right. by apply elem_ids.
    + by apply (ba_deps _ _ (gr_batch _ _ _ _ G) n).
  - apply (gr_acyclic _ _ _ _ G).
  - by apply growth_parent.
  - by apply growth_gate_deps.
  - intros Hl n [(n0 & Hn0 & ->)|Hn]%growth_elem; [|by apply (ba_light _ _ (gr_batch _ _ _ _ G))].
    destruct (Hsame n0) as (_ & _ & ->). by apply Hli.
  - intros Hd n [(n0 & Hn0 & ->)|Hn]%growth_elem Hw; [|by eapply gr_new_root].
    rewrite growth_root_work in Hw. destruct (Hrg Hd n0 Hn0 Hw) as (rg & Hr & Hr' & Hin).
    exists (h rg). split_and!; [by apply growth_old|by rewrite growth_root_gate|].
    destruct (Hsame n0) as (-> & _). by apply (gr_mono _ _ _ _ G).
  - intros r1 r2 H1 H2 Hg1 Hg2 Hpp.
    pose proof H1 as [(n1 & Hn1 & E1)|H1']%growth_elem; [|symmetry; by apply (gr_gate_unique _ _ _ _ G)].
    pose proof H2 as [(n2 & Hn2 & E2)|H2']%growth_elem; [|by apply (gr_gate_unique _ _ _ _ G)].
    destruct (Hsame n1) as (_ & Hp1 & Hg1'), (Hsame n2) as (_ & Hp2 & Hg2').
    subst. f_equal. apply Hru; congruence.
  - intros n gt Hn Hgt Hgn Hgg Hpp.
    pose proof Hn as [(n1 & Hn1 & E1)|Hn']%growth_elem; [|by apply (gr_audited _ _ _ _ G); auto].
    pose proof Hgt as [(n2 & Hn2 & E2)|Hgt']%growth_elem; [|by apply (gr_audited _ _ _ _ G); auto].
    destruct (Hsame n1) as (Hi1 & Hp1 & Hg1'), (Hsame n2) as (_ & Hp2 & Hg2').
    subst. rewrite Hi1. apply (gr_mono _ _ _ _ G), Hau; congruence.
  - by apply growth_has_gate.
Qed.
End growth.

(** ** The three growing operations *)

Definition at_id (id : string) (f : TaskNode → TaskNode) (n : TaskNode) : TaskNode :=
  if has_id id n then f n else n.

Lemma at_id_eq id f n : n_id n = id → at_id id f n = f n.
Proof. intros H%has_id_iff. unfold at_id. by rewrite H. Qed.

Lemma at_id_ne id f n : n_id n ≠ id → at_id id f n = n.
Proof. intros H. unfold at_id. destruct (has_id id n) eqn:E; [by apply has_id_iff in E|done]. Qed.

(** An update of an old node of an extended graph. *)
Lemma update_extended (l N : list TaskNode) id f :
  NoDup (map n_id l) → id ∈ map n_id l →
  update_first id f (l ++ N) = map (at_id id f) l ++ N.
Proof.
  induction l as [|n l IH]; simpl; intros Hnd Hid; [set_solver|].
  apply NoDup_cons in Hnd as [Hn Hl]. destruct (has_id id n) eqn:E.
  - apply has_id_iff in E. rewrite at_id_eq by done. f_equal. f_equal.
    rewrite <- (map_id l) at 1. apply map_ext_in. intros x Hx%list_elem_of_In.
    symmetry. apply at_id_ne. intros Hxid. apply Hn. rewrite E, <- Hxid. by apply elem_ids.
  - rewrite at_id_ne by (intros H%has_id_iff; congruence). f_equal. apply IH; [done|].
    apply elem_of_cons in Hid as [->|]; [by rewrite has_id_refl in E|done].
Qed.

(** What the updates of a growing operation do to the node they touch. *)
Record Extends (f : TaskNode → TaskNode) (deps : list string) : Prop := {
  ex_same : ∀ n, n_id (f n) = n_id n ∧ n_parent (f n) = n_parent n ∧ n_is_gate (f n) = n_is_gate n;
  ex_deps : ∀ n d, d ∈ n_depends_on (f n) ↔ d ∈ n_depends_on n ∨ d ∈ deps;
  ex_expanded : ∀ n, n_expanded n = true → n_expanded (f n) = true;
}.

Lemma extends_compose deps : Extends (compose_parent deps) deps.
Proof.
  split; intros n; unfold compose_parent; simpl.
  - destruct (n_planner n); done.
  - intros d. destruct (n_planner n); apply add_deps_iff.
  - by destruct (n_planner n).
Qed.

Lemma extends_requeue deps : Extends (requeue_gate deps) deps.
Proof. split; intros n; [done| |done]. intros d. apply add_deps_iff. Qed.

Lemma extends_wait deps : Extends (wait_for deps) deps.
Proof. split; intros n; [done| |done]. intros d. apply add_deps_iff. Qed.

Lemma extends_refresh deps : Extends (refresh_gate deps) deps.
Proof.
  split; intros n; unfold refresh_gate; destruct (_ && _); try done; intros d; apply add_deps_iff.
Qed.

Lemma at_id_same id f deps n :
  Extends f deps →
  n_id (at_id id f n) = n_id n ∧ n_parent (at_id id f n) = n_parent n
  ∧ n_is_gate (at_id id f n) = n_is_gate n.
Proof. intros [Hs _ _]. unfold at_id. destruct (has_id id n); [apply Hs|done]. Qed.

Lemma at_id_mono id f deps n d :
  Extends f deps → d ∈ n_depends_on n → d ∈ n_depends_on (at_id id f n).
Proof. intros [_ Hd _] H. unfold at_id. destruct (has_id id n); [|done]. apply Hd. by left. Qed.

Lemma at_id_old id f deps n d :
  Extends f deps → d ∈ n_depends_on (at_id id f n) → d ∈ n_depends_on n ∨ n_id n = id ∧ d ∈ deps.
Proof.
  intros [_ Hd _]. unfold at_id. destruct (has_id id n) eqn:E; [|by left].
  apply has_id_iff in E. intros H%Hd. naive_solver.
Qed.

Lemma at_id_expanded id f deps n :
  Extends f deps → n_expanded n = true → n_expanded (at_id id f n) = true.
Proof. intros [_ _ He] H. unfold at_id. destruct (has_id id n); [by apply He|done]. Qed.

Lemma elem_ids_back id l : id ∈ map n_id l → ∃ n, n ∈ l ∧ n_id n = id.
Proof. intros (n & -> & Hn)%(list_elem_of_fmap n_id). by exists n. Qed.

Lemma elem_batch_parent n specs parent origin :
  n ∈ batch_nodes specs parent origin →
  n_parent n = parent ∧ n_is_gate n = false ∧ n_id n ∈ map n_id (batch_nodes specs parent origin).
Proof. intros Hn. split_and!; [..|by apply elem_ids]; by apply elem_batch_nodes in Hn as (s & _ & ->). Qed.

(** The nodes made from validated specs are a batch. *)
Lemma batch_of_specs g specs parent origin ids :
  map s_id specs = map Some ids → NoDup ids → (∀ id, id ∈ ids → id ∉ node_ids g) →
  (∀ s d, s ∈ specs → d ∈ s_depends_on s → d ∈ ids ∨ d ∈ node_ids g) →
  Batch g (batch_nodes specs parent origin).
Proof.
  intros Hmap Hnd Hnew Hdeps.
  split; rewrite ?(batch_node_ids _ _ _ _ Hmap); [done|done|..]; intros n.
  - intros d (s & Hs & ->)%elem_batch_nodes Hd%spec_to_node_deps.
    destruct (Hdeps s d Hs Hd); auto.
  - intros x (s & _ & ->)%elem_batch_nodes. done.
  - intros (s & _ & ->)%elem_batch_nodes. done.
Qed.

(** A deep graph may add one gate to a batch. *)
Lemma batch_add_gate g N gid content kind parent deps :
  Batch g N → mode g = Deep → gid ∉ node_ids g → gid ∉ map n_id N →
  (∀ d, d ∈ deps → d ∈ node_ids g ∨ d ∈ map n_id N) →
  Batch g (N ++ [gate_node gid content kind parent deps]).
Proof.
  intros [Hnd Hnew Hdeps Hli Hidle] Hm Hg1 Hg2 Hd. split; rewrite ?map_app; simpl.
  - apply NoDup_app. split_and!; [done|set_solver|apply NoDup_singleton].
  - intros id [Hid|Hid]%elem_of_app; [by apply Hnew|set_solver].
  - intros n d [Hn|Hn]%elem_of_app Hdn; rewrite elem_of_app.
    + destruct (Hdeps n d Hn Hdn); auto.
    + apply list_elem_of_singleton in Hn as ->. destruct (Hd d Hdn); auto.
  - congruence.
  - intros n [Hn|Hn]%elem_of_app; [by apply Hidle|].
    by apply list_elem_of_singleton in Hn as ->.
Qed.

(** [expand_node]: the children and, in deep mode, their gate. *)
Lemma expand_batch g node_id children ids gid content kind :
  map s_id children = map Some ids → NoDup ids → (∀ id, id ∈ ids → id ∉ node_ids g) →
  gid ∉ node_ids g → gid ∉ ids →
  (∀ s d, s ∈ children → d ∈ s_depends_on s → d ∈ ids ∨ d ∈ node_ids g) →
  let N := batch_nodes children (Some node_id) OriginExpand
           ++ gate_suffix (mode g) gid content kind node_id ids in
  Batch g N
  ∧ map n_id N = ids ++ (if requires_gates (mode g) then [gid] else [])
  ∧ (∀ x, x ∈ N → n_parent x = Some node_id)
  ∧ (∀ x y, x ∈ N → n_is_gate x = true → n_id y ∈ n_depends_on x → y ∈ N →
            n_is_gate y = false)
  ∧ (∀ x d, x ∈ N → n_is_gate x = true → d ∈ n_depends_on x → d ∈ ids)
  ∧ (∀ x y, x ∈ N → y ∈ N → n_is_gate x = true → n_is_gate y = true → y = x)
  ∧ (∀ x y, x ∈ N → y ∈ N → n_is_gate x = false → n_is_gate y = true →
            n_id x ∈ n_depends_on y)
  ∧ (mode g = Deep → ∃ gt, gt ∈ N ∧ n_is_gate gt = true).
Proof.
  intros Hmap Hnd Hnew Hg1 Hg2 Hdeps. cbv zeta.
  pose proof (batch_of_specs g children (Some node_id) OriginExpand ids Hmap Hnd Hnew Hdeps) as HB.
  pose proof (batch_node_ids children (Some node_id) OriginExpand ids Hmap) as Hids.
  unfold gate_suffix. destruct (mode g) eqn:Em; cbn [requires_gates].
  - split_and!.
    + apply batch_add_gate; try done; rewrite Hids; [done|]. intros d Hd. by right.
    + by rewrite map_app, Hids.
    + intros x [Hx|Hx]%elem_of_app; [by apply elem_batch_parent in Hx as (? & _)|].
      by apply list_elem_of_singleton in Hx as ->.
    + intros x y [Hx|Hx]%elem_of_app Hg Hd [Hy|Hy]%elem_of_app;
        try apply elem_batch_parent in Hx as (_ & Hxg & _); try congruence.
      * by apply elem_batch_parent in Hy as (_ & ? & _).
      * apply list_elem_of_singleton in Hx as ->, Hy as ->. by simpl in Hd.
    + intros x d [Hx|Hx]%elem_of_app Hg Hd.
      * apply elem_batch_parent in Hx as (_ & Hxg & _). congruence.
      * by apply list_elem_of_singleton in Hx as ->.
    + intros x y [Hx|Hx]%elem_of_app [Hy|Hy]%elem_of_app Hxg Hyg;
        try (apply elem_batch_parent in Hx as (_ & ? & _); congruence);
        try (apply elem_batch_parent in Hy as (_ & ? & _); congruence).
      by apply list_elem_of_singleton in Hx as ->, Hy as ->.
    + intros x y [Hx|Hx]%elem_of_app [Hy|Hy]%elem_of_app Hxg Hyg;
        try (apply elem_batch_parent in Hy as (_ & ? & _); congruence);
        apply list_elem_of_singleton in Hy as ->.
      * simpl. rewrite <- Hids. by apply elem_ids.
      * by apply list_elem_of_singleton in Hx as ->.
    + intros _. eexists. split; [apply elem_of_app; right; by apply list_elem_of_singleton|done].
  - rewrite !app_nil_r. split_and!; try done.
    + intros x Hx. by apply elem_batch_parent in Hx as (? & _).
    + intros x y Hx Hg _ _. apply elem_batch_parent in Hx as (_ & ? & _). congruence.
    + intros x d Hx Hg _. apply elem_batch_parent in Hx as (_ & ? & _). congruence.
    + intros x y Hx _ Hg. apply elem_batch_parent in Hx as (_ & ? & _). congruence.
    + intros x y _ Hy _ Hg. apply elem_batch_parent in Hy as (_ & ? & _). congruence.
Qed.

(** A node that is not a composite yet has no children: whatever carries its id as parent in
    the staged graph belongs to the batch. *)
Lemma children_in_batch g n deps N m :
  Struct g → n ∈ nodes g → n_expanded n = false →
  m ∈ map (at_id (n_id n) (compose_parent deps)) (nodes g) ++ N →
  n_parent m = Some (n_id n) → m ∈ N.
Proof.
  intros S Hn Hexp [Hm|Hm]%elem_of_app Hp; [exfalso|done].
  apply (list_elem_of_fmap (at_id (n_id n) (compose_parent deps))) in Hm as (m0 & -> & Hm0).
  destruct (at_id_same (n_id n) _ _ m0 (extends_compose deps)) as (_ & E & _). rewrite E in Hp.
  destruct (st_parent _ S m0 (n_id n) Hm0 Hp) as (pn & Hpn & Hid & He & _).
  rewrite (node_unique g pn n) in He; [congruence|apply S|done|done|congruence].
Qed.

Lemma expand_growth g node_id actor children g' out :
  Struct g → expand_node g node_id actor children = Ok (g', out) →
  ∃ n deps N, get g node_id = Some n ∧ n_status n = Running ∧ n_is_gate n = false
              ∧ Growth g g' (at_id node_id (compose_parent deps)) N
              ∧ map n_id N = deps ∧ child_ids out ⊆ deps.
Proof.
  intros S H. apply expand_node_Ok in H as (n & ids & gid & content & kind & Hget & _ & Hng & Hexp
    & Hst & _ & Hout & _ & Hmap & Hnd & Hnew & Hgid & Hgid' & Hdeps & -> & Hac).
  destruct (expand_batch g node_id children ids gid content kind Hmap Hnd Hnew Hgid Hgid' Hdeps)
    as (HB & HS & Hpar & Hgy & Hgd & Hgu & Hau & Hdeep).
  set (N := batch_nodes children (Some node_id) OriginExpand ++ gate_suffix _ _ _ _ _ _) in *.
  rewrite <- HS in Hac |- *. set (deps := map n_id N) in *.
  pose proof (get_Some _ _ _ Hget) as [Hn Hnid].
  pose proof (extends_compose deps) as HE.
  assert (nodes (update_node {| mode := mode g; nodes := nodes g ++ N |} node_id
            (compose_parent deps)) = map (at_id node_id (compose_parent deps)) (nodes g) ++ N) as Hnodes.
  { simpl. apply update_extended; [apply S|]. rewrite <- Hnid. by apply elem_ids. }
  assert (∀ m, m ∈ nodes (update_node {| mode := mode g; nodes := nodes g ++ N |} node_id
            (compose_parent deps)) → n_parent m = Some node_id → m ∈ N) as Hin.
  { intros m. rewrite Hnodes, <- Hnid. by apply children_in_batch. }
  exists n, deps, N. split_and!; try done.
  2: { rewrite Hout, HS. set_solver. }
  split; try done.
  - intros m. by apply at_id_same with deps.
  - intros m d. by apply at_id_mono with deps.
  - intros m. by apply at_id_expanded with deps.
  - intros m d Hm [Hd|[Hmid Hd]]%(at_id_old _ _ deps); [by left| |done]. right.
    apply elem_ids_back in Hd as (dn & Hdn & Hid). exists dn. split_and!; [done..|].
    intros Hmg. rewrite (node_unique g m n) in Hmg; [congruence|apply S|done|done|congruence].
  - intros x d dn Hx Hg Hd Hdn Hid. rewrite Hnodes in Hdn. apply elem_of_app in Hdn as [Hdn|Hdn].
    + exfalso. apply (list_elem_of_fmap (at_id node_id (compose_parent deps))) in Hdn
        as (dn0 & -> & Hdn0).
      apply (Hnew d); [by apply (Hgd x)|]. rewrite <- Hid.
      destruct (at_id_same node_id _ _ dn0 HE) as (-> & _). by apply elem_ids.
    + apply (Hgy x dn); try done. by rewrite Hid.
  - intros x p Hx Hp. exists n. rewrite (Hpar x Hx) in Hp. injection Hp as <-.
    rewrite at_id_eq by done. split_and!; try done.
    + unfold compose_parent. simpl. by destruct (n_planner n).
    + apply (ex_deps _ _ HE). right. by apply elem_ids.
  - intros _ x Hx [Hp _]%is_root_work_iff. rewrite (Hpar x Hx) in Hp. done.
  - intros r1 r2 Hx Hg1 Hr2 Hg2 Hp. apply Hgu; try done. apply Hin; [done|].
    rewrite Hp. by apply Hpar.
  - intros x y Hx Hy Hxy Hgx Hgy' Hp.
    assert (n_parent x = Some node_id) as Hpx.
    { destruct Hxy as [H|H]; [|rewrite Hp]; by apply Hpar. }
    apply Hau; try done; apply Hin; congruence.
  - intros Hd m Hm He. destruct (decide (n_id m = node_id)) as [Heq|Hne'].
    + right. destruct (Hdeep Hd) as (gt & Hgt & Hgg). exists gt. split_and!; [done..|].
      rewrite Heq. by apply Hpar.
    + left. by rewrite at_id_ne in He.
Qed.

(** [inject_from_gate] *)
Definition inject_map (gate_id : string) (parent : option string) (ids : list string)
  (n : TaskNode) : TaskNode :=
  let n' := at_id gate_id (requeue_gate ids) n in
  match parent with Some p => at_id p (wait_for ids) n' | None => n' end.

Lemma inject_map_same gate_id parent ids n :
  n_id (inject_map gate_id parent ids n) = n_id n
  ∧ n_parent (inject_map gate_id parent ids n) = n_parent n
  ∧ n_is_gate (inject_map gate_id parent ids n) = n_is_gate n.
Proof.
  unfold inject_map. set (n1 := at_id gate_id (requeue_gate ids) n).
  destruct (at_id_same gate_id _ ids n (extends_requeue ids)) as (<- & <- & <-).
  destruct parent as [p|]; [|done]. by apply (at_id_same p _ ids n1), extends_wait.
Qed.

Lemma inject_map_mono gate_id parent ids n d :
  d ∈ n_depends_on n → d ∈ n_depends_on (inject_map gate_id parent ids n).
Proof.
  intros Hd. apply (at_id_mono gate_id _ ids n d (extends_requeue ids)) in Hd.
  unfold inject_map. destruct parent as [p|]; [|done].
  by apply (at_id_mono p _ ids _ d (extends_wait ids)).
Qed.

(** Only the gate and the composite parent wait for the injected nodes. *)
Lemma inject_map_old gate_id parent ids n d :
  d ∈ n_depends_on (inject_map gate_id parent ids n) →
  d ∈ n_depends_on n ∨ (n_id n = gate_id ∨ Some (n_id n) = parent) ∧ d ∈ ids.
Proof.
  unfold inject_map. destruct parent as [p|].
  - intros [Hd|[Hid Hd]]%(at_id_old _ _ ids); [| |apply extends_wait].
    + apply (at_id_old _ _ ids) in Hd as [?|[? ?]]; [by left|by right; auto|apply extends_requeue].
    + right. destruct (at_id_same gate_id _ ids n (extends_requeue ids)) as (E & _).
      rewrite E in Hid. subst. auto.
  - intros [?|[? ?]]%(at_id_old _ _ ids); [by left|by right; auto|apply extends_requeue].
Qed.

Lemma inject_map_expanded gate_id parent ids n :
  n_expanded (inject_map gate_id parent ids n) = n_expanded n.
Proof.
  unfold inject_map, at_id. destruct parent as [p|]; repeat (destruct (has_id _ _)); done.
Qed.

Lemma inject_map_adds gate_id parent ids n d :
  d ∈ ids → n_id n = gate_id ∨ Some (n_id n) = parent →
  d ∈ n_depends_on (inject_map gate_id parent ids n).
Proof.
  intros Hd. unfold inject_map.
  destruct (at_id_same gate_id _ ids n (extends_requeue ids)) as (E & _).
  intros [Hid|Hid].
  - assert (d ∈ n_depends_on (at_id gate_id (requeue_gate ids) n)) as H.
    { rewrite at_id_eq by done. apply (ex_deps _ _ (extends_requeue ids)). by right. }
    destruct parent as [p|]; [|done]. by apply (at_id_mono p _ ids _ d (extends_wait ids)).
  - subst parent. rewrite at_id_eq by done. apply (ex_deps _ _ (extends_wait ids)). by right.
Qed.

Lemma inject_result_nodes g gate_id parent new_nodes ids :
  NoDup (node_ids g) → gate_id ∈ node_ids g →
  (∀ p, parent = Some p → p ∈ node_ids g) →
  nodes (inject_result g gate_id parent new_nodes ids)
  = map (inject_map gate_id parent ids) (nodes g) ++ batch_nodes new_nodes parent OriginGap.
Proof.
  intros Hnd Hg Hp. unfold inject_result, inject_map.
  assert (map n_id (map (at_id gate_id (requeue_gate ids)) (nodes g)) = node_ids g) as Hids.
  { rewrite map_map. apply map_ext. intros n. apply (at_id_same gate_id _ ids n (extends_requeue ids)). }
  destruct parent as [p|]; cbn [update_node nodes]; rewrite update_extended by done; [|done].
  rewrite update_extended by (rewrite Hids; auto). by rewrite map_map.
Qed.

(** An old gate with the parent of an injected node is the injecting gate: it waits for it. *)
Lemma inject_audited g gate ids N x y :
  Struct g → gate ∈ nodes g → n_is_gate gate = true → map n_id N = ids →
  x ∈ N → n_parent x = n_parent gate → y ∈ nodes g → n_is_gate y = true →
  n_parent y = n_parent x →
  n_id x ∈ n_depends_on (inject_map (n_id gate) (n_parent gate) ids y).
Proof.
  intros S Hn Hg HS Hx Hxp Hy Hyg Hp. apply inject_map_adds; [rewrite <- HS; by apply elem_ids|].
  left. f_equal. apply (st_gate_unique _ S); try done. congruence.
Qed.

Lemma inject_growth g gate_id actor new_nodes g' ids :
  Struct g → inject_from_gate g gate_id actor new_nodes = Ok (g', ids) →
  ∃ gate N, get g gate_id = Some gate ∧ n_status gate = Running ∧ n_is_gate gate = true
            ∧ Growth g g' (inject_map gate_id (n_parent gate) ids) N
            ∧ map n_id N = ids ∧ ids ≠ []
            ∧ ∀ n, n ∈ N → n_parent n = n_parent gate ∧ n_is_gate n = false.
Proof.
  intros S H. apply inject_from_gate_Ok in H as (gate & Hget & _ & Hg & Hst & Hne & Hmap & Hnd
    & Hnew & Hdeps & -> & Hac).
  pose proof (get_Some _ _ _ Hget) as [Hn Hnid].
  set (N := batch_nodes new_nodes (n_parent gate) OriginGap).
  assert (map n_id N = ids) as HS by (by apply batch_node_ids).
  assert (∀ p, n_parent gate = Some p → ∃ pn, pn ∈ nodes g ∧ n_id pn = p
            ∧ n_expanded pn = true ∧ n_is_gate pn = false) as Hpar.
  { intros p Hp. destruct (st_parent _ S gate p Hn Hp) as (pn & ? & ? & ? & ? & _). by exists pn. }
  assert (nodes (inject_result g gate_id (n_parent gate) new_nodes ids)
          = map (inject_map gate_id (n_parent gate) ids) (nodes g) ++ N) as Hnodes.
  { apply inject_result_nodes; [apply S|rewrite <- Hnid; by apply elem_ids|].
    intros p (pn & Hpn & <- & _)%Hpar. by apply elem_ids. }
  exists gate, N. split_and!; try done.
  2: { intros ->. apply Hne. destruct new_nodes; [done|by simpl in Hmap]. }
  2: { intros n (? & ? & _)%elem_batch_parent. done. }
  split; try done.
  - unfold inject_result. by destruct (n_parent gate).
  - intros n. apply inject_map_same.
  - intros n d. apply inject_map_mono.
  - intros n. by rewrite inject_map_expanded.
  - by apply batch_of_specs with ids.
  - intros n d Hin [Hd|[_ Hd]]%inject_map_old; [by left|]. right.
    rewrite <- HS in Hd. apply elem_ids_back in Hd as (dn & Hdn & Hid). exists dn.
    split_and!; [done..|]. intros _. by apply elem_batch_parent in Hdn as (_ & ? & _).
  - intros x d dn Hx Hxg. apply elem_batch_parent in Hx as (_ & ? & _). congruence.
  - intros x p Hx Hp. apply elem_batch_parent in Hx as (Hxp & _ & Hin). fold N in Hin.
    rewrite Hp in Hxp. destruct (Hpar p) as (pn & Hpn & Hid & He & Hpg); [done|].
    exists pn. rewrite inject_map_expanded. split_and!; try done.
    apply inject_map_adds; [by rewrite <- HS|]. right. congruence.
  - intros _ x Hx [Hxp _]%is_root_work_iff.
    exists (inject_map gate_id (n_parent gate) ids gate). split_and!.
    + rewrite Hnodes. apply elem_of_app. left. by apply (list_elem_of_fmap_2 (inject_map _ _ _)).
    + apply is_root_gate_iff. destruct (inject_map_same gate_id (n_parent gate) ids gate) as (_ & -> & ->).
      split; [done|]. apply elem_batch_parent in Hx as (? & _). congruence.
    + apply inject_map_adds; [|by left]. rewrite <- HS. by apply elem_ids.
  - intros r1 r2 Hx Hrg. apply elem_batch_parent in Hx as (_ & ? & _). congruence.
  - intros x y Hx Hy [Hxn|Hyn] Hgx Hgy Hp;
      [|apply elem_batch_parent in Hyn as (_ & ? & _); congruence].
    rewrite Hnodes in Hy. apply elem_of_app in Hy as [Hy|Hy];
      [|apply elem_batch_parent in Hy as (_ & ? & _); congruence].
    apply (list_elem_of_fmap (inject_map gate_id (n_parent gate) ids)) in Hy as (y0 & -> & Hy0).
    destruct (inject_map_same gate_id (n_parent gate) ids y0) as (_ & Ep & Eg).
    rewrite Eg in Hgy. rewrite Ep in Hp. rewrite <- Hnid.
    apply (inject_audited g gate ids N); try done. by apply elem_batch_parent in Hxn as (? & _).
  - intros _ n Hin. rewrite inject_map_expanded. by left.
Qed.

(** [seed] *)
Definition root_ids (g : TaskGraph) : list string := map n_id (List.filter is_root_work (nodes g)).

Lemma elem_root_ids g d :
  d ∈ root_ids g ↔ ∃ n, n ∈ nodes g ∧ is_root_work n = true ∧ n_id n = d.
Proof.
  unfold root_ids. split.
  - intros (n & Hn & <-)%elem_ids_back. apply list_elem_of_In, filter_In in Hn as [Hn ?].
    exists n. by rewrite list_elem_of_In.
  - intros (n & Hn & Hw & <-). apply elem_ids, list_elem_of_In, filter_In.
    by rewrite <- list_elem_of_In.
Qed.

(** The three outcomes of [ensure_root_gate]. *)
Lemma ensure_root_gate_cases g :
  (root_ids g = [] ∧ ensure_root_gate g = g)
  ∨ (∃ gate, gate ∈ nodes g ∧ is_root_gate gate = true
             ∧ ensure_root_gate g = update_node g (n_id gate) (refresh_gate (root_ids g)))
  ∨ (∃ gid content kind, root_ids g ≠ [] ∧ gid ∉ node_ids g ∧ (∀ n, n ∈ nodes g → is_root_gate n = false)
             ∧ ensure_root_gate g = push_node g (gate_node gid content kind None (root_ids g))).
Proof.
  unfold ensure_root_gate. fold (root_ids g).
  destruct (root_ids g) as [|r rs] eqn:E; [by left|cbn [is_nil]]. rewrite <- E. right.
  destruct (List.find is_root_gate (nodes g)) as [gate|] eqn:Ef.
  - left. apply find_Some_elem in Ef as [Hin Hg]. by exists gate.
  - right. do 3 eexists. split_and!; [by rewrite E|apply unique_gate_id_new| |reflexivity].
    by apply find_None_elem.
Qed.

Section seed_growth.
Context (g : TaskGraph) (N : list TaskNode).
Hypothesis S : Struct g.
Hypothesis HB : Batch g N.
Hypothesis N_work : ∀ n, n ∈ N → is_root_work n = true.
Let staged : TaskGraph := {| mode := mode g; nodes := nodes g ++ N |}.

Lemma seed_batch_root n : n ∈ N → n_parent n = None ∧ n_is_gate n = false.
Proof using N_work. intros H. by apply is_root_work_iff, N_work. Qed.

Lemma elem_staged n : n ∈ nodes staged ↔ n ∈ nodes g ∨ n ∈ N.
Proof using. apply elem_of_app. Qed.

Lemma staged_ids : node_ids staged = node_ids g ++ map n_id N.
Proof using. apply map_app. Qed.

(** No gate to add: light mode, or a seed without root work. *)
Lemma seed_growth_plain :
  (mode g = Deep → N = []) → acyclic staged → Growth g staged (λ n, n) N.
Proof using S HB N_work.
  intros Hd Hac. split; try done.
  - simpl. by rewrite map_id.
  - intros n d Hn H. by left.
  - intros n d dn Hn Hg. destruct (seed_batch_root n Hn). congruence.
  - intros n p Hn Hp. destruct (seed_batch_root n Hn). congruence.
  - intros Hm n Hn. rewrite (Hd Hm) in Hn. set_solver.
  - intros r1 r2 Hr ?. destruct (seed_batch_root r1 Hr). congruence.
  - intros n gt Hn Hgt [H|H] Hg1 Hg2 Hp; [|destruct (seed_batch_root gt H); congruence].
    exfalso. destruct (decide (mode g = Deep)) as [Em|Em]; [rewrite Hd in H by done; set_solver|].
    assert (mode g = Light) as Hl by (by destruct (mode g)). clear Em.
    apply elem_staged in Hgt as [Hgt|Hgt]; [|destruct (seed_batch_root gt Hgt); congruence].
    rewrite (st_light _ S Hl gt Hgt) in Hg2. done.
  - intros _ n Hn He. by left.
Qed.

(** The root gate exists: it is widened, and re-opened when it was closed. *)
Lemma seed_growth_refresh gate :
  gate ∈ nodes staged → is_root_gate gate = true → mode g = Deep →
  let g' := update_node staged (n_id gate) (refresh_gate (root_ids staged)) in
  acyclic g' →
  gate ∈ nodes g ∧ Growth g g' (at_id (n_id gate) (refresh_gate (root_ids staged))) N.
Proof using S HB N_work.
  intros Hin Hgate Hd g' Hac. pose proof (extends_refresh (root_ids staged)) as HE.
  assert (gate ∈ nodes g) as Hg.
  { apply elem_staged in Hin as [?|Hn]; [done|exfalso]. apply is_root_gate_iff in Hgate as [? _].
    destruct (seed_batch_root gate Hn). congruence. }
  split; [done|].
  assert (nodes g' = map (at_id (n_id gate) (refresh_gate (root_ids staged))) (nodes g) ++ N)
    as Hnodes.
  { unfold g', staged. cbn [update_node nodes]. apply update_extended; [apply S|by apply elem_ids]. }
  split; try done.
  - intros n. by apply at_id_same with (root_ids staged).
  - intros n d. by apply at_id_mono with (root_ids staged).
  - intros n. by apply at_id_expanded with (root_ids staged).
  - intros n d Hn [H|[Hid H]]%(at_id_old _ _ (root_ids staged)); [by left| |done].
    apply elem_root_ids in H as (dn & [Hdn|Hdn]%elem_staged & Hw & <-).
    + left. destruct (st_root_gate _ S Hd dn Hdn Hw) as (rg & Hrg & Hr & Hd').
      rewrite (node_unique g n gate); [|apply S|done|done|done].
      by rewrite (st_root_unique _ S gate rg).
    + right. exists dn. split_and!; [done..|]. intros _. by apply seed_batch_root.
  - intros n d dn Hn Hng. destruct (seed_batch_root n Hn). congruence.
  - intros n p Hn Hp. destruct (seed_batch_root n Hn). congruence.
  - intros _ n Hn Hw. exists (at_id (n_id gate) (refresh_gate (root_ids staged)) gate). split_and!.
    + rewrite Hnodes. apply elem_of_app. left. by apply (list_elem_of_fmap_2 (at_id _ _)).
    + unfold is_root_gate.
      by destruct (at_id_same (n_id gate) _ _ gate HE) as (_ & -> & ->).
    + rewrite at_id_eq by done. apply (ex_deps _ _ HE). right. apply elem_root_ids.
      exists n. split_and!; [apply elem_staged; by right|done|done].
  - intros r1 r2 Hr ?. destruct (seed_batch_root r1 Hr). congruence.
  - intros n gt Hn Hgt [H|H] Hg1 Hg2 Hp; [|destruct (seed_batch_root gt H); congruence].
    rewrite Hnodes in Hgt. apply elem_of_app in Hgt as [Hgt|Hgt];
      [|destruct (seed_batch_root gt Hgt); congruence].
    apply (list_elem_of_fmap (at_id (n_id gate) (refresh_gate (root_ids staged)))) in Hgt
      as (y0 & -> & Hy0).
    destruct (at_id_same (n_id gate) _ _ y0 HE) as (_ & Ep & Eg). rewrite Ep in Hp. rewrite Eg in Hg2.
    destruct (seed_batch_root n H) as [Hpn _]. apply is_root_gate_iff in Hgate as [? ?].
    rewrite (st_gate_unique _ S y0 gate), at_id_eq by congruence.
    apply (ex_deps _ _ HE). right. apply elem_root_ids. exists n.
    split_and!; [apply elem_staged; by right|by apply N_work|done].
  - intros _ n Hn He. left. unfold at_id in He. destruct (has_id _ n); [|done].
    unfold refresh_gate in He. by destruct (_ && _).
Qed.

(** The first seed of a deep plan: the root gate is created. *)
Lemma seed_growth_create gid content kind :
  gid ∉ node_ids staged → (∀ n, n ∈ nodes staged → is_root_gate n = false) →
  mode g = Deep →
  let gate := gate_node gid content kind None (root_ids staged) in
  acyclic (push_node staged gate) →
  Growth g (push_node staged gate) (λ n, n) (N ++ [gate]).
Proof using S HB N_work.
  intros Hgid Hno Hd gate Hac.
  rewrite staged_ids, elem_of_app in Hgid.
  assert (∀ n, n ∈ N ++ [gate] ↔ n ∈ N ∨ n = gate) as HN.
  { intros n. by rewrite elem_of_app, list_elem_of_singleton. }
  split; try done.
  - simpl. by rewrite map_id, <- app_assoc.
  - apply batch_add_gate; [done|done|tauto|tauto|]. intros d (n & Hn & _ & <-)%elem_root_ids.
    apply elem_staged in Hn as [?|?]; [left|right]; by apply elem_ids.
  - intros n d Hn H. by left.
  - intros n d dn [Hn| ->]%HN Hg; [destruct (seed_batch_root n Hn); congruence|].
    intros (m & Hm & Hw & <-)%elem_root_ids Hdn Hid.
    assert (dn = m) as ->; [|by apply is_root_work_iff in Hw as [_ ?]].
    cbn [push_node nodes] in Hdn. apply elem_of_app in Hdn as [Hdn|Hdn].
    + apply (node_unique staged); try done. rewrite staged_ids. apply NoDup_app.
      split_and!; [apply S| |apply HB]. intros i Hi Hi'. by apply (ba_fresh _ _ HB i).
    + exfalso. apply list_elem_of_singleton in Hdn as ->. cbn in Hid.
      apply Hgid. apply elem_of_app. rewrite Hid, <- staged_ids. by apply elem_ids.
  - intros n p [Hn| ->]%HN Hp; [|done]. destruct (seed_batch_root n Hn). congruence.
  - intros _ n [Hn| ->]%HN Hw; [|by apply is_root_work_iff in Hw as [_ ?]].
    exists gate. split_and!; [|done|].
    + cbn. apply elem_of_app. right. by apply list_elem_of_singleton.
    + apply elem_root_ids. exists n. split_and!; [apply elem_staged; by right|done|done].
  - intros r1 r2 [Hr| ->]%HN Hr1 Hin Hr2 Hp; [destruct (seed_batch_root r1 Hr); congruence|].
    cbn [push_node nodes] in Hin. apply elem_of_app in Hin as [Hin|Hin];
      [|by apply list_elem_of_singleton in Hin].
    exfalso. specialize (Hno r2 Hin). apply not_true_iff_false in Hno. apply Hno.
    by apply is_root_gate_iff.
  - intros n gt Hn Hgt Hor Hg1 Hg2 Hp. cbn [push_node nodes] in Hn, Hgt.
    apply elem_of_app in Hgt as [Hgt|Hgt].
    + exfalso. specialize (Hno gt Hgt). apply not_true_iff_false in Hno. apply Hno.
      apply is_root_gate_iff. split; [done|]. rewrite <- Hp.
      destruct Hor as [[Hn'| ->]%HN|[Hg'| ->]%HN]; [by apply seed_batch_root|done| |done].
      destruct (seed_batch_root gt Hg'). congruence.
    + apply list_elem_of_singleton in Hgt as ->. apply elem_root_ids.
      apply elem_of_app in Hn as [Hn|Hn]; [|by apply list_elem_of_singleton in Hn as ->].
      exists n. split_and!; [done| |done]. by apply is_root_work_iff.
  - intros _ n Hn He. by left.
Qed.
End seed_growth.

(** How the old nodes change in a seed: only a root gate does. *)
Definition seed_frame (g : TaskGraph) (h : TaskNode → TaskNode) : Prop :=
  (∀ n, h n = n)
  ∨ ∃ gate ids, gate ∈ nodes g ∧ is_root_gate gate = true
                ∧ (∀ n, h n = at_id (n_id gate) (refresh_gate ids) n).

Lemma seed_growth g specs g' :
  Struct g → seed g specs = Ok g' →
  ∃ h N unique indexes,
    Growth g g' h N ∧ seed_frame g h
    ∧ collapse_specs specs [] ∅ = Ok (unique, indexes)
    ∧ (∀ n, n ∈ batch_nodes (fresh_specs g unique) None OriginSeed → n ∈ N).
Proof.
  intros S H. apply seed_Ok in H as (unique & indexes & ids & Hcol & Hmap & Hnd & _ & Hdeps & _ & -> & Hac).
  destruct (fresh_specs_ids g unique ids Hmap Hnd) as (new & Hmap' & Hnd' & Hnew).
  set (N := batch_nodes (fresh_specs g unique) None OriginSeed).
  assert (Batch g N) as HB.
  { apply batch_of_specs with new; [done|done|by intros id [_ ?]%Hnew|].
    intros s d Hs Hd. apply list_elem_of_In, filter_In in Hs as [Hs _].
    rewrite Hnew. destruct (Hdeps s d) as [Hi|?]; [by apply list_elem_of_In|done| |by right].
    destruct (decide (d ∈ node_ids g)); auto. }
  assert (∀ n, n ∈ N → is_root_work n = true) as Hw.
  { intros n Hn. apply is_root_work_iff. by apply elem_batch_parent in Hn as (? & ? & _). }
  unfold seed_staged in *. fold N in Hac |- *. destruct (mode g) eqn:Em; cbn [requires_gates] in *.
  2: { exists (λ n, n), N, unique, indexes. split; [|split; [by left|done]]. rewrite <- Em in *.
       apply seed_growth_plain; [done..| |done]. congruence. }
  rewrite <- Em in *.
  destruct (ensure_root_gate_cases {| mode := mode g; nodes := nodes g ++ N |})
    as [[Hnil E]|[(gate & Hin & Hg & E)|(gid & content & kind & _ & Hgid & Hno & E)]]; rewrite E in *.
  - exists (λ n, n), N, unique, indexes. split; [|split; [by left|done]]. apply seed_growth_plain; try done.
    intros _. destruct N as [|n N'] eqn:EN; [done|exfalso].
    assert (n_id n ∈ @nil string) as Hin; [|set_solver]. rewrite <- Hnil. apply elem_root_ids.
    exists n. split_and!; [cbn; set_solver|apply Hw; set_solver|done].
  - destruct (seed_growth_refresh g N S HB Hw gate Hin Hg Em Hac) as [Hgin HG].
    do 2 eexists. exists unique, indexes. split; [exact HG|]. split; [|done]. right. by do 2 eexists.
  - exists (λ n, n). eexists. exists unique, indexes. split; [by apply seed_growth_create|].
    split; [by left|]. split; [done|]. intros n Hn. apply elem_of_app. by left.
Qed.

(** ** Preservation *)

(** The operations that move one node through its life cycle are growth without new nodes. *)
Lemma update_growth g id f :
  keeps_skeleton f → Struct g → id ∈ node_ids g →
  Growth g (update_node g id f) (at_id id f) [].
Proof.
  intros Hf S Hid.
  assert (∀ n, skeleton (at_id id f n) = skeleton n) as Hs.
  { intros n. unfold at_id. by destruct (has_id id n). }
  assert (∀ n, n_depends_on (at_id id f n) = n_depends_on n) as Hd.
  { intros n. by destruct (skeleton_inv _ _ (Hs n)) as (_ & _ & ? & _). }
  assert (∀ n, n_expanded (at_id id f n) = n_expanded n) as He.
  { intros n. by destruct (skeleton_inv _ _ (Hs n)) as (_ & _ & _ & _ & ?). }
  split.
  - done.
  - cbn. rewrite <- (app_nil_r (nodes g)) at 1. apply update_extended; [apply S|done].
  - intros n. by destruct (skeleton_inv _ _ (Hs n)) as (? & ? & _ & ? & _).
  - intros n d. by rewrite Hd.
  - intros n. by rewrite He.
  - split; cbn; try set_solver. constructor.
  - intros n d Hn. rewrite Hd. by left.
  - set_solver.
  - set_solver.
  - set_solver.
  - set_solver.
  - intros x y _ _ [H|H]; set_solver.
  - intros _ n Hn. rewrite He. by left.
  - by apply st_acyclic, Struct_update.
Qed.
