(* ===== verification/DagSafety.v ===== *)
(** * [arterm-plan]: the life cycle of nodes

    Each step moves the nodes of the graph along a local life cycle ([node_step]); from it
    follow the invariant of reachable graphs ([Live]) and the promises of the engine: nothing
    runs or finishes before its dependencies, finished work is immutable, and no gate closes
    without the audit of its scope. *)

From stdpp Require Export relations.
From S2P Require Export DagInvariant.

(** All dependencies of a node are finished. *)
Definition deps_done (g : TaskGraph) (n : TaskNode) : Prop :=
  ∀ dn, dn ∈ nodes g → n_id dn ∈ n_depends_on n → n_status dn = Done.

(** What a finished node carries. *)
Definition accepted (g : TaskGraph) (n : TaskNode) : Prop :=
  ∃ a, n_output n = Some a
       ∧ validate_artifact (mode g) (n_id n) (n_is_gate n) a = Ok tt
       ∧ (n_is_gate n = true → validate_gate_pass g (n_id n) a = Ok tt).

(** How a step may change a node [n] of [g]. *)
Inductive node_step (g : TaskGraph) (n : TaskNode) : TaskNode → Prop :=
  | ns_keep : node_step g n n
  | ns_idle m : n_status m = Queued → n_owner m = None →
      n_status n ≠ Done ∨ is_root_gate n = true → node_step g n m
  | ns_hold m : n_status m = n_status n → n_owner m = n_owner n → n_status n ≠ Done →
      (n_status n = Running → n_is_gate n = true) → node_step g n m
  | ns_run m w : n_status n = Queued → n_status m = Running → n_owner m = Some w →
      n_depends_on m = n_depends_on n → deps_done g n → node_step g n m
  | ns_done m : n_status n = Running → n_status m = Done →
      n_depends_on m = n_depends_on n → deps_done g n →
      (∃ a, n_output m = Some a
            ∧ validate_artifact (mode g) (n_id n) (n_is_gate n) a = Ok tt
            ∧ (n_is_gate n = true → validate_gate_pass g (n_id n) a = Ok tt)) →
      node_step g n m
  | ns_fail m : n_status n = Running → n_status m = Failed → node_step g n m.

Record Live (g : TaskGraph) : Prop := {
  lv_running : ∀ n, n ∈ nodes g → n_status n = Running → is_Some (n_owner n);
  lv_queued : ∀ n, n ∈ nodes g → n_status n = Queued → n_owner n = None;
  lv_deps : ∀ n, n ∈ nodes g → n_status n = Running ∧ n_is_gate n = false ∨ n_status n = Done →
    deps_done g n;
  lv_done : ∀ n, n ∈ nodes g → n_status n = Done → accepted g n;
}.

(** ** Nothing waits for the root gate *)

Lemma Acc_tc {A} (R : A → A → Prop) x : Acc R x → Acc (tc R) x.
Proof.
  intros Hx. induction Hx as [x _ IH]. constructor. intros y Hy.
  induction Hy as [y x Hyx|y z x Hyz _ IHz]; [by apply IH|].
  apply (Acc_inv (IHz IH)). by apply tc_once.
Qed.

Lemma Acc_irreflexive {A} (R : A → A → Prop) x : Acc R x → ¬ R x x.
Proof. intros Hx. induction Hx as [x _ IH]. intros Hr. by apply (IH x). Qed.

Lemma tc_dep_edge_ids g a b : tc (dep_edge g) a b → a ∈ node_ids g ∧ b ∈ node_ids g.
Proof.
  assert (∀ a b, dep_edge g a b → a ∈ node_ids g ∧ b ∈ node_ids g) as He.
  { intros x y (Hx & n & Hn & <- & _). split; [done|]. by apply elem_ids. }
  induction 1 as [x y H|x y z H _ [_ IH]]; [by apply He|]. by destruct (He _ _ H).
Qed.

Lemma no_cycle g c : Struct g → ¬ tc (dep_edge g) c c.
Proof.
  intros S H. apply (Acc_irreflexive (tc (dep_edge g)) c); [|done].
  apply Acc_tc, (st_acyclic _ S). by apply tc_dep_edge_ids in H as [? _].
Qed.

Lemma dep_edge_node g n d : Struct g → n ∈ nodes g → d ∈ n_depends_on n → dep_edge g d (n_id n).
Proof. intros S Hn Hd. split; [by apply (st_deps _ S n)|]. by exists n. Qed.

(** Every node is upstream of the root gate, so no node may wait for it. *)
Lemma no_root_gate_dep g rg n :
  Struct g → rg ∈ nodes g → is_root_gate rg = true → n ∈ nodes g →
  n_id rg ∉ n_depends_on n.
Proof.
  intros S Hrg Hroot Hn Hdep.
  assert (mode g = Deep) as Hm.
  { destruct (mode g) eqn:E; [done|]. apply is_root_gate_iff in Hroot as [Hg _].
    by rewrite (st_light _ S E rg) in Hg. }
  assert (tc (dep_edge g) (n_id rg) (n_id n)) as Htc by (by apply tc_once, dep_edge_node).
  clear Hdep.
  assert (sn (dep_edge g) (n_id n)) as Hsn.
  { apply tc_finite_sn; [intros x; by apply no_cycle|]. exists (node_ids g).
    intros y Hy. by apply tc_dep_edge_ids in Hy as [_ ?]. }
  remember (n_id n) as c eqn:Hc. revert n Hn Hc Htc.
  induction Hsn as [c _ IH]; intros n Hn -> Htc.
  destruct (n_parent n) as [p|] eqn:Hp.
  - destruct (st_parent _ S n p Hn Hp) as (pn & Hpn & <- & _ & _ & Hin).
    pose proof (dep_edge_node g pn (n_id n) S Hpn Hin) as He.
    apply (IH (n_id pn) He pn); [done|done|]. eapply tc_r; [exact Htc|done].
  - destruct (n_is_gate n) eqn:Hg.
    + rewrite (st_root_unique _ S n rg) in Htc; [by eapply no_cycle| |done| |done]; [done|].
      by apply is_root_gate_iff.
    + destruct (st_root_gate _ S Hm n Hn) as (rg' & Hrg' & Hr' & Hin); [by apply is_root_work_iff|].
      rewrite (st_root_unique _ S rg' rg) in Hin by done.
      apply (no_cycle g (n_id rg) S). eapply tc_r; [exact Htc|]. by apply dep_edge_node.
Qed.

(** ** The local life cycle preserves the invariant *)

Section live.
Context {g g' : TaskGraph} {h : TaskNode → TaskNode} {N : list TaskNode}.
Hypothesis S : Struct g.
Hypothesis G : Growth g g' h N.
Hypothesis L : Live g.
Hypothesis steps : ∀ n, n ∈ nodes g → node_step g n (h n).

Lemma S' : Struct g'.
Proof using S G. by eapply growth_struct. Qed.

(** Finished nodes are frozen, unless they are a root gate. *)
Lemma done_frozen n :
  n ∈ nodes g → n_status n = Done → is_root_gate n = false → h n = n.
Proof using steps.
  intros Hn Hd Hr. pose proof (steps n Hn) as Hs. inversion Hs; try congruence; try done.
  destruct H1; congruence.
Qed.

(** A new [Done] or [Running] status was earned in this step or the node did not change. *)
Lemma deps_frozen n dn :
  n ∈ nodes g → deps_done g n → dn ∈ nodes g → n_id dn ∈ n_depends_on n → h dn = dn.
Proof using S steps.
  intros Hn Hdd Hdn Hid. apply done_frozen; [done|by apply Hdd|].
  destruct (is_root_gate dn) eqn:E; [|done]. exfalso.
  by apply (no_root_gate_dep g dn n).
Qed.

Lemma deps_done_step n m :
  n ∈ nodes g → n_depends_on m = n_depends_on n → deps_done g n → deps_done g' m.
Proof using S G steps.
  intros Hn Hm Hdd dn' Hdn'. rewrite Hm. intros Hid.
  apply (growth_elem G) in Hdn' as [(dn & Hdn & ->)|Hdn'].
  - destruct (gr_same _ _ _ _ G dn) as (E & _). rewrite E in Hid.
    rewrite (deps_frozen n dn) by done. by apply Hdd.
  - exfalso. apply (ba_fresh _ _ (gr_batch _ _ _ _ G) (n_id dn')); [by apply elem_ids|].
    by apply (st_deps _ S n).
Qed.

Lemma get_dep_step n d :
  n ∈ nodes g → deps_done g n → d ∈ n_depends_on n → get g' d = get g d.
Proof using S G steps.
  intros Hn Hdd Hd. pose proof (st_deps _ S n d Hn Hd) as Hin.
  apply get_is_Some in Hin as [dn Hdn]. rewrite Hdn.
  pose proof (get_Some _ _ _ Hdn) as [Hdn1 <-].
  apply get_iff; [apply S'|]. split; [|done].
  rewrite <- (deps_frozen n dn) by done. by apply (growth_old G).
Qed.

(** The audit of a gate whose scope is finished is not disturbed. *)
Lemma validate_gate_pass_step n m a :
  n ∈ nodes g → n_id m = n_id n → n_depends_on m = n_depends_on n → m ∈ nodes g' →
  deps_done g n →
  validate_gate_pass g' (n_id m) a = validate_gate_pass g (n_id n) a.
Proof using S G steps.
  intros Hn Hid Hdeps Hm Hdd. unfold validate_gate_pass.
  rewrite (get_elem g' m), (get_elem g n) by (try done; apply S || apply S').
  assert (gate_audit_scope g' m = gate_audit_scope g n) as ->; [|by rewrite Hid].
  unfold gate_audit_scope. rewrite Hdeps. f_equal. apply omap_ext_elem.
  intros d Hd. by apply (get_dep_step n).
Qed.

Lemma accepted_step n m :
  n ∈ nodes g → m = h n → n_depends_on m = n_depends_on n → deps_done g n →
  (∃ a, n_output m = Some a
        ∧ validate_artifact (mode g) (n_id n) (n_is_gate n) a = Ok tt
        ∧ (n_is_gate n = true → validate_gate_pass g (n_id n) a = Ok tt)) →
  accepted g' m.
Proof using S G steps.
  intros Hn Hm Hdeps Hdd (a & Ho & Hv & Hp). exists a.
  destruct (gr_same _ _ _ _ G n) as (Ei & _ & Eg). rewrite <- Hm in Ei, Eg.
  rewrite (gr_mode _ _ _ _ G), Ei, Eg. split_and!; [done|done|]. intros Hg.
  rewrite <- Ei, (validate_gate_pass_step n); [by apply Hp|done|done|done| |done].
  rewrite Hm. by apply (growth_old G).
Qed.

Lemma live_step : Live g'.
Proof using S G L steps.
  destruct L as [Lr Lq Ld Lo]. split; intros n' [(n & Hn & ->)|Hn]%(growth_elem G);
    try (destruct (ba_idle _ _ (gr_batch _ _ _ _ G) n' Hn) as (Es & Eo & _));
    try pose proof (steps n Hn) as Hs; try congruence.
  - intros Hr. inversion Hs; try congruence; [apply Lr; congruence| |by eexists].
    rewrite H0. apply Lr; congruence.
  - intros Hq. inversion Hs; try congruence; [apply Lq; congruence|].
    rewrite H0. apply Lq; congruence.
  - destruct (gr_same _ _ _ _ G n) as (_ & _ & Eg). rewrite Eg. intros Hst.
    inversion Hs; try (destruct Hst as [[? ?]|?]; congruence).
    + apply (deps_done_step n); [done|congruence|]. apply Ld; [done|]. congruence.
    + exfalso. destruct Hst as [[Hst ?]|?]; [|congruence].
      rewrite H2 in *; congruence.
    + by apply (deps_done_step n).
    + by apply (deps_done_step n).
  - intros [[? _]|?]; congruence.
  - intros Hd. inversion Hs; try congruence.
    + rewrite <- !H in *. apply (accepted_step n); [done|done|done|..].
      * apply Ld; [done|]. by right.
      * by apply Lo.
    + by apply (accepted_step n).
Qed.
End live.

(** ** Every operation follows the life cycle *)

Lemma elem_gate_scope g gate n :
  n ∈ gate_audit_scope g gate ↔
  n_is_gate n = false ∧ ∃ d, d ∈ n_depends_on gate ∧ get g d = Some n.
Proof.
  unfold gate_audit_scope. rewrite list_elem_of_In, filter_In, <- list_elem_of_In.
  rewrite list_elem_of_omap, negb_true_iff. naive_solver.
Qed.

Lemma gate_pass_scope_done g id gate a n :
  validate_gate_pass g id a = Ok tt → get g id = Some gate →
  n ∈ gate_audit_scope g gate → n_status n = Done.
Proof.
  unfold validate_gate_pass. intros H Hg Hn. rewrite Hg in H.
  destruct (is_nil (gate_audit_scope g gate)) eqn:E.
  { destruct (gate_audit_scope g gate); [set_solver|done]. }
  destruct (negb (is_nil (map n_id _))) eqn:Ep; [done|]. clear H. simp_bool.
  destruct (n_status n) eqn:Es; try done; exfalso;
    (assert (n ∈ List.filter (λ n, negb (is_done n)) (gate_audit_scope g gate)) as Hin;
     [|destruct (List.filter _ _); [set_solver|done]]);
    rewrite list_elem_of_In, filter_In, <- list_elem_of_In; unfold is_done; by rewrite Es.
Qed.

Lemma deps_satisfied_iff g n :
  Struct g → n ∈ nodes g → deps_satisfied g n = true ↔ deps_done g n.
Proof.
  intros S Hn. unfold deps_satisfied, deps_done. rewrite forallb_elem. split.
  - intros H dn Hdn Hid. specialize (H _ Hid). rewrite (get_elem g dn) in H by (done || apply S).
    unfold is_done in H. by destruct (n_status dn).
  - intros H d Hd. pose proof (st_deps _ S n d Hn Hd) as Hin.
    apply get_is_Some in Hin as [dn Hdn]. rewrite Hdn. apply get_Some in Hdn as [Hdn <-].
    unfold is_done. by rewrite (H dn Hdn Hd).
Qed.

(** The dependencies of a gate are its audit scope. *)
Lemma gate_deps_done g gate a :
  Struct g → gate ∈ nodes g → n_is_gate gate = true →
  validate_gate_pass g (n_id gate) a = Ok tt → deps_done g gate.
Proof.
  intros S Hin Hg Hp dn Hdn Hid.
  apply (gate_pass_scope_done g (n_id gate) gate a); [done|by apply get_elem; [apply S|]|].
  apply elem_gate_scope. split; [by apply (st_gate_deps _ S gate)|].
  exists (n_id dn). split; [done|]. by apply get_elem; [apply S|].
Qed.

(** An operation that changes one node. *)
Lemma node_step_at g id f n0 :
  NoDup (node_ids g) → get g id = Some n0 → node_step g n0 (f n0) →
  ∀ n, n ∈ nodes g → node_step g n (at_id id f n).
Proof.
  intros Hnd Hg Hs n Hn. apply get_Some in Hg as [Hn0 <-]. unfold at_id.
  destruct (has_id (n_id n0) n) eqn:E; [|constructor]. apply has_id_iff in E.
  by rewrite (node_unique g n n0).
Qed.

Lemma get_in_ids g id n : get g id = Some n → id ∈ node_ids g.
Proof. intros H. apply get_is_Some. by eexists. Qed.

Definition local_step (g g' : TaskGraph) : Prop :=
  ∃ h N, Growth g g' h N ∧ ∀ n, n ∈ nodes g → node_step g n (h n).

(** An operation on one node that leaves the structure alone. *)
Lemma update_local g id f n0 :
  Struct g → keeps_skeleton f → get g id = Some n0 → node_step g n0 (f n0) →
  local_step g (update_node g id f).
Proof.
  intros S Hf Hg Hs. exists (at_id id f), []. split.
  - apply update_growth; [done|done|by eapply get_in_ids].
  - by apply (node_step_at g id f n0 (st_nodup _ S)).
Qed.

Lemma complete_local g id actor a g' :
  Struct g → Live g → complete_node g id actor a = Ok g' → local_step g g'.
Proof.
  intros S L (n & Hg & Ho & Hst & Hv & Hp & ->)%complete_node_Ok.
  apply (update_local g id _ n); try done. pose proof (get_Some _ _ _ Hg) as [Hn Hid].
  assert (n_is_gate n = true → validate_gate_pass g id a = Ok tt) as Hgp.
  { intros Hgate. apply Hp. rewrite Hgate. simpl. destruct (mode g) eqn:E; [done|].
    by rewrite (st_light _ S E n) in Hgate. }
  apply ns_done; try done.
  - destruct (n_is_gate n) eqn:Egt.
    + apply (gate_deps_done g n a); [done..|]. rewrite Hid. by apply Hgp.
    + apply (lv_deps _ L); [done|]. by left.
  - exists a. rewrite Hid. done.
Qed.

Lemma dispatch_local g id worker g' :
  Struct g → dispatch g id worker = (g', true) → local_step g g'.
Proof.
  intros S. unfold dispatch. destruct (get g id) as [n|] eqn:Hg; [|done].
  destruct (dispatchable g n) eqn:Hd; [|done]. intros [= <-].
  apply andb_true_iff in Hd as [Hq Hs]. pose proof (get_Some _ _ _ Hg) as [Hn _].
  apply (update_local g id _ n); try done. eapply ns_run; try done.
  - unfold is_queued in Hq. by destruct (n_status n).
  - by apply deps_satisfied_iff.
Qed.

Lemma expand_local g id actor children g' out :
  Struct g → expand_node g id actor children = Ok (g', out) → local_step g g'.
Proof.
  intros S H. destruct (expand_growth _ _ _ _ _ _ S H) as (n & deps & N & Hg & Hst & _ & HG & _).
  eexists _, N. split; [exact HG|]. apply (node_step_at _ _ _ n); [apply S|done|].
  apply ns_idle; unfold compose_parent; simpl; destruct (n_planner n); try done;
    left; congruence.
Qed.

Lemma inject_local g id actor new_nodes g' ids :
  Struct g → Live g → inject_from_gate g id actor new_nodes = Ok (g', ids) → local_step g g'.
Proof.
  intros S L H.
  destruct (inject_growth _ _ _ _ _ _ S H) as (gate & N & Hg & Hst & Hgt & HG & _ & _).
  eexists _, N. split; [exact HG|]. intros n Hn. pose proof (get_Some _ _ _ Hg) as [Hgn Hid].
  unfold inject_map. destruct (decide (n_id n = id)) as [Hni|Hni].
  - rewrite at_id_eq by done. rewrite (node_unique g n gate); [|apply S|done|done|congruence].
    destruct (n_parent gate) as [p|] eqn:Hp; [|by apply ns_idle; try (left; congruence)].
    destruct (st_parent _ S gate p Hgn Hp) as (pn & Hpn & <- & _ & Hpg & _).
    rewrite at_id_ne; [by apply ns_idle; try (left; congruence)|]. simpl.
    intros E. rewrite (node_unique g gate pn) in Hgt; [congruence|apply S|done..].
  - rewrite at_id_ne by done. destruct (n_parent gate) as [p|] eqn:Hp; [|constructor].
    destruct (decide (n_id n = p)) as [Hnp|Hnp]; [|rewrite at_id_ne by done; constructor].
    rewrite at_id_eq by done.
    destruct (st_parent _ S gate p Hgn Hp) as (pn & Hpn & Hpid & _ & Hpg & Hdep).
    assert (n = pn) as -> by (apply (node_unique g); [apply S|congruence..]).
    assert (¬ deps_done g pn) as Hnd.
    { intros Hd. specialize (Hd gate Hgn Hdep). congruence. }
    apply ns_hold; [done|done|..]; intros Hs; [|exfalso]; apply Hnd, (lv_deps _ L);
      auto.
Qed.

Lemma add_dep_id deps id : id ∈ deps → add_dep deps id = deps.
Proof. intros H. unfold add_dep. by rewrite bool_decide_true. Qed.

Lemma add_deps_id deps ids : (∀ id, id ∈ ids → id ∈ deps) → add_deps deps ids = deps.
Proof.
  unfold add_deps. induction ids as [|i ids IH]; intros H; simpl; [done|].
  rewrite add_dep_id by set_solver. apply IH. set_solver.
Qed.

Lemma set_depends_on_id n : set_depends_on (n_depends_on n) n = n.
Proof. by destruct n. Qed.

Lemma refresh_node_step g gate ids :
  is_root_gate gate = true → node_step g gate (refresh_gate ids gate).
Proof.
  intros Hg. unfold refresh_gate. cbv zeta.
  destruct (existsb _ ids) eqn:Ew; cbn [andb].
  - change (is_terminal (set_depends_on _ gate)) with (is_terminal gate).
    destruct (is_terminal gate) eqn:Et.
    + apply ns_idle; [done|done|]. by right.
    + apply ns_hold; [done|done| |]; unfold is_terminal in Et.
      * by destruct (n_status gate).
      * intros _. by apply is_root_gate_iff in Hg as [? _].
  - rewrite add_deps_id, set_depends_on_id; [constructor|].
    intros i Hi. pose proof (proj1 (existsb_elem_false _ _) Ew i Hi) as Hb.
    cbv beta in Hb. simp_bool. done.
Qed.

Lemma seed_local g specs g' : Struct g → seed g specs = Ok g' → local_step g g'.
Proof.
  intros S H. destruct (seed_growth g specs g' S H) as (h & N & _ & _ & HG & Hh & _).
  exists h, N. split; [done|]. intros n Hn.
  destruct Hh as [Hh|(gate & ids & Hin & Hr & Hh)]; rewrite Hh; [constructor|].
  apply (node_step_at g _ _ gate); [apply S|apply get_elem; [apply S|done]| |done].
  by apply refresh_node_step.
Qed.

Lemma step_local g g' : Struct g → Live g → step g g' → local_step g g'.
Proof.
  intros S L Hs. destruct Hs as [g specs g' H|g id actor children g' out H|g id actor a g' H
    |g id actor g' H|g id actor new_nodes g' ids H|g id g' H|g id worker g' H].
  - by eapply seed_local.
  - by eapply expand_local.
  - by eapply complete_local.
  - apply fail_node_Ok in H as (n & Hg & _ & Hst & ->).
    apply (update_local g id _ n); try done. by apply ns_fail.
  - by eapply inject_local.
  - apply requeue_failed_Ok in H as (n & Hg & Hst & ->).
    apply (update_local g id _ n); try done. apply ns_idle; [done|done|]. left. congruence.
  - by eapply dispatch_local.
Qed.

(** ** The invariant of the engine *)

Record Engine (g : TaskGraph) : Prop := {
  eng_struct : Struct g;
  eng_live : Live g;
}.

Lemma engine_new m : Engine (new_graph m).
Proof. split; [apply Struct_new|]. split; simpl; set_solver. Qed.

Lemma engine_step_inv g g' : Engine g → step g g' → Engine g'.
Proof.
  intros [S L] Hs. destruct (step_local g g' S L Hs) as (h & N & HG & Hst). split.
  - by eapply growth_struct.
  - by eapply live_step.
Qed.

Lemma engine_reachable m g : reachable m g → Engine g.
Proof.
  intros Hr. unfold reachable in Hr. remember (new_graph m) as g0 eqn:E.
  assert (Engine g0) as H0 by (rewrite E; apply engine_new). clear E.
  induction Hr as [g|g g1 g2 Hs _ IH]; [done|]. apply IH. by eapply engine_step_inv.
Qed.

Lemma step_mode g g' : Engine g → step g g' → mode g' = mode g.
Proof.
  intros [S L] Hs. destruct (step_local g g' S L Hs) as (h & N & HG & _). by apply HG.
Qed.

Lemma reachable_mode m g : reachable m g → mode g = m.
Proof.
  intros Hr. unfold reachable in Hr. remember (new_graph m) as g0 eqn:E.
  assert (Engine g0) as H0 by (rewrite E; apply engine_new).
  assert (mode g0 = m) as <- by (by rewrite E). clear E.
  induction Hr as [g|g g1 g2 Hs _ IH]; [done|].
  rewrite IH by (by eapply engine_step_inv). by apply step_mode.
Qed.
