(* ===== verification/DagTheorems.v ===== *)
(** * [arterm-plan]: the theorems about the task graph

    Properties of every graph the engine can build ([reachable]), of the scheduler, of the
    gate audit and of the driver loop.  [demo] is a deep plan run through a decomposition,
    its gate and the root gate; the witnesses apply the theorems to it. *)

From S2P Require Export DagSafety.

(** ** A scripted run *)

Inductive op :=
  | OpSeed (specs : list NodeSpec)
  | OpExpand (id actor : string) (children : list NodeSpec)
  | OpComplete (id actor : string) (a : HandoffArtifact)
  | OpFail (id actor : string)
  | OpInject (id actor : string) (new_nodes : list NodeSpec)
  | OpRequeue (id : string)
  | OpDispatch (id worker : string).

Definition ok_state {A E} (r : result A E) : option A :=
  match r with Ok a => Some a | Err _ => None end.

Definition apply_op (g : TaskGraph) (o : op) : option TaskGraph :=
  match o with
  | OpSeed specs => ok_state (seed g specs)
  | OpExpand id actor children => fst <$> ok_state (expand_node g id actor children)
  | OpComplete id actor a => ok_state (complete_node g id actor a)
  | OpFail id actor => ok_state (fail_node g id actor)
  | OpInject id actor new_nodes => fst <$> ok_state (inject_from_gate g id actor new_nodes)
  | OpRequeue id => ok_state (requeue_failed g id)
  | OpDispatch id worker =>
      let '(g', b) := dispatch g id worker in if b then Some g' else None
  end.

Fixpoint apply_ops (g : TaskGraph) (ops : list op) : option TaskGraph :=
  match ops with
  | [] => Some g
  | o :: ops' => let?? g' := apply_op g o in apply_ops g' ops'
  end.

Lemma ok_state_Some {A E} (r : result A E) a : ok_state r = Some a → r = Ok a.
Proof. destruct r; simpl; congruence. Qed.

Lemma apply_op_step g o g' : apply_op g o = Some g' → step g g'.
Proof.
  destruct o; simpl.
  - intros H%ok_state_Some. by eapply step_seed.
  - intros ([? ?] & H%ok_state_Some & ->)%fmap_Some. by eapply step_expand.
  - intros H%ok_state_Some. by eapply step_complete.
  - intros H%ok_state_Some. by eapply step_fail.
  - intros ([? ?] & H%ok_state_Some & ->)%fmap_Some. by eapply step_inject.
  - intros H%ok_state_Some. by eapply step_requeue.
  - destruct (dispatch g id worker) as [g1 []] eqn:E; [|done]. intros [= <-].
    by eapply step_dispatch.
Qed.

Lemma apply_ops_reachable m ops g : apply_ops (new_graph m) ops = Some g → reachable m g.
Proof.
  unfold reachable. generalize (new_graph m) as g0. induction ops as [|o ops IH]; intros g0; simpl.
  - intros [= ->]. constructor.
  - destruct (apply_op g0 o) as [g1|] eqn:E; [|done]. intros H%IH.
    eapply rtc_l; [by eapply apply_op_step|done].
Qed.

Definition demo_ops : list op :=
  [OpSeed [new_spec "survey" "map the code" Explore;
           with_deps (new_spec "fix" "fix the bug" Implement) ["survey"]];
   OpDispatch "survey" "w0";
   OpExpand "survey" "w0" [new_spec "survey.a" "read a" Explore; new_spec "survey.b" "read b" Explore];
   OpDispatch "survey.a" "w0"; OpComplete "survey.a" "w0" (deep_artifact "a is fine");
   OpDispatch "survey.b" "w1"; OpComplete "survey.b" "w1" (deep_artifact "b is fine");
   OpDispatch "survey::gate" "w2";
   OpComplete "survey::gate" "w2" (brief "checked survey.a and survey.b.");
   OpDispatch "survey" "w0"; OpComplete "survey" "w0" (deep_artifact "all read");
   OpDispatch "fix" "w1"; OpComplete "fix" "w1" (deep_artifact "fixed");
   OpDispatch "plan::gate" "w2";
   OpComplete "plan::gate" "w2" (brief "audited survey, fix: no gaps.")].

Definition run_demo (n : nat) : TaskGraph :=
  default (new_graph Deep) (apply_ops (new_graph Deep) (take n demo_ops)).

(** The plan when everything is done, and while the composite waits for its gate. *)
Definition demo : TaskGraph := run_demo 15.
Definition demo_mid : TaskGraph := run_demo 7.

Lemma demo_runs : apply_ops (new_graph Deep) demo_ops = Some demo.
Proof. vm_compute. reflexivity. Qed.

Lemma demo_reachable : reachable Deep demo.
Proof. eapply apply_ops_reachable, demo_runs. Qed.

Lemma demo_mid_reachable : reachable Deep demo_mid.
Proof. apply (apply_ops_reachable _ (take 7 demo_ops)). vm_compute. reflexivity. Qed.

Definition demo_node (id : string) : TaskNode :=
  default (gate_node "" "" Verify None []) (get demo id).

(** ** Structure *)

(** The cycle detector is exact on every graph, duplicate ids included: it returns the
    ids from which dependencies can be followed forever (on or downstream of a cycle), and
    no others. *)
Theorem cycle_nodes_exact g c :
  c ∈ cycle_nodes g ↔ c ∈ node_ids g ∧ ¬ Acc (dep_edge g) c.
Proof. apply elem_cycle_nodes. Qed.

(** C24. Every graph the engine can build has unique ids, knows all its dependencies and has
    no cycle. *)
Theorem graph_stays_well_formed m g :
  reachable m g →
  mode g = m ∧ NoDup (node_ids g) ∧ cycle_nodes g = []
  ∧ ∀ n d, n ∈ nodes g → d ∈ n_depends_on n → contains_node g d = true.
Proof.
  intros Hr. destruct (engine_reachable m g Hr) as [S L]. split_and!.
  - by apply reachable_mode.
  - apply S.
  - apply cycle_nodes_nil, S.
  - intros n d Hn Hd. apply contains_node_iff. by apply (st_deps _ S n).
Qed.

Lemma graph_stays_well_formed_witness :
  reachable Deep demo
  ∧ (mode demo = Deep ∧ NoDup (node_ids demo) ∧ cycle_nodes demo = []
     ∧ ∀ n d, n ∈ nodes demo → d ∈ n_depends_on n → contains_node demo d = true).
Proof. split; [exact demo_reachable|]. apply (graph_stays_well_formed Deep demo), demo_reachable. Defined.

(** ** Ordering *)

(** C3. No node is finished, and no work node runs, before every one of its dependencies is
    finished; this holds in every reachable graph, whatever was expanded, injected, re-seeded
    or retried in between. *)
Theorem finished_after_dependencies m g n d :
  reachable m g → n ∈ nodes g →
  n_status n = Done ∨ n_status n = Running ∧ n_is_gate n = false →
  d ∈ n_depends_on n →
  ∃ dn, get g d = Some dn ∧ n_status dn = Done.
Proof.
  intros Hr Hn Hst Hd. destruct (engine_reachable m g Hr) as [S L].
  pose proof (st_deps _ S n d Hn Hd) as Hin. apply get_is_Some in Hin as [dn Hdn].
  exists dn. split; [done|]. apply get_Some in Hdn as [Hdn <-].
  apply (lv_deps _ L n); tauto.
Qed.

Lemma finished_after_dependencies_witness :
  ∃ dn, get demo "survey" = Some dn ∧ n_status dn = Done.
Proof.
  apply (finished_after_dependencies Deep demo (demo_node "fix") "survey").
  - exact demo_reachable.
  - apply (bool_decide_unpack _). by vm_compute.
  - left. by vm_compute.
  - apply (bool_decide_unpack _). by vm_compute.
Defined.

(** C22. Finished work is immutable: whatever step the engine takes, a finished node that is
    not the root gate is still in the graph with every field unchanged, and no id ever
    disappears. *)
Theorem finished_work_is_immutable m g g' :
  reachable m g → step g g' →
  (∀ n, n ∈ nodes g → n_status n = Done → is_root_gate n = false → n ∈ nodes g')
  ∧ (∀ id, id ∈ node_ids g → id ∈ node_ids g').
Proof.
  intros Hr Hs. destruct (engine_reachable m g Hr) as [S L].
  destruct (step_local g g' S L Hs) as (h & N & G & Hst). split.
  - intros n Hn Hd Hrg. rewrite <- (done_frozen Hst n Hn Hd Hrg). by apply (growth_old G).
  - intros id Hid. rewrite (growth_ids G). set_solver.
Qed.

Lemma finished_work_is_immutable_witness :
  ∃ g', fail_node (run_demo 8) "survey::gate" "w2" = Ok g'
  ∧ (∀ n, n ∈ nodes (run_demo 8) → n_status n = Done → is_root_gate n = false → n ∈ nodes g')
  ∧ (∀ id, id ∈ node_ids (run_demo 8) → id ∈ node_ids g').
Proof.
  eexists. split; [vm_compute; reflexivity|]. apply (finished_work_is_immutable Deep).
  - apply (apply_ops_reachable _ (take 8 demo_ops)). vm_compute. reflexivity.
  - eapply (step_fail _ "survey::gate" "w2"). vm_compute. reflexivity.
Defined.

(** ** Gates *)

(** The ids a passing artifact must address. *)
Definition must_address (scope : list TaskNode) (n : TaskNode) : bool :=
  reports_low n || (length scope <=? GATE_COVERAGE_ENUMERATION_CAP) || negb (reports_high n).

Lemma unaddressed_nil a must scope :
  unaddressed a must scope = []
  ↔ ∀ n, n ∈ scope → must n = true → addressed a (n_id n) = true.
Proof.
  unfold unaddressed. split.
  - intros H n Hn Hm. destruct (addressed a (n_id n)) eqn:E; [done|exfalso].
    assert (n ∈ List.filter (λ n, negb (addressed a (n_id n))) (List.filter must scope)) as Hin.
    { rewrite !list_elem_of_In, !filter_In, <- list_elem_of_In. by rewrite E. }
    destruct (List.filter (λ n, negb _) _); [set_solver|done].
  - intros H. destruct (List.filter (λ n, negb _) _) as [|n l] eqn:E; [done|exfalso].
    assert (n ∈ List.filter (λ n, negb (addressed a (n_id n))) (List.filter must scope)) as Hin.
    { rewrite E. set_solver. }
    rewrite !list_elem_of_In, !filter_In, <- list_elem_of_In in Hin.
    destruct Hin as [[Hn Hm] Ha]. by rewrite (H n Hn Hm) in Ha.
Qed.

Lemma pending_nil scope :
  map n_id (List.filter (λ n, negb (is_done n)) scope) = []
  ↔ ∀ n, n ∈ scope → is_done n = true.
Proof.
  split.
  - intros H n Hn. destruct (is_done n) eqn:E; [done|exfalso].
    assert (n ∈ List.filter (λ n, negb (is_done n)) scope) as Hin.
    { rewrite list_elem_of_In, filter_In, <- list_elem_of_In. by rewrite E. }
    destruct (List.filter _ _); [set_solver|done].
  - intros H. destruct (List.filter _ _) as [|n l] eqn:E; [done|exfalso].
    assert (n ∈ List.filter (λ n, negb (is_done n)) scope) as Hin by (rewrite E; set_solver).
    rewrite list_elem_of_In, filter_In, <- list_elem_of_In in Hin.
    destruct Hin as [Hn Hd]. by rewrite (H n Hn) in Hd.
Qed.

Lemma is_nil_true {A} (l : list A) : is_nil l = true ↔ l = [].
Proof. by destruct l. Qed.

Lemma validate_gate_pass_Ok g gate a :
  get g (n_id gate) = Some gate →
  validate_gate_pass g (n_id gate) a = Ok tt
  ↔ ∀ n, n ∈ gate_audit_scope g gate →
         is_done n = true
         ∧ (must_address (gate_audit_scope g gate) n = true → addressed a (n_id n) = true).
Proof.
  intros Hg. unfold validate_gate_pass, must_address. rewrite Hg.
  remember (gate_audit_scope g gate) as scope eqn:Es. clear Es Hg.
  destruct (is_nil scope) eqn:En.
  { apply is_nil_true in En as ->. split; [|done]. set_solver. }
  pose proof (pending_nil scope) as Hp. pose proof (unaddressed_nil a reports_low scope) as Hl.
  pose proof (unaddressed_nil a (λ _, true) scope) as Hall.
  pose proof (unaddressed_nil a (λ n, negb (reports_high n)) scope) as Hhi.
  destruct (map n_id (List.filter (λ n, negb (is_done n)) scope)) as [|p ps] eqn:Ep; cbn [is_nil negb];
    [|split; [done|]; intros H; enough (p :: ps = []) by done; apply Hp; naive_solver].
  destruct (unaddressed a reports_low scope) as [|p ps]; cbn [is_nil negb];
    [|split; [done|]; intros H; enough (p :: ps = []) by done; apply Hl;
      intros n Hn Hm; apply H; [done|by rewrite Hm]].
  destruct (length scope <=? GATE_COVERAGE_ENUMERATION_CAP).
  - destruct (unaddressed a (λ _, true) scope) as [|p ps]; cbn [is_nil negb].
    + split; [|done]. intros _ n Hn. split; [by apply Hp|]. intros _. by apply Hall.
    + split; [done|]. intros H. enough (p :: ps = []) by done. apply Hall.
      intros n Hn _. apply H; [done|]. by rewrite orb_true_r.
  - destruct (unaddressed a (λ n, negb (reports_high n)) scope) as [|p ps]; cbn [is_nil negb].
    + split; [|done]. intros _ n Hn. split; [by apply Hp|]. rewrite orb_false_r.
      intros [Hm|Hm]%orb_true_iff; [by apply Hl|by apply Hhi].
    + split; [done|]. intros H. enough (p :: ps = []) by done. apply Hhi.
      intros n Hn Hm. apply H; [done|]. by rewrite Hm, orb_true_r.
Qed.

(** C7. A deep gate the actor runs can be completed exactly when everything it audits is
    finished and its artifact names, outside [what_i_did_not_check], every low-confidence
    node, and every node of a scope of at most twenty (in a wider one, every node that did
    not report high confidence). *)
Theorem gate_completes_iff_audited m g gate actor a :
  reachable m g → gate ∈ nodes g → n_is_gate gate = true →
  n_status gate = Running → n_owner gate = Some actor →
  (∃ g', complete_node g (n_id gate) actor a = Ok g')
  ↔ ∀ n, n ∈ gate_audit_scope g gate →
         is_done n = true
         ∧ (must_address (gate_audit_scope g gate) n = true → addressed a (n_id n) = true).
Proof.
  intros Hr Hin Hg Hst Ho. destruct (engine_reachable m g Hr) as [S L].
  assert (get g (n_id gate) = Some gate) as Hget by (by apply get_elem; [apply S|]).
  assert (requires_gates (mode g) = true) as Hm.
  { destruct (mode g) eqn:E; [done|]. by rewrite (st_light _ S E gate) in Hg. }
  rewrite <- (validate_gate_pass_Ok g gate a Hget). unfold complete_node, validate_artifact.
  rewrite Hget, Ho, Hst, Hg, Hm, !bool_decide_true by done. cbn [negb andb].
  destruct (validate_gate_pass g (n_id gate) a) as [[]|e]; split; try done; [by eexists|].
  by intros [? ?].
Qed.

Lemma gate_completes_iff_audited_witness :
  (∃ g', complete_node (run_demo 8) "survey::gate" "w2" (brief "read survey.a; survey.b too") = Ok g')
  ∧ ¬ (∃ g', complete_node (run_demo 8) "survey::gate" "w2" (brief "read survey.a") = Ok g').
Proof.
  assert (reachable Deep (run_demo 8)) as Hr.
  { apply (apply_ops_reachable _ (take 8 demo_ops)). vm_compute. reflexivity. }
  set (gate := default (gate_node "" "" Verify None []) (get (run_demo 8) "survey::gate")).
  assert (gate ∈ nodes (run_demo 8)) as Hin by (apply (bool_decide_unpack _); by vm_compute).
  pose proof (λ a, gate_completes_iff_audited Deep (run_demo 8) gate "w2" a Hr Hin
    ltac:(by vm_compute) ltac:(by vm_compute) ltac:(by vm_compute)) as H.
  change (n_id gate) with "survey::gate" in H.
  split.
  - eexists. vm_compute. reflexivity.
  - rewrite H. intros Hall.
    specialize (Hall (default (gate_node "" "" Verify None []) (get (run_demo 8) "survey.b"))).
    destruct Hall as [_ Hall]; [apply (bool_decide_unpack _); by vm_compute|].
    specialize (Hall ltac:(by vm_compute)). by vm_compute in Hall.
Defined.

(** C5. A composite node of a deep plan never closes without its gate: when it is finished, a
    gate under it is finished too, every child of it is finished, and the gate's artifact
    names every child that reported low confidence. *)
Theorem composite_survives_its_gate g n :
  reachable Deep g → n ∈ nodes g → is_composite n = true → n_status n = Done →
  ∃ gt a, gate_of g (n_id n) = Some gt ∧ n_status gt = Done ∧ n_output gt = Some a
  ∧ ∀ c, c ∈ children_of g (n_id n) →
         n_status c = Done
         ∧ (must_address (gate_audit_scope g gt) c = true → addressed a (n_id c) = true).
Proof.
  intros Hr Hn Hc Hd. destruct (engine_reachable Deep g Hr) as [S L].
  destruct (st_composite _ S (reachable_mode _ _ Hr) n Hn Hc) as (gt & Hgt & Hgg & Hgp).
  assert (gate_of g (n_id n) = Some gt) as Hof.
  { unfold gate_of. destruct (List.find _ (nodes g)) as [gt'|] eqn:E.
    - apply find_Some_elem in E as [Hgt' Hb]. unfold has_parent in Hb. simp_bool. f_equal.
      apply (st_gate_unique _ S); try done. congruence.
    - exfalso. rewrite find_None_elem in E. specialize (E gt Hgt). unfold has_parent in E.
      rewrite Hgp, Hgg, bool_decide_true in E; done. }
  assert (∀ x, x ∈ nodes g → n_parent x = Some (n_id n) → n_status x = Done) as Hchild.
  { intros x Hx Hp. destruct (st_parent _ S x _ Hx Hp) as (pn & Hpn & Hid & _ & _ & Hin).
    rewrite (node_unique g pn n) in Hin by (done || apply S).
    apply (lv_deps _ L n); [done|by right|done..]. }
  destruct (lv_done _ L gt Hgt (Hchild gt Hgt Hgp)) as (a & Ho & _ & Hpass).
  specialize (Hpass Hgg). rewrite validate_gate_pass_Ok in Hpass by (apply get_elem; [apply S|done]).
  exists gt, a. split_and!; [done|by apply Hchild|done|].
  intros c Hcc. unfold children_of in Hcc. rewrite list_elem_of_In, filter_In, <- list_elem_of_In in Hcc.
  destruct Hcc as [Hc1 Hb]. unfold has_parent in Hb. simp_bool.
  split; [by apply Hchild|]. intros Hmust. apply Hpass; [|done].
  apply elem_gate_scope. split; [done|]. exists (n_id c). split.
  - apply (st_audited _ S c gt); congruence.
  - by apply get_elem; [apply S|].
Qed.

Lemma composite_survives_its_gate_witness :
  ∃ gt a, gate_of demo "survey" = Some gt ∧ n_status gt = Done ∧ n_output gt = Some a
  ∧ ∀ c, c ∈ children_of demo "survey" →
         n_status c = Done
         ∧ (must_address (gate_audit_scope demo gt) c = true → addressed a (n_id c) = true).
Proof.
  apply (composite_survives_its_gate demo (demo_node "survey")).
  - exact demo_reachable.
  - apply (bool_decide_unpack _). by vm_compute.
  - by vm_compute.
  - by vm_compute.
Defined.

(** ** Mentions *)

(** The bytes after the first of a character differ from it, which is all the search needs
    to know of UTF-8: it holds of every Rust [&str] but the empty one. *)
Definition id_head (id : string) : bool :=
  match id with
  | EmptyString => false
  | String c rest =>
      (utf8_len c - 1 <=? String.length rest)
      && string_forallb (λ d, negb (Ascii.eqb d c)) (str_take (utf8_len c - 1) rest)
  end.

Lemma str_drop_le n (a b : string) :
  n ≤ String.length a → str_drop n (a +:+ b) = str_drop n a +:+ b.
Proof.
  revert a. induction n as [|n IH]; intros a; [done|].
  destruct a as [|c a]; simpl; [lia|]. intros H. apply IH. lia.
Qed.

Lemma str_app_inj_len (a a' b b' : string) :
  a +:+ b = a' +:+ b' → String.length a = String.length a' → a = a' ∧ b = b'.
Proof.
  revert a'. induction a as [|x a IH]; intros [|x' a']; simpl; try done.
  intros [= -> H] [= Hl]. by destruct (IH a' H Hl) as [-> ->].
Qed.

Lemma forallb_take_ne c k j (s t : string) :
  string_forallb (λ d, negb (Ascii.eqb d c)) (str_take k s) = true →
  k ≤ String.length s → j < k → first_char (str_drop j (s +:+ t)) ≠ Some c.
Proof.
  revert k s. induction j as [|j IH]; intros k s Hf Hk Hj;
    (destruct k as [|k]; [lia|]); (destruct s as [|d s]; [simpl in Hk; lia|]);
    simpl in *; apply andb_true_iff in Hf as [Hd Hf].
  - apply negb_true_iff, Ascii.eqb_neq in Hd. congruence.
  - apply (IH k); [done|lia|lia].
Qed.

Lemma id_head_skip c rest t j :
  id_head (String c rest) = true → 0 < j < utf8_len c →
  first_char (str_drop j (String c rest +:+ t)) ≠ Some c.
Proof.
  intros [Hl Hf]%andb_true_iff Hj. apply Nat.leb_le in Hl. destruct j as [|j]; [lia|].
  simpl. by apply (forallb_take_ne c (utf8_len c - 1)); [|lia..].
Qed.

Definition mention (text id a b : string) : Prop :=
  text = a +:+ id +:+ b ∧ mention_start a = true ∧ mention_end b = true.

(** After a failed match, the next possible one starts a character later. *)
Lemma next_match c rest a0 b0 a b :
  id_head (String c rest) = true →
  a0 +:+ String c rest +:+ b0 = a +:+ String c rest +:+ b →
  String.length a0 < String.length a → String.length a0 + utf8_len c ≤ String.length a.
Proof.
  intros Hid Heq Hlt.
  destruct (decide (String.length a0 + utf8_len c ≤ String.length a)) as [|Hn]; [done|exfalso].
  set (j := String.length a - String.length a0).
  apply (id_head_skip c rest b0 j Hid); [unfold j; lia|].
  assert (str_drop (String.length a) (a0 +:+ String c rest +:+ b0) = String c rest +:+ b) as Hd.
  { rewrite Heq. apply str_drop_app. }
  assert (∀ n (s : string), str_drop (String.length a0 + n) (a0 +:+ s) = str_drop n s) as Hskip.
  { intros n s. clear. induction a0; simpl; auto. }
  replace (String.length a) with (String.length a0 + j) in Hd by (unfold j; lia).
  rewrite Hskip in Hd. by rewrite Hd.
Qed.

Lemma mentions_from_iff fuel text id start :
  id_head id = true → String.length text - start < fuel → start ≤ String.length text →
  mentions_from fuel text id start = true
  ↔ ∃ a b, mention text id a b ∧ start ≤ String.length a.
Proof.
  intros Hid. destruct id as [|c rest]; [done|]. set (id := String c rest) in *.
  revert start. induction fuel as [|fuel IH]; intros start Hf Hs; [lia|].
  cbn [mentions_from]. destruct (str_find id (str_drop start text)) as [pos|] eqn:Ef.
  2: { split; [done|]. intros (a & b & (-> & _) & Hl).
       rewrite str_drop_le in Ef by done. exfalso. by apply (str_find_None _ _ Ef (str_drop start a) b). }
  pose proof (λ a b, str_find_first _ _ _ a b Ef) as Hfirst.
  apply str_find_Some in Ef as (a0 & b0 & Ed & Hpos).
  set (A := str_take start text +:+ a0).
  assert (text = A +:+ id +:+ b0) as Ht.
  { unfold A. rewrite <- str_app_assoc, <- Ed. by rewrite str_take_drop. }
  assert (String.length A = start + pos) as HA.
  { unfold A. rewrite str_length_app, str_length_take; [lia|done]. }
  assert (str_take (start + pos) text = A) as -> by (rewrite Ht, <- HA; apply str_take_app).
  assert (str_drop (start + pos) text = id +:+ b0) as -> by (rewrite Ht, <- HA; apply str_drop_app).
  assert (str_drop (start + pos + String.length id) text = b0) as ->.
  { rewrite Ht, <- HA, str_app_assoc, <- str_length_app. apply str_drop_app. }
  destruct (mention_start A && mention_end b0) eqn:Eok.
  { apply andb_true_iff in Eok as [? ?]. split; [|done]. intros _.
    exists A, b0. split; [done|]. lia. }
  assert (first_char (id +:+ b0) = Some c) as -> by done.
  assert (∀ a b, mention text id a b → start ≤ String.length a →
                 start + pos + utf8_len c ≤ String.length a) as Hnext.
  { intros a b (Hab & Hst & Hen) Hl. rewrite <- HA. apply (next_match c rest A b0 a b); [done|exact (eq_trans (eq_sym Ht) Hab)|].
    assert (pos ≤ String.length (str_drop start a)) as Hle.
    { apply (Hfirst _ b). rewrite Hab. by apply str_drop_le. }
    rewrite str_length_drop in Hle.
    destruct (decide (String.length a = String.length A)) as [He|]; [|lia].
    rewrite Ht in Hab. destruct (str_app_inj_len _ _ _ _ Hab) as [<- Hb]; [done|].
    apply str_app_inj_l in Hb as <-. by rewrite Hst, Hen in Eok. }
  assert (0 < utf8_len c) as Hu by (unfold utf8_len; repeat case_match; lia).
  destruct (Nat.leb_spec (String.length text) (start + pos + utf8_len c)) as [Hle|Hgt].
  - split; [done|]. intros (a & b & Hm & Hl). exfalso. specialize (Hnext a b Hm Hl).
    destruct Hm as (-> & _). rewrite !str_length_app in Hle. simpl in Hle. lia.
  - rewrite IH by lia. split; intros (a & b & Hm & Hl); exists a, b; (split; [done|]); [lia|].
    by eapply Hnext.
Qed.

(** [mentions_node_id] finds exactly the standalone occurrences: an occurrence of the id
    that is not preceded by an id character, and is followed by the end, by a non-id
    character, or by a full stop or colon that does not continue an id. *)
Theorem mentions_node_id_spec text id :
  id_head id = true →
  mentions_node_id text id = true ↔
  ∃ a b, text = a +:+ id +:+ b ∧ mention_start a = true ∧ mention_end b = true.
Proof.
  intros Hid. unfold mentions_node_id. destruct (is_empty id) eqn:E.
  { apply is_empty_true in E as ->. done. }
  rewrite mentions_from_iff by (done || lia). unfold mention. split.
  - intros (a & b & H & _). by exists a, b.
  - intros (a & b & H). exists a, b. split; [done|lia].
Qed.

Lemma mentions_node_id_spec_witness :
  (∃ a b, "checked explore.hot, then explore.hot.udev." = a +:+ "explore.hot" +:+ b
          ∧ mention_start a = true ∧ mention_end b = true)
  ∧ ¬ (∃ a b, "checked explore.hot.udev." = a +:+ "explore.hot" +:+ b
              ∧ mention_start a = true ∧ mention_end b = true).
Proof.
  split.
  - rewrite <- (mentions_node_id_spec _ "explore.hot") by (by vm_compute). by vm_compute.
  - rewrite <- (mentions_node_id_spec _ "explore.hot") by (by vm_compute). by vm_compute.
Defined.

(** ** Scheduling *)

Lemma elem_ready g n :
  n ∈ ready_nodes g ↔ n ∈ nodes g ∧ n_status n = Queued ∧ deps_satisfied g n = true.
Proof.
  unfold ready_nodes. rewrite elem_of_sort_by, list_elem_of_In, filter_In, <- list_elem_of_In.
  unfold dispatchable, is_queued. rewrite andb_true_iff.
  destruct (n_status n); naive_solver.
Qed.

Lemma ready_leb_total a b : ready_leb a b = true ∨ ready_leb b a = true.
Proof.
  unfold ready_leb. destruct (N.ltb_spec (n_priority a) (n_priority b)); [by left|].
  destruct (N.ltb_spec (n_priority b) (n_priority a)); [by right|].
  assert (n_priority a = n_priority b) as -> by lia. rewrite N.eqb_refl. simpl. apply str_leb_total.
Qed.

Lemma ready_leb_iff a b :
  ready_leb a b = true ↔
  (n_priority a < n_priority b)%N
  ∨ n_priority a = n_priority b ∧ String.leb (n_id a) (n_id b) = true.
Proof. unfold ready_leb. by rewrite orb_true_iff, andb_true_iff, N.ltb_lt, N.eqb_eq. Qed.

Lemma ready_leb_trans a b c : ready_leb a b = true → ready_leb b c = true → ready_leb a c = true.
Proof.
  rewrite !ready_leb_iff. intros [H1|[H1 H1']] [H2|[H2 H2']]; [left; lia..|].
  right. split; [congruence|]. by eapply str_leb_trans.
Qed.

(** The ready set holds exactly the queued nodes whose dependencies are finished, ordered
    by priority and then by id. *)
Theorem ready_nodes_exact_sorted g :
  (∀ n, n ∈ ready_nodes g ↔ n ∈ nodes g ∧ n_status n = Queued ∧ deps_satisfied g n = true)
  ∧ StronglySorted (λ a b, (n_priority a < n_priority b)%N
                           ∨ n_priority a = n_priority b ∧ String.leb (n_id a) (n_id b) = true)
      (ready_nodes g).
Proof.
  split; [intros n; apply elem_ready|].
  assert (StronglySorted (λ a b, ready_leb a b = true) (ready_nodes g)) as H.
  { apply sort_by_strongly_sorted; [apply ready_leb_total|apply ready_leb_trans]. }
  induction H as [|a l Hl IH Hf]; constructor; [done|].
  eapply Forall_impl; [exact Hf|]. intros b. apply ready_leb_iff.
Qed.

(** A queued node has a runnable node upstream of it, or meets a failed or running one. *)
Lemma runnable_upstream g n :
  Engine g → (∀ x, x ∈ nodes g → n_status x = Queued ∨ n_status x = Done) →
  n ∈ nodes g → n_status n = Queued → ready_nodes g ≠ [].
Proof.
  intros [S L] Hst Hn Hq.
  pose proof (st_acyclic _ S (n_id n) (elem_node_ids g n Hn)) as Hacc.
  remember (n_id n) as c eqn:Hc. revert n Hn Hq Hc.
  induction Hacc as [c _ IH]. intros n Hn Hq ->.
  destruct (deps_satisfied g n) eqn:Ed.
  { assert (n ∈ ready_nodes g) as Hin by (by apply elem_ready).
    destruct (ready_nodes g); [set_solver|done]. }
  unfold deps_satisfied in Ed. apply Is_true_false in Ed. rewrite forallb_True in Ed.
  apply not_Forall_Exists in Ed; [|apply _]. apply Exists_exists in Ed as (d & Hd & Hnd).
  pose proof (st_deps _ S n d Hn Hd) as Hin. apply get_is_Some in Hin as [dn Hdn].
  unfold compose in Hnd. rewrite Hdn in Hnd. pose proof (get_Some _ _ _ Hdn) as [Hdn1 Hid].
  apply (IH (n_id dn)) with dn; [|done| |done].
  - rewrite Hid. by apply dep_edge_node.
  - destruct (Hst dn Hdn1) as [?|Hd']; [done|]. exfalso. apply Hnd. unfold is_done. by rewrite Hd'.
Qed.

(** C38. No deadlock: when nothing runs, nothing failed and something is unfinished, some node
    is ready.  Cycles cannot arise, so only a failure can stall a plan. *)
Theorem scheduler_never_stalls m g :
  reachable m g →
  (∀ n, n ∈ nodes g → n_status n ≠ Running ∧ n_status n ≠ Failed) →
  all_terminal g = false → ready_nodes g ≠ [].
Proof.
  intros Hr Hst Ht.
  assert (∃ n, n ∈ nodes g ∧ n_status n = Queued) as (n & Hn & Hq).
  { destruct (decide (Exists (λ n, n_status n = Queued) (nodes g))) as [He|Hne].
    - by apply Exists_exists in He.
    - exfalso. apply not_true_iff_false in Ht. apply Ht, forallb_elem. intros n Hn.
      rewrite Exists_exists in Hne. destruct (Hst n Hn). unfold is_terminal.
      destruct (n_status n) eqn:E; try done. exfalso. apply Hne. by exists n. }
  apply (runnable_upstream g n); [by eapply engine_reachable| |done|done].
  intros x Hx. destruct (Hst x Hx). destruct (n_status x); auto; done.
Qed.

Lemma scheduler_never_stalls_witness : ready_nodes demo_mid ≠ [].
Proof.
  apply (scheduler_never_stalls Deep demo_mid).
  - exact demo_mid_reachable.
  - intros n Hn. revert n Hn. apply Forall_forall. apply (bool_decide_unpack _). by vm_compute.
  - by vm_compute.
Defined.

(** [dispatch] accepts a node exactly when it is queued and every dependency is finished;
    then the node runs under that worker, and otherwise the graph is unchanged. *)
Theorem dispatch_iff_ready m g n worker :
  reachable m g → n ∈ nodes g →
  let r := dispatch g (n_id n) worker in
  (r.2 = true ↔ n ∈ ready_nodes g)
  ∧ (r.2 = true → ∃ n', get r.1 (n_id n) = Some n' ∧ n_status n' = Running
                        ∧ n_owner n' = Some worker)
  ∧ (r.2 = false → r.1 = g).
Proof.
  intros Hr Hn. destruct (engine_reachable m g Hr) as [S L].
  assert (get g (n_id n) = Some n) as Hget by (by apply get_elem; [apply S|]).
  unfold dispatch. rewrite Hget, elem_ready. unfold dispatchable, is_queued.
  destruct (n_status n); cbn [andb]; try (cbn; naive_solver).
  destruct (deps_satisfied g n); cbn [fst snd]; [|naive_solver].
  split_and!; [naive_solver| |done]. intros _. eexists. split_and!.
  - by apply get_update_eq.
  - done.
  - done.
Qed.

Lemma dispatch_iff_ready_witness :
  (dispatch demo_mid "survey::gate" "w7").2 = true ∧ (dispatch demo_mid "survey" "w7").2 = false.
Proof.
  destruct (dispatch_iff_ready Deep demo_mid
    (default (gate_node "" "" Verify None []) (get demo_mid "survey::gate")) "w7") as [H _];
    [exact demo_mid_reachable|apply (bool_decide_unpack _); by vm_compute|].
  split; [|by vm_compute]. apply H. apply (bool_decide_unpack _). by vm_compute.
Defined.

(** ** The root gate *)

(** Every node is under a root: by induction from the joins down. *)
Lemma from_the_roots g (P : TaskNode → Prop) :
  Struct g →
  (∀ n, n ∈ nodes g → n_parent n = None → P n) →
  (∀ n pn, n ∈ nodes g → pn ∈ nodes g → n_parent n = Some (n_id pn) →
           n_id n ∈ n_depends_on pn → P pn → P n) →
  ∀ n, n ∈ nodes g → P n.
Proof.
  intros S Hroot Hchild n Hn.
  assert (sn (dep_edge g) (n_id n)) as Hsn.
  { apply tc_finite_sn; [intros x; by apply no_cycle|]. exists (node_ids g).
    intros y Hy. by apply tc_dep_edge_ids in Hy as [_ ?]. }
  remember (n_id n) as c eqn:Hc. revert n Hn Hc.
  induction Hsn as [c _ IH]; intros n Hn ->.
  destruct (n_parent n) as [p|] eqn:Hp; [|by apply Hroot].
  destruct (st_parent _ S n p Hn Hp) as (pn & Hpn & <- & _ & _ & Hin).
  apply (Hchild n pn); [done..|]. apply (IH (n_id pn)); [by apply dep_edge_node|done|done].
Qed.

(** A deep plan with work is finished exactly when its root gate is: the root gate exists,
    and it cannot close while any node at any depth is open, nor reopen unnoticed. *)
Theorem deep_plan_ends_in_root_audit g :
  reachable Deep g → nodes g ≠ [] →
  (∀ n, n ∈ nodes g → n_status n = Done)
  ↔ ∃ rg, rg ∈ nodes g ∧ is_root_gate rg = true ∧ n_status rg = Done.
Proof.
  intros Hr Hne. destruct (engine_reachable Deep g Hr) as [S L].
  pose proof (reachable_mode _ _ Hr) as Hm. split.
  - intros Hall. destruct (nodes g) as [|n0 l] eqn:E; [done|].
    assert (∃ rg, rg ∈ nodes g ∧ is_root_gate rg = true) as (rg & Hrg & Hroot).
    { refine (from_the_roots g (λ _, ∃ rg, rg ∈ nodes g ∧ is_root_gate rg = true) S _ _ n0 _);
        [|done|rewrite E; set_solver].
      intros n Hn Hp. destruct (n_is_gate n) eqn:Hg.
      - exists n. split; [done|]. by apply is_root_gate_iff.
      - destruct (st_root_gate _ S Hm n Hn) as (rg & ? & ? & _); [by apply is_root_work_iff|].
        by exists rg. }
    exists rg. rewrite <- E in *. auto.
  - intros (rg & Hrg & Hroot & Hd). apply (from_the_roots g); [done| |].
    + intros n Hn Hp. destruct (n_is_gate n) eqn:Hg.
      * rewrite (st_root_unique g S n rg); [done|done|done| |done]. by apply is_root_gate_iff.
      * apply is_root_gate_iff in Hroot as [Hgg Hgp].
        apply (lv_deps _ L rg Hrg); [by right|done|]. apply (st_audited _ S n rg); congruence.
    + intros n pn Hn Hpn _ Hin Hpd. apply (lv_deps _ L pn Hpn); [by right|done..].
Qed.

Lemma deep_plan_ends_in_root_audit_witness :
  nodes demo ≠ [] ∧ ∀ n, n ∈ nodes demo → n_status n = Done.
Proof.
  assert (nodes demo ≠ []) as Hne by (by vm_compute). split; [exact Hne|].
  apply (proj2 (deep_plan_ends_in_root_audit demo demo_reachable Hne)).
  exists (demo_node "plan::gate"). split; [apply (bool_decide_unpack _); by vm_compute|].
  by vm_compute.
Defined.
