(* ===== verification/DagRun.v ===== *)
(** * [arterm-plan]: replays, injections and the driver loop

    A seed may be repeated without effect; an injection keeps its gate closed until the new
    work drains; the driver of sim.rs terminates and reports what the graph says. *)

From S2P Require Export DagTheorems.

(** ** Replaying a seed *)

Lemma update_node_id g id f n :
  NoDup (node_ids g) → get g id = Some n → f n = n → update_node g id f = g.
Proof.
  intros Hnd Hg Hf. destruct g as [m l]. unfold update_node. f_equal. cbn [nodes].
  cbn in Hnd, Hg. rewrite update_first_map by done. rewrite <- (map_id l) at 2.
  apply map_ext_in. intros x Hx%list_elem_of_In. destruct (has_id id x) eqn:E; [|done].
  apply has_id_iff in E. rewrite <- E in Hg. change (get {| mode := m; nodes := l |} (n_id x) = Some n) in Hg.
  rewrite (get_elem {| mode := m; nodes := l |} x) in Hg by done. by injection Hg as ->.
Qed.

(** The root gate of a graph the engine keeps is up to date. *)
Lemma ensure_root_gate_id g :
  Struct g → mode g = Deep → ensure_root_gate g = g.
Proof.
  intros S Hm.
  destruct (ensure_root_gate_cases g) as [[_ ->]|[(gate & Hin & Hg & ->)|
    (gid & content & kind & Hne & _ & Hno & _)]].
  - done.
  - apply (update_node_id g _ _ gate); [apply S|by apply get_elem; [apply S|]|].
    assert (∀ i, i ∈ root_ids g → i ∈ n_depends_on gate) as Hall.
    { intros i (n & Hn & Hw & <-)%elem_root_ids. apply is_root_work_iff in Hw as [? ?].
      apply is_root_gate_iff in Hg as [? ?]. apply (st_audited _ S n gate); congruence. }
    unfold refresh_gate. rewrite add_deps_id, set_depends_on_id by done.
    replace (existsb _ (root_ids g)) with false; [done|]. symmetry. apply existsb_elem_false.
    intros i Hi. apply negb_false_iff, bool_decide_eq_true. by apply Hall.
  - exfalso. destruct (root_ids g) as [|i l] eqn:E; [done|].
    assert (i ∈ root_ids g) as (n & Hn & Hw & _)%elem_root_ids by (rewrite E; set_solver).
    destruct (st_root_gate _ S Hm n Hn Hw) as (rg & Hrg & Hr & _).
    by rewrite (Hno rg Hrg) in Hr.
Qed.

Lemma dependency_sets_equal_iff l r :
  dependency_sets_equal l r = true ↔ ∀ d, d ∈ l ↔ d ∈ r.
Proof. unfold dependency_sets_equal. rewrite bool_decide_eq_true. set_solver. Qed.

Lemma elem_declared g n d :
  d ∈ declared_dependencies g n ↔
  d ∈ n_depends_on n ∧ ∀ c, get g d = Some c → n_parent c ≠ Some (n_id n).
Proof.
  unfold declared_dependencies. rewrite list_elem_of_In, filter_In, <- list_elem_of_In.
  unfold has_parent. destruct (get g d) as [c|]; [|naive_solver].
  rewrite negb_true_iff, bool_decide_eq_false. naive_solver.
Qed.

(** A node a seed created, or recognised, is recognised again afterwards. *)
Lemma matches_fresh g s :
  Struct g → spec_to_node s None OriginSeed ∈ nodes g →
  seed_spec_matches_existing g (spec_to_node s None OriginSeed) s = true.
Proof.
  intros S Hn. unfold seed_spec_matches_existing. cbn [n_parent n_is_gate n_origin n_content n_kind
    n_priority spec_to_node]. rewrite bool_decide_false by (by intros [? ?]).
  rewrite String.eqb_refl, N.eqb_refl, bool_decide_true by done. cbn [orb negb].
  apply dependency_sets_equal_iff. intros d. rewrite elem_declared.
  rewrite (spec_to_node_deps s None OriginSeed). split; [naive_solver|]. intros Hd. split; [done|].
  intros c Hc Hp. apply get_Some in Hc as [Hc _].
  destruct (st_parent _ S c _ Hc Hp) as (pn & Hpn & Hid & He & _).
  by rewrite (node_unique g pn (spec_to_node s None OriginSeed)) in He by (done || apply S).
Qed.

Lemma matches_kept g g' h N n s :
  Struct g → Growth g g' h N → n ∈ nodes g →
  seed_spec_matches_existing g n s = true → seed_spec_matches_existing g' n s = true.
Proof.
  intros S G Hn. unfold seed_spec_matches_existing. destruct (_ || _); [done|].
  rewrite !dependency_sets_equal_iff. intros H d. rewrite <- H, !elem_declared.
  split; intros [Hd Hc]; (split; [done|]); intros c Hget;
    pose proof (st_deps _ S n d Hn Hd) as Hin; apply get_is_Some in Hin as [dn Hdn];
    pose proof (get_Some _ _ _ Hdn) as [Hdn1 <-];
    destruct (gr_same _ _ _ _ G dn) as (Ei & Ep & _);
    (assert (get g' (n_id dn) = Some (h dn)) as Hg';
     [rewrite <- Ei; apply get_elem; [by apply (growth_nodup G), S|by apply (growth_old G)]|]).
  - rewrite Hdn in Hget. injection Hget as <-. rewrite <- Ep. by apply Hc.
  - rewrite Hg' in Hget. injection Hget as <-. rewrite Ep. by apply Hc.
Qed.

(** Seeding is idempotent: repeating a request that succeeded changes nothing, so a
    transport or tool retry is safe. *)
Theorem seed_replay_is_noop m g specs g' :
  reachable m g → seed g specs = Ok g' → seed g' specs = Ok g'.
Proof.
  intros Hr Hseed. destruct (engine_reachable m g Hr) as [S L].
  destruct (seed_growth g specs g' S Hseed) as (h & N & u1 & ix1 & G & Hframe & Hc1 & HN).
  destruct (seed_Ok g specs g' Hseed) as (unique & indexes & ids & Hcol & Hmap & _ & _ & Hdeps
    & Hmatch & _ & Hac).
  rewrite Hcol in Hc1. injection Hc1 as <- <-.
  pose proof (growth_struct G S) as S1.
  assert (∀ s, s ∈ unique → ∃ n, get g' (default "" (s_id s)) = Some n
                                 ∧ seed_spec_matches_existing g' n s = true) as Hall.
  { intros s Hs. destruct (get g (default "" (s_id s))) as [n|] eqn:Eg.
    - pose proof (Hmatch s n Hs Eg) as Hm. pose proof (get_Some _ _ _ Eg) as [Hn Hid].
      exists n. split; [|by apply (matches_kept g g' h N)].
      assert (h n = n) as <-.
      { destruct Hframe as [Hh|(gate & gids & Hg & Hroot & Hh)]; [apply Hh|]. rewrite Hh.
        apply at_id_ne. intros E. rewrite (node_unique g n gate) in Hm by (done || apply S).
        apply is_root_gate_iff in Hroot as [Hgg _]. unfold seed_spec_matches_existing in Hm.
        rewrite Hgg, orb_true_r in Hm. done. }
      rewrite <- Hid. destruct (gr_same _ _ _ _ G n) as (<- & _).
      apply get_elem; [apply S1|]. by apply (growth_old G).
    - assert (spec_to_node s None OriginSeed ∈ nodes g') as Hin.
      { apply (growth_new G), HN, elem_batch_nodes. exists s. split; [|done].
        unfold fresh_specs. rewrite list_elem_of_In, filter_In, <- list_elem_of_In.
        by rewrite get_contains, Eg. }
      exists (spec_to_node s None OriginSeed). split; [|by apply matches_fresh].
      apply (get_elem g' (spec_to_node s None OriginSeed)); [apply S1|done]. }
  unfold seed. rewrite Hcol. rewrite check_batch_intro.
  2: { intros s i d (s' & [= -> ->] & Hs)%(list_elem_of_fmap (λ s, (s, default "" (s_id s)))) Hd.
       right. destruct (Hdeps s' d Hs Hd) as [Hid|Hid].
       - apply spec_ids_default in Hmap. rewrite <- Hmap in Hid.
         apply (list_elem_of_fmap (λ s, default "" (s_id s))) in Hid as (s2 & -> & Hs2).
         destruct (Hall s2 Hs2) as (n & Hn & _). by eapply get_in_ids.
       - rewrite (growth_ids G). set_solver. }
  rewrite stage_seed_replay by done. cbv zeta.
  assert ((if requires_gates (mode g') then ensure_root_gate g' else g') = g') as ->.
  { destruct (mode g') eqn:Em; [|done]. by apply ensure_root_gate_id. }
  unfold commit. apply cycle_nodes_nil in Hac. by rewrite Hac.
Qed.

Definition demo_seed : list NodeSpec :=
  [new_spec "survey" "map the code" Explore;
   with_deps (new_spec "fix" "fix the bug" Implement) ["survey"]].

Lemma seed_replay_is_noop_witness :
  ∃ g', seed (new_graph Deep) demo_seed = Ok g' ∧ nodes g' ≠ [] ∧ seed g' demo_seed = Ok g'.
Proof.
  eexists. split; [vm_compute; reflexivity|]. split; [done|].
  apply (seed_replay_is_noop Deep (new_graph Deep)); [apply rtc_refl|by vm_compute].
Defined.

(** ** Injections *)

(** A node with an unfinished dependency is not dispatched. *)
Lemma dispatch_blocked g n dn w :
  Struct g → n ∈ nodes g → dn ∈ nodes g → n_id dn ∈ n_depends_on n → n_status dn ≠ Done →
  dispatch g (n_id n) w = (g, false).
Proof.
  intros S Hn Hdn Hd Hst. unfold dispatch. rewrite (get_elem g n) by (done || apply S).
  unfold dispatchable. destruct (deps_satisfied g n) eqn:E; [|by rewrite andb_false_r].
  exfalso. apply Hst. apply deps_satisfied_iff in E; [|done..]. by apply E.
Qed.

(** After a gate injects work it is queued again without an owner, it waits for every new
    node, every new node is a queued sibling, and the gate cannot be dispatched until they
    are finished; so neither can its composite parent. *)
Theorem injection_reopens_gate m g gate_id actor new_nodes g' ids :
  reachable m g → inject_from_gate g gate_id actor new_nodes = Ok (g', ids) →
  ids ≠ [] ∧
  ∃ gate gate', get g gate_id = Some gate ∧ get g' gate_id = Some gate'
  ∧ n_status gate' = Queued ∧ n_owner gate' = None ∧ n_is_gate gate' = true
  ∧ (∀ id, id ∈ ids → id ∉ node_ids g ∧ id ∈ n_depends_on gate'
           ∧ ∃ n, get g' id = Some n ∧ n_status n = Queued ∧ n_parent n = n_parent gate
                  ∧ n_is_gate n = false)
  ∧ (∀ w, dispatch g' gate_id w = (g', false))
  ∧ (∀ p w, n_parent gate = Some p → dispatch g' p w = (g', false)).
Proof.
  intros Hr H. destruct (engine_reachable m g Hr) as [S L].
  pose proof (inject_from_gate_Ok _ _ _ _ _ _ H) as (gate & Hget & _ & Hgg & _ & _ & _ & _
    & Hnew & _).
  destruct (inject_growth _ _ _ _ _ _ S H) as (gate2 & N & Hget2 & _ & _ & G & HN & Hids & HNp).
  rewrite Hget in Hget2. injection Hget2 as <-.
  pose proof (growth_struct G S) as S1.
  pose proof (get_Some _ _ _ Hget) as [Hin Hid].
  set (h := inject_map gate_id (n_parent gate) ids) in *.
  destruct (gr_same _ _ _ _ G gate) as (Ei & Ep & Eg).
  assert (h gate ∈ nodes g') as Hin' by (by apply (growth_old G)).
  assert (get g' gate_id = Some (h gate)) as Hget'.
  { rewrite <- Hid, <- Ei. by apply get_elem; [apply S1|]. }
  assert (n_status (h gate) = Queued ∧ n_owner (h gate) = None) as [Hq Ho].
  { unfold h, inject_map. rewrite at_id_eq by done. destruct (n_parent gate); [|done].
    unfold at_id. by destruct (has_id _ _). }
  assert (∀ id, id ∈ ids → id ∈ n_depends_on (h gate)) as Hwait.
  { intros id Hi. apply inject_map_adds; [done|by left]. }
  assert (∀ id, id ∈ ids → ∃ n, n ∈ N ∧ n ∈ nodes g' ∧ n_id n = id ∧ n_status n = Queued) as Hback.
  { intros id. rewrite <- HN. intros (n & Hn & <-)%elem_ids_back. exists n.
    destruct (ba_idle _ _ (gr_batch _ _ _ _ G) n Hn) as (? & _ & _).
    split_and!; [done|by apply (growth_new G)|done|done]. }
  split; [done|]. exists gate, (h gate). split_and!; try done; [by rewrite Eg| | |].
  - intros id Hi. split; [by apply Hnew|]. split; [by apply Hwait|].
    destruct (Hback id Hi) as (n & Hn & Hn' & <- & Hnq). exists n.
    split_and!; [by apply get_elem; [apply S1|]|done|by apply HNp|by apply HNp].
  - intros w. destruct ids as [|id ids']; [done|].
    destruct (Hback id ltac:(set_solver)) as (n & _ & Hn' & Hni & Hnq).
    rewrite <- Hid, <- Ei. apply (dispatch_blocked g' (h gate) n); try done; [|congruence].
    rewrite Hni. apply Hwait. set_solver.
  - intros p w Hp. rewrite <- Ep in Hp.
    destruct (st_parent _ S1 (h gate) p Hin' Hp) as (pn & Hpn & <- & _ & _ & Hdep).
    apply (dispatch_blocked g' pn (h gate)); try done. congruence.
Qed.

Lemma injection_reopens_gate_witness :
  ∃ g', inject_from_gate (run_demo 8) "survey::gate" "w2" [new_spec "survey.c" "read c" Explore]
        = Ok (g', ["survey.c"])
  ∧ (∀ w, dispatch g' "survey::gate" w = (g', false)).
Proof.
  eexists. split; [vm_compute; reflexivity|].
  edestruct (injection_reopens_gate Deep (run_demo 8) "survey::gate" "w2"
               [new_spec "survey.c" "read c" Explore])
    as (_ & gate & gate' & _ & _ & _ & _ & _ & _ & H & _); [| |exact H].
  - apply (apply_ops_reachable _ (take 8 demo_ops)). vm_compute. reflexivity.
  - vm_compute. reflexivity.
Defined.

(** ** The driver *)

Lemma apply_action_step g id w act g' : apply_action g id w act = Ok g' → step g g'.
Proof.
  destruct act; simpl.
  - by apply step_complete.
  - destruct (expand_node g id w children) as [[g1 out]|] eqn:E; [|done]. intros [= <-].
    by eapply step_expand.
  - destruct (inject_from_gate g id w new_nodes) as [[g1 ids]|] eqn:E; [|done]. intros [= <-].
    by eapply step_inject.
  - by apply step_fail.
Qed.

Lemma dispatch_reaches g id w g' b : dispatch g id w = (g', b) → rtc step g g'.
Proof.
  intros H. destruct b; [apply rtc_once; by eapply step_dispatch|].
  unfold dispatch in H. destruct (get g id) as [n|]; [destruct (dispatchable g n)|]; try done;
    injection H as <-; constructor.
Qed.

(** A round only takes steps of the engine, and counts the actions it applied. *)
Lemma run_round_reaches {W} (worker : Worker W) mw idx ready g w k :
  match run_round worker mw idx ready g w k with
  | inl (g', _, k') => rtc step g g' ∧ k ≤ k'
  | inr (g', _) => rtc step g g'
  end.
Proof.
  revert idx g w k. induction ready as [|[id kind] ready IH]; intros idx g w k; cbn [run_round].
  { split; [constructor|lia]. }
  destruct (dispatch g id _) as [g1 b] eqn:Ed. apply dispatch_reaches in Ed as Hr.
  destruct b; cbn [negb].
  - destruct (worker w id kind _) as [act w'].
    destruct (apply_action g1 id _ act) as [g2|e] eqn:Ea; [|done].
    apply apply_action_step in Ea. specialize (IH (S idx) g2 w' (S k)).
    assert (rtc step g g2) as Hg2 by (eapply rtc_r; [exact Hr|done]).
    destruct (run_round worker mw (S idx) ready g2 w' (S k)) as [[[g' ?] k']|[g' ?]];
      [destruct IH; split; [|lia]|]; by etransitivity.
  - specialize (IH (S idx) g1 w k).
    destruct (run_round worker mw (S idx) ready g1 w k) as [[[g' ?] k']|[g' ?]];
      [destruct IH; split; [|lia]|]; by etransitivity.
Qed.

(** The first ready node is always dispatched, so a round that returns made progress. *)
Lemma run_round_progress {W} (worker : Worker W) mw g w k n rest :
  Engine g → n ∈ ready_nodes g →
  match run_round worker mw 0 ((n_id n, n_kind n) :: rest) g w k with
  | inl (_, _, k') => S k ≤ k'
  | inr _ => True
  end.
Proof.
  intros [Hs _] (Hn & Hq & Hd)%elem_ready. cbn [run_round]. unfold dispatch at 1.
  rewrite (get_elem g n) by (done || apply Hs). unfold dispatchable, is_queued. rewrite Hq, Hd.
  cbn [andb negb]. destruct (worker w _ _ _) as [act w'].
  destruct (apply_action _ _ _ act) as [g2|e]; [|done].
  pose proof (run_round_reaches worker mw 1 rest g2 w' (S k)) as H.
  destruct (run_round worker mw 1 rest g2 w' (S k)) as [[[? ?] ?]|[? ?]]; [|done]. by destruct H.
Qed.

Lemma run_loop_total {W} (worker : Worker W) mw ms fuel g w k m :
  reachable m g → ms < fuel + k →
  ∃ g' r, run_loop worker mw ms fuel g w k = Some (g', r) ∧ reachable m g'
          ∧ ∀ rep, r = Ok rep → stalled rep = negb (all_terminal g')
                   ∧ rep = report g' (steps rep) (stalled rep).
Proof.
  revert g w k. induction fuel as [|fuel IH]; intros g w k Hr Hf; cbn [run_loop];
    (destruct (all_terminal g) eqn:Et;
     [exists g; eexists; split_and!; [done..|]; intros rep [= <-]; by rewrite Et|]);
    (destruct (Nat.leb_spec ms k);
     [exists g; eexists; split_and!; [done..|]; intros rep [= <-]; by rewrite Et|]); [lia|].
  destruct (is_nil (take mw _)) eqn:En.
  { exists g. eexists. split_and!; [done..|]. intros rep [= <-]. by rewrite Et. }
  destruct (ready_nodes g) as [|n rest] eqn:Er; [by destruct mw|].
  destruct mw as [|mw]; [done|]. cbn [map take].
  assert (n ∈ ready_nodes g) as Hn by (rewrite Er; set_solver).
  set (rest' := take mw _).
  pose proof (run_round_reaches worker (S mw) 0 ((n_id n, n_kind n) :: rest') g w k) as H1.
  pose proof (run_round_progress worker (S mw) g w k n rest' (engine_reachable m g Hr) Hn) as H2.
  destruct (run_round worker (S mw) 0 _ g w k) as [[[g1 w1] k1]|[g1 e]].
  - destruct H1 as [H1 _]. apply IH; [|lia]. unfold reachable in *. by etransitivity.
  - exists g1. eexists. split_and!; [done| |done]. unfold reachable in *. by etransitivity.
Qed.

(** The driver terminates for every worker, pool size and step limit within
    [S max_steps] rounds, on a graph the engine can reach; a run that ends without an error
    reports the graph's own counts, and reports a stall exactly when some node is open. *)
Theorem run_terminates {W} m g max_workers max_steps (worker : Worker W) w :
  reachable m g →
  ∃ g' r, run g max_workers max_steps worker w = Some (g', r) ∧ reachable m g'
          ∧ ∀ rep, r = Ok rep → stalled rep = negb (all_terminal g')
                   ∧ rep = report g' (steps rep) (stalled rep).
Proof. intros Hr. unfold run. apply run_loop_total; [done|lia]. Qed.

(** A worker that passes gates and completes work. *)
Definition steady_worker : Worker unit := λ _ id kind input,
  (if is_gate_kind kind then ActComplete (gate_pass_artifact input)
   else ActComplete (deep_artifact ("did " +:+ id)), tt).

Lemma run_terminates_witness :
  ∃ g' r, run demo_mid 2 40 steady_worker tt = Some (g', r) ∧ reachable Deep g'
          ∧ ∀ rep, r = Ok rep → stalled rep = negb (all_terminal g')
                   ∧ rep = report g' (steps rep) (stalled rep).
Proof. apply run_terminates. exact demo_mid_reachable. Defined.

(** The steady worker finishes the plan. *)
Example steady_run :
  option_map snd (run demo_mid 2 40 steady_worker tt)
  = Some (Ok {| steps := 4; completed := 6; failed := 0; stalled := false |}).
Proof. vm_compute. reflexivity. Qed.
