(* ===== verification/PlanModel.v ===== *)
(** * [arterm-plan]: the shared plan (crates/arterm-plan/src/lib.rs)

    Plan items with free-text statuses, the versioned plan with its side maps, the status
    predicates, the plan-graph summary, the selection of runnable items and the assignment
    bookkeeping.  A Rust [HashMap] is a [gmap], a [HashSet] or [BTreeSet] a [gset]; where
    the source iterates a [HashMap] its order is a parameter ([cycle_visit_from]).
    Fields carry a prefix: [i_] for [PlanItem], [tp_] for [SwarmTaskProgress], [nm_] for
    [NodeMeta], [v_] for [VersionedPlan]. *)

From S2P Require Export Kahn.

(** ** Data *)

Record PlanItem := {
  i_content : string;
  i_status : string;
  i_priority : string;
  i_id : string;
  i_subsystem : option string;
  i_file_scope : list string;
  i_blocked_by : list string;
  i_assigned_to : option string;
}.

Record SwarmTaskProgress := {
  tp_assigned_session_id : option string;
  tp_assignment_summary : option string;
  tp_assigned_at_unix_ms : option N;
  tp_started_at_unix_ms : option N;
  tp_last_heartbeat_unix_ms : option N;
  tp_last_detail : option string;
  tp_last_checkpoint_unix_ms : option N;
  tp_checkpoint_summary : option string;
  tp_completed_at_unix_ms : option N;
  tp_stale_since_unix_ms : option N;
  tp_heartbeat_count : option N;
  tp_checkpoint_count : option N;
  tp_no_artifact_requeues : option N;
  tp_dead_assignee_reclaims : option N;
}.

Record NodeMeta := {
  nm_kind : option string;
  nm_parent : option string;
  nm_expanded : bool;
  nm_is_gate : bool;
  nm_planner : option string;
  nm_artifact_json : option string;
  nm_origin : option string;
}.

Record VersionedPlan := {
  v_items : list PlanItem;
  v_version : N;
  v_participants : gset string;
  v_task_progress : gmap string SwarmTaskProgress;
  v_mode : string;
  v_node_meta : gmap string NodeMeta;
}.

#[export] Instance PlanItem_eq_dec : EqDecision PlanItem. Proof. solve_decision. Defined.
#[export] Instance SwarmTaskProgress_eq_dec : EqDecision SwarmTaskProgress.
Proof. solve_decision. Defined.
#[export] Instance NodeMeta_eq_dec : EqDecision NodeMeta. Proof. solve_decision. Defined.

(** [SwarmTaskProgress::default] *)
Definition default_progress : SwarmTaskProgress :=
  {| tp_assigned_session_id := None; tp_assignment_summary := None;
     tp_assigned_at_unix_ms := None; tp_started_at_unix_ms := None;
     tp_last_heartbeat_unix_ms := None; tp_last_detail := None;
     tp_last_checkpoint_unix_ms := None; tp_checkpoint_summary := None;
     tp_completed_at_unix_ms := None; tp_stale_since_unix_ms := None;
     tp_heartbeat_count := None; tp_checkpoint_count := None;
     tp_no_artifact_requeues := None; tp_dead_assignee_reclaims := None |}.

(** [NodeMeta::default] *)
Definition default_meta : NodeMeta :=
  {| nm_kind := None; nm_parent := None; nm_expanded := false; nm_is_gate := false;
     nm_planner := None; nm_artifact_json := None; nm_origin := None |}.

(** [VersionedPlan::new] *)
Definition new_plan : VersionedPlan :=
  {| v_items := []; v_version := 0; v_participants := ∅; v_task_progress := ∅;
     v_mode := "light"; v_node_meta := ∅ |}.

Definition MAX_PLAN_ITEMS : nat := 2048.

(** Field assignments. *)
Definition set_items (items : list PlanItem) (p : VersionedPlan) : VersionedPlan :=
  {| v_items := items; v_version := v_version p; v_participants := v_participants p;
     v_task_progress := v_task_progress p; v_mode := v_mode p; v_node_meta := v_node_meta p |}.

Definition set_assigned_to (a : option string) (i : PlanItem) : PlanItem :=
  {| i_content := i_content i; i_status := i_status i; i_priority := i_priority i;
     i_id := i_id i; i_subsystem := i_subsystem i; i_file_scope := i_file_scope i;
     i_blocked_by := i_blocked_by i; i_assigned_to := a |}.

Definition set_session (s : option string) (t : SwarmTaskProgress) : SwarmTaskProgress :=
  {| tp_assigned_session_id := s; tp_assignment_summary := tp_assignment_summary t;
     tp_assigned_at_unix_ms := tp_assigned_at_unix_ms t;
     tp_started_at_unix_ms := tp_started_at_unix_ms t;
     tp_last_heartbeat_unix_ms := tp_last_heartbeat_unix_ms t;
     tp_last_detail := tp_last_detail t;
     tp_last_checkpoint_unix_ms := tp_last_checkpoint_unix_ms t;
     tp_checkpoint_summary := tp_checkpoint_summary t;
     tp_completed_at_unix_ms := tp_completed_at_unix_ms t;
     tp_stale_since_unix_ms := tp_stale_since_unix_ms t;
     tp_heartbeat_count := tp_heartbeat_count t; tp_checkpoint_count := tp_checkpoint_count t;
     tp_no_artifact_requeues := tp_no_artifact_requeues t;
     tp_dead_assignee_reclaims := tp_dead_assignee_reclaims t |}.

Definition set_reclaims (r : option N) (summary : option string) (t : SwarmTaskProgress)
  : SwarmTaskProgress :=
  {| tp_assigned_session_id := tp_assigned_session_id t;
     tp_assignment_summary := tp_assignment_summary t;
     tp_assigned_at_unix_ms := tp_assigned_at_unix_ms t;
     tp_started_at_unix_ms := tp_started_at_unix_ms t;
     tp_last_heartbeat_unix_ms := tp_last_heartbeat_unix_ms t;
     tp_last_detail := tp_last_detail t;
     tp_last_checkpoint_unix_ms := tp_last_checkpoint_unix_ms t;
     tp_checkpoint_summary := summary;
     tp_completed_at_unix_ms := tp_completed_at_unix_ms t;
     tp_stale_since_unix_ms := tp_stale_since_unix_ms t;
     tp_heartbeat_count := tp_heartbeat_count t; tp_checkpoint_count := tp_checkpoint_count t;
     tp_no_artifact_requeues := tp_no_artifact_requeues t;
     tp_dead_assignee_reclaims := r |}.

Definition set_planner_session (s : option string) (m : NodeMeta) : NodeMeta :=
  {| nm_kind := nm_kind m; nm_parent := nm_parent m; nm_expanded := nm_expanded m;
     nm_is_gate := nm_is_gate m; nm_planner := s; nm_artifact_json := nm_artifact_json m;
     nm_origin := nm_origin m |}.

(** ** Plan maintenance *)

Definition item_ids (items : list PlanItem) : gset string := list_to_set (map i_id items).

(** [prune_side_maps] *)
Definition prune_side_maps (p : VersionedPlan) : VersionedPlan :=
  let ids := item_ids (v_items p) in
  {| v_items := v_items p; v_version := v_version p; v_participants := v_participants p;
     v_task_progress := filter (λ kv, kv.1 ∈ ids) (v_task_progress p); v_mode := v_mode p;
     v_node_meta := filter (λ kv, kv.1 ∈ ids) (v_node_meta p) |}.

(** [replace_items] *)
Definition replace_items (p : VersionedPlan) (items : list PlanItem) : VersionedPlan :=
  prune_side_maps (set_items items p).

Definition rename_opt (old new : string) (s : option string) : option string :=
  if bool_decide (s = Some old) then Some new else s.

(** [rename_session] *)
Definition rename_session (p : VersionedPlan) (old new : string) : VersionedPlan :=
  {| v_items := map (λ i, set_assigned_to (rename_opt old new (i_assigned_to i)) i) (v_items p);
     v_version := v_version p;
     v_participants :=
       if bool_decide (old ∈ v_participants p)
       then {[new]} ∪ (v_participants p ∖ {[old]}) else v_participants p;
     v_task_progress :=
       (λ t, set_session (rename_opt old new (tp_assigned_session_id t)) t)
       <$> v_task_progress p;
     v_mode := v_mode p;
     v_node_meta :=
       (λ m, set_planner_session (rename_opt old new (nm_planner m)) m) <$> v_node_meta p |}.

Record SwarmPlanItemSpec := {
  is_id : string; is_content : string; is_priority : string; is_subsystem : option string;
  is_file_scope : list string; is_blocked_by : list string;
}.

Record SwarmPlanDefinition := {
  pd_version : N; pd_participants : list string; pd_items : list SwarmPlanItemSpec;
}.

Record SwarmExecutionItemState := {
  es_task_id : string; es_status : string; es_assigned_to : option string;
  es_progress : option SwarmTaskProgress;
}.

(** [plan_definition]; sorting makes the set's iteration order immaterial. *)
Definition plan_definition (p : VersionedPlan) : SwarmPlanDefinition :=
  {| pd_version := v_version p;
     pd_participants := sort_strings (elements (v_participants p));
     pd_items :=
       map (λ i, {| is_id := i_id i; is_content := i_content i; is_priority := i_priority i;
                    is_subsystem := i_subsystem i; is_file_scope := i_file_scope i;
                    is_blocked_by := i_blocked_by i |}) (v_items p) |}.

(** [execution_state] *)
Definition execution_state (p : VersionedPlan) : list SwarmExecutionItemState :=
  map (λ i, {| es_task_id := i_id i; es_status := i_status i;
               es_assigned_to := i_assigned_to i;
               es_progress := v_task_progress p !! i_id i |}) (v_items p).

(** ** Statuses *)

Definition str_in (s : string) (l : list string) : bool := existsb (String.eqb s) l.

Definition is_completed_status (s : string) : bool := str_in s ["completed"; "done"].
Definition is_terminal_status (s : string) : bool :=
  str_in s ["completed"; "done"; "failed"; "stopped"; "crashed"].
Definition is_active_status (s : string) : bool := str_in s ["running"; "running_stale"].
Definition is_failed_status (s : string) : bool :=
  is_terminal_status s && negb (is_completed_status s).
Definition is_runnable_status (s : string) : bool :=
  str_in s ["queued"; "ready"; "pending"; "todo"].

Inductive TaskControlAction := Start | Wake | Resume | Retry | Reassign | Replace | Salvage.

#[export] Instance TaskControlAction_eq_dec : EqDecision TaskControlAction.
Proof. solve_decision. Defined.

(** [TaskControlAction::parse] *)
Definition parse_action (s : string) : option TaskControlAction :=
  if String.eqb s "start" then Some Start
  else if String.eqb s "wake" then Some Wake
  else if String.eqb s "resume" then Some Resume
  else if String.eqb s "retry" then Some Retry
  else if String.eqb s "reassign" then Some Reassign
  else if String.eqb s "replace" then Some Replace
  else if String.eqb s "salvage" then Some Salvage
  else None.

Definition action_str (a : TaskControlAction) : string :=
  match a with
  | Start => "start" | Wake => "wake" | Resume => "resume" | Retry => "retry"
  | Reassign => "reassign" | Replace => "replace" | Salvage => "salvage"
  end.

(** [combine_assignment_text] *)
Definition combine_assignment_text (content : string) (message : option string) : string :=
  match message with
  | Some extra =>
      content +:+ nl +:+ nl +:+ "Additional coordinator instructions:" +:+ nl +:+ extra
  | None => content
  end.

Definition restart_instruction_prefix (a : TaskControlAction) : option string :=
  match a with
  | Resume =>
      Some "Resume your assigned task from the current session context and continue the work."
  | Retry =>
      Some "Retry your assigned task. Fix any earlier issues and continue toward completion."
  | _ => None
  end.

(** [build_control_assignment_text] *)
Definition build_control_assignment_text (a : TaskControlAction) (content : string)
  (message : option string) : string :=
  String.concat (nl +:+ nl)
    (match restart_instruction_prefix a with Some p => [p] | None => [] end
     ++ [content]
     ++ match message with
        | Some extra => ["Additional coordinator instructions:" +:+ nl +:+ extra]
        | None => []
        end).

(** [task_control_action_allows_status] *)
Definition task_control_action_allows_status (a : TaskControlAction) (s : string) : bool :=
  match a with
  | Start | Wake => String.eqb s "queued"
  | Resume => str_in s ["queued"; "running"; "running_stale"]
  | Retry => str_in s ["failed"; "running_stale"]
  | Reassign | Replace | Salvage => negb (is_completed_status s)
  end.

(** [task_control_status_error] *)
Definition task_control_status_error (a : TaskControlAction) (status task_id : string) : string :=
  let head := "Task '" +:+ task_id +:+ "' is '" +:+ status +:+ "' and cannot be " in
  let closed := "Task '" +:+ task_id +:+ "' is already complete. " in
  match a with
  | Start => head +:+ "started. Use start only for queued assignments."
  | Wake => head +:+ "woken. Use wake only for queued assignments."
  | Resume => head +:+ "resumed safely."
  | Retry => head +:+ "retried. Retry is only for failed or stale work."
  | Reassign => closed +:+ "Reassign unfinished work instead."
  | Replace => closed +:+ "Replace is only for unfinished work."
  | Salvage => closed +:+ "Salvage is only for unfinished or failed work."
  end.

(** [priority_rank] *)
Definition priority_rank (p : string) : nat :=
  if str_in p ["high"; "urgent"; "p0"] then 0
  else if str_in p ["medium"; "normal"; "p1"] then 1
  else if str_in p ["low"; "p2"] then 2
  else 1.

(** ** Dependencies and cycles *)

Definition completed_item_ids (items : list PlanItem) : gset string :=
  list_to_set (map i_id (List.filter (λ i, is_completed_status (i_status i)) items)).

Definition unresolved_dependencies (i : PlanItem) (known completed : gset string)
  : list string :=
  filter (λ d, d ∈ known ∧ d ∉ completed) (i_blocked_by i).

Definition missing_dependencies (i : PlanItem) (known : gset string) : list string :=
  filter (λ d, d ∉ known) (i_blocked_by i).

Definition is_empty_list {A} (l : list A) : bool := match l with [] => true | _ => false end.

Definition is_unblocked (i : PlanItem) (known completed : gset string) : bool :=
  is_empty_list (missing_dependencies i known)
  && is_empty_list (unresolved_dependencies i known completed).

(** The in-graph dependencies of an item, with multiplicity. *)
Definition known_deps (ids : gset string) (i : PlanItem) : list string :=
  filter (λ d, d ∈ ids) (i_blocked_by i).

Definition entry_or_zero (m : gmap string nat) (i : PlanItem) : gmap string nat :=
  match m !! i_id i with Some _ => m | None => <[i_id i := 0]> m end.

Definition bump {K} `{Countable K} (n : nat) (m : gmap K nat) (k : K) : gmap K nat :=
  <[k := default 0 (m !! k) + n]> m.

(** The second loop: one in-degree and one [dependents] entry per known dependency. *)
Definition count_edges (ids : gset string) (st : gmap string nat * gmap string (list string))
  (i : PlanItem) : gmap string nat * gmap string (list string) :=
  foldl (λ st d, (bump 1 st.1 (i_id i), <[d := default [] (st.2 !! d) ++ [i_id i]]> st.2))
    st (known_deps ids i).

Definition plan_edges (items : list PlanItem)
  : gmap string nat * gmap string (list string) :=
  foldl (count_edges (item_ids items)) (foldl entry_or_zero ∅ items, ∅) items.

(** The loop of [cycle_item_ids] from a start queue, in the order the [HashMap] gave it. *)
Definition cycle_visit_from (items : list PlanItem) (queue : list string)
  : option (gmap string nat * gset string) :=
  let '(indegree, dependents) := plan_edges items in
  kahn_loop (λ id, default [] (dependents !! id)) (length items) queue indegree ∅.

Definition start_ids (items : list PlanItem) : list string :=
  map fst (filter (λ p, p.2 = 0) (map_to_list (plan_edges items).1)).

Definition leftover_ids (r : option (gmap string nat * gset string)) : list string :=
  match r with
  | Some (indegree, visited) =>
      sort_strings (map fst (filter (λ p, 0 < p.2 ∧ p.1 ∉ visited) (map_to_list indegree)))
  | None => []
  end.

(** [cycle_item_ids] *)
Definition cycle_item_ids (items : list PlanItem) : list string :=
  leftover_ids (cycle_visit_from items (start_ids items)).

(** ** The summary *)

Record PlanGraphSummary := {
  ready_ids : list string;
  blocked_ids : list string;
  active_ids : list string;
  completed_ids : list string;
  failed_ids : list string;
  terminal_ids : list string;
  unresolved_dependency_ids : list string;
  cycle_ids : list string;
}.

Section summary.
Context (items : list PlanItem).
Let known : gset string := item_ids items.
Let done : gset string := completed_item_ids items.
Let cycles : gset string := list_to_set (cycle_item_ids items).

Definition has_missing (i : PlanItem) : bool :=
  negb (is_empty_list (missing_dependencies i known)).

Definition has_dependency_blocker (i : PlanItem) : bool :=
  negb (is_empty_list (unresolved_dependencies i known done))
  || bool_decide (i_id i ∈ cycles).

(** The first branch of the loop. *)
Definition item_ready (i : PlanItem) : bool :=
  is_runnable_status (i_status i) && negb (has_missing i) && negb (has_dependency_blocker i).

(** The [else if]. *)
Definition item_blocked (i : PlanItem) : bool :=
  negb (item_ready i)
  && (negb (is_terminal_status (i_status i)) && negb (is_active_status (i_status i))
      && (has_missing i || has_dependency_blocker i || String.eqb (i_status i) "blocked")).

Definition select (f : PlanItem → bool) : list string := map i_id (List.filter f items).

(** A [BTreeSet] iterates its elements in order, once. *)
Definition btree (l : list string) : list string := sort_strings (dedup_first [] l).

Definition summarize_plan_graph : PlanGraphSummary :=
  {| ready_ids := sort_strings (select item_ready);
     blocked_ids := sort_strings (select item_blocked);
     active_ids := sort_strings (select (λ i, is_active_status (i_status i)));
     completed_ids := btree (select (λ i, is_completed_status (i_status i)));
     failed_ids := btree (select (λ i, is_failed_status (i_status i)));
     terminal_ids := btree (select (λ i, is_terminal_status (i_status i)));
     unresolved_dependency_ids :=
       btree (concat (map (λ i, missing_dependencies i known) items));
     cycle_ids := cycle_item_ids items |}.
End summary.

(** ** Selection *)

(** [priority_rank(l).cmp(&priority_rank(r)).then_with(|| l.id.cmp(&r.id))] is not [Greater]. *)
Definition item_leb (a b : PlanItem) : bool :=
  Nat.ltb (priority_rank (i_priority a)) (priority_rank (i_priority b))
  || (Nat.eqb (priority_rank (i_priority a)) (priority_rank (i_priority b))
      && String.leb (i_id a) (i_id b)).

(** [next_runnable_item_ids] *)
Definition next_runnable_item_ids (items : list PlanItem) (limit : option nat) : list string :=
  let ready : gset string := list_to_set (ready_ids (summarize_plan_graph items)) in
  let ids := map i_id (sort_by item_leb (filter (λ i, i_id i ∈ ready) items)) in
  match limit with Some n => take n ids | None => ids end.

Definition find_item (items : list PlanItem) (id : string) : option PlanItem :=
  List.find (λ i, String.eqb (i_id i) id) items.

(** The loop that counts one per owner. *)
Definition count_owner (m : gmap string nat) (o : option string) : gmap string nat :=
  match o with Some owner => bump 1 m owner | None => m end.

(** [assignment_loads] *)
Definition assignment_loads (p : VersionedPlan) : gmap string nat :=
  foldl (λ m i, if is_terminal_status (i_status i) then m else count_owner m (i_assigned_to i))
    ∅ (v_items p).

(** [next_unassigned_runnable_item_id] *)
Definition next_unassigned_runnable_item_id (p : VersionedPlan) : option string :=
  List.find
    (λ id, match find_item (v_items p) id with
           | Some i => bool_decide (i_assigned_to i = None)
           | None => false
           end)
    (next_runnable_item_ids (v_items p) None).

Definition MAX_DEAD_ASSIGNEE_RECLAIMS : N := 3.

Definition reclaims (p : VersionedPlan) (id : string) : N :=
  default 0%N (let?? t := v_task_progress p !! id in tp_dead_assignee_reclaims t).

(** [next_stranded_runnable_item_id]; [assignee_is_dead] is the caller's predicate. *)
Definition next_stranded_runnable_item_id (p : VersionedPlan) (assignee_is_dead : string → bool)
  : option string :=
  List.find
    (λ id, match find_item (v_items p) id with
           | None => false
           | Some i =>
               match i_assigned_to i with
               | None => false
               | Some assignee =>
                   assignee_is_dead assignee && N.ltb (reclaims p id) MAX_DEAD_ASSIGNEE_RECLAIMS
               end
           end)
    (next_runnable_item_ids (v_items p) None).

(** Assigning through [items.iter_mut().find(..)]. *)
Fixpoint update_item (id : string) (f : PlanItem → PlanItem) (l : list PlanItem)
  : list PlanItem :=
  match l with
  | [] => []
  | i :: l' => if String.eqb (i_id i) id then f i :: l' else i :: update_item id f l'
  end.

(** [u32] and [u64] addition, which wraps in a release build. *)
Definition add_u32 (a b : N) : N := ((a + b) mod 2 ^ 32)%N.
Definition add_u64 (a b : N) : N := ((a + b) mod 2 ^ 64)%N.

(** [reclaim_stranded_assignment]; the flag is the returned [bool]. *)
Definition reclaim_stranded_assignment (p : VersionedPlan) (task_id : string)
  : VersionedPlan * bool :=
  match find_item (v_items p) task_id with
  | None => (p, false)
  | Some i =>
      match i_assigned_to i with
      | None => (p, false)
      | Some previous =>
          let progress := default default_progress (v_task_progress p !! task_id) in
          let count := add_u32 (default 0%N (tp_dead_assignee_reclaims progress)) 1 in
          let summary :=
            "assignment reclaimed: previous assignee " +:+ previous +:+ " is dead" in
          ({| v_items := update_item task_id (set_assigned_to None) (v_items p);
              v_version := add_u64 (v_version p) 1; v_participants := v_participants p;
              v_task_progress :=
                <[task_id := set_reclaims (Some count) (Some summary) (set_session None progress)]>
                  (v_task_progress p);
              v_mode := v_mode p; v_node_meta := v_node_meta p |}, true)
      end
  end.

Definition control_rank (status : string) : nat :=
  if str_in status ["running"; "running_stale"] then 0
  else if str_in status ["queued"; "ready"; "pending"; "todo"] then 1
  else if str_in status ["failed"; "stopped"; "crashed"] then 2
  else if str_in status ["completed"; "done"] then 3
  else 4.

(** [task_control_target_item_id] *)
Definition task_control_target_item_id (items : list PlanItem) (target_session : string)
  (action : TaskControlAction) : result string string :=
  let candidates :=
    sort_by (λ a b, Nat.leb (control_rank (i_status a)) (control_rank (i_status b)))
      (List.filter (λ i, task_control_action_allows_status action (i_status i))
         (filter (λ i, i_assigned_to i = Some target_session) items)) in
  let many :=
    Err ("Multiple tasks assigned to '" +:+ target_session +:+ "' can be " +:+ action_str action
         +:+ ": " +:+ String.concat ", " (map i_id candidates)
         +:+ ". Provide task_id explicitly.") in
  match candidates with
  | [] =>
      Err ("No task assigned to '" +:+ target_session +:+ "' can be " +:+ action_str action
           +:+ ". Provide task_id explicitly, or assign a task first.")
  | [i] => Ok (i_id i)
  | first :: second :: _ =>
      if negb (String.eqb (i_status first) (i_status second)) then Ok (i_id first) else many
  end.

(** [explicit_task_blocked_reason] *)
Definition explicit_task_blocked_reason (p : VersionedPlan) (task_id : string) : option string :=
  let known := item_ids (v_items p) in
  let completed := completed_item_ids (v_items p) in
  let?? i := find_item (v_items p) task_id in
  let missing := missing_dependencies i known in
  if negb (is_empty_list missing) then
    Some ("Task '" +:+ i_id i +:+ "' has missing dependencies: " +:+ String.concat ", " missing)
  else
    let unresolved := unresolved_dependencies i known completed in
    if negb (is_empty_list unresolved) then
      Some ("Task '" +:+ i_id i +:+ "' is still blocked by: " +:+ String.concat ", " unresolved)
    else if bool_decide (i_id i ∈ cycle_item_ids (v_items p)) then
      Some ("Task '" +:+ i_id i +:+ "' is part of a dependency cycle and is not runnable")
    else None.

Record AssignmentAffinities := {
  loads : gmap string nat;
  dependency_carryover : gmap string nat;
  metadata_carryover : gmap string nat;
}.

(** One dependency's contribution: the owner of the item, and the session of its progress. *)
Definition carry_dependency (p : VersionedPlan) (m : gmap string nat) (d : string)
  : gmap string nat :=
  let m1 := count_owner m (let?? i := find_item (v_items p) d in i_assigned_to i) in
  count_owner m1 (let?? t := v_task_progress p !! d in tp_assigned_session_id t).

Definition same_subsystem (task i : PlanItem) : bool :=
  match i_subsystem task, i_subsystem i with
  | Some l, Some r => String.eqb l r
  | _, _ => false
  end.

Definition scope_overlap (task i : PlanItem) : nat :=
  length (filter (λ path, path ∈ i_file_scope i) (i_file_scope task)).

(** One item's contribution to the metadata carry-over. *)
Definition carry_metadata (task : PlanItem) (m : gmap string nat) (i : PlanItem)
  : gmap string nat :=
  match i_assigned_to i with
  | None => m
  | Some owner =>
      if String.eqb (i_id i) (i_id task) then m
      else
        let m1 := if same_subsystem task i then bump 2 m owner else m in
        if negb (is_empty_list (i_file_scope task)) && negb (is_empty_list (i_file_scope i))
           && Nat.ltb 0 (scope_overlap task i)
        then bump (scope_overlap task i) m1 owner else m1
  end.

(** [assignment_affinities_for_task] *)
Definition assignment_affinities_for_task (p : VersionedPlan) (task_id : string)
  : result AssignmentAffinities string :=
  match find_item (v_items p) task_id with
  | None => Err ("Task '" +:+ task_id +:+ "' not found in swarm plan")
  | Some task =>
      Ok {| loads := assignment_loads p;
            dependency_carryover := foldl (carry_dependency p) ∅ (i_blocked_by task);
            metadata_carryover := foldl (carry_metadata task) ∅ (v_items p) |}
  end.

(** [newly_ready_item_ids] *)
Definition newly_ready_item_ids (before after : list PlanItem) : list string :=
  let before_ready : gset string := list_to_set (ready_ids (summarize_plan_graph before)) in
  filter (λ id, id ∉ before_ready) (ready_ids (summarize_plan_graph after)).
