(* ===== verification/PlanTheorems.v ===== *)
(** * [arterm-plan]: the theorems about the shared plan

    The plan's cycle detector is exact and independent of the [HashMap] order; the summary,
    the selection and the explicit check agree; reclaiming is bounded; renames are
    reversible; pruning keeps exactly the live entries. *)

From S2P Require Export PlanModel.

(** ** The cycle detector *)

Section cycles.
Context (items : list PlanItem).
Let U : list string := dedup_first [] (map i_id items).
Let ids : gset string := item_ids items.

(** [c] is blocked by the known id [d]. *)
Definition blocks (d c : string) : Prop :=
  d ∈ ids ∧ ∃ i, i ∈ items ∧ i_id i = c ∧ d ∈ i_blocked_by i.

Lemma elem_U c : c ∈ U ↔ c ∈ map i_id items.
Proof. unfold U. rewrite elem_of_dedup_first. set_solver. Qed.

Lemma elem_ids_U c : c ∈ ids ↔ c ∈ U.
Proof. rewrite elem_U. unfold ids, item_ids. by rewrite elem_of_list_to_set. Qed.

(** Adding one edge adds one to one sum. *)
Lemma sum_of_bump (f f' : string → nat) d k l :
  NoDup l → d ∈ l → f' d = f d + k → (∀ x, x ≠ d → f' x = f x) →
  sum_of f' l = sum_of f l + k.
Proof.
  clear. intros Hnd Hd Hfd Hf. induction l as [|x l IH]; [set_solver|].
  apply NoDup_cons in Hnd as [Hx Hl]. rewrite !sum_of_cons.
  destruct (decide (x = d)) as [->|Hne].
  - rewrite Hfd, (sum_of_ext f' f l); [lia|]. intros y Hy. apply Hf. set_solver.
  - rewrite Hf by done. rewrite IH by (done || set_solver). lia.
Qed.

Definition targets_of (m : gmap string (list string)) (d : string) : list string :=
  default [] (m !! d).

(** In-degrees and dependents tell the same story. *)
Definition edges_inv (st : gmap string nat * gmap string (list string)) : Prop :=
  ∀ c, st.1 !! c = if decide (c ∈ U)
                   then Some (sum_of (λ d, occ c (targets_of st.2 d)) U) else None.

Lemma occ_snoc c x l : occ c (l ++ [x]) = occ c l + (if decide (x = c) then 1 else 0).
Proof. unfold occ. by rewrite sum_of_app, sum_of_singleton. Qed.

Lemma edges_inv_step st i d :
  i ∈ items → d ∈ ids → edges_inv st →
  edges_inv (bump 1 st.1 (i_id i), <[d := targets_of st.2 d ++ [i_id i]]> st.2).
Proof.
  intros Hi Hd Hinv c. cbn [fst snd]. unfold bump.
  assert (i_id i ∈ U) as Hiu by (apply elem_U; by apply (list_elem_of_fmap_2 i_id)).
  apply elem_ids_U in Hd.
  assert (∀ c, sum_of (λ d0, occ c (targets_of (<[d:=targets_of st.2 d ++ [i_id i]]> st.2) d0)) U
               = sum_of (λ d0, occ c (targets_of st.2 d0)) U
                 + (if decide (i_id i = c) then 1 else 0)) as Hsum.
  { intros c'. apply (sum_of_bump _ _ d); [apply NoDup_dedup_first|done| |].
    - unfold targets_of at 1. rewrite lookup_insert_eq. apply occ_snoc.
    - intros x Hx. unfold targets_of. by rewrite lookup_insert_ne. }
  rewrite Hsum. destruct (decide (i_id i = c)) as [<-|Hne].
  - rewrite lookup_insert_eq, Hinv. by rewrite !decide_True by done.
  - rewrite lookup_insert_ne, Hinv, Nat.add_0_r by done. done.
Qed.

Definition deps_inv (done : list (string * string)) (m : gmap string (list string)) : Prop :=
  ∀ d c, c ∈ targets_of m d ↔ (d, c) ∈ done.

Lemma deps_inv_step done m d c :
  deps_inv done m → deps_inv (done ++ [(d, c)]) (<[d := targets_of m d ++ [c]]> m).
Proof.
  intros H d' c'. unfold targets_of at 1. rewrite elem_of_app, list_elem_of_singleton.
  destruct (decide (d' = d)) as [->|Hne].
  - rewrite lookup_insert_eq. simpl. rewrite elem_of_app, list_elem_of_singleton, (H d c').
    naive_solver.
  - rewrite lookup_insert_ne by done. rewrite (H d' c'). naive_solver.
Qed.

Definition item_edges (i : PlanItem) : list (string * string) :=
  map (λ d, (d, i_id i)) (known_deps ids i).

Lemma count_edges_inv i done st :
  i ∈ items → edges_inv st → deps_inv done st.2 →
  edges_inv (count_edges ids st i) ∧ deps_inv (done ++ item_edges i) (count_edges ids st i).2.
Proof.
  intros Hi. unfold count_edges, item_edges.
  assert (∀ d, d ∈ known_deps ids i → d ∈ ids) as Hk.
  { intros d [Hd _]%list_elem_of_filter. done. }
  revert done st Hk. induction (known_deps ids i) as [|d l IH]; intros done st Hk He Hd; cbn [foldl map].
  - by rewrite app_nil_r.
  - change (done ++ (d, i_id i) :: map (λ d0, (d0, i_id i)) l)
      with (done ++ [(d, i_id i)] ++ map (λ d0, (d0, i_id i)) l).
    rewrite app_assoc. apply IH; [set_solver| |].
    + apply (edges_inv_step st i d); [done|apply Hk; set_solver|done].
    + by apply deps_inv_step.
Qed.

Lemma entry_fold_lookup l m c :
  foldl entry_or_zero m l !! c
  = match m !! c with
    | Some v => Some v
    | None => if decide (c ∈ map i_id l) then Some 0 else None
    end.
Proof.
  clear. revert m. induction l as [|i l IH]; intros m; cbn [foldl map].
  - by destruct (m !! c).
  - rewrite IH. unfold entry_or_zero. destruct (m !! i_id i) eqn:E.
    + destruct (m !! c) eqn:Ec; [done|]. assert (c ≠ i_id i) by congruence.
      repeat case_decide; set_solver.
    + destruct (decide (c = i_id i)) as [->|Hne].
      * rewrite lookup_insert_eq, E. rewrite decide_True by set_solver. done.
      * rewrite lookup_insert_ne by done. destruct (m !! c); [done|].
        repeat case_decide; set_solver.
Qed.

Lemma plan_edges_inv :
  edges_inv (plan_edges items)
  ∧ deps_inv (concat (map item_edges items)) (plan_edges items).2.
Proof.
  unfold plan_edges. fold ids.
  assert (∀ l done st, (∀ i, i ∈ l → i ∈ items) → edges_inv st → deps_inv done st.2 →
    edges_inv (foldl (count_edges ids) st l)
    ∧ deps_inv (done ++ concat (map item_edges l)) (foldl (count_edges ids) st l).2) as Hl.
  { induction l as [|i l IH]; intros done st Hin He Hd; cbn [foldl map concat].
    - by rewrite app_nil_r.
    - rewrite app_assoc. destruct (count_edges_inv i done st) as [? ?]; [apply Hin; set_solver|done..|].
      apply IH; [set_solver|done|done]. }
  apply (Hl items [] _); [done| |].
  - intros c. cbn [fst snd]. rewrite entry_fold_lookup, lookup_empty.
    repeat case_decide; try done.
    + f_equal. symmetry. apply sum_of_zero. intros d _. unfold targets_of. by rewrite lookup_empty.
    + exfalso. apply H0. by apply elem_U.
    + exfalso. apply H. by apply elem_U.
  - intros d c. unfold targets_of. cbn [snd]. rewrite lookup_empty. set_solver.
Qed.

Definition plan_targets (d : string) : list string := targets_of (plan_edges items).2 d.

Lemma elem_plan_targets d c : c ∈ plan_targets d ↔ blocks d c.
Proof.
  unfold plan_targets. rewrite (proj2 plan_edges_inv d c).
  rewrite list_elem_of_In, in_concat. setoid_rewrite <- list_elem_of_In. unfold blocks. split.
  - intros (l & (i & -> & Hi)%(list_elem_of_fmap item_edges) & Hl).
    apply (list_elem_of_fmap (λ d, (d, i_id i))) in Hl as (d' & [= -> ->] & [? ?]%list_elem_of_filter).
    split; [done|]. by exists i.
  - intros (Hd & i & Hi & <- & Hb). exists (item_edges i).
    split; [by apply (list_elem_of_fmap_2 item_edges)|].
    apply (list_elem_of_fmap_2 (λ d, (d, i_id i))). by apply list_elem_of_filter.
Qed.

Lemma plan_indegree c :
  (plan_edges items).1 !! c
  = if decide (c ∈ U) then Some (sum_of (λ d, occ c (plan_targets d)) U) else None.
Proof. apply plan_edges_inv. Qed.

Lemma elem_start_ids c : c ∈ start_ids items ↔ (plan_edges items).1 !! c = Some 0.
Proof.
  unfold start_ids. split.
  - intros ([k v] & -> & [H Hk]%list_elem_of_filter)%(list_elem_of_fmap fst).
    apply elem_of_map_to_list in Hk. simpl in *. congruence.
  - intros Hc. apply (list_elem_of_fmap fst). exists (c, 0). split; [done|].
    apply list_elem_of_filter. split; [done|]. by apply elem_of_map_to_list.
Qed.

Lemma NoDup_start_ids : NoDup (start_ids items).
Proof.
  unfold start_ids.
  apply (sublist_NoDup _ _ (NoDup_fst_map_to_list (plan_edges items).1)).
  apply fmap_sublist, sublist_filter.
Qed.

Lemma length_U : length U ≤ length items.
Proof.
  transitivity (length (map i_id items)); [|by rewrite length_map].
  apply submseteq_length, NoDup_submseteq; [apply NoDup_dedup_first|].
  intros c. by rewrite elem_U.
Qed.

(** The loop from any order of the start ids: it ends, and what it leaves is exact. *)
Lemma cycle_visit_exact queue :
  queue ≡ₚ start_ids items →
  is_Some (cycle_visit_from items queue)
  ∧ ∀ c, c ∈ leftover_ids (cycle_visit_from items queue) ↔ c ∈ ids ∧ ¬ Acc blocks c.
Proof.
  intros Hq. unfold cycle_visit_from. destruct (plan_edges items) as [ind deps] eqn:E.
  change (λ id, default [] (deps !! id)) with (targets_of deps).
  assert (∀ d, targets_of deps d = plan_targets d) as Ht.
  { intros d. unfold plan_targets. by rewrite E. }
  assert (∀ c, ind !! c = (plan_edges items).1 !! c) as Hi by (intros; by rewrite E).
  destruct (kahn_correct U (targets_of deps)) with
    (fuel := length items) (queue := queue) (indegree := ind) as (i' & v' & Hk & Hsub & Hv).
  - apply NoDup_dedup_first.
  - intros d c _. rewrite Ht, elem_plan_targets. intros (_ & i & Hii & <- & _).
    apply elem_U. by apply (list_elem_of_fmap_2 i_id).
  - apply length_U.
  - intros c Hc. rewrite Hi, plan_indegree, decide_True by done. f_equal.
    apply sum_of_ext. intros d _. by rewrite Ht.
  - rewrite Hq. apply NoDup_start_ids.
  - intros c. rewrite Hq, elem_start_ids, <- Hi. split; [|naive_solver]. intros Hc. split; [|done].
    rewrite Hi, plan_indegree in Hc. by case_decide.
  - rewrite Hk. split; [by eexists|]. intros c. unfold leftover_ids.
    rewrite elem_of_sort_strings.
    assert (∀ a b, edge U (targets_of deps) a b ↔ blocks a b) as He.
    { intros a b. unfold edge. rewrite Ht, elem_plan_targets, <- elem_ids_U. unfold blocks. tauto. }
    assert (c ∈ U → c ∈ v' ↔ Acc blocks c) as Hacc.
    { intros Hc. destruct (Hv c Hc) as [-> _].
      split; apply Acc_iff; intros a b; by rewrite He. }
    assert (∀ c, is_Some (i' !! c) → c ∈ U) as Hdom.
    { intros x. rewrite <- elem_of_dom, (kahn_loop_dom _ _ _ _ _ _ _ Hk), elem_of_dom, Hi,
        plan_indegree. by case_decide; [|intros [? ?]]. }
    rewrite elem_ids_U. split.
    + intros ([k d] & -> & [[Hd Hn] Hkd%elem_of_map_to_list]%list_elem_of_filter)%(list_elem_of_fmap fst).
      simpl in *. assert (k ∈ U) as Hk' by (apply Hdom; by eexists).
      split; [done|]. by rewrite <- Hacc.
    + intros [Hc Hna]. rewrite <- Hacc in Hna by done.
      destruct (Hv c Hc) as (_ & H0 & [d Hd]).
      apply (list_elem_of_fmap fst). exists (c, d). split; [done|].
      apply list_elem_of_filter. split; [split; [|done]|by apply elem_of_map_to_list].
      simpl. destruct d; [|lia]. exfalso. by apply Hna, H0.
Qed.
End cycles.

(** [cycle_item_ids] terminates and returns exactly the ids whose blockers can be followed
    forever; the answer does not depend on the order in which the [HashMap] yields the start
    queue. *)
Theorem cycle_item_ids_exact items :
  (∀ c, c ∈ cycle_item_ids items ↔ c ∈ item_ids items ∧ ¬ Acc (blocks items) c)
  ∧ ∀ queue, queue ≡ₚ start_ids items →
      is_Some (cycle_visit_from items queue)
      ∧ ∀ c, c ∈ leftover_ids (cycle_visit_from items queue) ↔ c ∈ cycle_item_ids items.
Proof.
  destruct (cycle_visit_exact items (start_ids items)) as [_ H]; [done|].
  split; [exact H|]. intros queue Hq. destruct (cycle_visit_exact items queue Hq) as [Hs Hl].
  split; [done|]. intros c. rewrite Hl. symmetry. apply H.
Qed.

(** ** Statuses *)

Lemma str_in_iff s l : str_in s l = true ↔ s ∈ l.
Proof.
  unfold str_in. rewrite existsb_elem. split.
  - intros (x & Hx & ->%String.eqb_eq). done.
  - intros H. exists s. split; [done|]. apply String.eqb_refl.
Qed.

Lemma runnable_not_terminal s : is_runnable_status s = true → is_terminal_status s = false.
Proof.
  unfold is_runnable_status. rewrite str_in_iff. intros H.
  repeat (apply elem_of_cons in H as [->|H]; [done|]). set_solver.
Qed.

Lemma runnable_not_active s : is_runnable_status s = true → is_active_status s = false.
Proof.
  unfold is_runnable_status. rewrite str_in_iff. intros H.
  repeat (apply elem_of_cons in H as [->|H]; [done|]). set_solver.
Qed.

Lemma active_not_terminal s : is_active_status s = true → is_terminal_status s = false.
Proof.
  unfold is_active_status. rewrite str_in_iff. intros H.
  repeat (apply elem_of_cons in H as [->|H]; [done|]). set_solver.
Qed.

(** ** The summary *)

Lemma is_empty_list_true {A} (l : list A) : is_empty_list l = true ↔ l = [].
Proof. by destruct l. Qed.

Lemma filter_nil_iff {A} (P : A → Prop) `{!∀ x, Decision (P x)} (l : list A) :
  filter P l = [] ↔ ∀ x, x ∈ l → ¬ P x.
Proof.
  split.
  - intros Hnil x Hx HP. assert (x ∈ filter P l) as Hin by (by apply list_elem_of_filter).
    rewrite Hnil in Hin. set_solver.
  - intros Hno. destruct (filter P l) as [|x l'] eqn:E; [done|exfalso].
    assert (x ∈ filter P l) as Hin by (rewrite E; set_solver).
    apply list_elem_of_filter in Hin as [HP Hx]. by apply (Hno x).
Qed.

(** What the first branch of the summary's loop asks of an item. *)
Lemma item_ready_iff items i :
  item_ready items i = true ↔
  is_runnable_status (i_status i) = true
  ∧ (∀ d, d ∈ i_blocked_by i → d ∈ completed_item_ids items ∧ d ∈ item_ids items)
  ∧ i_id i ∉ cycle_item_ids items.
Proof.
  unfold item_ready, has_missing, has_dependency_blocker.
  rewrite !andb_true_iff, !negb_true_iff, !orb_false_iff, !negb_false_iff, !is_empty_list_true,
    bool_decide_eq_false, elem_of_list_to_set.
  unfold missing_dependencies, unresolved_dependencies. rewrite !filter_nil_iff. split.
  - intros [[Hr Hm] [Hu Hc]]. split_and!; [done| |done]. intros d Hd.
    specialize (Hm d Hd). specialize (Hu d Hd).
    destruct (decide (d ∈ item_ids items)), (decide (d ∈ completed_item_ids items)); tauto.
  - intros (Hr & Hd & Hc). split_and!; [done| | |done]; intros d Hdd; destruct (Hd d Hdd); tauto.
Qed.

Lemma elem_select items f id :
  id ∈ select items f ↔ ∃ i, i ∈ items ∧ f i = true ∧ i_id i = id.
Proof.
  unfold select. split.
  - intros (i & -> & Hi)%(list_elem_of_fmap i_id).
    rewrite list_elem_of_In, filter_In, <- list_elem_of_In in Hi. exists i. tauto.
  - intros (i & Hi & Hf & <-). apply (list_elem_of_fmap_2 i_id).
    by rewrite list_elem_of_In, filter_In, <- list_elem_of_In.
Qed.

Lemma elem_ready_ids items id :
  id ∈ ready_ids (summarize_plan_graph items)
  ↔ ∃ i, i ∈ items ∧ item_ready items i = true ∧ i_id i = id.
Proof. cbn [summarize_plan_graph ready_ids]. rewrite elem_of_sort_strings. apply elem_select. Qed.

(** In a plan with unique ids no item is reported under two headings: ready, blocked,
    active and terminal exclude each other, and every terminal item is completed or failed,
    never both. *)
Theorem summary_headings_disjoint items id :
  NoDup (map i_id items) →
  let s := summarize_plan_graph items in
  (id ∈ ready_ids s → id ∉ blocked_ids s ∧ id ∉ active_ids s ∧ id ∉ terminal_ids s)
  ∧ (id ∈ blocked_ids s → id ∉ active_ids s ∧ id ∉ terminal_ids s)
  ∧ (id ∈ active_ids s → id ∉ terminal_ids s)
  ∧ (id ∈ terminal_ids s ↔ id ∈ completed_ids s ∨ id ∈ failed_ids s)
  ∧ (id ∈ completed_ids s → id ∉ failed_ids s).
Proof.
  intros Hnd. cbn [summarize_plan_graph ready_ids blocked_ids active_ids terminal_ids completed_ids
    failed_ids]. unfold btree. rewrite !elem_of_sort_strings, !elem_of_dedup_first, !elem_select.
  assert (∀ i j, i ∈ items → j ∈ items → i_id i = i_id j → i = j) as Huniq.
  { intros i j Hi Hj E. clear -Hnd Hi Hj E. induction items as [|x l IH]; [set_solver|].
    apply NoDup_cons in Hnd as [Hx Hl].
    apply elem_of_cons in Hi as [->|Hi], Hj as [->|Hj]; [done| | |by apply IH];
      exfalso; apply Hx; [rewrite E|rewrite <- E]; by apply (list_elem_of_fmap_2 i_id). }
  assert (∀ f f', (∀ i, f i = true → f' i = true → False) →
    (∃ i, i ∈ items ∧ f i = true ∧ i_id i = id) → ¬ ∃ i, i ∈ items ∧ f' i = true ∧ i_id i = id)
    as Hex.
  { intros f f' Hff (i & Hi & Hf & Hid) (j & Hj & Hf' & Hid').
    rewrite (Huniq j i) in Hf' by congruence. by eapply Hff. }
  assert (∀ i, item_ready items i = true → is_active_status (i_status i) = false
                                           ∧ is_terminal_status (i_status i) = false) as Hr.
  { intros i (H & _)%item_ready_iff. split; [by apply runnable_not_active|by apply runnable_not_terminal]. }
  assert (∀ i, item_blocked items i = true → item_ready items i = false
    ∧ is_active_status (i_status i) = false ∧ is_terminal_status (i_status i) = false) as Hb.
  { intros i H. unfold item_blocked in H. simp_bool. done. }
  split_and!.
  - intros H. split_and!; [| |intros [H' _]; revert H']; revert H; apply Hex; intros i H1 H2.
    + destruct (Hb i H2). congruence.
    + destruct (Hr i H1). congruence.
    + destruct (Hr i H1). congruence.
  - intros H. split; [|intros [H' _]; revert H']; revert H; apply Hex; intros i H1 H2;
      destruct (Hb i H1) as (_ & ? & ?); congruence.
  - intros H [H' _]. revert H'. revert H. apply Hex. intros i H1 H2.
    apply active_not_terminal in H1. congruence.
  - unfold is_failed_status. split.
    + intros [(i & Hi & Ht & Hid) _]. destruct (is_completed_status (i_status i)) eqn:E;
        [left|right]; (split; [|set_solver]); exists i; rewrite ?Ht, ?E; done.
    + intros [[(i & Hi & Ht & Hid) _]|[(i & Hi & Ht & Hid) _]]; (split; [|set_solver]); exists i;
        (split_and!; [done| |done]).
      * revert Ht. unfold is_completed_status. rewrite str_in_iff. intros Hst.
        repeat (apply elem_of_cons in Hst as [->|Hst]; [done|]). set_solver.
      * by apply andb_true_iff in Ht as [? _].
  - intros [H _] [H' _]. revert H'. revert H. apply Hex. unfold is_failed_status.
    intros i H1 H2. by rewrite H1, andb_false_r in H2.
Qed.

Definition sample_item (id status : string) (deps : list string) (who : option string) : PlanItem :=
  {| i_content := id; i_status := status; i_priority := "high"; i_id := id; i_subsystem := None;
     i_file_scope := []; i_blocked_by := deps; i_assigned_to := who |}.

Definition sample_items : list PlanItem :=
  [sample_item "a" "done" [] None; sample_item "b" "queued" ["a"] (Some "s1");
   sample_item "c" "queued" ["b"] None; sample_item "d" "failed" [] None;
   sample_item "e" "running" [] (Some "s2"); sample_item "x" "queued" ["y"] None;
   sample_item "y" "todo" ["x"] None].

Lemma summary_headings_disjoint_witness :
  "c" ∉ active_ids (summarize_plan_graph sample_items)
  ∧ "c" ∉ terminal_ids (summarize_plan_graph sample_items).
Proof.
  assert (NoDup (map i_id sample_items)) as Hnd.
  { apply (bool_decide_unpack _). by vm_compute. }
  destruct (summary_headings_disjoint sample_items "c" Hnd) as (_ & H & _).
  apply H. apply (bool_decide_unpack _). by vm_compute.
Defined.

Example sample_summary :
  summarize_plan_graph sample_items
  = {| ready_ids := ["b"]; blocked_ids := ["c"; "x"; "y"]; active_ids := ["e"];
       completed_ids := ["a"]; failed_ids := ["d"]; terminal_ids := ["a"; "d"];
       unresolved_dependency_ids := []; cycle_ids := ["x"; "y"] |}.
Proof. vm_compute. reflexivity. Qed.

(** ** Selection *)

Lemma item_leb_iff a b :
  item_leb a b = true ↔
  priority_rank (i_priority a) < priority_rank (i_priority b)
  ∨ priority_rank (i_priority a) = priority_rank (i_priority b)
    ∧ String.leb (i_id a) (i_id b) = true.
Proof. unfold item_leb. by rewrite orb_true_iff, andb_true_iff, Nat.ltb_lt, Nat.eqb_eq. Qed.

Lemma item_leb_total a b : item_leb a b = true ∨ item_leb b a = true.
Proof.
  rewrite !item_leb_iff.
  destruct (Nat.lt_trichotomy (priority_rank (i_priority a)) (priority_rank (i_priority b)))
    as [?|[E|?]]; [by left; left| |by right; left].
  destruct (str_leb_total (i_id a) (i_id b)); [left|right]; by right.
Qed.

Lemma item_leb_trans a b c : item_leb a b = true → item_leb b c = true → item_leb a c = true.
Proof.
  rewrite !item_leb_iff. intros [H1|[H1 H1']] [H2|[H2 H2']]; [left; lia..|].
  right. split; [congruence|]. by eapply str_leb_trans.
Qed.

(** The runnable ids are the ready ids, in order of priority and then id, and a limit
    takes a prefix. *)
Theorem next_runnable_sorted_prefix items :
  (∀ id, id ∈ next_runnable_item_ids items None ↔ id ∈ ready_ids (summarize_plan_graph items))
  ∧ (∃ its, next_runnable_item_ids items None = map i_id its ∧ its ⊆ items
            ∧ StronglySorted (λ a b, item_leb a b = true) its)
  ∧ ∀ n, next_runnable_item_ids items (Some n) = take n (next_runnable_item_ids items None).
Proof.
  unfold next_runnable_item_ids. split_and!; [|eexists; split_and!; [done| |]|done].
  - intros id. split.
    + intros (i & -> & Hi)%(list_elem_of_fmap i_id).
      by apply elem_of_sort_by, list_elem_of_filter in Hi as [Hi%elem_of_list_to_set _].
    + intros Hid. pose proof Hid as (i & Hi & _ & <-)%elem_ready_ids.
      apply (list_elem_of_fmap_2 i_id), elem_of_sort_by, list_elem_of_filter.
      split; [by apply elem_of_list_to_set|done].
  - intros i Hi. by apply elem_of_sort_by, list_elem_of_filter in Hi as [_ Hi].
  - apply sort_by_strongly_sorted; [apply item_leb_total|apply item_leb_trans].
Qed.

Lemma find_item_Some items id i : find_item items id = Some i → i ∈ items ∧ i_id i = id.
Proof. intros H%find_Some_elem. destruct H as [? H]. by apply String.eqb_eq in H. Qed.

Lemma ready_unique items i :
  NoDup (map i_id items) → i ∈ items →
  i_id i ∈ ready_ids (summarize_plan_graph items) ↔ item_ready items i = true.
Proof.
  intros Hnd Hi. rewrite elem_ready_ids. split; [|intros H; by exists i].
  intros (j & Hj & Hr & Hid). assert (j = i) as ->; [|done].
  clear -Hnd Hi Hj Hid. induction items as [|x l IH]; [set_solver|].
  apply NoDup_cons in Hnd as [Hx Hl].
  apply elem_of_cons in Hi as [->|Hi], Hj as [->|Hj]; [done| | |by apply IH];
    exfalso; apply Hx; [rewrite <- Hid|rewrite Hid]; by apply (list_elem_of_fmap_2 i_id).
Qed.

(** The two places that decide whether a task may start agree: for a runnable task of a
    plan with unique ids, [explicit_task_blocked_reason] reports no reason exactly when the
    summary lists the task as ready. *)
Theorem explicit_check_agrees_with_summary p id i :
  NoDup (map i_id (v_items p)) → find_item (v_items p) id = Some i →
  is_runnable_status (i_status i) = true →
  explicit_task_blocked_reason p id = None ↔ id ∈ ready_ids (summarize_plan_graph (v_items p)).
Proof.
  intros Hnd Hf Hr. pose proof (find_item_Some _ _ _ Hf) as [Hi <-].
  rewrite ready_unique by done. unfold explicit_task_blocked_reason. rewrite Hf.
  unfold item_ready, has_missing, has_dependency_blocker. rewrite Hr. cbn [andb].
  destruct (is_empty_list (missing_dependencies i _)); cbn [negb andb]; [|done].
  destruct (is_empty_list (unresolved_dependencies i _ _)); cbn [negb orb]; [|done].
  rewrite negb_true_iff, bool_decide_eq_false, elem_of_list_to_set.
  by destruct (bool_decide (i_id i ∈ cycle_item_ids (v_items p))) eqn:E; simp_bool.
Qed.

Definition sample_plan : VersionedPlan := set_items sample_items new_plan.

Lemma explicit_check_agrees_with_summary_witness :
  explicit_task_blocked_reason sample_plan "b" = None
  ∧ explicit_task_blocked_reason sample_plan "c" ≠ None.
Proof.
  assert (NoDup (map i_id (v_items sample_plan))) as Hnd.
  { apply (bool_decide_unpack _). by vm_compute. }
  split.
  - apply (explicit_check_agrees_with_summary sample_plan "b" (sample_item "b" "queued" ["a"] (Some "s1")));
      [exact Hnd|by vm_compute|by vm_compute|]. apply (bool_decide_unpack _). by vm_compute.
  - rewrite (explicit_check_agrees_with_summary sample_plan "c" (sample_item "c" "queued" ["b"] None));
      [|exact Hnd|by vm_compute|by vm_compute]. apply (bool_decide_unpack _). by vm_compute.
Defined.

(** ** Reclaiming *)

Lemma reclaim_true p id p' :
  reclaim_stranded_assignment p id = (p', true) →
  map i_id (v_items p') = map i_id (v_items p)
  ∧ (∀ id', id' ≠ id → reclaims p' id' = reclaims p id')
  ∧ reclaims p' id = add_u32 (reclaims p id) 1
  ∧ (∃ i, find_item (v_items p') id = Some i ∧ i_assigned_to i = None)
  ∧ id ∈ map i_id (v_items p).
Proof.
  unfold reclaim_stranded_assignment. destruct (find_item (v_items p) id) as [i|] eqn:Ef; [|done].
  destruct (i_assigned_to i) as [prev|] eqn:Ea; [|done]. intros [= <-]. split_and!.
  - cbn. clear. induction (v_items p) as [|x l IH]; [done|]. cbn.
    destruct (String.eqb (i_id x) id); cbn; [done|by rewrite IH].
  - intros id' Hne. unfold reclaims. cbn. by rewrite lookup_insert_ne.
  - unfold reclaims. cbn. rewrite lookup_insert_eq. cbn.
    by destruct (v_task_progress p !! id).
  - exists (set_assigned_to None i). split; [|done]. cbn. clear Ea. revert Ef. unfold find_item.
    induction (v_items p) as [|x l IH]; cbn; [done|].
    destruct (String.eqb (i_id x) id) eqn:E; cbn; rewrite E; [by intros [= ->]|apply IH].
  - apply find_item_Some in Ef as [Hi <-]. by apply (list_elem_of_fmap_2 i_id).
Qed.

Lemma stranded_bound p dead id :
  next_stranded_runnable_item_id p dead = Some id → (reclaims p id < 3)%N.
Proof.
  intros [_ H]%find_Some_elem. destruct (find_item (v_items p) id) as [i|]; [|done].
  destruct (i_assigned_to i); [|done]. apply andb_true_iff in H as [_ H].
  by apply N.ltb_lt in H.
Qed.

(** A history of the plan: automatic reclaims (counted), and anything else that keeps the
    items and the reclaim counters, such as assigning, completing or failing tasks. *)
Inductive reclaim_history : nat → VersionedPlan → VersionedPlan → Prop :=
  | rh_nil p : reclaim_history 0 p p
  | rh_reclaim n p dead id p' p'' :
      next_stranded_runnable_item_id p dead = Some id →
      reclaim_stranded_assignment p id = (p', true) →
      reclaim_history n p' p'' → reclaim_history (S n) p p''
  | rh_other n p p' p'' :
      map i_id (v_items p') = map i_id (v_items p) →
      (∀ id, reclaims p' id = reclaims p id) →
      reclaim_history n p' p'' → reclaim_history n p p''.

(** The reclaims an item has left. *)
Definition budget (p : VersionedPlan) : nat :=
  sum_of (λ id, 3 - N.to_nat (reclaims p id)) (map i_id (v_items p)).

Lemma budget_reclaim p dead id p' :
  next_stranded_runnable_item_id p dead = Some id →
  reclaim_stranded_assignment p id = (p', true) → S (budget p') ≤ budget p.
Proof.
  intros Hb%stranded_bound (Hids & Hne & Heq & _ & Hin)%reclaim_true. unfold budget. rewrite Hids.
  assert (reclaims p' id = reclaims p id + 1)%N as He.
  { rewrite Heq. unfold add_u32. apply N.mod_small. lia. }
  clear Hids Heq. induction (map i_id (v_items p)) as [|x l IH]; [set_solver|].
  rewrite !sum_of_cons.
  assert (sum_of (λ i, 3 - N.to_nat (reclaims p' i)) l
          ≤ sum_of (λ i, 3 - N.to_nat (reclaims p i)) l) as Hle.
  { apply sum_of_le. intros y _. destruct (decide (y = id)) as [->|?]; [lia|by rewrite Hne]. }
  destruct (decide (x = id)) as [->|Hx]; [rewrite He; lia|].
  rewrite (Hne x Hx). specialize (IH ltac:(set_solver)). lia.
Qed.

(** Automatic reclaiming is bounded: however the workers of a plan die and are replaced,
    at most three assignments per item are reclaimed, so a task whose workers keep dying
    cannot spawn replacements forever. *)
Theorem reclaims_bounded n p p' :
  reclaim_history n p p' → n ≤ 3 * length (v_items p).
Proof.
  intros H. enough (n ≤ budget p) as Hb.
  { etransitivity; [exact Hb|]. unfold budget. rewrite <- (length_map i_id).
    clear. induction (map i_id (v_items p)) as [|x l IH]; [done|]. rewrite sum_of_cons.
    cbn [length]. lia. }
  induction H as [p|n p dead id p' p'' Hs Hr _ IH|n p p' p'' Hids Hc _ IH]; [lia| |].
  - pose proof (budget_reclaim p dead id p' Hs Hr). lia.
  - assert (budget p' = budget p) as <-; [|done]. unfold budget. rewrite Hids.
    apply sum_of_ext. intros i _. by rewrite Hc.
Qed.

Lemma reclaims_bounded_witness :
  ∃ p', reclaim_history 1 sample_plan p' ∧ 1 ≤ 3 * length (v_items sample_plan).
Proof.
  assert (reclaim_history 1 sample_plan (reclaim_stranded_assignment sample_plan "b").1) as H.
  { eapply (rh_reclaim _ _ (λ s, String.eqb s "s1") "b");
      [vm_compute; reflexivity|vm_compute; reflexivity|]. vm_compute. constructor. }
  eexists. split; [exact H|]. exact (reclaims_bounded _ _ _ H).
Defined.

(** ** Renaming a session *)

(** The session ids a plan refers to. *)
Definition mentions_session (p : VersionedPlan) (s : string) : Prop :=
  s ∈ v_participants p
  ∨ (∃ i, i ∈ v_items p ∧ i_assigned_to i = Some s)
  ∨ (∃ k t, v_task_progress p !! k = Some t ∧ tp_assigned_session_id t = Some s)
  ∨ (∃ k m, v_node_meta p !! k = Some m ∧ nm_planner m = Some s).

Lemma rename_opt_old old new s : old ≠ new → rename_opt old new s ≠ Some old.
Proof. intros Hne. unfold rename_opt. case_bool_decide; congruence. Qed.

Lemma rename_opt_back old new s :
  s ≠ Some new → rename_opt new old (rename_opt old new s) = s.
Proof. intros Hs. unfold rename_opt. repeat case_bool_decide; congruence. Qed.

Lemma set_assigned_to_id i a b :
  a = i_assigned_to i → set_assigned_to a (set_assigned_to b i) = i.
Proof. intros ->. by destruct i. Qed.

Lemma set_session_id t a b :
  a = tp_assigned_session_id t → set_session a (set_session b t) = t.
Proof. intros ->. by destruct t. Qed.

Lemma set_planner_session_id m a b :
  a = nm_planner m → set_planner_session a (set_planner_session b m) = m.
Proof. intros ->. by destruct m. Qed.

(** Renaming a session leaves no reference to the old id (participants, assignments,
    progress, planners), and renaming to an id the plan does not use loses nothing: the
    reverse rename restores the plan. *)
Theorem rename_session_reversible p old new :
  old ≠ new →
  ¬ mentions_session (rename_session p old new) old
  ∧ (¬ mentions_session p new →
     rename_session (rename_session p old new) new old = p).
Proof.
  intros Hne. split.
  - intros [H|[(i & Hi & H)|[(k & t & Hk & H)|(k & m & Hk & H)]]]; cbn [rename_session v_participants
      v_items v_task_progress v_node_meta] in *.
    + case_bool_decide; set_solver.
    + apply (list_elem_of_fmap (λ i, set_assigned_to _ i)) in Hi as (i0 & -> & _).
      by apply (rename_opt_old old new (i_assigned_to i0)).
    + apply lookup_fmap_Some in Hk as (t0 & <- & _).
      by apply (rename_opt_old old new (tp_assigned_session_id t0)).
    + apply lookup_fmap_Some in Hk as (m0 & <- & _).
      by apply (rename_opt_old old new (nm_planner m0)).
  - intros Hnew. unfold mentions_session in Hnew. destruct p as [items ver parts prog md meta].
    cbn [v_items v_version v_participants v_task_progress v_mode v_node_meta] in Hnew.
    unfold rename_session. cbn [v_items v_version v_participants v_task_progress v_mode v_node_meta]. f_equal.
    + rewrite map_map. rewrite <- (map_id items) at 2. apply map_ext_in.
      intros i Hi%list_elem_of_In. apply set_assigned_to_id. apply rename_opt_back. intros E.
      apply Hnew. right. left. by exists i.
    + assert (new ∉ parts) as Hn by tauto. clear Hnew. destruct (decide (old ∈ parts)) as [Ho|Ho].
      * rewrite (bool_decide_true (old ∈ parts)) by done.
        rewrite bool_decide_true by set_solver. apply leibniz_equiv. intros x.
        destruct (decide (x = old)) as [->|]; set_solver.
      * rewrite (bool_decide_false (old ∈ parts)) by done. by rewrite bool_decide_false.
    + rewrite <- map_fmap_compose. rewrite <- (map_fmap_id prog) at 2. apply map_fmap_ext.
      intros k t Hk. apply set_session_id, rename_opt_back. intros E. apply Hnew.
      right. right. left. by exists k, t.
    + rewrite <- map_fmap_compose. rewrite <- (map_fmap_id meta) at 2. apply map_fmap_ext.
      intros k m Hk. apply set_planner_session_id, rename_opt_back. intros E. apply Hnew.
      right. right. right. by exists k, m.
Qed.

Lemma rename_session_reversible_witness :
  rename_session sample_plan "s1" "s9" ≠ sample_plan
  ∧ ¬ mentions_session (rename_session sample_plan "s1" "s9") "s1"
  ∧ rename_session (rename_session sample_plan "s1" "s9") "s9" "s1" = sample_plan.
Proof.
  split.
  { intros H. apply (f_equal (λ p, map i_assigned_to (v_items p))) in H. by vm_compute in H. }
  destruct (rename_session_reversible sample_plan "s1" "s9") as [H1 H2]; [by vm_compute|].
  split; [exact H1|]. apply H2. intros [H|[(i & Hi & H)|[(k & t & Hk & H)|(k & m & Hk & H)]]].
  - by apply not_elem_of_empty in H.
  - assert (Forall (λ i, i_assigned_to i ≠ Some "s9") (v_items sample_plan)) as Hall
      by (apply (bool_decide_unpack _); by vm_compute).
    rewrite Forall_forall in Hall. by apply (Hall i Hi).
  - change ((∅ : gmap string _) !! k = Some t) in Hk. by rewrite lookup_empty in Hk.
  - change ((∅ : gmap string _) !! k = Some m) in Hk. by rewrite lookup_empty in Hk.
Defined.

(** ** Replacing the items *)

(** After [replace_items] the plan has the new items, every progress and metadata entry
    belongs to one of them, and the entries that belong are the old ones, untouched. *)
Theorem replace_items_prunes p items :
  v_items (replace_items p items) = items
  ∧ (∀ k t, v_task_progress (replace_items p items) !! k = Some t
            ↔ v_task_progress p !! k = Some t ∧ k ∈ map i_id items)
  ∧ (∀ k m, v_node_meta (replace_items p items) !! k = Some m
            ↔ v_node_meta p !! k = Some m ∧ k ∈ map i_id items)
  ∧ prune_side_maps (replace_items p items) = replace_items p items.
Proof.
  unfold replace_items, prune_side_maps, item_ids. cbn. split_and!; [done| | |].
  - intros k t. rewrite map_lookup_filter_Some. cbn. by rewrite elem_of_list_to_set.
  - intros k m. rewrite map_lookup_filter_Some. cbn. by rewrite elem_of_list_to_set.
  - f_equal; apply map_eq; intros k; apply option_eq; intros x;
      rewrite !map_lookup_filter_Some; cbn; tauto.
Qed.

(** ** Task control *)

(** An action word survives printing and parsing, and an implicit target is always an
    item assigned to the session whose status the action allows, of the most urgent status
    group; in particular a finished task is never picked by a hand-off. *)
Theorem control_target_is_eligible items session action id :
  parse_action (action_str action) = Some action
  ∧ (task_control_target_item_id items session action = Ok id →
     ∃ i, i ∈ items ∧ i_id i = id ∧ i_assigned_to i = Some session
          ∧ task_control_action_allows_status action (i_status i) = true
          ∧ is_completed_status (i_status i) = false
          ∧ ∀ j, j ∈ items → i_assigned_to j = Some session →
                 task_control_action_allows_status action (i_status j) = true →
                 control_rank (i_status i) ≤ control_rank (i_status j)).
Proof.
  split; [by destruct action|]. unfold task_control_target_item_id.
  set (cands := sort_by _ _).
  assert (∀ j, j ∈ cands ↔ j ∈ items ∧ i_assigned_to j = Some session
               ∧ task_control_action_allows_status action (i_status j) = true) as Hin.
  { intros j. unfold cands. rewrite elem_of_sort_by, list_elem_of_In, filter_In,
      <- list_elem_of_In, list_elem_of_filter. tauto. }
  assert (StronglySorted (λ a b, control_rank (i_status a) <=? control_rank (i_status b) = true) cands)
    as Hsort.
  { apply sort_by_strongly_sorted.
    - intros x y. rewrite !Nat.leb_le. lia.
    - intros x y z. rewrite !Nat.leb_le. lia. }
  assert (∀ i rest, cands = i :: rest → ∃ i', i' ∈ items ∧ i_id i' = i_id i
    ∧ i_assigned_to i' = Some session
    ∧ task_control_action_allows_status action (i_status i') = true
    ∧ is_completed_status (i_status i') = false
    ∧ ∀ j, j ∈ items → i_assigned_to j = Some session →
           task_control_action_allows_status action (i_status j) = true →
           control_rank (i_status i') ≤ control_rank (i_status j)) as Hhead.
  { intros i rest E. rewrite E in Hsort. apply StronglySorted_inv in Hsort as [_ Hf].
    destruct (proj1 (Hin i)) as (Hi & Ha & Hal); [rewrite E; set_solver|].
    exists i. split_and!; try done.
    - destruct action; unfold task_control_action_allows_status in Hal.
      1,2: by apply String.eqb_eq in Hal as ->.
      1,2: rewrite str_in_iff in Hal; repeat (apply elem_of_cons in Hal as [->|Hal]; [done|]); set_solver.
      all: by apply negb_true_iff in Hal.
    - intros j Hj Hja Hjal.
      assert (j ∈ i :: rest) as [->|Hjr]%elem_of_cons by (rewrite <- E; by apply Hin); [lia|].
      rewrite Forall_forall in Hf. apply Nat.leb_le, Hf. done. }
  destruct cands as [|i [|j rest]]; [done| |].
  - intros [= <-]. by eapply Hhead.
  - destruct (negb _); [|done]. intros [= <-]. by eapply Hhead.
Qed.

Lemma control_target_is_eligible_witness :
  ∃ i, i ∈ sample_items ∧ i_id i = "b" ∧ i_assigned_to i = Some "s1"
       ∧ task_control_action_allows_status Start (i_status i) = true
       ∧ is_completed_status (i_status i) = false
       ∧ ∀ j, j ∈ sample_items → i_assigned_to j = Some "s1" →
              task_control_action_allows_status Start (i_status j) = true →
              control_rank (i_status i) ≤ control_rank (i_status j).
Proof. apply (control_target_is_eligible sample_items "s1" Start "b"). by vm_compute. Defined.

(** The ambiguity check compares the first two candidates of a list sorted by status group,
    so the same three tasks are ambiguous in one order and not in another. *)
Lemma control_target_depends_on_order :
  let a := sample_item "a" "queued" [] (Some "s") in
  let b := sample_item "b" "ready" [] (Some "s") in
  let c := sample_item "c" "queued" [] (Some "s") in
  task_control_target_item_id [a; b; c] "s" Salvage = Ok "a"
  ∧ task_control_target_item_id [a; c; b] "s" Salvage
    = Err "Multiple tasks assigned to 's' can be salvage: a, c, b. Provide task_id explicitly.".
Proof. vm_compute. done. Qed.
