(* ===== verification/Bridge.v ===== *)
(** * [arterm-plan]: the bridge between the plan and the graph (crates/arterm-plan/src/bridge.rs)

    The live plan is lifted to a [TaskGraph], mutated by the engine and lowered again.  The
    JSON text of an artifact is produced and read by [serde_json], which is not part of this
    repository: [to_json] and [from_json] are parameters, and what is needed of them is
    stated where it is used ([json_ok]). *)

From S2P Require Export DagRun PlanTheorems.

(** ** Words *)

(** [parse_mode] *)
Definition parse_mode (m : string) : Mode :=
  if String.eqb (to_ascii_lowercase (trim m)) "deep" then Deep else Light.

Definition mode_str (m : Mode) : string := match m with Deep => "deep" | Light => "light" end.

(** [parse_kind] *)
Definition parse_kind (k : option string) : NodeKind :=
  match k with
  | None => Explore
  | Some k =>
      let k := to_ascii_lowercase (trim k) in
      if String.eqb k "implement" then Implement
      else if String.eqb k "verify" then Verify
      else if String.eqb k "fix" then Fix
      else if String.eqb k "synthesize" then Synthesize
      else if String.eqb k "critique" then Critique
      else Explore
  end.

Definition kind_str (k : NodeKind) : string :=
  match k with
  | Explore => "explore" | Implement => "implement" | Verify => "verify" | Fix => "fix"
  | Synthesize => "synthesize" | Critique => "critique"
  end.

(** [parse_origin] *)
Definition parse_origin (o : option string) : option NodeOrigin :=
  let?? o := o in
  let o := to_ascii_lowercase (trim o) in
  if String.eqb o "seed" then Some OriginSeed
  else if String.eqb o "expand" then Some OriginExpand
  else if String.eqb o "gap" then Some OriginGap
  else if String.eqb o "gate" then Some OriginGate
  else None.

Definition origin_str (o : NodeOrigin) : string :=
  match o with
  | OriginSeed => "seed" | OriginExpand => "expand" | OriginGap => "gap" | OriginGate => "gate"
  end.

Definition status_from_plan (s : string) : NodeStatus :=
  if str_in s ["running"; "running_stale"] then Running
  else if str_in s ["completed"; "done"] then Done
  else if str_in s ["failed"; "stopped"; "crashed"] then Failed
  else Queued.

Definition status_to_plan (s : NodeStatus) : string :=
  match s with
  | Queued => "queued" | Running => "running" | Done => "completed" | Failed => "failed"
  end.

Definition priority_string (rank : N) : string :=
  if N.eqb rank 0 then "high" else if N.eqb rank 2 then "low" else "medium".

(** ** Growth accounting *)

Record GrowthStats := { seeded : nat; from_expansion : nat; from_gaps : nat; gates : nat }.

Definition growth_total (s : GrowthStats) : nat :=
  seeded s + from_expansion s + from_gaps s + gates s.
Definition growth_grown (s : GrowthStats) : nat := from_expansion s + from_gaps s + gates s.

(** [summary_line] *)
Definition summary_line (s : GrowthStats) : string :=
  show_nat (seeded s) +:+ " seeded -> " +:+ show_nat (growth_total s) +:+ " nodes (+"
  +:+ show_nat (from_expansion s) +:+ " expansion, +" +:+ show_nat (from_gaps s)
  +:+ " gap, +" +:+ show_nat (gates s) +:+ " gates)".

Definition count_origin (s : GrowthStats) (o : option NodeOrigin) : GrowthStats :=
  match o with
  | Some OriginExpand =>
      {| seeded := seeded s; from_expansion := S (from_expansion s); from_gaps := from_gaps s;
         gates := gates s |}
  | Some OriginGap =>
      {| seeded := seeded s; from_expansion := from_expansion s; from_gaps := S (from_gaps s);
         gates := gates s |}
  | Some OriginGate =>
      {| seeded := seeded s; from_expansion := from_expansion s; from_gaps := from_gaps s;
         gates := S (gates s) |}
  | Some OriginSeed | None =>
      {| seeded := S (seeded s); from_expansion := from_expansion s; from_gaps := from_gaps s;
         gates := gates s |}
  end.

Definition item_origin (p : VersionedPlan) (i : PlanItem) : option NodeOrigin :=
  let?? m := v_node_meta p !! i_id i in parse_origin (nm_origin m).

(** [growth_stats] *)
Definition growth_stats (p : VersionedPlan) : GrowthStats :=
  foldl (λ s i, count_origin s (item_origin p i))
    {| seeded := 0; from_expansion := 0; from_gaps := 0; gates := 0 |} (v_items p).

Section bridge.
(** [serde_json::to_string(a).ok()] and [serde_json::from_str(json).ok()]. *)
Context (to_json : HandoffArtifact → option string)
        (from_json : string → option HandoffArtifact).

(** ** Lifting *)

Definition lift_item (p : VersionedPlan) (i : PlanItem) : TaskNode :=
  let meta := default default_meta (v_node_meta p !! i_id i) in
  {| n_id := i_id i; n_content := i_content i; n_kind := parse_kind (nm_kind meta);
     n_status := status_from_plan (i_status i); n_owner := i_assigned_to i;
     n_parent := nm_parent meta; n_depends_on := i_blocked_by i;
     n_expanded := nm_expanded meta; n_is_gate := nm_is_gate meta;
     n_planner := nm_planner meta;
     n_priority := N.of_nat (priority_rank (i_priority i));
     n_output := (let?? json := nm_artifact_json meta in from_json json);
     n_origin := parse_origin (nm_origin meta) |}.

(** [to_task_graph] *)
Definition to_task_graph (p : VersionedPlan) : TaskGraph :=
  foldl (λ g i, push_node g (lift_item p i)) (new_graph (parse_mode (v_mode p))) (v_items p).

(** ** Lowering *)

(** The index of prior items; a later duplicate wins, as in [collect]. *)
Definition prior_items (items : list PlanItem) : gmap string PlanItem :=
  foldl (λ m i, <[i_id i := i]> m) ∅ items.

Definition lower_item (prior : gmap string PlanItem) (n : TaskNode) : PlanItem :=
  let prev := prior !! n_id n in
  {| i_content := n_content n; i_status := status_to_plan (n_status n);
     i_priority := match prev with
                   | Some q => i_priority q | None => priority_string (n_priority n) end;
     i_id := n_id n;
     i_subsystem := (let?? q := prev in i_subsystem q);
     i_file_scope := match prev with Some q => i_file_scope q | None => [] end;
     i_blocked_by := n_depends_on n; i_assigned_to := n_owner n |}.

Definition lower_meta (n : TaskNode) : NodeMeta :=
  {| nm_kind := Some (kind_str (n_kind n)); nm_parent := n_parent n;
     nm_expanded := n_expanded n; nm_is_gate := n_is_gate n; nm_planner := n_planner n;
     nm_artifact_json := (let?? a := n_output n in to_json a);
     nm_origin := origin_str <$> n_origin n |}.

Definition lower_metas (l : list TaskNode) : gmap string NodeMeta :=
  foldl (λ m n, <[n_id n := lower_meta n]> m) ∅ l.

(** [apply_task_graph] *)
Definition apply_task_graph (p : VersionedPlan) (g : TaskGraph) : VersionedPlan :=
  let prior := prior_items (v_items p) in
  let p1 :=
    {| v_items := v_items p; v_version := v_version p; v_participants := v_participants p;
       v_task_progress := v_task_progress p; v_mode := mode_str (mode g);
       v_node_meta := v_node_meta p |} in
  let p2 := replace_items p1 (map (lower_item prior) (nodes g)) in
  {| v_items := v_items p2; v_version := v_version p2; v_participants := v_participants p2;
     v_task_progress := v_task_progress p2; v_mode := v_mode p2;
     v_node_meta := lower_metas (nodes g) |}.

(** ** Dataflow on the plan *)

(** The artifact an item carries. *)
Definition meta_artifact (m : NodeMeta) : option HandoffArtifact :=
  let?? json := nm_artifact_json m in from_json json.

Definition dep_section (p : VersionedPlan) (dep_id : string) : option string :=
  let?? dep := find_item (v_items p) dep_id in
  if negb (is_completed_status (i_status dep)) then None
  else
    let?? m := v_node_meta p !! dep_id in
    let?? a := meta_artifact m in
    Some (render_section a dep_id (default "task" (nm_kind m))).

(** [upstream_context] *)
Definition upstream_context (p : VersionedPlan) (task_id : string) : option string :=
  let?? i := find_item (v_items p) task_id in
  if is_nil (i_blocked_by i) then None
  else
    let sections := omap (dep_section p) (i_blocked_by i) in
    if is_nil sections then None
    else Some ("# Inputs from completed dependencies" +:+ nl +:+ nl +:+ String.concat nl sections).

(** [hydrate_assignment] *)
Definition hydrate_assignment (p : VersionedPlan) (task_id content : string) : string :=
  match upstream_context p task_id with
  | Some context => content +:+ nl +:+ nl +:+ context
  | None => content
  end.

Definition item_low_confidence (p : VersionedPlan) (i : PlanItem) : bool :=
  match v_node_meta p !! i_id i with
  | None => false
  | Some m =>
      if nm_is_gate m then false
      else bool_decide ((let?? a := meta_artifact m in confidence_level a) = Some ConfLow)
  end.

(** [low_confidence_completed_ids] *)
Definition low_confidence_completed_ids (p : VersionedPlan) : list string :=
  map i_id (List.filter (item_low_confidence p)
    (List.filter (λ i, is_completed_status (i_status i)) (v_items p))).
End bridge.

(** ** The words survive printing and parsing *)

Lemma parse_mode_str m : parse_mode (mode_str m) = m.
Proof. by destruct m. Qed.

Lemma parse_kind_str k : parse_kind (Some (kind_str k)) = k.
Proof. by destruct k. Qed.

Lemma parse_origin_str o : parse_origin (origin_str <$> o) = o.
Proof. by destruct o as [[]|]. Qed.

Lemma status_from_to s : status_from_plan (status_to_plan s) = s.
Proof. by destruct s. Qed.

(** The classes of plan statuses are the engine's statuses. *)
Lemma status_from_plan_classes s :
  (status_from_plan s = Running ↔ is_active_status s = true)
  ∧ (status_from_plan s = Done ↔ is_completed_status s = true)
  ∧ (status_from_plan s = Failed ↔ is_failed_status s = true)
  ∧ (status_from_plan s = Queued ↔ is_active_status s = false ∧ is_terminal_status s = false).
Proof.
  assert (is_terminal_status s = str_in s ["completed"; "done"] || str_in s ["failed"; "stopped"; "crashed"])
    as Ht.
  { unfold is_terminal_status, str_in. cbn [existsb]. by rewrite !orb_false_r, <- !orb_assoc. }
  assert (is_active_status s = true → str_in s ["completed"; "done"] = false
          ∧ str_in s ["failed"; "stopped"; "crashed"] = false) as Ha.
  { unfold is_active_status. rewrite str_in_iff. intros H.
    repeat (apply elem_of_cons in H as [->|H]; [done|]). set_solver. }
  assert (str_in s ["completed"; "done"] = true → str_in s ["failed"; "stopped"; "crashed"] = false)
    as Hc.
  { rewrite str_in_iff. intros H. repeat (apply elem_of_cons in H as [->|H]; [done|]). set_solver. }
  unfold is_failed_status, is_completed_status. rewrite Ht. unfold status_from_plan.
  fold (is_active_status s).
  destruct (is_active_status s); [destruct Ha as [-> ->]; [done|]; cbn; naive_solver|].
  destruct (str_in s ["completed"; "done"]); [rewrite Hc by done; cbn; naive_solver|].
  destruct (str_in s ["failed"; "stopped"; "crashed"]); cbn; naive_solver.
Qed.

(** Lifting a status to the engine and lowering it again never moves a task between
    completed, failed, active and unfinished, although it normalises the word. *)
Theorem status_bridge_keeps_class s :
  let s' := status_to_plan (status_from_plan s) in
  is_completed_status s' = is_completed_status s
  ∧ is_failed_status s' = is_failed_status s
  ∧ is_terminal_status s' = is_terminal_status s
  ∧ is_active_status s' = is_active_status s.
Proof.
  cbv zeta. destruct (status_from_plan_classes s) as (Ha & Hc & Hf & Hq).
  destruct (status_from_plan_classes (status_to_plan (status_from_plan s))) as (Ha' & Hc' & Hf' & Hq').
  rewrite status_from_to in Ha', Hc', Hf', Hq'.
  assert (∀ s, is_terminal_status s = is_completed_status s || is_failed_status s) as Ht.
  { intros x. unfold is_failed_status. destruct (is_completed_status x) eqn:E.
    - revert E. unfold is_completed_status. rewrite str_in_iff. intros H.
      repeat (apply elem_of_cons in H as [->|H]; [done|]). set_solver.
    - by rewrite andb_true_r. }
  split_and!; [| |rewrite !Ht; f_equal|]; apply bool_eq_iff; tauto.
Qed.

(** ** Lookups in the bridge *)

Lemma to_task_graph_nodes from_json p :
  to_task_graph from_json p
  = {| mode := parse_mode (v_mode p); nodes := map (lift_item from_json p) (v_items p) |}.
Proof.
  unfold to_task_graph.
  assert (∀ l g, foldl (λ g i, push_node g (lift_item from_json p i)) g l
    = {| mode := mode g; nodes := nodes g ++ map (lift_item from_json p) l |}) as H.
  { induction l as [|i l IH]; intros [m ns]; cbn [foldl map]; [by rewrite app_nil_r|].
    rewrite IH. cbn. by rewrite <- app_assoc. }
  by rewrite H.
Qed.

Lemma elem_lifted from_json p n :
  n ∈ nodes (to_task_graph from_json p) ↔ ∃ i, i ∈ v_items p ∧ n = lift_item from_json p i.
Proof.
  rewrite to_task_graph_nodes. cbn [nodes].
  rewrite (list_elem_of_fmap (lift_item from_json p)). naive_solver.
Qed.

Lemma lifted_ids from_json p : node_ids (to_task_graph from_json p) = map i_id (v_items p).
Proof. unfold node_ids. rewrite to_task_graph_nodes. cbn [nodes]. by rewrite map_map. Qed.

(** ** One cycle detector for two crates *)

(** The plan's cycle detector and the engine's agree on every plan: they report the same
    ids for a plan and for its lifted graph, whatever the ids and dependencies are. *)
Theorem cycle_detectors_agree from_json p c :
  c ∈ cycle_item_ids (v_items p) ↔ c ∈ cycle_nodes (to_task_graph from_json p).
Proof.
  destruct (cycle_visit_exact (v_items p) (start_ids (v_items p))) as [_ H]; [done|].
  fold (cycle_item_ids (v_items p)) in H. rewrite H, elem_cycle_nodes.
  assert (c ∈ item_ids (v_items p) ↔ c ∈ node_ids (to_task_graph from_json p)) as ->.
  { rewrite lifted_ids. unfold item_ids. apply elem_of_list_to_set. }
  assert (∀ a b, blocks (v_items p) a b ↔ dep_edge (to_task_graph from_json p) a b) as He.
  { intros a b. unfold blocks, dep_edge. rewrite lifted_ids. unfold item_ids.
    rewrite elem_of_list_to_set. setoid_rewrite elem_lifted. split.
    - intros (Ha & i & Hi & <- & Hb). split; [done|]. exists (lift_item from_json p i).
      split_and!; [by exists i|done|done].
    - intros (Ha & n & (i & Hi & ->) & <- & Hb). split; [done|]. by exists i. }
  split; intros [? Hn]; (split; [done|]); intros Hacc; apply Hn; revert Hacc; apply Acc_iff;
    intros a b; by rewrite He.
Qed.

(** ** The live scheduler refines the engine's *)

Lemma find_item_elem items i :
  NoDup (map i_id items) → i ∈ items → find_item items (i_id i) = Some i.
Proof.
  unfold find_item. induction items as [|x l IH]; cbn; intros Hnd Hi; [set_solver|].
  apply NoDup_cons in Hnd as [Hx Hl]. destruct (String.eqb_spec (i_id x) (i_id i)) as [E|E].
  - apply elem_of_cons in Hi as [->|Hi]; [done|]. exfalso. apply Hx. rewrite E.
    by apply (list_elem_of_fmap_2 i_id).
  - apply elem_of_cons in Hi as [->|Hi]; [done|]. by apply IH.
Qed.

Lemma elem_completed items d :
  d ∈ completed_item_ids items ↔ ∃ i, i ∈ items ∧ is_completed_status (i_status i) = true ∧ i_id i = d.
Proof. unfold completed_item_ids. rewrite elem_of_list_to_set. apply elem_select. Qed.

(** C32. For a plan with unique ids and no cycle, the summary's ready list is the engine's
    ready set on the lifted graph, as far as the statuses are words the plan treats as
    runnable: the live scheduler and the engine dispatch the same work. *)
Theorem ready_set_refines_engine from_json p i :
  NoDup (map i_id (v_items p)) → cycle_item_ids (v_items p) = [] → i ∈ v_items p →
  i_id i ∈ ready_ids (summarize_plan_graph (v_items p))
  ↔ is_runnable_status (i_status i) = true
    ∧ lift_item from_json p i ∈ ready_nodes (to_task_graph from_json p).
Proof.
  intros Hnd Hcyc Hi. set (g := to_task_graph from_json p).
  assert (NoDup (node_ids g)) as Hndg by (unfold g; by rewrite lifted_ids).
  assert (∀ d, match get g d with Some dn => is_done dn | None => false end = true
               ↔ d ∈ completed_item_ids (v_items p) ∧ d ∈ item_ids (v_items p)) as Hdone.
  { intros d. rewrite elem_completed. unfold item_ids. rewrite elem_of_list_to_set. split.
    - destruct (get g d) as [dn|] eqn:Eg; [|done]. apply get_Some in Eg as [Hdn <-].
      apply elem_lifted in Hdn as (j & Hj & ->). intros Hd.
      split; [|by apply (list_elem_of_fmap_2 i_id)]. exists j. split_and!; [done| |done].
      destruct (status_from_plan_classes (i_status j)) as (_ & Hc & _). apply Hc.
      unfold is_done in Hd. cbn in Hd. by destruct (status_from_plan (i_status j)).
    - intros [(j & Hj & Hc & <-) _].
      assert (lift_item from_json p j ∈ nodes g) as Hn by (apply elem_lifted; by exists j).
      apply (get_elem g) in Hn; [|done]. cbn [n_id lift_item] in Hn. rewrite Hn.
      destruct (status_from_plan_classes (i_status j)) as (_ & Hc' & _). apply Hc' in Hc.
      unfold is_done. cbn. by rewrite Hc. }
  rewrite ready_unique, item_ready_iff, Hcyc by done. rewrite elem_ready.
  assert (deps_satisfied g (lift_item from_json p i) = true ↔
          ∀ d, d ∈ i_blocked_by i → d ∈ completed_item_ids (v_items p) ∧ d ∈ item_ids (v_items p))
    as Hds.
  { unfold deps_satisfied. rewrite forallb_elem. cbn [n_depends_on lift_item].
    split; intros H d Hd; apply Hdone; by apply H. }
  rewrite Hds. cbn [n_status lift_item].
  destruct (status_from_plan_classes (i_status i)) as (_ & _ & _ & Hq). rewrite Hq. split.
  - intros (Hr & Hd & _). split; [done|]. split_and!; [apply elem_lifted; by exists i| | |done].
    + by apply runnable_not_active.
    + by apply runnable_not_terminal.
  - intros (Hr & _ & _ & Hd). split_and!; [done|done|]. set_solver.
Qed.

Definition ready_plan : VersionedPlan := set_items (take 5 sample_items) new_plan.

Lemma ready_set_refines_engine_witness :
  lift_item (λ _, None) ready_plan (sample_item "b" "queued" ["a"] (Some "s1"))
  ∈ ready_nodes (to_task_graph (λ _, None) ready_plan).
Proof.
  apply (ready_set_refines_engine (λ _, None) ready_plan (sample_item "b" "queued" ["a"] (Some "s1"))).
  - apply (bool_decide_unpack _). by vm_compute.
  - by vm_compute.
  - apply (bool_decide_unpack _). by vm_compute.
  - apply (bool_decide_unpack _). by vm_compute.
Defined.

(** ** Lowering loses nothing the engine owns *)

Section roundtrip.
Context (to_json : HandoffArtifact → option string)
        (from_json : string → option HandoffArtifact).
Context (p : VersionedPlan) (g : TaskGraph).

(** [serde_json] reads back the artifacts of the graph. *)
Definition json_ok : Prop :=
  ∀ n a, n ∈ nodes g → n_output n = Some a →
    ∃ s, to_json a = Some s ∧ from_json s = Some a.

(** The numeric priorities are the ranks of the words the plan keeps. *)
Definition priority_ok : Prop :=
  ∀ n, n ∈ nodes g →
    match prior_items (v_items p) !! n_id n with
    | Some q => N.of_nat (priority_rank (i_priority q)) = n_priority n
    | None => (n_priority n ≤ 2)%N
    end.

Hypothesis ids_ok : NoDup (node_ids g).
Hypothesis artifacts_ok : json_ok.

Let lowered : VersionedPlan := apply_task_graph to_json p g.

Lemma lower_metas_lookup l (m : gmap string NodeMeta) n :
  NoDup (map n_id l) → n ∈ l →
  foldl (λ m n, <[n_id n := lower_meta to_json n]> m) m l !! n_id n
  = Some (lower_meta to_json n).
Proof using.
  clear. revert m. induction l as [|x l IH]; intros m Hnd Hn; [set_solver|]. cbn [foldl].
  apply NoDup_cons in Hnd as [Hx Hl]. apply elem_of_cons in Hn as [->|Hn]; [|by apply IH].
  clear IH. assert (∀ m : gmap string NodeMeta, m !! n_id x = Some (lower_meta to_json x) →
    foldl (λ m n, <[n_id n := lower_meta to_json n]> m) m l !! n_id x = Some (lower_meta to_json x))
    as H; [|by apply H, lookup_insert_eq].
  clear Hl. induction l as [|y l IH]; intros m' Hm; [done|]. cbn [foldl]. cbn [map] in Hx.
  apply IH; [set_solver|]. rewrite lookup_insert_ne; [done|set_solver].
Qed.

Lemma lowered_meta n : n ∈ nodes g → v_node_meta lowered !! n_id n = Some (lower_meta to_json n).
Proof using ids_ok. clear artifacts_ok. by apply lower_metas_lookup. Qed.

Lemma lowered_items :
  v_items lowered = map (lower_item (prior_items (v_items p))) (nodes g).
Proof using. done. Qed.

Lemma lowered_artifact n :
  n ∈ nodes g → meta_artifact from_json (lower_meta to_json n) = n_output n.
Proof using artifacts_ok.
  intros Hn. unfold meta_artifact. cbn. destruct (n_output n) as [a|] eqn:E; [|done].
  destruct (artifacts_ok n a Hn E) as (s & -> & ->). done.
Qed.

Lemma priority_string_rank r :
  (r ≤ 2)%N → N.of_nat (priority_rank (priority_string r)) = r.
Proof using.
  clear. intros H. assert (r = 0 ∨ r = 1 ∨ r = 2)%N as [ -> | [ -> | -> ] ] by lia; done.
Qed.

Lemma lift_lower n :
  priority_ok → n ∈ nodes g →
  lift_item from_json lowered (lower_item (prior_items (v_items p)) n) = n.
Proof using ids_ok artifacts_ok.
  intros Hp Hn. unfold lift_item. cbn [lower_item i_id i_content i_status i_assigned_to
    i_blocked_by i_priority]. rewrite (lowered_meta n Hn). cbn [default from_option].
  change (let?? json := nm_artifact_json (id (lower_meta to_json n)) in from_json json)
    with (meta_artifact from_json (lower_meta to_json n)).
  rewrite lowered_artifact by done.
  assert (N.of_nat (priority_rank match prior_items (v_items p) !! n_id n with
            | Some q => i_priority q | None => priority_string (n_priority n) end)
          = n_priority n) as ->.
  { specialize (Hp n Hn). destruct (prior_items (v_items p) !! n_id n); [done|].
    by apply priority_string_rank. }
  rewrite status_from_to. cbn [id lower_meta nm_kind nm_parent nm_expanded nm_is_gate nm_planner nm_origin].
  rewrite parse_kind_str, parse_origin_str. by destruct n.
Qed.

Lemma lower_then_lift : priority_ok → to_task_graph from_json lowered = g.
Proof using ids_ok artifacts_ok.
  intros Hp. rewrite to_task_graph_nodes, lowered_items.
  change (v_mode lowered) with (mode_str (mode g)). rewrite parse_mode_str, map_map.
  assert (map (λ n, lift_item from_json lowered (lower_item (prior_items (v_items p)) n)) (nodes g)
          = nodes g) as ->; [|by destruct g].
  rewrite <- (map_id (nodes g)) at 2. apply map_ext_in. intros n Hn%list_elem_of_In.
  by apply lift_lower.
Qed.

Lemma lowered_low_confidence :
  low_confidence_completed_ids from_json lowered = low_confidence_done_ids g.
Proof using ids_ok artifacts_ok.
  unfold low_confidence_completed_ids, low_confidence_done_ids. rewrite lowered_items.
  assert (∀ l, (∀ n, n ∈ l → n ∈ nodes g) →
    map i_id (List.filter (item_low_confidence from_json lowered)
      (List.filter (λ i, is_completed_status (i_status i))
         (map (lower_item (prior_items (v_items p))) l)))
    = map n_id (List.filter (λ n, bool_decide (output_confidence n = Some ConfLow))
        (List.filter (λ n, is_done n && negb (n_is_gate n)) l))) as H; [|by apply H].
  induction l as [|n l IH]; intros Hl; [done|]. cbn [map List.filter].
  assert (n ∈ nodes g) as Hn by set_solver. specialize (IH ltac:(set_solver)).
  cbn [lower_item i_status].
  assert (is_completed_status (status_to_plan (n_status n)) = is_done n) as ->.
  { unfold is_done. by destruct (n_status n). }
  destruct (is_done n); cbn [andb]; [|exact IH]. cbn [List.filter].
  assert (item_low_confidence from_json lowered (lower_item (prior_items (v_items p)) n)
          = negb (n_is_gate n) && bool_decide (output_confidence n = Some ConfLow)) as ->.
  { unfold item_low_confidence. cbn [lower_item i_id]. rewrite (lowered_meta n Hn).
    cbn [lower_meta nm_is_gate]. destruct (n_is_gate n); [done|]. cbn [negb andb].
    fold (lower_meta to_json n). by rewrite lowered_artifact. }
  destruct (n_is_gate n); cbn [negb andb]; [exact IH|]. cbn [List.filter].
  destruct (bool_decide _); cbn [map]; [f_equal|]; exact IH.
Qed.
End roundtrip.

(** Lowering a graph into the plan and lifting it again gives back the graph, every field
    of every node included, for a graph with unique ids whose artifacts [serde_json] reads
    back and whose numeric priorities are the ranks the plan's words can express. *)
Theorem apply_then_lift_is_identity to_json from_json p g :
  NoDup (node_ids g) → json_ok to_json from_json g → priority_ok p g →
  to_task_graph from_json (apply_task_graph to_json p g) = g.
Proof. intros Hi Hj Hp. by apply lower_then_lift. Qed.

(** A writer for artifacts that only have findings. *)
Definition findings_json (a : HandoffArtifact) : option string := Some (h_findings a).

Lemma apply_then_lift_is_identity_witness :
  nodes demo_mid ≠ []
  ∧ to_task_graph (λ s, Some (deep_artifact s)) (apply_task_graph findings_json new_plan demo_mid)
    = demo_mid.
Proof.
  split; [by vm_compute|]. apply apply_then_lift_is_identity.
  - apply (bool_decide_unpack _). by vm_compute.
  - intros n a Hn Ha. exists (h_findings a). split; [done|].
    assert (Forall (λ n, default true ((λ a, bool_decide (deep_artifact (h_findings a) = a)) <$> n_output n) = true)
              (nodes demo_mid)) as Hall by (apply (bool_decide_unpack _); by vm_compute).
    rewrite Forall_forall in Hall. specialize (Hall n Hn). rewrite Ha in Hall.
    cbn in Hall. simp_bool. congruence.
  - intros n Hn. change (prior_items (v_items new_plan)) with (∅ : gmap string PlanItem).
    rewrite lookup_empty. revert n Hn. apply Forall_forall. apply (bool_decide_unpack _). by vm_compute.
Defined.

(** A rank the words cannot express comes back as a more urgent one than [low]. *)
Lemma large_priority_promoted r :
  (2 < r)%N → priority_rank (priority_string r) = 1.
Proof.
  intros H. unfold priority_string.
  destruct (N.eqb_spec r 0); [lia|]. by destruct (N.eqb_spec r 2); [lia|].
Qed.

(** The status surfaces of the live plan and of the engine report the same shaky nodes:
    on a lowered graph the low-confidence completed ids are the graph's low-confidence done
    ids, in the same order. *)
Theorem low_confidence_views_agree to_json from_json p g :
  NoDup (node_ids g) → json_ok to_json from_json g →
  low_confidence_completed_ids from_json (apply_task_graph to_json p g)
  = low_confidence_done_ids g.
Proof. intros Hi Hj. by apply lowered_low_confidence. Qed.

Definition doubtful_artifact : HandoffArtifact :=
  {| h_findings := "half read"; h_evidence := []; h_edge_cases_considered := [];
     h_validation := None; h_open_questions := []; h_confidence := Some "not confident";
     h_what_i_did_not_check := ["the rest"] |}.

Definition doubtful_graph : TaskGraph :=
  default (new_graph Deep)
    (apply_ops (new_graph Deep)
       [OpSeed [new_spec "a" "read a" Explore]; OpDispatch "a" "w0";
        OpComplete "a" "w0" doubtful_artifact]).

Lemma low_confidence_views_agree_witness :
  low_confidence_completed_ids (λ _, Some doubtful_artifact)
    (apply_task_graph findings_json new_plan doubtful_graph) = ["a"].
Proof.
  rewrite (low_confidence_views_agree findings_json (λ _, Some doubtful_artifact) new_plan doubtful_graph).
  - by vm_compute.
  - apply (bool_decide_unpack _). by vm_compute.
  - intros n a Hn Ha. exists (h_findings a). split; [done|].
    assert (Forall (λ n, n_output n = None ∨ n_output n = Some doubtful_artifact)
              (nodes doubtful_graph)) as Hall by (apply (bool_decide_unpack _); by vm_compute).
    rewrite Forall_forall in Hall. destruct (Hall n Hn); congruence.
Defined.

(** The growth line accounts for every item exactly once: seeded and grown nodes add up to
    the plan. *)
Theorem growth_accounts_for_every_item p :
  growth_total (growth_stats p) = length (v_items p)
  ∧ seeded (growth_stats p) + growth_grown (growth_stats p) = length (v_items p).
Proof.
  unfold growth_stats.
  assert (∀ l s, growth_total (foldl (λ s i, count_origin s (item_origin p i)) s l)
                 = growth_total s + length l) as H.
  { induction l as [|i l IH]; intros s; cbn [foldl length]; [lia|]. rewrite IH.
    unfold growth_total, count_origin. destruct (item_origin p i) as [[]|]; cbn; lia. }
  specialize (H (v_items p) {| seeded := 0; from_expansion := 0; from_gaps := 0; gates := 0 |}).
  split; [exact H|]. revert H. unfold growth_total, growth_grown. cbn. lia.
Qed.
