(* ===== verification/Compaction.v ===== *)
(** * [arterm-compaction-core]: context compaction (crates/arterm-compaction-core/src/lib.rs)

    Messages are lists of content blocks (crates/arterm-message-types/src/lib.rs).  A tool's
    JSON input and a message's timestamp come from [serde_json] and [chrono]: their types,
    and the printing of a JSON value, are parameters. *)

From S2P Require Export RustStr.

Inductive Role := User | Assistant.

Record CacheControl := { cc_kind : string; cc_ttl : option string }.

(** [ContentBlock], over the type of JSON values. *)
Inductive ContentBlock (Json : Type) :=
  | Text (text : string) (cache_control : option CacheControl)
  | Reasoning (text : string)
  | ReasoningTrace (text : string)
  | AnthropicThinking (thinking signature : string)
  | OpenAIReasoning (id : string) (summary : list string)
      (encrypted_content status : option string)
  | ToolUse (id name : string) (input : Json) (thought_signature : option string)
  | ToolResult (tool_use_id content : string) (is_error : option bool)
  | Image (media_type data : string)
  | OpenAICompaction (encrypted_content : string).
Arguments Text {Json}. Arguments Reasoning {Json}. Arguments ReasoningTrace {Json}.
Arguments AnthropicThinking {Json}. Arguments OpenAIReasoning {Json}. Arguments ToolUse {Json}.
Arguments ToolResult {Json}. Arguments Image {Json}. Arguments OpenAICompaction {Json}.

Record Message (Json Time : Type) := {
  m_role : Role;
  m_content : list (ContentBlock Json);
  m_timestamp : option Time;
  m_tool_duration_ms : option N;
}.
Arguments m_role {Json Time}. Arguments m_content {Json Time}.
Arguments m_timestamp {Json Time}. Arguments m_tool_duration_ms {Json Time}.

(** ** Constants *)

Definition CHARS_PER_TOKEN : nat := 4.
Definition IMAGE_TOKEN_COST : nat := 1600.
Definition DEFAULT_TOKEN_BUDGET : N := 200000.
Definition SYSTEM_OVERHEAD_TOKENS : N := 18000.

(** ** Slices at character boundaries *)

(** [str::is_char_boundary] *)
Definition is_char_boundary (s : string) (n : nat) : bool :=
  if Nat.eqb n 0 then true
  else match first_char (str_drop n s) with
       | Some c => negb (is_continuation c)
       | None => Nat.eqb n (String.length s)
       end.

(** [while end > 0 && !is_char_boundary(end) { end -= 1 }] *)
Fixpoint back_to_boundary (s : string) (fin : nat) : nat :=
  match fin with
  | 0 => 0
  | S e => if is_char_boundary s fin then fin else back_to_boundary s e
  end.

(** [truncate_str_boundary] *)
Definition truncate_str_boundary (value : string) (max_bytes : nat) : string :=
  if String.length value <=? max_bytes then value
  else str_take (back_to_boundary value (Nat.min max_bytes (String.length value))) value.

(** [while start < len && !is_char_boundary(start) { start += 1 }], with the distance to the
    end as the measure. *)
Fixpoint forward_to_boundary (s : string) (left start : nat) : nat :=
  match left with
  | 0 => start
  | S l => if is_char_boundary s start then start else forward_to_boundary s l (S start)
  end.

(** [tail_str_boundary] *)
Definition tail_str_boundary (value : string) (max_bytes : nat) : string :=
  let len := String.length value in
  if len <=? max_bytes then value
  else
    let start := len - max_bytes in
    str_drop (forward_to_boundary value (len - start) start) value.

(** [emergency_truncated_tool_result] *)
Definition emergency_truncated_tool_result (content : string) (max_chars : nat) : string :=
  let head := truncate_str_boundary content (max_chars / 2) in
  let tail := tail_str_boundary content (max_chars / 4) in
  let truncated_len :=
    String.length content - (String.length head + String.length tail) in
  head +:+ nl +:+ nl +:+ "... [" +:+ show_nat truncated_len
  +:+ " chars truncated for context recovery] ..." +:+ nl +:+ nl +:+ tail.

(** ** Payload errors *)

Definition digit_at (s : string) (n : nat) : bool :=
  match first_char (str_drop n s) with Some c => is_ascii_digit c | None => false end.

(** [contains_independent_status_code]: [match_indices] yields the non-overlapping matches
    from the left; [pos] is where the search resumes. *)
Fixpoint independent_code_from (fuel : nat) (haystack code : string) (pos : nat) : bool :=
  match fuel with
  | 0 => false
  | S fuel' =>
      match str_find code (str_drop pos haystack) with
      | None => false
      | Some n =>
          let start := pos + n in
          let fin := start + String.length code in
          let before_ok := Nat.eqb start 0 || negb (digit_at haystack (start - 1)) in
          let after_ok := Nat.eqb fin (String.length haystack) || negb (digit_at haystack fin) in
          if before_ok && after_ok then true else independent_code_from fuel' haystack code fin
      end
  end.

Definition contains_independent_status_code (haystack code : string) : bool :=
  independent_code_from (S (String.length haystack)) haystack code 0.

(** [is_request_payload_too_large_error] *)
Definition is_request_payload_too_large_error (error : string) : bool :=
  let lower := to_ascii_lowercase error in
  existsb (λ p, contains p lower)
    ["request_too_large"; "request too large"; "payload too large"; "request entity too large";
     "request exceeds the maximum size"; "exceeds the maximum size"]
  || contains_independent_status_code lower "413".

(** ** Token accounting *)

Definition u64_max : N := (2 ^ 64 - 1)%N.
Definition saturating_add (a b : N) : N := N.min (a + b) u64_max.

(** [effective_context_tokens_from_usage] *)
Definition effective_context_tokens_from_usage (provider_name : string) (input_tokens : N)
  (cache_read_input_tokens cache_creation_input_tokens : option N) : N :=
  if N.eqb input_tokens 0 then 0%N
  else
    let cache_read := default 0%N cache_read_input_tokens in
    let cache_creation := default 0%N cache_creation_input_tokens in
    let provider := to_lowercase provider_name in
    if contains "anthropic" provider || contains "claude" provider
       || N.ltb 0 cache_creation || N.ltb input_tokens cache_read
    then saturating_add (saturating_add input_tokens cache_read) cache_creation
    else input_tokens.

(** [estimate_compaction_tokens_from_chars] *)
Definition estimate_compaction_tokens_from_chars (total_chars token_budget : N) : N :=
  (total_chars / N.of_nat CHARS_PER_TOKEN
   + if N.leb (DEFAULT_TOKEN_BUDGET / 2) token_budget then SYSTEM_OVERHEAD_TOKENS else 0)%N.

Record Summary := {
  sm_text : string;
  sm_openai_encrypted_content : option string;
  sm_covers_up_to_turn : nat;
  sm_original_turn_count : nat;
}.

(** [summary_payload_char_count] *)
Definition summary_payload_char_count (s : Summary) : nat :=
  match sm_openai_encrypted_content s with
  | Some v => String.length v
  | None => String.length (sm_text s)
  end.

(** [estimate_compaction_tokens] *)
Definition estimate_compaction_tokens (summary : option Summary) (active_message_chars : N)
  (token_budget : N) : N :=
  let summary_chars :=
    match summary with Some s => N.of_nat (summary_payload_char_count s) | None => 0%N end in
  estimate_compaction_tokens_from_chars (summary_chars + active_message_chars) token_budget.

(** [compacted_summary_text_block] *)
Definition compacted_summary_text_block (summary : string) : string :=
  "## Previous Conversation Summary" +:+ nl +:+ nl +:+ summary +:+ nl +:+ nl +:+ "---" +:+ nl +:+ nl.

Section messages.
Context {Json Time : Type} (json_to_string : Json → string).

Definition block_char_count (b : ContentBlock Json) : nat :=
  match b with
  | Text text _ => String.length text
  | Reasoning text => String.length text
  | ReasoningTrace text => String.length text
  | AnthropicThinking thinking signature => String.length thinking + String.length signature
  | OpenAIReasoning id summary encrypted_content status =>
      String.length id + sum_of String.length summary
      + match encrypted_content with Some s => String.length s | None => 0 end
      + match status with Some s => String.length s | None => 0 end
  | ToolUse _ _ input _ => String.length (json_to_string input) + 50
  | ToolResult _ content _ => String.length content + 20
  | Image _ _ => IMAGE_TOKEN_COST * CHARS_PER_TOKEN
  | OpenAICompaction encrypted_content => String.length encrypted_content
  end.

(** [content_char_count] *)
Definition content_char_count (content : list (ContentBlock Json)) : nat :=
  sum_of block_char_count content.

(** [message_char_count] *)
Definition message_char_count (m : Message Json Time) : nat := content_char_count (m_content m).

(** ** The prompt *)

Definition prompt_block (b : ContentBlock Json) : string :=
  match b with
  | Text text _ => text +:+ nl
  | ToolUse _ name input _ => "[Tool: " +:+ name +:+ " - " +:+ json_to_string input +:+ "]" +:+ nl
  | ToolResult _ content _ =>
      let truncated :=
        if Nat.ltb 500 (String.length content)
        then truncate_str_boundary content 500 +:+ "... (truncated)" else content in
      "[Result: " +:+ truncated +:+ "]" +:+ nl
  | Reasoning _ | ReasoningTrace _ | AnthropicThinking _ _ | OpenAIReasoning _ _ _ _ => ""
  | Image _ _ => "[Image]" +:+ nl
  | OpenAICompaction _ => "[OpenAI native compaction]" +:+ nl
  end.

Definition prompt_message (m : Message Json Time) : string :=
  "**" +:+ match m_role m with User => "User" | Assistant => "Assistant" end +:+ ":**" +:+ nl
  +:+ String.concat "" (map prompt_block (m_content m)) +:+ nl.

(** [build_compaction_conversation_text] *)
Definition build_compaction_conversation_text (messages : list (Message Json Time))
  (existing_summary : option Summary) : string :=
  match existing_summary with
  | Some s =>
      "## Previous Summary" +:+ nl +:+ nl +:+ sm_text s +:+ nl +:+ nl
      +:+ "## New Conversation" +:+ nl +:+ nl
  | None => ""
  end +:+ String.concat "" (map prompt_message messages).

(** ** The cutoff *)

(** One block of either loop of [safe_compaction_cutoff]. *)
Definition track_block (st : gset string * gset string) (b : ContentBlock Json)
  : gset string * gset string :=
  match b with
  | ToolUse id _ _ _ => ({[id]} ∪ st.1, st.2 ∖ {[id]})
  | ToolResult tool_use_id _ _ =>
      if bool_decide (tool_use_id ∈ st.1) then st else (st.1, {[tool_use_id]} ∪ st.2)
  | _ => st
  end.

Definition track_message (st : gset string * gset string) (m : Message Json Time)
  : gset string * gset string := foldl track_block st (m_content m).

(** The backward walk: [before] is [messages[..idx]] from its end. *)
Fixpoint walk_back (before : list (Message Json Time)) (st : gset string * gset string) : nat :=
  match before with
  | [] => 0
  | m :: before' =>
      let st' := track_message st m in
      if bool_decide (st'.2 = ∅) then length before' else walk_back before' st'
  end.

(** [safe_compaction_cutoff] *)
Definition safe_compaction_cutoff (messages : list (Message Json Time)) (initial_cutoff : nat)
  : nat :=
  let cutoff := Nat.min initial_cutoff (length messages) in
  let st := foldl track_message (∅, ∅) (drop cutoff messages) in
  if bool_decide (st.2 = ∅) then cutoff
  else walk_back (reverse (take cutoff messages)) st.

(** ** Emergency truncation *)

Definition set_content (c : list (ContentBlock Json)) (m : Message Json Time)
  : Message Json Time :=
  {| m_role := m_role m; m_content := c; m_timestamp := m_timestamp m;
     m_tool_duration_ms := m_tool_duration_ms m |}.

Definition image_marker (reason : string) (media_type data : string) (advice : string)
  : ContentBlock Json :=
  Text ("[Image omitted during " +:+ reason +:+ ": media_type=" +:+ media_type
        +:+ ", original_base64_chars=" +:+ show_nat (String.length data) +:+ ". " +:+ advice
        +:+ "Rely on adjacent browser/tool text, screenshots saved to disk, or re-open/re-screenshot if visual details are needed.]")
       None.

(** The new block and whether it was changed. *)
Definition shrink_tool_result (max_chars : nat) (b : ContentBlock Json)
  : ContentBlock Json * bool :=
  match b with
  | ToolResult id content e =>
      if Nat.ltb max_chars (String.length content)
      then (ToolResult id (emergency_truncated_tool_result content max_chars) e, true)
      else (b, false)
  | _ => (b, false)
  end.

Definition shrink_payload (max_tool_result_chars max_image_chars : nat) (b : ContentBlock Json)
  : ContentBlock Json * bool :=
  match b with
  | ToolResult _ _ _ => shrink_tool_result max_tool_result_chars b
  | Image media_type data =>
      if Nat.ltb max_image_chars (String.length data)
      then (image_marker "emergency context recovery" media_type data "", true)
      else (b, false)
  | _ => (b, false)
  end.

Definition count_true (l : list bool) : nat := length (List.filter (λ b, b) l).

(** The in-place loops over every block of every message. *)
Definition shrink_messages (f : ContentBlock Json → ContentBlock Json * bool)
  (messages : list (Message Json Time)) : list (Message Json Time) * nat :=
  (map (λ m, set_content (map (λ b, (f b).1) (m_content m)) m) messages,
   sum_of (λ m, count_true (map (λ b, (f b).2) (m_content m))) messages).

(** [emergency_truncate_tool_results] *)
Definition emergency_truncate_tool_results (messages : list (Message Json Time))
  (max_chars : nat) : list (Message Json Time) * nat :=
  shrink_messages (shrink_tool_result max_chars) messages.

(** [emergency_truncate_large_payloads] *)
Definition emergency_truncate_large_payloads (messages : list (Message Json Time))
  (max_tool_result_chars max_image_chars : nat) : list (Message Json Time) * nat :=
  shrink_messages (shrink_payload max_tool_result_chars max_image_chars) messages.

(** ** Stripping images *)

Definition image_len (b : ContentBlock Json) : nat :=
  match b with Image _ data => String.length data | _ => 0 end.

Definition is_image (b : ContentBlock Json) : bool :=
  match b with Image _ _ => true | _ => false end.

(** The total base64 payload; a [saturating_add] never saturates on data in memory. *)
Definition content_image_total (c : list (ContentBlock Json)) : nat := sum_of image_len c.
Definition image_total (contents : list (list (ContentBlock Json))) : nat :=
  sum_of content_image_total contents.

Definition size_marker (media_type data : string) : ContentBlock Json :=
  image_marker "request-size recovery" media_type data
    "The request body exceeded the provider size limit; older images were dropped. ".

(** The second loop over the collected images, oldest first, on the blocks of one content
    vector: the state is the running total and the number stripped. *)
Fixpoint strip_blocks (target : nat) (blocks : list (ContentBlock Json)) (total stripped : nat)
  : list (ContentBlock Json) * nat * nat :=
  match blocks with
  | [] => ([], total, stripped)
  | b :: rest =>
      match b with
      | Image media_type data =>
          if total <=? target then (blocks, total, stripped)
          else
            let '(rest', total', stripped') :=
              strip_blocks target rest (total - String.length data) (S stripped) in
            (size_marker media_type data :: rest', total', stripped')
      | _ =>
          let '(rest', total', stripped') := strip_blocks target rest total stripped in
          (b :: rest', total', stripped')
      end
  end.

Fixpoint strip_contents (target : nat) (contents : list (list (ContentBlock Json)))
  (total stripped : nat) : list (list (ContentBlock Json)) * nat :=
  match contents with
  | [] => ([], stripped)
  | c :: rest =>
      let '(c', total', stripped') := strip_blocks target c total stripped in
      let '(rest', n) := strip_contents target rest total' stripped' in
      (c' :: rest', n)
  end.

(** [strip_large_images_in_contents] *)
Definition strip_large_images_in_contents (contents : list (list (ContentBlock Json)))
  (target_total_chars : nat) : list (list (ContentBlock Json)) * nat :=
  let total := image_total contents in
  if total <=? target_total_chars then (contents, 0)
  else strip_contents target_total_chars contents total 0.

(** [emergency_strip_large_images] *)
Definition emergency_strip_large_images (messages : list (Message Json Time))
  (target_total_chars : nat) : list (Message Json Time) * nat :=
  let '(contents, n) :=
    strip_large_images_in_contents (map m_content messages) target_total_chars in
  (zip_with set_content contents messages, n).
End messages.

(** ** The cutoff keeps tool results with their calls *)

Section cutoff.
Context {Json Time : Type}.
Implicit Types (ms suffix before : list (Message Json Time)) (m : Message Json Time).

Definition block_uses (b : ContentBlock Json) : list string :=
  match b with ToolUse id _ _ _ => [id] | _ => [] end.
Definition block_results (b : ContentBlock Json) : list string :=
  match b with ToolResult id _ _ => [id] | _ => [] end.

(** The ids of the tool calls, and of the tool results, of a run of messages. *)
Definition tool_uses ms : list string := concat (map (λ m, concat (map block_uses (m_content m))) ms).
Definition tool_results ms : list string :=
  concat (map (λ m, concat (map block_results (m_content m))) ms).

(** Every result has its call in the same run. *)
Definition closed_run ms : Prop := ∀ id, id ∈ tool_results ms → id ∈ tool_uses ms.

(** The two sets of the source, for the ids [us] used and [rs] reported so far. *)
Definition tracks (us rs : list string) (st : gset string * gset string) : Prop :=
  ∀ id, (id ∈ st.1 ↔ id ∈ us) ∧ (id ∈ st.2 ↔ id ∈ rs ∧ id ∉ us).

Lemma track_block_inv us rs st b :
  tracks us rs st → tracks (us ++ block_uses b) (rs ++ block_results b) (track_block st b).
Proof.
  intros H id. destruct (H id) as [H1 H2]. destruct b; cbn [block_uses block_results track_block];
    rewrite ?app_nil_r; try done.
  - cbn [fst snd]. set_solver.
  - destruct (H tool_use_id) as [H3 H4]. case_bool_decide as Hb; cbn [fst snd]; [|set_solver].
    split; [done|]. rewrite H2. set_solver.
Qed.

Lemma track_message_inv us rs st m :
  tracks us rs st →
  tracks (us ++ concat (map block_uses (m_content m)))
    (rs ++ concat (map block_results (m_content m))) (track_message st m).
Proof.
  unfold track_message. revert us rs st.
  induction (m_content m) as [|b l IH]; intros us rs st H; cbn [foldl map concat].
  - by rewrite !app_nil_r.
  - rewrite !app_assoc. by apply IH, track_block_inv.
Qed.

Lemma tracks_ext us us' rs rs' st :
  (∀ id, id ∈ us ↔ id ∈ us') → (∀ id, id ∈ rs ↔ id ∈ rs') →
  tracks us rs st → tracks us' rs' st.
Proof. intros Hu Hr H id. by rewrite <- Hu, <- Hr. Qed.

Lemma track_run_inv us rs st ms :
  tracks us rs st →
  tracks (us ++ tool_uses ms) (rs ++ tool_results ms) (foldl track_message st ms).
Proof.
  revert us rs st. induction ms as [|m ms IH]; intros us rs st H; cbn [foldl].
  - unfold tool_uses, tool_results. cbn. by rewrite !app_nil_r.
  - unfold tool_uses, tool_results. cbn [map concat]. rewrite !app_assoc.
    by apply IH, track_message_inv.
Qed.

Lemma tracks_closed ms st :
  tracks (tool_uses ms) (tool_results ms) st → st.2 = ∅ ↔ closed_run ms.
Proof.
  intros H. unfold closed_run. split.
  - intros He id Hid. destruct (decide (id ∈ tool_uses ms)) as [|Hn]; [done|exfalso].
    assert (id ∈ st.2) as Hin by (by apply H). rewrite He in Hin. set_solver.
  - intros Hc. apply leibniz_equiv. intros id. destruct (H id) as [_ ->]. set_solver.
Qed.

Lemma walk_back_spec before suffix st :
  tracks (tool_uses suffix) (tool_results suffix) st → ¬ closed_run suffix →
  let ms := reverse before ++ suffix in
  let c := walk_back before st in
  c ≤ length before ∧ (c = 0 ∨ closed_run (drop c ms))
  ∧ ∀ j, c < j ≤ length before → ¬ closed_run (drop j ms).
Proof.
  cbv zeta. revert suffix st. induction before as [|m before IH]; intros suffix st Ht Hn;
    cbn [walk_back length].
  { split_and!; [lia|by left|]. intros j Hj. lia. }
  assert (tracks (tool_uses (m :: suffix)) (tool_results (m :: suffix)) (track_message st m)) as Ht'.
  { eapply tracks_ext; [| |by apply track_message_inv]; intros id;
      unfold tool_uses, tool_results; cbn [map concat]; set_solver. }
  assert (reverse (m :: before) ++ suffix = reverse before ++ (m :: suffix)) as ->.
  { by rewrite reverse_cons, <- app_assoc. }
  assert (drop (S (length before)) (reverse before ++ m :: suffix) = suffix) as Hd.
  { rewrite cons_middle, app_assoc. apply drop_app_length'.
    rewrite length_app, length_reverse. simpl. lia. }
  case_bool_decide as Hb.
  - apply (tracks_closed _ _ Ht') in Hb. split_and!; [lia| |].
    + right. rewrite drop_app_length'; [done|by rewrite length_reverse].
    + intros j Hj. assert (j = S (length before)) as -> by lia. by rewrite Hd.
  - destruct (IH (m :: suffix) (track_message st m) Ht') as (Hle & Hc & Hj).
    { intros Hcl. apply Hb. by apply (tracks_closed _ _ Ht'). }
    split_and!; [lia|done|]. intros j Hjj.
    destruct (decide (j = S (length before))) as [->|]; [by rewrite Hd|]. apply Hj. lia.
Qed.

Lemma safe_cutoff_spec ms k :
  let c := safe_compaction_cutoff ms k in
  c ≤ Nat.min k (length ms)
  ∧ (c = 0 ∨ closed_run (drop c ms))
  ∧ ∀ j, c < j ≤ Nat.min k (length ms) → ¬ closed_run (drop j ms).
Proof.
  cbv zeta. unfold safe_compaction_cutoff. set (cut := Nat.min k (length ms)).
  assert (tracks (tool_uses (drop cut ms)) (tool_results (drop cut ms))
            (foldl track_message (∅, ∅) (drop cut ms))) as Ht.
  { apply (track_run_inv [] [] (∅, ∅)). intros id. cbn. set_solver. }
  case_bool_decide as Hb.
  - apply (tracks_closed _ _ Ht) in Hb. split_and!; [done|by right|]. intros j Hj. lia.
  - assert (length (take cut ms) = cut) as Hl by (rewrite length_take; unfold cut; lia).
    destruct (walk_back_spec (reverse (take cut ms)) (drop cut ms) _ Ht) as (Hle & Hc & Hj).
    { intros Hcl. apply Hb. by apply (tracks_closed _ _ Ht). }
    rewrite reverse_involutive, take_drop, length_reverse, Hl in *. done.
Qed.

(** Compaction never separates a kept tool result from its call: the cutoff is at most
    the requested one, the kept messages contain the call of every result they contain
    (or nothing is compacted), and no larger cutoff would do. *)
Theorem safe_cutoff_is_largest_closed ms k :
  let c := safe_compaction_cutoff ms k in
  c ≤ Nat.min k (length ms)
  ∧ (c = 0 ∨ closed_run (drop c ms))
  ∧ ∀ j, c < j ≤ Nat.min k (length ms) → ¬ closed_run (drop j ms).
Proof. exact (safe_cutoff_spec ms k). Qed.
End cutoff.

(** ** Stripping images is oldest first and minimal *)

Section strip.
Context {Json : Type}.
Implicit Types (l blocks : list (ContentBlock Json)).

(** The reference: the first [n] images replaced by their markers. *)
Fixpoint replace_images (n : nat) l : list (ContentBlock Json) :=
  match l with
  | [] => []
  | b :: rest =>
      match b with
      | Image media_type data =>
          match n with
          | 0 => l
          | S n' => size_marker media_type data :: replace_images n' rest
          end
      | _ => b :: replace_images n rest
      end
  end.

Lemma replace_images_0 l : replace_images 0 l = l.
Proof. induction l as [|b l IH]; [done|]. destruct b; cbn; by rewrite ?IH. Qed.

Lemma strip_blocks_done target l total stripped :
  total ≤ target → strip_blocks target l total stripped = (l, total, stripped).
Proof.
  intros Ht. induction l as [|b l IH]; [done|]. destruct b; cbn [strip_blocks]; rewrite ?IH; try done.
  by rewrite (proj2 (Nat.leb_le _ _) Ht).
Qed.

Lemma strip_blocks_app target l1 l2 total stripped :
  strip_blocks target (l1 ++ l2) total stripped
  = let '(l1', t1, s1) := strip_blocks target l1 total stripped in
    let '(l2', t2, s2) := strip_blocks target l2 t1 s1 in (l1' ++ l2', t2, s2).
Proof.
  revert total stripped. induction l1 as [|b l1 IH]; intros total stripped.
  { cbn. by destruct (strip_blocks target l2 total stripped) as [[? ?] ?]. }
  destruct b; cbn [app strip_blocks];
    try (rewrite IH; destruct (strip_blocks target l1 total stripped) as [[? t1] s1];
         by destruct (strip_blocks target l2 t1 s1) as [[? ?] ?]).
  destruct (Nat.leb_spec total target) as [Hle|Hgt].
  - by rewrite (strip_blocks_done target l2).
  - rewrite IH. destruct (strip_blocks target l1 _ _) as [[? t1] s1].
    by destruct (strip_blocks target l2 t1 s1) as [[? ?] ?].
Qed.

Lemma strip_contents_flat target (contents : list (list (ContentBlock Json))) total stripped :
  let r := strip_contents target contents total stripped in
  let '(l', _, n) := strip_blocks target (concat contents) total stripped in
  concat r.1 = l' ∧ r.2 = n ∧ length r.1 = length contents.
Proof.
  cbv zeta. revert total stripped.
  induction contents as [|c cs IH]; intros total stripped; cbn [concat strip_contents]; [done|].
  rewrite strip_blocks_app. destruct (strip_blocks target c total stripped) as [[c' t1] s1].
  specialize (IH t1 s1). destruct (strip_contents target cs t1 s1) as [rest n].
  destruct (strip_blocks target (concat cs) t1 s1) as [[l' t'] n'].
  destruct IH as (<- & <- & Hl). cbn [fst snd concat length] in *. by rewrite Hl.
Qed.

Definition no_image l : Prop := ∀ b, b ∈ l → is_image b = false.

Lemma strip_blocks_spec target l stripped :
  let '(l', total', n) := strip_blocks target l (content_image_total l) stripped in
  ∃ k, n = stripped + k ∧ l' = replace_images k l ∧ total' = content_image_total l'
       ∧ (content_image_total l' ≤ target ∨ no_image l')
       ∧ ∀ j, j < k → target < content_image_total (replace_images j l).
Proof.
  unfold content_image_total. revert stripped.
  induction l as [|b l IH]; intros stripped; cbn [strip_blocks].
  { exists 0. split_and!; [lia|done|done|right; intros b Hb; set_solver|lia]. }
  destruct b as [t cc|t|t|t1 t2|i s e st|i nm inp ts|i c e|mt data|c];
    try (rewrite sum_of_cons; change (image_len _) with 0; rewrite Nat.add_0_l;
         specialize (IH stripped);
         destruct (strip_blocks target l (sum_of image_len l) stripped) as [[l' t'] n];
         destruct IH as (k & Hn & Hl & Ht & Hfit & Hmin); exists k;
         (split_and!; [done|by rewrite Hl|done| |intros j Hj; by apply Hmin]);
         (destruct Hfit as [?|Hno]; [by left|right]);
         intros b [->|Hb]%elem_of_cons; [done|by apply Hno]).
  destruct (Nat.leb_spec (sum_of image_len (Image mt data :: l)) target) as [Hle|Hgt].
  { exists 0. rewrite replace_images_0. split_and!; [lia|done|done|by left|lia]. }
  rewrite sum_of_cons. cbn [image_len].
  replace (String.length data + sum_of image_len l - String.length data)
    with (sum_of image_len l) by lia.
  specialize (IH (S stripped)).
  destruct (strip_blocks target l (sum_of image_len l) (S stripped)) as [[l' t'] n].
  destruct IH as (k & Hn & Hl & Ht & Hfit & Hmin). exists (S k).
  rewrite sum_of_cons. change (image_len (size_marker mt data)) with 0. rewrite Nat.add_0_l.
  split_and!; [lia|cbn; by rewrite Hl|done| |].
  - destruct Hfit as [?|Hno]; [by left|right].
    intros b [->|Hb]%elem_of_cons; [done|by apply Hno].
  - intros [|j] Hj; [done|]. cbn [replace_images]. rewrite sum_of_cons.
    change (image_len (size_marker mt data)) with 0. apply Hmin. lia.
Qed.

Lemma image_total_concat (contents : list (list (ContentBlock Json))) :
  image_total contents = content_image_total (concat contents).
Proof.
  unfold image_total, content_image_total. induction contents as [|c cs IH]; [done|].
  cbn [concat]. by rewrite sum_of_cons, sum_of_app, IH.
Qed.

(** Recovering from an oversized request drops the oldest images first and no more than
    needed: the result is the transcript with its first [n] images replaced by markers and
    nothing else changed, it fits the target unless no image is left, and with fewer images
    dropped it would not fit. *)
Theorem image_stripping_minimal (contents : list (list (ContentBlock Json))) target :
  let r := strip_large_images_in_contents contents target in
  concat r.1 = replace_images r.2 (concat contents)
  ∧ length r.1 = length contents
  ∧ (image_total r.1 ≤ target ∨ no_image (concat r.1))
  ∧ ∀ j, j < r.2 → target < content_image_total (replace_images j (concat contents)).
Proof.
  cbv zeta. unfold strip_large_images_in_contents.
  destruct (Nat.leb_spec (image_total contents) target) as [Hle|Hgt].
  { cbn [fst snd]. rewrite replace_images_0. split_and!; [done|done|by left|lia]. }
  pose proof (strip_contents_flat target contents (image_total contents) 0) as Hf.
  rewrite image_total_concat in Hf |- *.
  pose proof (strip_blocks_spec target (concat contents) 0) as Hs.
  rewrite image_total_concat.
  destruct (strip_contents target contents _ 0) as [cs n].
  destruct (strip_blocks target (concat contents) _ 0) as [[l' t'] n']. cbn [fst snd] in *.
  destruct Hf as (-> & -> & Hlen), Hs as (k & -> & -> & _ & Hfit & Hmin). done.
Qed.
End strip.

(** A reasoning trace costs as much as any text, although it is never sent to a provider. *)
Lemma reasoning_trace_is_counted {Json : Type} (json_to_string : Json → string) text :
  content_char_count json_to_string [ReasoningTrace text] = String.length text.
Proof. unfold content_char_count. by rewrite sum_of_singleton. Qed.
