(* ===== verification/SwarmChannels.v ===== *)
(** * [arterm-swarm-core]: channels, roles and statuses (crates/arterm-swarm-core/src/lib.rs)

    The subscription index keeps the same relation twice, by swarm channel and by session.
    The two maps are proved to be views of one relation through every operation. *)

From S2P Require Export RustStr.

(** ** Roles and statuses *)

Inductive SwarmRole := RoleAgent | RoleCoordinator | RoleOther (value : string).

Definition role_str (r : SwarmRole) : string :=
  match r with RoleAgent => "agent" | RoleCoordinator => "coordinator" | RoleOther v => v end.

(** [From<String> for SwarmRole] *)
Definition role_of (s : string) : SwarmRole :=
  if String.eqb s "agent" then RoleAgent
  else if String.eqb s "coordinator" then RoleCoordinator
  else RoleOther s.

Inductive SwarmLifecycleStatus :=
  | LcSpawned | LcReady | LcRunning | LcRunningStale | LcCompleted | LcDone | LcFailed
  | LcStopped | LcCrashed | LcQueued | LcBlocked | LcPending | LcTodo
  | LcOther (value : string).

Definition lifecycle_str (s : SwarmLifecycleStatus) : string :=
  match s with
  | LcSpawned => "spawned" | LcReady => "ready" | LcRunning => "running"
  | LcRunningStale => "running_stale" | LcCompleted => "completed" | LcDone => "done"
  | LcFailed => "failed" | LcStopped => "stopped" | LcCrashed => "crashed"
  | LcQueued => "queued" | LcBlocked => "blocked" | LcPending => "pending" | LcTodo => "todo"
  | LcOther v => v
  end.

(** [From<String> for SwarmLifecycleStatus] *)
Definition lifecycle_of (s : string) : SwarmLifecycleStatus :=
  if String.eqb s "spawned" then LcSpawned
  else if String.eqb s "ready" then LcReady
  else if String.eqb s "running" then LcRunning
  else if String.eqb s "running_stale" then LcRunningStale
  else if String.eqb s "completed" then LcCompleted
  else if String.eqb s "done" then LcDone
  else if String.eqb s "failed" then LcFailed
  else if String.eqb s "stopped" then LcStopped
  else if String.eqb s "crashed" then LcCrashed
  else if String.eqb s "queued" then LcQueued
  else if String.eqb s "blocked" then LcBlocked
  else if String.eqb s "pending" then LcPending
  else if String.eqb s "todo" then LcTodo
  else LcOther s.

(** Try the words of a parser in turn. *)
Ltac try_words s :=
  repeat match goal with
  | |- context [String.eqb s ?w] => destruct (String.eqb_spec s w) as [->|]; [done|]
  end.

(** The words on the wire are never lost. *)
Lemma role_str_of s : role_str (role_of s) = s.
Proof. unfold role_of. by try_words s. Qed.

Lemma lifecycle_str_of s : lifecycle_str (lifecycle_of s) = s.
Proof. unfold lifecycle_of. by try_words s. Qed.

(** ** The index *)

Notation Nested := (gmap string (gmap string (gset string))).

Record ChannelIndex := { by_swarm_channel : Nested; by_session : Nested }.

Definition empty_index : ChannelIndex := {| by_swarm_channel := ∅; by_session := ∅ |}.

(** [m.entry(a).or_default().entry(b).or_default().insert(x)] *)
Definition nested_insert (m : Nested) (a b x : string) : Nested :=
  let inner := default ∅ (m !! a) in
  <[a := <[b := {[x]} ∪ default ∅ (inner !! b)]> inner]> m.

(** Removing [x] from the set under [b], and the entry under [b] when it became empty. *)
Definition inner_remove (x : string) (inner : gmap string (gset string)) (b : string)
  : gmap string (gset string) :=
  match inner !! b with
  | Some s =>
      let s' := s ∖ {[x]} in
      if bool_decide (s' = ∅) then delete b inner else <[b := s']> inner
  | None => inner
  end.

(** The same for several keys under [a], and the entry under [a] when it became empty. *)
Definition nested_remove (m : Nested) (a : string) (bs : list string) (x : string) : Nested :=
  match m !! a with
  | Some inner =>
      let inner' := foldl (inner_remove x) inner bs in
      if bool_decide (inner' = ∅) then delete a m else <[a := inner']> m
  | None => m
  end.

(** [subscribe] *)
Definition subscribe (idx : ChannelIndex) (session swarm channel : string) : ChannelIndex :=
  {| by_swarm_channel := nested_insert (by_swarm_channel idx) swarm channel session;
     by_session := nested_insert (by_session idx) session swarm channel |}.

(** [unsubscribe] *)
Definition unsubscribe (idx : ChannelIndex) (session swarm channel : string) : ChannelIndex :=
  {| by_swarm_channel := nested_remove (by_swarm_channel idx) swarm [channel] session;
     by_session := nested_remove (by_session idx) session [swarm] channel |}.

(** [remove_session]: through the session's own entry when it has one, else by scanning every
    channel of every swarm. *)
Definition remove_session (idx : ChannelIndex) (session : string) : ChannelIndex :=
  match by_session idx !! session with
  | Some subscriptions =>
      {| by_swarm_channel :=
           foldl (λ m sc, nested_remove m sc.1 (elements sc.2) session)
             (by_swarm_channel idx) (map_to_list subscriptions);
         by_session := delete session (by_session idx) |}
  | None =>
      {| by_swarm_channel :=
           foldl (λ m sc, nested_remove m sc.1 (map fst (map_to_list sc.2)) session)
             (by_swarm_channel idx) (map_to_list (by_swarm_channel idx));
         by_session := by_session idx |}
  end.

Definition nested_lookup (m : Nested) (a b : string) : gset string :=
  match m !! a with Some inner => default ∅ (inner !! b) | None => ∅ end.

(** [members] *)
Definition members (idx : ChannelIndex) (swarm channel : string) : list string :=
  sort_strings (elements (nested_lookup (by_swarm_channel idx) swarm channel)).

(** [channels_for_session] *)
Definition channels_for_session (idx : ChannelIndex) (session swarm : string) : list string :=
  sort_strings (elements (nested_lookup (by_session idx) session swarm)).

(** ** One relation, two views *)

Definition subscribed (idx : ChannelIndex) (session swarm channel : string) : Prop :=
  session ∈ nested_lookup (by_swarm_channel idx) swarm channel.

(** No map or set in the index is empty, so nothing is retained for closed channels. *)
Definition tight (m : Nested) : Prop :=
  ∀ a inner, m !! a = Some inner → inner ≠ ∅ ∧ ∀ b s, inner !! b = Some s → s ≠ ∅.

Record consistent (idx : ChannelIndex) : Prop := {
  co_views : ∀ session swarm channel,
    session ∈ nested_lookup (by_swarm_channel idx) swarm channel
    ↔ channel ∈ nested_lookup (by_session idx) session swarm;
  co_tight_swarms : tight (by_swarm_channel idx);
  co_tight_sessions : tight (by_session idx);
}.

Lemma elem_members idx session swarm channel :
  session ∈ members idx swarm channel ↔ subscribed idx session swarm channel.
Proof. unfold members. rewrite elem_of_sort_strings. apply elem_of_elements. Qed.

Lemma nested_lookup_insert m a b x a' b' y :
  y ∈ nested_lookup (nested_insert m a b x) a' b'
  ↔ y ∈ nested_lookup m a' b' ∨ a' = a ∧ b' = b ∧ y = x.
Proof.
  unfold nested_lookup, nested_insert. destruct (decide (a' = a)) as [->|Ha].
  - rewrite lookup_insert_eq.
    assert (∀ b, default ∅ (default ∅ (m !! a) !! b)
                 = match m !! a with Some inner => default ∅ (inner !! b) | None => ∅ end) as Hd.
    { intros b0. destruct (m !! a); simpl; [done|]. by rewrite lookup_empty. }
    destruct (decide (b' = b)) as [->|Hb].
    + rewrite lookup_insert_eq, <- !Hd. simpl. set_solver.
    + rewrite lookup_insert_ne, <- !Hd by done. naive_solver.
  - rewrite lookup_insert_ne by done. naive_solver.
Qed.

Lemma tight_insert m a b x : tight m → tight (nested_insert m a b x).
Proof.
  intros Ht a' inner. unfold nested_insert. destruct (decide (a' = a)) as [->|Ha].
  - rewrite lookup_insert_eq. intros [= <-]. split; [apply insert_non_empty|].
    intros b' s. destruct (decide (b' = b)) as [->|Hb].
    + rewrite lookup_insert_eq. intros [= <-]. set_solver.
    + rewrite lookup_insert_ne by done. destruct (m !! a) as [i|] eqn:E; cbn; [|by rewrite lookup_empty].
      by apply (Ht a i E).
  - rewrite lookup_insert_ne by done. apply Ht.
Qed.

(** The sets under the removed keys lose [x]; the others are untouched. *)
Lemma inner_remove_lookup x inner bs b :
  default ∅ (foldl (inner_remove x) inner bs !! b)
  = if bool_decide (b ∈ bs) then default ∅ (inner !! b) ∖ {[x]} else default ∅ (inner !! b).
Proof.
  revert inner. induction bs as [|b0 bs IH]; intros inner; cbn [foldl].
  { by rewrite bool_decide_false by set_solver. }
  rewrite IH.
  assert (default ∅ (inner_remove x inner b0 !! b)
          = if bool_decide (b = b0) then default ∅ (inner !! b) ∖ {[x]} else default ∅ (inner !! b))
    as Hone.
  { clear IH. unfold inner_remove. destruct (decide (b = b0)) as [->|Hb].
    - rewrite (bool_decide_true (b0 = b0)) by done.
      destruct (inner !! b0) as [s|] eqn:E; [|rewrite E; cbn; set_solver].
      destruct (decide (s ∖ {[x]} = ∅)) as [Hs|Hs].
      + rewrite (bool_decide_true _ Hs), lookup_delete_eq. by cbn.
      + rewrite (bool_decide_false _ Hs), lookup_insert_eq. by cbn.
    - rewrite (bool_decide_false (b = b0)) by done.
      destruct (inner !! b0) as [s|]; [|done].
      case_bool_decide; [by rewrite lookup_delete_ne|by rewrite lookup_insert_ne]. }
  rewrite Hone. repeat case_bool_decide; set_solver.
Qed.

Lemma nested_lookup_remove m a bs x a' b' :
  nested_lookup (nested_remove m a bs x) a' b'
  = if bool_decide (a' = a ∧ b' ∈ bs) then nested_lookup m a' b' ∖ {[x]} else nested_lookup m a' b'.
Proof.
  unfold nested_remove, nested_lookup. destruct (m !! a) as [inner|] eqn:E.
  - destruct (decide (a' = a)) as [->|Ha].
    + rewrite E.
      assert (bool_decide (a = a ∧ b' ∈ bs) = bool_decide (b' ∈ bs)) as ->.
      { apply bool_decide_ext. tauto. }
      rewrite <- inner_remove_lookup. case_bool_decide as He.
      * rewrite lookup_delete_eq, He. by rewrite lookup_empty.
      * by rewrite lookup_insert_eq.
    + rewrite (bool_decide_false (a' = a ∧ b' ∈ bs)) by tauto.
      case_bool_decide; [by rewrite lookup_delete_ne|by rewrite lookup_insert_ne].
  - case_bool_decide as Hb; [|done]. destruct Hb as [-> _]. rewrite E. set_solver.
Qed.

Lemma tight_inner_remove x inner bs :
  (∀ b s, inner !! b = Some s → s ≠ ∅) →
  ∀ b s, foldl (inner_remove x) inner bs !! b = Some s → s ≠ ∅.
Proof.
  revert inner. induction bs as [|b0 bs IH]; intros inner Hi; cbn [foldl]; [done|].
  apply IH. intros b s. unfold inner_remove. destruct (inner !! b0) as [s0|] eqn:E; [|apply Hi].
  case_bool_decide as Hs.
  - rewrite lookup_delete_Some. intros [_ H]. by apply (Hi b).
  - rewrite lookup_insert_Some. intros [[_ <-]|[_ H]]; [done|by apply (Hi b)].
Qed.

Lemma tight_remove m a bs x : tight m → tight (nested_remove m a bs x).
Proof.
  intros Ht. unfold nested_remove. destruct (m !! a) as [inner|] eqn:E; [|done].
  case_bool_decide as He; intros a' i.
  - rewrite lookup_delete_Some. intros [_ H]. by apply Ht in H.
  - rewrite lookup_insert_Some. intros [[_ <-]|[_ H]]; [|by apply Ht in H].
    split; [done|]. apply tight_inner_remove. by apply (Ht a inner E).
Qed.

(** Removing [x] under several keys of several entries. *)
Lemma nested_lookup_remove_all {B} (keys : B → list string) (l : list (string * B)) m x a b :
  nested_lookup (foldl (λ m sc, nested_remove m sc.1 (keys sc.2) x) m l) a b
  = if bool_decide (Exists (λ sc, sc.1 = a ∧ b ∈ keys sc.2) l)
    then nested_lookup m a b ∖ {[x]} else nested_lookup m a b.
Proof.
  revert m. induction l as [|[a0 v] l IH]; intros m; cbn [foldl].
  { rewrite bool_decide_false; [done|]. intros HE. by apply Exists_nil in HE. }
  rewrite IH, nested_lookup_remove. cbn [fst snd].
  assert (bool_decide (Exists (λ sc, sc.1 = a ∧ b ∈ keys sc.2) ((a0, v) :: l))
          = bool_decide (a = a0 ∧ b ∈ keys v)
            || bool_decide (Exists (λ sc, sc.1 = a ∧ b ∈ keys sc.2) l)) as ->.
  { rewrite <- bool_decide_or. apply bool_decide_ext. rewrite Exists_cons. cbn. naive_solver. }
  destruct (bool_decide (a = a0 ∧ b ∈ keys v)), (bool_decide (Exists _ l)); cbn [orb]; set_solver.
Qed.

Lemma tight_remove_all {B} (keys : B → list string) (l : list (string * B)) m x :
  tight m → tight (foldl (λ m sc, nested_remove m sc.1 (keys sc.2) x) m l).
Proof.
  revert m. induction l as [|sc l IH]; intros m Ht; cbn [foldl]; [done|]. by apply IH, tight_remove.
Qed.

(** ** The theorem *)

Lemma empty_consistent : consistent empty_index.
Proof. by split. Qed.

(** What each operation does to the relation. *)
Inductive channel_op := Subscribe (s w c : string) | Unsubscribe (s w c : string) | RemoveSession (s : string).

Definition apply_channel_op (idx : ChannelIndex) (o : channel_op) : ChannelIndex :=
  match o with
  | Subscribe s w c => subscribe idx s w c
  | Unsubscribe s w c => unsubscribe idx s w c
  | RemoveSession s => remove_session idx s
  end.

Definition after_op (R : string → string → string → Prop) (o : channel_op)
  (s w c : string) : Prop :=
  match o with
  | Subscribe s0 w0 c0 => R s w c ∨ (s = s0 ∧ w = w0 ∧ c = c0)
  | Unsubscribe s0 w0 c0 => R s w c ∧ ¬ (s = s0 ∧ w = w0 ∧ c = c0)
  | RemoveSession s0 => R s w c ∧ s ≠ s0
  end.

Lemma remove_session_subscribed idx s0 s w c :
  consistent idx → subscribed (remove_session idx s0) s w c ↔ subscribed idx s w c ∧ s ≠ s0.
Proof.
  intros [Hv _ _]. unfold subscribed, remove_session.
  destruct (by_session idx !! s0) as [subs|] eqn:E; cbn [by_swarm_channel];
    [rewrite (nested_lookup_remove_all elements)
    |rewrite (nested_lookup_remove_all (λ inner : gmap string (gset string), map fst (map_to_list inner)))];
    case_bool_decide as Hex; try set_solver;
    (split; [|by intros [? _]]); intros Hs; (split; [done|]); intros ->.
  - apply Hex, Exists_exists. apply Hv in Hs. unfold nested_lookup in Hs. rewrite E in Hs.
    destruct (subs !! w) as [cs|] eqn:Ew; simpl in Hs; [|set_solver].
    exists (w, cs). split; [by apply elem_of_map_to_list|]. split; [done|]. by apply elem_of_elements.
  - apply Hex, Exists_exists. unfold nested_lookup in Hs.
    destruct (by_swarm_channel idx !! w) as [inner|] eqn:Ew; [|set_solver].
    destruct (inner !! c) as [ms|] eqn:Ec; simpl in Hs; [|set_solver].
    exists (w, inner). split; [by apply elem_of_map_to_list|]. split; [done|]. cbn [snd].
    apply (list_elem_of_fmap fst). exists (c, ms). split; [done|]. by apply elem_of_map_to_list.
Qed.

(** The two maps of the channel index stay views of one relation, with nothing empty left
    behind, and each operation changes that relation the way its name says: [subscribe] adds
    one triple, [unsubscribe] removes one, [remove_session] removes a session everywhere. *)
Theorem channel_ops_consistent idx o :
  consistent idx →
  consistent (apply_channel_op idx o)
  ∧ ∀ s w c, subscribed (apply_channel_op idx o) s w c ↔ after_op (subscribed idx) o s w c.
Proof.
  intros Hc. pose proof Hc as [Hv Ht1 Ht2]. destruct o as [s0 w0 c0|s0 w0 c0|s0];
    cbn [apply_channel_op after_op].
  - split; [split; cbn [subscribe unsubscribe by_swarm_channel by_session]|].
    + intros s w c. rewrite !nested_lookup_insert, Hv. naive_solver.
    + by apply tight_insert.
    + by apply tight_insert.
    + intros s w c. unfold subscribed. cbn [subscribe unsubscribe by_swarm_channel]. rewrite nested_lookup_insert. naive_solver.
  - split; [split; cbn [subscribe unsubscribe by_swarm_channel by_session]|].
    + intros s w c. rewrite !nested_lookup_remove. specialize (Hv s w c).
      repeat case_bool_decide; set_solver.
    + by apply tight_remove.
    + by apply tight_remove.
    + intros s w c. unfold subscribed. cbn [subscribe unsubscribe by_swarm_channel]. rewrite nested_lookup_remove.
      case_bool_decide; set_solver.
  - pose proof (λ s w c, remove_session_subscribed idx s0 s w c Hc) as Hsub.
    split; [split|exact Hsub].
    + intros s w c. rewrite (Hsub s w c). unfold subscribed. rewrite Hv. unfold remove_session.
      destruct (by_session idx !! s0) as [subs|] eqn:E; cbn [by_session]; unfold nested_lookup.
      * destruct (decide (s = s0)) as [->|Hne].
        -- rewrite lookup_delete_eq. set_solver.
        -- rewrite lookup_delete_ne by done. tauto.
      * destruct (decide (s = s0)) as [->|Hne]; [|tauto]. rewrite E. set_solver.
    + unfold remove_session. destruct (by_session idx !! s0); cbn [by_swarm_channel].
      * by apply (tight_remove_all elements).
      * by apply (tight_remove_all (λ inner : gmap string (gset string), map fst (map_to_list inner))).
    + unfold remove_session. destruct (by_session idx !! s0); cbn [by_session]; [|done].
      intros a i. rewrite lookup_delete_Some. intros [_ H]. by apply Ht2 in H.
Qed.

Definition sample_index : ChannelIndex :=
  foldl apply_channel_op empty_index
    [Subscribe "s1" "w" "build"; Subscribe "s2" "w" "build"; Subscribe "s1" "w" "test"].

Lemma channel_ops_consistent_witness :
  members (remove_session sample_index "s1") "w" "build" = ["s2"]
  ∧ ¬ subscribed (remove_session sample_index "s1") "s1" "w" "test".
Proof.
  assert (consistent sample_index) as Hc.
  { unfold sample_index. cbn [foldl]. do 3 apply channel_ops_consistent. exact empty_consistent. }
  destruct (channel_ops_consistent sample_index (RemoveSession "s1") Hc) as [_ H].
  split; [by vm_compute|]. intros Hs. apply (H "s1" "w" "test") in Hs as [_ Hs]. done.
Defined.
