(* ===== verification/Json.v ===== *)
(** * Sorted maps with string keys

    Rust's [BTreeMap<String, V>] as the code observes it: iteration goes through the keys in
    increasing byte order, and each key occurs once.  A map is its list of entries in that
    order; [bt_wf] is the invariant that every operation keeps. *)

From S2P Require Export RustStr.

Section btree.
Context {V : Type}.
Implicit Types (m : list (string * V)) (k : string) (v : V).

Definition key_lt (a b : string) : Prop := String.ltb a b = true.

(** Keys are strictly increasing. *)
Definition bt_wf m : Prop := StronglySorted key_lt (m.*1).

(** [BTreeMap::get] *)
Fixpoint bt_get k m : option V :=
  match m with
  | [] => None
  | (k', v) :: m' => if String.eqb k k' then Some v else bt_get k m'
  end.

Definition bt_contains k m : bool := bool_decide (is_Some (bt_get k m)).

(** [BTreeMap::insert], which replaces the value of a key that is present. *)
Fixpoint bt_insert k v m : list (string * V) :=
  match m with
  | [] => [(k, v)]
  | (k', v') :: m' =>
      if String.eqb k k' then (k, v) :: m'
      else if String.ltb k k' then (k, v) :: m
      else (k', v') :: bt_insert k v m'
  end.

(** [BTreeMap::remove], without the removed value. *)
Fixpoint bt_remove k m : list (string * V) :=
  match m with
  | [] => []
  | (k', v) :: m' => if String.eqb k k' then bt_remove k m' else (k', v) :: bt_remove k m'
  end.

(** [map.entry(k).or_insert_with(|| v)] *)
Definition bt_or_insert k v m : list (string * V) :=
  match bt_get k m with Some _ => m | None => bt_insert k v m end.

(** ** The order of the keys *)

Lemma str_compare_refl (s : string) : String.compare s s = Eq.
Proof.
  pose proof (String.compare_antisym s s) as H.
  destruct (String.compare s s); simpl in H; congruence.
Qed.

Lemma key_lt_irrefl k : ¬ key_lt k k.
Proof. unfold key_lt, String.ltb. by rewrite str_compare_refl. Qed.

Lemma key_lt_leb a b : key_lt a b ↔ String.leb a b = true ∧ a ≠ b.
Proof.
  unfold key_lt, String.ltb, String.leb. destruct (String.compare a b) eqn:Hc.
  - apply String.compare_eq_iff in Hc as ->. naive_solver.
  - split; [|done]. intros _. split; [done|]. intros ->.
    by rewrite str_compare_refl in Hc.
  - naive_solver.
Qed.

Lemma key_lt_trans a b c : key_lt a b → key_lt b c → key_lt a c.
Proof.
  rewrite !key_lt_leb. intros [Hab Hn] [Hbc Hn']. split; [by eapply str_leb_trans|].
  intros ->. by apply Hn, str_leb_antisym.
Qed.

Lemma key_lt_total a b : a ≠ b → ¬ key_lt a b → key_lt b a.
Proof.
  rewrite !key_lt_leb. intros Hne Hn. split; [|congruence].
  destruct (str_leb_total a b); naive_solver.
Qed.

Lemma key_lt_ne a b : key_lt a b → a ≠ b.
Proof. rewrite key_lt_leb. naive_solver. Qed.

(** ** Lookup *)

Lemma bt_get_Some_elem k v m : bt_get k m = Some v → (k, v) ∈ m.
Proof.
  induction m as [|[k' v'] m IH]; simpl; [done|].
  destruct (String.eqb_spec k k'); [|set_solver]. intros [= ->]. subst. set_solver.
Qed.

Lemma bt_get_None_iff k m : bt_get k m = None ↔ k ∉ m.*1.
Proof.
  induction m as [|[k' v'] m IH]; simpl; [set_solver|].
  destruct (String.eqb_spec k k'); [set_solver|]. rewrite IH. set_solver.
Qed.

Lemma bt_get_is_Some k m : is_Some (bt_get k m) ↔ k ∈ m.*1.
Proof.
  destruct (bt_get k m) eqn:H; split; intros; try done.
  - apply bt_get_Some_elem in H. apply list_elem_of_fmap. by eexists (_, _).
  - by apply bt_get_None_iff in H.
Qed.

Lemma bt_contains_true k m : bt_contains k m = true ↔ is_Some (bt_get k m).
Proof. apply bool_decide_eq_true. Qed.

Lemma bt_contains_false k m : bt_contains k m = false ↔ bt_get k m = None.
Proof. unfold bt_contains. by rewrite bool_decide_eq_false, eq_None_not_Some. Qed.

Lemma bt_wf_cons_inv k v m :
  bt_wf ((k, v) :: m) → bt_wf m ∧ ∀ k', k' ∈ m.*1 → key_lt k k'.
Proof.
  intros [H1 H2]%StronglySorted_inv. split; [done|].
  by rewrite list.Forall_forall in H2.
Qed.

Lemma bt_wf_cons k v m :
  bt_wf m → (∀ k', k' ∈ m.*1 → key_lt k k') → bt_wf ((k, v) :: m).
Proof.
  intros H1 H2. constructor; [done|]. by apply list.Forall_forall.
Qed.

Lemma bt_wf_nil : bt_wf [].
Proof. constructor. Qed.

Lemma bt_wf_NoDup m : bt_wf m → NoDup (m.*1).
Proof.
  induction m as [|[k v] m IH]; [constructor|].
  intros [Hm Hk]%bt_wf_cons_inv. constructor; [|by apply IH].
  intros Hin. by apply Hk, key_lt_irrefl in Hin.
Qed.

Lemma bt_elem_get k v m : bt_wf m → (k, v) ∈ m ↔ bt_get k m = Some v.
Proof.
  intros Hwf. split; [|apply bt_get_Some_elem].
  induction m as [|[k' v'] m IH]; [set_solver|].
  apply bt_wf_cons_inv in Hwf as [Hwf Hk]. simpl.
  intros [[= -> ->]|Hin]%elem_of_cons; [by rewrite String.eqb_refl|].
  destruct (String.eqb_spec k k') as [->|]; [|by apply IH].
  exfalso. apply (key_lt_irrefl k'), Hk, list_elem_of_fmap. by eexists (_, _).
Qed.

(** ** Updates *)

Lemma bt_get_insert k k' v m :
  bt_get k' (bt_insert k v m) = if String.eqb k' k then Some v else bt_get k' m.
Proof.
  induction m as [|[k0 v0] m IH]; simpl; [by destruct (String.eqb k' k)|].
  destruct (String.eqb_spec k k0) as [<-|Hne]; simpl; [by destruct (String.eqb k' k)|].
  destruct (String.ltb k k0); simpl; [done|]. rewrite IH.
  destruct (String.eqb_spec k' k0); [|done]. subst.
  destruct (String.eqb_spec k0 k); congruence.
Qed.

Lemma bt_get_insert_eq k v m : bt_get k (bt_insert k v m) = Some v.
Proof. by rewrite bt_get_insert, String.eqb_refl. Qed.

Lemma bt_get_insert_ne k k' v m : k' ≠ k → bt_get k' (bt_insert k v m) = bt_get k' m.
Proof. intros H%String.eqb_neq. by rewrite bt_get_insert, H. Qed.

Lemma bt_get_remove k k' m :
  bt_get k' (bt_remove k m) = if String.eqb k' k then None else bt_get k' m.
Proof.
  induction m as [|[k0 v0] m IH]; simpl; [by destruct (String.eqb k' k)|].
  destruct (String.eqb_spec k k0) as [->|Hne]; simpl; rewrite IH.
  - by destruct (String.eqb k' k0).
  - destruct (String.eqb_spec k' k0); [|done]. subst.
    destruct (String.eqb_spec k0 k); congruence.
Qed.

Lemma bt_keys_insert k k' v m : k' ∈ (bt_insert k v m).*1 ↔ k' = k ∨ k' ∈ m.*1.
Proof.
  rewrite <- !bt_get_is_Some, bt_get_insert.
  destruct (String.eqb_spec k' k); naive_solver.
Qed.

Lemma bt_keys_remove k k' m : k' ∈ (bt_remove k m).*1 ↔ k' ≠ k ∧ k' ∈ m.*1.
Proof.
  rewrite <- !bt_get_is_Some, bt_get_remove.
  destruct (String.eqb_spec k' k); [|naive_solver].
  split; [intros [? ?]; done|naive_solver].
Qed.

Lemma bt_wf_insert k v m : bt_wf m → bt_wf (bt_insert k v m).
Proof.
  induction m as [|[k0 v0] m IH]; intros Hwf; simpl.
  - apply bt_wf_cons; [constructor|set_solver].
  - pose proof Hwf as [Hm Hk]%bt_wf_cons_inv.
    destruct (String.eqb_spec k k0) as [<-|Hne]; [by apply bt_wf_cons|].
    destruct (String.ltb k k0) eqn:Hlt.
    + apply bt_wf_cons; [done|]. intros k'. simpl. intros [->|Hin]%elem_of_cons; [done|].
      eapply key_lt_trans; [done|]. by apply Hk.
    + apply bt_wf_cons; [by apply IH|].
      intros k' [->|Hin]%bt_keys_insert; [|by apply Hk].
      apply key_lt_total; [done|]. unfold key_lt. congruence.
Qed.

Lemma bt_wf_remove k m : bt_wf m → bt_wf (bt_remove k m).
Proof.
  induction m as [|[k0 v0] m IH]; intros Hwf; simpl; [done|].
  apply bt_wf_cons_inv in Hwf as [Hm Hk].
  destruct (String.eqb k k0); [by apply IH|].
  apply bt_wf_cons; [by apply IH|]. intros k' [_ Hin]%bt_keys_remove. by apply Hk.
Qed.

Lemma bt_wf_or_insert k v m : bt_wf m → bt_wf (bt_or_insert k v m).
Proof. unfold bt_or_insert. destruct (bt_get k m); [done|]. apply bt_wf_insert. Qed.

Lemma bt_get_or_insert k k' v m :
  bt_get k' (bt_or_insert k v m) =
    if String.eqb k' k then Some (default v (bt_get k m)) else bt_get k' m.
Proof.
  unfold bt_or_insert. destruct (bt_get k m) eqn:Hk.
  - destruct (String.eqb_spec k' k); [by subst|done].
  - rewrite bt_get_insert. by destruct (String.eqb k' k).
Qed.

(** Entries of an updated map. *)
Lemma bt_elem_insert k v m x : x ∈ bt_insert k v m → x = (k, v) ∨ x ∈ m.
Proof.
  induction m as [|[k0 v0] m IH]; simpl; [set_solver|].
  destruct (String.eqb k k0); [set_solver|]. destruct (String.ltb k k0); set_solver.
Qed.

Lemma bt_elem_remove k m x : x ∈ bt_remove k m → x ∈ m ∧ x.1 ≠ k.
Proof.
  induction m as [|[k0 v0] m IH]; simpl; [set_solver|].
  destruct (String.eqb_spec k k0); [set_solver|].
  intros [->|Hin]%elem_of_cons; [|set_solver]. split; [set_solver|]. simpl. congruence.
Qed.

Lemma bt_elem_or_insert k v m x : x ∈ bt_or_insert k v m → x = (k, v) ∨ x ∈ m.
Proof. unfold bt_or_insert. destruct (bt_get k m); [by right|]. apply bt_elem_insert. Qed.

Lemma bt_remove_id k m : k ∉ m.*1 → bt_remove k m = m.
Proof.
  induction m as [|[k0 v0] m IH]; simpl; intros Hk; [done|].
  destruct (String.eqb_spec k k0); [set_solver|]. rewrite IH; set_solver.
Qed.

Lemma bt_insert_same k v m : bt_wf m → bt_get k m = Some v → bt_insert k v m = m.
Proof.
  induction m as [|[k0 v0] m IH]; simpl; intros Hwf Hg; [done|].
  apply bt_wf_cons_inv in Hwf as [Hwf Hk].
  destruct (String.eqb_spec k k0) as [->|Hne]; [congruence|].
  destruct (String.ltb k k0) eqn:Hlt; [|f_equal; by apply IH].
  exfalso. apply (key_lt_irrefl k). eapply key_lt_trans; [done|].
  apply Hk, bt_get_is_Some. by rewrite Hg.
Qed.

(** A key above all others goes to the end. *)
Lemma bt_insert_last k v m :
  (∀ k', k' ∈ m.*1 → key_lt k' k) → bt_insert k v m = m ++ [(k, v)].
Proof.
  induction m as [|[k0 v0] m IH]; simpl; intros Hlt; [done|].
  assert (H0 : key_lt k0 k) by (apply Hlt; set_solver).
  destruct (String.eqb_spec k k0) as [->|Hne]; [by apply key_lt_irrefl in H0|].
  destruct (String.ltb k k0) eqn:Hk; [|by rewrite IH by set_solver].
  exfalso. apply (key_lt_irrefl k). by eapply key_lt_trans.
Qed.

Lemma bt_wf_app_inv m1 m2 :
  bt_wf (m1 ++ m2) → bt_wf m1 ∧ bt_wf m2 ∧ ∀ a b, a ∈ m1.*1 → b ∈ m2.*1 → key_lt a b.
Proof.
  induction m1 as [|[k v] m1 IH]; simpl; intros Hwf.
  - split; [constructor|]. split; [done|]. set_solver.
  - apply bt_wf_cons_inv in Hwf as [Hwf Hk]. destruct (IH Hwf) as (H1 & H2 & H3).
    rewrite fmap_app in Hk. split; [apply bt_wf_cons; set_solver|]. split; [done|].
    intros a b. simpl. intros [->|Ha]%elem_of_cons Hb; [set_solver|by apply H3].
Qed.

(** Two maps with the same lookups are equal. *)
Lemma bt_ext m1 m2 :
  bt_wf m1 → bt_wf m2 → (∀ k, bt_get k m1 = bt_get k m2) → m1 = m2.
Proof.
  revert m2. induction m1 as [|[k v] m1 IH]; intros m2 Hwf1 Hwf2 Hext.
  - destruct m2 as [|[k v] m2]; [done|]. specialize (Hext k). simpl in Hext.
    by rewrite String.eqb_refl in Hext.
  - apply bt_wf_cons_inv in Hwf1 as [Hwf1 Hk1]. destruct m2 as [|[k2 v2] m2].
    { specialize (Hext k). simpl in Hext. by rewrite String.eqb_refl in Hext. }
    apply bt_wf_cons_inv in Hwf2 as [Hwf2 Hk2]. simpl in Hext.
    assert (k = k2) as ->.
    { destruct (decide (k = k2)) as [|Hne]; [done|exfalso].
      pose proof (Hext k) as Ha. pose proof (Hext k2) as Hb.
      rewrite String.eqb_refl in Ha, Hb.
      rewrite (proj2 (String.eqb_neq k k2) Hne) in Ha.
      rewrite (proj2 (String.eqb_neq k2 k) (not_eq_sym Hne)) in Hb.
      assert (H1 : key_lt k2 k) by (apply Hk2, bt_get_is_Some; by rewrite <- Ha).
      assert (H2 : key_lt k k2) by (apply Hk1, bt_get_is_Some; by rewrite Hb).
      eapply key_lt_irrefl, key_lt_trans; eauto. }
    pose proof (Hext k2) as Hv. rewrite String.eqb_refl in Hv. injection Hv as ->.
    f_equal. apply IH; [done..|]. intros k'. specialize (Hext k').
    destruct (String.eqb_spec k' k2) as [Heq|]; [|done]. rewrite Heq.
    rewrite !(proj2 (bt_get_None_iff _ _)); [done|..]; intros Hin.
    + by apply Hk2, key_lt_irrefl in Hin.
    + by apply Hk1, key_lt_irrefl in Hin.
Qed.
End btree.

#[export] Hint Resolve bt_wf_nil bt_wf_insert bt_wf_remove bt_wf_or_insert : arterm.

(** The keys do not change when the values are mapped. *)
Definition bt_map {V W} (f : V → W) (m : list (string * V)) : list (string * W) :=
  map (λ e, (e.1, f e.2)) m.

Lemma bt_map_keys {V W} (f : V → W) m : (bt_map f m).*1 = m.*1.
Proof. unfold bt_map. induction m as [|[k v] m IH]; [done|]. simpl. by f_equal. Qed.

Lemma bt_map_get {V W} (f : V → W) m k : bt_get k (bt_map f m) = f <$> bt_get k m.
Proof.
  induction m as [|[k' v] m IH]; [done|]. simpl. by destruct (String.eqb k k').
Qed.

Lemma bt_wf_map {V W} (f : V → W) m : bt_wf m → bt_wf (bt_map f m).
Proof. unfold bt_wf. by rewrite bt_map_keys. Qed.

Lemma bt_elem_map {V W} (f : V → W) m x :
  x ∈ bt_map f m → ∃ e, e ∈ m ∧ x = (e.1, f e.2).
Proof. intros Hx. apply list_elem_of_In, in_map_iff in Hx as (e & <- & He). exists e. by rewrite list_elem_of_In. Qed.

#[export] Hint Resolve bt_wf_map : arterm.

(** * JSON values ([serde_json::Value])

    [serde_json] is built without its [preserve_order] feature, so an object is a [BTreeMap]
    ([Json]).  A number is the text it stands for: the code modelled here moves numbers
    around and never computes with them. *)

Unset Elimination Schemes.

Inductive Json : Type :=
  | JNull
  | JBool (b : bool)
  | JNumber (n : string)
  | JString (s : string)
  | JArray (items : list Json)
  | JObject (map : list (string * Json)).

Set Elimination Schemes.

Notation Obj := (list (string * Json)).

(** Induction with hypotheses for the elements of arrays and the values of objects. *)
Section json_ind.
Context (P : Json → Prop).
Context (Hnull : P JNull) (Hbool : ∀ b, P (JBool b)) (Hnum : ∀ n, P (JNumber n)).
Context (Hstr : ∀ s, P (JString s)).
Context (Harr : ∀ items, (∀ x, x ∈ items → P x) → P (JArray items)).
Context (Hobj : ∀ m, (∀ e, e ∈ m → P e.2) → P (JObject m)).

Fixpoint Json_ind (j : Json) : P j :=
  match j with
  | JNull => Hnull
  | JBool b => Hbool b
  | JNumber n => Hnum n
  | JString s => Hstr s
  | JArray items =>
      Harr items (proj1 (list.Forall_forall P items)
        ((fix go (l : list Json) : Forall P l :=
            match l with
            | [] => List.Forall_nil _
            | x :: l' => @List.Forall_cons _ P x l' (Json_ind x) (go l')
            end) items))
  | JObject m =>
      Hobj m (proj1 (list.Forall_forall (λ e, P e.2) m)
        ((fix go (l : Obj) : Forall (λ e, P e.2) l :=
            match l with
            | [] => List.Forall_nil _
            | e :: l' => @List.Forall_cons _ (λ e, P e.2) e l' (Json_ind e.2) (go l')
            end) m))
  end.
End json_ind.

#[export] Instance Json_eq_dec : EqDecision Json.
Proof.
  refine (fix go (a b : Json) {struct a} : Decision (a = b) :=
    match a, b with
    | JNull, JNull => left eq_refl
    | JBool x, JBool y => cast_if (decide (x = y))
    | JNumber x, JNumber y => cast_if (decide (x = y))
    | JString x, JString y => cast_if (decide (x = y))
    | JArray x, JArray y =>
        cast_if (@decide (x = y)
          ((fix gol (l k : list Json) {struct l} : Decision (l = k) :=
             match l, k with
             | [], [] => left eq_refl
             | u :: l', w :: k' => cast_if_and (go u w) (gol l' k')
             | _, _ => right _
             end) x y))
    | JObject x, JObject y =>
        cast_if (@decide (x = y)
          ((fix gol (l k : Obj) {struct l} : Decision (l = k) :=
             match l, k with
             | [], [] => left eq_refl
             | (n1, u) :: l', (n2, w) :: k' =>
                 cast_if_and3 (decide (n1 = n2)) (go u w) (gol l' k')
             | _, _ => right _
             end) x y))
    | _, _ => right _
    end); clear go; congruence.
Defined.

(** ** The accessors of [Value] *)

Definition as_object (j : Json) : option Obj :=
  match j with JObject m => Some m | _ => None end.

Definition as_array (j : Json) : option (list Json) :=
  match j with JArray l => Some l | _ => None end.

Definition as_str (j : Json) : option string :=
  match j with JString s => Some s | _ => None end.

Definition is_boolean (j : Json) : bool :=
  match j with JBool _ => true | _ => false end.

(** The strings of an array, [names.iter().filter_map(Value::as_str)]. *)
Definition strs (l : list Json) : list string := omap as_str l.

(** ** Well-formed values: every object has its keys in increasing order *)

Inductive wf_json : Json → Prop :=
  | wf_null : wf_json JNull
  | wf_bool b : wf_json (JBool b)
  | wf_number n : wf_json (JNumber n)
  | wf_string s : wf_json (JString s)
  | wf_array l : (∀ x, x ∈ l → wf_json x) → wf_json (JArray l)
  | wf_object m : bt_wf m → (∀ e, e ∈ m → wf_json e.2) → wf_json (JObject m).

#[export] Hint Constructors wf_json : arterm.

Lemma wf_array_inv l : wf_json (JArray l) → ∀ x, x ∈ l → wf_json x.
Proof. by inversion 1. Qed.

Lemma wf_object_inv m : wf_json (JObject m) → bt_wf m ∧ ∀ e, e ∈ m → wf_json e.2.
Proof. by inversion 1. Qed.

(** Membership of [strs]. *)
Lemma elem_of_strs s l : s ∈ strs l ↔ JString s ∈ l.
Proof.
  unfold strs. rewrite list_elem_of_omap. split.
  - intros (x & Hx & Hs). by destruct x; simplify_eq/=.
  - intros H. by exists (JString s).
Qed.

Lemma strs_JString l : strs (map JString l) = l.
Proof. induction l as [|x l IH]; [done|]. cbn. by f_equal. Qed.

(** ** Induction with two levels of hypotheses

    A walk over schemas looks at the value of a key and, when the value is a map or an array,
    recurses on what that contains. *)

Definition children (j : Json) : list Json :=
  match j with JArray l => l | JObject m => m.*2 | _ => [] end.

Lemma Json_children_ind (P : Json → Prop) :
  (∀ j, (∀ c, c ∈ children j → P c ∧ ∀ d, d ∈ children c → P d) → P j) → ∀ j, P j.
Proof.
  intros Hstep j. cut (P j ∧ ∀ d, d ∈ children j → P d); [tauto|].
  assert (Hleaf : ∀ k, children k = [] → P k ∧ ∀ d, d ∈ children k → P d).
  { intros k Hk. split; [apply Hstep|]; rewrite Hk; set_solver. }
  induction j as [| | | |l IH|m IH]; try (by apply Hleaf).
  - assert (H : ∀ d, d ∈ l → P d) by (intros; by apply IH).
    split; [apply Hstep; simpl; naive_solver|done].
  - assert (H : ∀ d, d ∈ m.*2 → P d ∧ ∀ d', d' ∈ children d → P d').
    { intros d (e & -> & He)%list_elem_of_fmap. by apply IH. }
    split; [by apply Hstep|]. intros d Hd. by apply H.
Qed.

Lemma elem_of_values (e : string * Json) m : e ∈ m → e.2 ∈ m.*2.
Proof. intros He. apply list_elem_of_fmap. by exists e. Qed.

#[export] Hint Resolve elem_of_values : arterm.

Lemma wf_children j : wf_json j → ∀ c, c ∈ children j → wf_json c.
Proof.
  intros [| | | |l Hl|m Hm Hv] c; simpl; set_solver.
Qed.
