(* ===== verification/SchemaModel.v ===== *)
(** * [arterm-schema-dialect]: keywords, dialects and the registry

    crates/arterm-schema-dialect/src/keyword.rs, dialect.rs and registry.rs: what a keyword's
    value contains, what a provider accepts, the rewrites of [apply_with_quirks], and the six
    registered dialects.  Fields of [DialectTransforms] are prefixed [t_], those of
    [DialectSpec] [d_], those of [LearnedQuirks] [q_]. *)


From S2P Require Export Json.

(** ** keyword.rs *)

Inductive KeywordRole := Subschema | SubschemaMap | SubschemaArray | Data.

#[export] Instance KeywordRole_eq_dec : EqDecision KeywordRole.
Proof. solve_decision. Defined.

(** [slice.contains(&key)] on a table of names. *)
Definition has (table : list string) (key : string) : bool := existsb (String.eqb key) table.

Definition SUBSCHEMA_MAP_KEYWORDS : list string :=
  ["properties"; "patternProperties"; "$defs"; "definitions"; "dependentSchemas"].

Definition SUBSCHEMA_KEYWORDS : list string :=
  ["items"; "additionalItems"; "additionalProperties"; "contains"; "propertyNames"; "not";
   "if"; "then"; "else"; "unevaluatedItems"; "unevaluatedProperties"; "contentSchema"].

Definition SUBSCHEMA_ARRAY_KEYWORDS : list string := ["allOf"; "anyOf"; "oneOf"; "prefixItems"].

Definition DATA_KEYWORDS : list string := ["enum"; "const"; "default"; "examples"; "required"].

Definition keyword_role (key : string) : KeywordRole :=
  if has SUBSCHEMA_MAP_KEYWORDS key then SubschemaMap
  else if has SUBSCHEMA_KEYWORDS key then Subschema
  else if has SUBSCHEMA_ARRAY_KEYWORDS key then SubschemaArray
  else if has DATA_KEYWORDS key then Data
  else Data.

Definition LOAD_BEARING_KEYWORDS : list string :=
  ["type"; "properties"; "items"; "required"; "enum"; "description"].

Definition is_droppable (key : string) : bool := negb (has LOAD_BEARING_KEYWORDS key).

(** ** dialect.rs: the data *)

Record DialectTransforms := {
  t_flatten_top_level_combiners : bool;
  t_flatten_all_combiners : bool;
  t_require_properties_on_objects : bool;
  t_prune_dangling_required : bool;
  t_const_as_enum : bool;
  t_one_of_as_any_of : bool;
  t_merge_all_of_branches : bool;
}.

Record DialectSpec := {
  d_id : string;
  d_supported_keywords : list string;
  d_supported_string_formats : list string;
  d_transforms : DialectTransforms;
}.

Definition UNIVERSAL_KEYWORDS : list string :=
  ["type"; "properties"; "items"; "required"; "enum"; "title"].

Definition supports (spec : DialectSpec) (key : string) : bool :=
  has UNIVERSAL_KEYWORDS key || has (d_supported_keywords spec) key.

Definition supports_format (spec : DialectSpec) (format : string) : bool :=
  match d_supported_string_formats spec with
  | [] => true
  | formats => has formats format
  end.

(** [DialectSpec::validate]: the first load-bearing keyword that is missing, then the first
    universal keyword listed again. *)
Definition validate (spec : DialectSpec) : result unit string :=
  match List.find (λ key, negb (supports spec key)) LOAD_BEARING_KEYWORDS with
  | Some key =>
      Err ("dialect `" +:+ d_id spec +:+ "` does not support load-bearing keyword `"
           +:+ key +:+ "`")
  | None =>
      match List.find (has UNIVERSAL_KEYWORDS) (d_supported_keywords spec) with
      | Some key =>
          Err ("dialect `" +:+ d_id spec +:+ "` redundantly lists universal keyword `"
               +:+ key +:+ "`")
      | None => Ok ()
      end
  end.

Record LearnedQuirks := {
  q_rejected_keywords : list string;
  q_rejected_formats : list string;
}.

#[export] Instance LearnedQuirks_eq_dec : EqDecision LearnedQuirks.
Proof. solve_decision. Defined.

(** [LearnedQuirks::default] *)
Definition no_quirks : LearnedQuirks :=
  {| q_rejected_keywords := []; q_rejected_formats := [] |}.

(** [LearnedQuirks::is_empty] *)
Definition quirks_is_empty (q : LearnedQuirks) : bool :=
  match q_rejected_keywords q, q_rejected_formats q with [], [] => true | _, _ => false end.

(** ** dialect.rs: the rewrites *)

Definition is_object_typed (map : Obj) : bool :=
  match bt_get "type" map with
  | Some (JString t) => String.eqb t "object"
  | Some (JArray types) => existsb (λ t, bool_decide (as_str t = Some "object")) types
  | _ => false
  end.

(** The closure given to [retain]. *)
Definition names_declared (defined : list string) (name : Json) : bool :=
  match as_str name with Some n => has defined n | None => false end.

Definition prune_dangling_required (out : Obj) : Obj :=
  match bt_get "properties" out with
  | Some (JObject properties) =>
      match bt_get "required" out with
      | Some (JArray required) =>
          match List.filter (names_declared (properties.*1)) required with
          | [] => bt_remove "required" out
          | required' => bt_insert "required" (JArray required') out
          end
      | _ => out
      end
  | _ => out
  end.

(** The [get(...).and_then(as_object).cloned().unwrap_or_default()] chain. *)
Definition object_at (key : string) (m : Obj) : Obj :=
  default [] (bt_get key m ≫= as_object).

(** [for (name, p) in incoming { acc.entry(name).or_insert(p) }] *)
Definition add_missing (acc incoming : Obj) : Obj :=
  fold_left (λ acc e, bt_or_insert e.1 e.2 acc) incoming acc.

(** [for name in names { if !acc.contains(name) { acc.push(name) } }] *)
Definition push_missing (acc names : list string) : list string :=
  fold_left (λ acc n, if has acc n then acc else (acc ++ [n])%list) names acc.

(** One branch of the inner loop of [merge_all_of_branches]; the state is the enclosing
    object, the property map and the required names. *)
Definition merge_branch (st : Obj * Obj * list string) (branch : Json) : Obj * Obj * list string :=
  let '(out, properties, required) := st in
  match as_object branch with
  | None => st
  | Some branch =>
      let out :=
        match bt_get "type" out, bt_get "type" branch with
        | None, Some branch_type => bt_insert "type" branch_type out
        | _, _ => out
        end in
      let properties :=
        match bt_get "properties" branch ≫= as_object with
        | Some branch_properties => add_missing properties branch_properties
        | None => properties
        end in
      let required :=
        match bt_get "required" branch ≫= as_array with
        | Some branch_required => push_missing required (strs branch_required)
        | None => required
        end in
      (out, properties, required)
  end.

Definition merge_all_of_branches (out : Obj) : Obj :=
  let branches := bt_get "allOf" out in
  let out := bt_remove "allOf" out in
  match branches with
  | Some (JArray branches) =>
      let properties := object_at "properties" out in
      let required := strs (default [] (bt_get "required" out ≫= as_array)) in
      let '(out, properties, required) := fold_left merge_branch branches (out, properties, required) in
      let out := match properties with
                 | [] => out
                 | _ => bt_insert "properties" (JObject properties) out
                 end in
      let out := match required with
                 | [] => bt_remove "required" out
                 | _ => bt_insert "required" (JArray (map JString required)) out
                 end in
      prune_dangling_required out
  | _ => out
  end.

(** ** dialect.rs: the walk *)

Definition out_key_of (spec : DialectSpec) (key : string) : string :=
  if String.eqb key "oneOf" && t_one_of_as_any_of (d_transforms spec) then "anyOf" else key.

(** What a value becomes before it is stored, by the role of its key; [walk] is the recursive
    call.  Collecting the children again keeps their order, so the map is mapped in place. *)
Definition normalize_value (walk : Json → Json) (key : string) (value : Json) : Json :=
  match keyword_role key with
  | SubschemaMap =>
      match value with
      | JObject children => JObject (bt_map walk children)
      | other => other
      end
  | SubschemaArray =>
      match value with
      | JArray items => JArray (map walk items)
      | other => walk other
      end
  | Subschema => walk value
  | Data => value
  end.

(** The [format] guard. *)
Definition format_ok (spec : DialectSpec) (quirks : LearnedQuirks) (value : Json) : bool :=
  match as_str value with
  | Some f => supports_format spec f && negb (has (q_rejected_formats quirks) f)
  | None => false
  end.

(** One round of the loop over the keys; [normalized] is [normalize_value walk key value]. *)
Definition walk_field (spec : DialectSpec) (quirks : LearnedQuirks)
    (key : string) (value normalized : Json) (out : Obj) : Obj :=
  let out_key := out_key_of spec key in
  let dropped_by_quirk := has (q_rejected_keywords quirks) key in
  if (negb (supports spec out_key) || dropped_by_quirk) && is_droppable key then
    if String.eqb key "const" && t_const_as_enum (d_transforms spec)
    then bt_insert "enum" (JArray [value]) out
    else out
  else if String.eqb key "format" then
    if format_ok spec quirks value then bt_insert key value out else out
  else
    match bt_get out_key out with
    | Some (JArray existing) =>
        match normalized with
        | JArray incoming => bt_insert out_key (JArray (existing ++ incoming)%list) out
        | _ => out
        end
    | _ => bt_insert out_key normalized out
    end.

(** The three rewrites after the loop. *)
Definition walk_finish (spec : DialectSpec) (out : Obj) : Obj :=
  let t := d_transforms spec in
  let out := if t_prune_dangling_required t then prune_dangling_required out else out in
  let out := if t_merge_all_of_branches t then merge_all_of_branches out else out in
  if t_require_properties_on_objects t && is_object_typed out
  then bt_or_insert "properties" (JObject []) out else out.

Fixpoint walk (spec : DialectSpec) (quirks : LearnedQuirks) (schema : Json) : Json :=
  match schema with
  | JObject map =>
      JObject (walk_finish spec
        (fold_left (λ out e, walk_field spec quirks e.1 e.2
                               (normalize_value (λ j, walk spec quirks j) e.1 e.2) out) map []))
  | JArray items => JArray (map (walk spec quirks) items)
  | _ => schema
  end.

(** ** dialect.rs: flattening at the root *)

(** One branch of one combiner: the merged properties and the promoted requirements. *)
Definition flatten_branch (keyword : string) (st : Obj * list string) (branch : Json) :
    Obj * list string :=
  let '(merged, all_of_required) := st in
  match as_object branch with
  | None => st
  | Some branch =>
      let merged :=
        match bt_get "properties" branch ≫= as_object with
        | Some properties => add_missing merged properties
        | None => merged
        end in
      let all_of_required :=
        if String.eqb keyword "allOf" then
          match bt_get "required" branch ≫= as_array with
          | Some required => push_missing all_of_required (strs required)
          | None => all_of_required
          end
        else all_of_required in
      (merged, all_of_required)
  end.

Record FlattenState := {
  f_output : Obj;
  f_merged_properties : Obj;
  f_all_of_required : list string;
  f_saw_combiner : bool;
}.

(** One round of the loop over the combiners: the key is removed whatever its value is. *)
Definition flatten_keyword (st : FlattenState) (keyword : string) : FlattenState :=
  let value := bt_get keyword (f_output st) in
  let output := bt_remove keyword (f_output st) in
  match value with
  | Some (JArray branches) =>
      let '(merged, required) :=
        fold_left (flatten_branch keyword) branches
          (f_merged_properties st, f_all_of_required st) in
      {| f_output := output; f_merged_properties := merged; f_all_of_required := required;
         f_saw_combiner := true |}
  | _ => {| f_output := output; f_merged_properties := f_merged_properties st;
            f_all_of_required := f_all_of_required st; f_saw_combiner := f_saw_combiner st |}
  end.

(** [for name in all_of_required { if !required.iter().any(..) { required.push(..) } }] *)
Definition push_required (required : list Json) (names : list string) : list Json :=
  fold_left (λ acc n, if existsb (λ e, bool_decide (as_str e = Some n)) acc then acc
                      else (acc ++ [JString n])%list) names required.

Definition promote_required (output : Obj) (names : list string) : Obj :=
  match names with
  | [] => output
  | _ =>
      match default (JArray []) (bt_get "required" output) with
      | JArray required => bt_insert "required" (JArray (push_required required names)) output
      | _ => output
      end
  end.

Definition flatten_root (output : Obj) : FlattenState :=
  fold_left flatten_keyword ["oneOf"; "anyOf"; "allOf"]
    {| f_output := output; f_merged_properties := object_at "properties" output;
       f_all_of_required := []; f_saw_combiner := false |}.

Definition flatten_top_level_combiners (schema : Json) : Json :=
  match schema with
  | JObject output =>
      let st := flatten_root output in
      if f_saw_combiner st then
        let output := bt_insert "type" (JString "object") (f_output st) in
        let output := bt_insert "properties" (JObject (f_merged_properties st)) output in
        JObject (prune_dangling_required (promote_required output (f_all_of_required st)))
      else JObject (f_output st)
  | _ => schema
  end.

(** ** dialect.rs: flattening everywhere *)

Definition merge_property (parent branch : Json) : Json :=
  match parent, branch with
  | JObject parent_map, JObject branch_map => JObject (add_missing branch_map parent_map)
  | _, _ => parent
  end.

(** One property of the parent goes into the branch's property map. *)
Definition union_property (existing : Obj) (e : string * Json) : Obj :=
  match bt_get e.1 existing with
  | Some parent => bt_insert e.1 (merge_property parent e.2) existing
  | None => bt_insert e.1 e.2 existing
  end.

(** One sibling of the combiner goes into the flattened branch. *)
Definition merge_sibling (combiner : string) (flattened : Obj) (e : string * Json) : Obj :=
  let '(key, sibling) := e in
  if String.eqb key combiner then flattened
  else
    match bt_get key flattened, sibling with
    | Some (JObject existing), JObject incoming =>
        if String.eqb key "properties"
        then bt_insert key (JObject (fold_left union_property incoming existing)) flattened
        else flattened
    | Some _, _ => flattened
    | None, _ => bt_insert key sibling flattened
    end.

(** The loop over the combiners.  [map] is the object and [flat] the same object with
    [flatten_all_combiners] applied to each value, which gives both recursive calls: a
    sibling's, and the first branch's as the head of the flattened array. *)
Fixpoint flatten_object (combiners : list string) (map flat : Obj) : Json :=
  match combiners with
  | [] => JObject flat
  | combiner :: rest =>
      match bt_get combiner map, bt_get combiner flat with
      | Some (JArray (_ :: _)), Some (JArray (first :: _)) =>
          match first with
          | JObject branch =>
              JObject (prune_dangling_required (fold_left (merge_sibling combiner) flat branch))
          | other => other
          end
      | _, _ => flatten_object rest map flat
      end
  end.

Definition COMBINERS : list string := ["anyOf"; "oneOf"; "allOf"].

Fixpoint flatten_all_combiners (schema : Json) : Json :=
  match schema with
  | JObject map => flatten_object COMBINERS map (bt_map (λ j, flatten_all_combiners j) map)
  | JArray items => JArray (List.map flatten_all_combiners items)
  | _ => schema
  end.

(** ** dialect.rs: the entry points *)

Definition empty_object_schema : Json :=
  JObject [("properties", JObject []); ("type", JString "object")].

(** The last step: strict validators want an object schema. *)
Definition ensure_object (out : Json) : Json :=
  match out with
  | JObject [] =>
      JObject (bt_insert "properties" (JObject []) (bt_insert "type" (JString "object") []))
  | JObject _ => out
  | _ => empty_object_schema
  end.

Definition apply_with_quirks (schema : Json) (spec : DialectSpec) (quirks : LearnedQuirks) : Json :=
  let t := d_transforms spec in
  let out := walk spec quirks schema in
  let out :=
    if t_flatten_all_combiners t then flatten_all_combiners out
    else if t_flatten_top_level_combiners t then flatten_top_level_combiners out
    else out in
  if t_require_properties_on_objects t then ensure_object out else out.

Definition apply (schema : Json) (spec : DialectSpec) : Json :=
  apply_with_quirks schema spec no_quirks.

(** * [arterm-schema-dialect]: the registered dialects

    crates/arterm-schema-dialect/src/registry.rs, the table of what each provider accepts. *)

Definition DEFAULT_TRANSFORMS : DialectTransforms :=
  {| t_flatten_top_level_combiners := false; t_flatten_all_combiners := false;
     t_require_properties_on_objects := false; t_prune_dangling_required := false;
     t_const_as_enum := false; t_one_of_as_any_of := false; t_merge_all_of_branches := false |}.

Definition OPENAI : DialectSpec :=
  {| d_id := "openai";
     d_supported_keywords :=
       ["description"; "default"; "examples"; "format"; "anyOf"; "oneOf"; "allOf"; "$defs";
        "definitions"; "$ref"; "$schema"; "const"; "additionalProperties"; "patternProperties";
        "prefixItems"; "minimum"; "maximum"; "exclusiveMinimum"; "exclusiveMaximum";
        "multipleOf"; "minLength"; "maxLength"; "pattern"; "minItems"; "maxItems"; "nullable"];
     d_supported_string_formats :=
       ["date-time"; "time"; "date"; "duration"; "email"; "hostname"; "ipv4"; "ipv6"; "uuid"];
     d_transforms :=
       {| t_flatten_top_level_combiners := false; t_flatten_all_combiners := false;
          t_require_properties_on_objects := false; t_prune_dangling_required := false;
          t_const_as_enum := false; t_one_of_as_any_of := true;
          t_merge_all_of_branches := true |} |}.

Definition GEMINI : DialectSpec :=
  {| d_id := "gemini";
     d_supported_keywords :=
       ["description"; "default"; "format"; "anyOf"; "nullable"; "minimum"; "maximum";
        "minItems"; "maxItems"; "minLength"; "maxLength"; "pattern"; "example"];
     d_supported_string_formats := [];
     d_transforms :=
       {| t_flatten_top_level_combiners := false; t_flatten_all_combiners := false;
          t_require_properties_on_objects := false; t_prune_dangling_required := true;
          t_const_as_enum := true; t_one_of_as_any_of := true;
          t_merge_all_of_branches := false |} |}.

Definition ANTHROPIC : DialectSpec :=
  {| d_id := "anthropic";
     d_supported_keywords :=
       ["description"; "default"; "examples"; "format"; "anyOf"; "oneOf"; "allOf"; "not"; "if";
        "then"; "else"; "$defs"; "definitions"; "$ref"; "$schema"; "$comment"; "const";
        "additionalProperties"; "patternProperties"; "propertyNames"; "prefixItems"; "contains";
        "uniqueItems"; "minimum"; "maximum"; "exclusiveMinimum"; "exclusiveMaximum";
        "multipleOf"; "minLength"; "maxLength"; "pattern"; "minItems"; "maxItems";
        "minProperties"; "maxProperties"; "dependentRequired"; "dependentSchemas"; "nullable"];
     d_supported_string_formats := [];
     d_transforms :=
       {| t_flatten_top_level_combiners := true; t_flatten_all_combiners := false;
          t_require_properties_on_objects := true; t_prune_dangling_required := false;
          t_const_as_enum := false; t_one_of_as_any_of := false;
          t_merge_all_of_branches := false |} |}.

Definition OPENROUTER : DialectSpec :=
  {| d_id := "openrouter";
     d_supported_keywords := d_supported_keywords OPENAI;
     d_supported_string_formats := [];
     d_transforms :=
       {| t_flatten_top_level_combiners := true; t_flatten_all_combiners := false;
          t_require_properties_on_objects := true; t_prune_dangling_required := false;
          t_const_as_enum := false; t_one_of_as_any_of := false;
          t_merge_all_of_branches := false |} |}.

Definition ANTIGRAVITY_CLAUDE : DialectSpec :=
  {| d_id := "antigravity-claude";
     d_supported_keywords := d_supported_keywords GEMINI;
     d_supported_string_formats := [];
     d_transforms :=
       {| t_flatten_top_level_combiners := false; t_flatten_all_combiners := true;
          t_require_properties_on_objects := false; t_prune_dangling_required := true;
          t_const_as_enum := true; t_one_of_as_any_of := true;
          t_merge_all_of_branches := false |} |}.

Definition ANTIGRAVITY_BRIDGE : DialectSpec :=
  {| d_id := "antigravity-bridge";
     d_supported_keywords :=
       ["description"; "default"; "format"; "anyOf"; "nullable"; "minimum"; "maximum";
        "pattern"; "example"];
     d_supported_string_formats := [];
     d_transforms :=
       {| t_flatten_top_level_combiners := false; t_flatten_all_combiners := true;
          t_require_properties_on_objects := false; t_prune_dangling_required := true;
          t_const_as_enum := true; t_one_of_as_any_of := true;
          t_merge_all_of_branches := false |} |}.

Definition ALL : list DialectSpec :=
  [OPENAI; GEMINI; ANTHROPIC; OPENROUTER; ANTIGRAVITY_CLAUDE; ANTIGRAVITY_BRIDGE].

Definition by_id (id : string) : option DialectSpec :=
  List.find (λ spec, String.eqb (d_id spec) id) ALL.

(** * [arterm-schema-dialect]: the conformance checks

    crates/arterm-schema-dialect/src/conformance.rs.  The checkers push errors on a vector;
    here each returns the errors it pushes, in order. *)

Record ConformanceError := { ce_path : string; ce_message : string }.

#[export] Instance ConformanceError_eq_dec : EqDecision ConformanceError.
Proof. solve_decision. Defined.

(** [impl Display for ConformanceError] *)
Definition conformance_fmt (e : ConformanceError) : string := ce_path e +:+ ": " +:+ ce_message e.

(** ** Properties that declare nothing

    [map.get(key)] followed by a recursive call is written as a walk over the entries that
    skips the other keys: keys are unique. *)

Definition TYPE_DECLARING_KEYWORDS : list string :=
  ["type"; "enum"; "const"; "anyOf"; "oneOf"; "allOf"; "$ref"; "properties"; "items"].

Definition declares_a_type (schema : Json) : bool :=
  match as_object schema with
  | None => is_boolean schema
  | Some map => existsb (λ keyword, bt_contains keyword map) TYPE_DECLARING_KEYWORDS
  end.

Definition untyped_message : string :=
  "property declares no type, enum, or combiner, so the OpenAI strict validator would reject the whole catalog".

(** [errors] of a loop with an index, [for (idx, item) in items.iter().enumerate()]. *)
Section concat_indexed.
Context {E : Type} (f : nat → Json → list E).

Fixpoint concat_from (idx : nat) (items : list Json) : list E :=
  match items with
  | [] => []
  | item :: items' => (f idx item ++ concat_from (S idx) items')%list
  end.

Definition concat_indexed (items : list Json) : list E := concat_from 0 items.
End concat_indexed.

Definition index_path (path : string) (idx : nat) : string :=
  path +:+ "[" +:+ show_nat idx +:+ "]".

Definition key_path (path key : string) : string := path +:+ "." +:+ key.

Fixpoint untyped_walk (schema : Json) (path : string) : list ConformanceError :=
  match schema with
  | JArray items => concat_indexed (λ idx item, untyped_walk item (index_path path idx)) items
  | JObject map =>
      (flat_map (λ e,
        if String.eqb e.1 "properties" then
          match e.2 with
          | JObject properties =>
              flat_map (λ p,
                let child := path +:+ ".properties." +:+ p.1 in
                ((if declares_a_type p.2 then []
                  else [{| ce_path := child; ce_message := untyped_message |}])
                 ++ untyped_walk p.2 child)%list) properties
          | _ => []
          end
        else []) map
      ++ flat_map (λ e,
        if String.eqb e.1 "properties" then []
        else match keyword_role e.1 with
             | Data => []
             | _ => untyped_walk e.2 (key_path path e.1)
             end) map)%list
  | _ => []
  end.

Definition untyped_properties (schema : Json) : list ConformanceError := untyped_walk schema "$".

(** ** Unsupported constructs *)

Definition check_required (map : Obj) (required : Json) (path : string) : list ConformanceError :=
  match bt_get "properties" map with
  | Some (JObject properties) =>
      match as_array required with
      | Some names =>
          flat_map (λ name,
            if bt_contains name properties then []
            else [{| ce_path := path;
                     ce_message := "`required` names `" +:+ name +:+
                                   "`, which this object does not declare" |}]) (strs names)
      | None => []
      end
  | _ => []
  end.

(** The checks on one key, before its value is walked. *)
Definition check_field (spec : DialectSpec) (map : Obj) (key : string) (value : Json)
    (path : string) : list ConformanceError :=
  ((if supports spec key then []
    else [{| ce_path := path;
             ce_message := "keyword `" +:+ key +:+ "` is not in dialect `" +:+ d_id spec +:+ "`" |}])
   ++ (match as_str value with
       | Some format =>
           if String.eqb key "format" && negb (supports_format spec format)
           then [{| ce_path := path;
                    ce_message := "format `" +:+ format +:+ "` is not in dialect `"
                                  +:+ d_id spec +:+ "`" |}]
           else []
       | None => []
       end)
   ++ (if t_flatten_all_combiners (d_transforms spec) && has ["anyOf"; "oneOf"; "allOf"] key
       then [{| ce_path := path;
                ce_message := "combiner `" +:+ key +:+
                              "` survived a dialect that flattens all combiners" |}]
       else [])
   ++ (if t_prune_dangling_required (d_transforms spec) && String.eqb key "required"
       then check_required map value path else []))%list.

(** The check on the whole object, after its keys. *)
Definition check_object (spec : DialectSpec) (map : Obj) (path : string) : list ConformanceError :=
  if t_require_properties_on_objects (d_transforms spec)
     && bool_decide (bt_get "type" map = Some (JString "object"))
     && negb (bt_contains "properties" map)
  then [{| ce_path := path; ce_message := "object schema is missing `properties`" |}]
  else [].

Fixpoint check_walk (spec : DialectSpec) (schema : Json) (path : string) : list ConformanceError :=
  match schema with
  | JObject map =>
      (flat_map (λ e,
         check_field spec map e.1 e.2 path ++
         let child_path := key_path path e.1 in
         match keyword_role e.1 with
         | SubschemaMap =>
             match e.2 with
             | JObject children => flat_map (λ c, check_walk spec c.2 (key_path child_path c.1)) children
             | _ => []
             end
         | SubschemaArray =>
             match e.2 with
             | JArray items => concat_indexed (λ idx item, check_walk spec item (index_path child_path idx)) items
             | _ => []
             end
         | Subschema => check_walk spec e.2 child_path
         | Data => []
         end) map
      ++ check_object spec map path)%list
  | JArray items => concat_indexed (λ idx item, check_walk spec item (index_path path idx)) items
  | _ => []
  end.

Definition must_not_contain_unsupported_constructs (schema : Json) (spec : DialectSpec) :
    list ConformanceError :=
  check_walk spec schema "$".

(** ** Meaning *)

Definition dropped_keywords (original normalized : Obj) (path : string) : list ConformanceError :=
  flat_map (λ key,
    if bt_contains key original && negb (bt_contains key normalized)
       && negb (String.eqb key "required")
    then [{| ce_path := path;
             ce_message := "load-bearing keyword `" +:+ key +:+ "` was dropped" |}]
    else []) LOAD_BEARING_KEYWORDS.

Fixpoint compare (original normalized : Json) (path : string) : list ConformanceError :=
  match original, normalized with
  | JObject original_map, JObject normalized_map =>
      (dropped_keywords original_map normalized_map path ++
       flat_map (λ e,
         if String.eqb e.1 "properties" then
           match e.2, bt_get "properties" normalized_map with
           | JObject original_props, Some (JObject normalized_props) =>
               flat_map (λ p,
                 match bt_get p.1 normalized_props with
                 | Some normalized_child =>
                     compare p.2 normalized_child (path +:+ ".properties." +:+ p.1)
                 | None =>
                     [{| ce_path := path;
                         ce_message := "property `" +:+ p.1 +:+ "` disappeared" |}]
                 end) original_props
           | _, _ => []
           end
         else []) original_map)%list
  | _, _ => []
  end.

Definition must_preserve_meaning (original normalized : Json) : list ConformanceError :=
  compare original normalized "$".
