(* ===== verification/SchemaRecovery.v ===== *)
(** * [arterm-schema-dialect]: recovering from a rejection

    crates/arterm-schema-dialect/src/rejection.rs, quirks.rs and lib.rs: what a provider's error
    text names, the store of learned rejections, and [normalize] and [recover_from_error] on
    top of it.

    [with_store] runs its closure on the store of the active path, or on a throw-away default
    when there is no path (no home directory and no override): [QuirkStore] is an option.  The
    store lives in a process-wide cache that is written through to a file; the file is read
    once, when the cache is empty, so the file is the initial value of the store. *)

From S2P Require Export SchemaModel.

(** ** rejection.rs: tokens of an error text *)

Definition is_quote (c : ascii) : bool := Ascii.eqb c "'" || Ascii.eqb c dquote.

(** [str::find] with a predicate on ASCII characters, with the character found. *)
Fixpoint find_char (f : ascii → bool) (s : string) : option (nat * ascii) :=
  match s with
  | EmptyString => None
  | String c s' =>
      if f c then Some (0, c)
      else let?? (n, q) := find_char f s' in Some (S n, q)
  end.

(** [str::rfind] likewise: the last character that satisfies the predicate. *)
Fixpoint rfind_char (f : ascii → bool) (s : string) : option (nat * ascii) :=
  match s with
  | EmptyString => None
  | String c s' =>
      match rfind_char f s' with
      | Some (n, q) => Some (S n, q)
      | None => if f c then Some (0, c) else None
      end
  end.

Definition is_backslash (c : ascii) : bool := Ascii.eqb c "\".

(** [trim_matches('\\')] *)
Definition trim_backslashes (s : string) : string :=
  trim_end_matches is_backslash (drop_while is_backslash s).

Definition clean_token (token : string) : option string :=
  let token := trim (trim_backslashes (trim token)) in
  if is_empty token then None else Some token.

Definition extract_quoted_after (message marker : string) : option string :=
  let?? start := str_find marker message in
  let rest := str_drop (start + String.length marker) message in
  let?? (quote, quote_char) := find_char is_quote rest in
  let after := str_drop (S quote) rest in
  let?? (stop, _) := find_char (Ascii.eqb quote_char) after in
  clean_token (str_take stop after).

(** The loop of [extract_all_quoted_after] on what is left of the message at the cursor. *)
Fixpoint extract_all_from (fuel : nat) (rest marker : string) (found : list string) : list string :=
  match fuel with
  | 0 => found
  | S fuel =>
      match str_find marker rest with
      | None => found
      | Some offset =>
          let at_start := str_drop offset rest in
          let found :=
            match extract_quoted_after at_start marker with
            | Some token => if has found token then found else (found ++ [token])%list
            | None => found
            end in
          extract_all_from fuel (str_drop (String.length marker) at_start) marker found
      end
  end.

Definition extract_all_quoted_after (message marker : string) : list string :=
  extract_all_from (S (String.length message)) message marker [].

Definition extract_quoted_before (message marker : string) : option string :=
  let?? stop := str_find marker message in
  let head := trim_end (str_take stop message) in
  let?? (close, quote_char) := rfind_char is_quote head in
  let?? (open, _) := rfind_char (Ascii.eqb quote_char) (str_take close head) in
  clean_token (str_drop (S open) (str_take close head)).

(** ** rejection.rs: classification *)

Record SchemaRejection := {
  r_keywords : list string;
  r_format : option string;
  r_tool : option string;
}.

#[export] Instance SchemaRejection_eq_dec : EqDecision SchemaRejection.
Proof. solve_decision. Defined.

(** [SchemaRejection::keyword] *)
Definition rejection_keyword (r : SchemaRejection) : option string := head (r_keywords r).

(** [SchemaRejection::is_actionable] *)
Definition is_actionable (r : SchemaRejection) : bool :=
  match r_keywords r, r_format r with [], None => false | _, _ => true end.

Definition extract_tool (message : string) : option string :=
  extract_quoted_after message "for function".

Definition classify (message : string) : option SchemaRejection :=
  let tool := extract_tool message in
  let reject keywords format :=
    Some {| r_keywords := keywords; r_format := format; r_tool := tool |} in
  let names :=
    if contains "Cannot find field" message
    then extract_all_quoted_after message "Unknown name" else [] in
  match names with
  | _ :: _ => reject names None
  | [] =>
      match extract_quoted_before message "is not a valid format" with
      | Some format => reject [] (Some format)
      | None =>
          match extract_quoted_before message "is not permitted" with
          | Some keyword => reject [keyword] None
          | None =>
              if contains "are not defined in the schema properties" message
              then reject ["required"] None
              else if contains "must have a 'type' key" message || contains "is not of type" message
              then reject [] None
              else if contains "does not support oneOf, allOf, or anyOf" message
                      || (contains "input_schema" message
                          && contains "JSON Schema draft 2020-12" message)
              then reject ["anyOf"] None
              else None
          end
      end
  end.

Definition is_schema_error (message : string) : bool :=
  match classify message with
  | Some _ => true
  | None =>
      let lowered := to_ascii_lowercase message in
      contains "invalid_function_parameters" lowered
      || contains "invalid schema for function" lowered
      || (contains "function_declarations" lowered && contains "invalid" lowered)
  end.

Fixpoint schema_contains_keyword (schema : Json) (keyword : string) : bool :=
  match schema with
  | JObject map =>
      existsb (λ e, String.eqb e.1 keyword || schema_contains_keyword e.2 keyword) map
  | JArray items => existsb (λ i, schema_contains_keyword i keyword) items
  | _ => false
  end.

(** ** quirks.rs: the store *)

Record QuirkEntry := {
  e_rejected_keywords : list string;
  e_rejected_formats : list string;
}.

#[export] Instance QuirkEntry_eq_dec : EqDecision QuirkEntry.
Proof. solve_decision. Defined.

(** [QuirkEntry::default] *)
Definition no_entry : QuirkEntry := {| e_rejected_keywords := []; e_rejected_formats := [] |}.

Notation QuirkFile := (gmap string QuirkEntry).
Notation QuirkStore := (option (gmap string QuirkEntry)).

(** [with_store], with the closure's new file and its result. *)
Definition with_store {T} (f : QuirkFile → QuirkFile * T) (store : QuirkStore) : QuirkStore * T :=
  match store with
  | None => (None, (f ∅).2)
  | Some file => let '(file, x) := f file in (Some file, x)
  end.

Definition learned_of (file : QuirkFile) (dialect_id : string) : LearnedQuirks :=
  match file !! dialect_id with
  | Some entry => {| q_rejected_keywords := e_rejected_keywords entry;
                     q_rejected_formats := e_rejected_formats entry |}
  | None => no_quirks
  end.

Definition learned_for (dialect_id : string) (store : QuirkStore) : LearnedQuirks :=
  (with_store (λ file, (file, learned_of file dialect_id)) store).2.

(** The closure of [record]: the two guarded pushes on the dialect's entry. *)
Definition record_in (dialect_id : string) (keyword format : option string) (file : QuirkFile) :
    QuirkFile * bool :=
  let entry := default no_entry (file !! dialect_id) in
  let '(keywords, changed) :=
    match keyword with
    | Some keyword =>
        if has (e_rejected_keywords entry) keyword then (e_rejected_keywords entry, false)
        else ((e_rejected_keywords entry ++ [keyword])%list, true)
    | None => (e_rejected_keywords entry, false)
    end in
  let '(formats, changed) :=
    match format with
    | Some format =>
        if has (e_rejected_formats entry) format then (e_rejected_formats entry, changed)
        else ((e_rejected_formats entry ++ [format])%list, true)
    | None => (e_rejected_formats entry, changed)
    end in
  (<[dialect_id := {| e_rejected_keywords := keywords; e_rejected_formats := formats |}]> file,
   changed).

Definition record (dialect_id : string) (keyword format : option string) (store : QuirkStore) :
    QuirkStore * bool :=
  with_store (record_in dialect_id keyword format) store.

Definition record_keyword (dialect_id keyword : string) : QuirkStore → QuirkStore * bool :=
  record dialect_id (Some keyword) None.

Definition record_format (dialect_id format : string) : QuirkStore → QuirkStore * bool :=
  record dialect_id None (Some format).

Definition forget (dialect_id : string) (store : QuirkStore) : QuirkStore :=
  (with_store (λ file, (delete dialect_id file, ())) store).1.

(** ** lib.rs *)

Definition normalize (schema : Json) (spec : DialectSpec) (store : QuirkStore) : Json :=
  let learned := learned_for (d_id spec) store in
  if quirks_is_empty learned then apply schema spec else apply_with_quirks schema spec learned.

Inductive RecoveryAction :=
  | NotSchemaRelated
  | RetryWithoutConstruct (description : string)
  | Unrecoverable (hint : string).

#[export] Instance RecoveryAction_eq_dec : EqDecision RecoveryAction.
Proof. solve_decision. Defined.

Definition hint_unnamed (spec : DialectSpec) : string :=
  "provider `" +:+ d_id spec +:+ "` rejected the tool schemas but did not name the construct; the raw error is the only diagnostic available".

Definition hint_load_bearing (spec : DialectSpec) (keyword : string) : string :=
  "provider `" +:+ d_id spec +:+ "` rejected the load-bearing keyword `" +:+ keyword +:+
  "`, which cannot be stripped without changing what the tool accepts; the dialect's transforms need a real fix".

(** The loop over the keywords of a rejection: [inl] is the early return. *)
Fixpoint learn_keywords (spec : DialectSpec) (keywords : list string) (described : list string)
    (store : QuirkStore) : QuirkStore * (RecoveryAction + list string) :=
  match keywords with
  | [] => (store, inr described)
  | keyword :: rest =>
      if negb (is_droppable keyword)
      then (store, inl (Unrecoverable (hint_load_bearing spec keyword)))
      else
        let '(store, is_new) := record_keyword (d_id spec) keyword store in
        learn_keywords spec rest
          (if is_new then (described ++ ["keyword `" +:+ keyword +:+ "`"])%list else described) store
  end.

(** The guarded call after the loop. *)
Definition learn_format (spec : DialectSpec) (format : option string) (described : list string)
    (store : QuirkStore) : QuirkStore * list string :=
  match format with
  | Some format =>
      let '(store, is_new) := record_format (d_id spec) format store in
      (store, if is_new then (described ++ ["format `" +:+ format +:+ "`"])%list else described)
  | None => (store, described)
  end.

Definition describe_retry (spec : DialectSpec) (described : list string) (tool : option string) :
    string :=
  "provider `" +:+ d_id spec +:+ "` rejected " +:+ String.concat " and " described +:+
  match tool with Some t => " (from tool `" +:+ t +:+ "`)" | None => "" end +:+
  "; stripping it and retrying, and remembering it for future requests".

Definition hint_nothing_new (spec : DialectSpec) (rejection : SchemaRejection) : string :=
  if is_actionable rejection then
    "provider `" +:+ d_id spec +:+ "` rejected " +:+
    default "a schema construct"
      (match rejection_keyword rejection with Some k => Some k | None => r_format rejection end)
    +:+ " again after it was already being stripped, so the construct is not what actually failed"
  else
    "provider `" +:+ d_id spec +:+ "` reported a schema error naming no actionable construct".

(** [learned_something] is [described] being non-empty: both are set together. *)
Definition recover_from_error (message : string) (spec : DialectSpec) (store : QuirkStore) :
    QuirkStore * RecoveryAction :=
  match classify message with
  | None =>
      (store, if is_schema_error message then Unrecoverable (hint_unnamed spec)
              else NotSchemaRelated)
  | Some rejection =>
      match learn_keywords spec (r_keywords rejection) [] store with
      | (store, inl action) => (store, action)
      | (store, inr described) =>
          let '(store, described) := learn_format spec (r_format rejection) described store in
          match described with
          | _ :: _ =>
              (store, RetryWithoutConstruct (describe_retry spec described (r_tool rejection)))
          | [] => (store, Unrecoverable (hint_nothing_new spec rejection))
          end
      end
  end.

Definition learn_from_error (message : string) (spec : DialectSpec) (store : QuirkStore) :
    QuirkStore * option string :=
  let '(store, action) := recover_from_error message spec store in
  (store, match action with
          | NotSchemaRelated => None
          | RetryWithoutConstruct description =>
              Some (description +:+ ". This request failed, but the next one will not send it.")
          | Unrecoverable hint => Some hint
          end).

(** ** Inputs of the crate's tests *)

Example classify_openai :
  r_keywords <$> classify "Invalid schema for function 'mcp__t__x': In context=('properties', 'ids'), 'uniqueItems' is not permitted."
  = Some ["uniqueItems"].
Proof. by vm_compute. Qed.

Example classify_openai_tool :
  r_tool <$> classify "Invalid schema for function 'mcp__t__x': In context=('properties', 'url'), 'uri' is not a valid format."
  = Some (Some "mcp__t__x").
Proof. by vm_compute. Qed.

Example classify_anthropic :
  r_keywords <$> classify "input_schema does not support oneOf, allOf, or anyOf at the top level"
  = Some ["anyOf"].
Proof. by vm_compute. Qed.

Example classify_rate_limit : classify "HTTP 429 Too Many Requests" = None.
Proof. by vm_compute. Qed.
