(* ===== verification/SchemaWalk.v ===== *)
(** * [arterm-schema-dialect]: what the rewrites keep

    [every p o] says that [p] holds of every keyword, and [o] of every object, that stands at a
    schema position.  The section proves once that each rewrite of dialect.rs keeps such an
    invariant together with well-formedness; conformance, the absence of a learned keyword and
    well-formedness itself are instances. *)

From S2P Require Export SchemaModel.

(** [f] holds of the schemas in the value of a key. *)
Definition role_all (f : Json → bool) (key : string) (value : Json) : bool :=
  match keyword_role key with
  | SubschemaMap =>
      match value with JObject children => forallb (λ c, f c.2) children | _ => true end
  | SubschemaArray =>
      match value with JArray items => forallb f items | other => f other end
  | Subschema => f value
  | Data => true
  end.

(** The keywords that the rewrites write themselves are allowed with any value, and arrays under
    one keyword can be joined. *)
Class KeywordPred (p : string → Json → bool) : Prop := {
  p_type v : p "type" v = true;
  p_properties v : p "properties" v = true;
  p_required v : p "required" v = true;
  p_enum v : p "enum" v = true;
  p_arrays k a b : k ≠ "format" → p k (JArray a) = true → p k (JArray b) = true →
    p k (JArray (a ++ b)) = true;
}.

Section every.
Context (p : string → Json → bool) (o : Obj → bool).

Fixpoint every (schema : Json) : bool :=
  match schema with
  | JObject m => forallb (λ e, p e.1 e.2 && role_all (λ j, every j) e.1 e.2) m && o m
  | JArray items => forallb every items
  | _ => true
  end.

(** An entry at a schema position. *)
Definition entry_ok (key : string) (value : Json) : Prop :=
  wf_json value ∧ p key value = true ∧ role_all every key value = true.

Definition obj_ok (m : Obj) : Prop := bt_wf m ∧ ∀ e, e ∈ m → entry_ok e.1 e.2.

Definition schema_ok (j : Json) : Prop := wf_json j ∧ every j = true.

(** A property map. *)
Definition props_ok (m : Obj) : Prop := bt_wf m ∧ ∀ e, e ∈ m → schema_ok e.2.

Lemma schema_ok_obj m : schema_ok (JObject m) ↔ obj_ok m ∧ o m = true.
Proof.
  unfold schema_ok, obj_ok, entry_ok. simpl. rewrite andb_true_iff, forallb_elem.
  setoid_rewrite andb_true_iff. split.
  - intros [[Hm Hv]%wf_object_inv [Hp Ho]]. naive_solver.
  - intros [[Hm Hv] Ho]. split; [constructor; naive_solver|]. naive_solver.
Qed.

Lemma schema_ok_arr l : schema_ok (JArray l) ↔ ∀ x, x ∈ l → schema_ok x.
Proof.
  unfold schema_ok. simpl. rewrite forallb_elem. split.
  - intros [Hw He] x Hx. split; [by eapply wf_array_inv|by apply He].
  - intros H. split; [constructor|]; intros x Hx; by apply H.
Qed.

Lemma obj_ok_nil : obj_ok [].
Proof. split; [constructor|set_solver]. Qed.

Lemma obj_ok_insert k v m : obj_ok m → entry_ok k v → obj_ok (bt_insert k v m).
Proof.
  intros [Hm Hv] He. split; [auto with arterm|].
  intros e [->|Hin]%bt_elem_insert; [done|by apply Hv].
Qed.

Lemma obj_ok_remove k m : obj_ok m → obj_ok (bt_remove k m).
Proof.
  intros [Hm Hv]. split; [auto with arterm|]. intros e [Hin _]%bt_elem_remove. by apply Hv.
Qed.

Lemma obj_ok_get k v m : obj_ok m → bt_get k m = Some v → entry_ok k v.
Proof. intros [_ Hv] Hg%bt_get_Some_elem. by apply (Hv (k, v)). Qed.

Lemma props_ok_nil : props_ok [].
Proof. split; [constructor|set_solver]. Qed.

Lemma entry_ok_props ps : entry_ok "properties" (JObject ps) → props_ok ps.
Proof.
  intros ([Hw Hv]%wf_object_inv & _ & Hr). unfold role_all in Hr. simpl in Hr.
  rewrite forallb_elem in Hr. split; [done|]. intros e He. split; [by apply Hv|by apply Hr].
Qed.

Lemma obj_ok_object_at m : obj_ok m → props_ok (object_at "properties" m).
Proof.
  intros Hm. unfold object_at. destruct (bt_get "properties" m) as [v|] eqn:Hg; [|apply props_ok_nil].
  destruct v; simpl; try apply props_ok_nil. by eapply entry_ok_props, obj_ok_get.
Qed.

Lemma props_ok_add acc incoming : props_ok acc → props_ok incoming → props_ok (add_missing acc incoming).
Proof.
  intros Hacc [_ Hin]. unfold add_missing. revert acc Hacc Hin.
  induction incoming as [|e l IH]; intros acc Hacc Hin; simpl; [done|].
  apply IH; [|set_solver]. destruct Hacc as [Hw Hv]. split; [auto with arterm|].
  intros x [->|Hx]%bt_elem_or_insert; [|by apply Hv]. by apply (Hin e); left.
Qed.

Context `{!KeywordPred p}.

Lemma props_ok_entry ps : props_ok ps → entry_ok "properties" (JObject ps).
Proof.
  intros [Hw Hv]. split; [constructor; naive_solver|]. split; [apply p_properties|].
  unfold role_all. simpl. rewrite forallb_elem. naive_solver.
Qed.

Lemma entry_ok_type v : wf_json v → entry_ok "type" v.
Proof. intros Hw. split; [done|]. split; [apply p_type|done]. Qed.

Lemma entry_ok_required v : wf_json v → entry_ok "required" v.
Proof. intros Hw. split; [done|]. split; [apply p_required|done]. Qed.

Lemma wf_strings l : wf_json (JArray (map JString l)).
Proof. constructor. intros x Hx%list_elem_of_In%in_map_iff. destruct Hx as (s & <- & _). constructor. Qed.

Lemma obj_ok_prune m : obj_ok m → obj_ok (prune_dangling_required m).
Proof.
  intros Hm. unfold prune_dangling_required.
  destruct (bt_get "properties" m) as [[| | | | |ps]|]; try done.
  destruct (bt_get "required" m) as [v|] eqn:Hr; [|done].
  destruct v as [| | | |l|]; try done.
  destruct (List.filter _ l) as [|x l'] eqn:Hf; [by apply obj_ok_remove|].
  apply obj_ok_insert; [done|]. apply entry_ok_required. rewrite <- Hf.
  destruct (obj_ok_get _ _ _ Hm Hr) as [Hw _]. constructor.
  intros y [Hy _]%list_elem_of_In%filter_In. apply list_elem_of_In in Hy.
  by eapply wf_array_inv.
Qed.

(** A branch of a combiner, when it is an object. *)
Lemma branch_props ps b bm : as_object b = Some bm → schema_ok b →
  props_ok ps →
  props_ok (match bt_get "properties" bm ≫= as_object with
            | Some bp => add_missing ps bp | None => ps end).
Proof.
  destruct b; try done. intros [= ->] [Hb _]%schema_ok_obj Hps.
  destruct (bt_get "properties" bm) as [v|] eqn:Hg; [|done].
  destruct v; try done. simpl. apply props_ok_add; [done|].
  by eapply entry_ok_props, obj_ok_get.
Qed.

Lemma merge_branch_ok st b out ps req :
  obj_ok st.1.1 → props_ok st.1.2 → schema_ok b → merge_branch st b = (out, ps, req) →
  obj_ok out ∧ props_ok ps.
Proof.
  destruct st as [[out0 ps0] req0]. simpl. intros Ho Hp Hb.
  destruct (as_object b) as [bm|] eqn:Hbm; intros [= <- <- _]; [|done]. split; [|by eapply branch_props].
  destruct (bt_get "type" out0); [done|]. destruct (bt_get "type" bm) as [t|] eqn:Ht; [|done].
  apply obj_ok_insert; [done|]. apply entry_ok_type. destruct b; try done. injection Hbm as ->.
  apply schema_ok_obj in Hb as [Hb _]. by destruct (obj_ok_get _ _ _ Hb Ht).
Qed.

Lemma merge_branches_ok l out ps req out' ps' req' :
  obj_ok out → props_ok ps → (∀ x, x ∈ l → schema_ok x) →
  fold_left merge_branch l (out, ps, req) = (out', ps', req') → obj_ok out' ∧ props_ok ps'.
Proof.
  revert out ps req. induction l as [|b l IH]; intros out ps req Ho Hp Hl Hf.
  - by injection Hf as <- <- _.
  - cbn [fold_left] in Hf. destruct (merge_branch (out, ps, req) b) as [[out1 ps1] req1] eqn:Hb.
    edestruct (merge_branch_ok (out, ps, req) b) as [Ho1 Hp1]; [done|done|set_solver|done|].
    eapply IH; [done|done|set_solver|done].
Qed.

Lemma entry_ok_branches k l :
  keyword_role k = SubschemaArray → entry_ok k (JArray l) → ∀ x, x ∈ l → schema_ok x.
Proof.
  intros Hk (Hw & _ & Hr) x Hx. unfold role_all in Hr. rewrite Hk, forallb_elem in Hr.
  split; [by eapply wf_array_inv|by apply Hr].
Qed.

Lemma obj_ok_merge m : obj_ok m → obj_ok (merge_all_of_branches m).
Proof.
  intros Hm. unfold merge_all_of_branches. cbv zeta.
  pose proof (obj_ok_remove "allOf" m Hm) as Hm'.
  destruct (bt_get "allOf" m) as [v|] eqn:Ha; [|done]. destruct v as [| | | |l|]; try done.
  destruct (fold_left _ l _) as [[out ps] req] eqn:Hf.
  apply merge_branches_ok in Hf as [Ho Hp]; [|done|by apply obj_ok_object_at|].
  2: { apply (entry_ok_branches "allOf"); [done|]. by apply (obj_ok_get _ _ m). }
  apply obj_ok_prune.
  assert (Ho' : obj_ok (match ps with [] => out | _ => bt_insert "properties" (JObject ps) out end)).
  { destruct ps; [done|]. by apply obj_ok_insert, props_ok_entry. }
  destruct req; [by apply obj_ok_remove|].
  apply obj_ok_insert; [done|]. apply entry_ok_required, wf_strings.
Qed.

Lemma obj_ok_finish spec m : obj_ok m → obj_ok (walk_finish spec m).
Proof.
  intros Hm. unfold walk_finish. cbv zeta.
  set (m1 := if t_prune_dangling_required _ then _ else _).
  assert (H1 : obj_ok m1) by (unfold m1; case_match; [by apply obj_ok_prune|done]).
  set (m2 := if t_merge_all_of_branches _ then _ else _).
  assert (H2 : obj_ok m2) by (unfold m2; case_match; [by apply obj_ok_merge|done]).
  case_match; [|done]. unfold bt_or_insert. case_match; [done|].
  apply obj_ok_insert; [done|]. apply props_ok_entry, props_ok_nil.
Qed.

(** ** The walk *)

Lemma role_all_app k a b :
  role_all every k (JArray a) = true → role_all every k (JArray b) = true →
  role_all every k (JArray (a ++ b)) = true.
Proof.
  unfold role_all. destruct (keyword_role k); simpl; try done;
    rewrite !forallb_elem; set_solver.
Qed.

Lemma wf_arr_app a b : wf_json (JArray a) → wf_json (JArray b) → wf_json (JArray (a ++ b)).
Proof. intros Ha Hb. constructor. intros x [Hx|Hx]%elem_of_app; eauto using wf_array_inv. Qed.

(** A key that the guards let through goes to its output key, with the allowed keyword. *)
Definition step_allowed (spec : DialectSpec) (quirks : LearnedQuirks) : Prop :=
  ∀ key v, negb ((negb (supports spec (out_key_of spec key)) || has (q_rejected_keywords quirks) key)
                 && is_droppable key) = true →
           (key = "format" → format_ok spec quirks v = true) → 
           p (out_key_of spec key) v = true.

Lemma keyword_role_out_key spec key : keyword_role (out_key_of spec key) = keyword_role key.
Proof.
  unfold out_key_of. destruct (String.eqb_spec key "oneOf") as [->|]; [|done].
  by destruct (t_one_of_as_any_of _).
Qed.

Lemma out_key_format spec key : out_key_of spec key = "format" ↔ key = "format".
Proof.
  unfold out_key_of. destruct (String.eqb_spec key "oneOf") as [->|]; [|done].
  by destruct (t_one_of_as_any_of _).
Qed.

Lemma walk_field_ok spec quirks key value normalized out :
  step_allowed spec quirks → obj_ok out → wf_json value → wf_json normalized →
  role_all every key normalized = true →
  obj_ok (walk_field spec quirks key value normalized out).
Proof.
  intros Hstep Ho Hv Hn Hr. unfold walk_field. cbv zeta.
  destruct (_ && is_droppable key) eqn:Hdrop.
  { case_match; [|done]. apply obj_ok_insert; [done|].
    split; [constructor; set_solver|]. split; [apply p_enum|done]. }
  destruct (String.eqb_spec key "format") as [->|Hf].
  { destruct (format_ok spec quirks value) eqn:Hfo; [|done]. apply obj_ok_insert; [done|].
    split; [done|]. split; [|done]. change "format" with (out_key_of spec "format") at 1.
    apply Hstep; [by rewrite Hdrop|done]. }
  assert (Hr' : role_all every (out_key_of spec key) normalized = true).
  { unfold role_all in *. by rewrite keyword_role_out_key. }
  assert (He : entry_ok (out_key_of spec key) normalized).
  { split; [done|]. split; [|done]. apply Hstep; [by rewrite Hdrop|done]. }
  destruct (bt_get (out_key_of spec key) out) as [w|] eqn:Hg; [|by apply obj_ok_insert].
  destruct w as [| | | |l|]; try by apply obj_ok_insert.
  destruct normalized as [| | | |l'|]; try done.
  apply obj_ok_insert; [done|]. destruct (obj_ok_get _ _ _ Ho Hg) as (Hw & Hp & Hra).
  destruct He as (Hw' & Hp' & Hra').
  split; [by apply wf_arr_app|]. split; [|by apply role_all_app].
  apply p_arrays; [|done|done]. by rewrite out_key_format.
Qed.

Lemma normalize_value_ok f key v :
  wf_json v → schema_ok (f v) → (∀ c, c ∈ children v → schema_ok (f c)) →
  wf_json (normalize_value f key v) ∧ role_all every key (normalize_value f key v) = true.
Proof.
  intros Hw [Hf1 Hf2] Hc. unfold normalize_value, role_all.
  destruct (keyword_role key) eqn:Hk; [done| | |done].
  - destruct v as [| | | | |m]; try done. apply wf_object_inv in Hw as [Hm Hv]. split.
    + constructor; [auto with arterm|]. intros e (e' & He & ->)%bt_elem_map.
      apply Hc. simpl. auto with arterm.
    + apply forallb_elem. intros e (e' & He & ->)%bt_elem_map. apply Hc. simpl. auto with arterm.
  - destruct v as [| | | |l|m]; cbn [children] in *;
      try (split; [done|]; by destruct (f _)).
    split.
    + constructor. intros x (y & <- & Hy)%list_elem_of_In%in_map_iff.
      apply Hc. by rewrite list_elem_of_In.
    + apply forallb_elem. intros x (y & <- & Hy)%list_elem_of_In%in_map_iff.
      apply Hc. by rewrite list_elem_of_In.
Qed.

Lemma walk_fields_ok spec quirks f l out :
  step_allowed spec quirks → obj_ok out → (∀ e, e ∈ l → wf_json e.2) →
  (∀ e, e ∈ l → schema_ok (f e.2) ∧ ∀ c, c ∈ children e.2 → schema_ok (f c)) →
  obj_ok (fold_left (λ out e, walk_field spec quirks e.1 e.2 (normalize_value f e.1 e.2) out) l out).
Proof.
  intros Hstep. revert out. induction l as [|e l IH]; intros out Ho Hw Hf; simpl; [done|].
  destruct (Hf e) as [Hf1 Hf2]; [by left|]. assert (Hwe : wf_json e.2) by (apply Hw; by left).
  destruct (normalize_value_ok f e.1 e.2) as [Hn1 Hn2]; [done..|].
  apply IH; [by apply walk_field_ok|..]; intros e' He'; [apply Hw|apply Hf]; by right.
Qed.

(** What holds at every schema position of a walked schema. *)
Theorem walk_every spec quirks :
  step_allowed spec quirks →
  (∀ m, obj_ok m → o (walk_finish spec m) = true) →
  ∀ j, wf_json j → schema_ok (walk spec quirks j).
Proof.
  intros Hstep Hfin. apply (Json_children_ind (λ j, wf_json j → schema_ok (walk spec quirks j))).
  intros j IH Hw.
  assert (Hc : ∀ c, c ∈ children j → schema_ok (walk spec quirks c)).
  { intros c Hc. apply IH; [done|]. by eapply wf_children. }
  assert (Hd : ∀ c d, c ∈ children j → d ∈ children c → schema_ok (walk spec quirks d)).
  { intros c d H1 H2. apply (IH c H1); [done|]. eapply wf_children; [|done]. by eapply wf_children. }
  destruct j as [| | | |l|m]; try (split; [constructor|done]).
  - apply schema_ok_arr. intros x (y & <- & Hy)%list_elem_of_In%in_map_iff.
    apply Hc. by apply list_elem_of_In.
  - pose proof (wf_object_inv _ Hw) as [Hm Hv]. cbn [walk].
    apply schema_ok_obj. assert (Ho : obj_ok (fold_left (λ out e, walk_field spec quirks e.1 e.2
      (normalize_value (λ j, walk spec quirks j) e.1 e.2) out) m [])).
    { apply walk_fields_ok; [done|apply obj_ok_nil|done|].
      intros e He. split; [apply Hc; simpl; auto with arterm|].
      intros c. apply Hd. simpl. auto with arterm. }
    split; [by apply obj_ok_finish|by apply Hfin].
Qed.

(** ** Flattening at the root *)

Lemma flatten_branch_props k st b :
  schema_ok b → props_ok st.1 → props_ok (flatten_branch k st b).1.
Proof.
  intros Hb Hp. destruct st as [ps req]. unfold flatten_branch.
  destruct (as_object b) as [bm|] eqn:Hbm; [|done]. by apply (branch_props ps b bm).
Qed.

Lemma flatten_branches_props k l st :
  (∀ b, b ∈ l → schema_ok b) → props_ok st.1 → props_ok (fold_left (flatten_branch k) l st).1.
Proof.
  revert st. induction l as [|b l IH]; intros st Hl Hp; simpl; [done|].
  apply IH; [set_solver|]. apply flatten_branch_props; [apply Hl; by left|done].
Qed.

Lemma flatten_keyword_ok st k :
  keyword_role k = SubschemaArray →
  obj_ok (f_output st) → props_ok (f_merged_properties st) →
  obj_ok (f_output (flatten_keyword st k)) ∧ props_ok (f_merged_properties (flatten_keyword st k)).
Proof.
  intros Hk Ho Hp. unfold flatten_keyword. cbv zeta.
  pose proof (obj_ok_remove k _ Ho) as Ho'.
  destruct (bt_get k (f_output st)) as [v|] eqn:Hg; [|done]. destruct v as [| | | |l|]; try done.
  destruct (fold_left _ l _) as [ps req] eqn:Hf. simpl. split; [done|].
  change ps with (ps, req).1. rewrite <- Hf. apply flatten_branches_props; [|done].
  apply (entry_ok_branches k); [done|]. by apply (obj_ok_get _ _ (f_output st)).
Qed.

Lemma flatten_keywords_ok ks st :
  (∀ k, k ∈ ks → keyword_role k = SubschemaArray) →
  obj_ok (f_output st) → props_ok (f_merged_properties st) →
  obj_ok (f_output (fold_left flatten_keyword ks st)) ∧
  props_ok (f_merged_properties (fold_left flatten_keyword ks st)).
Proof.
  revert st. induction ks as [|k ks IH]; intros st Hk Ho Hp; [done|]. cbn [fold_left].
  destruct (flatten_keyword_ok st k) as [Ho' Hp']; [apply Hk; by left|done..|].
  apply IH; [|done..]. intros k' Hk'. apply Hk. by right.
Qed.

Lemma flatten_root_ok m :
  obj_ok m → obj_ok (f_output (flatten_root m)) ∧ props_ok (f_merged_properties (flatten_root m)).
Proof.
  intros Hm. apply flatten_keywords_ok; [|done|by apply obj_ok_object_at].
  intros k. rewrite !elem_of_cons, elem_of_nil. by intros [->|[->|[->|[]]]].
Qed.

Lemma wf_push_required l names : wf_json (JArray l) → wf_json (JArray (push_required l names)).
Proof.
  unfold push_required. revert l. induction names as [|n names IH]; intros l Hl; simpl; [done|].
  apply IH. case_match; [done|]. apply wf_arr_app; [done|]. apply (wf_strings [n]).
Qed.

Lemma promote_required_ok m names : obj_ok m → obj_ok (promote_required m names).
Proof.
  intros Hm. unfold promote_required. destruct names as [|n names]; [done|].
  assert (Hd : wf_json (default (JArray []) (bt_get "required" m))).
  { destruct (bt_get "required" m) as [v|] eqn:Hg; [by apply (obj_ok_get _ _ _ Hm Hg)|].
    constructor. set_solver. }
  destruct (default _ _); try done. apply obj_ok_insert; [done|].
  by apply entry_ok_required, wf_push_required.
Qed.

Lemma flatten_top_obj_ok m m' :
  obj_ok m → flatten_top_level_combiners (JObject m) = JObject m' → obj_ok m'.
Proof.
  intros Hm. cbn [flatten_top_level_combiners]. destruct (flatten_root_ok m Hm) as [Ho Hps].
  destruct (f_saw_combiner _); intros [= <-]; [|done].
  apply obj_ok_prune, promote_required_ok, obj_ok_insert; [|by apply props_ok_entry].
  apply obj_ok_insert; [done|]. apply entry_ok_type. constructor.
Qed.
End every.
