(* ===== verification/SchemaNormal.v ===== *)
(** * [arterm-schema-dialect]: the normal form of a dialect

    [normal spec] says of a schema that every keyword at a schema position is one the dialect
    sends, and that every object satisfies the dialect's structural demands.  The rewrites of a
    coherent dialect that does not flatten every combiner produce normal schemas, leave normal
    schemas alone, and the conformance check reports nothing on one. *)

From S2P Require Export SchemaWalk.

(** ** Coherent dialects *)

(** [validate] accepts the dialect, and it does not ask both for [required] to be pruned and for
    [properties] to be inserted afterwards. *)
Definition coherent (spec : DialectSpec) : Prop :=
  validate spec = Ok () ∧
  t_prune_dangling_required (d_transforms spec)
    && t_require_properties_on_objects (d_transforms spec) = false.

#[export] Instance coherent_dec spec : Decision (coherent spec).
Proof. unfold coherent. apply _. Defined.

Lemma validate_load_bearing spec key :
  validate spec = Ok () → is_droppable key = false → supports spec key = true.
Proof.
  unfold validate. destruct (List.find _ LOAD_BEARING_KEYWORDS) eqn:Hf; [done|]. intros _ Hk.
  rewrite find_None_elem in Hf. apply negb_false_iff, Hf.
  unfold is_droppable, has in Hk. apply negb_false_iff, existsb_elem in Hk as (k & Hin & Hk).
  by apply String.eqb_eq in Hk as ->.
Qed.

(** ** Lookups through the rewrites *)

Lemma prune_get k m : k ≠ "required" → bt_get k (prune_dangling_required m) = bt_get k m.
Proof.
  intros Hk. unfold prune_dangling_required.
  destruct (bt_get "properties" m) as [[| | | | |ps]|]; try done.
  destruct (bt_get "required" m) as [[| | | |l|]|]; try done.
  destruct (List.filter _ l) as [|x l']; [|by rewrite bt_get_insert_ne].
  rewrite bt_get_remove. by rewrite (proj2 (String.eqb_neq k "required") Hk).
Qed.

(** Every name in [required] is declared, and there is one. *)
Definition required_declared (m : Obj) : bool :=
  match bt_get "properties" m, bt_get "required" m with
  | Some (JObject ps), Some (JArray l) =>
      negb (is_nil l) && forallb (names_declared (ps.*1)) l
  | _, _ => true
  end.

Lemma required_declared_prune m : required_declared (prune_dangling_required m) = true.
Proof.
  unfold required_declared. rewrite prune_get by done. unfold prune_dangling_required.
  destruct (bt_get "properties" m) as [[| | | | |ps]|]; try done.
  destruct (bt_get "required" m) as [[| | | |l|]|] eqn:Hr; rewrite ?Hr; try done.
  destruct (List.filter _ l) as [|x l'] eqn:Hf.
  - by rewrite bt_get_remove.
  - rewrite bt_get_insert_eq, <- Hf. apply andb_true_iff. split; [by rewrite Hf|].
    apply forallb_forall. by intros y [_ Hy]%filter_In.
Qed.

Lemma prune_id m : bt_wf m → required_declared m = true → prune_dangling_required m = m.
Proof.
  unfold required_declared, prune_dangling_required. intros Hm.
  destruct (bt_get "properties" m) as [[| | | | |ps]|]; try done.
  destruct (bt_get "required" m) as [[| | | |l|]|] eqn:Hr; try done.
  intros [Hl Hd]%andb_true_iff. rewrite forallb_forall in Hd.
  rewrite (List.forallb_filter_id (names_declared ps.*1) l) by by apply forallb_forall.
  destruct l; [done|]. by apply bt_insert_same.
Qed.

Lemma merge_branch_allOf st b : bt_get "allOf" (merge_branch st b).1.1 = bt_get "allOf" st.1.1.
Proof.
  destruct st as [[out ps] req]. unfold merge_branch. destruct (as_object b); [|done]. simpl.
  destruct (bt_get "type" out); [done|]. destruct (bt_get "type" l); [|done].
  by rewrite bt_get_insert_ne.
Qed.

Lemma merge_branches_allOf l st :
  bt_get "allOf" (fold_left merge_branch l st).1.1 = bt_get "allOf" st.1.1.
Proof.
  revert st. induction l as [|b l IH]; intros st; [done|]. cbn [fold_left].
  by rewrite IH, merge_branch_allOf.
Qed.

Lemma merge_no_allOf m : bt_get "allOf" (merge_all_of_branches m) = None.
Proof.
  unfold merge_all_of_branches. cbv zeta.
  assert (H0 : bt_get "allOf" (bt_remove "allOf" m) = None) by by rewrite bt_get_remove.
  destruct (bt_get "allOf" m) as [[| | | |l|]|]; try done.
  destruct (fold_left _ l _) as [[out ps] req] eqn:Hf.
  assert (H1 : bt_get "allOf" out = None).
  { change out with (out, ps, req).1.1. by rewrite <- Hf, merge_branches_allOf. }
  rewrite prune_get by done.
  destruct req; [rewrite bt_get_remove|rewrite bt_get_insert_ne by done];
    destruct ps; rewrite ?bt_get_insert_ne; done.
Qed.

Lemma merge_id m : bt_get "allOf" m = None → merge_all_of_branches m = m.
Proof.
  intros H. unfold merge_all_of_branches. rewrite H. cbv zeta.
  by apply bt_remove_id, bt_get_None_iff.
Qed.

Lemma required_declared_merge m :
  required_declared m = true → required_declared (merge_all_of_branches m) = true.
Proof.
  intros Hm. unfold merge_all_of_branches. cbv zeta.
  assert (H0 : required_declared (bt_remove "allOf" m) = true).
  { unfold required_declared. by rewrite !bt_get_remove. }
  destruct (bt_get "allOf" m) as [[| | | |l|]|]; try done.
  destruct (fold_left _ l _) as [[out ps] req]. apply required_declared_prune.
Qed.

(** ** Normal schemas *)

(** A keyword the dialect sends, with an accepted [format]. *)
Definition key_ok (spec : DialectSpec) (key : string) (value : Json) : bool :=
  supports spec key && negb (String.eqb key "oneOf" && t_one_of_as_any_of (d_transforms spec))
  && (if String.eqb key "format" then
        match as_str value with Some f => supports_format spec f | None => false end
      else true).

(** The structural demands. *)
Definition object_ok (spec : DialectSpec) (m : Obj) : bool :=
  let t := d_transforms spec in
  implb (t_prune_dangling_required t) (required_declared m)
  && implb (t_merge_all_of_branches t) (negb (bt_contains "allOf" m))
  && implb (t_require_properties_on_objects t && is_object_typed m) (bt_contains "properties" m).

Definition normal (spec : DialectSpec) : Json → bool := every (key_ok spec) (object_ok spec).

#[export] Instance key_ok_pred spec : KeywordPred (key_ok spec).
Proof.
  constructor; [done..|].
  intros k a b Hk. unfold key_ok. by rewrite (proj2 (String.eqb_neq k "format") Hk).
Qed.

Lemma out_key_not_one_of spec key :
  String.eqb (out_key_of spec key) "oneOf" && t_one_of_as_any_of (d_transforms spec) = false.
Proof.
  unfold out_key_of. destruct (String.eqb_spec key "oneOf") as [->|H].
  - by destruct (t_one_of_as_any_of _).
  - simpl. by rewrite (proj2 (String.eqb_neq key "oneOf") H).
Qed.

Lemma out_key_load_bearing spec key : is_droppable key = false → out_key_of spec key = key.
Proof. unfold out_key_of. by destruct (String.eqb_spec key "oneOf") as [->|]. Qed.

Lemma key_ok_step spec quirks : validate spec = Ok () → step_allowed (key_ok spec) spec quirks.
Proof.
  intros Hval key v Hkeep Hfmt. unfold key_ok. rewrite out_key_not_one_of. simpl.
  assert (Hs : supports spec (out_key_of spec key) = true).
  { destruct (is_droppable key) eqn:Hd.
    - by destruct (supports spec (out_key_of spec key)).
    - rewrite out_key_load_bearing by done. by apply validate_load_bearing. }
  rewrite Hs. simpl. destruct (String.eqb_spec (out_key_of spec key) "format") as [Hf|]; [|done].
  apply out_key_format in Hf. specialize (Hfmt Hf). unfold format_ok in Hfmt.
  destruct (as_str v); [|done]. by apply andb_true_iff in Hfmt as [? _].
Qed.

Lemma bt_contains_get k (m : Obj) : bt_contains k m = bool_decide (is_Some (bt_get k m)).
Proof. done. Qed.

Lemma is_object_typed_ext m m' : bt_get "type" m = bt_get "type" m' → is_object_typed m = is_object_typed m'.
Proof. unfold is_object_typed. by intros ->. Qed.

Lemma object_ok_finish spec m :
  t_prune_dangling_required (d_transforms spec)
    && t_require_properties_on_objects (d_transforms spec) = false →
  object_ok spec (walk_finish spec m) = true.
Proof.
  intros Hpr. unfold object_ok, walk_finish. cbv zeta.
  set (m1 := if t_prune_dangling_required _ then _ else m).
  set (m2 := if t_merge_all_of_branches _ then _ else m1).
  assert (Hprune : t_prune_dangling_required (d_transforms spec) = true → required_declared m2 = true).
  { intros Hp. unfold m2, m1. rewrite Hp. pose proof (required_declared_prune m).
    case_match; [by apply required_declared_merge|done]. }
  assert (Hmerge : t_merge_all_of_branches (d_transforms spec) = true → bt_get "allOf" m2 = None).
  { intros Hp. unfold m2. rewrite Hp. apply merge_no_allOf. }
  clearbody m1 m2. destruct (t_require_properties_on_objects (d_transforms spec)) eqn:Hreq; simpl.
  - rewrite andb_true_r in Hpr. rewrite Hpr. simpl.
    assert (Hall : ∀ m', bt_get "allOf" m' = bt_get "allOf" m2 →
      implb (t_merge_all_of_branches (d_transforms spec)) (negb (bt_contains "allOf" m')) = true).
    { intros m' Heq. destruct (t_merge_all_of_branches _); [|done]. simpl.
      rewrite bt_contains_get, Heq, Hmerge by done. done. }
    destruct (is_object_typed m2) eqn:Hty.
    + rewrite Hall by by rewrite bt_get_or_insert. apply implb_true_iff. intros _.
      rewrite bt_contains_get, bt_get_or_insert, String.eqb_refl. by apply bool_decide_eq_true.
    + rewrite Hall by done. by rewrite Hty.
  - rewrite andb_true_r. destruct (t_prune_dangling_required _), (t_merge_all_of_branches _);
      rewrite ?Hprune by done; rewrite ?bt_contains_get, ?Hmerge by done; done.
Qed.

(** The walk of a coherent dialect produces a normal schema. *)
Lemma walk_normal spec quirks j :
  coherent spec → wf_json j → schema_ok (key_ok spec) (object_ok spec) (walk spec quirks j).
Proof.
  intros [Hval Hpr]. apply walk_every; [apply _|by apply key_ok_step|].
  intros m _. by apply object_ok_finish.
Qed.

(** ** A normal schema passes the check *)

Lemma flat_map_nil {A B} (f : A → list B) l : (∀ x, x ∈ l → f x = []) → flat_map f l = [].
Proof.
  induction l as [|x l IH]; intros H; simpl; [done|].
  rewrite (H x) by by left. apply IH. intros y Hy. apply H. by right.
Qed.

Lemma concat_from_nil {E} (f : nat → Json → list E) i l :
  (∀ n x, x ∈ l → f n x = []) → concat_from f i l = [].
Proof.
  revert i. induction l as [|x l IH]; intros i H; simpl; [done|].
  rewrite (H i x) by by left. apply IH. intros n y Hy. apply H. by right.
Qed.

Lemma names_declared_spec ps n : names_declared (ps.*1) (JString n) = @bt_contains Json n ps.
Proof.
  unfold names_declared, bt_contains, has. simpl. apply bool_eq_iff.
  rewrite bool_decide_eq_true, bt_get_is_Some, existsb_elem. split.
  - by intros (x & Hx & ->%String.eqb_eq).
  - intros H. exists n. by rewrite String.eqb_refl.
Qed.

Lemma check_required_nil m value path :
  required_declared m = true → bt_get "required" m = Some value →
  check_required m value path = [].
Proof.
  unfold required_declared, check_required. intros Hd Hg. rewrite Hg in Hd.
  destruct (bt_get "properties" m) as [[| | | | |ps]|]; try done.
  destruct value as [| | | |l|]; try done. apply andb_true_iff in Hd as [_ Hd].
  rewrite forallb_elem in Hd. simpl. apply flat_map_nil. intros n Hn%elem_of_strs.
  by rewrite <- names_declared_spec, (Hd _ Hn).
Qed.

Lemma check_field_nil spec m e path :
  t_flatten_all_combiners (d_transforms spec) = false →
  bt_wf m → object_ok spec m = true → e ∈ m → key_ok spec e.1 e.2 = true →
  check_field spec m e.1 e.2 path = [].
Proof.
  intros Hflat Hm Ho He Hk. unfold check_field. rewrite Hflat.
  apply andb_true_iff in Hk as [[Hs _]%andb_true_iff Hf]. rewrite Hs. cbn [app andb].
  assert (H1 : match as_str e.2 with
     | Some format => if String.eqb e.1 "format" && negb (supports_format spec format)
        then [{| ce_path := path; ce_message := "format `" +:+ format +:+ "` is not in dialect `" +:+ d_id spec +:+ "`" |}]
        else []
     | None => [] end = []).
  { destruct (as_str e.2); [|done]. by destruct (String.eqb e.1 "format"); simpl; rewrite ?Hf. }
  rewrite H1. cbn [app]. destruct (t_prune_dangling_required _) eqn:Hp; [|done].
  destruct (String.eqb_spec e.1 "required") as [Hr|]; [|done]. simpl.
  unfold object_ok in Ho. rewrite Hp in Ho. simpl in Ho. simp_bool.
  apply check_required_nil; [done|]. apply bt_elem_get; [done|]. rewrite <- Hr. by destruct e.
Qed.

Lemma check_object_nil spec m path : object_ok spec m = true → check_object spec m path = [].
Proof.
  unfold object_ok, check_object. intros Ho. simp_bool.
  destruct (t_require_properties_on_objects _); [|done]. simpl in *.
  case_bool_decide as Ht; [|done]. simpl. unfold is_object_typed in *. rewrite Ht in *. simpl in *.
  by destruct (bt_contains "properties" m).
Qed.

Lemma normal_check spec j :
  t_flatten_all_combiners (d_transforms spec) = false →
  wf_json j → normal spec j = true → ∀ path, check_walk spec j path = [].
Proof.
  intros Hflat. revert j.
  apply (Json_children_ind (λ j, wf_json j → normal spec j = true → ∀ path, check_walk spec j path = [])).
  intros j IH Hw Hn path.
  assert (Hc : ∀ c, c ∈ children j → normal spec c = true → ∀ path, check_walk spec c path = []).
  { intros c Hc. apply IH; [done|]. by eapply wf_children. }
  assert (Hd : ∀ c d, c ∈ children j → d ∈ children c → normal spec d = true →
                 ∀ path, check_walk spec d path = []).
  { intros c d H1 H2. apply (IH c H1); [done|]. eapply wf_children; [|done]. by eapply wf_children. }
  destruct j as [| | | |l|m]; try done.
  - cbn [normal every] in Hn. unfold normal in Hn. cbn [every] in Hn. rewrite forallb_elem in Hn.
    cbn [check_walk]. apply concat_from_nil. intros n x Hx. by apply Hc, Hn.
  - unfold normal in Hn. cbn [every] in Hn. apply andb_true_iff in Hn as [He Ho].
    rewrite forallb_elem in He. pose proof (wf_object_inv _ Hw) as [Hm _].
    cbn [check_walk]. rewrite check_object_nil, app_nil_r by done. apply flat_map_nil.
    intros e Hin. pose proof (He e Hin) as [Hk Hr]%andb_true_iff.
    rewrite check_field_nil by done. cbn [app]. unfold role_all in Hr.
    assert (Hin2 : e.2 ∈ children (JObject m)) by (simpl; auto with arterm).
    destruct (keyword_role e.1); [by apply Hc|..|done].
    + destruct e.2 as [| | | | |ps] eqn:Hv; try done. rewrite forallb_elem in Hr.
      apply flat_map_nil. intros c Hcin. apply (Hd _ _ Hin2); [simpl; auto with arterm|by apply Hr].
    + destruct e.2 as [| | | |l|] eqn:Hv; try done. rewrite forallb_elem in Hr.
      apply concat_from_nil. intros n c Hcin. apply (Hd _ _ Hin2); [done|by apply Hr].
Qed.

(** ** The walk leaves a normal schema alone *)

Lemma map_id_elem {A} (f : A → A) l : (∀ x, x ∈ l → f x = x) → map f l = l.
Proof.
  induction l as [|x l IH]; intros H; simpl; [done|].
  rewrite (H x) by by left. f_equal. apply IH. intros y Hy. apply H. by right.
Qed.

Lemma normalize_value_id f key v (P : Json → bool) :
  role_all P key v = true → (P v = true → f v = v) →
  (∀ c, c ∈ children v → P c = true → f c = c) →
  (∀ l, P (JArray l) = forallb P l) →
  normalize_value f key v = v.
Proof.
  intros Hr Hv Hc Harr. unfold role_all, normalize_value in *.
  destruct (keyword_role key); [by apply Hv| | |done].
  - destruct v as [| | | | |m]; try done. rewrite forallb_elem in Hr. f_equal.
    apply map_id_elem. intros [k c] Hx. simpl. f_equal.
    apply Hc; [|by apply (Hr (k, c))]. exact (elem_of_values _ _ Hx).
  - destruct v as [| | | |l|m]; try by apply Hv. rewrite forallb_elem in Hr. f_equal.
    apply map_id_elem. intros x Hx. apply Hc; [done|by apply Hr].
Qed.

Lemma walk_field_normal spec e out :
  key_ok spec e.1 e.2 = true → (∀ k, k ∈ out.*1 → key_lt k e.1) →
  walk_field spec no_quirks e.1 e.2 e.2 out = (out ++ [e])%list.
Proof.
  intros Hk Hlt. unfold key_ok in Hk. simp_bool. unfold walk_field. cbv zeta.
  assert (Hout : out_key_of spec e.1 = e.1).
  { unfold out_key_of. by destruct (String.eqb e.1 "oneOf"), (t_one_of_as_any_of _). }
  rewrite Hout, H. simpl. rewrite bt_insert_last by done.
  assert (Hnone : bt_get e.1 out = None).
  { apply bt_get_None_iff. intros Hin. by apply Hlt, key_lt_irrefl in Hin. }
  rewrite Hnone. destruct e as [k v]. simpl in *. destruct (String.eqb k "format"); [|done].
  unfold format_ok. destruct (as_str v); [|done]. by rewrite H0.
Qed.

Lemma walk_fields_normal spec f l out :
  bt_wf (out ++ l) → (∀ e, e ∈ l → key_ok spec e.1 e.2 = true) →
  (∀ e, e ∈ l → normalize_value f e.1 e.2 = e.2) →
  fold_left (λ out e, walk_field spec no_quirks e.1 e.2 (normalize_value f e.1 e.2) out) l out
  = (out ++ l)%list.
Proof.
  revert out. induction l as [|e l IH]; intros out Hwf Hk Hv; [by rewrite app_nil_r|].
  cbn [fold_left]. rewrite (Hv e) by by left. rewrite walk_field_normal; [|apply Hk; by left|].
  - replace (out ++ e :: l)%list with ((out ++ [e]) ++ l)%list in * by by rewrite <- app_assoc.
    apply IH; [done|..]; intros e' He'; [apply Hk|apply Hv]; by right.
  - apply bt_wf_app_inv in Hwf as (_ & _ & Hlt). intros k Hk'. apply Hlt; [done|]. by left.
Qed.

Lemma walk_finish_normal spec m : bt_wf m → object_ok spec m = true → walk_finish spec m = m.
Proof.
  intros Hm. unfold object_ok, walk_finish. cbv zeta. intros Ho. simp_bool.
  assert (H2 : (if t_prune_dangling_required (d_transforms spec) then prune_dangling_required m else m) = m).
  { destruct (t_prune_dangling_required _); [|done]. by apply prune_id. }
  rewrite H2.
  assert (H3 : (if t_merge_all_of_branches (d_transforms spec) then merge_all_of_branches m else m) = m).
  { destruct (t_merge_all_of_branches _); [|done]. apply merge_id. simpl in *. simp_bool.
    by apply bt_contains_false. }
  rewrite H3. destruct (_ && is_object_typed m); [|done]. unfold bt_or_insert.
  simpl in H0. apply bt_contains_true in H0 as [v ->]. done.
Qed.

Lemma walk_id spec j : wf_json j → normal spec j = true → walk spec no_quirks j = j.
Proof.
  revert j.
  apply (Json_children_ind (λ j, wf_json j → normal spec j = true → walk spec no_quirks j = j)).
  intros j IH Hw Hn.
  assert (Hc : ∀ c, c ∈ children j → normal spec c = true → walk spec no_quirks c = c).
  { intros c Hc. apply IH; [done|]. by eapply wf_children. }
  assert (Hd : ∀ c d, c ∈ children j → d ∈ children c → normal spec d = true →
                 walk spec no_quirks d = d).
  { intros c d H1 H2. apply (IH c H1); [done|]. eapply wf_children; [|done]. by eapply wf_children. }
  destruct j as [| | | |l|m]; try done; unfold normal in Hn; cbn [every] in Hn.
  - rewrite forallb_elem in Hn. cbn [walk]. f_equal. apply map_id_elem.
    intros x Hx. by apply Hc, Hn.
  - apply andb_true_iff in Hn as [He Ho]. rewrite forallb_elem in He.
    pose proof (wf_object_inv _ Hw) as [Hm _]. cbn [walk]. f_equal.
    rewrite walk_fields_normal; [by apply walk_finish_normal|done|..];
      intros e Hin; pose proof (He e Hin) as [Hk Hr]%andb_true_iff; [done|].
    assert (Hin2 : e.2 ∈ children (JObject m)) by (simpl; auto with arterm).
    eapply normalize_value_id; [done|by apply Hc|intros c; by apply Hd|done].
Qed.
