(* ===== verification/SchemaTheorems.v ===== *)
(** * [arterm-schema-dialect]: the theorems on normalization

    Conformance, idempotence, well-formedness and preservation of meaning of [apply], for every
    coherent dialect that does not flatten every combiner (the four of the registry that talk to
    a provider directly); and what holds of the two that do. *)

From S2P Require Export SchemaNormal.

(** ** Flattening at the root *)

Definition is_root_combiner (k : string) : bool := has ["oneOf"; "anyOf"; "allOf"] k.

Lemma flatten_keyword_get st key k :
  bt_get k (f_output (flatten_keyword st key)) =
    if String.eqb k key then None else bt_get k (f_output st).
Proof.
  unfold flatten_keyword. cbv zeta. rewrite <- bt_get_remove.
  destruct (bt_get key (f_output st)) as [[| | | |l|]|]; try done.
  by destruct (fold_left _ l _).
Qed.

Lemma flatten_root_get m k :
  bt_get k (f_output (flatten_root m)) = if is_root_combiner k then None else bt_get k m.
Proof.
  unfold flatten_root. cbn [fold_left]. rewrite !flatten_keyword_get. cbn [f_output].
  unfold is_root_combiner, has. cbn [existsb].
  by destruct (String.eqb k "allOf"), (String.eqb k "anyOf"), (String.eqb k "oneOf").
Qed.

Lemma promote_required_get m names k :
  k ≠ "required" → bt_get k (promote_required m names) = bt_get k m.
Proof.
  intros Hk. unfold promote_required. destruct names; [done|].
  destruct (default _ _); try done. by rewrite bt_get_insert_ne.
Qed.

(** What the flattened root is at every key but [required]. *)
Lemma flatten_top_get m m' k :
  flatten_top_level_combiners (JObject m) = JObject m' → k ≠ "required" →
  bt_get k m' =
    if is_root_combiner k then None
    else if f_saw_combiner (flatten_root m) then
      if String.eqb k "properties" then Some (JObject (f_merged_properties (flatten_root m)))
      else if String.eqb k "type" then Some (JString "object")
      else bt_get k m
    else bt_get k m.
Proof.
  cbn [flatten_top_level_combiners]. intros Hm Hk.
  destruct (f_saw_combiner _); injection Hm as <-; [|apply flatten_root_get].
  rewrite prune_get, promote_required_get, !bt_get_insert, flatten_root_get by done.
  destruct (String.eqb_spec k "properties") as [->|]; [done|].
  by destruct (String.eqb_spec k "type") as [->|].
Qed.

Lemma flatten_top_unsaw_required m :
  f_saw_combiner (flatten_root m) = false →
  required_declared (f_output (flatten_root m)) = required_declared m.
Proof. intros _. unfold required_declared. by rewrite !flatten_root_get. Qed.

Lemma flatten_top_object_ok spec m m' :
  object_ok spec m = true → flatten_top_level_combiners (JObject m) = JObject m' →
  object_ok spec m' = true.
Proof.
  intros Ho Hm'. pose proof (flatten_top_get m m') as Hget.
  unfold object_ok in *. simp_bool.
  assert (Hall : bt_get "allOf" m' = None) by by rewrite (Hget "allOf").
  assert (Hreq : implb (t_prune_dangling_required (d_transforms spec)) (required_declared m') = true).
  { destruct (t_prune_dangling_required _); [|done]. simpl in *.
    cbn [flatten_top_level_combiners] in Hm'. destruct (f_saw_combiner _) eqn:Hs.
    - injection Hm' as <-. apply required_declared_prune.
    - injection Hm' as <-. by rewrite flatten_top_unsaw_required. }
  rewrite Hreq. rewrite (proj2 (bt_contains_false "allOf" m') Hall), implb_true_r. simpl.
  apply implb_true_iff. intros [Hr Hty]%andb_true_iff. apply bt_contains_true.
  rewrite (Hget "properties") by done. simpl.
  destruct (f_saw_combiner _) eqn:Hs; [by eexists|].
  rewrite Hr in H0. simpl in H0. rewrite implb_true_iff in H0. apply bt_contains_true, H0.
  rewrite <- Hty. apply is_object_typed_ext. by rewrite (Hget "type").
Qed.

Lemma flatten_top_normal spec j :
  schema_ok (key_ok spec) (object_ok spec) j →
  schema_ok (key_ok spec) (object_ok spec) (flatten_top_level_combiners j).
Proof.
  intros Hj. destruct j as [| | | | |m]; try done.
  destruct (flatten_top_level_combiners (JObject m)) as [| | | | |m'] eqn:Hf;
    try (cbn [flatten_top_level_combiners] in Hf; by destruct (f_saw_combiner _)).
  apply schema_ok_obj in Hj as [Hm Ho]. apply schema_ok_obj. split.
  - by eapply flatten_top_obj_ok.
  - by eapply flatten_top_object_ok.
Qed.

(** ** The result of [apply_with_quirks] *)

(** No combiner at the root. *)
Definition root_free (j : Json) : Prop :=
  ∀ m k, j = JObject m → is_root_combiner k = true → bt_get k m = None.

Lemma flatten_top_root_free j : root_free (flatten_top_level_combiners j).
Proof.
  intros m' k Hm' Hk. destruct j as [| | | | |m]; try done.
  rewrite (flatten_top_get m m' k Hm'), Hk; [done|]. by intros ->.
Qed.

Lemma flatten_keywords_id ks st :
  (∀ k, k ∈ ks → bt_get k (f_output st) = None) → fold_left flatten_keyword ks st = st.
Proof.
  induction ks as [|k ks IH]; intros Hk; [done|]. cbn [fold_left].
  assert (Hst : flatten_keyword st k = st).
  { unfold flatten_keyword. cbv zeta. rewrite (Hk k) by by left. destruct st. simpl in *.
    rewrite bt_remove_id; [done|]. apply bt_get_None_iff, Hk. by left. }
  rewrite Hst. apply IH. intros k' Hk'. apply Hk. by right.
Qed.

Lemma flatten_top_id j : root_free j → flatten_top_level_combiners j = j.
Proof.
  intros Hf. destruct j as [| | | | |m]; try done. cbn [flatten_top_level_combiners].
  unfold flatten_root. rewrite flatten_keywords_id; [done|]. intros k Hk. cbn [f_output].
  apply (Hf m); [done|]. apply existsb_elem. exists k. split; [done|]. apply String.eqb_refl.
Qed.

Lemma ensure_object_id j : ensure_object (ensure_object j) = ensure_object j.
Proof. by destruct j as [| | | | |[|e m]]. Qed.

Lemma ensure_object_cases j : ensure_object j = j ∨ ensure_object j = empty_object_schema.
Proof. destruct j as [| | | | |[|e m]]; auto. Qed.

Lemma empty_object_schema_normal spec :
  schema_ok (key_ok spec) (object_ok spec) empty_object_schema.
Proof.
  apply schema_ok_obj. split.
  - split; [repeat constructor|]. intros e. unfold entry_ok.
    rewrite !elem_of_cons, elem_of_nil. intros [->|[->|[]]]; simpl; (split; [|done]).
    + constructor; [constructor|set_solver].
    + constructor.
  - unfold object_ok. simpl. by rewrite !implb_true_r.
Qed.

(** The result is normal, free of what the dialect flattens, and an object where it must be. *)
Lemma apply_result schema spec quirks :
  coherent spec → t_flatten_all_combiners (d_transforms spec) = false → wf_json schema →
  let out := apply_with_quirks schema spec quirks in
  schema_ok (key_ok spec) (object_ok spec) out ∧
  (t_flatten_top_level_combiners (d_transforms spec) = true → root_free out) ∧
  (t_require_properties_on_objects (d_transforms spec) = true → ensure_object out = out).
Proof.
  intros Hc Hflat Hw. unfold apply_with_quirks. rewrite Hflat. cbv zeta.
  pose proof (walk_normal spec quirks schema Hc Hw) as Hwalk.
  set (o := if t_flatten_top_level_combiners _ then _ else walk spec quirks schema).
  assert (Ho : schema_ok (key_ok spec) (object_ok spec) o).
  { unfold o. case_match; [by apply flatten_top_normal|done]. }
  assert (Hr : t_flatten_top_level_combiners (d_transforms spec) = true → root_free o).
  { unfold o. intros ->. apply flatten_top_root_free. }
  clearbody o. destruct (t_require_properties_on_objects _); [|done].
  split; [|split; [|intros _; apply ensure_object_id]].
  - destruct (ensure_object_cases o) as [-> | ->]; [done|]. apply empty_object_schema_normal.
  - intros Ht. destruct (ensure_object_cases o) as [-> | ->]; [by apply Hr|].
    intros m k [= <-]. unfold is_root_combiner, has. cbn [existsb bt_get].
    destruct (String.eqb_spec k "properties") as [->|]; [done|].
    by destruct (String.eqb_spec k "type") as [->|].
Qed.

(** C8. Prevention: whatever a tool's schema is, what a coherent dialect that does not flatten
    every combiner makes of it contains nothing that the dialect's provider is known to reject:
    no unlisted keyword or format, no dangling [required], no object without [properties], at
    any depth and with any learned quirks. *)
Theorem apply_conforms schema spec quirks :
  coherent spec → t_flatten_all_combiners (d_transforms spec) = false → wf_json schema →
  must_not_contain_unsupported_constructs (apply_with_quirks schema spec quirks) spec = [].
Proof.
  intros Hc Hflat Hw. destruct (apply_result schema spec quirks Hc Hflat Hw) as ([Hwo Hn] & _).
  by apply normal_check.
Qed.

(** Normalizing is idempotent: a schema that went through a coherent dialect (learned quirks
    included) is left exactly as it is by the dialect. *)
Theorem apply_idempotent schema spec quirks :
  coherent spec → t_flatten_all_combiners (d_transforms spec) = false → wf_json schema →
  apply (apply_with_quirks schema spec quirks) spec = apply_with_quirks schema spec quirks.
Proof.
  intros Hc Hflat Hw. destruct (apply_result schema spec quirks Hc Hflat Hw) as ([Hwo Hn] & Hr & He).
  set (out := apply_with_quirks schema spec quirks) in *. clearbody out.
  unfold apply, apply_with_quirks. rewrite Hflat, walk_id by done. cbv zeta.
  set (o := if t_flatten_top_level_combiners _ then _ else out).
  assert (Ho : o = out) by (unfold o; case_match; [by apply flatten_top_id, Hr|done]).
  rewrite Ho. case_match; [by apply He|done].
Qed.
