(* ===== verification/SchemaMeaning.v ===== *)
(** * [arterm-schema-dialect]: what normalization keeps and what it removes

    [keeps m m'] relates an object to a later stage of its rewriting: load-bearing keywords stay
    and the property map only grows.  Every rewrite after the loop of [walk] is in [keeps], which
    gives preservation of meaning; the absence of learned keywords is an instance of
    [walk_every]. *)

From S2P Require Export SchemaTheorems SchemaRecovery.

(** ** The loop of [walk], key by key *)

Notation compare := SchemaModel.compare.

Section fields.
Context (spec : DialectSpec) (quirks : LearnedQuirks) (f : Json → Json).

Definition step (out : Obj) (e : string * Json) : Obj :=
  walk_field spec quirks e.1 e.2 (normalize_value f e.1 e.2) out.

(** The only keys a round can write. *)
Lemma step_get_other out e k :
  out_key_of spec e.1 ≠ k → k ≠ "enum" → bt_get k (step out e) = bt_get k out.
Proof.
  intros Hk He. unfold step, walk_field. cbv zeta.
  destruct (_ && is_droppable e.1).
  { case_match; [|done]. by rewrite bt_get_insert_ne. }
  destruct (String.eqb_spec e.1 "format") as [Hf|].
  { destruct (format_ok _ _ _); [|done]. rewrite bt_get_insert_ne; [done|].
    intros ->. apply Hk. by rewrite Hf. }
  destruct (bt_get (out_key_of spec e.1) out) as [[| | | |l|]|];
    try destruct (normalize_value f e.1 e.2); rewrite ?bt_get_insert_ne; congruence.
Qed.

Lemma step_get_mono out e k : is_Some (bt_get k out) → is_Some (bt_get k (step out e)).
Proof.
  intros H. unfold step, walk_field. cbv zeta.
  repeat case_match; rewrite ?bt_get_insert; try case_match; naive_solver.
Qed.

(** A keyword that may not be dropped is stored. *)
Lemma step_load_bearing out e :
  is_droppable e.1 = false → is_Some (bt_get e.1 (step out e)).
Proof.
  intros Hd. unfold step, walk_field. cbv zeta. rewrite Hd, andb_false_r.
  rewrite out_key_load_bearing by done.
  destruct (String.eqb_spec e.1 "format") as [Hf|]; [by rewrite Hf in Hd|].
  destruct (bt_get e.1 out) as [[| | | |l|]|] eqn:Hg;
    try destruct (normalize_value f e.1 e.2); rewrite ?Hg, ?bt_get_insert_eq; done.
Qed.

(** A key that the guard of the loop lets through, under its own name and not as a format. *)
Definition kept (k : string) : Prop :=
  (negb (supports spec k) || has (q_rejected_keywords quirks) k) && is_droppable k = false ∧
  k ≠ "format" ∧ k ≠ "enum" ∧ k ≠ "anyOf" ∧ k ≠ "oneOf".

Lemma load_bearing_kept k : is_droppable k = false → k ≠ "enum" → kept k.
Proof.
  intros Hd He. unfold kept. rewrite Hd, andb_false_r. split; [done|].
  by repeat split; try (intros ->).
Qed.

Lemma step_kept_fresh out e :
  kept e.1 → bt_get e.1 out = None →
  bt_get e.1 (step out e) = Some (normalize_value f e.1 e.2).
Proof.
  intros (Hkeep & Hf & _ & _ & Hone) Hg. unfold step, walk_field. cbv zeta.
  assert (Hout : out_key_of spec e.1 = e.1).
  { unfold out_key_of. by rewrite (proj2 (String.eqb_neq e.1 "oneOf") Hone). }
  rewrite Hout, Hkeep, (proj2 (String.eqb_neq e.1 "format") Hf).
  by rewrite Hg, bt_get_insert_eq.
Qed.

Lemma steps_get_mono l out k : is_Some (bt_get k out) → is_Some (bt_get k (fold_left step l out)).
Proof.
  revert out. induction l as [|e l IH]; intros out H; [done|]. cbn [fold_left].
  by apply IH, step_get_mono.
Qed.

Lemma steps_load_bearing l out k :
  is_droppable k = false → k ∈ l.*1 → is_Some (bt_get k (fold_left step l out)).
Proof.
  intros Hd. revert out. induction l as [|e l IH]; intros out; [set_solver|]. cbn [fold_left fmap list_fmap].
  intros [->|Hin]%elem_of_cons; [|by apply IH]. by apply steps_get_mono, step_load_bearing.
Qed.

Lemma steps_get_other l out k :
  k ≠ "enum" → k ≠ "anyOf" → k ∉ l.*1 → bt_get k (fold_left step l out) = bt_get k out.
Proof.
  intros H1 H2. revert out. induction l as [|e l IH]; intros out Hk; [done|].
  cbn [fold_left fmap list_fmap] in *. rewrite IH by set_solver. apply step_get_other; [|done].
  unfold out_key_of. destruct (_ && _); set_solver.
Qed.

(** The value of a kept key after the loop. *)
Lemma steps_get l k v :
  bt_wf l → kept k → bt_get k l = Some v →
  bt_get k (fold_left step l []) = Some (normalize_value f k v).
Proof.
  intros Hwf Hkept Hg. apply bt_elem_get in Hg; [|done].
  apply list_elem_of_split in Hg as (l1 & l2 & ->).
  pose proof Hkept as (_ & _ & Hk & Hany & _).
  pose proof (bt_wf_NoDup _ Hwf) as Hnd. rewrite fmap_app in Hnd. cbn [fmap list_fmap fst] in Hnd.
  apply NoDup_app in Hnd as (_ & Hnd1 & [Hnd2 _]%NoDup_cons).
  rewrite fold_left_app. cbn [fold_left]. rewrite steps_get_other by done.
  apply (step_kept_fresh _ (k, v)); [done|]. simpl.
  rewrite steps_get_other; [done..|]. intros Hin. apply (Hnd1 k Hin). by left.
Qed.
End fields.

(** ** Later stages keep what matters *)

Definition keeps (m m' : Obj) : Prop :=
  (∀ k, is_droppable k = false → k ≠ "required" → is_Some (bt_get k m) → is_Some (bt_get k m')) ∧
  (∀ ps, bt_get "properties" m = Some (JObject ps) →
     ∃ ps', bt_get "properties" m' = Some (JObject ps') ∧
            ∀ n v, bt_get n ps = Some v → bt_get n ps' = Some v).

#[export] Instance keeps_preorder : PreOrder keeps.
Proof.
  split.
  - intros m. split; [done|]. intros ps Hps. by exists ps.
  - intros m1 m2 m3 [H1 H2] [H3 H4]. split; [naive_solver|].
    intros ps Hps. destruct (H2 ps Hps) as (ps2 & Hps2 & Hn2).
    destruct (H4 ps2 Hps2) as (ps3 & Hps3 & Hn3). exists ps3. split; [done|]. naive_solver.
Qed.

(** Agreement outside [required] is enough. *)
Lemma keeps_ext m m' : (∀ k, is_droppable k = false → k ≠ "required" → bt_get k m' = bt_get k m) → keeps m m'.
Proof.
  intros H. split.
  - intros k Hd Hk. by rewrite H.
  - intros ps Hps. exists ps. by rewrite H.
Qed.

Lemma keeps_prune m : keeps m (prune_dangling_required m).
Proof. apply keeps_ext. intros k _ Hk. by apply prune_get. Qed.

Lemma keeps_remove k m : is_droppable k = true → keeps m (bt_remove k m).
Proof.
  intros Hk. apply keeps_ext. intros k' Hd _. rewrite bt_get_remove.
  destruct (String.eqb_spec k' k); [congruence|done].
Qed.

Lemma keeps_set_required m v : keeps m (bt_insert "required" v m).
Proof. apply keeps_ext. intros k _ Hk. by rewrite bt_get_insert_ne. Qed.

Lemma keeps_remove_required m : keeps m (bt_remove "required" m).
Proof.
  apply keeps_ext. intros k _ Hk. rewrite bt_get_remove.
  by rewrite (proj2 (String.eqb_neq k "required") Hk).
Qed.

Lemma keeps_set_type m v : keeps m (bt_insert "type" v m).
Proof.
  split.
  - intros k _ _ Hs. rewrite bt_get_insert. destruct (String.eqb k "type"); [by eexists|done].
  - intros ps Hps. exists ps. by rewrite bt_get_insert_ne.
Qed.

(** A property map that contains the declared one. *)
Lemma keeps_set_properties m ps' :
  (∀ n v, bt_get n (object_at "properties" m) = Some v → bt_get n ps' = Some v) →
  keeps m (bt_insert "properties" (JObject ps') m).
Proof.
  intros Hps'. split.
  - intros k _ _ Hs. rewrite bt_get_insert. destruct (String.eqb k "properties"); [by eexists|done].
  - intros ps Hps. exists ps'. rewrite bt_get_insert_eq. split; [done|].
    intros n v Hn. apply Hps'. unfold object_at. by rewrite Hps.
Qed.

Lemma add_missing_get acc incoming n v :
  bt_get n acc = Some v → bt_get n (add_missing acc incoming) = Some v.
Proof.
  unfold add_missing. revert acc. induction incoming as [|e l IH]; intros acc H; [done|].
  cbn [fold_left]. apply IH. rewrite bt_get_or_insert.
  destruct (String.eqb_spec n e.1) as [<-|]; [by rewrite H|done].
Qed.

(** The branches of an [allOf] change nothing that is declared. *)
Lemma merge_branch_keeps st b :
  keeps st.1.1 (merge_branch st b).1.1 ∧
  object_at "properties" (merge_branch st b).1.1 = object_at "properties" st.1.1 ∧
  ∀ n v, bt_get n st.1.2 = Some v → bt_get n (merge_branch st b).1.2 = Some v.
Proof.
  destruct st as [[out ps] req]. unfold merge_branch. destruct (as_object b) as [bm|]; [|done].
  cbn [fst snd]. split; [|split].
  - destruct (bt_get "type" out); [done|]. destruct (bt_get "type" bm); [|done]. apply keeps_set_type.
  - destruct (bt_get "type" out); [done|]. destruct (bt_get "type" bm); [|done].
    unfold object_at. by rewrite bt_get_insert_ne.
  - intros n v Hn. case_match; [by apply add_missing_get|done].
Qed.

Lemma merge_branches_keep l st :
  keeps st.1.1 (fold_left merge_branch l st).1.1 ∧
  object_at "properties" (fold_left merge_branch l st).1.1 = object_at "properties" st.1.1 ∧
  ∀ n v, bt_get n st.1.2 = Some v → bt_get n (fold_left merge_branch l st).1.2 = Some v.
Proof.
  revert st. induction l as [|b l IH]; intros st; [done|]. cbn [fold_left].
  destruct (IH (merge_branch st b)) as (H1 & H2 & H3).
  destruct (merge_branch_keeps st b) as (H4 & H5 & H6).
  split; [by transitivity ((merge_branch st b).1.1)|]. split; [congruence|]. naive_solver.
Qed.

Lemma object_at_remove k k' m : k ≠ k' → object_at k (bt_remove k' m) = object_at k m.
Proof.
  intros Hk. unfold object_at. rewrite bt_get_remove.
  by rewrite (proj2 (String.eqb_neq k k') Hk).
Qed.

Lemma keeps_merge m : keeps m (merge_all_of_branches m).
Proof.
  unfold merge_all_of_branches. cbv zeta. transitivity (bt_remove "allOf" m); [by apply keeps_remove|].
  destruct (bt_get "allOf" m) as [[| | | |l|]|]; try done.
  set (m0 := bt_remove "allOf" m).
  set (req0 := strs _). pose proof (merge_branches_keep l (m0, object_at "properties" m0, req0)) as H.
  destruct (fold_left merge_branch l _) as [[out ps] req]. cbn [fst snd] in H.
  destruct H as (H1 & H2 & H3). transitivity out; [done|].
  etransitivity; [|apply keeps_prune].
  assert (H4 : keeps out (match ps with [] => out | _ => bt_insert "properties" (JObject ps) out end)).
  { destruct ps as [|p ps]; [done|]. apply keeps_set_properties. by rewrite H2. }
  etransitivity; [exact H4|]. destruct req; [apply keeps_remove_required|apply keeps_set_required].
Qed.

Lemma keeps_or_insert_properties m v : keeps m (bt_or_insert "properties" v m).
Proof.
  split.
  - intros k _ _ Hs. rewrite bt_get_or_insert. destruct (String.eqb k "properties"); [by eexists|done].
  - intros ps Hps. exists ps. by rewrite bt_get_or_insert, String.eqb_refl, Hps.
Qed.

Lemma keeps_finish spec m : keeps m (walk_finish spec m).
Proof.
  unfold walk_finish. cbv zeta.
  set (m1 := if t_prune_dangling_required _ then _ else m).
  assert (H1 : keeps m m1) by (unfold m1; case_match; [apply keeps_prune|done]).
  set (m2 := if t_merge_all_of_branches _ then _ else m1).
  assert (H2 : keeps m1 m2) by (unfold m2; case_match; [apply keeps_merge|done]).
  do 2 (etransitivity; [eassumption|]). case_match; [apply keeps_or_insert_properties|done].
Qed.

Lemma flatten_branch_mono k st b n v :
  bt_get n st.1 = Some v → bt_get n (flatten_branch k st b).1 = Some v.
Proof.
  destruct st as [ps req]. unfold flatten_branch. destruct (as_object b); [|done]. cbn [fst].
  intros H. case_match; [by apply add_missing_get|done].
Qed.

Lemma flatten_root_merged m n v :
  bt_get n (object_at "properties" m) = Some v →
  bt_get n (f_merged_properties (flatten_root m)) = Some v.
Proof.
  intros H. unfold flatten_root.
  set (st0 := {| f_output := m |}).
  assert (H0 : bt_get n (f_merged_properties st0) = Some v) by done.
  clearbody st0. clear H. generalize ["oneOf"; "anyOf"; "allOf"]. intros ks. revert st0 H0.
  induction ks as [|k ks IH]; intros st H; [done|]. cbn [fold_left]. apply IH.
  unfold flatten_keyword. cbv zeta.
  destruct (bt_get k (f_output st)) as [[| | | |l|]|]; try done.
  assert (Hl : ∀ st', bt_get n st'.1 = Some v →
    bt_get n (fold_left (flatten_branch k) l st').1 = Some v).
  { induction l as [|b l IHl]; intros st' Hst'; [done|]. cbn [fold_left].
    by apply IHl, flatten_branch_mono. }
  specialize (Hl (f_merged_properties st, f_all_of_required st) H).
  by destruct (fold_left _ l _).
Qed.

Lemma keeps_flatten_top m m' :
  flatten_top_level_combiners (JObject m) = JObject m' → keeps m m'.
Proof.
  intros Hm'. pose proof (λ k, flatten_top_get m m' k Hm') as Hget.
  assert (Hroot : ∀ k, is_droppable k = false → is_root_combiner k = false).
  { intros k Hk. unfold is_root_combiner, has. cbn [existsb].
    destruct (String.eqb_spec k "oneOf") as [->|]; [done|].
    destruct (String.eqb_spec k "anyOf") as [->|]; [done|].
    by destruct (String.eqb_spec k "allOf") as [->|]. }
  split.
  - intros k Hd Hk Hs. rewrite Hget, Hroot by done.
    destruct (f_saw_combiner _), (String.eqb k "properties"), (String.eqb k "type"); done.
  - intros ps Hps. rewrite Hget, Hroot by done.
    destruct (f_saw_combiner _); [|by exists ps]. eexists. split; [done|].
    intros n v Hn. apply flatten_root_merged. unfold object_at. by rewrite Hps.
Qed.

(** ** Meaning *)

Lemma walk_object spec quirks m :
  walk spec quirks (JObject m) =
    JObject (walk_finish spec (fold_left (step spec quirks (walk spec quirks)) m [])).
Proof. done. Qed.

(** [out] is a later stage of the walk of [j]. *)
Definition stage_of (spec : DialectSpec) (quirks : LearnedQuirks) (j out : Json) : Prop :=
  ∀ m, j = JObject m →
    ∃ m', out = JObject m' ∧ keeps (fold_left (step spec quirks (walk spec quirks)) m []) m'.

Lemma stage_of_walk spec quirks j : stage_of spec quirks j (walk spec quirks j).
Proof. intros m ->. rewrite walk_object. eexists. split; [done|]. apply keeps_finish. Qed.

Lemma dropped_keywords_nil spec quirks f m m' path :
  keeps (fold_left (step spec quirks f) m []) m' → dropped_keywords m m' path = [].
Proof.
  intros [Hk _]. unfold dropped_keywords. apply flat_map_nil. intros key Hin.
  assert (Hd : is_droppable key = false).
  { unfold is_droppable. apply negb_false_iff, existsb_elem. exists key. by rewrite String.eqb_refl. }
  destruct (bt_contains key m) eqn:Hc; [|done]. destruct (String.eqb_spec key "required") as [->|Hr].
  { by rewrite andb_false_r. }
  apply bt_contains_true, bt_get_is_Some in Hc.
  assert (Hs : is_Some (bt_get key m')) by by apply Hk, steps_load_bearing.
  by rewrite (proj2 (bt_contains_true key m') Hs).
Qed.

Lemma compare_stage spec quirks j :
  wf_json j → ∀ out path, stage_of spec quirks j out → compare j out path = [].
Proof.
  revert j. apply (Json_children_ind (λ j, wf_json j → ∀ out path,
    stage_of spec quirks j out → compare j out path = [])).
  intros j IH Hw out path Hst. destruct j as [| | | | |m]; try done.
  destruct (Hst m eq_refl) as (m' & -> & Hk). cbn [compare].
  erewrite dropped_keywords_nil by done. cbn [app]. apply flat_map_nil. intros e He.
  destruct (String.eqb_spec e.1 "properties") as [Hp|]; [|done].
  destruct e as [k v]. simpl in Hp. subst k. cbn [snd]. destruct v as [| | | | |ops]; try done.
  destruct (bt_get "properties" m') as [[| | | | |nps]|] eqn:Hn; try done.
  pose proof (wf_object_inv _ Hw) as [Hm Hv]. apply bt_elem_get in He as Hg; [|done].
  assert (Hstep : bt_get "properties" (fold_left (step spec quirks (walk spec quirks)) m [])
                  = Some (JObject (bt_map (walk spec quirks) ops))) by by rewrite (steps_get _ _ _ _ _ _ Hm (load_bearing_kept _ _ "properties" eq_refl ltac:(done)) Hg).
  destruct (proj2 Hk _ Hstep) as (ps' & Hps' & Hget). rewrite Hn in Hps'. injection Hps' as ->.
  assert (Hwo : wf_json (JObject ops)) by by apply (Hv _ He).
  apply flat_map_nil. intros p Hpin.
  apply wf_object_inv in Hwo as Hwo'. destruct Hwo' as [Hops Hopv].
  rewrite (Hget p.1 (walk spec quirks p.2)).
  - assert (Hin : JObject ops ∈ children (JObject m)) by exact (elem_of_values _ _ He).
    apply (proj2 (IH _ Hin)); [simpl; auto with arterm|by apply Hopv|apply stage_of_walk].
  - rewrite bt_map_get. destruct p as [n c]. simpl.
    by rewrite (proj1 (bt_elem_get n c ops Hops) Hpin).
Qed.


(** ** Learned keywords *)

(** The keyword stands at no schema position. *)
Definition absent (keyword : string) : Json → bool :=
  every (λ k _, negb (String.eqb k keyword)) (λ _, true).

Lemma absent_pred kw : is_droppable kw = true → KeywordPred (λ k _, negb (String.eqb k kw)).
Proof.
  intros Hd. assert (H : ∀ k, is_droppable k = false → negb (String.eqb k kw) = true).
  { intros k Hk. apply negb_true_iff, String.eqb_neq. congruence. }
  constructor; [by intros; apply H..|done].
Qed.

Lemma root_rewrites_absent kw schema spec quirks :
  is_droppable kw = true → t_flatten_all_combiners (d_transforms spec) = false →
  schema_ok (λ k _, negb (String.eqb k kw)) (λ _, true) (walk spec quirks schema) →
  absent kw (apply_with_quirks schema spec quirks) = true.
Proof.
  intros Hd Hflat Hw. pose proof (absent_pred kw Hd) as Hpred.
  unfold apply_with_quirks. rewrite Hflat. cbv zeta.
  set (o := if t_flatten_top_level_combiners _ then _ else walk spec quirks schema).
  assert (Ho : absent kw o = true).
  { unfold o. destruct (t_flatten_top_level_combiners _); [|by destruct Hw].
    destruct (walk spec quirks schema) as [| | | | |m]; try by destruct Hw.
    destruct (flatten_top_level_combiners (JObject m)) as [| | | | |m'] eqn:Hf;
      try (cbn [flatten_top_level_combiners] in Hf; by destruct (f_saw_combiner _)).
    apply schema_ok_obj in Hw as [Hw _]. eapply flatten_top_obj_ok in Hw; [|done..].
    apply (schema_ok_obj (λ k _, negb (String.eqb k kw)) (λ _, true) m'). done. }
  clearbody o. destruct (t_require_properties_on_objects _); [|done].
  destruct (ensure_object_cases o) as [-> | ->]; [done|].
  unfold absent. cbn. rewrite andb_true_r. apply andb_true_iff. split.
  - pose proof (p_properties (KeywordPred := Hpred) JNull) as Hp. by rewrite andb_true_r.
  - pose proof (p_type (KeywordPred := Hpred) JNull) as Hp. by rewrite !andb_true_r.
Qed.

(** Memory: once a provider's rejection of a keyword has been learned, no schema normalized
    for that dialect has the keyword at a schema position any more.  The keyword must be one that
    may be dropped, and must not be [anyOf] on a dialect that renames [oneOf] to it. *)
Theorem learned_keyword_never_sent schema spec quirks keyword :
  is_droppable keyword = true → keyword ∈ q_rejected_keywords quirks →
  (keyword = "anyOf" → t_one_of_as_any_of (d_transforms spec) = false) →
  t_flatten_all_combiners (d_transforms spec) = false → wf_json schema →
  absent keyword (apply_with_quirks schema spec quirks) = true.
Proof.
  intros Hd Hin Hany Hflat Hw. apply root_rewrites_absent; [done..|].
  apply walk_every; [by apply absent_pred| |done|done].
  intros key v Hkeep _. apply negb_true_iff, String.eqb_neq. intros Heq.
  assert (Hq : has (q_rejected_keywords quirks) keyword = true).
  { apply existsb_elem. exists keyword. by rewrite String.eqb_refl. }
  unfold out_key_of in Heq. destruct (String.eqb_spec key "oneOf") as [->|Hk].
  - destruct (t_one_of_as_any_of _); simpl in Heq; subst keyword; [by specialize (Hany eq_refl)|].
    rewrite Hq, Hd, orb_true_r in Hkeep. done.
  - simpl in Heq. subst key. rewrite Hq, Hd, orb_true_r in Hkeep. done.
Qed.

(** ** Data is never walked *)

(** Data is moved verbatim: the value of a data keyword that the dialect keeps (a [default],
    [examples], [const], [required] before pruning) is unchanged after the loop over its object's
    keys; and names in a property map are never taken for keywords: the map keeps exactly its
    names, whatever they are. *)
Theorem data_never_walked spec quirks m :
  bt_wf m →
  let out := fold_left (step spec quirks (walk spec quirks)) m [] in
  (∀ k v, bt_get k m = Some v → keyword_role k = Data → kept spec quirks k →
          bt_get k out = Some v) ∧
  (∀ ps, bt_get "properties" m = Some (JObject ps) →
     bt_get "properties" out = Some (JObject (bt_map (walk spec quirks) ps)) ∧
     (bt_map (walk spec quirks) ps).*1 = ps.*1).
Proof.
  intros Hwf. split.
  - intros k v Hg Hr Hk. rewrite (steps_get spec quirks (walk spec quirks) m k v) by done.
    unfold normalize_value. by rewrite Hr.
  - intros ps Hps. split; [|apply bt_map_keys].
    by rewrite (steps_get _ _ _ m "properties" _ Hwf (load_bearing_kept _ _ "properties" eq_refl ltac:(done)) Hps).
Qed.
