(* ===== verification/SchemaLearning.v ===== *)
(** * [arterm-schema-dialect]: the theorems on recovery

    What one rejection teaches the store, that retries are bounded by what providers name, and
    that a retried request no longer contains what was rejected. *)

From S2P Require Export SchemaMeaning.

(** ** What the store knows *)

(** The constructs learned for a dialect: keywords on the left, formats on the right. *)
Definition constructs (q : LearnedQuirks) : gset (string + string) :=
  list_to_set (inl <$> q_rejected_keywords q) ∪ list_to_set (inr <$> q_rejected_formats q).

Definition known (spec : DialectSpec) (store : QuirkStore) : gset (string + string) :=
  constructs (learned_for (d_id spec) store).

(** The constructs an error text names. *)
Definition named (message : string) : gset (string + string) :=
  match classify message with
  | Some r => list_to_set (inl <$> r_keywords r) ∪ list_to_set (inr <$> option_list (r_format r))
  | None => ∅
  end.

Lemma has_elem l x : has l x = true ↔ x ∈ l.
Proof.
  unfold has. rewrite existsb_elem. split.
  - by intros (y & Hy & ->%String.eqb_eq).
  - intros H. exists x. by rewrite String.eqb_refl.
Qed.

Lemma elem_of_known_inl spec store k :
  inl k ∈ known spec store ↔ k ∈ q_rejected_keywords (learned_for (d_id spec) store).
Proof. unfold known, constructs. rewrite elem_of_union, !elem_of_list_to_set. set_solver. Qed.

Lemma elem_of_known_inr spec store f :
  inr f ∈ known spec store ↔ f ∈ q_rejected_formats (learned_for (d_id spec) store).
Proof. unfold known, constructs. rewrite elem_of_union, !elem_of_list_to_set. set_solver. Qed.

(** ** One call of [record] *)

Definition asked (keyword format : option string) : gset (string + string) :=
  list_to_set (inl <$> option_list keyword) ∪ list_to_set (inr <$> option_list format).

Definition entry_constructs (e : QuirkEntry) : gset (string + string) :=
  list_to_set (inl <$> e_rejected_keywords e) ∪ list_to_set (inr <$> e_rejected_formats e).

Lemma known_entry spec file :
  known spec (Some file) = entry_constructs (default no_entry (file !! d_id spec)).
Proof.
  unfold known, learned_for, with_store, learned_of. cbn. by destruct (file !! d_id spec).
Qed.

Lemma elem_of_entry x e :
  x ∈ entry_constructs e ↔
    match x with inl k => k ∈ e_rejected_keywords e | inr f => f ∈ e_rejected_formats e end.
Proof. unfold entry_constructs. rewrite elem_of_union, !elem_of_list_to_set. destruct x; set_solver. Qed.

Lemma elem_of_asked x keyword format :
  x ∈ asked keyword format ↔
    match x with inl k => keyword = Some k | inr f => format = Some f end.
Proof.
  unfold asked. rewrite elem_of_union, !elem_of_list_to_set.
  destruct keyword, format, x; simpl; set_solver.
Qed.

(** A guarded push. *)
Lemma push_spec (l : list string) x :
  (if has l x then (l, false) else ((l ++ [x])%list, true)) =
    (if bool_decide (x ∈ l) then l else (l ++ [x])%list, negb (bool_decide (x ∈ l))).
Proof.
  destruct (has l x) eqn:H.
  - apply has_elem in H. by rewrite bool_decide_true.
  - rewrite bool_decide_false; [done|]. rewrite <- has_elem. congruence.
Qed.

Lemma push_elem (l : list string) x y :
  y ∈ (if bool_decide (x ∈ l) then l else (l ++ [x])%list) ↔ y = x ∨ y ∈ l.
Proof. case_bool_decide; set_solver. Qed.

Lemma record_known spec keyword format file :
  keyword = None ∨ format = None →
  ∃ file', record (d_id spec) keyword format (Some file) =
             (Some file', negb (bool_decide (asked keyword format ⊆ known spec (Some file)))) ∧
           known spec (Some file') = asked keyword format ∪ known spec (Some file).
Proof.
  intros Hone. rewrite known_entry. set (e := default no_entry _).
  unfold record, with_store, record_in. fold e.
  destruct keyword as [k|]; [destruct format as [f|]; [by destruct Hone|]|destruct format as [f|]];
    rewrite ?push_spec; (eexists; split; [do 2 f_equal|rewrite known_entry, lookup_insert_eq; cbn]).
  all: try (apply bool_decide_ext; split; intros H; [intros x Hx%elem_of_asked|]).
  all: try (apply set_eq; intros x; rewrite elem_of_union, !elem_of_entry, elem_of_asked; cbn).
  all: try (destruct x; rewrite ?push_elem; naive_solver).
  all: try (destruct x; simplify_eq; by apply elem_of_entry).
  - apply (elem_of_entry (inl k)), H, elem_of_asked. done.
  - apply (elem_of_entry (inr f)), H, elem_of_asked. done.
  - symmetry. apply negb_false_iff, bool_decide_eq_true. intros x. rewrite elem_of_asked. by destruct x.
Qed.

(** ** One rejection *)

(** The descriptions grow exactly when the store does. *)
Definition grown (spec : DialectSpec) (file file' : QuirkFile) (d d' : list string) : Prop :=
  length d ≤ length d' ∧
  (length d < length d' ↔ known spec (Some file) ≠ known spec (Some file')).

Lemma one_construct_grown spec x file file' b d s :
  b = negb (bool_decide (x ⊆ known spec (Some file))) →
  known spec (Some file') = x ∪ known spec (Some file) →
  grown spec file file' d (if b then (d ++ [s])%list else d).
Proof.
  intros -> Hk. unfold grown. rewrite Hk. case_bool_decide as Hx; simpl.
  - split; [lia|]. split; [lia|]. intros []. set_solver.
  - rewrite length_app. simpl. split; [lia|]. split; [|lia]. intros _ Heq. set_solver.
Qed.

Lemma grown_trans spec file0 file1 file2 d0 d1 d2 :
  grown spec file0 file1 d0 d1 → grown spec file1 file2 d1 d2 →
  known spec (Some file0) ⊆ known spec (Some file1) →
  known spec (Some file1) ⊆ known spec (Some file2) → grown spec file0 file2 d0 d2.
Proof.
  intros [Hl1 Hg1] [Hl2 Hg2] Hs1 Hs2. split; [lia|]. split.
  - intros Hlt Heq. assert (H : length d0 < length d1 ∨ length d1 < length d2) by lia.
    destruct H as [H|H]; [apply Hg1 in H|apply Hg2 in H]; apply H; set_solver.
  - intros Hne. destruct (decide (known spec (Some file0) = known spec (Some file1))) as [Heq|Hne1].
    + rewrite Heq in Hne. apply Hg2 in Hne. lia.
    + apply Hg1 in Hne1. lia.
Qed.

Lemma learn_keywords_known spec kws d file :
  ∃ file' res, learn_keywords spec kws d (Some file) = (Some file', res) ∧
    known spec (Some file) ⊆ known spec (Some file') ∧
    known spec (Some file') ⊆ list_to_set (inl <$> kws) ∪ known spec (Some file) ∧
    match res with
    | inl action => ∃ hint, action = Unrecoverable hint
    | inr d' =>
        (∀ k, k ∈ kws → is_droppable k = true ∧ inl k ∈ known spec (Some file')) ∧
        grown spec file file' d d'
    end.
Proof.
  revert d file. induction kws as [|k kws IH]; intros d file; cbn [learn_keywords].
  { exists file, (inr d). split; [done|]. split; [done|]. split; [set_solver|].
    split; [set_solver|]. unfold grown. split; [done|]. split; [lia|done]. }
  destruct (is_droppable k) eqn:Hd; simpl negb; cbn iota.
  2: { exists file. eexists. split; [done|]. split; [done|]. split; [set_solver|]. by eexists. }
  destruct (record_known spec (Some k) None file) as (file1 & Hr & Hk1); [by right|].
  unfold record_keyword. rewrite Hr.
  set (d1 := if negb (bool_decide (asked (Some k) None ⊆ known spec (Some file))) then _ else d).
  destruct (IH d1 file1) as (file' & res & Hl & Hsub1 & Hsub2 & Hres).
  exists file', res. split; [apply Hl|].
  assert (Hin : inl k ∈ known spec (Some file1)) by (rewrite Hk1; apply elem_of_union_l, elem_of_asked; done).
  assert (Hask : asked (Some k) None ⊆ {[inl k]}).
  { intros x Hx%elem_of_asked. destruct x; simplify_eq. by apply elem_of_singleton. }
  assert (Hmono : known spec (Some file) ⊆ known spec (Some file1)) by (rewrite Hk1; apply union_subseteq_r).
  split; [by transitivity (known spec (Some file1))|].
  split; [rewrite Hk1 in Hsub2; clear -Hsub2 Hask; set_solver|].
  destruct res as [a|d']; [done|]. destruct Hres as [Hall Hgr]. split.
  - intros k' [->|Hk']%elem_of_cons; [|by apply Hall]. split; [done|by apply Hsub1].
  - eapply grown_trans; [by eapply one_construct_grown|exact Hgr|done..].
Qed.

(** What [recover_from_error] does to a store, by its action. *)
Lemma recover_known message spec file :
  ∃ file' action, recover_from_error message spec (Some file) = (Some file', action) ∧
    known spec (Some file) ⊆ known spec (Some file') ∧
    known spec (Some file') ⊆ named message ∪ known spec (Some file) ∧
    match action with
    | RetryWithoutConstruct _ =>
        known spec (Some file) ≠ known spec (Some file') ∧ named message ⊆ known spec (Some file') ∧
        ∀ k, inl k ∈ named message → is_droppable k = true
    | NotSchemaRelated => classify message = None ∧ file' = file
    | Unrecoverable _ => True
    end.
Proof.
  unfold recover_from_error, named. destruct (classify message) as [r|].
  2: { eexists file, _. split; [done|]. split; [done|]. split; [set_solver|].
       by destruct (is_schema_error message). }
  destruct (learn_keywords_known spec (r_keywords r) [] file) as (file1 & res & Hl & H1 & H2 & H3).
  rewrite Hl. destruct res as [a|d1].
  { destruct H3 as [hint ->]. eexists file1, _. split; [done|]. split; [done|].
    split; [clear -H2; set_solver|done]. }
  destruct H3 as [Hall Hgr1].
  assert (Hfmt : ∃ file2 d2, learn_format spec (r_format r) d1 (Some file1) = (Some file2, d2) ∧
    known spec (Some file2) = asked None (r_format r) ∪ known spec (Some file1) ∧
    grown spec file1 file2 d1 d2).
  { destruct (r_format r) as [f|]; cbn [learn_format].
    - destruct (record_known spec None (Some f) file1) as (file2 & Hr & Hk); [by left|].
      unfold record_format. rewrite Hr. eexists file2, _. split; [done|]. split; [done|].
      by eapply one_construct_grown.
    - exists file1, d1. split; [done|]. split.
      + symmetry. apply subseteq_union_1_L. intros x Hx%elem_of_asked. by destruct x.
      + unfold grown. split; [done|]. split; [lia|done]. }
  destruct Hfmt as (file2 & d2 & Hf & Hk2 & Hgr2). rewrite Hf.
  assert (Hm2 : known spec (Some file1) ⊆ known spec (Some file2)) by (rewrite Hk2; apply union_subseteq_r).
  pose proof (grown_trans spec file file1 file2 [] d1 d2 Hgr1 Hgr2 H1 Hm2) as [_ Hgr].
  assert (Hsub : known spec (Some file2) ⊆
    (list_to_set (inl <$> r_keywords r) ∪ list_to_set (inr <$> option_list (r_format r)))
    ∪ known spec (Some file)).
  { rewrite Hk2. unfold asked. clear -H2. set_solver. }
  assert (Hmono : known spec (Some file) ⊆ known spec (Some file2)) by by transitivity (known spec (Some file1)).
  destruct d2 as [|s d2]; eexists file2, _; (split; [done|]; split; [done|]; split; [done|]); [done|].
  split; [apply Hgr; simpl; lia|]. split.
  - intros x Hx%elem_of_union. rewrite Hk2. destruct Hx as [Hx|Hx].
    + apply elem_of_list_to_set, list_elem_of_fmap in Hx as (k & -> & Hk).
      apply elem_of_union_r. by apply Hall.
    + apply elem_of_union_l. unfold asked. by apply elem_of_union_r.
  - intros k [Hk|Hk]%elem_of_union; apply elem_of_list_to_set, list_elem_of_fmap in Hk as (k' & [= <-] & Hk).
    by apply Hall.
Qed.

(** ** Retries are bounded *)

(** The actions for a sequence of error texts. *)
Fixpoint recover_all (messages : list string) (spec : DialectSpec) (store : QuirkStore) :
    list RecoveryAction :=
  match messages with
  | [] => []
  | message :: rest =>
      let '(store, action) := recover_from_error message spec store in
      action :: recover_all rest spec store
  end.

Definition is_retry (a : RecoveryAction) : bool :=
  match a with RetryWithoutConstruct _ => true | _ => false end.

Definition retries (l : list RecoveryAction) : nat := length (List.filter is_retry l).

Definition named_by (messages : list string) : gset (string + string) := ⋃ (named <$> messages).

Lemma retries_bounded_by messages spec file :
  retries (recover_all messages spec (Some file)) ≤ size (named_by messages ∖ known spec (Some file)).
Proof.
  revert file. induction messages as [|message rest IH]; intros file; [unfold retries; simpl; lia|].
  cbn [recover_all]. destruct (recover_known message spec file) as (file' & a & Hr & H1 & H2 & H3).
  rewrite Hr. specialize (IH file').
  assert (Hn : named_by (message :: rest) = named message ∪ named_by rest) by done.
  assert (Hsub : named_by rest ∖ known spec (Some file') ⊆ named_by (message :: rest) ∖ known spec (Some file)).
  { rewrite Hn. clear -H1. set_solver. }
  unfold retries in *. cbn [List.filter]. destruct (is_retry a) eqn:Ha.
  2: { pose proof (subseteq_size _ _ Hsub). lia. }
  destruct a as [|d|]; try done. destruct H3 as (Hne & _ & _). cbn [length].
  assert (Hlt : named_by rest ∖ known spec (Some file') ⊂ named_by (message :: rest) ∖ known spec (Some file)).
  { split; [done|]. intros Hback. apply Hne, set_eq. intros x. split; [apply H1|]. intros Hx.
    destruct (decide (x ∈ known spec (Some file))) as [|Hnx]; [done|]. exfalso.
    assert (Hin : x ∈ named_by (message :: rest) ∖ known spec (Some file)).
    { rewrite Hn. clear -H2 Hx Hnx. set_solver. }
    apply Hback in Hin. clear -Hin Hx. set_solver. }
  apply subset_size in Hlt. lia.
Qed.

(** Recovery is bounded: over any sequence of errors, a dialect asks for a retry at most once
    per distinct construct that the errors name (and never for one it already knew). *)
Theorem retries_bounded messages spec file :
  retries (recover_all messages spec (Some file)) ≤ size (named_by messages).
Proof.
  etransitivity; [apply retries_bounded_by|]. apply subseteq_size. set_solver.
Qed.

(** A retry is worth it: when a rejection leads to a retry, the schemas of the next request
    have none of the rejected keywords at a schema position, whatever the tool and whatever was
    known before. *)
Theorem retry_omits_rejected message spec file store' description schema keyword :
  recover_from_error message spec (Some file) = (store', RetryWithoutConstruct description) →
  inl keyword ∈ named message →
  (keyword = "anyOf" → t_one_of_as_any_of (d_transforms spec) = false) →
  t_flatten_all_combiners (d_transforms spec) = false → wf_json schema →
  absent keyword (normalize schema spec store') = true.
Proof.
  intros Hr Hin Hany Hflat Hw.
  destruct (recover_known message spec file) as (file' & a & Hr' & _ & _ & H3).
  rewrite Hr in Hr'. injection Hr' as -> <-. destruct H3 as (_ & Hsub & Hdrop).
  assert (Hk : keyword ∈ q_rejected_keywords (learned_for (d_id spec) (Some file'))).
  { by apply elem_of_known_inl, Hsub. }
  unfold normalize. destruct (quirks_is_empty _) eqn:He.
  - unfold quirks_is_empty in He.
    destruct (q_rejected_keywords _); [by apply not_elem_of_nil in Hk|done].
  - apply learned_keyword_never_sent; auto.
Qed.
