(* ===== verification/SchemaFlatten.v ===== *)
(** * [arterm-schema-dialect]: flattening everywhere, recognition, and what does not hold

    Well-formedness of the result for every dialect; what [flatten_all_combiners] keeps of a
    tool's parameters; recognition of the keyword Gemini names; and the inputs on which the code
    falls short of its comments, each checked by evaluation. *)

From S2P Require Export SchemaLearning.

(** ** Well-formedness for every dialect *)

Notation any_key := (λ (_ : string) (_ : Json), true).
Notation any_obj := (λ _ : Obj, true).

#[export] Instance any_key_pred : KeywordPred any_key.
Proof. by constructor. Qed.

Lemma every_any j : every any_key any_obj j = true.
Proof.
  apply (Json_children_ind (λ j, every any_key any_obj j = true)). clear j.
  intros j IH. destruct j as [| | | |l|m]; try done; cbn [every].
  - apply forallb_elem. intros x Hx. by apply IH.
  - rewrite andb_true_r. apply forallb_elem. intros e He. cbn [andb].
    assert (Hin : e.2 ∈ children (JObject m)) by (simpl; auto with arterm).
    destruct (IH _ Hin) as [He2 Hd]. unfold role_all.
    destruct (keyword_role e.1); [done|..|done].
    + destruct e.2 eqn:Hv; try done. apply forallb_elem. intros c Hc. apply Hd. simpl. auto with arterm.
    + destruct e.2; done.
Qed.

Lemma schema_ok_any j : schema_ok any_key any_obj j ↔ wf_json j.
Proof. unfold schema_ok. split; [by intros []|]. intros H. split; [done|]. apply every_any. Qed.

Lemma obj_ok_any m : obj_ok any_key any_obj m ↔ wf_json (JObject m).
Proof. rewrite <- schema_ok_any, schema_ok_obj. tauto. Qed.

Lemma wf_insert k v m : wf_json (JObject m) → wf_json v → wf_json (JObject (bt_insert k v m)).
Proof.
  intros [Hm Hv]%wf_object_inv Hw. constructor; [auto with arterm|].
  intros e [->|He]%bt_elem_insert; [done|by apply Hv].
Qed.

Lemma wf_get k v m : wf_json (JObject m) → bt_get k m = Some v → wf_json v.
Proof. intros [_ Hv]%wf_object_inv Hg%bt_get_Some_elem. by apply (Hv (k, v)). Qed.

Lemma wf_prune m : wf_json (JObject m) → wf_json (JObject (prune_dangling_required m)).
Proof. rewrite <- !obj_ok_any. by apply obj_ok_prune. Qed.

Lemma wf_add_missing acc m : wf_json (JObject acc) → wf_json (JObject m) → wf_json (JObject (add_missing acc m)).
Proof.
  intros Hacc [_ Hm]%wf_object_inv. unfold add_missing. revert acc Hacc Hm.
  induction m as [|e m IH]; intros acc Hacc Hm; [done|]. cbn [fold_left]. apply IH.
  - unfold bt_or_insert. destruct (bt_get e.1 acc); [done|]. apply wf_insert; [done|]. apply Hm. by left.
  - intros x Hx. apply Hm. by right.
Qed.

Lemma wf_merge_property a b : wf_json a → wf_json b → wf_json (merge_property a b).
Proof. destruct a, b; simpl; try done. intros Ha Hb. by apply wf_add_missing. Qed.

Lemma wf_union l existing :
  wf_json (JObject existing) → (∀ e, e ∈ l → wf_json e.2) →
  wf_json (JObject (fold_left union_property l existing)).
Proof.
  revert existing. induction l as [|e l IH]; intros ex Hex Hl; [done|]. cbn [fold_left].
  apply IH; [|intros x Hx; apply Hl; by right]. assert (He : wf_json e.2) by (apply Hl; by left).
  unfold union_property. destruct (bt_get e.1 ex) as [p|] eqn:Hg; [|by apply wf_insert].
  apply wf_insert; [done|]. apply wf_merge_property; [|done]. eauto using wf_get.
Qed.

Lemma wf_merge_sibling c m e :
  wf_json (JObject m) → wf_json e.2 → wf_json (JObject (merge_sibling c m e)).
Proof.
  destruct e as [k v]. cbn [snd]. intros Hm Hv. unfold merge_sibling. destruct (String.eqb k c); [done|].
  destruct (bt_get k m) as [w|] eqn:Hg; [|by apply wf_insert].
  destruct w; try done. destruct v; try done. destruct (String.eqb k "properties"); [|done].
  apply wf_insert; [done|]. apply wf_union; [eauto using wf_get|]. by apply wf_object_inv in Hv as [_ ?].
Qed.

Lemma wf_merge_siblings c l m :
  wf_json (JObject m) → (∀ e, e ∈ l → wf_json e.2) →
  wf_json (JObject (fold_left (merge_sibling c) l m)).
Proof.
  revert m. induction l as [|e l IH]; intros m Hm Hl; [done|]. cbn [fold_left].
  apply IH; [|intros x Hx; apply Hl; by right]. apply wf_merge_sibling; [done|]. apply Hl. by left.
Qed.

Lemma wf_flatten_object cs m flat :
  wf_json (JObject flat) → wf_json (flatten_object cs m flat).
Proof.
  intros Hf. induction cs as [|c cs IH]; [done|]. cbn [flatten_object].
  destruct (bt_get c m) as [[| | | |[|]|]|]; try done.
  destruct (bt_get c flat) as [w|] eqn:Hg; [|done]. destruct w as [| | | |[|first rest]|]; try done.
  assert (Hfirst : wf_json first).
  { apply (wf_array_inv (first :: rest)); [eauto using wf_get|by left]. }
  destruct first as [| | | | |branch]; try done.
  apply wf_prune, wf_merge_siblings; [done|]. by apply wf_object_inv in Hf as [_ ?].
Qed.

Lemma wf_flatten_all j : wf_json j → wf_json (flatten_all_combiners j).
Proof.
  induction j as [| | | |l IH|m IH]; intros Hw; try done; cbn [flatten_all_combiners].
  - constructor. intros x (y & <- & Hy)%list_elem_of_In%in_map_iff. apply list_elem_of_In in Hy.
    apply IH; [done|]. eauto using wf_array_inv.
  - apply wf_flatten_object. apply wf_object_inv in Hw as [Hm Hv].
    constructor; [auto with arterm|]. intros e (e' & He & ->)%bt_elem_map. apply IH; [done|by apply Hv].
Qed.

Lemma wf_ensure_object j : wf_json j → wf_json (ensure_object j).
Proof.
  intros Hw. destruct (ensure_object_cases j) as [-> | ->]; [done|].
  apply (empty_object_schema_normal OPENAI).
Qed.

(** The rewrites stay within the type: for every dialect and every store of quirks, a JSON
    value whose objects have their keys in strictly increasing order is taken to one that has. *)
Theorem apply_well_formed schema spec quirks :
  wf_json schema → wf_json (apply_with_quirks schema spec quirks).
Proof.
  intros Hw. unfold apply_with_quirks. cbv zeta.
  assert (Hwalk : wf_json (walk spec quirks schema)).
  { apply schema_ok_any. by apply (walk_every any_key any_obj). }
  assert (Htop : wf_json (flatten_top_level_combiners (walk spec quirks schema))).
  { destruct (walk spec quirks schema) as [| | | | |m]; try done.
    destruct (flatten_top_level_combiners (JObject m)) as [| | | | |m'] eqn:Hf;
      try (cbn [flatten_top_level_combiners] in Hf; by destruct (f_saw_combiner _)).
    apply obj_ok_any. apply (flatten_top_obj_ok any_key any_obj m m'); [|done]. by apply obj_ok_any. }
  set (o := if t_flatten_all_combiners _ then _ else _).
  assert (Ho : wf_json o) by (unfold o; repeat case_match; [by apply wf_flatten_all|done..]).
  case_match; [by apply wf_ensure_object|done].
Qed.

(** ** Flattening keeps the parameters *)

Lemma union_property_keys ex e n :
  bt_contains n (union_property ex e) = String.eqb n e.1 || bt_contains n ex.
Proof.
  apply bool_eq_iff. rewrite orb_true_iff, !bt_contains_true, String.eqb_eq.
  unfold union_property. destruct (bt_get e.1 ex); rewrite bt_get_insert;
    destruct (String.eqb_spec n e.1); naive_solver.
Qed.

Lemma union_keys l ex n :
  bt_contains n (fold_left union_property l ex) = true ↔ bt_contains n ex = true ∨ n ∈ l.*1.
Proof.
  revert ex. induction l as [|e l IH]; intros ex; [cbn; set_solver|]. cbn [fold_left fmap list_fmap].
  rewrite IH, union_property_keys, orb_true_iff, String.eqb_eq, elem_of_cons. tauto.
Qed.

Lemma merge_sibling_other c m e k : e.1 ≠ k → bt_get k (merge_sibling c m e) = bt_get k m.
Proof.
  destruct e as [k' v]. cbn [fst]. intros Hk. unfold merge_sibling. destruct (String.eqb k' c); [done|].
  repeat case_match; rewrite ?bt_get_insert_ne; done.
Qed.

Lemma merge_siblings_other c l m k :
  k ∉ l.*1 → bt_get k (fold_left (merge_sibling c) l m) = bt_get k m.
Proof.
  revert m. induction l as [|e l IH]; intros m Hk; [done|]. cbn [fold_left fmap list_fmap] in *.
  rewrite IH, merge_sibling_other; [done|..]; set_solver.
Qed.

Lemma merge_siblings_at c l1 l2 m k v :
  bt_wf (l1 ++ (k, v) :: l2) →
  bt_get k (fold_left (merge_sibling c) (l1 ++ (k, v) :: l2) m) =
    bt_get k (merge_sibling c (fold_left (merge_sibling c) l1 m) (k, v)).
Proof.
  intros Hwf. rewrite fold_left_app. cbn [fold_left]. apply merge_siblings_other.
  apply bt_wf_app_inv in Hwf as (_ & [_ Hlt]%bt_wf_cons_inv & _).
  intros Hin. by apply Hlt, key_lt_irrefl in Hin.
Qed.

(** Collapsing a combiner drops no parameter: when an object with a property map is replaced by
    the first branch of its first combiner, the result declares exactly the properties of the
    branch and of the object, whichever side each comes from. *)
Theorem flatten_keeps_parameters m branches first branch own theirs :
  bt_wf m →
  bt_get "anyOf" m = Some (JArray (first :: branches)) →
  flatten_all_combiners first = JObject branch →
  bt_get "properties" m = Some (JObject own) →
  flatten_all_combiners (JObject own) = JObject (bt_map flatten_all_combiners own) →
  bt_get "properties" branch = Some (JObject theirs) →
  ∃ out props,
    flatten_all_combiners (JObject m) = JObject out ∧
    bt_get "properties" out = Some (JObject props) ∧
    ∀ name, bt_contains name props = true ↔
            bt_contains name theirs = true ∨ bt_contains name own = true.
Proof.
  intros Hwf Hany Hfirst Hown Hflat Htheirs.
  cbn [flatten_all_combiners flatten_object COMBINERS]. rewrite Hany, bt_map_get, Hany.
  cbn [fmap option_fmap option_map flatten_all_combiners map]. rewrite Hfirst.
  set (flat := bt_map (λ j, flatten_all_combiners j) m).
  assert (Hwff : bt_wf flat) by by apply bt_wf_map.
  assert (Hin : ("properties", JObject (bt_map flatten_all_combiners own)) ∈ flat).
  { apply bt_elem_get; [done|]. unfold flat. by rewrite bt_map_get, Hown, <- Hflat. }
  apply list_elem_of_split in Hin as (l1 & l2 & Heq). rewrite Heq in *.
  assert (Hl1 : "properties" ∉ l1.*1).
  { apply bt_wf_app_inv in Hwff as (_ & _ & Hlt). intros Hin.
    apply (key_lt_irrefl "properties"), Hlt; [done|]. by left. }
  eexists _, (fold_left union_property (bt_map flatten_all_combiners own) theirs).
  split; [done|]. split.
  - rewrite prune_get, merge_siblings_at by done. unfold merge_sibling at 1. cbn [String.eqb].
    rewrite merge_siblings_other, Htheirs by done. simpl. by rewrite bt_get_insert_eq.
  - intros name. rewrite union_keys, bt_map_keys, <- bt_get_is_Some.
    by rewrite (bt_contains_true name own).
Qed.

(** ** Recognition of the keyword Gemini names *)

(** The characters of a keyword in an error text: no white space, quote or backslash. *)
Definition token_char (c : ascii) : bool := solid c && negb (is_quote c) && negb (is_backslash c).

Definition is_token (s : string) : bool := negb (is_empty s) && string_forallb token_char s.

Lemma string_snoc (s : string) : s ≠ "" → ∃ t c, s = t +:+ str1 c.
Proof.
  induction s as [|a s IH]; [done|]. intros _. destruct (decide (s = "")) as [->|Hs].
  - by exists "", a.
  - destruct (IH Hs) as (t & c & ->). by exists (String a t), c.
Qed.

Lemma token_bounds s :
  is_token s = true →
  ∃ c1 t1 t2 c2, s = String c1 t1 ∧ s = t2 +:+ str1 c2 ∧ token_char c1 = true ∧ token_char c2 = true.
Proof.
  unfold is_token. intros [Hne Hall]%andb_true_iff. apply negb_true_iff, is_empty_false in Hne.
  destruct (string_snoc s Hne) as (t2 & c2 & Hs). destruct s as [|c1 t1]; [done|].
  exists c1, t1, t2, c2. split; [done|]. split; [done|]. split.
  - simpl in Hall. by apply andb_true_iff in Hall as [? _].
  - rewrite Hs, string_forallb_app in Hall. apply andb_true_iff in Hall as [_ Hall].
    simpl in Hall. by rewrite andb_true_r in Hall.
Qed.

Lemma token_char_inv c : token_char c = true → solid c = true ∧ is_backslash c = false.
Proof. unfold token_char. intros H. by simp_bool. Qed.

Lemma clean_token_id s : is_token s = true → clean_token s = Some s.
Proof.
  intros Hs. destruct (token_bounds s Hs) as (c1 & t1 & t2 & c2 & H1 & H2 & Hc1 & Hc2).
  apply token_char_inv in Hc1 as [Hs1 Hb1]. apply token_char_inv in Hc2 as [Hs2 Hb2].
  assert (Htrim : trim s = s).
  { pose proof (trim_padded "" s "" c1 t1 c2 t2) as H. rewrite str_app_nil_r in H. by apply H. }
  assert (Hb : trim_backslashes s = s).
  { unfold trim_backslashes. replace (drop_while is_backslash s) with s.
    - pose proof (trim_end_matches_tail is_backslash s "" c2 t2) as H. rewrite str_app_nil_r in H.
      by apply H.
    - rewrite H1. simpl. by rewrite Hb1. }
  unfold clean_token. rewrite Htrim, Hb, Htrim. by rewrite H1.
Qed.

Lemma find_char_app f a c b :
  string_forallb (λ x, negb (f x)) a = true → f c = true →
  find_char f (a +:+ String c b) = Some (String.length a, c).
Proof.
  induction a as [|x a IH]; cbn [string_forallb String.length]; intros Ha Hc.
  - change ("" +:+ String c b) with (String c b). simpl. by rewrite Hc.
  - apply andb_true_iff in Ha as [Hx%negb_true_iff Ha].
    change (String x a +:+ String c b) with (String x (a +:+ String c b)). cbn [find_char].
    by rewrite Hx, IH.
Qed.

Lemma extract_all_head fuel rest marker x l :
  head (extract_all_from fuel rest marker (x :: l)) = Some x.
Proof.
  revert rest l. induction fuel as [|fuel IH]; intros rest l; cbn [extract_all_from]; [done|].
  destruct (str_find marker rest); [|done].
  destruct (extract_quoted_after _ _); [|apply IH]. destruct (has _ _); apply IH.
Qed.

Lemma extract_all_first message marker n token :
  str_find marker message = Some n →
  extract_quoted_after (str_drop n message) marker = Some token →
  head (extract_all_quoted_after message marker) = Some token.
Proof.
  intros Hf Ht. unfold extract_all_quoted_after. cbn [extract_all_from].
  rewrite Hf, Ht. apply extract_all_head.
Qed.

Lemma contains_app_r p a b : contains p b = true → contains p (a +:+ b) = true.
Proof.
  rewrite !contains_iff. intros (u & v & ->). exists (a +:+ u), v. by rewrite str_app_assoc.
Qed.

(** The text of a Gemini rejection, with anything before and after the quoted keyword. *)
Definition gemini_error (keyword tail : string) : string :=
  "Invalid JSON payload received. " +:+
  ("Unknown name " +:+ str1 dquote +:+ keyword +:+ str1 dquote +:+ tail).

Lemma gemini_find r :
  str_find "Unknown name" ("Invalid JSON payload received. " +:+ ("Unknown name " +:+ r)) =
    Some (String.length "Invalid JSON payload received. ").
Proof. vm_compute. reflexivity. Qed.

Lemma gemini_quoted keyword tail :
  is_token keyword = true →
  extract_quoted_after ("Unknown name " +:+ str1 dquote +:+ keyword +:+ str1 dquote +:+ tail) "Unknown name"
  = Some keyword.
Proof.
  intros Hk. set (r := keyword +:+ str1 dquote +:+ tail). unfold extract_quoted_after.
  assert (Hfind : str_find "Unknown name" ("Unknown name " +:+ str1 dquote +:+ r) = Some 0) by done.
  rewrite Hfind.
  change (str_drop (0 + String.length "Unknown name") ("Unknown name " +:+ str1 dquote +:+ r))
    with (" " +:+ String dquote r).
  change (find_char is_quote (" " +:+ String dquote r)) with (Some (1, dquote)). cbv beta iota.
  change (str_drop 2 (" " +:+ String dquote r)) with r. unfold r.
  change (str1 dquote +:+ tail) with (String dquote tail).
  rewrite (find_char_app (Ascii.eqb dquote) keyword dquote tail).
  - rewrite str_take_app. by apply clean_token_id.
  - apply andb_true_iff in Hk as [_ Hk]. eapply string_forallb_impl; [|exact Hk].
    intros c Hc. unfold token_char, is_quote in Hc. simp_bool. by rewrite Ascii.eqb_sym, H2.
  - done.
Qed.

Lemma gemini_error_eq keyword tail :
  gemini_error keyword tail =
    "Invalid JSON payload received. " +:+
    ("Unknown name " +:+ (str1 dquote +:+ (keyword +:+ (str1 dquote +:+ tail)))).
Proof. reflexivity. Qed.

Lemma gemini_names keyword tail :
  is_token keyword = true →
  head (extract_all_quoted_after (gemini_error keyword tail) "Unknown name") = Some keyword.
Proof.
  intros Hk. apply (extract_all_first _ _ (String.length "Invalid JSON payload received. "));
    rewrite gemini_error_eq; [apply gemini_find|]. rewrite str_drop_app. by apply gemini_quoted.
Qed.

(** Every keyword that Gemini names in its rejection of a payload is recognized, whatever it is
    and wherever in the request it stood. *)
Theorem gemini_rejection_recognized keyword tail :
  is_token keyword = true → contains "Cannot find field" tail = true →
  ∃ r, classify (gemini_error keyword tail) = Some r ∧ rejection_keyword r = Some keyword ∧
       is_actionable r = true.
Proof.
  intros Hk Htail. assert (Hc : contains "Cannot find field" (gemini_error keyword tail) = true).
  { rewrite gemini_error_eq. by do 5 apply contains_app_r. }
  pose proof (gemini_names keyword tail Hk) as Hnames.
  generalize dependent (gemini_error keyword tail). intros message Hc Hnames.
  unfold classify. rewrite Hc. cbv zeta.
  destruct (extract_all_quoted_after message "Unknown name") as [|k l]; [done|].
  injection Hnames as ->. by eexists.
Qed.

(** * [arterm-schema-dialect]: concrete inputs

    Instances of the theorems at the tools of the filed issues, and the inputs on which the code
    does less than its comments say. *)

(** A JSON value is well formed when its keys are sorted: decided for the examples. *)
Fixpoint sorted_keys (l : list string) : bool :=
  match l with
  | a :: ((b :: _) as l') => String.ltb a b && sorted_keys l'
  | _ => true
  end.

Fixpoint wf_jsonb (j : Json) : bool :=
  match j with
  | JObject m => sorted_keys (m.*1) && forallb (λ e, wf_jsonb e.2) m
  | JArray l => forallb wf_jsonb l
  | _ => true
  end.

Lemma sorted_keys_wf {V} (m : list (string * V)) : sorted_keys (m.*1) = true → bt_wf m.
Proof.
  intros H. apply Sorted_StronglySorted; [intros x y z; apply key_lt_trans|].
  induction (m.*1) as [|a l IH]; [constructor|]. destruct l as [|b l]; [by repeat constructor|].
  simpl in H. apply andb_true_iff in H as [Hab H]. constructor; [by apply IH|by constructor].
Qed.

Lemma wf_jsonb_sound j : wf_jsonb j = true → wf_json j.
Proof.
  induction j as [| | | |l IH|m IH]; cbn [wf_jsonb]; intros Hj; constructor.
  - intros x Hx. rewrite forallb_elem in Hj. by apply IH, Hj.
  - apply andb_true_iff in Hj as [Hj _]. by apply sorted_keys_wf.
  - apply andb_true_iff in Hj as [_ Hj]. rewrite forallb_elem in Hj.
    intros e He. by apply IH, Hj.
Qed.

(** The tool of the crate's own conformance test: an unlisted format, [uniqueItems],
    [propertyNames], a vendor keyword, a dangling [required]. *)
Definition hostile : Json :=
  JObject
    [("$schema", JString "https://json-schema.org/draft/2020-12/schema");
     ("properties", JObject
        [("data", JObject [("additionalProperties", JObject [("type", JString "string")]);
                           ("propertyNames", JObject [("type", JString "string")]);
                           ("type", JString "object")]);
         ("ids", JObject [("items", JObject [("type", JString "string")]);
                          ("type", JString "array"); ("uniqueItems", JBool true)]);
         ("url", JObject [("format", JString "uri"); ("type", JString "string")]);
         ("weird", JObject [("type", JString "string");
                            ("x-vendor", JObject [("nested", JBool true)])])]);
     ("required", JArray [JString "url"; JString "ghost"]);
     ("type", JString "object")].

Example hostile_raw : length (must_not_contain_unsupported_constructs hostile GEMINI) = 6.
Proof. by vm_compute. Qed.

Example hostile_required :
  match apply hostile GEMINI with
  | JObject m => bt_get "required" m
  | _ => None
  end = Some (JArray [JString "url"]).
Proof. by vm_compute. Qed.

Lemma apply_conforms_witness :
  coherent GEMINI ∧ wf_json hostile ∧
  must_not_contain_unsupported_constructs (apply_with_quirks hostile GEMINI no_quirks) GEMINI = [].
Proof.
  split; [by split|]. split; [by apply wf_jsonb_sound|].
  apply (apply_conforms hostile GEMINI no_quirks); [by split|done|by apply wf_jsonb_sound].
Defined.

Lemma apply_idempotent_witness :
  apply hostile ANTHROPIC ≠ hostile ∧ apply (apply hostile ANTHROPIC) ANTHROPIC = apply hostile ANTHROPIC.
Proof.
  split; [by vm_compute|].
  apply (apply_idempotent hostile ANTHROPIC no_quirks); [by split|done|by apply wf_jsonb_sound].
Defined.


Lemma learned_keyword_never_sent_witness :
  absent "additionalProperties" (apply hostile OPENAI) = false ∧
  absent "additionalProperties" (apply_with_quirks hostile OPENAI
    {| q_rejected_keywords := ["additionalProperties"]; q_rejected_formats := [] |}) = true.
Proof.
  split; [by vm_compute|].
  apply (learned_keyword_never_sent hostile OPENAI _ "additionalProperties");
    [done|by left|done|done|by apply wf_jsonb_sound].
Defined.

Definition data_fields : Obj :=
  [("default", JObject [("type", JString "x"); ("uniqueItems", JBool true)]);
   ("properties", JObject [("uniqueItems", JObject [("type", JString "string")])])].

Lemma data_never_walked_witness :
  bt_get "default" (fold_left (step GEMINI no_quirks (walk GEMINI no_quirks)) data_fields []) =
    Some (JObject [("type", JString "x"); ("uniqueItems", JBool true)]).
Proof.
  refine (proj1 (data_never_walked GEMINI no_quirks data_fields _) "default" _ _ _ _);
    [by apply sorted_keys_wf|done|done|by split_and!].
Defined.

Lemma apply_well_formed_witness : wf_json (apply_with_quirks hostile ANTIGRAVITY_CLAUDE no_quirks).
Proof. apply apply_well_formed. by apply wf_jsonb_sound. Defined.

(** A tool whose shared parameters are declared beside its combiner. *)
Definition swarm_tool : Obj :=
  [("anyOf", JArray [JObject [("properties", JObject [("action", JObject [("enum", JArray [JString "spawn"])])]);
                              ("required", JArray [JString "action"])]]);
   ("properties", JObject [("action", JObject [("description", JString "what to do"); ("type", JString "string")]);
                           ("task", JObject [("type", JString "string")])]);
   ("type", JString "object")].

Lemma flatten_keeps_parameters_witness :
  ∃ out props,
    flatten_all_combiners (JObject swarm_tool) = JObject out ∧
    bt_get "properties" out = Some (JObject props) ∧
    ∀ name, bt_contains name props = true ↔
            bt_contains name [("action", JObject [("enum", JArray [JString "spawn"])])] = true ∨
            bt_contains name [("action", JObject [("description", JString "what to do"); ("type", JString "string")]);
                              ("task", JObject [("type", JString "string")])] = true.
Proof.
  eapply flatten_keeps_parameters; [by apply sorted_keys_wf|done..].
Defined.

(** The error of issue 754. *)
Definition unknown_name_error : string :=
  gemini_error "propertyNames" " at 'request.tools[0].function_declarations[32]': Cannot find field.".

Lemma gemini_rejection_recognized_witness :
  ∃ r, classify unknown_name_error = Some r ∧ rejection_keyword r = Some "propertyNames" ∧
       is_actionable r = true.
Proof. apply gemini_rejection_recognized; by vm_compute. Defined.

Definition after_error : QuirkStore :=
  Some {[ "anthropic" := {| e_rejected_keywords := ["propertyNames"]; e_rejected_formats := [] |} ]}.

Lemma retry_omits_rejected_witness :
  absent "propertyNames" (normalize hostile ANTHROPIC (Some ∅)) = false ∧
  absent "propertyNames" (normalize hostile ANTHROPIC after_error) = true.
Proof.
  split; [by vm_compute|].
  eapply (retry_omits_rejected unknown_name_error ANTHROPIC ∅ after_error); [by vm_compute| |done|done|by apply wf_jsonb_sound].
  apply (bool_decide_unpack _). by vm_compute.
Defined.

(** ** Inputs on which the code does less than it says *)

(** Merging a property declared by both sides joins the keys of the two: the branch's [required]
    can end up beside the object's [properties], which does not declare it. *)
Definition both_declare : Json :=
  JObject
    [("anyOf", JArray [JObject [("properties", JObject
        [("target", JObject [("properties", JObject [("id", JObject [("type", JString "string")])]);
                             ("required", JArray [JString "id"]); ("type", JString "object")])])]]);
     ("properties", JObject
        [("target", JObject [("properties", JObject [("name", JObject [("type", JString "string")])]);
                             ("type", JString "object")])]);
     ("type", JString "object")].

Lemma flatten_merges_dangling_required :
  ce_message <$> must_not_contain_unsupported_constructs (apply both_declare ANTIGRAVITY_CLAUDE) ANTIGRAVITY_CLAUDE
  = ["`required` names `id`, which this object does not declare"].
Proof. by vm_compute. Qed.

(** A combiner without branches survives. *)
Lemma flatten_leaves_empty_combiner :
  ce_message <$> must_not_contain_unsupported_constructs
    (apply (JObject [("anyOf", JArray []); ("type", JString "object")]) ANTIGRAVITY_BRIDGE) ANTIGRAVITY_BRIDGE
  = ["combiner `anyOf` survived a dialect that flattens all combiners"].
Proof. by vm_compute. Qed.

(** Flattening goes into data: a [default] that contains a key of that name is rewritten. *)
Lemma flatten_rewrites_data :
  let default := JObject [("anyOf", JArray [JObject [("a", JNumber "1")]; JObject [("b", JNumber "2")]])] in
  apply (JObject [("default", default); ("type", JString "object")]) ANTIGRAVITY_CLAUDE =
    JObject [("default", JObject [("a", JNumber "1")]); ("type", JString "object")].
Proof. by vm_compute. Qed.

(** A learned rejection of [anyOf] does not stop the [anyOf] that a [oneOf] is renamed to. *)
Lemma learned_any_of_sent_again :
  let schema := JObject [("oneOf", JArray [JObject [("type", JString "string")]])] in
  recover_from_error "'anyOf' is not permitted." OPENAI (Some ∅) =
    (Some {[ "openai" := {| e_rejected_keywords := ["anyOf"]; e_rejected_formats := [] |} ]},
     RetryWithoutConstruct "provider `openai` rejected keyword `anyOf`; stripping it and retrying, and remembering it for future requests") ∧
  normalize schema OPENAI
    (Some {[ "openai" := {| e_rejected_keywords := ["anyOf"]; e_rejected_formats := [] |} ]}) =
    JObject [("anyOf", JArray [JObject [("type", JString "string")]])].
Proof. split; by vm_compute. Qed.

(** A [const] next to an [enum] widens the [enum] instead of narrowing it. *)
Lemma const_joins_enum :
  apply (JObject [("const", JString "a"); ("enum", JArray [JString "a"; JString "b"])]) GEMINI =
    JObject [("enum", JArray [JString "a"; JString "a"; JString "b"])].
Proof. by vm_compute. Qed.

(** Without a store path nothing is remembered: the same rejection asks for a retry every time,
    and the retried request still contains the keyword. *)
Lemma retry_without_store :
  recover_from_error unknown_name_error ANTHROPIC None =
    (None, RetryWithoutConstruct "provider `anthropic` rejected keyword `propertyNames`; stripping it and retrying, and remembering it for future requests") ∧
  absent "propertyNames" (normalize hostile ANTHROPIC None) = false.
Proof. split; by vm_compute. Qed.

(** ** The registry *)

(** The registry is coherent: every dialect passes [validate] and demands compatible rewrites,
    ids are unique, and looking a dialect up by its id finds it. *)
Theorem registry_coherent :
  Forall (λ spec, coherent spec ∧ by_id (d_id spec) = Some spec) ALL ∧ NoDup (d_id <$> ALL).
Proof.
  split; [repeat constructor|]. apply (bool_decide_unpack _). by vm_compute.
Qed.
