(* ===== verification/StrictSchema.v ===== *)
(** * [arterm-provider-core]: OpenAI strict mode (src/openai_schema.rs)

    Whether a tool's schema can be sent with [strict: true], and the normalization that strict
    mode needs: every property required, optional ones nullable instead, objects closed. *)

From S2P Require Export SchemaFlatten.

(** [openai_compatible_schema] *)
Definition openai_compatible_schema (schema : Json) (store : QuirkStore) : Json :=
  normalize schema OPENAI store.

(** ** Eligibility *)

Definition TYPE_KEYWORDS_INFO : list string :=
  ["type"; "enum"; "const"; "$ref"; "anyOf"; "oneOf"; "allOf"; "properties"; "items"].

Definition schema_has_type_info (schema : Json) : bool :=
  match schema with
  | JBool _ => false
  | JObject map => existsb (λ key, bt_contains key map) TYPE_KEYWORDS_INFO
  | _ => true
  end.

Definition TYPE_BEARING_KEYWORDS : list string :=
  ["type"; "enum"; "const"; "anyOf"; "oneOf"; "allOf"; "$ref"; "properties"; "items"].

Definition strict_declares_a_type (schema : Json) : bool :=
  match as_object schema with
  | None => is_boolean schema
  | Some map => existsb (λ keyword, bt_contains keyword map) TYPE_BEARING_KEYWORDS
  end.

Definition branch_names_a_type (branch : Json) : bool :=
  match as_object branch with
  | None => is_boolean branch
  | Some map =>
      bt_contains "type" map || bt_contains "$ref" map
      || existsb (λ combiner, bt_contains combiner map) ["anyOf"; "oneOf"; "allOf"]
  end.

(** The [match map.get("type")] of the source, for a type name. *)
Definition typed_as (name : string) (map : Obj) : bool :=
  match bt_get "type" map with
  | Some (JString t) => String.eqb t name
  | Some (JArray types) => existsb (λ v, bool_decide (as_str v = Some name)) types
  | _ => false
  end.

Definition schema_is_object_typed (map : Obj) : bool := typed_as "object" map.

Definition values (map : Obj) : list Json := map.*2.

(** The checks of [check_map] before its recursive call, one per early return. *)
Definition map_supports_strict (map : Obj) : bool :=
  let is_object_typed := typed_as "object" map in
  let has_properties :=
    match bt_get "properties" map ≫= as_object with Some props => negb (is_nil props) | None => false end in
  if is_object_typed && negb has_properties then false
  else if is_object_typed
          && match bt_get "additionalProperties" map with
             | Some (JBool true) | Some (JObject _) => true
             | _ => false
             end then false
  else if match bt_get "properties" map with
          | Some (JObject properties) => existsb (λ p, negb (strict_declares_a_type p)) (values properties)
          | _ => false
          end then false
  else if existsb (λ combiner,
            match bt_get combiner map with
            | Some (JArray branches) => existsb (λ b, negb (branch_names_a_type b)) branches
            | _ => false
            end) ["anyOf"; "oneOf"; "allOf"] then false
  else if typed_as "array" map
          && negb (match bt_get "items" map with Some items => strict_declares_a_type items | None => false end)
       then false
  else if bt_contains "$ref" map then false
  else if match bt_get "properties" map with
          | Some (JObject props) => existsb (λ p, negb (schema_has_type_info p)) (values props)
          | _ => false
          end then false
  else true.

Fixpoint schema_supports_strict (schema : Json) : bool :=
  match schema with
  | JObject map => map_supports_strict map && forallb (λ e, schema_supports_strict e.2) map
  | JArray items => forallb schema_supports_strict items
  | _ => true
  end.

(** ** Nullable schemas *)

Definition schema_contains_null_type (schema : Json) : bool :=
  match schema with
  | JObject map => bool_decide (bt_get "type" map ≫= as_str = Some "null")
  | _ => false
  end.

Definition null_schema : Json := JObject [("type", JString "null")].

Definition make_schema_nullable (schema : Json) : Json :=
  match schema with
  | JObject map =>
      match bt_get "type" map with
      | Some (JString t) =>
          if String.eqb t "null" then JObject map
          else JObject (bt_insert "type" (JArray [JString t; JString "null"]) map)
      | Some (JArray types) =>
          let types := if existsb (λ v, bool_decide (as_str v = Some "null")) types then types
                       else (types ++ [JString "null"])%list in
          JObject (bt_insert "type" (JArray types) map)
      | _ =>
          match bt_get "anyOf" map with
          | Some (JArray any_of) =>
              let any_of := if existsb schema_contains_null_type any_of then any_of
                            else (any_of ++ [null_schema])%list in
              JObject (bt_insert "anyOf" (JArray any_of) map)
          | _ => JObject [("anyOf", JArray [JObject map; null_schema])]
          end
      end
  | other => JObject [("anyOf", JArray [other; null_schema])]
  end.

(** ** Normalization *)

Definition STRICT_MAP_KEYWORDS : list string := ["properties"; "$defs"; "definitions"; "patternProperties"].
Definition STRICT_ARRAY_KEYWORDS : list string := ["allOf"; "anyOf"; "oneOf"; "prefixItems"].

(** [strict] is the recursive call [strict_normalize_schema]. *)
Definition normalize_strict_schema_keyword (strict : Json → Json) (key : string) (value : Json) : Json :=
  if has STRICT_MAP_KEYWORDS key then
    match value with
    | JObject children => JObject (bt_map strict children)
    | _ => strict value
    end
  else if has STRICT_ARRAY_KEYWORDS key then
    match value with
    | JArray items => JArray (map strict items)
    | _ => strict value
    end
  else strict value.

(** A [HashSet] that is only asked for membership. *)
Definition existing_required_keys (map : Obj) : list string :=
  match bt_get "required" map ≫= as_array with Some arr => strs arr | None => [] end.

(** [for (prop_name, prop_schema) in properties.iter_mut()] *)
Definition nullable_properties (existing_required : list string) (properties : Obj) : Obj :=
  map (λ e, (e.1, if has existing_required e.1 then e.2 else make_schema_nullable e.2)) properties.

(** The keys come sorted out of the map; [names.sort()] finds them so. *)
Definition normalize_required_properties (map : Obj) : Obj :=
  match bt_get "properties" map with
  | Some (JObject properties) =>
      let property_names := sort_strings (properties.*1) in
      let existing_required := existing_required_keys map in
      let map := bt_insert "properties" (JObject (nullable_properties existing_required properties)) map in
      bt_insert "required" (JArray (List.map JString property_names)) map
  | _ => map
  end.

Definition OPENAI_SUPPORTED_STRING_FORMATS : list string :=
  ["date-time"; "time"; "date"; "duration"; "email"; "hostname"; "ipv4"; "ipv6"; "uuid"].

Definition is_supported_string_format (value : Json) : bool :=
  match as_str value with Some s => has OPENAI_SUPPORTED_STRING_FORMATS s | None => false end.

(** One round of the loop of [normalize_map]. *)
Definition strict_step (strict : Json → Json) (out : Obj) (e : string * Json) : Obj :=
  if String.eqb e.1 "format" && negb (is_supported_string_format e.2) then out
  else bt_insert e.1 (normalize_strict_schema_keyword strict e.1 e.2) out.

(** What [normalize_map] does after its loop. *)
Definition strict_finish (out : Obj) : Obj :=
  let is_object_typed := schema_is_object_typed out in
  let out := normalize_required_properties out in
  if is_object_typed || bt_contains "properties" out
  then bt_insert "additionalProperties" (JBool false) out else out.

Fixpoint strict_normalize_schema (schema : Json) : Json :=
  match schema with
  | JObject map =>
      JObject (strict_finish (fold_left (strict_step (λ j, strict_normalize_schema j)) map []))
  | JArray items => JArray (map strict_normalize_schema items)
  | _ => schema
  end.

Example strict_optional_age :
  strict_normalize_schema
    (JObject [("properties", JObject [("optional_age", JObject [("type", JString "integer")]);
                                      ("required_name", JObject [("type", JString "string")])]);
              ("required", JArray [JString "required_name"]); ("type", JString "object")]) =
  JObject [("additionalProperties", JBool false);
           ("properties", JObject [("optional_age", JObject [("type", JArray [JString "integer"; JString "null"])]);
                                   ("required_name", JObject [("type", JString "string")])]);
           ("required", JArray [JString "optional_age"; JString "required_name"]);
           ("type", JString "object")].
Proof. by vm_compute. Qed.

(** * [arterm-provider-core]: the theorems on strict mode

    The normal form of strict mode, that [strict_normalize_schema] reaches it and is idempotent,
    and what it does to each property. *)

(** ** The strict form *)

(** [f] holds of what a recursive call visits under a key. *)
Definition keyword_all (f : Json → bool) (key : string) (value : Json) : bool :=
  if has STRICT_MAP_KEYWORDS key then
    match value with JObject children => forallb (λ c, f c.2) children | other => f other end
  else f value.

(** What strict mode asks of one object: declared properties are all required, in order, and an
    object schema is closed. *)
Definition strict_object (m : Obj) : bool :=
  match bt_get "properties" m with
  | Some (JObject ps) => bool_decide (bt_get "required" m = Some (JArray (map JString (ps.*1))))
  | _ => true
  end &&
  implb (schema_is_object_typed m || bt_contains "properties" m)
        (bool_decide (bt_get "additionalProperties" m = Some (JBool false))).

Fixpoint strict_form (schema : Json) : bool :=
  match schema with
  | JObject m =>
      forallb (λ e, implb (String.eqb e.1 "format") (is_supported_string_format e.2)
                    && keyword_all (λ j, strict_form j) e.1 e.2) m
      && strict_object m
  | JArray items => forallb strict_form items
  | _ => true
  end.

Definition entry_strict (e : string * Json) : Prop :=
  wf_json e.2 ∧ implb (String.eqb e.1 "format") (is_supported_string_format e.2) = true ∧
  keyword_all strict_form e.1 e.2 = true.

Definition entries_strict (m : Obj) : Prop := bt_wf m ∧ ∀ e, e ∈ m → entry_strict e.

Lemma strict_form_obj m :
  wf_json (JObject m) ∧ strict_form (JObject m) = true ↔ entries_strict m ∧ strict_object m = true.
Proof.
  cbn [strict_form]. unfold entries_strict, entry_strict. rewrite andb_true_iff, forallb_elem.
  setoid_rewrite andb_true_iff. split.
  - intros [[Hm Hv]%wf_object_inv [He Ho]]. naive_solver.
  - intros [[Hm Hv] Ho]. split; [constructor; naive_solver|]. naive_solver.
Qed.

Lemma entries_strict_insert k v m : entries_strict m → entry_strict (k, v) → entries_strict (bt_insert k v m).
Proof.
  intros [Hm Hv] He. split; [auto with arterm|]. intros e [->|Hin]%bt_elem_insert; [done|by apply Hv].
Qed.

Lemma entries_strict_get k v m : entries_strict m → bt_get k m = Some v → entry_strict (k, v).
Proof. intros [_ Hv] Hg%bt_get_Some_elem. by apply Hv. Qed.

Lemma keyword_all_array k l :
  keyword_all strict_form k (JArray l) = forallb strict_form l.
Proof. unfold keyword_all. by destruct (has STRICT_MAP_KEYWORDS k). Qed.

(** A property map in strict form. *)
Definition props_strict (ps : Obj) : Prop :=
  bt_wf ps ∧ ∀ e, e ∈ ps → wf_json e.2 ∧ strict_form e.2 = true.

Lemma entry_strict_props ps : entry_strict ("properties", JObject ps) ↔ props_strict ps.
Proof.
  unfold entry_strict, props_strict, keyword_all. cbn [fst snd]. simpl has. cbn iota.
  rewrite forallb_elem. simpl. split.
  - intros ([Hw Hv]%wf_object_inv & _ & Hs). naive_solver.
  - intros [Hw Hv]. split; [constructor; naive_solver|]. naive_solver.
Qed.

(** ** Nullable *)

Lemma typed_as_array name m l :
  bt_get "type" m = Some (JArray l) → typed_as name m = existsb (λ v, bool_decide (as_str v = Some name)) l.
Proof. unfold typed_as. by intros ->. Qed.

Lemma strict_object_type m types :
  strict_object m = true →
  (existsb (λ v, bool_decide (as_str v = Some "object")) types = true → schema_is_object_typed m = true) →
  strict_object (bt_insert "type" (JArray types) m) = true.
Proof.
  unfold strict_object. rewrite !bt_contains_get, !bt_get_insert_ne by done.
  intros [Hp Ha]%andb_true_iff Hty. rewrite Hp. apply implb_true_iff. cbn [andb].
  rewrite implb_true_iff in Ha. intros Hor. apply Ha.
  apply orb_true_iff in Hor as [Ht|Hc]; apply orb_true_iff; [left|by right].
  apply Hty. unfold schema_is_object_typed in Ht.
  by rewrite (typed_as_array "object" _ types) in Ht by apply bt_get_insert_eq.
Qed.

Lemma wf_strings_json l : (∀ x, x ∈ l → ∃ s, x = JString s) → wf_json (JArray l).
Proof. intros H. constructor. intros x Hx. destruct (H x Hx) as [s ->]. constructor. Qed.

Lemma nullable_wrap j :
  wf_json j → strict_form j = true →
  let out := JObject [("anyOf", JArray [j; null_schema])] in
  wf_json out ∧ strict_form out = true.
Proof.
  intros Hw Hs. split.
  - constructor; [repeat constructor|]. intros e ->%list_elem_of_singleton. constructor.
    intros x. rewrite !elem_of_cons, elem_of_nil. intros [->|[->|[]]]; [done|].
    by apply wf_jsonb_sound.
  - cbn [strict_form forallb]. cbn. by rewrite Hs.
Qed.

Lemma strict_object_any_of m v :
  strict_object m = true → strict_object (bt_insert "anyOf" v m) = true.
Proof.
  unfold strict_object, schema_is_object_typed, typed_as.
  rewrite !bt_contains_get, !bt_get_insert_ne by done. done.
Qed.

(** The last two cases of [make_schema_nullable]. *)
Lemma nullable_any_of m :
  wf_json (JObject m) → strict_form (JObject m) = true →
  let out :=
    match bt_get "anyOf" m with
    | Some (JArray any_of) =>
        JObject (bt_insert "anyOf" (JArray (if existsb schema_contains_null_type any_of then any_of
                                            else (any_of ++ [null_schema])%list)) m)
    | _ => JObject [("anyOf", JArray [JObject m; null_schema])]
    end in
  wf_json out ∧ strict_form out = true.
Proof.
  intros Hw Hs. pose proof (proj1 (strict_form_obj m) (conj Hw Hs)) as [He Ho].
  destruct (bt_get "anyOf" m) as [v|] eqn:Hg; [|by apply nullable_wrap].
  destruct v as [| | | |l|]; try by apply nullable_wrap.
  destruct (entries_strict_get _ _ _ He Hg) as (Hwl & _ & Hkl). cbn [fst snd] in *.
  rewrite keyword_all_array in Hkl. apply strict_form_obj.
  split; [|by apply strict_object_any_of]. apply entries_strict_insert; [done|].
  destruct (existsb _ l).
  - split; [done|]. split; [done|]. cbn [fst snd]. by rewrite keyword_all_array.
  - split; [apply wf_arr_app; [done|by apply wf_jsonb_sound]|]. split; [done|]. cbn [fst snd].
    by rewrite keyword_all_array, forallb_app, Hkl.
Qed.

Lemma nullable_strict j :
  wf_json j → strict_form j = true →
  wf_json (make_schema_nullable j) ∧ strict_form (make_schema_nullable j) = true.
Proof.
  intros Hw Hs. destruct j as [| | | | |m]; try by apply nullable_wrap.
  pose proof (proj1 (strict_form_obj m) (conj Hw Hs)) as [He Ho]. cbn [make_schema_nullable].
  destruct (bt_get "type" m) as [ty|] eqn:Hty; [|by apply nullable_any_of].
  destruct ty as [| | |t|types|]; try by apply nullable_any_of.
  - destruct (String.eqb t "null"); [done|]. apply strict_form_obj. split.
    + apply entries_strict_insert; [done|]. split; [by apply wf_jsonb_sound|done].
    + apply strict_object_type; [done|]. simpl. rewrite orb_false_r. intros Hb%bool_decide_eq_true.
      unfold schema_is_object_typed, typed_as. rewrite Hty. apply String.eqb_eq. congruence.
  - cbv zeta. set (types' := if existsb _ types then types else _). apply strict_form_obj.
    destruct (entries_strict_get _ _ _ He Hty) as (Hwt & _ & Hkt). cbn [fst snd] in *.
    rewrite keyword_all_array in Hkt.
    assert (Ht' : wf_json (JArray types') ∧ forallb strict_form types' = true ∧
      (existsb (λ v, bool_decide (as_str v = Some "object")) types' = true →
       existsb (λ v, bool_decide (as_str v = Some "object")) types = true)).
    { unfold types'. destruct (existsb _ types); [done|]. split; [|split].
      - apply wf_arr_app; [done|]. by apply wf_jsonb_sound.
      - by rewrite forallb_app, Hkt.
      - by rewrite existsb_app, orb_false_r. }
    destruct Ht' as (H1 & H2 & H3). split.
    + apply entries_strict_insert; [done|]. split; [done|]. split; [done|]. cbn [fst snd].
      by rewrite keyword_all_array.
    + apply strict_object_type; [done|]. intros Hx%H3. unfold schema_is_object_typed.
      by rewrite (typed_as_array _ _ types).
Qed.

(** ** Reaching the form *)

Lemma keyword_strict f k v :
  wf_json v → (as_object v = None → as_object (f v) = None) →
  (wf_json (f v) ∧ strict_form (f v) = true) →
  (∀ c, c ∈ children v → wf_json (f c) ∧ strict_form (f c) = true) →
  wf_json (normalize_strict_schema_keyword f k v) ∧
  keyword_all strict_form k (normalize_strict_schema_keyword f k v) = true.
Proof.
  intros Hw Hshape Hv Hc. unfold normalize_strict_schema_keyword, keyword_all.
  destruct (has STRICT_MAP_KEYWORDS k).
  - destruct v as [| | | | |m];
      try (split; [by apply Hv|]; destruct Hv as [_ Hv]; specialize (Hshape eq_refl); by destruct (f _)).
    apply wf_object_inv in Hw as [Hm _]. split.
    + constructor; [auto with arterm|]. intros e (e' & He & ->)%bt_elem_map. apply Hc. simpl. auto with arterm.
    + apply forallb_elem. intros e (e' & He & ->)%bt_elem_map. apply Hc. simpl. auto with arterm.
  - destruct (has STRICT_ARRAY_KEYWORDS k); [|done]. destruct v as [| | | |l|]; try done. split.
    + constructor. intros x (y & <- & Hy)%list_elem_of_In%in_map_iff. apply Hc. by rewrite list_elem_of_In.
    + cbn [strict_form]. apply forallb_elem. intros x (y & <- & Hy)%list_elem_of_In%in_map_iff.
      apply Hc. by rewrite list_elem_of_In.
Qed.

Lemma strict_steps f l out :
  entries_strict out →
  (∀ e, e ∈ l → wf_json e.2 ∧ wf_json (f e.2) ∧ strict_form (f e.2) = true ∧
     (is_supported_string_format e.2 = true → f e.2 = e.2) ∧
     (as_object e.2 = None → as_object (f e.2) = None) ∧
     ∀ c, c ∈ children e.2 → wf_json (f c) ∧ strict_form (f c) = true) →
  entries_strict (fold_left (strict_step f) l out).
Proof.
  revert out. induction l as [|e l IH]; intros out Ho Hl; [done|]. cbn [fold_left].
  apply IH; [|intros x Hx; apply Hl; by right].
  destruct (Hl e) as (Hw & Hfw & Hfs & Hfmt & Hshape & Hc); [by left|].
  unfold strict_step. destruct (String.eqb e.1 "format" && _) eqn:Hf; [done|].
  apply entries_strict_insert; [done|].
  destruct (keyword_strict f e.1 e.2) as [H1 H2]; [done..|]. split; [done|]. split; [|done].
  cbn [fst snd]. destruct (String.eqb_spec e.1 "format") as [He|]; [|done]. cbn [implb andb] in *.
  apply negb_false_iff in Hf. rewrite He. unfold normalize_strict_schema_keyword. cbn -[is_supported_string_format].
  by rewrite Hfmt.
Qed.

Lemma nullable_properties_keys req ps : (nullable_properties req ps).*1 = ps.*1.
Proof. unfold nullable_properties. induction ps as [|e ps IH]; [done|]. cbn. by f_equal. Qed.

Lemma nullable_properties_strict req ps : props_strict ps → props_strict (nullable_properties req ps).
Proof.
  intros [Hw Hv]. split; [unfold bt_wf; by rewrite nullable_properties_keys|].
  intros e (e' & <- & He)%list_elem_of_In%in_map_iff. apply list_elem_of_In in He. cbn [snd].
  destruct (has req e'.1); [by apply Hv|]. apply nullable_strict; by apply Hv.
Qed.

(** The keys of a map are sorted. *)
Lemma sort_sorted_keys (m : Obj) : bt_wf m → sort_strings (m.*1) = m.*1.
Proof.
  intros Hm. unfold sort_strings. induction m as [|[k v] m IH]; [done|].
  apply bt_wf_cons_inv in Hm as [Hm Hk].
  change (((k, v) :: m).*1) with (k :: m.*1). cbn [sort_by]. rewrite IH by done.
  destruct (m.*1) as [|k' l] eqn:Hl; [done|]. cbn [insert_by].
  assert (Hlt : key_lt k k') by (apply Hk; by left). apply key_lt_leb in Hlt as [-> _]. done.
Qed.

Lemma strict_finish_ok m :
  entries_strict m → entries_strict (strict_finish m) ∧ strict_object (strict_finish m) = true.
Proof.
  intros Hm. unfold strict_finish. cbv zeta.
  set (out := normalize_required_properties m).
  assert (Hout : entries_strict out ∧ schema_is_object_typed out = schema_is_object_typed m ∧
    match bt_get "properties" out with
    | Some (JObject ps) => bool_decide (bt_get "required" out = Some (JArray (map JString (ps.*1))))
    | _ => true
    end = true).
  { unfold out, normalize_required_properties.
    destruct (bt_get "properties" m) as [v|] eqn:Hg; [|by rewrite Hg].
    destruct v as [| | | | |ps]; try by rewrite Hg.
    pose proof (entries_strict_get _ _ _ Hm Hg) as Hps. apply entry_strict_props in Hps.
    assert (Hps' := nullable_properties_strict (existing_required_keys m) ps Hps). split; [|split].
    - apply entries_strict_insert; [apply entries_strict_insert; [done|by apply entry_strict_props]|].
      split; [apply wf_strings|]. split; [done|]. cbn [fst snd]. rewrite keyword_all_array. apply forallb_elem.
      by intros x (s & <- & _)%list_elem_of_In%in_map_iff.
    - unfold schema_is_object_typed, typed_as. by rewrite !bt_get_insert_ne.
    - rewrite bt_get_insert_ne, bt_get_insert_eq, bt_get_insert_eq, nullable_properties_keys by done.
      rewrite sort_sorted_keys by apply Hps. by apply bool_decide_eq_true. }
  clearbody out. destruct Hout as (Ho & Hty & Hreq).
  destruct (schema_is_object_typed m || bt_contains "properties" out) eqn:Hc.
  - split; [apply entries_strict_insert; [done|]; split; [constructor|done]|].
    unfold strict_object. rewrite !bt_get_insert_eq, !bt_get_insert_ne by done. rewrite Hreq.
    apply implb_true_iff. intros _. by apply bool_decide_eq_true.
  - split; [done|]. unfold strict_object. by rewrite Hreq, Hty, Hc.
Qed.

Lemma strict_result j :
  wf_json j → wf_json (strict_normalize_schema j) ∧ strict_form (strict_normalize_schema j) = true.
Proof.
  revert j. apply (Json_children_ind (λ j, wf_json j →
    wf_json (strict_normalize_schema j) ∧ strict_form (strict_normalize_schema j) = true)).
  intros j IH Hw. destruct j as [| | | |l|m]; try (split; [constructor|done]).
  - assert (Hl : ∀ x, x ∈ map strict_normalize_schema l → wf_json x ∧ strict_form x = true).
    { intros x (y & <- & Hy)%list_elem_of_In%in_map_iff. apply list_elem_of_In in Hy.
      apply IH; [done|]. eauto using wf_array_inv. }
    cbn [strict_normalize_schema]. split; [constructor; intros; by apply Hl|].
    cbn [strict_form]. apply forallb_elem. intros; by apply Hl.
  - cbn [strict_normalize_schema]. apply strict_form_obj, strict_finish_ok, strict_steps.
    { split; [constructor|]. intros e He. by apply elem_of_nil in He. }
    intros e He. assert (Hin : e.2 ∈ children (JObject m)) by (simpl; auto with arterm).
    assert (Hwe : wf_json e.2) by by apply (wf_children _ Hw).
    destruct (IH _ Hin) as [H1 H2]. destruct (H1 Hwe) as [H3 H4]. split_and!; [done..| | |].
    + by destruct e.2.
    + by destruct e.2.
    + intros c Hc. apply H2; [done|]. by apply (wf_children _ Hwe).
Qed.

(** Strict mode gets what it demands: in the normalized schema, at any depth, every declared
    property is required, every object schema is closed to other properties, and no unsupported
    format is left. *)
Theorem strict_normalize_reaches_form schema :
  wf_json schema → strict_form (strict_normalize_schema schema) = true.
Proof. intros Hw. by apply strict_result. Qed.

(** ** Staying in the form *)

Lemma strict_finish_id m : wf_json (JObject m) → strict_object m = true → strict_finish m = m.
Proof.
  intros Hwf [Hreq Hadd]%andb_true_iff. pose proof (wf_object_inv _ Hwf) as [Hm Hv].
  unfold strict_finish. cbv zeta.
  assert (Hn : normalize_required_properties m = m).
  { unfold normalize_required_properties. destruct (bt_get "properties" m) as [v|] eqn:Hg; [|done].
    destruct v as [| | | | |ps]; try done. apply bool_decide_eq_true in Hreq.
    assert (Hnp : nullable_properties (existing_required_keys m) ps = ps).
    { unfold nullable_properties. apply map_id_elem. intros [n c] He. cbn [fst snd].
      assert (Hin : has (existing_required_keys m) n = true); [|by rewrite Hin].
      apply has_elem. unfold existing_required_keys. rewrite Hreq. simpl. rewrite strs_JString.
      apply list_elem_of_fmap. by exists (n, c). }
    assert (Hps : bt_wf ps) by (apply wf_get in Hg; [|done]; by apply wf_object_inv in Hg as [? _]).
    rewrite Hnp, (bt_insert_same "properties"), sort_sorted_keys by done. by apply bt_insert_same. }
  rewrite Hn. destruct (_ || _); [|done]. apply bool_decide_eq_true in Hadd. by apply bt_insert_same.
Qed.

Lemma keyword_id f k v :
  keyword_all strict_form k v = true → (strict_form v = true → f v = v) →
  (∀ c, c ∈ children v → strict_form c = true → f c = c) →
  normalize_strict_schema_keyword f k v = v.
Proof.
  intros Hk Hv Hc. unfold keyword_all, normalize_strict_schema_keyword in *.
  destruct (has STRICT_MAP_KEYWORDS k).
  - destruct v as [| | | | |m]; try by apply Hv. rewrite forallb_elem in Hk. f_equal.
    apply map_id_elem. intros [n c] Hx. cbn [fst snd]. f_equal.
    apply Hc; [exact (elem_of_values _ _ Hx)|by apply (Hk (n, c))].
  - destruct (has STRICT_ARRAY_KEYWORDS k); [|by apply Hv]. destruct v as [| | | |l|]; try by apply Hv.
    cbn [strict_form] in Hk. rewrite forallb_elem in Hk. f_equal. apply map_id_elem.
    intros x Hx. apply Hc; [done|by apply Hk].
Qed.

Lemma strict_steps_id f l out :
  bt_wf (out ++ l) →
  (∀ e, e ∈ l → implb (String.eqb e.1 "format") (is_supported_string_format e.2) = true ∧
                normalize_strict_schema_keyword f e.1 e.2 = e.2) →
  fold_left (strict_step f) l out = (out ++ l)%list.
Proof.
  revert out. induction l as [|e l IH]; intros out Hwf Hl; [by rewrite app_nil_r|].
  cbn [fold_left]. destruct (Hl e) as [Hf Hn]; [by left|].
  assert (Hstep : strict_step f out e = (out ++ [e])%list).
  { unfold strict_step. rewrite Hn. destruct e as [k v]. cbn [fst snd] in *.
    destruct (String.eqb k "format"); cbn [implb andb] in *; [rewrite Hf; cbn [negb]|];
      apply bt_insert_last; intros k' Hk'; apply bt_wf_app_inv in Hwf as (_ & _ & Hlt);
      (apply Hlt; [done|by left]). }
  rewrite Hstep. replace (out ++ e :: l)%list with ((out ++ [e]) ++ l)%list in * by by rewrite <- app_assoc.
  apply IH; [done|]. intros x Hx. apply Hl. by right.
Qed.

Lemma strict_id j : wf_json j → strict_form j = true → strict_normalize_schema j = j.
Proof.
  revert j. apply (Json_children_ind (λ j, wf_json j → strict_form j = true → strict_normalize_schema j = j)).
  intros j IH Hw Hs. destruct j as [| | | |l|m]; try done; cbn [strict_form strict_normalize_schema] in *.
  - rewrite forallb_elem in Hs. f_equal. apply map_id_elem. intros x Hx.
    apply IH; [done|eauto using wf_array_inv|by apply Hs].
  - apply andb_true_iff in Hs as [He Ho]. rewrite forallb_elem in He. f_equal.
    pose proof (wf_object_inv _ Hw) as [Hm Hv].
    rewrite strict_steps_id; [by apply strict_finish_id|done|].
    intros e Hin. pose proof (He e Hin) as [Hf Hk]%andb_true_iff. split; [done|].
    assert (Hin2 : e.2 ∈ children (JObject m)) by (simpl; auto with arterm).
    assert (Hwe : wf_json e.2) by by apply (wf_children _ Hw). destruct (IH _ Hin2) as [H1 H2].
    apply keyword_id; [done|by apply H1|]. intros c Hc. apply H2; [done|].
    by apply (wf_children _ Hwe).
Qed.

(** Strict normalization is idempotent, so a schema normalized twice along a request (by the
    catalog and by the request builder) is the same schema. *)
Theorem strict_normalize_idempotent schema :
  wf_json schema →
  strict_normalize_schema (strict_normalize_schema schema) = strict_normalize_schema schema.
Proof. intros Hw. destruct (strict_result schema Hw). by apply strict_id. Qed.

(** ** What happens to a property *)

Lemma strict_step_other f out e k : e.1 ≠ k → bt_get k (strict_step f out e) = bt_get k out.
Proof.
  intros Hk. unfold strict_step. destruct (_ && _); [done|]. by rewrite bt_get_insert_ne.
Qed.

Lemma strict_steps_other f l out k : k ∉ l.*1 → bt_get k (fold_left (strict_step f) l out) = bt_get k out.
Proof.
  revert out. induction l as [|e l IH]; intros out Hk; [done|]. cbn [fold_left fmap list_fmap] in *.
  rewrite IH, strict_step_other; [done|..]; set_solver.
Qed.

(** The loop of [normalize_map], key by key. *)
Lemma strict_steps_get f m k :
  bt_wf m → k ≠ "format" →
  bt_get k (fold_left (strict_step f) m []) = normalize_strict_schema_keyword f k <$> bt_get k m.
Proof.
  intros Hwf Hk. destruct (bt_get k m) as [v|] eqn:Hg.
  2: { rewrite strict_steps_other; [done|]. by apply bt_get_None_iff. }
  apply bt_elem_get in Hg; [|done]. apply list_elem_of_split in Hg as (l1 & l2 & ->).
  pose proof (bt_wf_NoDup _ Hwf) as Hnd. rewrite fmap_app in Hnd. cbn [fmap list_fmap fst] in Hnd.
  apply NoDup_app in Hnd as (_ & _ & [Hnd _]%NoDup_cons). rewrite fold_left_app. cbn [fold_left].
  rewrite strict_steps_other by done. unfold strict_step at 1. cbn [fst snd].
  rewrite (proj2 (String.eqb_neq k "format") Hk). cbn [andb]. by rewrite bt_get_insert_eq.
Qed.

(** What strict normalization does to the parameters of a tool: the same names, in the same
    order; all of them required; a parameter that was required is the normalization of what it
    was, and an optional one is that normalization made nullable. *)
Theorem strict_parameters m ps :
  wf_json (JObject m) → bt_get "properties" m = Some (JObject ps) →
  ∃ out ps',
    strict_normalize_schema (JObject m) = JObject out ∧
    bt_get "properties" out = Some (JObject ps') ∧ ps'.*1 = ps.*1 ∧
    bt_get "required" out = Some (JArray (map JString (ps.*1))) ∧
    bt_get "additionalProperties" out = Some (JBool false) ∧
    ∀ name schema, bt_get name ps = Some schema →
      bt_get name ps' = Some (let normalized := strict_normalize_schema schema in
                              if has (existing_required_keys m) name then normalized
                              else make_schema_nullable normalized).
Proof.
  intros Hw Hg. pose proof (wf_object_inv _ Hw) as [Hm Hv].
  assert (Hps : bt_wf ps) by (apply wf_get in Hg; [|done]; by apply wf_object_inv in Hg as [? _]).
  cbn [strict_normalize_schema].
  set (out := fold_left (strict_step (λ j, strict_normalize_schema j)) m []).
  set (sps := bt_map (λ j, strict_normalize_schema j) ps).
  assert (Hprops : bt_get "properties" out = Some (JObject sps)).
  { unfold out. by rewrite strict_steps_get, Hg. }
  assert (Hreq : existing_required_keys out = existing_required_keys m).
  { unfold existing_required_keys, out. rewrite strict_steps_get by done.
    destruct (bt_get "required" m) as [v|]; [|done]. cbn [fmap option_fmap option_map].
    unfold normalize_strict_schema_keyword. simpl has. cbn iota.
    destruct v as [| | | |l|]; try done. cbn. unfold strs.
    induction l as [|x l IHl]; [done|]. cbn. rewrite IHl. by destruct x. }
  eexists _, (nullable_properties (existing_required_keys m) sps). split; [done|].
  unfold strict_finish, normalize_required_properties. cbv zeta. rewrite Hprops, Hreq.
  rewrite bt_contains_get, (bt_get_insert_ne "required" "properties"), bt_get_insert_eq by done.
  rewrite bool_decide_true by by eexists. rewrite orb_true_r.
  rewrite !(bt_get_insert_ne "additionalProperties"), bt_get_insert_eq by done.
  rewrite (bt_get_insert_ne "required"), !bt_get_insert_eq by done.
  split; [done|]. rewrite nullable_properties_keys. unfold sps. rewrite bt_map_keys.
  split; [done|]. rewrite sort_sorted_keys by done. split; [done|]. split; [done|].
  intros name schema Hn. clear -Hn. unfold nullable_properties, bt_map.
  induction ps as [|[n c] ps IH]; [done|]. cbn in *. destruct (String.eqb_spec name n) as [->|]; [|by apply IH].
  by injection Hn as ->.
Qed.

Definition mode_tool : Json :=
  JObject [("properties", JObject [("mode", JObject [("enum", JArray [JString "fast"; JString "slow"])])]);
           ("type", JString "object")].

Lemma strict_normalize_reaches_form_witness :
  strict_form hostile = false ∧ strict_form (strict_normalize_schema hostile) = true.
Proof. split; [by vm_compute|]. apply strict_normalize_reaches_form. by apply wf_jsonb_sound. Defined.

Lemma strict_normalize_idempotent_witness :
  strict_normalize_schema (strict_normalize_schema hostile) = strict_normalize_schema hostile.
Proof. apply strict_normalize_idempotent. by apply wf_jsonb_sound. Defined.

Lemma strict_parameters_witness :
  ∃ out ps',
    strict_normalize_schema mode_tool = JObject out ∧
    bt_get "properties" out = Some (JObject ps') ∧
    bt_get "required" out = Some (JArray [JString "mode"]) ∧
    bt_get "mode" ps' = Some (make_schema_nullable (JObject [("enum", JArray [JString "fast"; JString "slow"])])).
Proof.
  destruct (strict_parameters
    [("properties", JObject [("mode", JObject [("enum", JArray [JString "fast"; JString "slow"])])]);
     ("type", JString "object")]
    [("mode", JObject [("enum", JArray [JString "fast"; JString "slow"])])])
    as (out & ps' & H1 & H2 & _ & H3 & _ & H4); [by apply wf_jsonb_sound|done|].
  exists out, ps'. split; [done|]. split; [done|]. split; [done|]. exact (H4 "mode" _ eq_refl).
Defined.

(** An optional parameter described by an [enum] alone is eligible for strict mode, but becomes a
    combiner branch without a [type], which is what eligibility exists to keep out. *)
Lemma strict_makes_untyped_branch :
  schema_supports_strict mode_tool = true ∧
  schema_supports_strict (strict_normalize_schema mode_tool) = false.
Proof. split; by vm_compute. Qed.
