(* ===== verification/DeviceIdentity.v ===== *)
(** * [arterm-device]: fingerprints (src/identity.rs)

    A fingerprint is the SHA-256 of a certificate: 32 bytes.  Printing and parsing go through the
    [hex] crate, which is a parameter ([DeviceLib]) with its documented behaviour as laws
    ([DeviceLibLaws]); so are the timestamps of [chrono], used by the stores.  The grouped form
    people read, the reduction of what they type to one spelling, and the base64 decoder are the
    source's own. *)

From S2P Require Export RustStr.

Notation bytes := (list Z).

(** The functions of other crates. *)
Class DeviceLib := {
  (** [hex::encode], [hex::decode] *)
  hex_encode : bytes → string;
  hex_decode : string → option bytes;
  (** [DateTime::to_rfc3339], [DateTime::parse_from_rfc3339], on seconds *)
  to_rfc3339 : Z → string;
  parse_rfc3339 : string → option Z;
}.

Definition is_byte (b : Z) : bool := (0 <=? b)%Z && (b <? 256)%Z.

Definition is_lower_hex (c : ascii) : bool :=
  is_ascii_digit c || ((97 <=? byte c) && (byte c <=? 102))%N.

(** What the code relies on: encoding gives two lowercase digits for each byte and decoding is its
    inverse; a timestamp that was printed is read back. *)
Class DeviceLibLaws `{DeviceLib} : Prop := {
  hex_decode_encode bs : forallb is_byte bs = true → hex_decode (hex_encode bs) = Some bs;
  hex_encode_digits bs : string_forallb is_lower_hex (hex_encode bs) = true;
  hex_encode_length bs : String.length (hex_encode bs) = 2 * length bs;
  parse_to_rfc3339 t : parse_rfc3339 (to_rfc3339 t) = Some t;
}.

(** ** Fingerprints *)

Record Fingerprint := { fp_bytes : bytes }.

#[export] Instance Fingerprint_eq_dec : EqDecision Fingerprint.
Proof. solve_decision. Defined.

(** The type [[u8; 32]]. *)
Definition fp_wf (f : Fingerprint) : Prop :=
  length (fp_bytes f) = 32 ∧ forallb is_byte (fp_bytes f) = true.

(** White space removed, character by character. *)
Fixpoint remove_ws (s : string) : string :=
  match s with
  | EmptyString => EmptyString
  | String a s1 =>
      if ws_ascii a then remove_ws s1 else
      match s1 with
      | EmptyString => s
      | String b s2 =>
          if ws_two a b then remove_ws s2 else
          match s2 with
          | EmptyString => String a (remove_ws s1)
          | String c s3 => if ws_three a b c then remove_ws s3 else String a (remove_ws s1)
          end
      end
  end.

Fixpoint string_filter (f : ascii → bool) (s : string) : string :=
  match s with
  | EmptyString => EmptyString
  | String c s' => if f c then String c (string_filter f s') else string_filter f s'
  end.

Definition is_grouping (c : ascii) : bool := Ascii.eqb c "-" || Ascii.eqb c ":".

(** [Fingerprint::canonical] *)
Definition canonical (typed : string) : string :=
  to_ascii_lowercase (string_filter (λ c, negb (is_grouping c)) (remove_ws typed)).

(** The digits of [format!("{:02X}")]. *)
Definition upper_digit (d : Z) : ascii :=
  if (d <? 10)%Z then ascii_of_N (Z.to_N (48 + d)) else ascii_of_N (Z.to_N (55 + d)).

Definition upper_hex (b : Z) : string := String (upper_digit (b / 16)) (str1 (upper_digit (b mod 16))).

(** [chunks(2)], formatted. *)
Fixpoint display_groups (bs : bytes) : list string :=
  match bs with
  | a :: b :: bs' => (upper_hex a +:+ upper_hex b) :: display_groups bs'
  | _ => []
  end.

(** [Fingerprint::to_display] *)
Definition to_display (f : Fingerprint) : string :=
  String.concat "-" (display_groups (firstn 8 (fp_bytes f))).

Section fingerprint.
Context `{DeviceLib}.

(** [Fingerprint::to_hex] *)
Definition to_hex (f : Fingerprint) : string := hex_encode (fp_bytes f).

(** [Fingerprint::from_hex]; the errors are told apart, their texts are not kept. *)
Inductive HexError := NotHex | WrongLength (n : nat).

Definition from_hex (text : string) : result Fingerprint HexError :=
  match hex_decode (canonical text) with
  | None => Err NotHex
  | Some raw =>
      if bool_decide (length raw = 32) then Ok {| fp_bytes := raw |} else Err (WrongLength (length raw))
  end.

(** [Fingerprint::answers_to] *)
Definition answers_to (f : Fingerprint) (typed : string) : bool :=
  let typed := canonical typed in
  String.eqb typed (to_hex f) || String.eqb typed (canonical (to_display f)).
End fingerprint.

(** ** PEM bodies *)

(** [pem_to_der] without the decoding: the lines that are not boundaries, joined and trimmed. *)
Definition pem_body (pem : string) : string :=
  trim (String.concat "" (List.filter (λ line, negb (starts_with "-----" line)) (lines pem))).

(** [u8::is_ascii_whitespace], without vertical tab. *)
Definition is_ascii_whitespace (c : ascii) : bool :=
  (byte c =? 32)%N || (byte c =? 9)%N || (byte c =? 10)%N || (byte c =? 12)%N || (byte c =? 13)%N.

(** The inner function [value]. *)
Definition base64_value (c : ascii) : option Z :=
  let b := Z.of_N (byte c) in
  if is_ascii_upper c then Some (b - 65)%Z
  else if is_ascii_lower c then Some (b - 97 + 26)%Z
  else if is_ascii_digit c then Some (b - 48 + 52)%Z
  else if Ascii.eqb c "+" then Some 62%Z
  else if Ascii.eqb c "/" then Some 63%Z
  else None.

Record DecodeState := { ds_out : bytes; ds_acc : Z; ds_bits : Z }.

(** One round of the loop: [acc] is a [u32], so the bits shifted out at the top are lost. *)
Definition decode_step (st : DecodeState) (six : Z) : DecodeState :=
  let acc := Z.lor ((Z.shiftl (ds_acc st) 6) mod 2 ^ 32)%Z six in
  let bits := (ds_bits st + 6)%Z in
  if (8 <=? bits)%Z then
    let bits := (bits - 8)%Z in
    {| ds_out := (ds_out st ++ [Z.land (Z.shiftr acc bits) 255])%list; ds_acc := acc; ds_bits := bits |}
  else {| ds_out := ds_out st; ds_acc := acc; ds_bits := bits |}.

Fixpoint decode_loop (input : string) (st : DecodeState) : option bytes :=
  match input with
  | EmptyString => Some (ds_out st)
  | String c input' =>
      if Ascii.eqb c "=" || is_ascii_whitespace c then decode_loop input' st
      else let?? six := base64_value c in decode_loop input' (decode_step st six)
  end.

(** [decode_base64]; [None] is the error for an unexpected character. *)
Definition decode_base64 (input : string) : option bytes :=
  decode_loop input {| ds_out := []; ds_acc := 0; ds_bits := 0 |}.

(** [pem_to_der] *)
Definition pem_to_der (pem : string) : option bytes := decode_base64 (pem_body pem).

(** ** The reference: base64 as RFC 4648 writes it *)

Definition base64_char (v : Z) : ascii :=
  ascii_of_N (Z.to_N
    (if v <? 26 then v + 65 else if v <? 52 then v - 26 + 97 else if v <? 62 then v - 52 + 48
     else if v =? 62 then 43 else 47)%Z).

Fixpoint base64_encode (bs : bytes) : string :=
  match bs with
  | [] => ""
  | [a] =>
      String (base64_char (a / 4)) (String (base64_char (a mod 4 * 16)) "==")
  | [a; b] =>
      String (base64_char (a / 4)) (String (base64_char (a mod 4 * 16 + b / 16))
        (String (base64_char (b mod 16 * 4)) "="))
  | a :: b :: c :: bs' =>
      String (base64_char (a / 4)) (String (base64_char (a mod 4 * 16 + b / 16))
        (String (base64_char (b mod 16 * 4 + c / 64)) (String (base64_char (c mod 64))
          (base64_encode bs'))))
  end%Z.

Example base64_arterm : decode_base64 "YXJ0ZXJt" = Some [97; 114; 116; 101; 114; 109]%Z.
Proof. by vm_compute. Qed.

(** ** Correctness of the decoder *)

(** The six-bit values of the alphabet are read back, and are neither padding nor space. *)
Lemma base64_char_value v :
  (0 ≤ v < 64)%Z →
  base64_value (base64_char v) = Some v ∧
  Ascii.eqb (base64_char v) "=" || is_ascii_whitespace (base64_char v) = false.
Proof.
  intros Hv.
  assert (Hall : Forall (λ n, base64_value (base64_char (Z.of_nat n)) = Some (Z.of_nat n) ∧
    Ascii.eqb (base64_char (Z.of_nat n)) "=" || is_ascii_whitespace (base64_char (Z.of_nat n)) = false)
    (seq 0 64)).
  { apply (bool_decide_unpack _). by vm_compute. }
  rewrite list.Forall_forall in Hall. specialize (Hall (Z.to_nat v)).
  rewrite Z2Nat.id in Hall by lia. apply Hall. apply elem_of_seq. lia.
Qed.

Lemma decode_loop_char v input st :
  (0 ≤ v < 64)%Z → decode_loop (String (base64_char v) input) st = decode_loop input (decode_step st v).
Proof.
  intros Hv. destruct (base64_char_value v Hv) as [H1 H2]. cbn [decode_loop]. by rewrite H2, H1.
Qed.

Lemma lor_low_six x six : (0 ≤ six < 64)%Z → Z.lor (x * 64) six = (x * 64 + six)%Z.
Proof.
  intros Hs. rewrite <- Z.add_lor_land. replace (Z.land (x * 64) six) with 0%Z; [lia|].
  symmetry. apply Z.bits_inj_0. intros n. rewrite Z.land_spec.
  change 64%Z with (2 ^ 6)%Z. destruct (Z.ltb_spec n 6).
  - destruct (Z.ltb_spec n 0); [by rewrite Z.testbit_neg_r|]. by rewrite Z.mul_pow2_bits_low.
  - rewrite (Z.bits_above_log2 six n), andb_false_r; [done|lia|].
    destruct (Z.eq_dec six 0%Z) as [->|]; [simpl; lia|]. apply Z.log2_lt_pow2; [lia|].
    apply Z.lt_le_trans with (2 ^ 6)%Z; [lia|]. apply Z.pow_le_mono_r; lia.
Qed.

(** The accumulator after a character, without the bits that were shifted out. *)
Lemma acc_low acc bits six :
  (0 ≤ bits < 8)%Z → (0 ≤ six < 64)%Z →
  (Z.lor (Z.shiftl acc 6 mod 2 ^ 32) six mod 2 ^ (bits + 6) = acc mod 2 ^ bits * 64 + six)%Z.
Proof.
  intros Hb Hs. rewrite Z.shiftl_mul_pow2 by lia.
  replace ((acc * 2 ^ 6) mod 2 ^ 32)%Z with (acc mod 2 ^ 26 * 64)%Z.
  2: { change (2 ^ 32)%Z with (2 ^ 26 * 2 ^ 6)%Z. by rewrite Z.mul_mod_distr_r by lia. }
  rewrite lor_low_six by done. symmetry.
  assert (Hpow : (2 ^ (bits + 6) = 2 ^ bits * 64)%Z) by (by rewrite Z.pow_add_r by lia).
  assert (Hsplit : (acc mod 2 ^ bits = acc mod 2 ^ 26 mod 2 ^ bits)%Z).
  { rewrite Z.mod_mod_divide; [done|]. exists (2 ^ (26 - bits))%Z. rewrite <- Z.pow_add_r by lia.
    f_equal. lia. }
  rewrite Hsplit. set (a := (acc mod 2 ^ 26)%Z).
  pose proof (Z.pow_pos_nonneg 2 bits ltac:(lia) ltac:(lia)) as Hp.
  pose proof (Z.mod_pos_bound a (2 ^ bits) Hp). pose proof (Z.div_mod a (2 ^ bits) ltac:(lia)).
  apply Z.mod_unique with (a / 2 ^ bits)%Z; [left|]; rewrite Hpow; nia.
Qed.

(** What the decoder holds: the [bits] low bits of the accumulator. *)
Definition held (st : DecodeState) : Z := (ds_acc st mod 2 ^ ds_bits st)%Z.

Lemma decode_step_emit st six :
  (2 ≤ ds_bits st < 8)%Z → (0 ≤ six < 64)%Z →
  let low := (held st * 64 + six)%Z in
  ds_bits (decode_step st six) = (ds_bits st - 2)%Z ∧
  ds_out (decode_step st six) = (ds_out st ++ [low / 2 ^ (ds_bits st - 2)])%list%Z ∧
  held (decode_step st six) = (low mod 2 ^ (ds_bits st - 2))%Z.
Proof.
  intros Hb Hs. destruct st as [out acc bits]. unfold held, decode_step. cbn [ds_out ds_acc ds_bits] in *.
  rewrite (proj2 (Z.leb_le 8 (bits + 6))) by lia. cbv zeta. cbn [ds_out ds_acc ds_bits].
  rewrite <- (acc_low acc bits six) by lia. set (acc' := Z.lor _ six).
  replace (bits + 6 - 8)%Z with (bits - 2)%Z by lia. split; [done|]. split.
  - do 2 f_equal. change 255%Z with (Z.ones 8). rewrite Z.land_ones, Z.shiftr_div_pow2 by lia.
    replace (bits + 6)%Z with (bits - 2 + 8)%Z by lia. rewrite Z.pow_add_r by lia.
    rewrite Z.rem_mul_r by (try apply Z.pow_nonzero; lia).
    rewrite (Z.mul_comm (2 ^ (bits - 2))), Z.div_add by (apply Z.pow_nonzero; lia).
    rewrite (Z.div_small (acc' mod 2 ^ (bits - 2))); [lia|]. apply Z.mod_pos_bound, Z.pow_pos_nonneg; lia.
  - rewrite Z.mod_mod_divide; [done|]. exists (2 ^ 8)%Z. rewrite <- Z.pow_add_r by lia. f_equal. lia.
Qed.

Lemma decode_step_hold st six :
  ds_bits st = 0%Z → (0 ≤ six < 64)%Z →
  ds_bits (decode_step st six) = 6%Z ∧ ds_out (decode_step st six) = ds_out st ∧
  held (decode_step st six) = six.
Proof.
  intros Hb Hs. destruct st as [out acc bits]. unfold held, decode_step. cbn [ds_out ds_acc ds_bits] in *.
  subst bits. change (8 <=? 0 + 6)%Z with false. cbn [ds_out ds_acc ds_bits]. split; [done|]. split; [done|].
  rewrite (acc_low acc 0 six) by lia. rewrite Z.mod_1_r. lia.
Qed.

Lemma decode_two out acc a b :
  (0 ≤ a < 64)%Z → (0 ≤ b < 64)%Z →
  let st := decode_step (decode_step {| ds_out := out; ds_acc := acc; ds_bits := 0 |} a) b in
  ds_bits st = 4%Z ∧ ds_out st = (out ++ [a * 4 + b / 16])%list%Z ∧ held st = (b mod 16)%Z.
Proof.
  intros Ha Hb. destruct (decode_step_hold {| ds_out := out; ds_acc := acc; ds_bits := 0 |} a) as (H1 & H2 & H3); [done..|].
  set (st1 := decode_step _ a) in *. destruct (decode_step_emit st1 b) as (H4 & H5 & H6); [lia..|].
  rewrite H1, H3 in *. rewrite H2 in H5. cbn [ds_out] in H5. change (2 ^ (6 - 2))%Z with 16%Z in *.
  split; [done|]. rewrite H5, H6. split.
  - do 2 f_equal. replace (a * 64 + b)%Z with (b + a * 4 * 16)%Z by lia. rewrite Z.div_add by lia. lia.
  - replace (a * 64 + b)%Z with (b + a * 4 * 16)%Z by lia. by rewrite Z.mod_add by lia.
Qed.

Lemma decode_three out acc a b c :
  (0 ≤ a < 64)%Z → (0 ≤ b < 64)%Z → (0 ≤ c < 64)%Z →
  let st := decode_step (decode_step (decode_step {| ds_out := out; ds_acc := acc; ds_bits := 0 |} a) b) c in
  ds_bits st = 2%Z ∧ ds_out st = (out ++ [a * 4 + b / 16; b mod 16 * 16 + c / 4])%list%Z ∧ held st = (c mod 4)%Z.
Proof.
  intros Ha Hb Hc. destruct (decode_two out acc a b Ha Hb) as (H1 & H2 & H3).
  set (st1 := decode_step (decode_step _ a) b) in *.
  destruct (decode_step_emit st1 c) as (H4 & H5 & H6); [lia..|].
  rewrite H1, H3 in *. rewrite H2 in H5. change (2 ^ (4 - 2))%Z with 4%Z in *.
  split; [done|]. rewrite H5, H6. split.
  - rewrite <- app_assoc. simpl. do 3 f_equal.
    replace (b mod 16 * 64 + c)%Z with (c + b mod 16 * 16 * 4)%Z by lia. rewrite Z.div_add by lia. lia.
  - replace (b mod 16 * 64 + c)%Z with (c + b mod 16 * 16 * 4)%Z by lia. by rewrite Z.mod_add by lia.
Qed.

Lemma decode_four out acc a b c d :
  (0 ≤ a < 64)%Z → (0 ≤ b < 64)%Z → (0 ≤ c < 64)%Z → (0 ≤ d < 64)%Z →
  let st := decode_step (decode_step (decode_step (decode_step
              {| ds_out := out; ds_acc := acc; ds_bits := 0 |} a) b) c) d in
  ds_bits st = 0%Z ∧
  ds_out st = (out ++ [a * 4 + b / 16; b mod 16 * 16 + c / 4; c mod 4 * 64 + d])%list%Z.
Proof.
  intros Ha Hb Hc Hd. destruct (decode_three out acc a b c Ha Hb Hc) as (H1 & H2 & H3).
  set (st1 := decode_step (decode_step (decode_step _ a) b) c) in *.
  destruct (decode_step_emit st1 d) as (H4 & H5 & _); [lia..|].
  rewrite H1, H3 in *. rewrite H2 in H5. change (2 ^ (2 - 2))%Z with 1%Z in *.
  split; [done|]. rewrite H5. rewrite <- app_assoc. simpl. do 4 f_equal. by rewrite Z.div_1_r.
Qed.

Lemma is_byte_iff b : is_byte b = true ↔ (0 ≤ b < 256)%Z.
Proof. unfold is_byte. rewrite andb_true_iff, Z.leb_le, Z.ltb_lt. done. Qed.

(** Induction three bytes at a time. *)
Lemma bytes_ind (P : bytes → Prop) :
  P [] → (∀ a, P [a]) → (∀ a b, P [a; b]) → (∀ a b c bs, P bs → P (a :: b :: c :: bs)) → ∀ bs, P bs.
Proof.
  intros H0 H1 H2 H3. fix IH 1. intros [|a [|b [|c bs]]]; [done|apply H1|apply H2|apply H3, IH].
Qed.

Lemma decode_loop_encode bs out acc :
  forallb is_byte bs = true →
  decode_loop (base64_encode bs) {| ds_out := out; ds_acc := acc; ds_bits := 0 |} = Some (out ++ bs)%list.
Proof.
  revert out acc. induction bs as [|a|a b|a b c bs IH] using bytes_ind; intros out acc Hbs;
    cbn [forallb] in Hbs; cbn [base64_encode].
  - by rewrite app_nil_r.
  - apply andb_true_iff in Hbs as [Ha%is_byte_iff _].
    rewrite !decode_loop_char by (Z.div_mod_to_equations; lia).
    destruct (decode_two out acc (a / 4) (a mod 4 * 16)) as (_ & H & _);
      [Z.div_mod_to_equations; lia..|]. cbn. rewrite H. do 3 f_equal. Z.div_mod_to_equations; lia.
  - apply andb_true_iff in Hbs as [Ha%is_byte_iff [Hb%is_byte_iff _]%andb_true_iff].
    rewrite !decode_loop_char by (Z.div_mod_to_equations; lia).
    destruct (decode_three out acc (a / 4) (a mod 4 * 16 + b / 16) (b mod 16 * 4)) as (_ & H & _);
      [Z.div_mod_to_equations; lia..|]. cbn. rewrite H. do 2 f_equal.
    f_equal; [|f_equal]; Z.div_mod_to_equations; lia.
  - apply andb_true_iff in Hbs as [Ha%is_byte_iff [Hb%is_byte_iff [Hc%is_byte_iff Hbs]%andb_true_iff]%andb_true_iff].
    rewrite !decode_loop_char by (Z.div_mod_to_equations; lia).
    destruct (decode_four out acc (a / 4) (a mod 4 * 16 + b / 16) (b mod 16 * 4 + c / 64) (c mod 64)) as (H0 & H);
      [Z.div_mod_to_equations; lia..|].
    set (st := decode_step _ (c mod 64)) in *. destruct st as [o' a' b']. cbn [ds_out ds_bits] in *.
    subst b' o'. rewrite IH, <- app_assoc by done. simpl. do 2 f_equal.
    f_equal; [|f_equal; [|f_equal]]; Z.div_mod_to_equations; lia.
Qed.

(** The base64 decoder inverts RFC 4648 encoding for every byte string, with a 32-bit
    accumulator that overflows after six characters. *)
Theorem decode_base64_roundtrip bs :
  forallb is_byte bs = true → decode_base64 (base64_encode bs) = Some bs.
Proof. intros Hbs. by apply (decode_loop_encode bs [] 0%Z). Qed.

Lemma decode_base64_roundtrip_witness :
  decode_base64 (base64_encode [0; 255; 16; 131; 16; 81; 135]%Z) = Some [0; 255; 16; 131; 16; 81; 135]%Z.
Proof. by apply decode_base64_roundtrip. Defined.
