(* ===== verification/DeviceStores.v ===== *)
(** * [arterm-device]: invites, joins and trust (src/invite.rs, join.rs, trust.rs)

    Each store is a file with a JSON list.  A file is absent, present with its list, or in a state
    that [load] reports as an error; JSON and disk are outside the model, so a [save] puts the
    list back.  [now] is the clock, in the unit of the timestamps. *)

From S2P Require Export DeviceIdentity.

Inductive StoreFile (A : Type) :=
  | NotFound
  | Damaged
  | Stored (l : list A).
Arguments NotFound {A}.
Arguments Damaged {A}.
Arguments Stored {A} l.

(** The [match std::fs::read_to_string(..)] that the three stores share; [None] is the error. *)
Definition read_store {A} (file : StoreFile A) : option (list A) :=
  match file with NotFound => Some [] | Damaged => None | Stored l => Some l end.

(** ** Invites *)

Definition INVITE_LIFETIME_SECS : Z := 600.
Definition SCHEME : string := "arterm://".
Definition PAIRING_ATTEMPTS : N := 5.

Record Invite := { i_address : string; i_fingerprint : Fingerprint; i_secret : string }.

Record PendingInvite := {
  pi_secret : string;
  pi_address : string;
  pi_expires_at : string;
  pi_attempts_left : N;
}.

#[export] Instance PendingInvite_eq_dec : EqDecision PendingInvite.
Proof. solve_decision. Defined.

(** The part of [Invite::mint] and [Invite::mint_code] after the secret was drawn. *)
Definition mint (address : string) (fingerprint : Fingerprint) (secret : string) : option Invite :=
  let address := trim address in
  if is_empty address then None
  else Some {| i_address := address; i_fingerprint := fingerprint; i_secret := secret |}.

(** [format!("{code:06}")] *)
Definition code_secret (code : N) : string :=
  let digits := show_N code in
  String.concat "" (replicate (6 - String.length digits) "0") +:+ digits.

Definition spaced_secret (invite : Invite) : string :=
  let s := i_secret invite in
  if bool_decide (String.length s = 6) && string_forallb is_ascii_digit s
  then str_take 3 s +:+ " " +:+ str_drop 3 s else s.

Inductive InviteError :=
  | NoScheme | NoHash | NoDot | NoAddress | NoSecret | BadFingerprint (e : HexError).

Definition secrets_match (stored offered : string) : bool :=
  let stored := String.list_ascii_of_string stored in
  let offered := String.list_ascii_of_string offered in
  if negb (bool_decide (length stored = length offered)) then false
  else
    (fold_left (λ difference p, N.lor difference (N.lxor (byte p.1) (byte p.2)))
       (combine stored offered) 0 =? 0)%N.

(** [v.remove(index)] *)
Definition remove_at {A} (i : nat) (l : list A) : list A := take i l ++ drop (S i) l.

Section stores.
Context `{DeviceLib}.

(** [Invite::to_token] *)
Definition to_token (invite : Invite) : string :=
  SCHEME +:+ i_address invite +:+ "#" +:+ to_hex (i_fingerprint invite) +:+ "." +:+ i_secret invite.

(** [Invite::parse] *)
Definition parse (token : string) : result Invite InviteError :=
  let token := trim token in
  match strip_prefix SCHEME token with
  | None => Err NoScheme
  | Some body =>
      match split_once "#" body with
      | None => Err NoHash
      | Some (address, rest) =>
          match split_once "." rest with
          | None => Err NoDot
          | Some (fingerprint, secret) =>
              if is_empty (trim address) then Err NoAddress
              else if is_empty (trim secret) then Err NoSecret
              else match from_hex fingerprint with
                   | Err e => Err (BadFingerprint e)
                   | Ok fingerprint =>
                       Ok {| i_address := address; i_fingerprint := fingerprint; i_secret := secret |}
                   end
          end
      end
  end.

(** The predicate of both [prune] functions. *)
Definition unexpired (now : Z) (expires_at : string) : bool :=
  match parse_rfc3339 expires_at with Some expiry => (now <? expiry)%Z | None => false end.

(** [PendingInvites::prune] *)
Definition prune_invites (now : Z) (invites : list PendingInvite) : list PendingInvite :=
  List.filter (λ i, unexpired now (pi_expires_at i)) invites.

(** [PendingInvites::load_at]: the pruned list, and the file as the pruning leaves it. *)
Definition load_invites (now : Z) (file : StoreFile PendingInvite) :
    option (StoreFile PendingInvite * list PendingInvite) :=
  let?? raw := read_store file in
  let invites := prune_invites now raw in
  Some (if bool_decide (length invites = length raw) then file else Stored invites, invites).

(** [PendingInvites::record] *)
Definition record_invite (now : Z) (invite : Invite) (invites : list PendingInvite) :
    list PendingInvite :=
  invites ++ [{| pi_secret := i_secret invite; pi_address := i_address invite;
                 pi_expires_at := to_rfc3339 (now + INVITE_LIFETIME_SECS);
                 pi_attempts_left := PAIRING_ATTEMPTS |}].

(** [PendingInvites::has_live] *)
Definition has_live (invites : list PendingInvite) : bool := negb (is_nil invites).

(** A wrong guess: [attempts_left] is decremented with saturation. *)
Definition charge (i : PendingInvite) : PendingInvite :=
  {| pi_secret := pi_secret i; pi_address := pi_address i; pi_expires_at := pi_expires_at i;
     pi_attempts_left := pi_attempts_left i - 1 |}.

Definition wrong_guess (invites : list PendingInvite) : list PendingInvite :=
  List.filter (λ i, (0 <? pi_attempts_left i)%N) (charge <$> invites).

(** [PendingInvites::consume] *)
Definition consume (secret : string) (invites : list PendingInvite) : list PendingInvite * bool :=
  let secret := trim secret in
  match position (λ i, secrets_match (pi_secret i) secret) invites with
  | Some index => (remove_at index invites, true)
  | None => (wrong_guess invites, false)
  end.

(** ** Joins *)

Record PendingJoin := {
  j_fingerprint : string;
  j_address : string;
  j_secret : string;
  j_expires_at : string;
}.

(** [PendingJoins::prune] *)
Definition prune_joins (now : Z) (joins : list PendingJoin) : list PendingJoin :=
  List.filter (λ j, unexpired now (j_expires_at j)) joins.

(** [PendingJoins::load_at] *)
Definition load_joins (now : Z) (file : StoreFile PendingJoin) :
    option (StoreFile PendingJoin * list PendingJoin) :=
  let?? raw := read_store file in
  let joins := prune_joins now raw in
  Some (if bool_decide (length joins = length raw) then file else Stored joins, joins).

(** [retain(|join| join.fingerprint != fingerprint)] *)
Definition without_join (fingerprint : string) (joins : list PendingJoin) : list PendingJoin :=
  List.filter (λ j, negb (String.eqb (j_fingerprint j) fingerprint)) joins.

(** [PendingJoins::record] *)
Definition record_join (now : Z) (invite : Invite) (joins : list PendingJoin) : list PendingJoin :=
  let fingerprint := to_hex (i_fingerprint invite) in
  without_join fingerprint joins ++
    [{| j_fingerprint := fingerprint; j_address := i_address invite; j_secret := i_secret invite;
        j_expires_at := to_rfc3339 (now + INVITE_LIFETIME_SECS) |}].

Definition find_join (fingerprint : Fingerprint) (joins : list PendingJoin) : option PendingJoin :=
  List.find (λ j, String.eqb (j_fingerprint j) (to_hex fingerprint)) joins.

(** [PendingJoins::secret_for], [address_for], [clear] *)
Definition secret_for (fingerprint : Fingerprint) (joins : list PendingJoin) : option string :=
  j_secret <$> find_join fingerprint joins.
Definition address_for (fingerprint : Fingerprint) (joins : list PendingJoin) : option string :=
  j_address <$> find_join fingerprint joins.
Definition clear_join (fingerprint : Fingerprint) (joins : list PendingJoin) : list PendingJoin :=
  without_join (to_hex fingerprint) joins.

(** ** Trust *)

Record TrustedDevice := {
  td_fingerprint : string;
  td_name : string;
  td_address : option string;
  td_paired_at : string;
}.

(** [TrustStore::load_at] *)
Definition load_trust (file : StoreFile TrustedDevice) : option (list TrustedDevice) := read_store file.

(** [TrustStore::find] *)
Definition find_device (fingerprint : Fingerprint) (devices : list TrustedDevice) :
    option TrustedDevice :=
  List.find (λ d, String.eqb (td_fingerprint d) (to_hex fingerprint)) devices.

(** [TrustStore::trust] *)
Definition trust (device : TrustedDevice) (devices : list TrustedDevice) : list TrustedDevice :=
  List.filter (λ d, negb (String.eqb (td_fingerprint d) (td_fingerprint device))) devices ++ [device].

(** The free function [answers_to] of trust.rs. *)
Definition stored_answers_to (stored typed : string) : bool :=
  match from_hex stored with
  | Ok fingerprint => answers_to fingerprint typed
  | Err _ => String.eqb (trim stored) (trim typed)
  end.

Definition names_device (needle : string) (d : TrustedDevice) : bool :=
  String.eqb (td_name d) (trim needle) || stored_answers_to (td_fingerprint d) needle.

Definition position_of (needle : string) (devices : list TrustedDevice) : option nat :=
  position (names_device needle) devices.

(** [TrustStore::find_by_name_or_fingerprint] *)
Definition find_by_name_or_fingerprint (needle : string) (devices : list TrustedDevice) :
    option TrustedDevice :=
  let?? index := position_of needle devices in devices !! index.

(** [TrustStore::forget] *)
Definition forget_device (needle : string) (devices : list TrustedDevice) :
    list TrustedDevice * option TrustedDevice :=
  match position_of needle devices with
  | Some index => (remove_at index devices, devices !! index)
  | None => (devices, None)
  end.
End stores.
