(* ===== verification/DeviceTheorems.v ===== *)
(** * [arterm-device]: the theorems on fingerprints, invites and trust *)

From S2P Require Export DeviceStores.

(** ** Text that [canonical] and [trim] leave alone *)

Lemma lower_hex_solid c :
  is_lower_hex c = true →
  solid c = true ∧ is_grouping c = false ∧ to_ascii_lowercase_char c = c ∧
  Ascii.eqb c "." = false ∧ Ascii.eqb c "#" = false.
Proof. by destruct c as [[] [] [] [] [] [] [] []]. Qed.

Lemma remove_ws_solid s : string_forallb solid s = true → remove_ws s = s.
Proof.
  induction s as [|a s IH]; [done|]. cbn [string_forallb]. intros [Ha Hs]%andb_true_iff.
  destruct (solid_spec a Ha) as (H1 & H2 & _ & H3 & _). specialize (IH Hs). cbn [remove_ws].
  rewrite H1. destruct s as [|b s]; [done|]. rewrite H2. destruct s as [|c s].
  - by rewrite IH.
  - by rewrite H3, IH.
Qed.

Lemma string_filter_all f s : string_forallb f s = true → string_filter f s = s.
Proof.
  induction s as [|c s IH]; [done|]. cbn. intros [Hc Hs]%andb_true_iff. by rewrite Hc, IH.
Qed.

Lemma canonical_hex s : string_forallb is_lower_hex s = true → canonical s = s.
Proof.
  intros Hs. unfold canonical. rewrite remove_ws_solid.
  - rewrite string_filter_all.
    + apply string_map_id. eapply string_forallb_impl; [|exact Hs]. intros c Hc.
      apply Ascii.eqb_eq. by apply lower_hex_solid.
    + eapply string_forallb_impl; [|exact Hs]. intros c Hc. apply negb_true_iff. by apply lower_hex_solid.
  - eapply string_forallb_impl; [|exact Hs]. intros c Hc. by apply lower_hex_solid.
Qed.

Lemma remove_ws_length s : String.length (remove_ws s) ≤ String.length s.
Proof.
  enough (H : ∀ n s, String.length s ≤ n → String.length (remove_ws s) ≤ String.length s) by by apply (H (String.length s)).
  clear s. intros n. induction n as [|n IH]; intros s Hn.
  { destruct s; [done|simpl in Hn; lia]. }
  destruct s as [|a s]; [done|]. cbn [remove_ws String.length] in *.
  assert (H1 : String.length (remove_ws s) ≤ String.length s) by (apply IH; lia).
  destruct (ws_ascii a); [lia|]. destruct s as [|b s]; [simpl; lia|].
  destruct (ws_two a b).
  { assert (String.length (remove_ws s) ≤ String.length s) by (apply IH; simpl in Hn; lia). simpl. lia. }
  destruct s as [|c s]; [simpl in *; lia|]. destruct (ws_three a b c).
  { assert (String.length (remove_ws s) ≤ String.length s) by (apply IH; simpl in Hn; lia). simpl. lia. }
  simpl in *. lia.
Qed.

Lemma canonical_length s : String.length (canonical s) ≤ String.length s.
Proof.
  unfold canonical, to_ascii_lowercase.
  assert (Hmap : ∀ f t, String.length (string_map f t) = String.length t).
  { intros f t. induction t as [|c t IH]; [done|]. simpl. by rewrite IH. }
  assert (Hfil : ∀ f t, String.length (string_filter f t) ≤ String.length t).
  { intros f t. induction t as [|c t IH]; [done|]. simpl. destruct (f c); simpl; lia. }
  rewrite Hmap. etransitivity; [apply Hfil|]. apply remove_ws_length.
Qed.

(** ** Fingerprints *)

Section fingerprint.
Context `{DeviceLibLaws}.

Lemma from_hex_to_hex f : fp_wf f → from_hex (to_hex f) = Ok f.
Proof.
  intros [Hl Hb]. unfold from_hex, to_hex. rewrite canonical_hex by apply hex_encode_digits.
  rewrite hex_decode_encode by done. rewrite bool_decide_true by done. by destruct f.
Qed.

Lemma to_hex_inj f g : fp_wf f → fp_wf g → to_hex f = to_hex g → f = g.
Proof.
  intros Hf Hg Heq. pose proof (from_hex_to_hex f Hf) as H1.
  rewrite Heq, from_hex_to_hex in H1 by done. congruence.
Qed.

Lemma to_hex_length f : fp_wf f → String.length (to_hex f) = 64.
Proof. intros [Hl _]. unfold to_hex. by rewrite hex_encode_length, Hl. Qed.

Lemma display_short f : String.length (to_display f) ≤ 19.
Proof.
  unfold to_display. destruct (fp_bytes f) as [|a [|b [|c [|d [|e [|g [|h [|i l]]]]]]]];
    vm_compute; lia.
Qed.

(** The full fingerprint, in any case and with any grouping, names exactly one device: what a
    person typed answers for a device if and only if it spells that device's certificate. *)
Theorem full_fingerprint_identifies f g typed :
  fp_wf f → fp_wf g → canonical typed = to_hex g →
  answers_to f typed = true ↔ f = g.
Proof.
  intros Hf Hg Hty. unfold answers_to. rewrite Hty, orb_true_iff, !String.eqb_eq. split.
  - intros [Heq|Heq]; [by apply to_hex_inj|].
    pose proof (to_hex_length g Hg) as Hl. pose proof (canonical_length (to_display f)).
    pose proof (display_short f). rewrite Heq in Hl. lia.
  - intros ->. by left.
Qed.
End fingerprint.

(** ** Invite tokens *)

(** No occurrence of a separator. *)
Definition free_of (c : ascii) (s : string) : bool := string_forallb (λ x, negb (Ascii.eqb c x)) s.

Lemma split_once_free c a b : free_of c a = true → split_once c (a +:+ String c b) = Some (a, b).
Proof.
  unfold free_of. induction a as [|x a IH]; cbn [string_forallb].
  - intros _. change ("" +:+ String c b) with (String c b). cbn [split_once]. by rewrite Ascii.eqb_refl.
  - intros [Hx%negb_true_iff Ha]%andb_true_iff.
    change (String x a +:+ String c b) with (String x (a +:+ String c b)). cbn [split_once].
    by rewrite Hx, IH.
Qed.

(** Solid text: what is printable and has no white space at its ends or anywhere. *)
Definition solid_text (s : string) : bool := negb (is_empty s) && string_forallb solid s.

Lemma string_last (s : string) : s ≠ "" → ∃ t c, s = t +:+ str1 c.
Proof.
  induction s as [|a s IH]; [done|]. intros _. destruct (decide (s = "")) as [->|Hs].
  - by exists "", a.
  - destruct (IH Hs) as (t & c & ->). by exists (String a t), c.
Qed.

Lemma trim_solid_ends pre s :
  string_forallb solid s = true → s ≠ "" → (∃ c t, pre +:+ s = String c t ∧ solid c = true) →
  trim (pre +:+ s) = pre +:+ s.
Proof.
  intros Hs Hne (c1 & t1 & H1 & Hc1). destruct (string_last s Hne) as (t & c2 & ->).
  pose proof (trim_padded "" (pre +:+ (t +:+ str1 c2)) "" c1 t1 c2 (pre +:+ t)) as Htrim.
  rewrite str_app_nil_r in Htrim. apply Htrim; [done|done|done|by rewrite str_app_assoc|done|].
  rewrite string_forallb_app in Hs. apply andb_true_iff in Hs as [_ Hs]. simpl in Hs.
  by rewrite andb_true_r in Hs.
Qed.

Lemma trim_solid s : solid_text s = true → trim s = s.
Proof.
  intros [Hne Hs]%andb_true_iff. apply negb_true_iff, is_empty_false in Hne.
  apply (trim_solid_ends "" s); [done|done|]. destruct s as [|c s]; [done|]. exists c, s.
  split; [done|]. simpl in Hs. by apply andb_true_iff in Hs as [? _].
Qed.

Lemma app_last (a b c d e f : string) :
  a +:+ b +:+ c +:+ d +:+ e +:+ f = (a +:+ b +:+ c +:+ d +:+ e) +:+ f.
Proof. by rewrite <- !str_app_assoc. Qed.

Section invite.
Context `{DeviceLibLaws}.

(** An invite survives being copied: parsing the token of an invite gives it back, for every
    address without [#] that is not blank, every 32-byte fingerprint and every secret without
    white space (hex secrets and six-digit codes are such). *)
Theorem invite_token_roundtrip invite :
  fp_wf (i_fingerprint invite) → free_of "#" (i_address invite) = true →
  is_empty (trim (i_address invite)) = false → solid_text (i_secret invite) = true →
  parse (to_token invite) = Ok invite.
Proof.
  intros Hf Ha Hblank Hsec. destruct invite as [address f secret]. cbn [i_address i_fingerprint i_secret] in *.
  unfold parse, to_token. cbn [i_address i_fingerprint i_secret].
  pose proof Hsec as [Hne Hs]%andb_true_iff. apply negb_true_iff, is_empty_false in Hne.
  assert (Htrim : trim (SCHEME +:+ address +:+ "#" +:+ to_hex f +:+ "." +:+ secret)
                  = SCHEME +:+ address +:+ "#" +:+ to_hex f +:+ "." +:+ secret).
  { rewrite app_last. apply trim_solid_ends; [done|done|]. unfold SCHEME. eexists _, _. by split. }
  rewrite Htrim. rewrite (proj2 (strip_prefix_Some SCHEME _ (address +:+ "#" +:+ to_hex f +:+ "." +:+ secret))) by done.
  change ("#" +:+ to_hex f +:+ "." +:+ secret) with (String "#" (to_hex f +:+ "." +:+ secret)).
  rewrite split_once_free by done.
  change ("." +:+ secret) with (String "." secret). rewrite split_once_free.
  - rewrite Hblank, (trim_solid secret) by done.
    rewrite (proj2 (is_empty_false secret) Hne). by rewrite from_hex_to_hex.
  - unfold free_of. eapply string_forallb_impl; [|apply hex_encode_digits]. intros c Hc.
    apply negb_true_iff. rewrite Ascii.eqb_sym. by apply lower_hex_solid.
Qed.
End invite.

(** ** Secrets *)

Lemma lor_fold_zero l d :
  fold_left (λ difference (p : ascii * ascii), N.lor difference (N.lxor (byte p.1) (byte p.2))) l d = 0%N ↔
  d = 0%N ∧ ∀ p, p ∈ l → p.1 = p.2.
Proof.
  revert d. induction l as [|p l IH]; intros d; cbn [fold_left].
  - split; [|by intros []]. intros ->. split; [done|]. intros p Hp. by apply elem_of_nil in Hp.
  - rewrite IH, N.lor_eq_0_iff, N.lxor_eq_0_iff. split.
    + intros [[-> Hp] Hl]. split; [done|]. intros q [Hq|Hq]%elem_of_cons; [|by apply Hl].
      unfold byte in Hp. subst q. rewrite <- (ascii_N_embedding p.1), <- (ascii_N_embedding p.2). by f_equal.
    + intros [-> Hl]. split; [split; [done|]|].
      * by rewrite (Hl p) by by left.
      * intros q Hq. apply Hl. by right.
Qed.

Lemma combine_all_eq (l k : list ascii) :
  length l = length k → (∀ p, p ∈ combine l k → p.1 = p.2) → l = k.
Proof.
  revert k. induction l as [|x l IH]; intros [|y k] Hlen H; simpl in *; try done.
  f_equal; [apply (H (x, y)); by left|]. apply IH; [lia|]. intros p Hp. apply H. by right.
Qed.

Lemma secrets_match_spec stored offered : secrets_match stored offered = true ↔ stored = offered.
Proof.
  unfold secrets_match. case_bool_decide as Hl; cbn [negb].
  - rewrite N.eqb_eq, lor_fold_zero. split.
    + intros [_ Hp]. apply combine_all_eq in Hp; [|done].
      rewrite <- (String.string_of_list_ascii_of_string stored), Hp.
      apply String.string_of_list_ascii_of_string.
    + intros ->. split; [done|]. intros p Hp. clear Hl.
      induction (String.list_ascii_of_string offered) as [|x l IH]; [by apply elem_of_nil in Hp|].
      simpl in Hp. apply elem_of_cons in Hp as [->|Hp]; [done|by apply IH].
  - split; [done|]. by intros ->.
Qed.

(** ** The life of an invite *)

Lemma remove_at_perm {A} (l : list A) i x : l !! i = Some x → l ≡ₚ x :: remove_at i l.
Proof.
  intros Hx. unfold remove_at. rewrite <- (take_drop_middle l i x Hx) at 1.
  by rewrite Permutation_middle.
Qed.

Section guesses.
Context `{DeviceLib}.

(** What can happen to the pending invites: the owner mints one, or a peer presents a secret;
    both first load the store, which drops what has expired. *)
Inductive InviteOp :=
  | Mint (now : Z) (invite : Invite)
  | Guess (now : Z) (secret : string).

(** The store after an operation, and the guess with its verdict. *)
Definition invite_step (op : InviteOp) (l : list PendingInvite) : list PendingInvite * list (string * bool) :=
  match op with
  | Mint now invite => (record_invite now invite (prune_invites now l), [])
  | Guess now secret =>
      let '(l, found) := consume secret (prune_invites now l) in (l, [(trim secret, found)])
  end.

Fixpoint invite_run (ops : list InviteOp) (l : list PendingInvite) :
    list PendingInvite * list (string * bool) :=
  match ops with
  | [] => (l, [])
  | op :: ops => let '(l, r) := invite_step op l in
                 let '(l, rs) := invite_run ops l in (l, (r ++ rs)%list)
  end.

Definition failures (rs : list (string * bool)) : N := N.of_nat (length (List.filter (λ r, negb r.2) rs)).
Definition successes (s : string) (rs : list (string * bool)) : nat :=
  length (List.filter (λ r, r.2 && String.eqb r.1 s) rs).

Definition minted (ops : list InviteOp) : list string :=
  omap (λ op, match op with Mint _ invite => Some (i_secret invite) | Guess _ _ => None end) ops.

Definition with_secret (s : string) (l : list PendingInvite) : nat :=
  length (List.filter (λ i, String.eqb (pi_secret i) s) l).

(** *** Five tries *)

Lemma wrong_guess_elem i l :
  i ∈ wrong_guess l → ∃ i0, i0 ∈ l ∧ pi_secret i0 = pi_secret i ∧
    (pi_attempts_left i0 = pi_attempts_left i + 1)%N ∧ (0 < pi_attempts_left i)%N.
Proof.
  unfold wrong_guess. intros [Hi%list_elem_of_In Hp%N.ltb_lt]%list_elem_of_In%filter_In.
  apply list_elem_of_fmap in Hi as (i0 & -> & Hi0). exists i0. cbn in *. split_and!; [done|done|lia|lia].
Qed.

Lemma prune_elem now i l : i ∈ prune_invites now l → i ∈ l.
Proof. unfold prune_invites. by intros [Hi%list_elem_of_In _]%list_elem_of_In%filter_In. Qed.

Lemma remove_at_elem {A} (l : list A) n x : x ∈ remove_at n l → x ∈ l.
Proof.
  unfold remove_at. intros [Hx|Hx]%elem_of_app; [by apply (subseteq_take n l)|by apply (subseteq_drop (S n) l)].
Qed.

(** An operation in terms of the allowances: a survivor has paid for every failed guess. *)
Lemma invite_step_attempts op l l' r :
  invite_step op l = (l', r) →
  ∀ i, i ∈ l' →
    (∃ now invite, op = Mint now invite ∧ pi_secret i = i_secret invite ∧
                   pi_attempts_left i = PAIRING_ATTEMPTS) ∨
    ∃ i0, i0 ∈ l ∧ pi_secret i0 = pi_secret i ∧
          (pi_attempts_left i0 = pi_attempts_left i + failures r)%N ∧
          (0 < pi_attempts_left i0 → 0 < pi_attempts_left i)%N.
Proof.
  destruct op as [now invite|now secret]; cbn [invite_step].
  - intros [= <- <-] i. unfold record_invite. intros [Hi|Hi]%elem_of_app.
    + right. exists i. unfold failures. simpl. split; [by eapply prune_elem|]. split_and!; [done|lia|done].
    + apply list_elem_of_singleton in Hi as ->. left. by exists now, invite.
  - unfold consume. destruct (position _ _) as [n|] eqn:Hp; intros [= <- <-] i Hi; right.
    + exists i. unfold failures. simpl. split; [by eapply prune_elem, remove_at_elem|]. split_and!; [done|lia|done].
    + apply wrong_guess_elem in Hi as (i0 & Hi0 & Hs & Ha & Hpos). exists i0. unfold failures. simpl.
      split; [by eapply prune_elem|]. split_and!; [done|lia|lia].
Qed.

Lemma failures_app a b : failures (a ++ b) = (failures a + failures b)%N.
Proof. unfold failures. rewrite List.filter_app, length_app. lia. Qed.

Lemma invite_run_attempts ops l l' rs :
  invite_run ops l = (l', rs) →
  ∀ i, i ∈ l' → pi_secret i ∈ minted ops ∨
    ∃ i0, i0 ∈ l ∧ pi_secret i0 = pi_secret i ∧
          (pi_attempts_left i0 = pi_attempts_left i + failures rs)%N ∧
          (0 < pi_attempts_left i0 → 0 < pi_attempts_left i)%N.
Proof.
  revert l l' rs. induction ops as [|op ops IH]; intros l l' rs; cbn [invite_run].
  { intros [= <- <-] i Hi. right. exists i. unfold failures. simpl. split_and!; [done|done|lia|done]. }
  destruct (invite_step op l) as [l1 r1] eqn:H1. destruct (invite_run ops l1) as [l2 r2] eqn:H2.
  intros [= <- <-] i Hi. rewrite failures_app.
  destruct (IH _ _ _ H2 i Hi) as [Hm|(i1 & Hi1 & Hs1 & Ha1 & Hp1)].
  { left. unfold minted. cbn. destruct op; [by right|done]. }
  destruct (invite_step_attempts _ _ _ _ H1 i1 Hi1) as [(now & invite & -> & Hs & _)|(i0 & Hi0 & Hs0 & Ha0 & Hp0)].
  - left. rewrite <- Hs1, Hs. unfold minted. cbn. by left.
  - right. exists i0. split; [done|]. split; [congruence|]. split; [lia|]. intros Hpos. by apply Hp1, Hp0.
Qed.

(** C20. Five tries: whatever the order in which invites are minted and secrets presented, once five
    presented secrets have been refused no invite is left but those minted since. *)
Theorem five_wrong_guesses ops l l' rs :
  Forall (λ i, (0 < pi_attempts_left i ≤ PAIRING_ATTEMPTS)%N) l →
  invite_run ops l = (l', rs) → (5 ≤ failures rs)%N →
  ∀ i, i ∈ l' → pi_secret i ∈ minted ops.
Proof.
  intros Hl Hrun Hf i Hi. destruct (invite_run_attempts _ _ _ _ Hrun i Hi) as [Hm|(i0 & Hi0 & _ & Ha & Hp)]; [done|].
  rewrite list.Forall_forall in Hl. specialize (Hl i0 Hi0). unfold PAIRING_ATTEMPTS in Hl.
  assert (0 < pi_attempts_left i)%N by (apply Hp; lia). lia.
Qed.

(** *** Single use *)

Lemma with_secret_app s a b : with_secret s (a ++ b) = with_secret s a + with_secret s b.
Proof. unfold with_secret. by rewrite List.filter_app, length_app. Qed.

Lemma with_secret_perm s a b : a ≡ₚ b → with_secret s a = with_secret s b.
Proof. unfold with_secret. induction 1; simpl; repeat case_match; simpl; congruence. Qed.

Lemma with_secret_filter s f l : with_secret s (List.filter f l) ≤ with_secret s l.
Proof.
  unfold with_secret. induction l as [|i l IH]; simpl; [done|].
  destruct (f i), (String.eqb (pi_secret i) s) eqn:Hs; simpl; rewrite ?Hs; simpl; lia.
Qed.

Lemma with_secret_charge s l : with_secret s (charge <$> l) = with_secret s l.
Proof. unfold with_secret. induction l as [|i l IH]; [done|]. rewrite fmap_cons. cbn. destruct (String.eqb (pi_secret i) s); cbn; by rewrite IH. Qed.

Lemma invite_step_single op l l' r s :
  invite_step op l = (l', r) →
  with_secret s l' + successes s r ≤ with_secret s l + length (List.filter (String.eqb s) (minted [op])).
Proof.
  destruct op as [now invite|now secret]; cbn [invite_step].
  - intros [= <- <-]. unfold record_invite. rewrite with_secret_app.
    pose proof (with_secret_filter s (λ i, unexpired now (pi_expires_at i)) l) as Hp.
    fold (prune_invites now l) in Hp. unfold successes, minted, with_secret at 2. cbn.
    rewrite (String.eqb_sym s). destruct (String.eqb (i_secret invite) s); simpl; lia.
  - pose proof (with_secret_filter s (λ i, unexpired now (pi_expires_at i)) l) as Hp.
    fold (prune_invites now l) in Hp. unfold consume.
    destruct (position _ _) as [n|] eqn:Hpos; intros [= <- <-]; unfold successes; simpl.
    + apply position_Some in Hpos as (x & Hx & Hm%secrets_match_spec).
      rewrite (with_secret_perm s _ _ (remove_at_perm _ _ _ Hx)) in Hp.
      change (x :: remove_at n (prune_invites now l)) with ([x] ++ remove_at n (prune_invites now l))%list in Hp.
      rewrite with_secret_app in Hp. unfold with_secret at 1 in Hp. cbn in Hp. rewrite Hm in Hp.
      destruct (String.eqb (trim secret) s); simpl in *; lia.
    + unfold wrong_guess. pose proof (with_secret_filter s (λ i, 0 <? pi_attempts_left i)%N (charge <$> prune_invites now l)) as Hw.
      rewrite with_secret_charge in Hw. lia.
Qed.

(** Single use: the number of times a secret is accepted never exceeds the number of invites
    that carry it, however minting and guessing interleave. *)
Theorem secret_spent_once ops l l' rs s :
  invite_run ops l = (l', rs) →
  successes s rs ≤ with_secret s l + length (List.filter (String.eqb s) (minted ops)).
Proof.
  enough (Hall : ∀ l l' rs, invite_run ops l = (l', rs) →
    with_secret s l' + successes s rs ≤ with_secret s l + length (List.filter (String.eqb s) (minted ops))).
  { intros Hrun. specialize (Hall _ _ _ Hrun). lia. }
  clear. induction ops as [|op ops IH]; intros l l' rs; cbn [invite_run].
  { intros [= <- <-]. unfold successes. simpl. lia. }
  destruct (invite_step op l) as [l1 r1] eqn:H1. destruct (invite_run ops l1) as [l2 r2] eqn:H2.
  intros [= <- <-]. specialize (IH _ _ _ H2). apply (invite_step_single op l l1 r1 s) in H1.
  assert (Hs : successes s (r1 ++ r2) = successes s r1 + successes s r2).
  { unfold successes. by rewrite List.filter_app, length_app. }
  assert (Hm : minted (op :: ops) = (minted [op] ++ minted ops)%list) by by destruct op.
  rewrite Hs, Hm, List.filter_app, length_app. lia.
Qed.
End guesses.

(** * [arterm-device]: the parameters can be met

    A concrete [hex] and a concrete timestamp text that satisfy [DeviceLibLaws], and the
    theorems of [DeviceTheorems] applied with them to the inputs of the crate's tests. *)

(** ** Lowercase hex *)

Definition lower_digit (d : Z) : ascii :=
  if (d <? 10)%Z then ascii_of_N (Z.to_N (48 + d)) else ascii_of_N (Z.to_N (87 + d)).

Definition digit_value (c : ascii) : option Z :=
  let b := Z.of_N (byte c) in
  if ((48 <=? b) && (b <=? 57))%Z then Some (b - 48)%Z
  else if ((97 <=? b) && (b <=? 102))%Z then Some (b - 87)%Z
  else None.

Fixpoint plain_hex (bs : bytes) : string :=
  match bs with
  | [] => EmptyString
  | b :: bs => let b := (b mod 256)%Z in
               String (lower_digit (b / 16)) (String (lower_digit (b mod 16)) (plain_hex bs))
  end.

Fixpoint plain_unhex (s : string) : option bytes :=
  match s with
  | EmptyString => Some []
  | String _ EmptyString => None
  | String a (String b s) =>
      let?? x := digit_value a in
      let?? y := digit_value b in
      let?? bs := plain_unhex s in Some ((16 * x + y)%Z :: bs)
  end.

(** ** Seconds as bits, the sign first *)

Fixpoint bits_of (p : positive) : string :=
  match p with
  | xH => EmptyString
  | xO p => String "0" (bits_of p)
  | xI p => String "1" (bits_of p)
  end.

Fixpoint of_bits (s : string) : positive :=
  match s with
  | EmptyString => xH
  | String c s => if Ascii.eqb c "0" then xO (of_bits s) else xI (of_bits s)
  end.

Definition plain_time (t : Z) : string :=
  match t with Z0 => "0" | Zpos p => String "+" (bits_of p) | Zneg p => String "-" (bits_of p) end.

Definition plain_untime (s : string) : option Z :=
  match s with
  | String c s' => if Ascii.eqb c "0" then Some 0%Z
                   else if Ascii.eqb c "+" then Some (Zpos (of_bits s'))
                   else if Ascii.eqb c "-" then Some (Zneg (of_bits s')) else None
  | EmptyString => None
  end.

#[export] Instance plain_lib : DeviceLib :=
  {| hex_encode := plain_hex; hex_decode := plain_unhex;
     to_rfc3339 := plain_time; parse_rfc3339 := plain_untime |}.

(** A property of the sixteen digits, checked on each. *)
Lemma below_16 (P : Z → Prop) d :
  (0 ≤ d < 16)%Z → Forall P (seqZ 0 16) → P d.
Proof.
  intros Hd HP. rewrite list.Forall_forall in HP. apply HP. apply elem_of_seqZ. lia.
Qed.

Lemma digit_value_lower d : (0 ≤ d < 16)%Z → digit_value (lower_digit d) = Some d.
Proof. intros Hd. pattern d. apply below_16; [done|]. repeat constructor. Qed.

Lemma lower_digit_hex d : (0 ≤ d < 16)%Z → is_lower_hex (lower_digit d) = true.
Proof. intros Hd. pattern d. apply below_16; [done|]. repeat constructor. Qed.

Lemma of_bits_of p : of_bits (bits_of p) = p.
Proof. induction p as [p IH|p IH|]; simpl; congruence. Qed.

#[export] Instance plain_laws : DeviceLibLaws.
Proof.
  split.
  - induction bs as [|b bs IH]; [done|]. cbn [forallb hex_encode hex_decode plain_lib plain_hex plain_unhex].
    intros [[H0 H256]%andb_true_iff Hbs]%andb_true_iff. apply Z.leb_le in H0. apply Z.ltb_lt in H256.
    rewrite (Z.mod_small b 256) by lia.
    rewrite !digit_value_lower by (split; [apply Z.div_pos||apply Z.mod_pos_bound|apply Z.div_lt_upper_bound||apply Z.mod_pos_bound]; lia).
    cbn in IH |- *. rewrite (IH Hbs). do 2 f_equal. rewrite <- Z.div_mod; [done|lia].
  - induction bs as [|b bs IH]; [done|]. cbn [hex_encode plain_lib plain_hex string_forallb] in *.
    pose proof (Z.mod_pos_bound b 256 ltac:(lia)).
    rewrite !lower_digit_hex, IH by (split; [apply Z.div_pos||apply Z.mod_pos_bound|apply Z.div_lt_upper_bound||apply Z.mod_pos_bound]; lia).
    done.
  - induction bs as [|b bs IH]; [done|]. cbn in *. lia.
  - intros [|p|p]; [done| |]; cbn; by rewrite of_bits_of.
Qed.

(** ** The theorems at work *)

Definition example_fp : Fingerprint := {| fp_bytes := seqZ 170 32 |}.
Definition other_fp : Fingerprint := {| fp_bytes := seqZ 100 32 |}.

Lemma full_fingerprint_identifies_witness :
  answers_to example_fp (to_hex example_fp) = true ∧ answers_to other_fp (to_hex example_fp) = false.
Proof.
  split.
  - apply (full_fingerprint_identifies example_fp example_fp _); [by split|by split|by vm_compute|done].
  - apply not_true_is_false. rewrite (full_fingerprint_identifies other_fp example_fp); [|by split|by split|by vm_compute].
    done.
Defined.

Definition example_invite : Invite :=
  {| i_address := "[fe80::1]:7644"; i_fingerprint := example_fp; i_secret := "042137" |}.

Lemma invite_token_roundtrip_witness :
  parse (to_token example_invite) = Ok example_invite.
Proof. apply (invite_token_roundtrip example_invite); by vm_compute. Defined.

(** Five guesses at a code, then the right one. *)
Definition guessing : list InviteOp :=
  [Mint 0 example_invite; Guess 1 "000000"; Guess 2 "000001"; Guess 3 "000002"; Guess 4 "000003";
   Guess 5 "000004"; Guess 6 "042137"].

Definition spent : list InviteOp :=
  [Mint 0 example_invite; Guess 1 " 042137 "; Guess 2 "042137"].

Lemma guesses_end : invite_run guessing [] =
  ([], [("000000", false); ("000001", false); ("000002", false); ("000003", false);
        ("000004", false); ("042137", false)]).
Proof. by vm_compute. Qed.

Definition waiting : list PendingInvite :=
  [{| pi_secret := "777777"; pi_address := "a:1"; pi_expires_at := plain_time 600; pi_attempts_left := 5 |}].

Definition later : Invite := {| i_address := "b:2"; i_fingerprint := other_fp; i_secret := "111111" |}.

Definition refused : list InviteOp :=
  [Guess 1 "000000"; Guess 2 "000001"; Mint 3 later; Guess 3 "000002"; Guess 4 "000003"; Guess 5 "000004"].

Lemma five_wrong_guesses_witness :
  pi_secret <$> fst (invite_run refused waiting) = ["111111"] ∧
  ∀ i, i ∈ fst (invite_run refused waiting) → pi_secret i ∈ minted refused.
Proof.
  split; [by vm_compute|].
  apply (five_wrong_guesses refused waiting _ (snd (invite_run refused waiting))).
  - repeat constructor; unfold PAIRING_ATTEMPTS; cbn; lia.
  - by destruct (invite_run refused waiting).
  - by vm_compute.
Defined.

Lemma secret_spent_once_witness :
  snd (invite_run spent []) = [("042137", true); ("042137", false)] ∧
  successes "042137" (snd (invite_run spent [])) ≤ 1.
Proof.
  split; [by vm_compute|].
  apply (secret_spent_once spent [] (fst (invite_run spent [])) _ "042137"). by vm_compute.
Defined.
