(* ===== verification/PeerSubnet.v ===== *)
(** * [arterm-peer]: which addresses are on this network (src/subnet.rs)

    An address is the list of its octets, as [Ipv4Addr::octets] and [Ipv6Addr::octets] give them
    ([ip_wf] is the length and the range the types have).  What the machine's interfaces are is an
    argument: [None] stands for a failed [if_addrs::get_if_addrs], and the interface record has
    the fields the source reads. *)

From S2P Require Export RustStr.

Notation octets := (list Z).

Definition is_octet (b : Z) : bool := (0 <=? b)%Z && (b <? 256)%Z.

Inductive IpAddr := V4 (o : octets) | V6 (o : octets).

#[export] Instance IpAddr_eq_dec : EqDecision IpAddr.
Proof. solve_decision. Defined.

Definition ip_wf (ip : IpAddr) : Prop :=
  match ip with
  | V4 o => length o = 4 ∧ forallb is_octet o = true
  | V6 o => length o = 16 ∧ forallb is_octet o = true
  end.

Record LocalNetwork := { ln_ip : IpAddr; prefix_len : nat }.

(** [Ipv6Addr::to_ipv4_mapped]: the form [::ffff:a.b.c.d]. *)
Definition to_ipv4_mapped (o : octets) : option octets :=
  if bool_decide (take 12 o = [0; 0; 0; 0; 0; 0; 0; 0; 0; 0; 255; 255]%Z) then Some (drop 12 o)
  else None.

(** The octet [l[i] & mask]; the index is in bounds where it is used. *)
Definition masked (mask : Z) (l : octets) (i : nat) : Z := Z.land (nth i l 0%Z) mask.

(** [same_prefix]; [mask] is [0xffu8 << (8 - leftover_bits)]. *)
Definition same_prefix (local peer : octets) (prefix_len : nat) : bool :=
  if negb (bool_decide (length local = length peer)) then false
  else
    let bits := prefix_len `min` (length local * 8) in
    let whole_bytes := bits `div` 8 in
    let leftover_bits := bits `mod` 8 in
    if negb (bool_decide (take whole_bytes local = take whole_bytes peer)) then false
    else if bool_decide (leftover_bits = 0) then true
    else
      let mask := (Z.shiftl 255 (8 - Z.of_nat leftover_bits) mod 256)%Z in
      (masked mask local whole_bytes =? masked mask peer whole_bytes)%Z.

(** [LocalNetwork::contains] *)
Definition network_contains (n : LocalNetwork) (peer : IpAddr) : bool :=
  match ln_ip n, peer with
  | V4 local, V4 peer => same_prefix local peer (prefix_len n)
  | V6 local, V6 peer =>
      match to_ipv4_mapped peer with
      | Some mapped =>
          match to_ipv4_mapped local with
          | Some local_v4 => same_prefix local_v4 mapped (prefix_len n)
          | None => false
          end
      | None => same_prefix local peer (prefix_len n)
      end
  | V4 local, V6 peer =>
      match to_ipv4_mapped peer with
      | Some mapped => same_prefix local mapped (prefix_len n)
      | None => false
      end
  | V6 _, V4 _ => false
  end.

(** ** Interfaces and the listener's policy *)

Inductive IfAddr :=
  | IfV4 (ip : octets) (prefixlen : nat) (netmask : octets)
  | IfV6 (ip : octets) (prefixlen : nat).

Record Interface := { if_name : string; if_addr : IfAddr }.

(** [local_networks] *)
Definition local_networks (interfaces : option (list Interface)) : option (list LocalNetwork) :=
  let?? interfaces := interfaces in
  Some ((λ i, match if_addr i with
              | IfV4 ip p _ => {| ln_ip := V4 ip; prefix_len := p |}
              | IfV6 ip p => {| ln_ip := V6 ip; prefix_len := p |}
              end) <$> interfaces).

(** [is_local_peer] *)
Definition is_local_peer (networks : list LocalNetwork) (peer : IpAddr) : bool :=
  existsb (λ n, network_contains n peer) networks.

Inductive SubnetPolicy := ThisMachine | Fixed (networks : list LocalNetwork).

(** [SubnetPolicy::admits]; [None] is the error of a failed interface read. *)
Definition policy_admits (interfaces : option (list Interface)) (p : SubnetPolicy) (peer : IpAddr) :
    option bool :=
  match p with
  | ThisMachine => let?? networks := local_networks interfaces in Some (is_local_peer networks peer)
  | Fixed networks => Some (is_local_peer networks peer)
  end.

(** connect.rs [first_local_candidate], on socket addresses (address, port). *)
Definition first_local_candidate (candidates : list (IpAddr * N)) (networks : list LocalNetwork) :
    option (IpAddr * N) :=
  List.find (λ c, is_local_peer networks c.1) candidates.

Inductive ResolveError := LookupFailed | NoAddress | NoInterfaces | NotLocal.

(** connect.rs [resolve_local_address]; [candidates] is what [lookup_host] returned. *)
Definition resolve_local_address (candidates : option (list (IpAddr * N)))
    (interfaces : option (list Interface)) : result (IpAddr * N) ResolveError :=
  match candidates with
  | None => Err LookupFailed
  | Some candidates =>
      if is_nil candidates then Err NoAddress
      else match local_networks interfaces with
           | None => Err NoInterfaces
           | Some networks =>
               match first_local_candidate candidates networks with
               | Some local => Ok local
               | None => Err NotLocal
               end
           end
  end.

(** ** The address to bind *)

(** The predicates of [std::net::Ipv4Addr] and [Ipv6Addr]. *)
Definition octet (o : octets) (i : nat) : Z := nth i o 0%Z.
Definition is_unspecified (o : octets) : bool := forallb (Z.eqb 0) o.
Definition is_loopback (o : octets) : bool := (octet o 0 =? 127)%Z.
Definition is_link_local (o : octets) : bool := ((octet o 0 =? 169) && (octet o 1 =? 254))%Z.
Definition is_multicast (o : octets) : bool := ((224 <=? octet o 0) && (octet o 0 <=? 239))%Z.
Definition is_private (o : octets) : bool :=
  ((octet o 0 =? 10)
   || ((octet o 0 =? 172) && (16 <=? octet o 1) && (octet o 1 <=? 31))
   || ((octet o 0 =? 192) && (octet o 1 =? 168)))%Z.

(** [is_bindable_v4] *)
Definition is_bindable_v4 (o : octets) : bool :=
  negb (is_loopback o) && negb (is_link_local o) && negb (is_unspecified o) && negb (is_multicast o).

(** [is_wildcard] *)
Definition is_wildcard (ip : IpAddr) : bool :=
  match ip with V4 o => is_unspecified o | V6 o => is_unspecified o end.

(** [bind_rank_v4]; the value fits a [u16]. *)
Definition bind_rank_v4 (ip : octets) (prefixlen : nat) (netmask : octets) : nat :=
  if (32 <=? prefixlen) || bool_decide (netmask = [255; 255; 255; 255]%Z) then 0
  else (if is_private ip then 2 else 1) * 256 + prefixlen.

(** [default_route_ifaces] on Linux; [text] is the content of /proc/net/route. *)
Definition default_route_ifaces (text : option string) : list string :=
  match text with
  | None => []
  | Some text =>
      omap (λ line, match split_whitespace line with
                    | iface :: dest :: _ => if String.eqb dest "00000000" then Some iface else None
                    | _ => None
                    end) (drop 1 (lines text))
  end.

(** A candidate of [default_bind_ip]: rank, default route, interface name, address. *)
Record Candidate := { c_rank : nat; c_default : bool; c_name : string; c_ip : octets }.

Definition candidate_of (default_ifaces : list string) (i : Interface) : option Candidate :=
  match if_addr i with
  | IfV4 ip prefixlen netmask =>
      if is_bindable_v4 ip then
        Some {| c_rank := bind_rank_v4 ip prefixlen netmask;
                c_default := existsb (String.eqb (if_name i)) default_ifaces;
                c_name := if_name i; c_ip := ip |}
      else None
  | IfV6 _ _ => None
  end.

(** The comparison of the sort: not [Greater]. *)
Definition candidate_leb (a b : Candidate) : bool :=
  if c_rank b <? c_rank a then true
  else if c_rank a <? c_rank b then false
  else match c_default a, c_default b with
       | true, false => true
       | false, true => false
       | _, _ => String.leb (c_name a) (c_name b)
       end.

Inductive BindError := InterfacesUnreadable | NoLocalNetwork.

(** [default_bind_ip] *)
Definition default_bind_ip (interfaces : option (list Interface)) (routes : option string) :
    result IpAddr BindError :=
  match interfaces with
  | None => Err InterfacesUnreadable
  | Some interfaces =>
      let default_ifaces := default_route_ifaces routes in
      let candidates := sort_by candidate_leb (omap (candidate_of default_ifaces) interfaces) in
      match candidates with
      | c :: _ => Ok (V4 (c_ip c))
      | [] => Err NoLocalNetwork
      end
  end.

(** Examples from the tests of the module. *)
Definition net4 (a b c d : Z) (p : nat) : LocalNetwork := {| ln_ip := V4 [a; b; c; d]; prefix_len := p |}.
Definition mapped4 (a b c d : Z) : IpAddr := V6 [0; 0; 0; 0; 0; 0; 0; 0; 0; 0; 255; 255; a; b; c; d]%Z.

Example prefix_inside_a_byte :
  network_contains (net4 10 1 0 1 22) (V4 [10; 1; 3; 255]%Z) = true ∧
  network_contains (net4 10 1 0 1 22) (V4 [10; 1; 4; 1]%Z) = false.
Proof. by vm_compute. Qed.

Example mapped_peer :
  network_contains (net4 192 168 1 5 24) (mapped4 192 168 1 9) = true ∧
  network_contains (net4 192 168 1 5 24) (mapped4 192 168 2 9) = false.
Proof. by vm_compute. Qed.

Definition route_text : string :=
  "Iface Destination Gateway" +:+ nl +:+ "wlan0 00000000 0101A8C0" +:+ nl +:+ "wlan0 0001A8C0 00000000" +:+ nl.

Example routes_parsed : default_route_ifaces (Some route_text) = ["wlan0"].
Proof. by vm_compute. Qed.

Definition home_interfaces : list Interface :=
  [{| if_name := "CloudflareWARP"; if_addr := IfV4 [172; 16; 0; 2]%Z 32 [255; 255; 255; 255]%Z |};
   {| if_name := "br-1"; if_addr := IfV4 [172; 22; 0; 1]%Z 16 [255; 255; 0; 0]%Z |};
   {| if_name := "enp2s0"; if_addr := IfV4 [192; 168; 7; 9]%Z 24 [255; 255; 255; 0]%Z |};
   {| if_name := "lo"; if_addr := IfV4 [127; 0; 0; 1]%Z 8 [255; 0; 0; 0]%Z |};
   {| if_name := "wlan0"; if_addr := IfV4 [192; 168; 1; 100]%Z 24 [255; 255; 255; 0]%Z |}].

Example lan_chosen : default_bind_ip (Some home_interfaces) (Some route_text) = Ok (V4 [192; 168; 1; 100]%Z).
Proof. by vm_compute. Qed.

(** ** The prefix, as arithmetic

    An address is a number in base 256; two addresses share a prefix of [p] bits when they are
    equal once the other bits are shifted out. *)

Definition address_value (l : octets) : Z := fold_left (λ acc b, 256 * acc + b)%Z l 0%Z.

(** The bits after the prefix; the prefix is cut at the length of the address. *)
Definition host_bits (l : octets) (p : nat) : Z := Z.of_nat (length l * 8 - p `min` (length l * 8)).

Definition agree_on_prefix (l k : octets) (p : nat) : Prop :=
  length l = length k ∧
  (address_value l / 2 ^ host_bits l p = address_value k / 2 ^ host_bits k p)%Z.

Lemma is_octet_spec b : is_octet b = true ↔ (0 ≤ b < 256)%Z.
Proof. unfold is_octet. rewrite andb_true_iff, Z.leb_le, Z.ltb_lt. lia. Qed.

Lemma address_value_fold l a :
  fold_left (λ acc b, 256 * acc + b)%Z l a = (a * 256 ^ Z.of_nat (length l) + address_value l)%Z.
Proof.
  unfold address_value. revert a. induction l as [|b l IH]; intros a; [cbn; lia|].
  cbn [fold_left length]. rewrite (IH (256 * a + b)%Z), (IH (256 * 0 + b)%Z), Nat2Z.inj_succ, Z.pow_succ_r by lia.
  lia.
Qed.

Lemma address_value_app l k :
  address_value (l ++ k) = (address_value l * 256 ^ Z.of_nat (length k) + address_value k)%Z.
Proof. unfold address_value at 1. rewrite fold_left_app. apply address_value_fold. Qed.

Lemma address_value_range l :
  forallb is_octet l = true → (0 ≤ address_value l < 256 ^ Z.of_nat (length l))%Z.
Proof.
  induction l as [|b l IH] using rev_ind; [done|].
  rewrite forallb_app, andb_true_iff. cbn. intros [Hl [Hb%is_octet_spec _]%andb_true_iff].
  specialize (IH Hl). rewrite address_value_app, length_app, Nat2Z.inj_add, Z.pow_add_r by lia.
  change (address_value [b]) with (256 * 0 + b)%Z. change (256 ^ Z.of_nat (length [b]))%Z with 256%Z. nia.
Qed.

(** Splitting [q] digits of base [2 ^ s] off a number. *)
Lemma div_digit a x s : (0 ≤ x < 2 ^ s)%Z → (0 ≤ s)%Z → ((a * 2 ^ s + x) / 2 ^ s = a)%Z.
Proof. intros Hx Hs. rewrite Z.div_add_l by lia. rewrite (Z.div_small x) by lia. lia. Qed.

Lemma address_value_inj l k :
  length l = length k → forallb is_octet l = true → forallb is_octet k = true →
  address_value l = address_value k → l = k.
Proof.
  revert k. induction l as [|b l IH] using rev_ind; intros k Hlen Hl Hk Hv.
  - by destruct k.
  - destruct k as [|c k _] using rev_ind; [rewrite length_app in Hlen; simpl in Hlen; lia|].
    rewrite !length_app in Hlen. rewrite !forallb_app, !andb_true_iff in Hl, Hk. simpl in *.
    destruct Hl as [Hl [Hb%is_octet_spec _]%andb_true_iff], Hk as [Hk [Hc%is_octet_spec _]%andb_true_iff].
    rewrite !address_value_app in Hv. cbn in Hv. change (Z.pow_pos 256 1) with 256%Z in Hv.
    assert (address_value l = address_value k ∧ b = c) as [Hv' ->] by lia.
    f_equal. apply IH; [lia|done|done|done].
Qed.

(** The mask of a partial octet keeps its top [8 - s] bits. *)
Lemma mask_keeps_top x s :
  (0 ≤ x < 256)%Z → (1 ≤ s < 8)%Z →
  Z.land x (Z.shiftl 255 s mod 256) = (x / 2 ^ s * 2 ^ s)%Z.
Proof.
  intros Hx Hs.
  assert (Hall : forallb (λ s, forallb (λ x, Z.eqb (Z.land x (Z.shiftl 255 s mod 256)) (x / 2 ^ s * 2 ^ s))
                   (seqZ 0 256)) (seqZ 1 7) = true) by by vm_compute.
  rewrite List.forallb_forall in Hall. apply Z.eqb_eq.
  specialize (Hall s). rewrite List.forallb_forall in Hall. apply Hall.
  - apply list_elem_of_In, elem_of_seqZ. lia.
  - apply list_elem_of_In, elem_of_seqZ. lia.
Qed.

Lemma forallb_split {A} (f : A → bool) n l :
  forallb f l = true → forallb f (take n l) = true ∧ forallb f (drop n l) = true.
Proof. intros Hl. rewrite <- (take_drop n l), forallb_app in Hl. by apply andb_true_iff. Qed.

Lemma prefix_split l p :
  forallb is_octet l = true →
  let bits := p `min` (length l * 8) in
  let w := bits `div` 8 in let r := bits `mod` 8 in
  (r = 0 → (address_value l / 2 ^ host_bits l p)%Z = address_value (take w l)) ∧
  (r ≠ 0 → (address_value l / 2 ^ host_bits l p)%Z =
             (address_value (take w l) * 2 ^ Z.of_nat r + nth w l 0 / 2 ^ (8 - Z.of_nat r))%Z ∧
           (0 ≤ nth w l 0 < 256)%Z).
Proof.
  intros Hl bits w r. assert (Hbits : bits = 8 * w + r) by (apply Nat.div_mod; lia).
  assert (Hr : r < 8) by (apply Nat.mod_upper_bound; lia).
  assert (Hle : bits ≤ length l * 8) by lia.
  destruct (forallb_split _ w l Hl) as [Ht Hd].
  assert (Htl : length (take w l) = w) by (rewrite length_take; lia).
  assert (H2 : ∀ n, (256 ^ Z.of_nat n = 2 ^ (8 * Z.of_nat n))%Z).
  { intros n. rewrite Z.pow_mul_r by lia. done. }
  split; intros Hr0.
  - rewrite <- (take_drop w l) at 1. rewrite address_value_app, H2.
    replace (host_bits l p) with (8 * Z.of_nat (length (drop w l)))%Z
      by (unfold host_bits; fold bits; rewrite length_drop; lia).
    apply div_digit; [|lia]. rewrite <- H2. by apply address_value_range.
  - assert (Hw : w < length l) by lia. destruct (lookup_lt_is_Some_2 l w Hw) as [x Hx].
    rewrite (nth_lookup_Some _ _ 0%Z _ Hx). rewrite (drop_S _ _ _ Hx) in Hd. cbn in Hd.
    apply andb_true_iff in Hd as [Hox%is_octet_spec Hd]. split; [|done].
    rewrite <- (take_drop_middle l w x Hx) at 1.
    change (x :: drop (S w) l) with ([x] ++ drop (S w) l). rewrite app_assoc, !address_value_app, !H2.
    change (address_value [x]) with x. change (2 ^ (8 * Z.of_nat (length [x])))%Z with (2 ^ 8)%Z.
    replace (host_bits l p) with (8 * Z.of_nat (length (drop (S w) l)) + (8 - Z.of_nat r))%Z
      by (unfold host_bits; fold bits; rewrite length_drop; lia).
    rewrite Z.pow_add_r, <- Z.div_div by lia. rewrite div_digit; [|rewrite <- H2; by apply address_value_range|lia].
    replace (2 ^ 8)%Z with (2 ^ Z.of_nat r * 2 ^ (8 - Z.of_nat r))%Z
      by (rewrite <- Z.pow_add_r by lia; f_equal; lia).
    rewrite Z.mul_assoc, Z.div_add_l by lia. done.
Qed.

(** [same_prefix] compares the numbers the two addresses are, without the bits after the prefix. *)
Lemma same_prefix_spec l k p :
  forallb is_octet l = true → forallb is_octet k = true →
  same_prefix l k p = true ↔ agree_on_prefix l k p.
Proof.
  intros Hl Hk. unfold same_prefix, agree_on_prefix. case_bool_decide as Hlen; cbn [negb]; [|by split; [|intros []]].
  pose proof (prefix_split l p Hl) as Sl. pose proof (prefix_split k p Hk) as Sk.
  cbv zeta in Sl, Sk |- *. rewrite <- Hlen in Sk.
  set (bits := p `min` (length l * 8)) in *. set (w := bits `div` 8) in *. set (r := bits `mod` 8) in *.
  assert (Hw : length (take w l) = length (take w k)) by (rewrite !length_take; lia).
  assert (Hinj := address_value_inj _ _ Hw (proj1 (forallb_split _ w l Hl)) (proj1 (forallb_split _ w k Hk))).
  assert (Hr : r < 8) by (apply Nat.mod_upper_bound; lia).
  destruct (decide (r = 0)) as [Hr0|Hr0].
  - rewrite (proj1 Sl Hr0), (proj1 Sk Hr0). rewrite (bool_decide_eq_true_2 (r = 0)) by done.
    case_bool_decide as Ht; cbn [negb]; [by rewrite Ht|]. split; [done|]. intros [_ Hv]. by destruct Ht; apply Hinj.
  - destruct (proj2 Sl Hr0) as [-> Hx], (proj2 Sk Hr0) as [-> Hy].
    rewrite (bool_decide_eq_false_2 (r = 0)) by done. unfold masked.
    set (x := nth w l 0%Z) in *. set (y := nth w k 0%Z) in *.
    rewrite !mask_keeps_top by lia.
    assert (Hp : (0 < 2 ^ (8 - Z.of_nat r))%Z) by lia. assert (Hq : (0 < 2 ^ Z.of_nat r)%Z) by lia.
    assert (Hs : (2 ^ (8 - Z.of_nat r) * 2 ^ Z.of_nat r = 256)%Z).
    { rewrite <- Z.pow_add_r by lia. replace (8 - Z.of_nat r + Z.of_nat r)%Z with 8%Z by lia. done. }
    assert (Hlt : ∀ z, (0 ≤ z < 256)%Z → (0 ≤ z / 2 ^ (8 - Z.of_nat r) < 2 ^ Z.of_nat r)%Z).
    { intros z Hz. split; [apply Z.div_pos; lia|]. apply Z.div_lt_upper_bound; lia. }
    pose proof (Hlt x Hx). pose proof (Hlt y Hy).
    case_bool_decide as Ht; cbn [negb].
    + rewrite Ht, Z.eqb_eq. split; [intros; split; [done|nia]|intros [_ Hv]; nia].
    + split; [done|]. intros [_ Hv]. destruct Ht. apply Hinj.
      generalize dependent (address_value (take w l)). generalize dependent (address_value (take w k)).
      intros; nia.
Qed.

(** The two octet lists that a network and a peer are compared by, if they are comparable: an
    IPv4-mapped peer is an IPv4 peer. *)
Definition comparable (net peer : IpAddr) : option (octets * octets) :=
  match peer with
  | V4 k => match net with V4 l => Some (l, k) | V6 _ => None end
  | V6 k => match to_ipv4_mapped k, net with
            | Some k4, V4 l => Some (l, k4)
            | Some k4, V6 l => (λ l4, (l4, k4)) <$> to_ipv4_mapped l
            | None, V4 _ => None
            | None, V6 l => Some (l, k)
            end
  end.

Lemma mapped_octets o o4 :
  to_ipv4_mapped o = Some o4 → forallb is_octet o = true → forallb is_octet o4 = true.
Proof. unfold to_ipv4_mapped. case_bool_decide; [|done]. intros [= <-] Ho. by apply forallb_split. Qed.

(** The same-subnet rule: a peer is on a network exactly when the two addresses, taken as
    numbers of the same family, agree on the network's prefix; an IPv4 peer that a dual-stack
    socket reports in its mapped form is measured against the IPv4 network. *)
Theorem network_contains_spec n peer :
  ip_wf (ln_ip n) → ip_wf peer →
  network_contains n peer = true ↔
  ∃ l k, comparable (ln_ip n) peer = Some (l, k) ∧ agree_on_prefix l k (prefix_len n).
Proof.
  intros Hn Hp. unfold network_contains, comparable.
  assert (Hno : false = true ↔ ∃ l k : octets, None = Some (l, k) ∧ agree_on_prefix l k (prefix_len n)).
  { split; [done|]. by intros (? & ? & ? & _). }
  assert (Hyes : ∀ a b, forallb is_octet a = true → forallb is_octet b = true →
    same_prefix a b (prefix_len n) = true ↔
    ∃ l k, Some (a, b) = Some (l, k) ∧ agree_on_prefix l k (prefix_len n)).
  { intros a b Ha Hb. rewrite same_prefix_spec by done. split; [by exists a, b|]. by intros (? & ? & [= <- <-] & ?). }
  destruct (ln_ip n) as [l|l], peer as [k|k]; cbn in Hn, Hp; destruct Hn as [_ Hl], Hp as [_ Hk].
  - by apply Hyes.
  - destruct (to_ipv4_mapped k) as [k4|] eqn:Hk4; [|done]. apply Hyes; [done|by eapply mapped_octets].
  - done.
  - destruct (to_ipv4_mapped k) as [k4|] eqn:Hk4; [|by apply Hyes].
    destruct (to_ipv4_mapped l) as [l4|] eqn:Hl4; cbn; [|done].
    apply Hyes; by eapply mapped_octets.
Qed.

Lemma network_contains_spec_witness :
  agree_on_prefix [192; 168; 1; 5]%Z [192; 168; 1; 9]%Z 24.
Proof.
  destruct (proj1 (network_contains_spec (net4 192 168 1 5 24) (mapped4 192 168 1 9)
    ltac:(by split) ltac:(by split)) ltac:(by vm_compute)) as (l & k & Hc & Ha).
  vm_compute in Hc. injection Hc as <- <-. exact Ha.
Defined.

(** ** The address to bind *)

Lemma candidate_leb_total a b : candidate_leb a b = true ∨ candidate_leb b a = true.
Proof.
  unfold candidate_leb.
  destruct (Nat.ltb_spec (c_rank b) (c_rank a)), (Nat.ltb_spec (c_rank a) (c_rank b)); try lia; auto.
  destruct (c_default a), (c_default b); auto; apply str_leb_total.
Qed.

Lemma candidate_leb_spec a b :
  candidate_leb a b = true ↔
  c_rank b < c_rank a ∨
  c_rank a = c_rank b ∧ (c_default a = true ∧ c_default b = false ∨
                         c_default a = c_default b ∧ String.leb (c_name a) (c_name b) = true).
Proof.
  unfold candidate_leb.
  destruct (Nat.ltb_spec (c_rank b) (c_rank a)), (Nat.ltb_spec (c_rank a) (c_rank b)); try lia;
    destruct (c_default a), (c_default b), (String.leb (c_name a) (c_name b)); naive_solver lia.
Qed.

Lemma candidate_leb_trans a b c :
  candidate_leb a b = true → candidate_leb b c = true → candidate_leb a c = true.
Proof.
  rewrite !candidate_leb_spec. pose proof (str_leb_trans (c_name a) (c_name b) (c_name c)).
  destruct (c_default a), (c_default b), (c_default c); naive_solver lia.
Qed.

(** The candidates of a machine. *)
Definition candidates_of (interfaces : list Interface) (routes : option string) : list Candidate :=
  omap (candidate_of (default_route_ifaces routes)) interfaces.

Lemma candidate_bindable d i c : candidate_of d i = Some c → is_bindable_v4 (c_ip c) = true.
Proof. unfold candidate_of. repeat case_match; try done. by intros [= <-]. Qed.

Lemma bindable_not_wildcard o : is_bindable_v4 o = true → is_wildcard (V4 o) = false.
Proof. unfold is_bindable_v4. cbn. rewrite !andb_true_iff, !negb_true_iff. tauto. Qed.

(** The default address to bind is one of the machine's own bindable addresses, never the
    wildcard, and no other is better: none ranks higher, so a point-to-point /32 is taken only
    when nothing else is left and a tighter private subnet beats a wider one, and among equal
    ranks one that carries the default route is preferred.  It fails exactly when the machine has
    no bindable IPv4 address. *)
Theorem default_bind_ip_best interfaces routes :
  match default_bind_ip (Some interfaces) routes with
  | Ok ip => is_wildcard ip = false ∧ ∃ c, c ∈ candidates_of interfaces routes ∧ ip = V4 (c_ip c) ∧
      is_bindable_v4 (c_ip c) = true ∧
      ∀ c', c' ∈ candidates_of interfaces routes →
        c_rank c' ≤ c_rank c ∧ (c_rank c' = c_rank c → c_default c' = true → c_default c = true)
  | Err e => e = NoLocalNetwork ∧ ∀ i ip p m, i ∈ interfaces → if_addr i = IfV4 ip p m → is_bindable_v4 ip = false
  end.
Proof.
  unfold default_bind_ip. fold (candidates_of interfaces routes).
  pose proof (sort_by_perm candidate_leb (candidates_of interfaces routes)) as Hperm.
  pose proof (sort_by_strongly_sorted _ candidate_leb_total candidate_leb_trans
                (candidates_of interfaces routes)) as Hs.
  destruct (sort_by candidate_leb (candidates_of interfaces routes)) as [|c l].
  - split; [done|]. intros i ip p m Hi Ha. apply Permutation_nil in Hperm.
    destruct (is_bindable_v4 ip) eqn:Hb; [|done]. exfalso.
    assert (Hnil : candidate_of (default_route_ifaces routes) i = None).
    { destruct (candidate_of _ i) as [c|] eqn:Hc; [|done]. exfalso.
      apply (not_elem_of_nil c). rewrite <- Hperm. apply list_elem_of_omap. by exists i. }
    unfold candidate_of in Hnil. by rewrite Ha, Hb in Hnil.
  - assert (Hc : c ∈ candidates_of interfaces routes) by (rewrite <- Hperm; by left).
    assert (Hb : is_bindable_v4 (c_ip c) = true).
    { apply list_elem_of_omap in Hc as (i & _ & Hi). by eapply candidate_bindable. }
    split; [by apply bindable_not_wildcard|]. exists c. split_and!; [done|done|done|].
    intros c' Hc'. rewrite <- Hperm in Hc'. apply elem_of_cons in Hc' as [->|Hc']; [done|].
    apply StronglySorted_inv in Hs as [_ Hall]. rewrite list.Forall_forall in Hall.
    specialize (Hall c' Hc'). rewrite candidate_leb_spec in Hall. naive_solver (lia || congruence).
Qed.
