(* ===== verification/PeerPages.v ===== *)
(** * [arterm-peer]: the handshake lines and the paged session list (src/hello.rs)

    A wire line is a value of [PeerHello] or [PeerWelcome]; its JSON text is outside the model, so
    where the code measures an encoded line the length is a parameter.  Sizes that are [usize] on
    the wire are [N]; offsets are added with saturation, as the code does. *)

From S2P Require Export RustStr.

Definition PEER_PROTOCOL_VERSION : N := 1.
Definition MAX_HELLO_BYTES : N := 4096.
Definition MAX_SESSION_LIST_BYTES : N := 4194304.
Definition SESSION_PAGE_LIMIT : N := 64.
Definition MAX_SESSION_LIST_PAGES : nat := 64.
Definition MAX_PREVIEW_CHARS : nat := 200.

Definition USIZE_MAX : N := 18446744073709551615.
Definition saturating_add (a b : N) : N := N.min (a + b) USIZE_MAX.

Record RemoteSessionSummary := {
  rs_id : string;
  rs_short_name : string;
  rs_icon : string;
  rs_title : string;
  rs_prompt : string;
  rs_message_count : N;
  rs_user_message_count : N;
  rs_assistant_message_count : N;
  rs_created_at_ms : Z;
  rs_last_message_at_ms : Z;
  rs_working_dir : option string;
  rs_model : option string;
  rs_estimated_tokens : N;
  rs_is_active : bool;
}.

#[export] Instance RemoteSessionSummary_eq_dec : EqDecision RemoteSessionSummary.
Proof. solve_decision. Defined.

(** The first [n] characters of a string. *)
Fixpoint chars_take (n : nat) (s : string) : string :=
  match s with
  | EmptyString => EmptyString
  | String c s' =>
      if is_continuation c then String c (chars_take n s')
      else match n with 0 => EmptyString | S n' => String c (chars_take n' s') end
  end.

(** U+2026. *)
Definition ellipsis : string := String "226" (String "128" (str1 "166")).

(** [trim_preview] *)
Definition trim_preview (text : string) : string :=
  if char_count text <=? MAX_PREVIEW_CHARS then text
  else chars_take MAX_PREVIEW_CHARS text +:+ ellipsis.

(** [RemoteSessionSummary::trimmed_for_wire] *)
Definition trimmed_for_wire (s : RemoteSessionSummary) : RemoteSessionSummary :=
  {| rs_id := rs_id s; rs_short_name := rs_short_name s; rs_icon := rs_icon s;
     rs_title := trim_preview (rs_title s); rs_prompt := trim_preview (rs_prompt s);
     rs_message_count := rs_message_count s; rs_user_message_count := rs_user_message_count s;
     rs_assistant_message_count := rs_assistant_message_count s;
     rs_created_at_ms := rs_created_at_ms s; rs_last_message_at_ms := rs_last_message_at_ms s;
     rs_working_dir := rs_working_dir s; rs_model := rs_model s;
     rs_estimated_tokens := rs_estimated_tokens s; rs_is_active := rs_is_active s |}.

Record RemoteServerSummary := {
  sv_name : string;
  sv_icon : string;
  sv_version : string;
  sv_sessions : list string;
  sv_details : list RemoteSessionSummary;
}.

#[export] Instance RemoteServerSummary_eq_dec : EqDecision RemoteServerSummary.
Proof. solve_decision. Defined.

(** The [Default] of a row, with its id: what [display_sessions] makes of a bare id. *)
Definition row_of_id (id : string) : RemoteSessionSummary :=
  {| rs_id := id; rs_short_name := id; rs_icon := ""; rs_title := ""; rs_prompt := "";
     rs_message_count := 0; rs_user_message_count := 0; rs_assistant_message_count := 0;
     rs_created_at_ms := 0; rs_last_message_at_ms := 0; rs_working_dir := None; rs_model := None;
     rs_estimated_tokens := 0; rs_is_active := false |}.

(** [RemoteServerSummary::display_sessions] *)
Definition display_sessions (s : RemoteServerSummary) : list RemoteSessionSummary :=
  if negb (is_nil (sv_details s)) then sv_details s else row_of_id <$> sv_sessions s.

(** [RemoteServerSummary::session_count] *)
Definition session_count (s : RemoteServerSummary) : N :=
  N.max (N.of_nat (length (sv_details s))) (N.of_nat (length (sv_sessions s))).

(** [slice_of] *)
Definition slice_of {A} (items : list A) (start end_ : N) : list A :=
  let len := N.of_nat (length items) in
  let start := N.min start len in
  let end_ := N.max (N.min end_ len) start in
  take (N.to_nat (end_ - start)) (drop (N.to_nat start) items).

(** [RemoteServerSummary::slice] *)
Definition server_slice (s : RemoteServerSummary) (start end_ : N) : RemoteServerSummary :=
  {| sv_name := sv_name s; sv_icon := sv_icon s; sv_version := sv_version s;
     sv_sessions := slice_of (sv_sessions s) start end_;
     sv_details := slice_of (sv_details s) start end_ |}.

(** [total_sessions] *)
Fixpoint total_sessions (servers : list RemoteServerSummary) : N :=
  match servers with [] => 0 | s :: servers => session_count s + total_sessions servers end.

(** The loop of [page_of_servers]; [counted] is its counter. *)
Fixpoint page_loop (offset end_ counted : N) (servers : list RemoteServerSummary) :
    list RemoteServerSummary * N :=
  match servers with
  | [] => ([], counted)
  | server :: servers =>
      let count := session_count server in
      let start := counted in
      let counted := (counted + count)%N in
      let '(rest, total) := page_loop offset end_ counted servers in
      if (count =? 0)%N then (if (offset =? 0)%N then server :: rest else rest, total)
      else
        let from := N.max offset start in
        let to := N.min end_ counted in
        (if (from <? to)%N then server_slice server (from - start) (to - start) :: rest else rest, total)
  end.

(** [page_of_servers] *)
Definition page_of_servers (servers : list RemoteServerSummary) (offset limit : N) :
    list RemoteServerSummary * bool :=
  let end_ := saturating_add offset limit in
  let '(page, counted) := page_loop offset end_ 0 servers in
  (page, (end_ <? counted)%N).

(** Appending to the copy of a server already collected. *)
Definition extend_server (seen server : RemoteServerSummary) : RemoteServerSummary :=
  {| sv_name := sv_name seen; sv_icon := sv_icon seen; sv_version := sv_version seen;
     sv_sessions := (sv_sessions seen ++ sv_sessions server)%list;
     sv_details := (sv_details seen ++ sv_details server)%list |}.

(** One round of [merge_session_pages]: the first server with the name, or the end. *)
Fixpoint merge_one (collected : list RemoteServerSummary) (server : RemoteServerSummary) :
    list RemoteServerSummary :=
  match collected with
  | [] => [server]
  | seen :: rest =>
      if String.eqb (sv_name seen) (sv_name server) then extend_server seen server :: rest
      else seen :: merge_one rest server
  end.

(** [merge_session_pages] *)
Definition merge_session_pages (collected page : list RemoteServerSummary) : list RemoteServerSummary :=
  fold_left merge_one page collected.

Record SessionPage := { page_offset : N; page_limit : N }.

(** [SessionPage::at] *)
Definition page_at (offset : N) : SessionPage :=
  {| page_offset := offset; page_limit := SESSION_PAGE_LIMIT |}.

(** [SessionPage::effective_limit] *)
Definition effective_limit (p : SessionPage) : N :=
  if (page_limit p =? 0)%N then SESSION_PAGE_LIMIT else N.min (page_limit p) SESSION_PAGE_LIMIT.

Inductive PeerHello :=
  | HSession (version : N) (name : string) (listen_port : option N)
  | HPair (version : N) (name secret : string) (listen_port : option N)
  | HList (version : N) (name : string) (page : option SessionPage).

Definition hello_version (h : PeerHello) : N :=
  match h with HSession v _ _ | HPair v _ _ _ | HList v _ _ => v end.

Definition hello_name (h : PeerHello) : string :=
  match h with HSession _ n _ | HPair _ n _ _ | HList _ n _ => n end.

Definition hello_listen_port (h : PeerHello) : option N :=
  match h with HSession _ _ p | HPair _ _ _ p => p | HList _ _ _ => None end.

(** The reasons of a refusal are told apart, their texts are not kept. *)
Inductive RefusalReason := VersionMismatch (theirs : N) | NotPaired | InviteNotValid | NoLongerPaired.

Inductive PeerWelcome :=
  | Ready (version : N) (name : string)
  | Paired (version : N) (name : string)
  | Sessions (version : N) (name : string) (servers : list RemoteServerSummary) (more : bool)
             (total : option N)
  | WRefused (reason : RefusalReason).

(** [PeerWelcome::peer_name] *)
Definition welcome_name (w : PeerWelcome) : option string :=
  match w with Ready _ n | Paired _ n | Sessions _ n _ _ _ => Some n | WRefused _ => None end.

(** ** The answer to a device that reads one short line *)

Section budget.
(** The length [serde_json] gives a line; [None] when it cannot be encoded. *)
Context (encoded_len : PeerWelcome → option N).
Context (version : N) (name : string) (servers : list RemoteServerSummary) (budget : N).

(** The closure [build] of [sessions_within_budget]. *)
Definition budget_build (limit : N) : PeerWelcome :=
  Sessions version name (page_of_servers servers 0 limit).1 false (Some (total_sessions servers)).

(** The closure [fits]. *)
Definition budget_fits (welcome : PeerWelcome) : bool :=
  match encoded_len welcome with Some n => (n <? budget)%N | None => false end.

(** The bisection; [None] when the fuel runs out. *)
Fixpoint budget_search (fuel : nat) (largest low high : N) : option N :=
  match fuel with
  | 0 => None
  | S fuel =>
      if (low <=? high)%N then
        let mid := (low + (high - low) / 2)%N in
        if budget_fits (budget_build mid) then budget_search fuel mid (mid + 1) high
        else if (mid =? 0)%N then Some largest
        else budget_search fuel largest low (mid - 1)
      else Some largest
  end.

(** Each round shrinks the interval, so its length bounds the rounds. *)
Definition budget_fuel : nat := N.to_nat (total_sessions servers) + 2.

(** [sessions_within_budget] *)
Definition sessions_within_budget : option PeerWelcome :=
  let?? largest := budget_search budget_fuel 0 0 (total_sessions servers) in
  Some (budget_build largest).
End budget.

(** ** Lines *)

Inductive LineError := Transport | Protocol.

(** The loop of [read_line_with_limit] on the bytes that arrive before the stream ends: the line
    and what is left unread. *)
Fixpoint read_bytes (max_bytes : N) (line input : string) : result string LineError * string :=
  match input with
  | EmptyString => (Err Transport, EmptyString)
  | String c input' =>
      if Ascii.eqb c newline then (Ok line, input')
      else if (max_bytes <=? N.of_nat (String.length line))%N then (Err Protocol, input')
      else read_bytes max_bytes (line +:+ str1 c) input'
  end.

Definition read_line_with_limit {T} (decode : string → option T) (max_bytes : N) (input : string) :
    result T LineError * string :=
  match read_bytes max_bytes "" input with
  | (Err e, rest) => (Err e, rest)
  | (Ok line, rest) =>
      match decode line with Some x => (Ok x, rest) | None => (Err Protocol, rest) end
  end.

Definition read_line {T} (decode : string → option T) (input : string) : result T LineError * string :=
  read_line_with_limit decode MAX_HELLO_BYTES input.

(** What [write_line] puts on the stream; [None] when the value cannot be encoded. *)
Definition write_line {T} (encode : T → option string) (value : T) : option string :=
  let?? encoded := encode value in Some (encoded +:+ nl).
