(* ===== verification/PeerListing.v ===== *)
(** * [arterm-peer]: listing a peer's sessions, both ends (src/listen.rs, src/connect.rs)

    The server answers from one snapshot, a page for each request; the client asks for pages until
    a reply says there is no more.  Theorems: the pages put together are the list. *)

From S2P Require Export PeerPages.

(** ** The answering side *)

(** The snapshot of [serve_session_list]: previews cut. *)
Definition trimmed_server (s : RemoteServerSummary) : RemoteServerSummary :=
  {| sv_name := sv_name s; sv_icon := sv_icon s; sv_version := sv_version s;
     sv_sessions := sv_sessions s; sv_details := trimmed_for_wire <$> sv_details s |}.

Section serve.
Context (encoded_len : PeerWelcome → option N) (local_name : string).

(** The line for one page of the snapshot. *)
Definition page_reply (snapshot : list RemoteServerSummary) (page : SessionPage) : PeerWelcome * bool :=
  let '(servers, more) := page_of_servers snapshot (page_offset page) (effective_limit page) in
  (Sessions PEER_PROTOCOL_VERSION local_name servers more (Some (total_sessions snapshot)), more).

(** The loop of [serve_session_list]: the lines written, given what each later [read_line]
    returned ([None] for a time-out or an error). *)
Fixpoint serve_pages (rounds : nat) (snapshot : list RemoteServerSummary) (page : SessionPage)
    (requests : list (option PeerHello)) : list PeerWelcome :=
  match rounds with
  | 0 => []
  | S rounds =>
      let '(reply, more) := page_reply snapshot page in
      reply ::
      (if more then
         match requests with
         | Some (HList version _ (Some asked)) :: requests =>
             if (version =? PEER_PROTOCOL_VERSION)%N then serve_pages rounds snapshot asked requests
             else []
         | _ => []
         end
       else [])
  end.

(** [serve_session_list] *)
Definition serve_session_list (local_sessions : list RemoteServerSummary) (first : option SessionPage)
    (requests : list (option PeerHello)) : option (list PeerWelcome) :=
  let snapshot := trimmed_server <$> local_sessions in
  match first with
  | None =>
      let?? welcome := sessions_within_budget encoded_len PEER_PROTOCOL_VERSION local_name snapshot
                         MAX_HELLO_BYTES in Some [welcome]
  | Some page => Some (serve_pages MAX_SESSION_LIST_PAGES snapshot page requests)
  end.
End serve.

(** ** The asking side *)

Inductive PeerListError := Unreachable | Unusable.

(** [read_session_page]; [None] is the elapsed time-out. *)
Definition read_session_page (read : option (result PeerWelcome LineError)) :
    result PeerWelcome PeerListError :=
  match read with
  | None => Err Unreachable
  | Some (Ok welcome) => Ok welcome
  | Some (Err Transport) => Err Unreachable
  | Some (Err Protocol) => Err Unusable
  end.

(** The peer as the client meets it: whether the request of a round could be written, and what
    the read after it gave. *)
Definition Peer := nat → SessionPage → option (option (result PeerWelcome LineError)).

(** The loop of [list_peer_sessions], from a round on, for [rounds] more rounds. *)
Fixpoint list_loop (peer : Peer) (rounds : nat) (round : nat) (offset : N)
    (collected : list RemoteServerSummary) : result (list RemoteServerSummary) PeerListError :=
  match rounds with
  | 0 => Err Unusable
  | S rounds =>
      match peer round (page_at offset) with
      | None => Err Unreachable
      | Some read =>
          match read_session_page read with
          | Err e => Err e
          | Ok (Sessions _ _ servers more _) =>
              let received := total_sessions servers in
              let collected := merge_session_pages collected servers in
              if negb more then Ok collected
              else if (received =? 0)%N then Err Unusable
              else list_loop peer rounds (S round) (offset + received) collected
          | Ok _ => Err Unusable
          end
      end
  end.

(** [list_peer_sessions]; [dialled] is whether [dial] succeeded. *)
Definition list_peer_sessions (dialled : bool) (peer : Peer) : result (list RemoteServerSummary) PeerListError :=
  if dialled then list_loop peer MAX_SESSION_LIST_PAGES 0 0 [] else Err Unreachable.

(** The requests a client of this build sends, one for each reply but the last. *)
Definition requests_of (name : string) (offsets : list N) : list (option PeerHello) :=
  (λ o, Some (HList PEER_PROTOCOL_VERSION name (Some (page_at o)))) <$> offsets.

(** The peer a client meets when its requests, in order, are for [offsets] and the lines that come
    back are [lines]; a request for another offset, or one more, fails. *)
Definition exchange (lines : list PeerWelcome) (offsets : list N) : Peer :=
  λ round page,
    match offsets !! round, lines !! round with
    | Some o, Some w => if (o =? page_offset page)%N then Some (Some (Ok w)) else None
    | _, _ => None
    end.

(** ** Windows of servers *)

(** What a page from [o] to [e] holds of a server whose sessions are numbered from [start]. *)
Definition window (o e start : N) (s : RemoteServerSummary) : option RemoteServerSummary :=
  let count := session_count s in
  if (count =? 0)%N then (if (o =? 0)%N then Some s else None)
  else if (N.max o start <? N.min e (start + count))%N
       then Some (server_slice s (N.max o start - start) (N.min e (start + count) - start)) else None.

Definition sv_get (n : string) (l : list RemoteServerSummary) : option RemoteServerSummary :=
  List.find (λ s, String.eqb (sv_name s) n) l.

Fixpoint start_of (n : string) (c : N) (l : list RemoteServerSummary) : N :=
  match l with
  | [] => c
  | s :: l => if String.eqb (sv_name s) n then c else start_of n (c + session_count s) l
  end.

Lemma slice_of_length {A} (l : list A) a b :
  N.of_nat (length (slice_of l a b)) = (N.min b (N.of_nat (length l)) - N.min a (N.of_nat (length l)))%N.
Proof. unfold slice_of. rewrite length_take, length_drop. lia. Qed.

Lemma slice_of_join {A} (l : list A) a b c :
  (a ≤ b ≤ c)%N → (slice_of l a b ++ slice_of l b c)%list = slice_of l a c.
Proof.
  intros Habc. unfold slice_of. set (n := N.of_nat (length l)).
  rewrite !(N.max_l (N.min _ n) (N.min _ n)) by lia.
  replace (N.to_nat (N.min b n)) with (N.to_nat (N.min a n) + N.to_nat (N.min b n - N.min a n)) by lia.
  rewrite <- drop_drop. set (k := drop (N.to_nat (N.min a n)) l).
  replace (N.to_nat (N.min c n - N.min a n))
    with (N.to_nat (N.min b n - N.min a n) + N.to_nat (N.min c n - N.min b n)) by lia.
  by rewrite take_take_drop.
Qed.

Lemma slice_of_all {A} (l : list A) n : (N.of_nat (length l) ≤ n)%N → slice_of l 0 n = l.
Proof.
  intros Hn. unfold slice_of. rewrite N.min_0_l, drop_0. apply take_ge. lia.
Qed.

Lemma slice_count s a b : (a ≤ b ≤ session_count s)%N → session_count (server_slice s a b) = (b - a)%N.
Proof. unfold session_count, server_slice. cbn. rewrite !slice_of_length. lia. Qed.

Lemma window_name o e st s x : window o e st s = Some x → sv_name x = sv_name s.
Proof. unfold window. repeat case_match; try done; by intros [= <-]. Qed.

(** Two adjacent windows of a server are one. *)
Lemma window_join o e st s :
  (0 < o)%N → (o ≤ e)%N →
  match window 0 o st s, window o e st s with
  | Some c, Some p => Some (extend_server c p)
  | Some c, None => Some c
  | None, w => w
  end = window 0 e st s.
Proof.
  intros Ho He. unfold window. destruct (N.eqb_spec (session_count s) 0) as [|Hc]; [cbn|].
  - destruct (N.eqb_spec o 0); [lia|done].
  - set (c := session_count s) in *. rewrite !N.max_0_l.
    destruct (N.ltb_spec st (N.min o (st + c))), (N.ltb_spec (N.max o st) (N.min e (st + c))),
      (N.ltb_spec st (N.min e (st + c))); try lia; try done; f_equal.
    + unfold extend_server, server_slice. cbn. f_equal.
      * replace (N.max o st - st)%N with (N.min o (st + c) - st)%N by lia. apply slice_of_join. lia.
      * replace (N.max o st - st)%N with (N.min o (st + c) - st)%N by lia. apply slice_of_join. lia.
    + f_equal; lia.
    + f_equal; lia.
Qed.

(** The window of everything is the server itself. *)
Lemma window_all e st s : (st + session_count s ≤ e)%N → window 0 e st s = Some s.
Proof.
  intros He. unfold window. destruct (N.eqb_spec (session_count s) 0); [done|].
  rewrite N.max_0_l, N.min_r, N.sub_diag by lia. destruct (N.ltb_spec st (st + session_count s)); [|lia].
  f_equal. unfold server_slice. destruct s as [nm ic v l d]. cbn in *. unfold session_count in *. cbn in *.
  f_equal; apply slice_of_all; lia.
Qed.

(** ** Pages and merging, by server name *)

Lemma page_loop_count o e c l : (page_loop o e c l).2 = (c + total_sessions l)%N.
Proof.
  revert c. induction l as [|s l IH]; intros c; cbn [page_loop total_sessions]; [cbn; lia|].
  specialize (IH (c + session_count s)%N). destruct (page_loop o e (c + session_count s) l) as [p t].
  cbn in IH. repeat case_match; cbn; lia.
Qed.

Lemma page_loop_cons o e c s l :
  (page_loop o e c (s :: l)).1 =
  (option_list (window o e c s) ++ (page_loop o e (c + session_count s) l).1)%list.
Proof.
  cbn [page_loop]. destruct (page_loop o e (c + session_count s) l) as [p t]. unfold window.
  destruct (N.eqb_spec (session_count s) 0); [by destruct (o =? 0)%N|].
  by destruct (N.max o c <? N.min e (c + session_count s))%N.
Qed.

Lemma page_names o e c l n : n ∈ sv_name <$> (page_loop o e c l).1 → n ∈ sv_name <$> l.
Proof.
  revert c. induction l as [|s l IH]; intros c; [done|]. rewrite page_loop_cons, fmap_app, fmap_cons.
  rewrite elem_of_app, elem_of_cons. intros [Hn|Hn]; [left|right; by eapply IH].
  destruct (window o e c s) as [x|] eqn:Hw; cbn in Hn; [|by apply elem_of_nil in Hn].
  apply list_elem_of_singleton in Hn as ->. by eapply window_name.
Qed.

Lemma page_names_NoDup o e c l : NoDup (sv_name <$> l) → NoDup (sv_name <$> (page_loop o e c l).1).
Proof.
  revert c. induction l as [|s l IH]; intros c; [done|]. rewrite page_loop_cons, fmap_app, fmap_cons.
  intros [Hs Hl]%NoDup_cons. destruct (window o e c s) as [x|] eqn:Hw; cbn; [|by apply IH].
  apply NoDup_cons. split; [|by apply IH]. rewrite (window_name _ _ _ _ _ Hw). by intros ?%page_names.
Qed.

Lemma sv_get_None n l : n ∉ sv_name <$> l → sv_get n l = None.
Proof.
  intros Hn. unfold sv_get. induction l as [|s l IH]; [done|]. cbn.
  rewrite fmap_cons, not_elem_of_cons in Hn. destruct (String.eqb_spec (sv_name s) n); [naive_solver|].
  apply IH. tauto.
Qed.

Lemma sv_get_page o e c l n :
  NoDup (sv_name <$> l) →
  sv_get n (page_loop o e c l).1 = sv_get n l ≫= window o e (start_of n c l).
Proof.
  revert c. induction l as [|s l IH]; intros c; [done|]. rewrite page_loop_cons, fmap_cons.
  intros [Hs Hl]%NoDup_cons. cbn [start_of]. unfold sv_get at 2. cbn [List.find]. fold (sv_get n l).
  destruct (String.eqb_spec (sv_name s) n) as [<-|Hne].
  - cbn. destruct (window o e c s) as [x|] eqn:Hw; cbn.
    + by rewrite (window_name _ _ _ _ _ Hw), String.eqb_refl.
    + apply sv_get_None. by intros ?%page_names.
  - rewrite <- IH by done. destruct (window o e c s) as [x|] eqn:Hw; [|done].
    unfold sv_get at 1. cbn. rewrite (window_name _ _ _ _ _ Hw).
    by destruct (String.eqb_spec (sv_name s) n).
Qed.

Definition joined (c p : option RemoteServerSummary) : option RemoteServerSummary :=
  match c, p with
  | Some c, Some p => Some (extend_server c p)
  | Some c, None => Some c
  | None, p => p
  end.

Lemma sv_get_merge_one n c p :
  sv_get n (merge_one c p) = if String.eqb (sv_name p) n then joined (sv_get n c) (Some p) else sv_get n c.
Proof.
  induction c as [|s c IH]; cbn; [by destruct (String.eqb (sv_name p) n)|].
  destruct (String.eqb_spec (sv_name s) (sv_name p)) as [Heq|Hne]; cbn.
  - rewrite Heq. by destruct (String.eqb (sv_name p) n).
  - unfold sv_get in IH |- *. destruct (String.eqb_spec (sv_name s) n) as [<-|]; [|done].
    by destruct (String.eqb_spec (sv_name p) (sv_name s)).
Qed.

Lemma sv_get_merge n c p :
  NoDup (sv_name <$> p) → sv_get n (merge_session_pages c p) = joined (sv_get n c) (sv_get n p).
Proof.
  unfold merge_session_pages. revert c. induction p as [|s p IH]; intros c.
  { intros _. unfold sv_get. cbn. by destruct (List.find _ c). }
  rewrite fmap_cons. intros [Hs Hp]%NoDup_cons. cbn [fold_left]. rewrite IH by done. rewrite sv_get_merge_one.
  assert (Hh : sv_get n (s :: p) = if String.eqb (sv_name s) n then Some s else sv_get n p) by done.
  rewrite Hh. destruct (String.eqb_spec (sv_name s) n) as [<-|]; [|done].
  rewrite (sv_get_None (sv_name s) p) by done. by destruct (sv_get (sv_name s) c).
Qed.

Lemma merge_one_names c p :
  sv_name <$> merge_one c p = sv_name <$> c ∨
  sv_name p ∉ sv_name <$> c ∧ sv_name <$> merge_one c p = ((sv_name <$> c) ++ [sv_name p])%list.
Proof.
  induction c as [|s c IH]; cbn [merge_one]; [right; by split; [apply not_elem_of_nil|]|].
  destruct (String.eqb_spec (sv_name s) (sv_name p)) as [Heq|Hne]; [by left|].
  rewrite !fmap_cons. destruct IH as [->|[Hn ->]]; [by left|right]. split; [|done].
  apply not_elem_of_cons. by split.
Qed.

Lemma merge_names_NoDup c p :
  NoDup (sv_name <$> c) → NoDup (sv_name <$> merge_session_pages c p).
Proof.
  unfold merge_session_pages. revert c. induction p as [|s p IH]; intros c Hc; [done|]. cbn [fold_left].
  apply IH. destruct (merge_one_names c s) as [->|[Hn ->]]; [done|].
  apply NoDup_app. split_and!; [done| |apply NoDup_singleton].
  intros x Hx ->%list_elem_of_singleton. done.
Qed.

Lemma sv_get_elem l x : NoDup (sv_name <$> l) → x ∈ l ↔ sv_get (sv_name x) l = Some x.
Proof.
  intros Hl. split.
  - intros Hx. unfold sv_get. induction l as [|s l IH]; [by apply elem_of_nil in Hx|].
    rewrite fmap_cons in Hl. apply NoDup_cons in Hl as [Hs Hl]. cbn.
    apply elem_of_cons in Hx as [->|Hx]; [by rewrite String.eqb_refl|].
    destruct (String.eqb_spec (sv_name s) (sv_name x)) as [Heq|]; [|by apply IH].
    destruct Hs. rewrite Heq. by apply list_elem_of_fmap_2.
  - intros Hx. unfold sv_get in Hx. apply List.find_some in Hx as [Hx _]. by apply list_elem_of_In.
Qed.

(** Lists of servers with distinct names are the same, up to order, when they agree on each name. *)
Lemma sv_get_perm l k :
  NoDup (sv_name <$> l) → NoDup (sv_name <$> k) → (∀ n, sv_get n l = sv_get n k) → l ≡ₚ k.
Proof.
  intros Hl Hk Hget. apply NoDup_Permutation; [by eapply NoDup_fmap_1|by eapply NoDup_fmap_1|].
  intros x. by rewrite (sv_get_elem l), (sv_get_elem k), Hget.
Qed.

(** ** The whole exchange *)

Lemma page_loop_total o e c l :
  (o ≤ e)%N →
  total_sessions (page_loop o e c l).1 = (N.min e (c + total_sessions l) - N.max o c)%N.
Proof.
  intros He. revert c. induction l as [|s l IH]; intros c; [cbn; lia|]. rewrite page_loop_cons.
  specialize (IH (c + session_count s)%N). set (rest := (page_loop o e (c + session_count s) l).1) in *.
  change (total_sessions (s :: l)) with (session_count s + total_sessions l)%N.
  unfold window. destruct (N.eqb_spec (session_count s) 0) as [H0|H0].
  - destruct (o =? 0)%N; cbn -[total_sessions rest]; cbn [total_sessions]; rewrite IH, H0; lia.
  - destruct (N.ltb_spec (N.max o c) (N.min e (c + session_count s))); cbn -[total_sessions rest server_slice]; cbn [total_sessions].
    + rewrite slice_count by lia. rewrite IH. lia.
    + rewrite IH. lia.
Qed.

(** The page at a multiple of 64, without the saturation: no list here is that long. *)
Lemma page_of_servers_eq l o :
  (o ≤ 4096)%N →
  page_of_servers l o SESSION_PAGE_LIMIT =
  ((page_loop o (o + 64) 0 l).1, (o + 64 <? total_sessions l)%N).
Proof.
  intros Ho. unfold page_of_servers, saturating_add, SESSION_PAGE_LIMIT, USIZE_MAX. rewrite N.min_l by lia.
  pose proof (page_loop_count o (o + 64) 0 l) as Hc. destruct (page_loop o (o + 64) 0 l) as [p t].
  cbn in *. by subst.
Qed.

(** What is collected after [o] sessions were asked for. *)
Definition collected_upto (snapshot : list RemoteServerSummary) (o : N) (collected : list RemoteServerSummary) : Prop :=
  NoDup (sv_name <$> collected) ∧
  ∀ n, sv_get n collected = sv_get n snapshot ≫= (if (o =? 0)%N then λ _, None else window 0 o (start_of n 0 snapshot)).

Lemma collected_step snapshot o collected :
  NoDup (sv_name <$> snapshot) → collected_upto snapshot o collected →
  collected_upto snapshot (o + 64) (merge_session_pages collected (page_loop o (o + 64) 0 snapshot).1).
Proof.
  intros Hnd [Hc Hget]. split; [by apply merge_names_NoDup|]. intros n.
  rewrite sv_get_merge by by apply page_names_NoDup. rewrite Hget, sv_get_page by done.
  destruct (N.eqb_spec (o + 64) 0); [lia|]. destruct (sv_get n snapshot) as [s|]; cbn; [|done].
  destruct (N.eqb_spec o 0) as [->|Ho]; [by rewrite N.add_0_l; destruct (window 0 64 _ s)|].
  apply window_join; lia.
Qed.

Lemma start_of_bound n c l s :
  sv_get n l = Some s → (start_of n c l + session_count s ≤ c + total_sessions l)%N.
Proof.
  unfold sv_get. revert c. induction l as [|x l IH]; intros c; [done|]. cbn.
  destruct (String.eqb (sv_name x) n); [intros [= <-]; lia|]. intros Hs.
  specialize (IH (c + session_count x)%N Hs). lia.
Qed.

Lemma collected_all snapshot o collected :
  NoDup (sv_name <$> snapshot) → (0 < o)%N → (total_sessions snapshot ≤ o)%N →
  collected_upto snapshot o collected → collected ≡ₚ snapshot.
Proof.
  intros Hnd Ho Ht [Hc Hget]. apply sv_get_perm; [done|done|]. intros n. rewrite Hget.
  destruct (N.eqb_spec o 0); [lia|]. destruct (sv_get n snapshot) as [s|] eqn:Hs; cbn; [|done].
  apply window_all. pose proof (start_of_bound n 0 snapshot s Hs). lia.
Qed.

Lemma listing_rounds name client snapshot rounds i o collected :
  NoDup (sv_name <$> snapshot) → o = (64 * N.of_nat i)%N → (i + rounds = 64)%nat →
  (total_sessions snapshot ≤ 4096)%N → (i ≠ 0 → (o < total_sessions snapshot)%N) →
  0 < rounds → collected_upto snapshot o collected →
  ∃ offsets lines,
    serve_pages name rounds snapshot (page_at o) (requests_of client offsets) = lines ∧
    ∀ peer : Peer, (∀ j page, peer (i + j) page = exchange lines (o :: offsets) j page) →
      ∃ collected', list_loop peer rounds i o collected = Ok collected' ∧ collected' ≡ₚ snapshot.
Proof.
  intros Hnd. revert i o collected. induction rounds as [|rounds IH]; intros i o collected Ho Hi Ht Hmore Hr Hcol; [lia|].
  pose proof (collected_step _ _ _ Hnd Hcol) as Hcol'.
  assert (Hpage : page_of_servers snapshot o (effective_limit (page_at o)) =
                  ((page_loop o (o + 64) 0 snapshot).1, (o + 64 <? total_sessions snapshot)%N)).
  { apply (page_of_servers_eq snapshot o). lia. }
  pose proof (page_loop_total o (o + 64) 0 snapshot ltac:(lia)) as Hrec.
  destruct (N.ltb_spec (o + 64) (total_sessions snapshot)) as [Hlt|Hge].
  - destruct (IH (S i) (o + 64)%N _ ltac:(lia) ltac:(lia) Ht ltac:(lia) ltac:(lia) Hcol') as (offsets & lines & Hserve & Hclient).
    exists ((o + 64)%N :: offsets). eexists. split; [reflexivity|]. intros peer Hpeer.
    pose proof (Hpeer 0 (page_at o)) as H0. rewrite Nat.add_0_r in H0.
    cbn [list_loop]. rewrite H0. unfold exchange. cbn [serve_pages]. unfold page_reply at 1. cbn [page_offset page_at].
    rewrite Hpage. cbn. rewrite N.eqb_refl. cbn. rewrite Hrec.
    replace (N.min (o + 64) (0 + total_sessions snapshot) - N.max o 0)%N with 64%N by lia. cbn.
    apply Hclient. intros j page. specialize (Hpeer (S j) page). rewrite Nat.add_succ_r in Hpeer.
    cbn [Nat.add]. rewrite Hpeer. unfold exchange. cbn [serve_pages]. unfold page_reply at 1. cbn [page_offset page_at].
    rewrite Hpage. cbn. change (effective_limit _) with 64%N in *.
    cbn. rewrite <- Hserve. done.
  - exists []. eexists. split; [reflexivity|]. intros peer Hpeer.
    pose proof (Hpeer 0 (page_at o)) as H0. rewrite Nat.add_0_r in H0.
    cbn [list_loop]. rewrite H0. unfold exchange. cbn [serve_pages]. unfold page_reply at 1. cbn [page_offset page_at].
    rewrite Hpage. cbn. rewrite N.eqb_refl. cbn. eexists. split; [done|].
    apply (collected_all _ (o + 64)); [done|lia|lia|done].
Qed.

Lemma trimmed_names (l : list RemoteServerSummary) : sv_name <$> (trimmed_server <$> l) = sv_name <$> l.
Proof. rewrite <- list_fmap_compose. by apply list_fmap_ext. Qed.

Lemma trimmed_total (l : list RemoteServerSummary) : total_sessions (trimmed_server <$> l) = total_sessions l.
Proof.
  induction l as [|s l IH]; [done|]. rewrite fmap_cons. cbn [total_sessions]. rewrite IH.
  unfold session_count. cbn. by rewrite length_fmap.
Qed.

(** A session list survives being paged: whenever the servers of a device have distinct names
    and at most 4096 sessions, a client of this build that asks for a page after a page gets,
    from the lines the device answers those very requests with, every server with all its
    sessions and details, in their order and without repetition (previews cut), and nothing else. *)
Theorem listing_complete encoded_len local_name client_name sessions :
  NoDup (sv_name <$> sessions) → (total_sessions sessions ≤ 4096)%N →
  ∃ offsets lines collected,
    serve_session_list encoded_len local_name sessions (Some (page_at 0)) (requests_of client_name offsets)
      = Some lines ∧
    list_peer_sessions true (exchange lines (0%N :: offsets)) = Ok collected ∧
    collected ≡ₚ trimmed_server <$> sessions.
Proof.
  intros Hnd Ht.
  destruct (listing_rounds local_name client_name (trimmed_server <$> sessions) 64 0 0 [])
    as (offsets & lines & Hs & Hc).
  - by rewrite trimmed_names.
  - done.
  - done.
  - by rewrite trimmed_total.
  - done.
  - lia.
  - split; [apply NoDup_nil_2|]. intros n. cbn. by destruct (sv_get n _).
  - destruct (Hc (exchange lines (0%N :: offsets)) ltac:(done)) as (collected & Hl & Hp).
    exists offsets, lines, collected. split_and!; [|done|done].
    unfold serve_session_list. cbv zeta. f_equal. exact Hs.
Qed.

(** * [arterm-peer]: lines and their limits (src/hello.rs)

    The bisection behind the answer for an older peer, the framing of the lines, the cut of a
    preview; and the theorems of [PeerListing] at work. *)

(** ** The largest answer that fits *)

Section budget.
Context (encoded_len : PeerWelcome → option N).
Context (version : N) (name : string) (servers : list RemoteServerSummary) (budget : N).

Local Notation total := (total_sessions servers).
Local Notation fits k := (budget_fits encoded_len budget (budget_build version name servers k)).

(** A page with more sessions does not encode to fewer bytes. *)
Definition encoding_grows : Prop :=
  ∀ k k' n', (k ≤ k')%N → (k' ≤ total)%N →
    encoded_len (budget_build version name servers k') = Some n' →
    ∃ n, encoded_len (budget_build version name servers k) = Some n ∧ (n ≤ n')%N.

Lemma fits_downward k k' :
  encoding_grows → (k ≤ k')%N → (k' ≤ total)%N → fits k' = true → fits k = true.
Proof.
  intros Hg Hk Hk'. unfold budget_fits.
  destruct (encoded_len (budget_build version name servers k')) as [n'|] eqn:Hn'; [|done].
  destruct (Hg _ _ _ Hk Hk' Hn') as (n & -> & Hn). rewrite !N.ltb_lt. lia.
Qed.

Lemma budget_search_spec fuel largest low high :
  encoding_grows → (high ≤ total)%N → (low ≤ high + 1)%N → (N.to_nat (high + 1 - low) < fuel)%nat →
  (low = 0 ∧ largest = 0 ∨ low = largest + 1 ∧ fits largest = true)%N →
  (∀ k, (high < k)%N → (k ≤ total)%N → fits k = false) →
  ∃ r, budget_search encoded_len version name servers budget fuel largest low high = Some r ∧
    (r ≤ total)%N ∧ (fits r = true ∨ r = 0%N) ∧ ∀ k, (k ≤ total)%N → fits k = true → (k ≤ r)%N.
Proof.
  intros Hg. revert largest low high. induction fuel as [|fuel IH]; intros largest low high Hh Hl Hf Hlow Hno; [lia|].
  cbn [budget_search]. destruct (N.leb_spec low high) as [Hle|Hgt].
  - set (mid := (low + (high - low) / 2)%N).
    assert (Hmid : (low ≤ mid ≤ high)%N).
    { pose proof (N.Div0.div_le_upper_bound (high - low) 2 (high - low) ltac:(lia)) as Hd.
      revert Hd. unfold mid. generalize ((high - low) / 2)%N. lia. }
    destruct (fits mid) eqn:Hfm.
    + apply IH; [lia|lia|lia|by right|done].
    + assert (Habove : ∀ k, (mid ≤ k)%N → (k ≤ total)%N → fits k = false).
      { intros k Hk Hkt. apply not_true_is_false. intros Hfk. by rewrite (fits_downward mid k) in Hfm. }
      destruct (N.eqb_spec mid 0) as [H0|H0].
      * exists largest. destruct Hlow as [[_ ->]|[? ?]]; [|lia].
        split_and!; [done|lia|by right|]. intros k Hk Hfk. rewrite Habove in Hfk; [done|lia|done].
      * apply IH; [lia|lia|lia|done|]. intros k Hk Hkt. apply Habove; lia.
  - destruct Hlow as [[-> _]|[-> Hfl]]; [lia|]. exists largest.
    split_and!; [done|lia|by left|]. intros k Hk Hfk.
    destruct (N.le_gt_cases k largest); [done|]. rewrite Hno in Hfk; [done|lia|done].
Qed.

(** The answer for a device that reads a single short line is the largest that fits: the
    bisection ends, what it returns is under the budget (or is the empty page, when nothing fits),
    and no page with more sessions is.  The encoder is any whose output grows with the page. *)
Theorem budget_answer_largest :
  encoding_grows →
  ∃ largest, sessions_within_budget encoded_len version name servers budget
               = Some (budget_build version name servers largest) ∧
    (largest ≤ total)%N ∧ (fits largest = true ∨ largest = 0%N) ∧
    ∀ k, (k ≤ total)%N → fits k = true → (k ≤ largest)%N.
Proof.
  intros Hg. destruct (budget_search_spec (budget_fuel servers) 0 0 total Hg) as (r & Hr & Hrest).
  - lia.
  - lia.
  - unfold budget_fuel. lia.
  - by left.
  - intros; lia.
  - exists r. split; [|done]. unfold sessions_within_budget. by rewrite Hr.
Qed.
End budget.

(** ** Framing *)

Definition no_newline (s : string) : bool := string_forallb (λ c, negb (Ascii.eqb c newline)) s.

Lemma read_bytes_line max line s rest :
  no_newline s = true → (N.of_nat (String.length line) + N.of_nat (String.length s) ≤ max)%N →
  read_bytes max line (s +:+ nl +:+ rest) = (Ok (line +:+ s), rest).
Proof.
  revert line. induction s as [|c s IH]; intros line Hs Hlen; cbn.
  - by rewrite str_app_nil_r.
  - cbn in Hs, Hlen. apply andb_true_iff in Hs as [Hc%negb_true_iff Hs]. rewrite Hc.
    destruct (N.leb_spec max (N.of_nat (String.length line))); [lia|].
    change (s +:+ String newline rest) with (s +:+ nl +:+ rest).
    rewrite IH; [by rewrite <- str_app_assoc|done|]. rewrite str_length_app. cbn. lia.
Qed.

Lemma read_bytes_long max line s rest :
  no_newline s = true → (max < N.of_nat (String.length line) + N.of_nat (String.length s))%N →
  (N.of_nat (String.length line) ≤ max)%N →
  read_bytes max line (s +:+ rest) =
  (Err Protocol, str_drop (N.to_nat max + 1 - String.length line) (s +:+ rest)).
Proof.
  revert line. induction s as [|c s IH]; intros line Hs Hlen Hmax; cbn in *; [lia|].
  apply andb_true_iff in Hs as [Hc%negb_true_iff Hs]. rewrite Hc.
  destruct (N.leb_spec max (N.of_nat (String.length line))).
  - by replace (N.to_nat max + 1 - String.length line) with 1 by lia.
  - rewrite IH by (rewrite ?str_length_app; cbn; try done; lia). rewrite str_length_app. cbn.
    by replace (N.to_nat max + 1 - String.length line)
      with (S (N.to_nat max + 1 - (String.length line + 1))) by lia.
Qed.

(** One line, and not a byte more: a value that is written and encodes to at most the
    limit is read back and what follows on the stream is left for the next reader; a peer that
    sends more than the limit without ending its line is stopped after one byte over it. *)
Theorem line_roundtrip {T} (encode : T → option string) (decode : string → option T) max v w rest :
  (∀ x s, encode x = Some s → decode s = Some x ∧ no_newline s = true) →
  write_line encode v = Some w →
  (N.of_nat (String.length w) ≤ max + 1 →
     read_line_with_limit decode max (w +:+ rest) = (Ok v, rest))%N ∧
  (max + 1 < N.of_nat (String.length w) →
     read_line_with_limit decode max (w +:+ rest) =
     (Err Protocol, str_drop (N.to_nat max + 1) (w +:+ rest)))%N.
Proof.
  intros Henc. unfold write_line. destruct (encode v) as [s|] eqn:Hs; [|done]. intros [= <-].
  destruct (Henc v s Hs) as [Hd Hnl]. rewrite str_length_app. cbn [String.length nl str1].
  rewrite <- str_app_assoc. unfold read_line_with_limit. split; intros Hlen.
  - rewrite read_bytes_line; [|done|cbn; lia]. cbn. by rewrite Hd.
  - rewrite read_bytes_long; [|done|cbn; lia|cbn; lia]. by rewrite Nat.sub_0_r.
Qed.

(** ** Previews *)

Lemma chars_take_count n s : char_count (chars_take n s) = n `min` char_count s.
Proof.
  revert n. induction s as [|c s IH]; intros n; cbn; [lia|].
  destruct (is_continuation c) eqn:Hc; [by cbn; rewrite Hc, IH|].
  destruct n as [|n]; [done|]. cbn. rewrite Hc, IH. lia.
Qed.

Lemma char_count_app a b : char_count (a +:+ b) = char_count a + char_count b.
Proof. induction a as [|c a IH]; [done|]. cbn. rewrite IH. lia. Qed.

Lemma trim_preview_count text : char_count (trim_preview text) ≤ MAX_PREVIEW_CHARS + 1.
Proof.
  unfold trim_preview. destruct (Nat.leb_spec (char_count text) MAX_PREVIEW_CHARS); [lia|].
  rewrite char_count_app, chars_take_count. change (char_count ellipsis) with 1. lia.
Qed.

(** ** At work *)

Definition example_server (name : string) (ids : list string) (details : list RemoteSessionSummary) :
    RemoteServerSummary :=
  {| sv_name := name; sv_icon := "i"; sv_version := "1"; sv_sessions := ids; sv_details := details |}.

(** Seventy sessions, an idle server, and one that only sends ids. *)
Definition example_servers : list RemoteServerSummary :=
  [example_server "oak" (replicate 70 "s") (replicate 70 (row_of_id "s"));
   example_server "elm" [] []; example_server "ash" ["a"; "b"; "c"] []].

Lemma listing_complete_witness :
  total_sessions example_servers = 73%N ∧
  ∃ offsets lines collected,
    serve_session_list (λ _, None) "here" example_servers (Some (page_at 0)) (requests_of "there" offsets)
      = Some lines ∧
    list_peer_sessions true (exchange lines (0%N :: offsets)) = Ok collected ∧
    collected ≡ₚ trimmed_server <$> example_servers.
Proof.
  split; [by vm_compute|].
  apply (listing_complete (λ _, None) "here" "there" example_servers).
  - cbn. apply (bool_decide_unpack _). by vm_compute.
  - by vm_compute.
Defined.

(** An encoder by weight: a hundred bytes, and ten for each session. *)
Definition weight (w : PeerWelcome) : option N :=
  match w with Sessions _ _ servers _ _ => Some (100 + 10 * total_sessions servers)%N | _ => None end.

Lemma weight_build servers k :
  weight (budget_build 1 "here" servers k) = Some (100 + 10 * N.min (saturating_add 0 k) (total_sessions servers))%N.
Proof.
  unfold weight, budget_build, page_of_servers.
  pose proof (page_loop_total 0 (saturating_add 0 k) 0 servers ltac:(lia)) as Ht.
  destruct (page_loop 0 (saturating_add 0 k) 0 servers) as [p t]. cbn in *. rewrite Ht. do 2 f_equal. lia.
Qed.

Lemma weight_grows servers : encoding_grows weight 1 "here" servers.
Proof.
  intros k k' n' Hk Hk'. rewrite !weight_build. intros [= <-]. eexists. split; [done|].
  unfold saturating_add. lia.
Qed.

Definition few_servers : list RemoteServerSummary :=
  [example_server "oak" ["s"; "t"] []; example_server "elm" [] []; example_server "ash" ["a"; "b"; "c"] []].

(** Under 125 bytes the weight leaves room for two sessions of five. *)
Lemma weight_fits k :
  budget_fits weight 125 (budget_build 1 "here" few_servers k) = true ↔ (k < 3)%N.
Proof.
  unfold budget_fits. rewrite weight_build. change (total_sessions few_servers) with 5%N.
  rewrite N.ltb_lt. unfold saturating_add, USIZE_MAX. lia.
Qed.

Lemma few_total : total_sessions few_servers = 5%N.
Proof. done. Qed.

Lemma budget_answer_largest_witness :
  ∃ largest, sessions_within_budget weight 1 "here" few_servers 125
               = Some (budget_build 1 "here" few_servers largest) ∧ largest = 2%N.
Proof.
  destruct (budget_answer_largest weight 1 "here" few_servers 125 (weight_grows few_servers))
    as (l & Hl & Hle & Hfit & Hmax).
  exists l. split; [exact Hl|]. rewrite weight_fits in Hfit.
  pose proof (Hmax 2%N ltac:(rewrite few_total; lia) ltac:(apply weight_fits; lia)). lia.
Defined.

Definition plain_encode (s : string) : option string := if no_newline s then Some s else None.

Lemma plain_encode_line x s : plain_encode x = Some s → Some s = Some x ∧ no_newline s = true.
Proof. unfold plain_encode. destruct (no_newline x) eqn:Hx; [|done]. intros [= <-]. by split. Qed.

Lemma line_roundtrip_witness :
  read_line_with_limit (λ s, Some s) 5 ("hello" +:+ nl +:+ "next") = (Ok "hello", "next").
Proof.
  apply (proj1 (line_roundtrip plain_encode (λ s, Some s) 5 "hello" ("hello" +:+ nl) "next"
    plain_encode_line ltac:(by vm_compute))).
  by vm_compute.
Defined.
