(* ===== verification/NetParse.v ===== *)
(** * [std::net] parsers, and names that look like addresses (arterm-peer/src/gate.rs)

    [str::parse] at [Ipv4Addr], [Ipv6Addr], [IpAddr], [SocketAddr] and [u16], as the standard
    library reads them; only whether they succeed is used.  A parser takes the text and gives what
    is left; a failed one has consumed nothing, as in [read_atomically]. *)

From S2P Require Export RustStr.

(** [char::to_digit] *)
Definition to_digit (radix : N) (c : ascii) : option N :=
  let b := byte c in
  let d := if is_ascii_digit c then Some (b - 48)%N
           else if ((97 <=? b) && (b <=? 102))%N then Some (b - 87)%N
           else if ((65 <=? b) && (b <=? 70))%N then Some (b - 55)%N else None in
  let?? d := d in if (d <? radix)%N then Some d else None.

(** The digits at the head of a text: their value, their number, the rest. *)
Fixpoint read_digits (radix acc : N) (count : nat) (s : string) : N * nat * string :=
  match s with
  | EmptyString => (acc, count, s)
  | String c s' =>
      match to_digit radix c with
      | Some d => read_digits radix (acc * radix + d) (S count) s'
      | None => (acc, count, s)
      end
  end.

(** [Parser::read_number] at a type with largest value [max]. *)
Definition read_number (max radix : N) (max_digits : option nat) (allow_zero_prefix : bool) (s : string) :
    option (N * string) :=
  let '(result, digit_count, rest) := read_digits radix 0 0 s in
  let has_leading_zero := match s with String c _ => Ascii.eqb c "0" | EmptyString => false end in
  if digit_count =? 0 then None
  else if match max_digits with Some m => m <? digit_count | None => false end then None
  else if negb allow_zero_prefix && has_leading_zero && (1 <? digit_count) then None
  else if (result <=? max)%N then Some (result, rest) else None.

Definition read_given_char (c : ascii) (s : string) : option string :=
  match s with String c' s' => if Ascii.eqb c c' then Some s' else None | EmptyString => None end.

(** [Parser::read_separator] *)
Definition read_separator {A} (sep : ascii) (index : nat) (inner : string → option (A * string)) (s : string) :
    option (A * string) :=
  if index =? 0 then inner s else let?? s := read_given_char sep s in inner s.

(** [Parser::read_ipv4_addr]; [todo] groups are still to read. *)
Fixpoint read_v4_groups (index todo : nat) (s : string) : option string :=
  match todo with
  | 0 => Some s
  | S todo =>
      let?? (_, s) := read_separator "." index (read_number 255 10 (Some 3) false) s in
      read_v4_groups (S index) todo s
  end.

Definition read_ipv4_addr (s : string) : option string := read_v4_groups 0 4 s.

(** The inner [read_groups] of [read_ipv6_addr]: groups read, whether they end in an IPv4 address,
    and the rest. *)
Fixpoint read_groups (index todo : nat) (s : string) : nat * bool * string :=
  match todo with
  | 0 => (index, false, s)
  | S todo =>
      let group :=
        match read_separator ":" index (read_number 65535 16 (Some 4) true) s with
        | Some (_, s) => read_groups (S index) todo s
        | None => (index, false, s)
        end in
      if negb (todo =? 0) then
        match read_separator ":" index (λ s, pair tt <$> read_ipv4_addr s) s with
        | Some (_, s) => (index + 2, true, s)
        | None => group
        end
      else group
  end.

(** [Parser::read_ipv6_addr] *)
Definition read_ipv6_addr (s : string) : option string :=
  let '(head_size, head_ipv4, s) := read_groups 0 8 s in
  if head_size =? 8 then Some s
  else if head_ipv4 then None
  else
    let?? s := read_given_char ":" s in
    let?? s := read_given_char ":" s in
    let '(_, _, s) := read_groups 0 (8 - (head_size + 1)) s in
    Some s.

(** [read_port], [read_scope_id], [read_socket_addr_v4], [read_socket_addr_v6]. *)
Definition read_port (s : string) : option string :=
  let?? s := read_given_char ":" s in
  let?? (_, s) := read_number 65535 10 None true s in Some s.

Definition read_scope_id (s : string) : option string :=
  let?? s := read_given_char "%" s in
  let?? (_, s) := read_number 4294967295 10 None true s in Some s.

Definition read_socket_addr_v4 (s : string) : option string :=
  let?? s := read_ipv4_addr s in read_port s.

Definition read_socket_addr_v6 (s : string) : option string :=
  let?? s := read_given_char "[" s in
  let?? s := read_ipv6_addr s in
  let s := match read_scope_id s with Some s => s | None => s end in
  let?? s := read_given_char "]" s in read_port s.

(** [Parser::parse_with] *)
Definition consumes (read : string → option string) (s : string) : bool :=
  match read s with Some rest => is_empty rest | None => false end.

Definition or_read (a b : string → option string) (s : string) : option string :=
  match a s with Some r => Some r | None => b s end.

Definition is_ipv6_addr (s : string) : bool := consumes read_ipv6_addr s.
Definition is_ip_addr (s : string) : bool := consumes (or_read read_ipv4_addr read_ipv6_addr) s.
Definition is_socket_addr (s : string) : bool :=
  consumes (or_read read_socket_addr_v4 read_socket_addr_v6) s.

(** [s.parse::<u16>().is_ok()] *)
Definition is_u16 (s : string) : bool :=
  let digits := match s with String c s' => if Ascii.eqb c "+" then s' else s | EmptyString => s end in
  let '(value, count, rest) := read_digits 10 0 0 digits in
  negb (count =? 0) && is_empty rest && (value <=? 65535)%N.

(** [name_looks_like_address] *)
Definition name_looks_like_address (name : string) : bool :=
  let trimmed := trim name in
  if is_empty trimmed then false
  else if is_socket_addr trimmed then true
  else if starts_with "[" trimmed then
    match split_on "]" (drop_while (Ascii.eqb "[") trimmed) with
    | host :: _ => is_ipv6_addr host || contains_char ":" host
    | [] => false
    end
  else match rsplit_once ":" trimmed with
       | Some (host, port) => negb (is_empty host) && is_u16 port
       | None => is_ip_addr trimmed || (negb (contains_char " " trimmed) && contains_char "." trimmed)
       end.

Example addresses :
  name_looks_like_address <$> ["192.168.1.108:7644"; "[fe80::1]:7644"; "[fe80::1%3]:7644"; "[::1]"; "host:7644";
                               "10.0.0.1"; "fe80::1:ffff"; "laptop.lan"; "::ffff:1.2.3.4"]
  = [true; true; true; true; true; true; false; true; false].
Proof. by vm_compute. Qed.

Example chosen_names :
  name_looks_like_address <$> ["toygar-pc"; "My laptop v1.2"; "work: mac"; ""; "[x]"]
  = [false; false; false; false; false].
Proof. by vm_compute. Qed.

(** ** Plain names *)

Definition lacks (c : ascii) (s : string) : bool := negb (contains_char c s).

Lemma read_digits_lacks c radix acc count s :
  lacks c s = true → lacks c (read_digits radix acc count s).2 = true.
Proof.
  revert acc count. induction s as [|x s IH]; intros acc count Hs; [done|]. cbn.
  destruct (to_digit radix x); [|done]. apply IH. unfold lacks in *. cbn in Hs.
  apply negb_true_iff, orb_false_iff in Hs as [_ ->]. done.
Qed.

Lemma read_number_lacks c max radix md z s n rest :
  read_number max radix md z s = Some (n, rest) → lacks c s = true → lacks c rest = true.
Proof.
  unfold read_number. intros H Hs. pose proof (read_digits_lacks c radix 0 0 s Hs).
  destruct (read_digits radix 0 0 s) as [[v k] r]. cbn in *.
  destruct (k =? 0); [done|]. destruct (match md with Some m => _ | None => _ end); [done|].
  destruct (negb z && _ && _); [done|]. destruct (v <=? max)%N; [|done]. by injection H as <- <-.
Qed.

Lemma read_given_char_lacks c s : lacks c s = true → read_given_char c s = None.
Proof.
  destruct s as [|x s]; [done|]. unfold lacks. cbn. rewrite negb_true_iff, orb_false_iff. by intros [-> _].
Qed.

Lemma read_v4_lacks s : lacks "." s = true → read_ipv4_addr s = None.
Proof.
  intros Hs. unfold read_ipv4_addr. cbn [read_v4_groups]. unfold read_separator. cbn [Nat.eqb].
  destruct (read_number 255 10 (Some 3) false s) as [[v r]|] eqn:Hr; [|done].
  apply read_number_lacks with (c := "."%char) in Hr; [|done]. by rewrite read_given_char_lacks.
Qed.

Lemma read_groups_lacks s index todo :
  index ≠ 0 → lacks ":" s = true → read_groups index todo s = (index, false, s).
Proof.
  intros Hi Hs. destruct todo as [|todo]; [done|]. cbn [read_groups]. unfold read_separator.
  destruct (Nat.eqb_spec index 0); [done|]. rewrite read_given_char_lacks by done. by destruct todo.
Qed.

Lemma read_v6_lacks s : lacks ":" s = true → lacks "." s = true → read_ipv6_addr s = None.
Proof.
  intros Hs Hdot. unfold read_ipv6_addr. cbn [read_groups Nat.eqb negb]. unfold read_separator at 1 2. cbn [Nat.eqb].
  rewrite read_v4_lacks by done. cbn [fmap option_fmap option_map].
  destruct (read_number 65535 16 (Some 4) true s) as [[v r]|] eqn:Hr.
  - apply read_number_lacks with (c := ":"%char) in Hr; [|done].
    change (read_groups 1 7 r) with (read_groups 1 7 r). pose proof (read_groups_lacks r 1 7 ltac:(done) Hr) as Hg.
    cbn [read_groups Nat.eqb negb] in Hg. rewrite Hg. cbn. by rewrite read_given_char_lacks.
  - cbn. by rewrite read_given_char_lacks.
Qed.

Lemma split_once_lacks c s : lacks c s = true → split_once c s = None.
Proof.
  induction s as [|x s IH]; [done|]. unfold lacks in *. cbn.
  rewrite negb_true_iff, orb_false_iff. intros [-> Hs]. by rewrite IH by by rewrite Hs.
Qed.

Lemma lacks_rev c s : lacks c s = true → lacks c (String.rev s) = true.
Proof.
  unfold lacks. rewrite !negb_true_iff. induction s as [|x s IH]; [done|]. rewrite rev_cons. cbn. rewrite orb_false_iff.
  intros [Hx Hs]. rewrite contains_char_app, IH by done. cbn. by rewrite Hx.
Qed.

(** A name with neither a dot nor a colon, not in brackets, is never taken for an address. *)
Lemma plain_name_kept name :
  lacks ":" (trim name) = true → lacks "." (trim name) = true → starts_with "[" (trim name) = false →
  name_looks_like_address name = false.
Proof.
  intros Hc Hd Hb. unfold name_looks_like_address. cbv zeta. destruct (is_empty (trim name)); [done|].
  assert (Hsock : is_socket_addr (trim name) = false).
  { unfold is_socket_addr, consumes, or_read, read_socket_addr_v4, read_socket_addr_v6.
    rewrite read_v4_lacks by done. destruct (trim name) as [|c s]; [done|]. cbn [read_given_char].
    destruct (Ascii.eqb_spec "[" c) as [<-|]; [by destruct s|done]. }
  rewrite Hsock, Hb. unfold rsplit_once. rewrite split_once_lacks by by apply lacks_rev.
  unfold is_ip_addr, consumes, or_read. rewrite read_v4_lacks, read_v6_lacks by done. cbn.
  unfold lacks in Hd. apply negb_true_iff in Hd. rewrite Hd. apply andb_false_r.
Qed.

(** A bare IPv6 address whose last group is not a decimal number is not recognized: it contains a
    colon, so what decides is the port after the last one. *)
Lemma bare_v6_missed :
  is_ip_addr "fe80::abcd" = true ∧ name_looks_like_address "fe80::abcd" = false.
Proof. by vm_compute. Qed.
