(* ===== verification/PeerGate.v ===== *)
(** * [arterm-peer]: the trust gate and the admission of a peer (src/gate.rs, src/tls.rs, src/listen.rs)

    What decides about a peer reads and writes two files that other connections and the owner's
    commands use at the same time.  So an operation is a program over file accesses: every load
    and every save is one step, and a step of another program can fall between two of them.  The
    TLS handshake itself is not modelled, only the verifier it calls; what a peer sends is data. *)

From S2P Require Export DeviceStores PeerListing NetParse.

(** ** Programs over the two files, the clock and the wire *)

Inductive prog (A : Type) :=
  | Ret (a : A)
  | Fail
  | ReadTrust (k : StoreFile TrustedDevice → prog A)
  | WriteTrust (l : list TrustedDevice) (k : prog A)
  | ReadInvites (k : StoreFile PendingInvite → prog A)
  | WriteInvites (l : list PendingInvite) (k : prog A)
  | Now (k : Z → prog A)
  | Send (line : PeerWelcome) (k : prog A).
Arguments Ret {A} a.
Arguments Fail {A}.
Arguments ReadTrust {A} k.
Arguments WriteTrust {A} l k.
Arguments ReadInvites {A} k.
Arguments WriteInvites {A} l k.
Arguments Now {A} k.
Arguments Send {A} line k.

Fixpoint pbind {A B} (p : prog A) (f : A → prog B) : prog B :=
  match p with
  | Ret a => f a
  | Fail => Fail
  | ReadTrust k => ReadTrust (λ x, pbind (k x) f)
  | WriteTrust l k => WriteTrust l (pbind k f)
  | ReadInvites k => ReadInvites (λ x, pbind (k x) f)
  | WriteInvites l k => WriteInvites l (pbind k f)
  | Now k => Now (λ x, pbind (k x) f)
  | Send line k => Send line (pbind k f)
  end.

Declare Scope prog_scope.
Delimit Scope prog_scope with prog.
Notation "x <~ p ; q" := (pbind p (λ x, q))
  (at level 20, p at level 100, q at level 200) : prog_scope.

(** ** The gate *)

Inductive Admission := Trusted (device : TrustedDevice) | PairingWindow | Refused.

Section gate.
Context `{DeviceLib}.
Local Open Scope prog_scope.

(** [TrustStore::load_at]; a store that cannot be read is an error. *)
Definition load_trust_at : prog (list TrustedDevice) :=
  ReadTrust (λ file, match load_trust file with Some l => Ret l | None => Fail end).

(** [PendingInvites::load_at]: a list that shrinks when it is pruned is written back. *)
Definition load_invites_at : prog (list PendingInvite) :=
  ReadInvites (λ file,
    match read_store file with
    | None => Fail
    | Some raw =>
        Now (λ now,
          let invites := prune_invites now raw in
          if bool_decide (length invites = length raw) then Ret invites
          else WriteInvites invites (Ret invites))
    end).

(** [TrustGate::admits] *)
Definition admits (fingerprint : Fingerprint) : prog Admission :=
  trust <~ load_trust_at ;
  match find_device fingerprint trust with
  | Some device => Ret (Trusted device)
  | None =>
      invites <~ load_invites_at ;
      Ret (if has_live invites then PairingWindow else Refused)
  end.

(** [TrustGate::consume_secret] *)
Definition consume_secret (secret : string) : prog bool :=
  invites <~ load_invites_at ;
  let '(invites, found) := consume secret invites in
  WriteInvites invites (Ret found).

Definition with_address (d : TrustedDevice) (address : string) : TrustedDevice :=
  {| td_fingerprint := td_fingerprint d; td_name := td_name d; td_address := Some address;
     td_paired_at := td_paired_at d |}.

Definition with_name (d : TrustedDevice) (name : string) : TrustedDevice :=
  {| td_fingerprint := td_fingerprint d; td_name := name; td_address := td_address d;
     td_paired_at := td_paired_at d |}.

(** [TrustGate::record_address] *)
Definition record_address (fingerprint : Fingerprint) (address : string) : prog unit :=
  devices <~ load_trust_at ;
  match find_device fingerprint devices with
  | None => Ret tt
  | Some existing => WriteTrust (trust (with_address existing address) devices) (Ret tt)
  end.

(** [TrustGate::stored_name] *)
Definition stored_name (fingerprint : Fingerprint) : prog (option string) :=
  devices <~ load_trust_at ; Ret (td_name <$> find_device fingerprint devices).

(** [TrustGate::record_name] *)
Definition record_name (fingerprint : Fingerprint) (name : string) : prog string :=
  let trimmed := trim name in
  if is_empty trimmed then
    stored <~ stored_name fingerprint ;
    Ret (match stored with Some n => n | None => "" end)
  else
    devices <~ load_trust_at ;
    match find_device fingerprint devices with
    | None => Ret ""
    | Some existing =>
        if String.eqb (td_name existing) trimmed || negb (name_looks_like_address (td_name existing))
        then Ret (td_name existing)
        else WriteTrust (trust (with_name existing trimmed) devices) (Ret trimmed)
    end.

(** [TrustGate::record_pairing] *)
Definition record_pairing (fingerprint : Fingerprint) (name : string) (address : option string) : prog unit :=
  devices <~ load_trust_at ;
  Now (λ now,
    WriteTrust (trust {| td_fingerprint := to_hex fingerprint; td_name := name; td_address := address;
                         td_paired_at := to_rfc3339 now |} devices) (Ret tt)).

(** tls.rs [PairedClientVerifier::verify_client_cert]: an error reading the stores is a refusal of
    the certificate, so the failure of [admits] is caught. *)
Fixpoint pcatch {A} (p : prog A) (default : A) : prog A :=
  match p with
  | Ret a => Ret a
  | Fail => Ret default
  | ReadTrust k => ReadTrust (λ x, pcatch (k x) default)
  | WriteTrust l k => WriteTrust l (pcatch k default)
  | ReadInvites k => ReadInvites (λ x, pcatch (k x) default)
  | WriteInvites l k => WriteInvites l (pcatch k default)
  | Now k => Now (λ x, pcatch (k x) default)
  | Send line k => Send line (pcatch k default)
  end.

Definition verify_client_cert (fingerprint : Fingerprint) : prog bool :=
  pcatch (admission <~ admits fingerprint ;
          Ret (match admission with Trusted _ | PairingWindow => true | Refused => false end)) false.

(** tls.rs [PinnedServerVerifier::verify_server_cert] *)
Definition verify_server_cert (expected presented : Fingerprint) : bool :=
  bool_decide (presented = expected).

(** ** The listener *)

Inductive RejectionReason :=
  | OutsideSubnet | Handshake | HelloRejected | PairingExpected | SecretRefused | NoLongerTrusted.

Inductive AdmittedAs :=
  | Session (fingerprint : Fingerprint) (peer_name : string) (paired_now : bool)
  | Listed (fingerprint : Fingerprint) (peer_name : string)
  | Rejected (reason : RejectionReason).

Definition DEFAULT_PEER_PORT : N := 7644.

(** What arrives on one connection: the certificate whose key the peer proved to hold ([None] when
    the handshake fails or times out for another reason), its first line ([None] when none
    arrives in time or it cannot be read), the later ones, and the text of its socket address
    with a given port. *)
Record Connection := {
  cn_certificate : option Fingerprint;
  cn_hello : option PeerHello;
  cn_later : list (option PeerHello);
  cn_address : N → string;
}.

(** Writing lines one after the other. *)
Definition send_all (lines : list PeerWelcome) : prog unit :=
  foldr Send (Ret tt) lines.

Section establish.
Context (encoded_len : PeerWelcome → option N) (local_name : string).
Context (local_sessions : list RemoteServerSummary).

(** [PeerAdmitter::establish], after the handshake line was read. *)
Definition admit_trusted (cn : Connection) (fingerprint : Fingerprint) (hello : PeerHello)
    (address : string) (device : TrustedDevice) : prog AdmittedAs :=
  _ <~ (if bool_decide (Some address = td_address device) then Ret tt
        else record_address fingerprint address) ;
  learned <~ (if String.eqb (hello_name hello) (td_name device) then Ret ""
              else record_name fingerprint (hello_name hello)) ;
  let name := if is_empty learned then td_name device else learned in
  match hello with
  | HList _ _ page =>
      match serve_session_list encoded_len local_name local_sessions page (cn_later cn) with
      | None => Fail
      | Some lines => _ <~ send_all lines ; Ret (Listed fingerprint name)
      end
  | _ => Send (Ready PEER_PROTOCOL_VERSION local_name) (Ret (Session fingerprint name false))
  end.

Definition admit_pairing (fingerprint : Fingerprint) (hello : PeerHello) (address : string) : prog AdmittedAs :=
  match hello with
  | HPair _ name secret _ =>
      found <~ consume_secret secret ;
      if negb found then Send (WRefused InviteNotValid) (Ret (Rejected SecretRefused))
      else
        _ <~ record_pairing fingerprint name (Some address) ;
        Send (Paired PEER_PROTOCOL_VERSION local_name) (Ret (Session fingerprint name true))
  | _ => Send (WRefused NotPaired) (Ret (Rejected PairingExpected))
  end.

(** [PeerAdmitter::establish] *)
Definition establish (cn : Connection) : prog AdmittedAs :=
  match cn_certificate cn with
  | None => Ret (Rejected Handshake)
  | Some fingerprint =>
      verified <~ verify_client_cert fingerprint ;
      if negb verified then Ret (Rejected Handshake)
      else
        admission <~ admits fingerprint ;
        match cn_hello cn with
        | None => Ret (Rejected HelloRejected)
        | Some hello =>
            if negb (hello_version hello =? PEER_PROTOCOL_VERSION)%N then
              Send (WRefused (VersionMismatch (hello_version hello))) (Ret (Rejected HelloRejected))
            else
              let port := match hello_listen_port hello with Some p => p | None => DEFAULT_PEER_PORT end in
              let address := cn_address cn port in
              match admission with
              | Trusted device => admit_trusted cn fingerprint hello address device
              | PairingWindow => admit_pairing fingerprint hello address
              | Refused => Send (WRefused NoLongerPaired) (Ret (Rejected NoLongerTrusted))
              end
        end
  end.

(** [PeerListener::accept], the decision: the subnet rule before anything the peer says. *)
Inductive Arrival := Pending | ArrivalRejected (reason : RejectionReason).

Definition accept (admits : option bool) : Arrival :=
  match admits with
  | None => ArrivalRejected Handshake
  | Some false => ArrivalRejected OutsideSubnet
  | Some true => Pending
  end.
End establish.

(** ** The owner's commands on the same files *)

(** [arterm device invite]: [PendingInvites::load] and [record]. *)
Definition owner_invite (invite : Invite) : prog unit :=
  invites <~ load_invites_at ;
  Now (λ now, WriteInvites (record_invite now invite invites) (Ret tt)).

(** [arterm device forget]: [TrustStore::load] and [forget]. *)
Definition owner_forget (needle : string) : prog (option TrustedDevice) :=
  devices <~ load_trust_at ;
  let '(devices, found) := forget_device needle devices in
  match found with
  | Some d => WriteTrust devices (Ret (Some d))
  | None => Ret None
  end.
End gate.
