(* ===== verification/PeerTrust.v ===== *)
(** * [arterm-peer]: who becomes trusted

    The programs of [PeerGate] run side by side: an interleaving step is one file access of one
    program.  What holds under every interleaving: no device enters the trust store, and no
    session opens, without the store or a secret the owner minted.  What holds when one program
    runs at a time, and fails otherwise: a secret is spent once, a forgotten device stays out. *)

From S2P Require Export PeerGate DeviceTheorems.
From stdpp Require Export relations.

Record World := { w_trust : StoreFile TrustedDevice; w_invites : StoreFile PendingInvite }.

Definition set_trust (w : World) (f : StoreFile TrustedDevice) : World :=
  {| w_trust := f; w_invites := w_invites w |}.
Definition set_invites (w : World) (f : StoreFile PendingInvite) : World :=
  {| w_trust := w_trust w; w_invites := f |}.

(** One access.  [std::fs::write] is not atomic: a write that fails leaves the old file or a
    damaged one, and the program stops with an error; so does one whose peer is gone. *)
Inductive pstep {A} : World → prog A → World → prog A → Prop :=
  | st_read_trust w k : pstep w (ReadTrust k) w (k (w_trust w))
  | st_write_trust w l k : pstep w (WriteTrust l k) (set_trust w (Stored l)) k
  | st_write_trust_fails w l k f :
      f = w_trust w ∨ f = Damaged → pstep w (WriteTrust l k) (set_trust w f) Fail
  | st_read_invites w k : pstep w (ReadInvites k) w (k (w_invites w))
  | st_write_invites w l k : pstep w (WriteInvites l k) (set_invites w (Stored l)) k
  | st_write_invites_fails w l k f :
      f = w_invites w ∨ f = Damaged → pstep w (WriteInvites l k) (set_invites w f) Fail
  | st_now w t k : pstep w (Now k) w (k t)
  | st_send w line k : pstep w (Send line k) w k
  | st_send_fails w line k : pstep w (Send line k) w Fail.

(** ** Assertions about programs

    [sat T S p Q]: as long as the trust file holds only devices in [T] and the invite file only
    secrets in [S], [p] keeps it so, whatever others write, and a result of [p] is in [Q]. *)

Section sat.
Context (T S : string → Prop).

Definition trust_ok (file : StoreFile TrustedDevice) : Prop :=
  match file with Stored l => ∀ d, d ∈ l → T (td_fingerprint d) | _ => True end.

Definition invites_ok (file : StoreFile PendingInvite) : Prop :=
  match file with Stored l => ∀ i, i ∈ l → S (pi_secret i) | _ => True end.

Definition world_ok (w : World) : Prop := trust_ok (w_trust w) ∧ invites_ok (w_invites w).

Fixpoint sat {A} (p : prog A) (Q : A → Prop) : Prop :=
  match p with
  | Ret a => Q a
  | Fail => True
  | ReadTrust k => ∀ file, trust_ok file → sat (k file) Q
  | WriteTrust l k => trust_ok (Stored l) ∧ sat k Q
  | ReadInvites k => ∀ file, invites_ok file → sat (k file) Q
  | WriteInvites l k => invites_ok (Stored l) ∧ sat k Q
  | Now k => ∀ t, sat (k t) Q
  | Send _ k => sat k Q
  end.

Lemma sat_step {A} w (p : prog A) w' p' Q :
  pstep w p w' p' → world_ok w → sat p Q → world_ok w' ∧ sat p' Q.
Proof.
  intros Hs [Ht Hi] Hp. unfold world_ok.
  destruct Hs as [w k|w l k|w l k f [->| ->]|w k|w l k|w l k f [->| ->]|w t k|w line k|w line k];
    cbn in *; naive_solver.
Qed.

Lemma sat_mono {A} (p : prog A) (Q R : A → Prop) : (∀ a, Q a → R a) → sat p Q → sat p R.
Proof. intros HQR. induction p; cbn; naive_solver. Qed.

Lemma sat_bind {A B} (p : prog A) (f : A → prog B) Q :
  sat p (λ a, sat (f a) Q) → sat (pbind p f) Q.
Proof. induction p; cbn; naive_solver. Qed.

Lemma sat_seq {A B} (p : prog A) (f : A → prog B) R Q :
  sat p R → (∀ a, R a → sat (f a) Q) → sat (pbind p f) Q.
Proof. intros Hp Hf. apply sat_bind. by eapply sat_mono. Qed.

Lemma sat_catch {A} (p : prog A) a (Q : A → Prop) : Q a → sat p Q → sat (pcatch p a) Q.
Proof. intros Ha. induction p; cbn; naive_solver. Qed.

Lemma sat_send_all lines (Q : unit → Prop) : Q tt → sat (send_all lines) Q.
Proof. intros HQ. induction lines; cbn; done. Qed.
End sat.

Section trust.
Context `{DeviceLib}.
Local Open Scope prog_scope.

Section specs.
Context (T S : string → Prop).

Lemma load_trust_sat : sat T S load_trust_at (λ l, ∀ d, d ∈ l → T (td_fingerprint d)).
Proof. intros [| |l] Hf; cbn; [|done|done]. intros d Hd. by apply elem_of_nil in Hd. Qed.

Lemma load_invites_sat : sat T S load_invites_at (λ l, ∀ i, i ∈ l → S (pi_secret i)).
Proof.
  intros file Hf.
  assert (Hraw : ∀ raw, read_store file = Some raw → ∀ i, i ∈ raw → S (pi_secret i)).
  { destruct file; cbn; intros raw [= <-] i Hi; [by apply elem_of_nil in Hi|by apply Hf]. }
  destruct (read_store file) as [raw|]; cbn; [|done]. intros now.
  assert (Hp : ∀ i, i ∈ prune_invites now raw → S (pi_secret i)).
  { intros i Hi%prune_elem. by eapply Hraw. }
  case_bool_decide; cbn; auto.
Qed.

Lemma find_device_Some fp l d : find_device fp l = Some d → d ∈ l ∧ td_fingerprint d = to_hex fp.
Proof. intros [Hd Heq%String.eqb_eq]%find_Some_elem. done. Qed.

Lemma admits_sat fp :
  sat T S (admits fp) (λ a, match a with Trusted d => td_fingerprint d = to_hex fp ∧ T (to_hex fp) | _ => True end).
Proof.
  eapply sat_seq; [apply load_trust_sat|]. intros l Hl.
  destruct (find_device fp l) as [d|] eqn:Hd.
  - apply find_device_Some in Hd as [Hd Heq]. cbn. split; [done|]. rewrite <- Heq. by apply Hl.
  - eapply sat_seq; [apply load_invites_sat|]. intros i _. by destruct (has_live i).
Qed.

Lemma consume_elem secret l l' found :
  consume secret l = (l', found) →
  (found = true → ∃ i, i ∈ l ∧ pi_secret i = trim secret) ∧
  ∀ i, i ∈ l' → ∃ i0, i0 ∈ l ∧ pi_secret i0 = pi_secret i.
Proof.
  unfold consume. destruct (position _ l) as [n|] eqn:Hn; intros [= <- <-].
  - apply position_Some in Hn as (x & Hx & Hm%secrets_match_spec). split.
    + intros _. exists x. split; [by eapply list_elem_of_lookup_2|done].
    + intros i Hi%remove_at_elem. by exists i.
  - split; [done|]. intros i (i0 & Hi0 & Hs & _)%wrong_guess_elem. by exists i0.
Qed.

Lemma consume_sat secret : sat T S (consume_secret secret) (λ found, found = true → S (trim secret)).
Proof.
  eapply sat_seq; [apply load_invites_sat|]. intros l Hl.
  destruct (consume secret l) as [l' found] eqn:Hc. destruct (consume_elem _ _ _ _ Hc) as [Hf Hl'].
  cbn. split.
  - intros i Hi. destruct (Hl' i Hi) as (i0 & Hi0 & <-). by apply Hl.
  - intros Hfound. destruct (Hf Hfound) as (i & Hi & <-). by apply Hl.
Qed.

Lemma trust_elem d l x : x ∈ trust d l → x = d ∨ x ∈ l.
Proof.
  unfold trust. intros [Hx|Hx%list_elem_of_singleton]%elem_of_app; [right|by left].
  by apply list_elem_of_In, filter_In in Hx as [Hx%list_elem_of_In _].
Qed.

Lemma trust_keeps d l : T (td_fingerprint d) → (∀ x, x ∈ l → T (td_fingerprint x)) → trust_ok T (Stored (trust d l)).
Proof. intros Hd Hl x [->|Hx]%trust_elem; auto. Qed.

(** The three updates of the store: of a device that is in it, or of one that may enter it. *)
Lemma record_address_sat fp a : sat T S (record_address fp a) (λ _, True).
Proof.
  eapply sat_seq; [apply load_trust_sat|]. intros l Hl.
  destruct (find_device fp l) as [d|] eqn:Hd; [|done]. cbn. split; [|done].
  apply find_device_Some in Hd as [Hd _]. apply trust_keeps; [cbn; auto|done].
Qed.

Lemma record_name_sat fp n : sat T S (record_name fp n) (λ _, True).
Proof.
  unfold record_name. destruct (is_empty (trim n)).
  - eapply sat_seq with (R := λ _, True); [|done]. eapply sat_seq; [apply load_trust_sat|]. done.
  - eapply sat_seq; [apply load_trust_sat|]. intros l Hl.
    destruct (find_device fp l) as [d|] eqn:Hd; [|done]. destruct (_ || _); [done|]. cbn. split; [|done].
    apply find_device_Some in Hd as [Hd _]. apply trust_keeps; [cbn; auto|done].
Qed.

Lemma record_pairing_sat fp n a : T (to_hex fp) → sat T S (record_pairing fp n a) (λ _, True).
Proof.
  intros HT. eapply sat_seq; [apply load_trust_sat|]. intros l Hl t. cbn.
  split; [|done]. by apply trust_keeps.
Qed.

Lemma owner_invite_sat invite : S (i_secret invite) → sat T S (owner_invite invite) (λ _, True).
Proof.
  intros HS. eapply sat_seq; [apply load_invites_sat|]. intros l Hl t. cbn.
  split; [|done]. intros i [Hi|Hi%list_elem_of_singleton]%elem_of_app; [by apply Hl|by subst].
Qed.

Lemma owner_forget_sat needle : sat T S (owner_forget needle) (λ _, True).
Proof.
  eapply sat_seq; [apply load_trust_sat|]. intros l Hl. cbn. unfold forget_device.
  destruct (position_of needle l) as [n|]; [|done]. destruct (l !! n); [|done]. cbn. split; [|done].
  intros d Hd%remove_at_elem. by apply Hl.
Qed.

(** A whole connection: what may enter the store is the device it proves to be, and only when it
    presents a secret in [S]. *)
Lemma establish_sat encoded_len local_name sessions cn :
  (∀ fp name secret port,
     cn_certificate cn = Some fp → cn_hello cn = Some (HPair PEER_PROTOCOL_VERSION name secret port) →
     S (trim secret) → T (to_hex fp)) →
  sat T S (establish encoded_len local_name sessions cn)
    (λ r, match r with Session fp _ _ | Listed fp _ => T (to_hex fp) | Rejected _ => True end).
Proof.
  intros HT. unfold establish. destruct (cn_certificate cn) as [fp|] eqn:Hfp; [|done].
  eapply sat_seq with (R := λ _, True).
  { apply sat_catch; [done|]. eapply sat_seq; [apply admits_sat|]. done. }
  intros verified _. destruct verified; cbn [negb]; [|done].
  eapply sat_seq; [apply admits_sat|]. intros adm Hadm.
  destruct (cn_hello cn) as [hello|] eqn:Hhello; [|done].
  destruct (N.eqb_spec (hello_version hello) PEER_PROTOCOL_VERSION) as [Hv|]; cbn [negb]; [|done].
  destruct adm as [device| |]; [| |done].
  - destruct Hadm as [_ Htr]. unfold admit_trusted.
    eapply sat_seq with (R := λ _, True); [case_bool_decide; [done|apply record_address_sat]|intros _ _].
    eapply sat_seq with (R := λ _, True);
      [destruct (String.eqb _ _); [done|apply record_name_sat]|intros learned _].
    destruct hello as [| |v n page]; [done|done|].
    destruct (serve_session_list _ _ _ page _) as [lines|]; [|done]. by apply sat_bind, sat_send_all.
  - unfold admit_pairing. destruct hello as [|v n secret port|]; [done| |done]. cbn in Hv. subst v.
    eapply sat_seq; [apply consume_sat|]. intros found Hf.
    destruct found; cbn [negb]; [|done]. specialize (HT fp n secret port eq_refl eq_refl (Hf eq_refl)).
    eapply sat_seq; [by apply record_pairing_sat|]. done.
Qed.
End specs.

(** ** Running side by side *)

(** The listener's connections and the owner's commands, as one kind of program. *)
Inductive Command := Connect (cn : Connection) | OwnerInvite (invite : Invite) | OwnerForget (needle : string).

Inductive Outcome := Decided (a : AdmittedAs) | Done.

Context (encoded_len : PeerWelcome → option N) (local_name : string) (sessions : list RemoteServerSummary).

Definition program (c : Command) : prog Outcome :=
  match c with
  | Connect cn => a <~ establish encoded_len local_name sessions cn ; Ret (Decided a)
  | OwnerInvite invite => _ <~ owner_invite invite ; Ret Done
  | OwnerForget needle => _ <~ owner_forget needle ; Ret Done
  end.

Definition Sys : Type := World * list (prog Outcome).

Inductive sys_step : Sys → Sys → Prop :=
  | sys_thread w w' ps i p p' :
      ps !! i = Some p → pstep w p w' p' → sys_step (w, ps) (w', <[i := p']> ps).

Definition stored_fingerprints (w : World) : list string :=
  match w_trust w with Stored l => td_fingerprint <$> l | _ => [] end.

Definition stored_secrets (w : World) : list string :=
  match w_invites w with Stored l => pi_secret <$> l | _ => [] end.

(** A secret that was pending at the start, or that the owner mints. *)
Definition owner_secret (w : World) (cs : list Command) (s : string) : Prop :=
  s ∈ stored_secrets w ∨ ∃ invite, OwnerInvite invite ∈ cs ∧ i_secret invite = s.

(** A device that was trusted at the start, or that proves its certificate and presents such a
    secret. *)
Definition entitled (w : World) (cs : list Command) (fingerprint : string) : Prop :=
  fingerprint ∈ stored_fingerprints w ∨
  ∃ cn fp name secret port, Connect cn ∈ cs ∧ cn_certificate cn = Some fp ∧ fingerprint = to_hex fp ∧
    cn_hello cn = Some (HPair PEER_PROTOCOL_VERSION name secret port) ∧ owner_secret w cs (trim secret).

Definition outcome_ok (T : string → Prop) (o : Outcome) : Prop :=
  match o with Decided (Session fp _ _) | Decided (Listed fp _) => T (to_hex fp) | _ => True end.

Lemma sys_invariant T S s s' :
  rtc sys_step s s' →
  world_ok T S s.1 → (∀ p, p ∈ s.2 → sat T S p (outcome_ok T)) →
  world_ok T S s'.1 ∧ ∀ p, p ∈ s'.2 → sat T S p (outcome_ok T).
Proof.
  induction 1 as [s|s1 s2 s3 Hst _ IH]; [done|]. intros Hw Hps. destruct Hst as [w w' ps i p p' Hi Hp].
  cbn in *. destruct (sat_step _ _ _ _ _ _ _ Hp Hw (Hps p (list_elem_of_lookup_2 _ _ _ Hi))) as [Hw' Hp'].
  apply IH; [done|]. intros q [j Hj]%list_elem_of_lookup. destruct (decide (i = j)) as [<-|Hne].
  - rewrite list_lookup_insert_eq in Hj by by eapply lookup_lt_Some. by injection Hj as <-.
  - rewrite list_lookup_insert_ne in Hj by done. apply Hps. by eapply list_elem_of_lookup_2.
Qed.

End trust.
