(* ===== verification/PeerAlone.v ===== *)
(** * [arterm-peer]: one program at a time

    What the gate's promises say when nothing else touches the files: a forgotten device is
    refused at the handshake, a secret that paired a device is gone, a connection changes the
    entry of no other device.  And two interleavings that break the first two: the files are
    loaded and saved without a lock, and the listener runs a task per connection. *)

From S2P Require Export PeerTrust DeviceTheorems.

Section run.
Context (clock : nat → Z).

(** The clock readings made, the lines the peer still takes, the lines it took. *)
Record Run := { ex_world : World; ex_reads : nat; ex_wire : nat; ex_sent : list PeerWelcome }.

Definition with_world (st : Run) (w : World) : Run :=
  {| ex_world := w; ex_reads := ex_reads st; ex_wire := ex_wire st; ex_sent := ex_sent st |}.

Fixpoint run {A} (p : prog A) (st : Run) : Run * option A :=
  match p with
  | Ret a => (st, Some a)
  | Fail => (st, None)
  | ReadTrust k => run (k (w_trust (ex_world st))) st
  | WriteTrust l k => run k (with_world st (set_trust (ex_world st) (Stored l)))
  | ReadInvites k => run (k (w_invites (ex_world st))) st
  | WriteInvites l k => run k (with_world st (set_invites (ex_world st) (Stored l)))
  | Now k => run (k (clock (ex_reads st)))
                 {| ex_world := ex_world st; ex_reads := S (ex_reads st); ex_wire := ex_wire st; ex_sent := ex_sent st |}
  | Send line k =>
      match ex_wire st with
      | 0 => (st, None)
      | S n => run k {| ex_world := ex_world st; ex_reads := ex_reads st; ex_wire := n;
                        ex_sent := (ex_sent st ++ [line])%list |}
      end
  end.

Lemma run_bind {A B} (p : prog A) (f : A → prog B) st :
  run (pbind p f) st =
  match run p st with (st', Some a) => run (f a) st' | (st', None) => (st', None) end.
Proof. revert st. induction p; intros st; cbn; try done; auto. by destruct (ex_wire st). Qed.

(** A run alone is one of the interleavings. *)
Lemma run_steps {A} (p : prog A) st st' a :
  run p st = (st', Some a) →
  rtc (λ s s', pstep s.1 s.2 s'.1 s'.2) (ex_world st, p) (ex_world st', Ret a).
Proof.
  revert st. induction p as [b| |k IH|l k IH|k IH|l k IH|k IH|line k IH]; intros st; cbn; try done.
  - by intros [= <- <-].
  - intros Hr%IH. eapply rtc_l; [|exact Hr]. constructor.
  - intros Hr%IH. eapply rtc_l; [|exact Hr]. constructor.
  - intros Hr%IH. eapply rtc_l; [|exact Hr]. constructor.
  - intros Hr%IH. eapply rtc_l; [|exact Hr]. constructor.
  - intros Hr%IH. eapply rtc_l; [|exact Hr]. constructor.
  - destruct (ex_wire st); [done|]. intros Hr%IH. eapply rtc_l; [|exact Hr]. constructor.
Qed.

(** ** Triples *)

Definition hoare {A} (P : World → Prop) (p : prog A) (Q : A → World → Prop) : Prop :=
  ∀ st, P (ex_world st) →
    match run p st with (st', Some a) => Q a (ex_world st') | (_, None) => True end.

Lemma hoare_seq {A B} P (p : prog A) (f : A → prog B) R Q :
  hoare P p R → (∀ a, hoare (R a) (f a) Q) → hoare P (pbind p f) Q.
Proof.
  intros Hp Hf st HP. rewrite run_bind. specialize (Hp st HP). destruct (run p st) as [st' [a|]]; [|done].
  by apply Hf.
Qed.

Lemma hoare_weaken {A} P P' (p : prog A) Q Q' :
  hoare P' p Q' → (∀ w, P w → P' w) → (∀ a w, Q' a w → Q a w) → hoare P p Q.
Proof.
  intros Hp HP HQ st Hst. specialize (Hp st (HP _ Hst)). destruct (run p st) as [st' [a|]]; auto.
Qed.

Lemma hoare_ret {A} (a : A) P (Q : A → World → Prop) : (∀ w, P w → Q a w) → hoare P (Ret a) Q.
Proof. intros HQ st HP. cbn. auto. Qed.

Lemma hoare_send {A} line P (p : prog A) Q : hoare P p Q → hoare P (Send line p) Q.
Proof. intros Hp st HP. cbn. destruct (ex_wire st); [done|]. by apply Hp. Qed.

(** A program that keeps an assertion, whether or not it ends well. *)
Definition keeps {A} (P : World → Prop) (p : prog A) : Prop :=
  ∀ st, P (ex_world st) → P (ex_world (run p st).1).

Lemma keeps_hoare {A} P (p : prog A) : keeps P p → hoare P p (λ _, P).
Proof. intros Hk st HP. specialize (Hk st HP). by destruct (run p st) as [st' [a|]]. Qed.

Lemma keeps_seq {A B} P (p : prog A) (f : A → prog B) : keeps P p → (∀ a, keeps P (f a)) → keeps P (pbind p f).
Proof.
  intros Hp Hf st HP. rewrite run_bind. specialize (Hp st HP). destruct (run p st) as [st' [a|]]; [|done].
  by apply Hf.
Qed.

Lemma keeps_catch {A} P (p : prog A) a : keeps P p → keeps P (pcatch p a).
Proof.
  intros Hk st HP. replace (ex_world (run (pcatch p a) st).1) with (ex_world (run p st).1); [by apply Hk|].
  clear. revert st. induction p; intros st; cbn; auto. by destruct (ex_wire st).
Qed.

Lemma keeps_send_all P lines : keeps P (send_all lines).
Proof.
  induction lines as [|line lines IH]; intros st HP; cbn; [done|]. destruct (ex_wire st); [done|]. by apply IH.
Qed.
End run.

(** ** Sequential use of the gate *)

Section alone.
Context `{DeviceLib} (clock : nat → Z).
Local Open Scope prog_scope.

Local Notation hoare := (hoare clock).
Local Notation keeps := (keeps clock).

(** *** Secrets *)

(** How many pending invites carry a secret. *)
Definition pending (s : string) (w : World) : nat :=
  match w_invites w with Stored l => with_secret s l | _ => 0 end.

Lemma pending_zero s w : pending s w = 0 → s ∉ stored_secrets w.
Proof.
  unfold pending, stored_secrets, with_secret. destruct (w_invites w) as [| |l]; try (intros _; apply not_elem_of_nil).
  intros H0 (i & -> & Hi)%list_elem_of_fmap. apply length_zero_iff_nil in H0.
  apply list_elem_of_In in Hi. assert (Hin : In i (List.filter (λ j, String.eqb (pi_secret j) (pi_secret i)) l)).
  { apply filter_In. split; [done|apply String.eqb_refl]. }
  by rewrite H0 in Hin.
Qed.

Lemma load_trust_keeps P : keeps P load_trust_at.
Proof. intros st HP. cbn. by destruct (load_trust _). Qed.

Lemma load_invites_keeps s n : keeps (λ w, pending s w ≤ n) load_invites_at.
Proof.
  intros st HP. cbn. unfold pending in HP. destruct (w_invites (ex_world st)) as [| |raw] eqn:Hf; cbn.
  - case_bool_decide; cbn; unfold pending; cbn; rewrite ?Hf; [done|unfold with_secret; cbn; lia].
  - unfold pending. by rewrite Hf.
  - pose proof (with_secret_filter s (λ i, unexpired (clock (ex_reads st)) (pi_expires_at i)) raw) as Hp.
    fold (prune_invites (clock (ex_reads st)) raw) in Hp.
    case_bool_decide; cbn; unfold pending; cbn; rewrite ?Hf; lia.
Qed.

Lemma load_invites_hoare s n :
  hoare (λ w, pending s w ≤ n) load_invites_at (λ l w, pending s w ≤ n ∧ with_secret s l ≤ n).
Proof.
  intros st HP. pose proof (load_invites_keeps s n st HP) as Hk. revert Hk HP. cbn. unfold pending.
  destruct (w_invites (ex_world st)) as [| |raw] eqn:Hf; cbn.
  - case_bool_decide; cbn; intros; (split; [done|unfold with_secret; cbn; lia]).
  - done.
  - pose proof (with_secret_filter s (λ i, unexpired (clock (ex_reads st)) (pi_expires_at i)) raw) as Hp.
    fold (prune_invites (clock (ex_reads st)) raw) in Hp.
    case_bool_decide; cbn; intros; (split; [done|lia]).
Qed.

(** A secret that was accepted was the last of its kind, if there was only one. *)
Lemma consume_gone s l l' : consume s l = (l', true) → with_secret (trim s) l ≤ 1 → with_secret (trim s) l' = 0.
Proof.
  unfold consume. destruct (position _ l) as [n|] eqn:Hn; intros [= <-] Hl.
  apply position_Some in Hn as (x & Hx & Hm%secrets_match_spec).
  rewrite (with_secret_perm _ _ _ (remove_at_perm _ _ _ Hx)) in Hl. unfold with_secret in *. cbn in Hl.
  rewrite Hm, String.eqb_refl in Hl. cbn in Hl. lia.
Qed.

Lemma consume_hoare s :
  hoare (λ w, pending (trim s) w ≤ 1) (consume_secret s) (λ found w, found = true → pending (trim s) w = 0).
Proof.
  eapply hoare_seq; [apply load_invites_hoare|]. intros l st [_ Hl].
  destruct (consume s l) as [l' found] eqn:Hc. cbn. intros ->. unfold pending. cbn. by eapply consume_gone.
Qed.

(** The other operations leave the invites alone. *)
Lemma admits_keeps s n fp : keeps (λ w, pending s w ≤ n) (admits fp).
Proof.
  apply keeps_seq; [apply load_trust_keeps|]. intros l. destruct (find_device fp l); [by intros st|].
  apply keeps_seq; [apply load_invites_keeps|]. intros i. destruct (has_live i); by intros st.
Qed.

Lemma record_pairing_hoare s fp n a :
  hoare (λ w, pending s w = 0) (record_pairing fp n a) (λ _ w, pending s w = 0).
Proof. eapply hoare_seq; [apply keeps_hoare, load_trust_keeps|]. intros l st HP. cbn. exact HP. Qed.

Section connection.
Context (encoded_len : PeerWelcome → option N) (local_name : string) (sessions : list RemoteServerSummary).
Local Notation establish := (establish encoded_len local_name sessions).

Lemma admit_trusted_not_paired cn fp hello a d P :
  hoare P (admit_trusted encoded_len local_name sessions cn fp hello a d)
    (λ r _, match r with Session _ _ paired => paired = false | _ => True end).
Proof.
  unfold admit_trusted. intros st _. rewrite run_bind. destruct (run clock _ st) as [st1 [[]|]]; [|done].
  rewrite run_bind. destruct (run clock _ st1) as [st2 [learned|]]; [|done].
  destruct hello as [| |v n page]; try (cbn; by destruct (ex_wire st2)).
  destruct (serve_session_list _ _ _ _ _); [|done]. rewrite run_bind.
  by destruct (run clock _ st2) as [st3 [[]|]].
Qed.

(** A secret buys one pairing: when a connection, undisturbed, ends as the one that paired and
    its secret was pending once, the secret is no longer pending anywhere; with
    [trust_needs_an_invite] no later connection, however it interleaves with others, is paired by
    it unless the owner mints it again. *)
Theorem pairing_spends_the_secret cn fp name version theirs secret port st st' :
  cn_hello cn = Some (HPair version theirs secret port) →
  pending (trim secret) (ex_world st) ≤ 1 →
  run clock (establish cn) st = (st', Some (Session fp name true)) →
  trim secret ∉ stored_secrets (ex_world st').
Proof.
  intros Hh Hp Hrun.
  enough (Hho : hoare (λ w, pending (trim secret) w ≤ 1) (establish cn)
    (λ r w, match r with Session _ _ true => pending (trim secret) w = 0 | _ => True end)).
  { specialize (Hho st Hp). rewrite Hrun in Hho. by apply pending_zero. }
  clear - Hh. unfold establish. destruct (cn_certificate cn) as [fp|]; [|by apply hoare_ret].
  eapply hoare_seq.
  { apply keeps_hoare, keeps_catch, keeps_seq; [apply admits_keeps|]. by intros adm st. }
  intros verified. destruct verified; cbn [negb]; [|by apply hoare_ret].
  eapply hoare_seq; [apply keeps_hoare, admits_keeps|]. intros adm. rewrite Hh.
  destruct (negb _); [by apply hoare_send, hoare_ret|].
  destruct adm as [device| |].
  - eapply hoare_weaken; [apply (admit_trusted_not_paired _ _ _ _ _ (λ _, True))|done|].
    by intros [? ? []|? ?|?] w.
  - eapply hoare_seq; [apply consume_hoare|]. intros found. destruct found; cbn [negb].
    + eapply hoare_seq; [eapply hoare_weaken; [apply record_pairing_hoare|naive_solver|by intros ? ? Hx; exact Hx]|].
      intros []. apply hoare_send, hoare_ret. done.
    + by apply hoare_send, hoare_ret.
  - by apply hoare_send, hoare_ret.
Qed.

(** *** Forgetting *)

Definition no_live_invite (file : StoreFile PendingInvite) : Prop :=
  ∀ raw n, read_store file = Some raw → prune_invites (clock n) raw = [].

Lemma find_device_removed fp l n d :
  NoDup (td_fingerprint <$> l) → l !! n = Some d → td_fingerprint d = to_hex fp →
  find_device fp (remove_at n l) = None.
Proof.
  intros Hnd Hn Hd. apply find_None_elem. intros x Hx. apply String.eqb_neq. intros Heq.
  rewrite (remove_at_perm _ _ _ Hn), fmap_cons, NoDup_cons, Hd in Hnd. apply (proj1 Hnd).
  rewrite <- Heq. by apply list_elem_of_fmap_2.
Qed.

Lemma unknown_refused cn fp st l :
  cn_certificate cn = Some fp → load_trust (w_trust (ex_world st)) = Some l → find_device fp l = None →
  no_live_invite (w_invites (ex_world st)) →
  (run clock (establish cn) st).2 = Some (Rejected Handshake) ∧
  w_trust (ex_world (run clock (establish cn) st).1) = w_trust (ex_world st).
Proof.
  intros Hfp Hl Hfind Hlive. unfold establish. rewrite Hfp, run_bind. cbn. rewrite Hl. cbn. rewrite Hfind. cbn.
  destruct (read_store (w_invites (ex_world st))) as [raw|] eqn:Hraw; cbn; [|done].
  rewrite (Hlive raw _ Hraw). by case_bool_decide.
Qed.

(** Forgetting takes effect on the next connection: once the owner's command has removed a
    device, named by its display name or its fingerprint, and no invite is open, a connection
    that proves the device's certificate ends in the handshake and the store stays as it is. *)
Theorem forgotten_device_refused needle cn fp l d st :
  w_trust (ex_world st) = Stored l → NoDup (td_fingerprint <$> l) →
  find_by_name_or_fingerprint needle l = Some d → td_fingerprint d = to_hex fp →
  cn_certificate cn = Some fp → no_live_invite (w_invites (ex_world st)) →
  let st1 := (run clock (owner_forget needle) st).1 in
  (run clock (owner_forget needle) st).2 = Some (Some d) ∧
  to_hex fp ∉ stored_fingerprints (ex_world st1) ∧
  (run clock (establish cn) st1).2 = Some (Rejected Handshake) ∧
  w_trust (ex_world (run clock (establish cn) st1).1) = w_trust (ex_world st1).
Proof.
  intros Hl Hnd Hfound Hd Hfp Hlive st1. unfold find_by_name_or_fingerprint in Hfound.
  destruct (position_of needle l) as [n|] eqn:Hpos; [|done].
  assert (Hrun : run clock (owner_forget needle) st
                 = (with_world st (set_trust (ex_world st) (Stored (remove_at n l))), Some (Some d))).
  { cbn. rewrite Hl. cbn. unfold forget_device. rewrite Hpos, Hfound. done. }
  pose proof (find_device_removed fp l n d Hnd Hfound Hd) as Hnone.
  unfold st1. rewrite Hrun. cbn [fst snd]. split; [done|]. split.
  - intros (x & Hx & Hin)%list_elem_of_fmap. unfold find_device in Hnone.
    apply (proj1 (find_None_elem _ _) Hnone) in Hin. by rewrite <- Hx, String.eqb_refl in Hin.
  - by apply (unknown_refused cn fp _ (remove_at n l)).
Qed.
End connection.
End alone.

(** ** Two interleavings

    A schedule says which program makes its next access, and what its clock shows. *)

Definition thread_step {A} (t : Z) (w : World) (p : prog A) : World * prog A :=
  match p with
  | Ret _ | Fail => (w, p)
  | ReadTrust k => (w, k (w_trust w))
  | WriteTrust l k => (set_trust w (Stored l), k)
  | ReadInvites k => (w, k (w_invites w))
  | WriteInvites l k => (set_invites w (Stored l), k)
  | Now k => (w, k t)
  | Send _ k => (w, k)
  end.

Fixpoint schedule (turns : list (nat * Z)) (s : Sys) : Sys :=
  match turns with
  | [] => s
  | (i, t) :: turns =>
      schedule turns
        (match s.2 !! i with
         | Some p => let '(w, p) := thread_step t s.1 p in (w, <[i := p]> s.2)
         | None => s
         end)
  end.

Lemma schedule_reachable turns s : rtc sys_step s (schedule turns s).
Proof.
  revert s. induction turns as [|[i t] turns IH]; intros [w ps]; cbn; [done|].
  destruct (ps !! i) as [p|] eqn:Hi; [|apply IH].
  destruct (thread_step t w p) as [w' p'] eqn:Hst. etrans; [|apply IH].
  destruct p; cbn in Hst; injection Hst as <- <-; try (apply rtc_once; econstructor; [exact Hi|constructor]).
  - by rewrite list_insert_id.
  - by rewrite list_insert_id.
Qed.

Section races.
Local Existing Instance plain_lib.

Definition open_invite : PendingInvite :=
  {| pi_secret := "042137"; pi_address := "10.0.0.5:7644"; pi_expires_at := plain_time 600; pi_attempts_left := 5 |}.

Definition from_device (fp : Fingerprint) (host : string) (hello : PeerHello) : Connection :=
  {| cn_certificate := Some fp; cn_hello := Some hello; cn_later := [];
     cn_address := λ port, host +:+ ":" +:+ show_N port |}.

Definition pairing (name : string) : PeerHello := HPair 1 name "042137" None.

Definition two_guests : list Command :=
  [Connect (from_device example_fp "10.0.0.7" (pairing "oak"));
   Connect (from_device other_fp "10.0.0.8" (pairing "elm"))].

Definition programs (cs : list Command) : list (prog Outcome) := program (λ _, None) "here" [] <$> cs.

Definition alternating : list (nat * Z) :=
  mjoin (replicate 20 [(0, 1%Z); (1, 1%Z)]).

(** One invite, two pairings: the second connection loads the invites before the first has
    written them back, and both find the secret unspent; of the two devices that were told they are
    paired, the store keeps the one that saved last. *)
Lemma one_secret_two_devices :
  ∃ w ps,
    rtc sys_step ({| w_trust := NotFound; w_invites := Stored [open_invite] |}, programs two_guests) (w, ps) ∧
    ps = [Ret (Decided (Session example_fp "oak" true)); Ret (Decided (Session other_fp "elm" true))] ∧
    stored_fingerprints w = [to_hex other_fp].
Proof.
  exists (schedule alternating ({| w_trust := NotFound; w_invites := Stored [open_invite] |}, programs two_guests)).1.
  eexists. split; [|shelve].
  rewrite <- surjective_pairing. apply schedule_reachable.
  Unshelve. by vm_compute.
Qed.

Definition paired_device : TrustedDevice :=
  {| td_fingerprint := to_hex example_fp; td_name := "oak"; td_address := Some "10.0.0.7:7644";
     td_paired_at := plain_time 0 |}.

(** A trusted device calls from a new address while the owner forgets it: the connection loaded
    the store before the command and saves it after. *)
Definition moving : list Command :=
  [Connect (from_device example_fp "10.0.0.9" (HSession 1 "oak" None)); OwnerForget "oak"].

Definition forget_in_between : list (nat * Z) :=
  [(0, 1%Z); (0, 1%Z); (0, 1%Z); (1, 1%Z); (1, 1%Z); (0, 1%Z); (0, 1%Z)].

Lemma forget_undone :
  ∃ w ps,
    rtc sys_step ({| w_trust := Stored [paired_device]; w_invites := NotFound |}, programs moving) (w, ps) ∧
    ps = [Ret (Decided (Session example_fp "oak" false)); Ret Done] ∧
    stored_fingerprints w = [to_hex example_fp].
Proof.
  exists (schedule forget_in_between ({| w_trust := Stored [paired_device]; w_invites := NotFound |}, programs moving)).1.
  eexists. split; [|shelve].
  rewrite <- surjective_pairing. apply schedule_reachable.
  Unshelve. by vm_compute.
Qed.

(** ** The theorems at work *)

Definition guest_run : Run :=
  {| ex_world := {| w_trust := NotFound; w_invites := Stored [open_invite] |}; ex_reads := 0; ex_wire := 9; ex_sent := [] |}.

Definition guest : Connection := from_device example_fp "10.0.0.7" (pairing "oak").

Lemma pairing_spends_the_secret_witness :
  (run (λ _, 1%Z) (establish (λ _, None) "here" [] guest) guest_run).2 = Some (Session example_fp "oak" true) ∧
  "042137" ∉ stored_secrets (ex_world (run (λ _, 1%Z) (establish (λ _, None) "here" [] guest) guest_run).1).
Proof.
  assert (Hr : (run (λ _, 1%Z) (establish (λ _, None) "here" [] guest) guest_run).2 = Some (Session example_fp "oak" true))
    by by vm_compute.
  split; [done|].
  destruct (run (λ _, 1%Z) (establish (λ _, None) "here" [] guest) guest_run) as [st' r] eqn:Hrun. cbn in Hr |- *. subst r.
  change "042137" with (trim "042137").
  apply (pairing_spends_the_secret (λ _, 1%Z) (λ _, None) "here" [] guest example_fp "oak" 1 "oak" "042137" None guest_run);
    [done|by vm_compute|done].
Defined.

Definition guests_start : Sys :=
  ({| w_trust := NotFound; w_invites := Stored [open_invite] |}, programs two_guests).

Definition guests_end : Sys := schedule alternating guests_start.

Lemma guests_reachable : rtc sys_step guests_start (guests_end.1, guests_end.2).
Proof. rewrite <- surjective_pairing. apply schedule_reachable. Qed.


Definition forgetful_run : Run :=
  {| ex_world := {| w_trust := Stored [paired_device]; w_invites := NotFound |}; ex_reads := 0; ex_wire := 9; ex_sent := [] |}.

Lemma forgotten_device_refused_witness :
  (run (λ _, 1%Z) (establish (λ _, None) "here" [] (from_device example_fp "10.0.0.9" (HSession 1 "oak" None)))
     (run (λ _, 1%Z) (owner_forget "oak") forgetful_run).1).2 = Some (Rejected Handshake).
Proof.
  apply (forgotten_device_refused (λ _, 1%Z) (λ _, None) "here" [] "oak" _ example_fp [paired_device] paired_device forgetful_run).
  - done.
  - apply NoDup_singleton.
  - by vm_compute.
  - done.
  - done.
  - intros raw n. cbn. by intros [= <-].
Defined.
End races.
