(* ===== verification/TrimFacts.v ===== *)
(** * Facts about trimming and case folding

    [trim] is idempotent, it commutes with [to_ascii_lowercase], and it removes exactly white space
    around a text.  The vocabularies of the provider modules are compared after both. *)

From S2P Require Export RustStr.

(** ** What trimming removes *)

(** The text starts with white space. *)
Definition lead_ws (s : string) : bool :=
  match s with
  | EmptyString => false
  | String a s1 =>
      ws_ascii a ||
      match s1 with
      | EmptyString => false
      | String b s2 =>
          ws_two a b || match s2 with EmptyString => false | String c _ => ws_three a b c end
      end
  end.

(** The text ends with white space, on the reversed text. *)
Definition lead_ws_rev (s : string) : bool :=
  match s with
  | EmptyString => false
  | String a s1 =>
      ws_ascii a ||
      match s1 with
      | EmptyString => false
      | String b s2 =>
          ws_two b a || match s2 with EmptyString => false | String c _ => ws_three c b a end
      end
  end.

(** A text is trimmed when neither end is white space. *)
Definition trimmed (s : string) : Prop := lead_ws s = false ∧ lead_ws_rev (String.rev s) = false.

#[export] Instance trimmed_dec s : Decision (trimmed s).
Proof. unfold trimmed. apply _. Defined.

Lemma trim_start_id s : lead_ws s = false → trim_start s = s.
Proof.
  destruct s as [|a [|b [|c s]]]; simpl; intros H; [done| | |];
    repeat (apply orb_false_iff in H as [-> H]); by rewrite ?H.
Qed.

Lemma trim_start_rev_id s : lead_ws_rev s = false → trim_start_rev s = s.
Proof.
  destruct s as [|a [|b [|c s]]]; simpl; intros H; [done| | |];
    repeat (apply orb_false_iff in H as [-> H]); by rewrite ?H.
Qed.

Lemma str_size_ind (P : string → Prop) :
  (∀ s, (∀ t, String.length t < String.length s → P t) → P s) → ∀ s, P s.
Proof.
  intros H s. remember (String.length s) as n eqn:Hn. revert s Hn.
  induction (lt_wf n) as [n _ IH]. intros s ->. apply H. intros t Ht. by eapply IH.
Qed.

Lemma trim_start_lead s : lead_ws (trim_start s) = false.
Proof.
  induction s as [s IH] using str_size_ind.
  destruct s as [|a [|b [|c s]]]; cbn [trim_start]; [done| | |];
    repeat (case_match; try (apply IH; simpl; lia));
    simpl; repeat (match goal with H : _ = false |- _ => rewrite H end); try done.
Qed.

Lemma trim_start_rev_lead s : lead_ws_rev (trim_start_rev s) = false.
Proof.
  induction s as [s IH] using str_size_ind.
  destruct s as [|a [|b [|c s]]]; cbn [trim_start_rev]; [done| | |];
    repeat (case_match; try (apply IH; simpl; lia));
    simpl; repeat (match goal with H : _ = false |- _ => rewrite H end); try done.
Qed.

Lemma lead_ws_prefix a b : lead_ws (a +:+ b) = false → lead_ws a = false.
Proof.
  destruct a as [|x [|y [|z a]]]; simpl; intros H; [done| | |done].
  - apply orb_false_iff in H as [-> _]. done.
  - apply orb_false_iff in H as [-> [-> _]%orb_false_iff]. done.
Qed.

Lemma lead_ws_rev_prefix a b : lead_ws_rev (a +:+ b) = false → lead_ws_rev a = false.
Proof.
  destruct a as [|x [|y [|z a]]]; simpl; intros H; [done| | |done].
  - apply orb_false_iff in H as [-> _]. done.
  - apply orb_false_iff in H as [-> [-> _]%orb_false_iff]. done.
Qed.

(** What [trim_start_rev] leaves is a tail of the text. *)
Lemma trim_start_rev_suffix s : ∃ p, s = p +:+ trim_start_rev s.
Proof.
  induction s as [s IH] using str_size_ind.
  destruct s as [|a s]; [by exists ""|]. cbn [trim_start_rev].
  case_match. { destruct (IH s) as [q Hq]; [simpl; lia|]. exists (String a q). by rewrite Hq at 1. }
  destruct s as [|b s]; [by exists ""|].
  case_match.
  { destruct (IH s) as [q Hq]; [simpl; lia|]. exists (String a (String b q)). by rewrite Hq at 1. }
  destruct s as [|c s]; [by exists ""|].
  case_match; [|by exists ""].
  destruct (IH s) as [q Hq]; [simpl; lia|]. exists (String a (String b (String c q))).
  by rewrite Hq at 1.
Qed.

Lemma trim_end_prefix s : ∃ q, s = trim_end s +:+ q.
Proof.
  unfold trim_end. destruct (trim_start_rev_suffix (String.rev s)) as [p Hp].
  exists (String.rev p). rewrite <- rev_app, <- Hp. by rewrite rev_rev.
Qed.

Lemma trim_trimmed s : trimmed (trim s).
Proof.
  unfold trim. split.
  - destruct (trim_end_prefix (trim_start s)) as [q Hq].
    eapply lead_ws_prefix. rewrite <- Hq. apply trim_start_lead.
  - unfold trim_end. rewrite rev_rev. apply trim_start_rev_lead.
Qed.

Lemma trim_id s : trimmed s → trim s = s.
Proof.
  intros [H1 H2]. unfold trim. rewrite trim_start_id by done.
  unfold trim_end. by rewrite trim_start_rev_id, rev_rev by done.
Qed.

(** [s.trim().trim()] is [s.trim()]. *)
Lemma trim_idemp s : trim (trim s) = trim s.
Proof. apply trim_id, trim_trimmed. Qed.

(** ** Case folding *)

Lemma byte_lower c :
  byte (to_ascii_lowercase_char c) = if is_ascii_upper c then (byte c + 32)%N else byte c.
Proof. by destruct c as [[] [] [] [] [] [] [] []]. Qed.

(** Lower-casing a character moves it within [65, 122]. *)
Lemma lower_char_cases c :
  to_ascii_lowercase_char c = c
  ∨ ((65 <= byte c <= 90)%N ∧ (97 <= byte (to_ascii_lowercase_char c) <= 122)%N).
Proof.
  rewrite byte_lower. unfold to_ascii_lowercase_char, is_ascii_upper.
  destruct (65 <=? byte c)%N eqn:H1, (byte c <=? 90)%N eqn:H2; simpl; [|by auto..].
  apply N.leb_le in H1, H2. right. lia.
Qed.

Ltac lower_bytes :=
  repeat match goal with
  | |- context [to_ascii_lowercase_char ?c] =>
      destruct (lower_char_cases c) as [->|[? ?]];
      [|let x := fresh "x" in generalize dependent (to_ascii_lowercase_char c); intros x ?]
  end.

Ltac bytes_differ :=
  repeat match goal with
  | H : (65 <= byte ?a <= 90)%N |- context [(byte ?a =? ?k)%N] =>
      rewrite (proj2 (N.eqb_neq (byte a) k)) by lia
  | H : (97 <= byte ?a <= 122)%N |- context [(byte ?a =? ?k)%N] =>
      rewrite (proj2 (N.eqb_neq (byte a) k)) by lia
  | H : (65 <= byte ?a <= 90)%N |- context [(?k <=? byte ?a)%N] =>
      first [rewrite (proj2 (N.leb_gt k (byte a))) by lia | rewrite (proj2 (N.leb_le k (byte a))) by lia]
  | H : (97 <= byte ?a <= 122)%N |- context [(?k <=? byte ?a)%N] =>
      first [rewrite (proj2 (N.leb_gt k (byte a))) by lia | rewrite (proj2 (N.leb_le k (byte a))) by lia]
  | H : (65 <= byte ?a <= 90)%N |- context [(byte ?a <=? ?k)%N] =>
      first [rewrite (proj2 (N.leb_gt (byte a) k)) by lia | rewrite (proj2 (N.leb_le (byte a) k)) by lia]
  | H : (97 <= byte ?a <= 122)%N |- context [(byte ?a <=? ?k)%N] =>
      first [rewrite (proj2 (N.leb_gt (byte a) k)) by lia | rewrite (proj2 (N.leb_le (byte a) k)) by lia]
  end; rewrite ?andb_false_r, ?andb_false_l; simpl; try done.

Lemma ws_ascii_lower c : ws_ascii (to_ascii_lowercase_char c) = ws_ascii c.
Proof. unfold ws_ascii. lower_bytes; [done|]. bytes_differ. Qed.

Lemma ws_two_lower a b :
  ws_two (to_ascii_lowercase_char a) (to_ascii_lowercase_char b) = ws_two a b.
Proof. unfold ws_two. lower_bytes; [done|bytes_differ..]. Qed.

Lemma ws_three_lower a b c :
  ws_three (to_ascii_lowercase_char a) (to_ascii_lowercase_char b) (to_ascii_lowercase_char c)
  = ws_three a b c.
Proof. unfold ws_three. lower_bytes; [done|bytes_differ..]. Qed.

Lemma lower_cons c s :
  to_ascii_lowercase (String c s) = String (to_ascii_lowercase_char c) (to_ascii_lowercase s).
Proof. done. Qed.

Lemma lower_app a b : to_ascii_lowercase (a +:+ b) = to_ascii_lowercase a +:+ to_ascii_lowercase b.
Proof.
  induction a as [|c a IH]; [done|]. change (String c a +:+ b) with (String c (a +:+ b)).
  by rewrite !lower_cons, IH.
Qed.

Lemma lower_rev s : to_ascii_lowercase (String.rev s) = String.rev (to_ascii_lowercase s).
Proof.
  induction s as [|c s IH]; [done|]. by rewrite rev_cons, lower_app, lower_cons, rev_cons, IH.
Qed.

Lemma lower_char_idemp c :
  to_ascii_lowercase_char (to_ascii_lowercase_char c) = to_ascii_lowercase_char c.
Proof. by destruct c as [[] [] [] [] [] [] [] []]. Qed.

Lemma lower_idemp s : to_ascii_lowercase (to_ascii_lowercase s) = to_ascii_lowercase s.
Proof. induction s as [|c s IH]; [done|]. by rewrite !lower_cons, lower_char_idemp, IH. Qed.

Lemma trim_start_lower s : trim_start (to_ascii_lowercase s) = to_ascii_lowercase (trim_start s).
Proof.
  induction s as [s IH] using str_size_ind.
  destruct s as [|a s]; [done|]. rewrite lower_cons. cbn [trim_start]. rewrite ws_ascii_lower.
  destruct (ws_ascii a); [apply IH; simpl; lia|].
  destruct s as [|b s]; [done|]. rewrite lower_cons, ws_two_lower.
  destruct (ws_two a b); [apply IH; simpl; lia|].
  destruct s as [|c s]; [done|]. rewrite lower_cons, ws_three_lower.
  destruct (ws_three a b c); [apply IH; simpl; lia|done].
Qed.

Lemma trim_start_rev_lower s :
  trim_start_rev (to_ascii_lowercase s) = to_ascii_lowercase (trim_start_rev s).
Proof.
  induction s as [s IH] using str_size_ind.
  destruct s as [|a s]; [done|]. rewrite lower_cons. cbn [trim_start_rev]. rewrite ws_ascii_lower.
  destruct (ws_ascii a); [apply IH; simpl; lia|].
  destruct s as [|b s]; [done|]. rewrite lower_cons, ws_two_lower.
  destruct (ws_two b a); [apply IH; simpl; lia|].
  destruct s as [|c s]; [done|]. rewrite lower_cons, ws_three_lower.
  destruct (ws_three c b a); [apply IH; simpl; lia|done].
Qed.

(** [s.to_ascii_lowercase().trim()] is [s.trim().to_ascii_lowercase()]. *)
Lemma trim_lower s : trim (to_ascii_lowercase s) = to_ascii_lowercase (trim s).
Proof.
  unfold trim, trim_end. by rewrite trim_start_lower, <- lower_rev, trim_start_rev_lower, lower_rev.
Qed.

Lemma trimmed_lower s : trimmed s → trimmed (to_ascii_lowercase s).
Proof. intros H. rewrite <- (trim_id s H), <- trim_lower. apply trim_trimmed. Qed.

(** ** Trimmed texts put together *)

Lemma solid_lead c s : solid c = true → lead_ws (String c s) = false.
Proof.
  intros (H1 & H2 & _ & H3 & _)%solid_spec. simpl. rewrite H1.
  destruct s as [|b s]; [done|]. rewrite H2. destruct s as [|d s]; [done|]. by rewrite H3.
Qed.

Lemma solid_lead_rev c s : solid c = true → lead_ws_rev (String c s) = false.
Proof.
  intros (H1 & _ & H2 & _ & H3)%solid_spec. simpl. rewrite H1.
  destruct s as [|b s]; [done|]. rewrite H2. destruct s as [|d s]; [done|]. by rewrite H3.
Qed.

Lemma solid_middle c a b : solid c = true → ws_three a c b = false.
Proof.
  unfold solid. intros [Hlt%N.ltb_lt _]%andb_true_iff. unfold ws_three.
  rewrite !(proj2 (N.eqb_neq (byte c) _)) by lia. by rewrite !andb_false_r.
Qed.

(** A solid character shields what follows it. *)
Lemma lead_ws_rev_app s c t :
  s ≠ "" → lead_ws_rev s = false → solid c = true → lead_ws_rev (s +:+ String c t) = false.
Proof.
  intros Hs Hl Hc. pose proof (solid_spec c Hc) as (H1 & H2 & _ & H3 & _).
  destruct s as [|x [|y [|z s]]]; [done|simpl in *..]; [| |done].
  - apply orb_false_iff in Hl as [-> _]. rewrite H2. destruct t; [done|]. by rewrite solid_middle.
  - apply orb_false_iff in Hl as [-> [-> _]%orb_false_iff]. by rewrite H3.
Qed.

(** So does any ASCII character, behind a text that is not empty. *)
Lemma lead_ws_rev_ascii s c t :
  s ≠ "" → lead_ws_rev s = false → (byte c < 128)%N → lead_ws_rev (s +:+ String c t) = false.
Proof.
  intros Hs Hl Hc. destruct (ascii_not_ws c Hc) as (H1 & H2 & H3 & H4 & H5).
  destruct s as [|x [|y [|z s]]]; [done|simpl in *..]; [| |done].
  - apply orb_false_iff in Hl as [-> _]. rewrite H1. destruct t; [done|]. by rewrite H4.
  - apply orb_false_iff in Hl as [-> [-> _]%orb_false_iff]. by rewrite H3.
Qed.

Lemma lead_ws_ascii s c t :
  s ≠ "" → lead_ws s = false → (byte c < 128)%N → lead_ws (s +:+ String c t) = false.
Proof.
  intros Hs Hl Hc. destruct (ascii_not_ws c Hc) as (H1 & H2 & H3 & H4 & H5).
  destruct s as [|x [|y [|z s]]]; [done|simpl in *..]; [| |done].
  - apply orb_false_iff in Hl as [-> _]. rewrite H2. destruct t; [done|]. by rewrite H4.
  - apply orb_false_iff in Hl as [-> [-> _]%orb_false_iff]. by rewrite H5.
Qed.

(** A trimmed text behind a prefix with a solid first and a solid last character. *)
Lemma trimmed_prefixed p c s :
  solid c = true → lead_ws (p +:+ str1 c) = false → (s ≠ "" → trimmed s) →
  (p = "" ∨ ∃ d p', p = String d p' ∧ solid d = true) →
  trimmed (p +:+ str1 c +:+ s).
Proof.
  intros Hc Hl Hs Hp. split.
  - destruct Hp as [->|(d & p' & -> & Hd)]; by apply solid_lead.
  - rewrite !rev_app. change (String.rev (str1 c)) with (str1 c).
    destruct (decide (s = "")) as [->|Hne].
    { simpl. change (str1 c +:+ String.rev p) with (String c (String.rev p)). by apply solid_lead_rev. }
    destruct (Hs Hne) as [_ Ht]. rewrite <- str_app_assoc.
    change (str1 c +:+ String.rev p) with (String c (String.rev p)).
    apply lead_ws_rev_app; [|done..]. intros E. apply Hne.
    by rewrite <- (rev_rev s), E.
Qed.

(** ** Texts with solid ends *)

(** A token has solid ends, and its last character is no colon. *)
Definition token_like (w : string) : bool :=
  match first_char w, first_char (String.rev w) with
  | Some c, Some d => solid c && solid d && negb (Ascii.eqb d ":")
  | _, _ => false
  end.

Lemma solid_lower c : solid (to_ascii_lowercase_char c) = solid c.
Proof. by destruct c as [[] [] [] [] [] [] [] []]. Qed.

Lemma token_ends w v :
  token_like w = true → to_ascii_lowercase v = w →
  ∃ c t d u, v = String c t ∧ v = u +:+ str1 d ∧ solid c = true ∧ solid d = true ∧ d ≠ ":"%char.
Proof.
  intros Hw <-. unfold token_like in Hw. rewrite <- lower_rev in Hw.
  destruct v as [|c t]; [done|]. rewrite lower_cons in Hw.
  destruct (String.rev (String c t)) as [|d r] eqn:Hr; [done|]. rewrite lower_cons in Hw.
  apply andb_true_iff in Hw as [[Hc Hd]%andb_true_iff Hcol].
  exists c, t, d, (String.rev r). rewrite !solid_lower in *. split_and!; [done| |done..|].
  - by rewrite <- (rev_rev (String c t)), Hr, rev_cons.
  - by intros ->.
Qed.

Lemma token_like_elem l w : forallb token_like l = true → w ∈ l → token_like w = true.
Proof. intros H Hw. by apply (proj1 (forallb_elem _ _) H). Qed.

(** ** Tests on a fixed list of literals *)

Lemma one_of_iff l s : one_of l s = true ↔ s ∈ l.
Proof.
  unfold one_of. rewrite existsb_elem. split.
  - intros (x & Hx & ->%String.eqb_eq). done.
  - intros Hs. exists s. by rewrite String.eqb_refl.
Qed.

Lemma one_of_false l s : one_of l s = false ↔ s ∉ l.
Proof. by rewrite <- not_true_iff_false, one_of_iff. Qed.

(** A literal that ends in a colon keeps its stem under [strip_suffix]. *)
Lemma strip_suffix_Some p s t : strip_suffix p s = Some t ↔ s = t +:+ p.
Proof.
  unfold strip_suffix. split.
  - intros (r & H%strip_prefix_Some & ->)%fmap_Some.
    rewrite <- (rev_rev s), H, rev_app, rev_rev. done.
  - intros ->. rewrite rev_app. apply fmap_Some. exists (String.rev t).
    split; [by apply strip_prefix_Some|by rewrite rev_rev].
Qed.

Lemma strip_suffix_None p s : strip_suffix p s = None ↔ ∀ t, s ≠ t +:+ p.
Proof.
  split.
  - intros H t E. apply strip_suffix_Some in E. congruence.
  - intros H. destruct (strip_suffix p s) eqn:E; [|done]. apply strip_suffix_Some in E. by destruct (H s0).
Qed.
