(* ===== verification/ProviderAuth.v ===== *)
(** * Dual-auth credentials and provider names (crates/arterm-provider-core/src)

    [auth_mode.rs] reads and writes the four credential routes (provider and OAuth or API key) in
    every vocabulary the program uses for them; [selection.rs] has the provider slots, their
    names, the fallback order and the prefixes of model names.  Functions on [&'static str] give
    the literal. *)

From S2P Require Export TrimFacts.

(** ** Types *)

(** [ActiveProvider] *)
Inductive ActiveProvider :=
  | AP_Claude | AP_OpenAI | AP_Copilot | AP_Antigravity | AP_Gemini | AP_Cursor | AP_Bedrock
  | AP_OpenRouter.

#[export] Instance ActiveProvider_eq_dec : EqDecision ActiveProvider.
Proof. solve_decision. Defined.

(** [DualAuthProvider] *)
Inductive DualAuthProvider := Anthropic | OpenAI.

#[export] Instance DualAuthProvider_eq_dec : EqDecision DualAuthProvider.
Proof. solve_decision. Defined.

(** [AuthMode] *)
Inductive AuthMode := Oauth | ApiKey.

#[export] Instance AuthMode_eq_dec : EqDecision AuthMode.
Proof. solve_decision. Defined.

(** [ResolvedCredential] *)
Inductive ResolvedCredential := Resolved_Oauth | Resolved_ApiKey.

Definition auth_method_label (c : ResolvedCredential) : string :=
  match c with Resolved_Oauth => "OAuth" | Resolved_ApiKey => "API key" end.

(** [AuthMode::is_subscription] *)
Definition mode_is_subscription (m : AuthMode) : bool :=
  match m with Oauth => true | ApiKey => false end.

(** [ResolvedCredential::is_subscription] *)
Definition credential_is_subscription (c : ResolvedCredential) : bool :=
  match c with Resolved_Oauth => true | Resolved_ApiKey => false end.

(** [AuthMode::resolved_credential] *)
Definition mode_resolved_credential (m : AuthMode) : ResolvedCredential :=
  match m with Oauth => Resolved_Oauth | ApiKey => Resolved_ApiKey end.

(** [DualAuthProvider::from_active_provider] *)
Definition from_active_provider (p : ActiveProvider) : option DualAuthProvider :=
  match p with AP_Claude => Some Anthropic | AP_OpenAI => Some OpenAI | _ => None end.

(** [DualAuthProvider::active_provider] *)
Definition dual_active_provider (p : DualAuthProvider) : ActiveProvider :=
  match p with Anthropic => AP_Claude | OpenAI => AP_OpenAI end.

(** [DualAuthProvider::bare_model_prefix] *)
Definition bare_model_prefix (p : DualAuthProvider) : string :=
  match p with Anthropic => "claude" | OpenAI => "openai" end.

(** [AuthRoute] *)
Record AuthRoute := mk_route { route_provider : DualAuthProvider; route_mode : AuthMode }.

#[export] Instance AuthRoute_eq_dec : EqDecision AuthRoute.
Proof. solve_decision. Defined.

Definition anthropic : AuthMode → AuthRoute := mk_route Anthropic.
Definition openai : AuthMode → AuthRoute := mk_route OpenAI.

(** [AuthRoute::active_provider] *)
Definition route_active_provider (r : AuthRoute) : ActiveProvider :=
  dual_active_provider (route_provider r).

(** [AuthRoute::resolved_credential] *)
Definition route_resolved_credential (r : AuthRoute) : ResolvedCredential :=
  mode_resolved_credential (route_mode r).

(** ** Reading a route *)

(** What both parsers compare: trimmed, one trailing colon dropped, trimmed again, in lower case. *)
Definition auth_token (s : string) : string :=
  let t := trim s in to_ascii_lowercase (trim (default t (strip_suffix ":" t))).

Definition ANTHROPIC_OAUTH_TOKENS : list string :=
  ["claude"; "anthropic"; "claude-oauth"; "anthropic-oauth"].
Definition ANTHROPIC_KEY_TOKENS : list string :=
  ["claude-api"; "anthropic-api"; "anthropic-api-key"; "claude-api-key"; "anthropic-key";
   "claude-key"; "api-key"].
Definition OPENAI_OAUTH_TOKENS : list string := ["openai"; "openai-oauth"].
Definition OPENAI_KEY_TOKENS : list string :=
  ["openai-api"; "openai-api-key"; "openai-key"; "openai-apikey"; "openai-platform";
   "platform-openai"].

(** The [match] of [AuthRoute::parse]. *)
Definition route_of_token (t : string) : option AuthRoute :=
  if one_of ANTHROPIC_OAUTH_TOKENS t then Some (anthropic Oauth)
  else if one_of ANTHROPIC_KEY_TOKENS t then Some (anthropic ApiKey)
  else if one_of OPENAI_OAUTH_TOKENS t then Some (openai Oauth)
  else if one_of OPENAI_KEY_TOKENS t then Some (openai ApiKey)
  else None.

(** [AuthRoute::parse] *)
Definition parse_route (s : string) : option AuthRoute := route_of_token (auth_token s).

(** [AuthRoute::parse_explicit_credential_prefix] *)
Definition parse_explicit_credential_prefix (prefix : string) : option AuthRoute :=
  let other := auth_token prefix in
  if one_of ["claude"; "anthropic"; "openai"] other then None else parse_route other.

(** ** Writing a route *)

Definition runtime_provider_key (r : AuthRoute) : string :=
  match r with
  | mk_route Anthropic Oauth => "claude"
  | mk_route Anthropic ApiKey => "claude-api"
  | mk_route OpenAI Oauth => "openai"
  | mk_route OpenAI ApiKey => "openai-api"
  end.

Definition route_api_method (r : AuthRoute) : string :=
  match r with
  | mk_route Anthropic Oauth => "claude-oauth"
  | mk_route Anthropic ApiKey => "anthropic-api-key"
  | mk_route OpenAI Oauth => "openai-oauth"
  | mk_route OpenAI ApiKey => "openai-api-key"
  end.

Definition model_prefix (r : AuthRoute) : string :=
  match r with
  | mk_route Anthropic Oauth => "claude-oauth"
  | mk_route Anthropic ApiKey => "claude-api"
  | mk_route OpenAI Oauth => "openai-oauth"
  | mk_route OpenAI ApiKey => "openai-api"
  end.

Definition session_provider_key (r : AuthRoute) : string :=
  match r with
  | mk_route Anthropic Oauth => "claude-oauth"
  | mk_route Anthropic ApiKey => "claude-api"
  | mk_route OpenAI Oauth => "openai-oauth"
  | mk_route OpenAI ApiKey => "openai-api"
  end.

Definition cli_provider_arg (r : AuthRoute) : string :=
  match r with
  | mk_route Anthropic Oauth => "claude"
  | mk_route Anthropic ApiKey => "anthropic-api"
  | mk_route OpenAI Oauth => "openai"
  | mk_route OpenAI ApiKey => "openai-api"
  end.

(** [pinned_mode_for]; the runtime provider is absent or a text. *)
Definition pinned_mode_for (p : DualAuthProvider) (runtime_provider : option string) : option AuthMode :=
  let?? key := runtime_provider in
  let?? r := parse_route key in
  if decide (route_provider r = p) then Some (route_mode r) else None.

(** [CredentialMode] *)
Inductive CredentialMode := Auto | Pin_OAuth | Pin_ApiKey.

(** [CredentialMode::from_runtime_env], on the value of [ARTERM_RUNTIME_PROVIDER]. *)
Definition from_runtime_env (p : DualAuthProvider) (env : option string) : CredentialMode :=
  match pinned_mode_for p env with
  | Some ApiKey => Pin_ApiKey
  | Some Oauth => Pin_OAuth
  | None => Auto
  end.

(** [CredentialMode::auth_route] *)
Definition auth_route (m : CredentialMode) (p : DualAuthProvider) : option AuthRoute :=
  match m, p with
  | Auto, _ => None
  | Pin_OAuth, Anthropic => Some (anthropic Oauth)
  | Pin_ApiKey, Anthropic => Some (anthropic ApiKey)
  | Pin_OAuth, OpenAI => Some (openai Oauth)
  | Pin_ApiKey, OpenAI => Some (openai ApiKey)
  end.

(** ** Provider slots ([selection.rs]) *)

Record ProviderAvailability := mk_availability {
  has_openai : bool; has_claude : bool; has_copilot : bool; has_antigravity : bool;
  has_gemini : bool; has_cursor : bool; has_bedrock : bool; has_openrouter : bool;
  copilot_premium_zero : bool }.

Definition is_configured (a : ProviderAvailability) (p : ActiveProvider) : bool :=
  match p with
  | AP_Claude => has_claude a
  | AP_OpenAI => has_openai a
  | AP_Copilot => has_copilot a
  | AP_Antigravity => has_antigravity a
  | AP_Gemini => has_gemini a
  | AP_Cursor => has_cursor a
  | AP_Bedrock => has_bedrock a
  | AP_OpenRouter => has_openrouter a
  end.

Definition auto_default_provider (a : ProviderAvailability) : ActiveProvider :=
  if copilot_premium_zero a && has_copilot a then AP_Copilot
  else if has_claude a then AP_Claude
  else if has_openai a then AP_OpenAI
  else if has_copilot a then AP_Copilot
  else if has_antigravity a then AP_Antigravity
  else if has_gemini a then AP_Gemini
  else if has_cursor a then AP_Cursor
  else if has_bedrock a then AP_Bedrock
  else if has_openrouter a then AP_OpenRouter
  else AP_Claude.

Definition parse_provider_hint (value : string) : option ActiveProvider :=
  let v := to_ascii_lowercase (trim value) in
  if one_of ["claude"; "anthropic"] v then Some AP_Claude
  else if one_of ["openai"] v then Some AP_OpenAI
  else if one_of ["copilot"] v then Some AP_Copilot
  else if one_of ["antigravity"] v then Some AP_Antigravity
  else if one_of ["gemini"] v then Some AP_Gemini
  else if one_of ["cursor"] v then Some AP_Cursor
  else if one_of ["bedrock"; "aws-bedrock"; "aws_bedrock"] v then Some AP_Bedrock
  else if one_of ["openrouter"] v then Some AP_OpenRouter
  else None.

Definition provider_label (p : ActiveProvider) : string :=
  match p with
  | AP_Claude => "Anthropic"
  | AP_OpenAI => "OpenAI"
  | AP_Copilot => "GitHub Copilot"
  | AP_Antigravity => "Antigravity"
  | AP_Gemini => "Gemini"
  | AP_Cursor => "Cursor"
  | AP_Bedrock => "AWS Bedrock"
  | AP_OpenRouter => "OpenRouter"
  end.

Definition provider_key (p : ActiveProvider) : string :=
  match p with
  | AP_Claude => "claude"
  | AP_OpenAI => "openai"
  | AP_Copilot => "copilot"
  | AP_Antigravity => "antigravity"
  | AP_Gemini => "gemini"
  | AP_Cursor => "cursor"
  | AP_Bedrock => "bedrock"
  | AP_OpenRouter => "openrouter"
  end.

Definition provider_from_model_key (key : string) : option ActiveProvider :=
  if String.eqb key "claude" then Some AP_Claude
  else if String.eqb key "openai" then Some AP_OpenAI
  else if String.eqb key "copilot" then Some AP_Copilot
  else if String.eqb key "antigravity" then Some AP_Antigravity
  else if String.eqb key "gemini" then Some AP_Gemini
  else if String.eqb key "cursor" then Some AP_Cursor
  else if String.eqb key "bedrock" then Some AP_Bedrock
  else if String.eqb key "openrouter" then Some AP_OpenRouter
  else None.

Definition cli_provider_arg_for_session_key (key : string) : option string :=
  let normalized := to_ascii_lowercase (trim key) in
  let base := match split_once ":" normalized with Some (prefix, _) => prefix | None => normalized end in
  match parse_route base with
  | Some r => Some (cli_provider_arg r)
  | None =>
      if one_of ["openrouter"; "copilot"; "gemini"; "cursor"; "bedrock"; "antigravity"] base
      then Some base
      else if one_of ["code-assist-oauth"; "google"] base then Some "google"
      else None
  end.

(** The prefixes in the order [explicit_model_provider_prefix] tries them. *)
Definition MODEL_PREFIXES : list (ActiveProvider * string) :=
  [(AP_Claude, "claude-api:"); (AP_Claude, "claude-oauth:"); (AP_Claude, "claude:");
   (AP_Claude, "anthropic:"); (AP_OpenAI, "openai-api:"); (AP_OpenAI, "openai-oauth:");
   (AP_OpenAI, "openai:"); (AP_Copilot, "copilot:"); (AP_Antigravity, "antigravity:");
   (AP_Gemini, "gemini:"); (AP_Cursor, "cursor:"); (AP_Bedrock, "bedrock:");
   (AP_OpenRouter, "openrouter:")].

Fixpoint first_prefix (table : list (ActiveProvider * string)) (model : string) :
    option (ActiveProvider * string * string) :=
  match table with
  | [] => None
  | (p, prefix) :: table =>
      match strip_prefix prefix model with
      | Some rest => Some (p, prefix, rest)
      | None => first_prefix table model
      end
  end.

Definition explicit_model_provider_prefix (model : string) : option (ActiveProvider * string * string) :=
  first_prefix MODEL_PREFIXES model.

Definition strip_own_model_prefix (model own_prefix : string) : string :=
  let model := trim model in
  match strip_prefix own_prefix model with
  | Some rest => if negb (is_empty own_prefix) then trim rest else model
  | None => model
  end.

Definition fallback_sequence (active : ActiveProvider) : list ActiveProvider :=
  match active with
  | AP_Claude => [AP_Claude; AP_OpenAI; AP_Copilot; AP_Gemini; AP_Cursor; AP_Bedrock; AP_OpenRouter]
  | AP_OpenAI => [AP_OpenAI; AP_Claude; AP_Copilot; AP_Gemini; AP_Cursor; AP_Bedrock; AP_OpenRouter]
  | AP_Copilot => [AP_Copilot; AP_Claude; AP_OpenAI; AP_Antigravity; AP_Gemini; AP_Cursor; AP_Bedrock; AP_OpenRouter]
  | AP_Antigravity => [AP_Antigravity; AP_Claude; AP_OpenAI; AP_Copilot; AP_Gemini; AP_Cursor; AP_Bedrock; AP_OpenRouter]
  | AP_Gemini => [AP_Gemini; AP_Claude; AP_OpenAI; AP_Antigravity; AP_Copilot; AP_Cursor; AP_Bedrock; AP_OpenRouter]
  | AP_Cursor => [AP_Cursor; AP_Claude; AP_OpenAI; AP_Copilot; AP_Antigravity; AP_Gemini; AP_OpenRouter]
  | AP_Bedrock => [AP_Bedrock; AP_Claude; AP_OpenAI; AP_Copilot; AP_Antigravity; AP_Gemini; AP_Cursor; AP_OpenRouter]
  | AP_OpenRouter => [AP_OpenRouter; AP_Claude; AP_OpenAI; AP_Copilot; AP_Antigravity; AP_Gemini; AP_Cursor]
  end.

(** ** The vocabularies agree *)

(** A token as someone may write it: any case, white space around it, one colon after it, and
    white space around that. *)
Definition written_as (w s : string) : Prop :=
  ∃ ws1 v ws2 ws3,
    string_forallb ws_ascii ws1 = true ∧ string_forallb ws_ascii ws2 = true ∧
    string_forallb ws_ascii ws3 = true ∧ to_ascii_lowercase v = w ∧
    (s = ws1 +:+ v +:+ ws2 ∨ s = ws1 +:+ v +:+ ws2 +:+ ":" +:+ ws3).

Lemma auth_token_written w s : token_like w = true → written_as w s → auth_token s = w.
Proof.
  intros Hw (ws1 & v & ws2 & ws3 & H1 & H2 & H3 & Hv & Hs).
  destruct (token_ends w v Hw Hv) as (c & t & d & u & Hc & Hd & Hsc & Hsd & Hcol).
  pose proof (trim_padded "" v "" _ _ _ _ eq_refl eq_refl Hc Hd Hsc Hsd) as Hid.
  rewrite str_app_nil_r in Hid. change ("" +:+ v) with v in Hid.
  unfold auth_token. destruct Hs as [->| ->].
  - rewrite (trim_padded ws1 v ws2 c t d u) by done.
    assert (strip_suffix ":" v = None) as ->; [|simpl; by rewrite Hid].
    apply strip_suffix_None. intros x E. rewrite Hd in E. apply (f_equal String.rev) in E.
    rewrite !rev_app in E. simplify_eq/=.
  - replace (ws1 +:+ v +:+ ws2 +:+ ":" +:+ ws3) with (ws1 +:+ ((v +:+ ws2) +:+ ":") +:+ ws3)
      by by rewrite !str_app_assoc.
    rewrite (trim_padded ws1 ((v +:+ ws2) +:+ ":") ws3 c ((t +:+ ws2) +:+ ":") ":" (v +:+ ws2));
      [|try done..]; [|by rewrite Hc].
    assert (strip_suffix ":" ((v +:+ ws2) +:+ ":") = Some (v +:+ ws2)) as ->
      by by apply strip_suffix_Some.
    simpl. rewrite <- Hv. f_equal. exact (trim_padded "" v ws2 c t d u eq_refl H2 Hc Hd Hsc Hsd).
Qed.

(** Every word any vocabulary uses for a route. *)
Definition route_words (r : AuthRoute) : list string :=
  [runtime_provider_key r; route_api_method r; model_prefix r; session_provider_key r; cli_provider_arg r].

(** The words that pin the credential. *)
Definition pinning_words (r : AuthRoute) : list string :=
  [route_api_method r; model_prefix r; session_provider_key r].

Lemma route_words_token r w : w ∈ route_words r → token_like w = true.
Proof.
  destruct r as [[] []]; intros Hw; (eapply token_like_elem; [|exact Hw]); by vm_compute.
Qed.

Lemma route_words_parse r : forallb (λ w, bool_decide (route_of_token w = Some r)) (route_words r) = true.
Proof. by destruct r as [[] []]. Qed.

Lemma parse_written r w s : w ∈ route_words r → written_as w s → parse_route s = Some r.
Proof.
  intros Hw Hs. unfold parse_route. rewrite (auth_token_written w) by eauto using route_words_token.
  by eapply bool_decide_eq_true, (proj1 (forallb_elem _ _) (route_words_parse r)).
Qed.

Lemma written_self w : written_as w w ↔ to_ascii_lowercase w = w.
Proof.
  split.
  - intros (? & v & ? & ? & _ & _ & _ & <- & _). apply lower_idemp.
  - intros H. exists "", w, "", "". split_and!; try done. left. by rewrite str_app_nil_r.
Qed.

Lemma pinning_parse r w s :
  w ∈ pinning_words r → written_as w s → parse_explicit_credential_prefix s = Some r.
Proof.
  intros Hw Hs. assert (w ∈ route_words r) as Hr.
  { unfold pinning_words, route_words in *. rewrite !elem_of_cons in *. naive_solver. }
  assert (one_of ["claude"; "anthropic"; "openai"] w = false ∧ to_ascii_lowercase w = w) as [H1 H2].
  { clear Hr. destruct r as [[] []]; unfold pinning_words in Hw; simpl in Hw;
      rewrite !elem_of_cons, elem_of_nil in Hw; naive_solver. }
  unfold parse_explicit_credential_prefix. rewrite (auth_token_written w) by eauto using route_words_token.
  rewrite H1. eapply parse_written; [done|]. by apply written_self.
Qed.

Lemma bare_never_pins p s :
  written_as (bare_model_prefix p) s → parse_explicit_credential_prefix s = None.
Proof.
  intros Hs. unfold parse_explicit_credential_prefix.
  rewrite (auth_token_written (bare_model_prefix p)) by (done || by destruct p). by destruct p.
Qed.

(** The vocabularies agree with the one parser: whichever word the runtime variable, a route,
    a model prefix, a session or the command line uses for a credential route, in any case, padded,
    with or without its colon, reads back as that route; the words of a route, a session or a model
    prefix also pin its credential; and the bare provider prefix never pins one, though it names
    the provider. *)
Theorem vocabularies_read_back (r : AuthRoute) (s : string) :
  (∀ w, w ∈ route_words r → written_as w s → parse_route s = Some r)
  ∧ (∀ w, w ∈ pinning_words r → written_as w s → parse_explicit_credential_prefix s = Some r)
  ∧ (written_as (bare_model_prefix (route_provider r)) s →
     parse_explicit_credential_prefix s = None
     ∧ parse_route s = Some (mk_route (route_provider r) Oauth)).
Proof.
  split_and!.
  - intros w. apply parse_written.
  - intros w. apply pinning_parse.
  - intros Hs. split; [by eapply bare_never_pins|].
    eapply parse_written; [|done]. destruct r as [[] m]; vm_compute; set_solver.
Qed.
