(* ===== verification/ProviderModels.v ===== *)
(** * Model names, families and context windows (crates/arterm-provider-core/src)

    [model_id.rs] normalizes model ids, [models.rs] has the curated lists, the provider a bare model
    name belongs to and its context window, [anthropic.rs] classifies Claude models by the family
    and version in their id.  Token counts are [usize], here [N]; versions are pairs of [u32]. *)

From S2P Require Export TrimFacts NetParse.

(** ** [model_id.rs] *)

Definition LONG_CONTEXT_SUFFIX : string := "[1m]".

Definition strip_long_context_suffix (model : string) : string :=
  default model (strip_suffix LONG_CONTEXT_SUFFIX model).

Definition split_long_context (model : string) : string * bool :=
  match strip_suffix LONG_CONTEXT_SUFFIX model with
  | Some base => (base, true)
  | None => (model, false)
  end.

Definition canonical (model : string) : string :=
  strip_long_context_suffix (to_ascii_lowercase (trim model)).

Definition is_date (tail : string) : bool := (String.length tail =? 8) && string_forallb is_ascii_digit tail.

Definition strip_date_suffix (model : string) : string :=
  match rsplit_once "-" model with
  | Some (head, tail) => if is_date tail then head else model
  | None => model
  end.

Definition slash_base (model : string) : string := after_last "/" model.

Definition matches_known_model (model : string) (known : list string) : bool :=
  let trimmed := trim model in
  if existsb (λ c, eq_ignore_ascii_case c trimmed) known then true
  else existsb (λ c, eq_ignore_ascii_case c (strip_long_context_suffix trimmed)) known.

(** ** The curated lists *)

Definition DEFAULT_CLAUDE_MODEL : string := "claude-opus-5".
Definition DEFAULT_OPENAI_MODEL : string := "gpt-5.6-sol".
Definition CHATGPT_WEB_MODEL : string := "gpt-5.6-pro[web]".

Definition ALL_CLAUDE_MODELS : list string :=
  [DEFAULT_CLAUDE_MODEL; "claude-fable-5"; "claude-opus-4-8"; "claude-opus-4-6"; "claude-opus-4-6[1m]";
   "claude-sonnet-5"; "claude-sonnet-4-6"; "claude-sonnet-4-6[1m]"; "claude-haiku-4-5";
   "claude-opus-4-5"; "claude-sonnet-4-5"; "claude-sonnet-4-20250514"].

Definition ALL_OPENAI_MODELS : list string :=
  [DEFAULT_OPENAI_MODEL; "gpt-5.6-pro"; CHATGPT_WEB_MODEL; "gpt-5.6"; "gpt-5.6-terra"; "gpt-5.6-luna";
   "gpt-5.5-pro"; "gpt-5.5"; "gpt-5.4"; "gpt-5.4-pro"; "gpt-5.3-codex"; "gpt-5.3-codex-spark";
   "gpt-5.2-chat-latest"; "gpt-5.2-codex"; "gpt-5.2-pro"; "gpt-5.1-codex-mini"; "gpt-5.1-codex-max";
   "gpt-5.2"; "gpt-5.1-chat-latest"; "gpt-5.1"; "gpt-5.1-codex"; "gpt-5-chat-latest"; "gpt-5-codex";
   "gpt-5-codex-mini"; "gpt-5-pro"; "gpt-5-mini"; "gpt-5-nano"; "gpt-5"].

Definition OPENAI_API_ONLY_PRO_MODELS : list string :=
  ["gpt-5.6-pro"; "gpt-5.5-pro"; "gpt-5.4-pro"; "gpt-5.2-pro"; "gpt-5-pro"].

Definition is_openai_api_only_pro_model (model : string) : bool :=
  let trimmed := trim model in
  existsb (λ pro, eq_ignore_ascii_case trimmed pro) OPENAI_API_ONLY_PRO_MODELS
  || ((4 <? String.length trimmed)
      && existsb (λ pro, starts_with (pro +:+ "-") (to_ascii_lowercase trimmed)) OPENAI_API_ONLY_PRO_MODELS).

Definition DEFAULT_CONTEXT_LIMIT : N := 200000.

Definition provider_key_from_hint (hint : option string) : option string :=
  let?? hint := hint in
  let normalized := to_ascii_lowercase (trim hint) in
  if one_of ["anthropic"; "claude"] normalized then Some "claude"
  else if one_of ["openai"] normalized then Some "openai"
  else if one_of ["openrouter"] normalized then Some "openrouter"
  else if one_of ["copilot"; "github copilot"] normalized then Some "copilot"
  else if one_of ["antigravity"] normalized then Some "antigravity"
  else if one_of ["gemini"; "google gemini"] normalized then Some "gemini"
  else if one_of ["cursor"] normalized then Some "cursor"
  else None.

Definition is_listable_model_name (model : string) : bool :=
  let trimmed := trim model in
  negb (is_empty trimmed) && negb (one_of ["copilot models"; "openrouter models"] trimmed).

Definition provider_for_model_with_hint (model : string) (hint : option string) : option string :=
  match provider_key_from_hint hint with
  | Some provider => Some provider
  | None =>
      let model := trim model in
      if contains_char "@" model then Some "openrouter"
      else if one_of ALL_CLAUDE_MODELS model then Some "claude"
      else if one_of ALL_OPENAI_MODELS model then Some "openai"
      else if contains_char "/" model then Some "openrouter"
      else if starts_with "claude-" model then Some "claude"
      else if starts_with "gpt-" model then Some "openai"
      else if starts_with "gemini-" model then Some "gemini"
      else None
  end.

Definition provider_for_model (model : string) : option string := provider_for_model_with_hint model None.

Definition model_id_for_capability_lookup (model : string) (provider : option string) : string * bool :=
  let '(base, is_1m) := split_long_context (to_ascii_lowercase (trim model)) in
  ((if bool_decide (provider = Some "openrouter") || contains_char "/" base then slash_base base else base),
   is_1m).

Definition normalize_copilot_model_name (model : string) : option string :=
  if one_of (ALL_CLAUDE_MODELS ++ ALL_OPENAI_MODELS) model then None
  else find (λ canonical, String.eqb canonical (replace "." "-" model)) (ALL_CLAUDE_MODELS ++ ALL_OPENAI_MODELS).

(** ** Claude families and versions ([anthropic.rs]) *)

Inductive AnthropicContextMode := Native1M | OptIn1M | Standard.

Definition default_context_window (m : AnthropicContextMode) : N :=
  match m with Native1M => 1000000 | OptIn1M | Standard => 200000 end.

Definition long_context_window (m : AnthropicContextMode) : N :=
  match m with Native1M => 1000000 | OptIn1M => 1048576 | Standard => 200000 end.

Definition has_1m_window (m : AnthropicContextMode) : bool :=
  match m with Standard => false | _ => true end.

Definition exposes_1m_alias (m : AnthropicContextMode) : bool :=
  match m with OptIn1M => true | _ => false end.

Definition anthropic_is_1m_model (model : string) : bool := ends_with "[1m]" model.

Definition anthropic_strip_1m_suffix : string → string := strip_long_context_suffix.

Definition normalized_claude_caps_key (model : string) : string :=
  strip_date_suffix (replace "." "-" (to_ascii_lowercase (anthropic_strip_1m_suffix (trim model)))).

Definition is_ascii_alphabetic (c : ascii) : bool := is_ascii_upper c || is_ascii_lower c.

(** [s.parse::<u32>().ok()] *)
Definition parse_u32 (s : string) : option N :=
  let digits := match s with String c s' => if Ascii.eqb c "+" then s' else s | EmptyString => s end in
  let '(value, count, rest) := read_digits 10 0 0 digits in
  if negb (count =? 0) && is_empty rest && (value <=? 4294967295)%N then Some value else None.

(** One segment of [parse_claude_family_version]: the family found and the first two numbers. *)
Definition family_step (acc : option string * list N) (segment : string) : option string * list N :=
  let '(family, nums) := acc in
  if String.eqb segment "claude" then acc
  else match parse_u32 segment with
       | Some num => (family, if length nums <? 2 then nums ++ [num] else nums)
       | None =>
           match family with
           | None => if string_forallb is_ascii_alphabetic segment then (Some segment, nums) else acc
           | Some _ => acc
           end
       end.

Definition parse_claude_family_version (base : string) : option string * option (N * N) :=
  let '(family, nums) := foldl family_step (None, []) (split_on "-" base) in
  (family, match nums with
           | [] => None
           | [major] => Some (major, 0%N)
           | major :: minor :: _ => Some (major, minor)
           end).

(** The derived order of pairs. *)
Definition version_le (a b : N * N) : bool :=
  (a.1 <? b.1)%N || ((a.1 =? b.1)%N && (a.2 <=? b.2)%N).

Definition version_eq (a b : N * N) : bool := (a.1 =? b.1)%N && (a.2 =? b.2)%N.

(** The [match] on the family in [anthropic_context_mode]. *)
Definition context_mode_of (family : option string) (version : N * N) : AnthropicContextMode :=
  let optimistic := if version_le (5, 0)%N version then Native1M else Standard in
  match family with
  | Some f =>
      if one_of ["opus"; "sonnet"] f then
        if version_le (4, 7)%N version then Native1M
        else if version_eq version (4, 6)%N then OptIn1M else Standard
      else if String.eqb f "haiku" && negb (version_le (5, 0)%N version) then Standard
      else optimistic
  | None => optimistic
  end.

Definition anthropic_context_mode (model : string) : AnthropicContextMode :=
  let base := normalized_claude_caps_key model in
  if negb (starts_with "claude" base) then Standard
  else match parse_claude_family_version base with
       | (_, None) => Standard
       | (family, Some version) => context_mode_of family version
       end.

Definition claude_id_has_parseable_version (model : string) : bool :=
  let base := normalized_claude_caps_key model in
  starts_with "claude" base
  && match (parse_claude_family_version base).2 with Some _ => true | None => false end.

Definition anthropic_context_mode_is_verified (model : string) : bool :=
  match parse_claude_family_version (normalized_claude_caps_key model) with
  | (Some f, Some version) =>
      if String.eqb f "opus" then version_le version (4, 8)%N
      else if String.eqb f "sonnet" then version_le version (5, 0)%N
      else if String.eqb f "haiku" then version_le version (4, 5)%N
      else false
  | _ => false
  end.

Definition LARGE_OUTPUT_PREFIXES : list string :=
  ["claude-opus-5"; "claude-opus-4-8"; "claude-opus-4.8"; "claude-opus-4-7"; "claude-opus-4.7";
   "claude-opus-4-6"; "claude-opus-4.6"; "claude-sonnet-5"; "claude-sonnet-4-6"; "claude-sonnet-4.6";
   "claude-fable-5"; "claude-fable"; "claude-mythos"].

Definition anthropic_max_output_tokens (model : string) : N :=
  let base := to_ascii_lowercase (anthropic_strip_1m_suffix (trim model)) in
  if existsb (λ prefix, starts_with prefix base) LARGE_OUTPUT_PREFIXES then 128000
  else if starts_with "claude-haiku-4-5" base || starts_with "claude-haiku-4.5" base then 64000
  else 32768.

(** [AnthropicReasoningCaps] and its constants. *)
Record AnthropicReasoningCaps := mk_caps {
  output_effort : bool; adaptive_thinking : bool; manual_thinking : bool; xhigh_effort : bool;
  max_effort : bool }.

Definition CAPS_FULL := mk_caps true true false true true.
Definition CAPS_EFFORT_NO_XHIGH := mk_caps true true false false true.
Definition CAPS_MANUAL_WITH_EFFORT := mk_caps true false true false false.
Definition CAPS_MANUAL_ONLY := mk_caps false false true false false.
Definition CAPS_NONE := mk_caps false false false false false.

Definition supports_reasoning_effort (c : AnthropicReasoningCaps) : bool :=
  output_effort c || manual_thinking c.

(** The [match] on the family in [anthropic_reasoning_caps]. *)
Definition reasoning_caps_of (family : option string) (version : N * N) : AnthropicReasoningCaps :=
  let optimistic := if version_le (5, 0)%N version then CAPS_FULL else CAPS_NONE in
  match family with
  | Some f =>
      if String.eqb f "opus" then
        if version_le (4, 7)%N version then CAPS_FULL
        else if version_eq version (4, 6)%N then CAPS_EFFORT_NO_XHIGH
        else if version_eq version (4, 5)%N then CAPS_MANUAL_WITH_EFFORT
        else CAPS_NONE
      else if String.eqb f "sonnet" then
        if version_le (5, 0)%N version then CAPS_FULL
        else if version_eq version (4, 6)%N then CAPS_EFFORT_NO_XHIGH
        else if version_eq version (3, 7)%N then CAPS_MANUAL_ONLY
        else CAPS_NONE
      else optimistic
  | None => optimistic
  end.

Definition anthropic_reasoning_caps (model : string) : AnthropicReasoningCaps :=
  let base := normalized_claude_caps_key model in
  if negb (starts_with "claude" base) then CAPS_NONE
  else if contains "mythos" base then CAPS_EFFORT_NO_XHIGH
  else match parse_claude_family_version base with
       | (_, None) => CAPS_NONE
       | (family, Some version) => reasoning_caps_of family version
       end.

(** The tool names of the OAuth surface, both ways. *)
Definition OAUTH_TOOL_NAMES : list (string * string) :=
  [("bash", "Bash"); ("read", "Read"); ("write", "Write"); ("edit", "Edit"); ("glob", "Glob");
   ("grep", "Grep"); ("subagent", "Agent"); ("schedule", "ScheduleWakeup"); ("skill_manage", "Skill")].

Definition anthropic_map_tool_name_for_oauth (name : string) : string :=
  match find (λ p, String.eqb p.1 name) OAUTH_TOOL_NAMES with Some p => p.2 | None => name end.

Definition anthropic_map_tool_name_from_oauth (name : string) : string :=
  match find (λ p, String.eqb p.2 name) OAUTH_TOOL_NAMES with Some p => p.1 | None => name end.

(** ** Context windows ([models.rs]) *)

Definition copilot_context_limit_for_model (model : string) : N :=
  if one_of ["claude-sonnet-4"; "claude-sonnet-4-6"; "claude-sonnet-4.6"] model then 128000
  else if one_of ["claude-opus-4-6"; "claude-opus-4.6"; "claude-opus-4.6-fast"] model then 200000
  else if one_of ["claude-opus-4.5"; "claude-opus-4-5"] model then 200000
  else if one_of ["claude-sonnet-4.5"; "claude-sonnet-4-5"] model then 200000
  else if one_of ["claude-haiku-4.5"; "claude-haiku-4-5"] model then 200000
  else if one_of ["gpt-4o"; "gpt-4o-mini"] model then 128000
  else if starts_with "gpt-4o" model then 128000
  else if starts_with "gpt-4.1" model then 128000
  else if starts_with "gpt-5" model then 128000
  else if one_of ["o3-mini"; "o4-mini"] model then 128000
  else if starts_with "gemini-2.0-flash" model then 1000000
  else if starts_with "gemini-2.5" model then 1000000
  else if starts_with "gemini-3" model then 1000000
  else 128000.

Definition base_is_known_claude_model (base : string) : bool :=
  let normalized := to_ascii_lowercase base in
  if negb (starts_with "claude" normalized) then false else claude_id_has_parseable_version normalized.

Definition is_bare_kimi_id (model : string) : bool :=
  match strip_prefix "k" model with
  | None => false
  | Some rest =>
      if is_empty (take_while is_ascii_digit rest) then false
      else match first_char (drop_while is_ascii_digit rest) with
           | None => true
           | Some c => Ascii.eqb c "-" || Ascii.eqb c "."
           end
  end.

(** The windows of [kimi_generation]; [before] is the byte in front of the window. *)
Fixpoint kimi_generation_from (before : option ascii) (s : string) : option N :=
  match s with
  | EmptyString => None
  | String a s1 =>
      match first_char s1 with
      | None => None
      | Some b =>
          if negb (Ascii.eqb a "k") || negb (is_ascii_digit b) then kimi_generation_from (Some a) s1
          else if match before with Some p => is_ascii_alphanumeric p | None => false end
          then kimi_generation_from (Some a) s1
          else parse_u32 (take_while is_ascii_digit s1)
      end
  end.

Definition kimi_generation (model : string) : option N := kimi_generation_from None model.

Definition any_in (needles : list string) (m : string) : bool := existsb (λ n, contains n m) needles.

Definition open_weight_family_context_limit (m : string) : option N :=
  if starts_with "grok-4.6" m || starts_with "grok-4.5" m then Some 500000%N
  else if contains "glm" m && any_in ["glm-5.2"; "glm-52"; "glm-5p2"; "glm-5.3"; "glm-53"; "glm-5p3"] m
  then Some 1000000%N
  else if contains "glm" m
          && any_in ["glm-5"; "glm-4.7"; "glm-47"; "glm-4p7"; "glm-4-7"; "glm-4.6"; "glm-46"; "glm-4p6"] m
  then Some 200000%N
  else if contains "glm" m && contains "glm-4" m then Some 128000%N
  else if contains "deepseek-v4" m then Some 1000000%N
  else if any_in ["deepseek-v3.2"; "deepseek-v3p2"; "deepseek-v3-2"] m then Some 163840%N
  else if contains "deepseek-v3" m then Some 131072%N
  else if contains "kimi" m || is_bare_kimi_id m then
    if ends_with "-256k" m then Some 262144%N
    else if match kimi_generation m with Some g => (3 <=? g)%N | None => false end then Some 1048576%N
    else Some 262144%N
  else if contains "minimax" m then Some 204800%N
  else if contains "celeris" m then Some 131072%N
  else if contains "mimo" m then Some 262144%N
  else if contains "muse-spark" m then Some 1048576%N
  else if contains "gte-qwen" m then Some 32768%N
  else if contains "qwen3" m || contains "qwen-3" m then Some 262144%N
  else if contains "gpt-oss" m then Some 131072%N
  else if contains "llama-3" m then Some 131072%N
  else if contains "hermes-4" m then Some 131072%N
  else if contains "gemma-3" m then Some 131072%N
  else if contains "mistral-small-3" m then Some 131072%N
  else if contains "grok-code-fast" m then Some 256000%N
  else if contains "sonar" m then Some 128000%N
  else None.

(** The family guesses, after the catalog. *)
Definition family_context_limit (model : string) (claude_static_limit : option N) : option N :=
  if starts_with "gpt-5.3-codex-spark" model then Some 128000%N
  else if starts_with "gpt-5.2-chat" model || starts_with "gpt-5.1-chat" model
          || starts_with "gpt-5-chat" model then Some 128000%N
  else if starts_with "gpt-5.4" model then Some 1000000%N
  else if starts_with "gpt-5" model then Some 272000%N
  else if starts_with "gemini-2.0-flash" model || starts_with "gemini-2.5" model
          || starts_with "gemini-3" model then Some 1000000%N
  else match open_weight_family_context_limit model with
       | Some limit => Some limit
       | None => claude_static_limit
       end.

Definition claude_static (model : string) (is_1m : bool) : option N :=
  if base_is_known_claude_model model then
    let mode := anthropic_context_mode model in
    Some (if is_1m then long_context_window mode else default_context_window mode)
  else None.

Definition context_limit_for_model_with_provider_and_cache
    (model : string) (hint : option string) (cached_context_limit : string → option N) : option N :=
  let provider := match provider_key_from_hint hint with
                  | Some p => Some p
                  | None => provider_for_model model
                  end in
  let '(model, is_1m) := model_id_for_capability_lookup model provider in
  if bool_decide (provider = Some "copilot") then Some (copilot_context_limit_for_model model)
  else
    let claude_static_limit := claude_static model is_1m in
    if match claude_static_limit with Some _ => true | None => false end
       && anthropic_context_mode_is_verified model
    then claude_static_limit
    else match cached_context_limit model with
         | Some limit => Some limit
         | None => family_context_limit model claude_static_limit
         end.

Definition context_limit_for_model_with_provider (model : string) (hint : option string) : option N :=
  context_limit_for_model_with_provider_and_cache model hint (λ _, None).

Definition context_limit_for_model (model : string) : option N :=
  context_limit_for_model_with_provider model None.

Example limit_k3 : context_limit_for_model "k3" = Some 1048576%N.
Proof. by vm_compute. Qed.
Example limit_opus : context_limit_for_model "Claude-Opus-4.6-20251001[1m]" = Some 1048576%N.
Proof. by vm_compute. Qed.

(** * Context windows do not depend on how a model is spelled

    The same model reaches the program under many ids: padded, in mixed case, with dots or dashes in
    its version, with a release date, with the long-context suffix. *)

(** ** Replacing one character *)

Definition swap_char (from to : ascii) (c : ascii) : ascii := if Ascii.eqb from c then to else c.

Lemma replace_char from to s : replace (str1 from) (str1 to) s = string_map (swap_char from to) s.
Proof.
  unfold replace. induction s as [|c s IH]; [done|]. cbn [replace_go string_map].
  unfold swap_char at 1. unfold starts_with, str1. cbn [String.prefix].
  destruct (ascii_dec from c) as [->|Hne].
  - rewrite Ascii.eqb_refl. assert (String.prefix "" s = true) as -> by by destruct s.
    cbn [String.length Nat.sub]. change (str1 to +:+ ?x) with (String to x). by rewrite <- IH.
  - apply Ascii.eqb_neq in Hne as ->. by rewrite <- IH.
Qed.

(** ** Cutting at a character *)

Lemma split_once_app c a b : lacks c a = true → split_once c (a +:+ String c b) = Some (a, b).
Proof.
  induction a as [|x a IH]; [cbn; by rewrite Ascii.eqb_refl|].
  change (String x a +:+ String c b) with (String x (a +:+ String c b)).
  unfold lacks in *. cbn. rewrite negb_true_iff, orb_false_iff. intros [-> Ha].
  by rewrite IH by by rewrite Ha.
Qed.

Lemma rsplit_once_app c a b : lacks c b = true → rsplit_once c (a +:+ str1 c +:+ b) = Some (a, b).
Proof.
  intros Hb. unfold rsplit_once. rewrite !rev_app. change (String.rev (str1 c)) with (str1 c).
  rewrite <- str_app_assoc. change (str1 c +:+ String.rev a) with (String c (String.rev a)).
  rewrite split_once_app by by apply lacks_rev. by rewrite !rev_rev.
Qed.

Lemma digits_lack c s : is_ascii_digit c = false → string_forallb is_ascii_digit s = true → lacks c s = true.
Proof.
  intros Hc. induction s as [|x s IH]; [done|]. unfold lacks. cbn.
  intros [Hx Hs]%andb_true_iff. destruct (Ascii.eqb_spec c x) as [->|_]; [congruence|]. by apply IH.
Qed.

Lemma after_last_lacks c s : contains_char c s = false → after_last c s = s.
Proof. destruct s as [|x s]; [done|]. cbn. by intros ->. Qed.

(** ** The two suffixes a Claude id may carry *)

(** A release date with its dash, or nothing. *)
Definition release_suffix (t : string) : Prop := t = "" ∨ ∃ d, is_date d = true ∧ t = "-" +:+ d.

(** The long-context suffix, or nothing. *)
Definition context_suffix (t : string) : Prop := t = "" ∨ t = LONG_CONTEXT_SUFFIX.

(** The lower-case, dashed form of an id. *)
Definition dashed (v : string) : string := replace "." "-" (to_ascii_lowercase v).

(** An id with solid ends that carries neither suffix. *)
Definition plain_id (v : string) : Prop :=
  token_like (to_ascii_lowercase v) = true ∧ strip_suffix LONG_CONTEXT_SUFFIX v = None
  ∧ strip_date_suffix (dashed v) = dashed v.

#[export] Instance plain_id_dec v : Decision (plain_id v).
Proof. unfold plain_id. apply _. Defined.

Lemma strip_date_dated m t :
  release_suffix t → strip_date_suffix m = m → strip_date_suffix (m +:+ t) = m.
Proof.
  intros [->|(d & Hd & ->)] Hm; [by rewrite str_app_nil_r|]. unfold strip_date_suffix.
  change ("-" +:+ d) with (str1 "-" +:+ d). rewrite rsplit_once_app; [by rewrite Hd|].
  apply andb_true_iff in Hd as [_ Hd]. by apply digits_lack.
Qed.

Lemma lower_digits s : string_forallb is_ascii_digit s = true → to_ascii_lowercase s = s.
Proof.
  intros Hs. apply string_map_id. eapply string_forallb_impl; [|exact Hs].
  intros c. by destruct c as [[] [] [] [] [] [] [] []].
Qed.

Lemma undot_digits s : string_forallb is_ascii_digit s = true → string_map (swap_char "." "-") s = s.
Proof.
  intros Hs. apply string_map_id. eapply string_forallb_impl; [|exact Hs].
  intros c. by destruct c as [[] [] [] [] [] [] [] []].
Qed.

(** A date passes through the case folding and the dash rewriting. *)
Lemma release_suffix_fixed t :
  release_suffix t → string_map (swap_char "." "-") (to_ascii_lowercase t) = t.
Proof.
  intros [->|(d & Hd & ->)]; [done|]. apply andb_true_iff in Hd as [_ Hd].
  change ("-" +:+ d) with (String "-" d). rewrite lower_cons, lower_digits by done. cbn.
  by rewrite undot_digits.
Qed.

Lemma digit_solid c : is_ascii_digit c = true → solid c = true.
Proof. by destruct c as [[] [] [] [] [] [] [] []]. Qed.

Lemma last_of s : s ≠ "" → ∃ u d, s = u +:+ str1 d.
Proof.
  intros Hs. rewrite <- (rev_rev s). destruct (String.rev s) as [|d r] eqn:E.
  - destruct Hs. by rewrite <- (rev_rev s), E.
  - exists (String.rev r), d. by rewrite rev_cons.
Qed.

Lemma string_forallb_last f u d : string_forallb f (u +:+ str1 d) = true → f d = true.
Proof. rewrite string_forallb_app. cbn. rewrite andb_true_r. by intros [_ ?]%andb_true_iff. Qed.

(** Solid ends survive the two suffixes. *)
Lemma solid_end_suffixed v t l :
  (∃ u d, v = u +:+ str1 d ∧ solid d = true) → release_suffix t → context_suffix l →
  ∃ u d, v +:+ t +:+ l = u +:+ str1 d ∧ solid d = true.
Proof.
  intros (u & d & -> & Hd) Ht [->| ->].
  - rewrite str_app_nil_r. destruct Ht as [->|(e & He & ->)].
    + rewrite str_app_nil_r. eauto.
    + apply andb_true_iff in He as [Hl He]. destruct (last_of e) as (x & y & ->).
      { by intros ->. }
      exists ((u +:+ str1 d) +:+ "-" +:+ x), y. split; [by rewrite !str_app_assoc|].
      by eapply digit_solid, string_forallb_last.
  - exists ((u +:+ str1 d) +:+ t +:+ "[1m"), "]"%char. split; [|done].
    change LONG_CONTEXT_SUFFIX with ("[1m" +:+ str1 "]"). by rewrite !str_app_assoc.
Qed.

Lemma strip_context_suffixed v l :
  strip_suffix LONG_CONTEXT_SUFFIX v = None → context_suffix l →
  strip_long_context_suffix (v +:+ l) = v.
Proof.
  intros Hv [->| ->]; unfold strip_long_context_suffix.
  - by rewrite str_app_nil_r, Hv.
  - by rewrite (proj2 (strip_suffix_Some LONG_CONTEXT_SUFFIX (v +:+ LONG_CONTEXT_SUFFIX) v)).
Qed.

Lemma dated_no_context v t :
  strip_suffix LONG_CONTEXT_SUFFIX v = None → release_suffix t →
  strip_suffix LONG_CONTEXT_SUFFIX (v +:+ t) = None.
Proof.
  intros Hv [->|(d & Hd & ->)]; [by rewrite str_app_nil_r|]. apply strip_suffix_None. intros x E.
  apply andb_true_iff in Hd as [Hl Hd]. destruct (last_of d) as (y & z & ->); [by intros ->|].
  apply string_forallb_last in Hd.
  apply (f_equal String.rev) in E. rewrite !rev_app in E. cbn in E. by injection E as -> _.
Qed.

Lemma spelling_key v t l ws1 ws2 :
  plain_id v → release_suffix t → context_suffix l →
  string_forallb ws_ascii ws1 = true → string_forallb ws_ascii ws2 = true →
  normalized_claude_caps_key (ws1 +:+ (v +:+ t +:+ l) +:+ ws2) = dashed v.
Proof.
  intros (Htok & Hv & Hd) Ht Hc Hw1 Hw2.
  destruct (token_ends _ v Htok eq_refl) as (c & r & d & u & Hvc & Hvd & Hsc & Hsd & _).
  destruct (solid_end_suffixed v t l) as (x & y & Hxy & Hy); [eauto|done|done|].
  unfold normalized_claude_caps_key, anthropic_strip_1m_suffix.
  rewrite (trim_padded ws1 (v +:+ t +:+ l) ws2 c (r +:+ t +:+ l) y x)
    by (done || by rewrite Hvc).
  rewrite str_app_assoc, strip_context_suffixed by (done || by apply dated_no_context).
  rewrite lower_app. change "." with (str1 ".") at 1. change "-" with (str1 "-") at 1.
  rewrite replace_char, string_map_app, (release_suffix_fixed t Ht).
  unfold dashed in *. rewrite <- (replace_char "." "-"). by apply strip_date_dated.
Qed.

(** A Claude id is recognized under every spelling: with padding, in any letter case, with dots
    or dashes in the version, with or without a release date, with or without the long-context
    suffix, its long-context mode, its verification status and its reasoning capabilities are those
    of the plain id. *)
Theorem claude_spellings_agree (v w t l ws1 ws2 : string) :
  plain_id v → plain_id w → dashed v = dashed w →
  release_suffix t → context_suffix l →
  string_forallb ws_ascii ws1 = true → string_forallb ws_ascii ws2 = true →
  let s := ws1 +:+ (v +:+ t +:+ l) +:+ ws2 in
  anthropic_context_mode s = anthropic_context_mode w
  ∧ anthropic_context_mode_is_verified s = anthropic_context_mode_is_verified w
  ∧ anthropic_reasoning_caps s = anthropic_reasoning_caps w.
Proof.
  intros Hv Hw Hvw Ht Hl H1 H2 s.
  assert (normalized_claude_caps_key s = normalized_claude_caps_key w) as Hkey.
  { unfold s. rewrite spelling_key by done.
    pose proof (spelling_key w "" "" "" "" Hw (or_introl eq_refl) (or_introl eq_refl) eq_refl eq_refl) as E.
    rewrite !str_app_nil_r in E. change ("" +:+ w) with w in E. congruence. }
  unfold anthropic_context_mode, anthropic_context_mode_is_verified, anthropic_reasoning_caps.
  by rewrite Hkey.
Qed.

Lemma claude_spellings_agree_witness :
  anthropic_context_mode "  Claude-Opus-4.6-20251001[1m]" = anthropic_context_mode "claude-opus-4-6"
  ∧ anthropic_reasoning_caps "  Claude-Opus-4.6-20251001[1m]" = CAPS_EFFORT_NO_XHIGH.
Proof.
  destruct (claude_spellings_agree "Claude-Opus-4.6" "claude-opus-4-6" "-20251001" "[1m]" "  " "")
    as (H1 & _ & H3); [vm_compute; auto..| | | | |].
  - right. exists "20251001". by vm_compute.
  - by right.
  - done.
  - done.
  - split; [exact H1|]. etransitivity; [exact H3|]. by vm_compute.
Defined.

(** ** Newer generations *)

Lemma version_le_trans a b c : version_le a b = true → version_le b c = true → version_le a c = true.
Proof.
  destruct a as [a1 a2], b as [b1 b2], c as [c1 c2]. unfold version_le; simpl.
  rewrite !orb_true_iff, !andb_true_iff, !N.ltb_lt, !N.eqb_eq, !N.leb_le. lia.
Qed.

(** Within a family the window never shrinks: a later version is given at least the default
    window of an earlier one. *)
Theorem newer_claude_never_shrinks (family : option string) (v w : N * N) :
  version_le v w = true →
  (default_context_window (context_mode_of family v) <= default_context_window (context_mode_of family w))%N.
Proof.
  intros Hvw. unfold context_mode_of.
  assert (∀ k, version_le k v = true → version_le k w = true) as Hk
    by (intros k H; by eapply version_le_trans).
  destruct family as [f|]; repeat case_match; simpl in *; try lia;
    repeat match goal with
    | H : _ && _ = true |- _ => apply andb_true_iff in H as [? H]
    | H : _ && _ = false |- _ => apply andb_false_iff in H as [H|H]
    | H : negb _ = _ |- _ => apply negb_true_iff in H || apply negb_false_iff in H
    end; try congruence;
    match goal with
    | H : version_le ?k v = true, H' : version_le ?k w = false |- _ => specialize (Hk k H); congruence
    end.
Qed.

Lemma newer_claude_never_shrinks_witness :
  (default_context_window (context_mode_of (Some "sonnet") (4, 5))
   <= default_context_window (context_mode_of (Some "sonnet") (4, 7)))%N.
Proof. apply newer_claude_never_shrinks. by vm_compute. Defined.

(** ** The spelling of any model *)

Lemma lookup_ignores_provider m p :
  model_id_for_capability_lookup m p
  = (slash_base (split_long_context (to_ascii_lowercase (trim m))).1,
     (split_long_context (to_ascii_lowercase (trim m))).2).
Proof.
  unfold model_id_for_capability_lookup.
  destruct (split_long_context (to_ascii_lowercase (trim m))) as [base b]; simpl. f_equal.
  destruct (contains_char "/" base) eqn:E; [by rewrite orb_true_r|].
  unfold slash_base. rewrite after_last_lacks by done. by case_match.
Qed.

Lemma never_copilot m : provider_for_model m ≠ Some "copilot".
Proof. unfold provider_for_model, provider_for_model_with_hint. simpl. repeat case_match; congruence. Qed.

(** The context window of a model is that of its trimmed, lower-case id, whichever provider hint
    and catalog there are, though the table that guesses a provider from a bare name is sensitive to
    case. *)
Theorem context_limit_ignores_case (model : string) (hint : option string) (cache : string → option N) :
  context_limit_for_model_with_provider_and_cache model hint cache
  = context_limit_for_model_with_provider_and_cache (to_ascii_lowercase (trim model)) hint cache.
Proof.
  unfold context_limit_for_model_with_provider_and_cache. cbv zeta. rewrite !lookup_ignores_provider.
  rewrite (trim_lower (trim model)), trim_idemp, lower_idemp.
  destruct (provider_key_from_hint hint) as [p|]; [done|].
  rewrite !bool_decide_eq_false_2 by apply never_copilot. done.
Qed.

(** Renaming a tool for the OAuth surface and back gives the tool, unless its own name is one of
    the surface's. *)
Theorem oauth_tool_name_roundtrip (name : string) :
  one_of (snd <$> OAUTH_TOOL_NAMES) name = false →
  anthropic_map_tool_name_from_oauth (anthropic_map_tool_name_for_oauth name) = name.
Proof.
  intros Hn. unfold anthropic_map_tool_name_for_oauth.
  destruct (find _ OAUTH_TOOL_NAMES) as [p|] eqn:E.
  - apply find_Some_elem in E as [Hp <-%String.eqb_eq].
    revert p Hp Hn. assert (∀ p, p ∈ OAUTH_TOOL_NAMES → anthropic_map_tool_name_from_oauth p.2 = p.1) as H;
      [|intros; by apply H].
    intros p Hp. apply (Forall_forall (λ p, anthropic_map_tool_name_from_oauth p.2 = p.1) OAUTH_TOOL_NAMES) in Hp;
      [done|]. repeat constructor.
  - unfold anthropic_map_tool_name_from_oauth. destruct (find (λ p, String.eqb p.2 name) _) as [p|] eqn:E2; [|done].
    apply find_Some_elem in E2 as [Hp <-%String.eqb_eq]. apply one_of_false in Hn. destruct Hn.
    by apply list_elem_of_fmap_2.
Qed.
