(* ===== verification/ProviderRoutes.v ===== *)
(** * Model routes (crates/arterm-provider-core/src/lib.rs and selection.rs)

    A route is a way to reach a model: a provider and an API method.  The wire keeps the method as a
    text; [ModelRouteApiMethod] is its typed view, [RuntimeKey] the runtime it selects, and
    [routed_model_spec] the text that makes the provider runtime switch to it.  Catalogs are merged
    by [dedupe_model_routes]. *)

From S2P Require Export ProviderAuth ProviderModels.
From S2P Require Export ProviderModels.

(** ** Cost estimates; prices are [u64] micro-dollars *)

Inductive RouteBillingKind := Metered | Subscription | IncludedQuota | UnknownBilling.

#[export] Instance RouteBillingKind_eq_dec : EqDecision RouteBillingKind.
Proof. solve_decision. Defined.

Inductive RouteCostSource :=
  | PublicApiPricing | PublicPlanPricing | RuntimePlan | OpenRouterEndpoint | OpenRouterCatalog
  | ModelsDevCatalog | Heuristic.

#[export] Instance RouteCostSource_eq_dec : EqDecision RouteCostSource.
Proof. solve_decision. Defined.

Inductive RouteCostConfidence := Exact | High | Medium | Low | UnknownConfidence.

#[export] Instance RouteCostConfidence_eq_dec : EqDecision RouteCostConfidence.
Proof. solve_decision. Defined.

Record RouteCheapnessEstimate := mk_estimate {
  billing_kind : RouteBillingKind; cost_source : RouteCostSource; confidence : RouteCostConfidence;
  monthly_price_micros : option N; input_price_per_mtok_micros : option N;
  output_price_per_mtok_micros : option N; cache_read_price_per_mtok_micros : option N;
  included_requests_per_month : option N; reference_input_tokens : N; reference_output_tokens : N;
  estimated_reference_cost_micros : option N; note : option string }.

#[export] Instance estimate_eq_dec : EqDecision RouteCheapnessEstimate.
Proof. solve_decision. Defined.

Definition U64_MAX : N := 18446744073709551615.

Definition saturating_mul_u64 (a b : N) : N := N.min (a * b) U64_MAX.

Definition CHEAPNESS_REFERENCE_INPUT_TOKENS : N := 25000.
Definition CHEAPNESS_REFERENCE_OUTPUT_TOKENS : N := 5000.

Definition reference_request_cost_micros (input output : N) : N :=
  saturating_mul_u64 input CHEAPNESS_REFERENCE_INPUT_TOKENS / 1000000
  + saturating_mul_u64 output CHEAPNESS_REFERENCE_OUTPUT_TOKENS / 1000000.

(** [RouteCheapnessEstimate::metered] *)
Definition metered (source : RouteCostSource) (conf : RouteCostConfidence) (input output : N)
    (cache_read : option N) (note : option string) : RouteCheapnessEstimate :=
  mk_estimate Metered source conf None (Some input) (Some output) cache_read None
    CHEAPNESS_REFERENCE_INPUT_TOKENS CHEAPNESS_REFERENCE_OUTPUT_TOKENS
    (Some (reference_request_cost_micros input output)) note.

(** [RouteCheapnessEstimate::subscription] *)
Definition subscription (source : RouteCostSource) (conf : RouteCostConfidence) (monthly : N)
    (included : option N) (note : option string) : RouteCheapnessEstimate :=
  mk_estimate Subscription source conf (Some monthly) None None None included
    CHEAPNESS_REFERENCE_INPUT_TOKENS CHEAPNESS_REFERENCE_OUTPUT_TOKENS
    ((λ count, monthly / N.max count 1)%N <$> included) note.

(** [RouteCheapnessEstimate::included_quota] *)
Definition included_quota (source : RouteCostSource) (conf : RouteCostConfidence) (monthly : N)
    (included estimated : option N) (note : option string) : RouteCheapnessEstimate :=
  mk_estimate IncludedQuota source conf (Some monthly) None None None included
    CHEAPNESS_REFERENCE_INPUT_TOKENS CHEAPNESS_REFERENCE_OUTPUT_TOKENS estimated note.

(** ** API methods and runtime keys *)

Inductive ModelRouteApiMethod :=
  | ArtermSubscription | ClaudeOAuth | AnthropicApiKey | OpenAIOAuth | OpenAIApiKey | OpenRouter
  | OpenAiCompatible (profile_id : option string)
  | Copilot | Cursor | Bedrock | CodeAssistOAuth | AntigravityHttps | RemoteCatalog | Current
  | Other (method : string).

#[export] Instance ModelRouteApiMethod_eq_dec : EqDecision ModelRouteApiMethod.
Proof. solve_decision. Defined.

Definition from_auth_route (r : AuthRoute) : ModelRouteApiMethod :=
  match r with
  | mk_route Anthropic Oauth => ClaudeOAuth
  | mk_route Anthropic ApiKey => AnthropicApiKey
  | mk_route OpenAI Oauth => OpenAIOAuth
  | mk_route OpenAI ApiKey => OpenAIApiKey
  end.

(** [ModelRouteApiMethod::parse] *)
Definition parse_method (value : string) : ModelRouteApiMethod :=
  let trimmed := trim value in
  let lower := to_ascii_lowercase trimmed in
  match parse_route lower with
  | Some route => from_auth_route route
  | None =>
      if String.eqb lower "arterm-subscription" then ArtermSubscription
      else if String.eqb lower "openrouter" then OpenRouter
      else if String.eqb lower "openai-compatible" then OpenAiCompatible None
      else if String.eqb lower "copilot" then Copilot
      else if String.eqb lower "cursor" then Cursor
      else if String.eqb lower "bedrock" then Bedrock
      else if String.eqb lower "code-assist-oauth" then CodeAssistOAuth
      else if String.eqb lower "https" then AntigravityHttps
      else if String.eqb lower "remote-catalog" then RemoteCatalog
      else if String.eqb lower "current" then Current
      else match split_once ":" lower with
           | Some (head, profile_id) =>
               if String.eqb head "openai-compatible"
               then let profile_id := trim profile_id in
                    OpenAiCompatible (if is_empty profile_id then None else Some profile_id)
               else Other trimmed
           | None => Other trimmed
           end
  end.

Definition profile_id (m : ModelRouteApiMethod) : option string :=
  match m with OpenAiCompatible p => p | _ => None end.

Definition is_openai_compatible (m : ModelRouteApiMethod) : bool :=
  match m with OpenAiCompatible _ => true | _ => false end.

Definition is_openrouter (m : ModelRouteApiMethod) : bool :=
  match m with OpenRouter => true | _ => false end.

Definition is_copilot (m : ModelRouteApiMethod) : bool := match m with Copilot => true | _ => false end.
Definition is_cursor (m : ModelRouteApiMethod) : bool := match m with Cursor => true | _ => false end.
Definition is_bedrock (m : ModelRouteApiMethod) : bool := match m with Bedrock => true | _ => false end.

Definition matches_openai_compatible_profile (m : ModelRouteApiMethod) (provider_id : string) : bool :=
  match profile_id m with Some p => eq_ignore_ascii_case p provider_id | None => false end.

Definition is_anthropic_credential_route (m : ModelRouteApiMethod) : bool :=
  match m with ClaudeOAuth | AnthropicApiKey => true | _ => false end.

Definition is_openai_credential_route (m : ModelRouteApiMethod) : bool :=
  match m with OpenAIOAuth | OpenAIApiKey => true | _ => false end.

(** [ModelRouteApiMethod::display_label] *)
Definition display_label (m : ModelRouteApiMethod) : string :=
  match m with
  | ArtermSubscription => "subscription"
  | ClaudeOAuth | OpenAIOAuth | CodeAssistOAuth => "oauth"
  | AnthropicApiKey | OpenAIApiKey | OpenAiCompatible _ => "api key"
  | OpenRouter => "openrouter"
  | Copilot => "copilot"
  | Cursor => "cursor"
  | Bedrock => "bedrock"
  | AntigravityHttps => "https"
  | RemoteCatalog => "remote-catalog"
  | Current => "current"
  | Other method => match split_once ":" method with Some (head, _) => head | None => method end
  end.

Inductive RuntimeKey :=
  | Key_ArtermSubscription | Key_ClaudeOAuth | Key_AnthropicApiKey | Key_OpenAIOAuth
  | Key_OpenAIApiKey | Key_OpenRouter | Key_OpenAiCompatible (profile_id : option string)
  | Key_Copilot | Key_Gemini | Key_Cursor | Key_Bedrock | Key_Antigravity | Key_CodeAssistOAuth
  | Key_RemoteCatalog | Key_Current | Key_Other (value : string).

#[export] Instance RuntimeKey_eq_dec : EqDecision RuntimeKey.
Proof. solve_decision. Defined.

(** [RuntimeKey::from_api_method]; the label is not used. *)
Definition from_api_method (m : ModelRouteApiMethod) : RuntimeKey :=
  match m with
  | ArtermSubscription => Key_ArtermSubscription
  | ClaudeOAuth => Key_ClaudeOAuth
  | AnthropicApiKey => Key_AnthropicApiKey
  | OpenAIOAuth => Key_OpenAIOAuth
  | OpenAIApiKey => Key_OpenAIApiKey
  | OpenRouter => Key_OpenRouter
  | OpenAiCompatible p => Key_OpenAiCompatible p
  | Copilot => Key_Copilot
  | Cursor => Key_Cursor
  | Bedrock => Key_Bedrock
  | CodeAssistOAuth => Key_CodeAssistOAuth
  | AntigravityHttps => Key_Antigravity
  | RemoteCatalog => Key_RemoteCatalog
  | Current => Key_Current
  | Other method => Key_Other method
  end.

(** [RuntimeKey::stable_id] *)
Definition stable_id (k : RuntimeKey) : string :=
  match k with
  | Key_ArtermSubscription => "arterm-subscription"
  | Key_ClaudeOAuth => "claude-oauth"
  | Key_AnthropicApiKey => "anthropic-api-key"
  | Key_OpenAIOAuth => "openai-oauth"
  | Key_OpenAIApiKey => "openai-api-key"
  | Key_OpenRouter => "openrouter"
  | Key_OpenAiCompatible (Some p) => "openai-compatible:" +:+ p
  | Key_OpenAiCompatible None => "openai-compatible"
  | Key_Copilot => "copilot"
  | Key_Gemini => "gemini"
  | Key_Cursor => "cursor"
  | Key_Bedrock => "bedrock"
  | Key_Antigravity => "antigravity"
  | Key_CodeAssistOAuth => "code-assist-oauth"
  | Key_RemoteCatalog => "remote-catalog"
  | Key_Current => "current"
  | Key_Other value => value
  end.

(** ** Routes and selections *)

Record ModelRoute := mk_model_route {
  mr_model : string; mr_provider : string; mr_api_method : string; mr_available : bool;
  mr_detail : string; mr_cheapness : option RouteCheapnessEstimate }.

#[export] Instance ModelRoute_eq_dec : EqDecision ModelRoute.
Proof. solve_decision. Defined.

Definition api_method_kind (r : ModelRoute) : ModelRouteApiMethod := parse_method (mr_api_method r).

(** [ModelRoute::estimated_reference_cost_micros] *)
Definition route_reference_cost (r : ModelRoute) : option N :=
  let?? estimate := mr_cheapness r in estimated_reference_cost_micros estimate.

Record RouteSelection := mk_selection {
  rs_model : string; rs_runtime_key : RuntimeKey; rs_api_method : string; rs_provider_label : string;
  rs_detail : string }.

(** [RouteSelection::from_model_route] *)
Definition from_model_route (r : ModelRoute) : RouteSelection :=
  mk_selection (mr_model r) (from_api_method (api_method_kind r)) (mr_api_method r) (mr_provider r)
    (mr_detail r).

Definition openrouter_catalog_model_id (model : string) : string :=
  let trimmed := trim model in
  match provider_for_model trimmed with
  | Some p => if String.eqb p "claude" then "anthropic/" +:+ trimmed
              else if String.eqb p "openai" then "openai/" +:+ trimmed else trimmed
  | None => trimmed
  end.

(** [RouteSelection::routed_model_spec] *)
Definition routed_model_spec (s : RouteSelection) : string :=
  let model := trim (rs_model s) in
  match rs_runtime_key s with
  | Key_ArtermSubscription => model
  | Key_ClaudeOAuth => "claude-oauth:" +:+ model
  | Key_AnthropicApiKey => "claude-api:" +:+ model
  | Key_OpenAIOAuth => "openai-oauth:" +:+ model
  | Key_OpenAIApiKey => "openai-api:" +:+ model
  | Key_OpenAiCompatible (Some p) => trim p +:+ ":" +:+ model
  | Key_OpenAiCompatible None => model
  | Key_OpenRouter =>
      let provider := trim (rs_provider_label s) in
      let catalog_id := openrouter_catalog_model_id model in
      if is_empty provider || eq_ignore_ascii_case provider "auto" || contains_char "@" model
      then catalog_id else catalog_id +:+ "@" +:+ provider
  | Key_Copilot => "copilot:" +:+ model
  | Key_Cursor => "cursor:" +:+ model
  | Key_Bedrock => "bedrock:" +:+ model
  | Key_Antigravity => "antigravity:" +:+ model
  | Key_Gemini | Key_CodeAssistOAuth | Key_RemoteCatalog | Key_Current | Key_Other _ => model
  end.

(** [model_name_for_provider] *)
Definition model_name_for_provider (p : ActiveProvider) (model : string) : string :=
  match p with
  | AP_Claude => default model (normalize_copilot_model_name model)
  | _ => model
  end.

(** ** Provider labels *)

(** [s.replace([' ', '_', '-'], "")] *)
Fixpoint remove_chars (f : ascii → bool) (s : string) : string :=
  match s with
  | EmptyString => EmptyString
  | String c s' => if f c then remove_chars f s' else String c (remove_chars f s')
  end.

Definition is_label_separator (c : ascii) : bool := Ascii.eqb c " " || Ascii.eqb c "_" || Ascii.eqb c "-".

Definition normalize_model_route_provider_label (value : string) : string :=
  remove_chars is_label_separator (to_ascii_lowercase (trim value)).

(** The [matches!] of [model_route_provider_labels_match]. *)
Definition labels_alias (current route : string) : bool :=
  (one_of ["claude"; "anthropic"] current && one_of ["anthropic"; "claude"] route)
  || (String.eqb current "openai" && String.eqb route "openai")
  || (one_of ["gemini"; "google"] current && one_of ["gemini"; "google"] route)
  || (String.eqb current "antigravity" && String.eqb route "antigravity")
  || (one_of ["copilot"; "copilotcode"; "githubcopilot"] current && one_of ["copilot"; "githubcopilot"] route)
  || (String.eqb current "cursor" && String.eqb route "cursor")
  || (one_of ["bedrock"; "awsbedrock"] current && one_of ["bedrock"; "awsbedrock"] route)
  || (String.eqb current "openrouter" && one_of ["openrouter"; "auto"] route).

Definition model_route_provider_labels_match (route_provider current_provider : string) : bool :=
  let route := normalize_model_route_provider_label route_provider in
  let current := normalize_model_route_provider_label current_provider in
  if is_empty route || is_empty current then false
  else if String.eqb route current then true
  else labels_alias current route.

Definition model_route_provider_labels_related (route_provider login_provider : string) : bool :=
  let route := normalize_model_route_provider_label route_provider in
  let login := normalize_model_route_provider_label login_provider in
  if is_empty route || is_empty login then false
  else if String.eqb route login || contains login route || contains route login then true
  else model_route_provider_labels_match route login.

Definition model_route_provider_matches_key (route_provider_key : option string)
    (route_provider_label desired_provider : string) : bool :=
  let desired_provider := trim desired_provider in
  if is_empty desired_provider then false
  else match parse_explicit_credential_prefix desired_provider with
       | Some desired_route =>
           match route_provider_key with
           | Some key =>
               let route_folded := match parse_route key with
                                   | Some route => session_provider_key route
                                   | None => key
                                   end in
               String.eqb (normalize_model_route_provider_label route_folded)
                 (normalize_model_route_provider_label (session_provider_key desired_route))
           | None => false
           end
       | None =>
           if match route_provider_key with
              | Some key => String.eqb (normalize_model_route_provider_label key)
                              (normalize_model_route_provider_label desired_provider)
              | None => false
              end
           then true
           else model_route_provider_labels_match route_provider_label desired_provider
       end.

Definition model_route_metadata_is_recommended (model provider api_method : string) (available : bool) : bool :=
  if negb available then false
  else
    let method := parse_method api_method in
    if String.eqb model "gpt-5.5" then
      bool_decide (method = OpenAIOAuth) && model_route_provider_labels_match provider "openai"
    else if String.eqb model "claude-opus-4-8" then
      is_anthropic_credential_route method && model_route_provider_labels_match provider "anthropic"
    else false.

(** * The typed views of a route agree with its texts *)

(** ** Trimming stops at a solid character *)

Lemma trim_start_rev_shield x c y :
  solid c = true → ∃ x', trim_start_rev (x +:+ String c y) = x' +:+ String c y.
Proof.
  intros Hc. pose proof (solid_spec c Hc) as (H1 & H2 & H3 & H4 & H5).
  induction x as [x IH] using str_size_ind.
  destruct x as [|a x]; [exists ""; by apply trim_start_rev_solid|].
  change (String a x +:+ String c y) with (String a (x +:+ String c y)). cbn [trim_start_rev].
  destruct (ws_ascii a); [apply IH; simpl; lia|].
  destruct x as [|b x].
  { cbn [String.append]. rewrite H2. exists (str1 a). destruct y as [|d y]; [done|].
    by rewrite solid_middle. }
  change (String b x +:+ String c y) with (String b (x +:+ String c y)).
  cbn iota beta. destruct (ws_two b a); [apply IH; simpl; lia|].
  destruct x as [|d x].
  { cbn [String.append]. rewrite H4. by exists (String a (str1 b)). }
  change (String d x +:+ String c y) with (String d (x +:+ String c y)).
  cbn iota beta. destruct (ws_three d b a); [apply IH; simpl; lia|].
  by exists (String a (String b (String d x))).
Qed.

(** A text that starts and ends a stem with solid characters keeps the stem when it is trimmed. *)
Lemma trim_keeps_stem c stem d b :
  solid c = true → solid d = true →
  ∃ b', trim (String c stem +:+ str1 d +:+ b) = String c stem +:+ str1 d +:+ b'.
Proof.
  intros Hc Hd. unfold trim.
  change (String c stem +:+ str1 d +:+ b) with (String c (stem +:+ str1 d +:+ b)).
  rewrite trim_start_solid by done. change (String c (stem +:+ str1 d +:+ b)) with (String c stem +:+ str1 d +:+ b).
  unfold trim_end. rewrite !rev_app, <- str_app_assoc. change (String.rev (str1 d)) with (str1 d).
  change (str1 d +:+ String.rev (String c stem)) with (String d (String.rev (String c stem))).
  destruct (trim_start_rev_shield (String.rev b) d (String.rev (String c stem)) Hd) as [x Hx].
  rewrite Hx. exists (String.rev x). rewrite rev_app, rev_cons, rev_rev. by rewrite str_app_assoc.
Qed.

(** ** Profiles are no credential route *)

Lemma profile_text_no_token t : route_of_token ("openai-compatible" +:+ t) = None.
Proof. destruct t as [|c t]; by vm_compute. Qed.

Lemma lower_profile_text t :
  to_ascii_lowercase ("openai-compatible" +:+ t) = "openai-compatible" +:+ to_ascii_lowercase t.
Proof. by rewrite lower_app. Qed.

Lemma trim_profile_text t : ∃ v, trim ("openai-compatible" +:+ t) = "openai-compatible" +:+ v.
Proof. exact (trim_keeps_stem "o" "penai-compatibl" "e" t eq_refl eq_refl). Qed.

Lemma str_snoc_inj a b c d : a +:+ str1 c = b +:+ str1 d → a = b ∧ c = d.
Proof.
  intros E%(f_equal String.rev). rewrite !rev_app in E. cbn in E. injection E as -> E.
  apply (f_equal String.rev) in E. by rewrite !rev_rev in E.
Qed.

(** Dropping a trailing colon leaves the stem. *)
Lemma strip_profile_colon u w :
  strip_suffix ":" ("openai-compatible" +:+ u) = Some w → ∃ w', w = "openai-compatible" +:+ w'.
Proof.
  intros E%strip_suffix_Some. destruct (String.rev u) as [|x r] eqn:Hr.
  - exfalso. rewrite <- (rev_rev u), Hr in E. apply (f_equal String.rev) in E.
    rewrite (rev_app w) in E. cbn in E. discriminate E.
  - exists (String.rev r). rewrite <- (rev_rev u), Hr, rev_cons, str_app_assoc in E.
    by apply (str_snoc_inj _ w x ":") in E as [<- _].
Qed.

Lemma parse_route_profile t : parse_route ("openai-compatible" +:+ t) = None.
Proof.
  unfold parse_route, auth_token. cbv zeta. destruct (trim_profile_text t) as [u ->].
  assert (∀ w', route_of_token (to_ascii_lowercase (trim ("openai-compatible" +:+ w'))) = None) as H.
  { intros w'. destruct (trim_profile_text w') as [v ->]. rewrite lower_profile_text.
    apply profile_text_no_token. }
  destruct (strip_suffix ":" ("openai-compatible" +:+ u)) as [w|] eqn:E; [|apply H].
  destruct (strip_profile_colon u w E) as [w' ->]. apply H.
Qed.

(** ** Methods and stable ids *)

Lemma split_once_Some c s a b : split_once c s = Some (a, b) → s = a +:+ String c b.
Proof.
  revert a b. induction s as [|x s IH]; intros a b; cbn [split_once]; [done|].
  destruct (Ascii.eqb_spec c x) as [->|_].
  - by intros [= <- <-].
  - destruct (split_once c s) as [[a' b']|] eqn:E; [|done]. intros [= <- <-]. by rewrite (IH a' b' eq_refl).
Qed.

(** The profile that parsing reads is trimmed, in lower case, and not empty. *)
Lemma parsed_profile v p :
  parse_method v = OpenAiCompatible (Some p) → trimmed p ∧ p ≠ "" ∧ to_ascii_lowercase p = p.
Proof.
  unfold parse_method. cbv zeta. destruct (parse_route _) as [r|]; [by destruct r as [[] []]|].
  repeat (case_match; try done). intros [= <-].
  match goal with H : split_once _ _ = Some (?a, ?b) |- _ => rename H into Hs end.
  match goal with H : is_empty (trim ?x) = false |- _ => rename x into rest; rename H into Hne end.
  split_and!; [apply trim_trimmed|by apply is_empty_false|].
  rewrite <- trim_lower. f_equal. apply split_once_Some in Hs.
  apply (f_equal to_ascii_lowercase) in Hs as Hl. rewrite lower_idemp, Hs, lower_app, lower_cons in Hl.
  revert Hl. generalize s as a. clear. intros a. induction a as [|c a IH]; [intros [= H]; by symmetry|].
  change (String c a +:+ ?x) with (String c (a +:+ x)). rewrite lower_cons.
  change (String ?c' ?a' +:+ ?x) with (String c' (a' +:+ x)). intros [= _ H]. by apply IH.
Qed.

Lemma parse_method_other v m : parse_method v = Other m → m = trim v.
Proof.
  unfold parse_method. cbv zeta. destruct (parse_route _) as [r|]; [by destruct r as [[] []]|].
  repeat (case_match; try done); by intros [= <-].
Qed.

(** The stable id of a route's runtime reads back as the route's API method, for every method a text
    can name except Antigravity's (its id is the provider's name, its method the transport's). *)
Theorem stable_id_reads_back (v : string) :
  parse_method v ≠ AntigravityHttps →
  parse_method (stable_id (from_api_method (parse_method v))) = parse_method v.
Proof.
  intros Hne. destruct (parse_method v) as [| | | | | |[p|]| | | | | | | |m] eqn:Hv;
    [by vm_compute..| |by vm_compute|by vm_compute|by vm_compute|by vm_compute|by vm_compute
    |by destruct Hne|by vm_compute|by vm_compute|].
  - destruct (parsed_profile v p Hv) as (Htr & Hp & Hlow). cbn [from_api_method stable_id].
    unfold parse_method. cbv zeta.
    assert (trimmed ("openai-compatible:" +:+ p)) as Ht.
    { change ("openai-compatible:" +:+ p) with ("openai-compatible" +:+ str1 ":" +:+ p).
      apply trimmed_prefixed; [done|done|by intros _|]. right. by exists "o"%char, "penai-compatible". }
    rewrite (trim_id _ Ht), lower_app, Hlow.
    change (to_ascii_lowercase "openai-compatible:" +:+ p) with ("openai-compatible" +:+ String ":" p).
    rewrite parse_route_profile, (split_once_app ":" "openai-compatible" p) by done.
    cbn [String.eqb]. rewrite (trim_id p Htr).
    apply is_empty_false in Hp. by rewrite Hp.
  - apply parse_method_other in Hv as Hm. cbn [from_api_method stable_id]. rewrite <- Hv, Hm.
    unfold parse_method. by rewrite trim_idemp.
Qed.

Lemma stable_id_reads_back_witness :
  parse_method (stable_id (from_api_method (parse_method " OpenAI-Compatible: Groq "))) = OpenAiCompatible (Some "groq").
Proof.
  etransitivity; [apply (stable_id_reads_back " OpenAI-Compatible: Groq "); by vm_compute|by vm_compute].
Defined.
