(* ===== verification/ProviderDedupe.v ===== *)
(** * Merging catalogs (crates/arterm-provider-core/src/selection.rs)

    [dedupe_model_routes] keeps one route per provider, model and API method; of an OpenAI-compatible
    provider's generic and profile transports it keeps the profile.  The program scans a bucket of
    indices per provider and model; [dedupe_model_routes_reference] scans everything kept so far. *)

From S2P Require Export ProviderRoutes.

(** ** The code *)

Definition is_generic_openai_compatible_route (api_method : string) : bool :=
  String.eqb api_method "openai-compatible".

Definition is_profile_openai_compatible_route (api_method : string) : bool :=
  starts_with "openai-compatible:" api_method.

Definition duplicate_route_api_method (existing candidate : string) : bool :=
  String.eqb existing candidate
  || (is_generic_openai_compatible_route existing && is_profile_openai_compatible_route candidate)
  || (is_profile_openai_compatible_route existing && is_generic_openai_compatible_route candidate).

Definition should_replace_duplicate_route (existing candidate : ModelRoute) : bool :=
  negb (is_profile_openai_compatible_route (mr_api_method existing))
  && is_profile_openai_compatible_route (mr_api_method candidate).

(** The key of a bucket. *)
Definition bucket_key (r : ModelRoute) : string * string := (mr_provider r, mr_model r).

(** [deduped[idx]] holds a duplicate of the route.  Indexing out of range would panic; the indices
    of a bucket are always in range ([buckets_indexed]). *)
Definition duplicate_at (deduped : list ModelRoute) (route : ModelRoute) (idx : nat) : bool :=
  match deduped !! idx with
  | Some existing => duplicate_route_api_method (mr_api_method existing) (mr_api_method route)
  | None => false
  end.

Definition replace_at (deduped : list ModelRoute) (idx : nat) (route : ModelRoute) : list ModelRoute :=
  match deduped !! idx with
  | Some existing => if should_replace_duplicate_route existing route then <[idx := route]> deduped else deduped
  | None => deduped
  end.

Definition DedupeState : Type := list ModelRoute * gmap (string * string) (list nat).

(** The loop body of [dedupe_model_routes]. *)
Definition dedupe_step (state : DedupeState) (route : ModelRoute) : DedupeState :=
  let '(deduped, buckets) := state in
  let bucket := default [] (buckets !! bucket_key route) in
  match find (duplicate_at deduped route) bucket with
  | Some idx => (replace_at deduped idx route, <[bucket_key route := bucket]> buckets)
  | None => (deduped ++ [route], <[bucket_key route := bucket ++ [length deduped]]> buckets)
  end.

Definition dedupe_model_routes (routes : list ModelRoute) : list ModelRoute :=
  (foldl dedupe_step ([], ∅) routes).1.

Definition duplicate_model_route (existing candidate : ModelRoute) : bool :=
  String.eqb (mr_provider existing) (mr_provider candidate)
  && String.eqb (mr_model existing) (mr_model candidate)
  && duplicate_route_api_method (mr_api_method existing) (mr_api_method candidate).

Definition reference_step (deduped : list ModelRoute) (route : ModelRoute) : list ModelRoute :=
  match position (λ existing, duplicate_model_route existing route) deduped with
  | Some idx => replace_at deduped idx route
  | None => deduped ++ [route]
  end.

Definition dedupe_model_routes_reference (routes : list ModelRoute) : list ModelRoute :=
  foldl reference_step [] routes.

(** ** The buckets index what is kept *)

(** The indices, from [n], of the elements with a key. *)
Fixpoint positions_from {K} `{EqDecision K} (n : nat) (key : K) (keys : list K) : list nat :=
  match keys with
  | [] => []
  | k :: keys =>
      if decide (k = key) then n :: positions_from (S n) key keys else positions_from (S n) key keys
  end.

Definition buckets_indexed (state : DedupeState) : Prop :=
  ∀ key, default [] (state.2 !! key) = positions_from 0 key (bucket_key <$> state.1).

Lemma positions_from_app {K} `{EqDecision K} n (key : K) (a b : list K) :
  positions_from n key (a ++ b) = positions_from n key a ++ positions_from (n + length a) key b.
Proof.
  revert n. induction a as [|k a IH]; intros n; simpl; [by rewrite Nat.add_0_r|].
  rewrite IH, <- Nat.add_succ_comm. by case_decide.
Qed.

Lemma find_positions {A K} `{EqDecision K} (key_of : A → K) (f : A → bool) key (pre suf : list A) :
  find (λ i, match (pre ++ suf) !! i with Some x => f x | None => false end)
    (positions_from (length pre) key (key_of <$> suf))
  = (λ i, length pre + i) <$> position (λ x, bool_decide (key_of x = key) && f x) suf.
Proof.
  revert pre. induction suf as [|x suf IH]; intros pre; [done|].
  specialize (IH (pre ++ [x])). rewrite length_app in IH. simpl in IH.
  rewrite Nat.add_1_r, <- app_assoc in IH. simpl in IH. cbn [fmap list_fmap positions_from position].
  assert ((pre ++ x :: suf) !! length pre = Some x) as Hx
    by by rewrite lookup_app_r, Nat.sub_diag by lia.
  assert ((λ i, length pre + i) <$> (S <$> position (λ y, bool_decide (key_of y = key) && f y) suf)
          = (λ i, S (length pre + i)) <$> position (λ y, bool_decide (key_of y = key) && f y) suf) as Hshift.
  { destruct (position _ suf); simpl; [|done]. f_equal. lia. }
  destruct (decide (key_of x = key)) as [Hk|Hk].
  - rewrite bool_decide_true by done. cbn [find andb]. rewrite Hx.
    destruct (f x); [by rewrite <- (Nat.add_0_r (length pre)) at 1|].
    rewrite Hshift. exact IH.
  - rewrite bool_decide_false by done. cbn [andb]. rewrite Hshift. exact IH.
Qed.

(** The bucket scan finds what the full scan finds. *)
Lemma bucket_scan deduped buckets route :
  buckets_indexed (deduped, buckets) →
  find (duplicate_at deduped route) (default [] (buckets !! bucket_key route))
  = position (λ existing, duplicate_model_route existing route) deduped.
Proof.
  intros HB. specialize (HB (bucket_key route)). cbn [fst snd] in HB. rewrite HB.
  pose proof (find_positions bucket_key
    (λ e, duplicate_route_api_method (mr_api_method e) (mr_api_method route)) (bucket_key route) [] deduped) as H.
  simpl in H. etransitivity; [exact H|].
  rewrite (position_ext _ (λ existing, duplicate_model_route existing route)).
  - by destruct (position (λ existing, duplicate_model_route existing route) deduped).
  - intros e. unfold duplicate_model_route, bucket_key. f_equal. apply bool_eq_iff.
    rewrite bool_decide_eq_true, andb_true_iff, !String.eqb_eq. split; [by intros [= -> ->]|by intros [-> ->]].
Qed.

Lemma replace_at_keys deduped idx route existing :
  deduped !! idx = Some existing → bucket_key existing = bucket_key route →
  bucket_key <$> replace_at deduped idx route = bucket_key <$> deduped.
Proof.
  intros He Hk. unfold replace_at. rewrite He. case_match; [|done].
  rewrite list_fmap_insert. apply list_insert_id. by rewrite list_lookup_fmap, He, <- Hk.
Qed.

Lemma duplicate_same_bucket e r : duplicate_model_route e r = true → bucket_key e = bucket_key r.
Proof.
  unfold duplicate_model_route, bucket_key. rewrite !andb_true_iff, !String.eqb_eq. by intros [[-> ->] _].
Qed.

Lemma dedupe_step_refines state route :
  buckets_indexed state →
  (dedupe_step state route).1 = reference_step state.1 route ∧ buckets_indexed (dedupe_step state route).
Proof.
  destruct state as [deduped buckets]. intros HB. unfold dedupe_step, reference_step.
  rewrite (bucket_scan deduped buckets route HB). cbn [fst].
  destruct (position (λ existing, duplicate_model_route existing route) deduped) as [idx|] eqn:Hp; (split; [done|]); intros key; cbn [fst snd].
  - apply position_Some in Hp as (e & He & Hdup%duplicate_same_bucket).
    rewrite (replace_at_keys deduped idx route e) by done.
    destruct (decide (key = bucket_key route)) as [->|Hne].
    + rewrite lookup_insert_eq. exact (HB (bucket_key route)).
    + rewrite lookup_insert_ne by done. apply HB.
  - rewrite fmap_app, positions_from_app, length_fmap. simpl.
    destruct (decide (key = bucket_key route)) as [->|Hne].
    + rewrite lookup_insert_eq. specialize (HB (bucket_key route)). cbn [fst snd] in HB.
      simpl. by rewrite HB, decide_True.
    + rewrite lookup_insert_ne by done. rewrite decide_False by done. rewrite app_nil_r. apply HB.
Qed.

(** The loops agree from every state whose buckets index what is kept. *)
Lemma dedupe_loops_agree routes state :
  buckets_indexed state → (foldl dedupe_step state routes).1 = foldl reference_step state.1 routes.
Proof.
  revert state. induction routes as [|r routes IH]; intros state HB; [done|]. simpl.
  destruct (dedupe_step_refines state r HB) as [<- HB']. by apply IH.
Qed.

(** The bucketed merge is the quadratic one: on every list of routes, in every order, it keeps the
    same routes in the same places. *)
Theorem bucketed_dedupe_matches_reference (routes : list ModelRoute) :
  dedupe_model_routes routes = dedupe_model_routes_reference routes.
Proof. by apply (dedupe_loops_agree routes ([], ∅)). Qed.

(** ** What is kept *)

(** Provider, model and API method: two routes of one slot are the same route. *)
Definition slot (r : ModelRoute) : string * string * string := (mr_provider r, mr_model r, mr_api_method r).

(** The first route of a list with the slot of [r]. *)
Definition first_of_slot (r : ModelRoute) (routes : list ModelRoute) : option ModelRoute :=
  find (λ y, bool_decide (slot y = slot r)) routes.

(** A generic transport of a model that also has a profile transport of the same provider. *)
Definition shadowed (routes : list ModelRoute) (r : ModelRoute) : Prop :=
  is_generic_openai_compatible_route (mr_api_method r) = true
  ∧ ∃ p, p ∈ routes ∧ bucket_key p = bucket_key r
         ∧ is_profile_openai_compatible_route (mr_api_method p) = true.

Lemma generic_not_profile m :
  is_generic_openai_compatible_route m = true → is_profile_openai_compatible_route m = false.
Proof. unfold is_generic_openai_compatible_route. by intros ->%String.eqb_eq. Qed.

Lemma slot_split a b : slot a = slot b ↔ bucket_key a = bucket_key b ∧ mr_api_method a = mr_api_method b.
Proof. unfold slot, bucket_key. split; [by intros [= -> -> ->]|by intros [[= -> ->] ->]]. Qed.

Lemma slot_generic a b :
  bucket_key a = bucket_key b → is_generic_openai_compatible_route (mr_api_method a) = true →
  is_generic_openai_compatible_route (mr_api_method b) = true → slot a = slot b.
Proof.
  intros Hk. unfold is_generic_openai_compatible_route. rewrite !String.eqb_eq. intros Ha Hb.
  apply slot_split. split; [done|congruence].
Qed.

(** The three ways to be a duplicate. *)
Lemma duplicate_cases e r :
  duplicate_model_route e r = true ↔
  bucket_key e = bucket_key r ∧
  (mr_api_method e = mr_api_method r
   ∨ (is_generic_openai_compatible_route (mr_api_method e) = true
      ∧ is_profile_openai_compatible_route (mr_api_method r) = true)
   ∨ (is_profile_openai_compatible_route (mr_api_method e) = true
      ∧ is_generic_openai_compatible_route (mr_api_method r) = true)).
Proof.
  unfold duplicate_model_route, duplicate_route_api_method, bucket_key.
  rewrite !andb_true_iff, !orb_true_iff, !andb_true_iff, !String.eqb_eq. split.
  - intros [[-> ->] H]. split; [done|]. tauto.
  - intros [[= -> ->] H]. split; [done|]. tauto.
Qed.

Lemma first_of_slot_app r l x :
  first_of_slot r (l ++ [x])
  = match first_of_slot r l with
    | Some y => Some y
    | None => if bool_decide (slot x = slot r) then Some x else None
    end.
Proof.
  unfold first_of_slot. induction l as [|y l IH]; simpl; [by case_bool_decide|].
  destruct (bool_decide (slot y = slot r)); [done|exact IH].
Qed.

Lemma first_of_slot_Some r l y : first_of_slot r l = Some y → y ∈ l ∧ slot y = slot r.
Proof. intros [H1 H2]%find_Some_elem. split; [done|]. by apply bool_decide_eq_true in H2. Qed.

Lemma first_of_slot_elem r l d : d ∈ l → slot d = slot r → ∃ y, first_of_slot r l = Some y.
Proof.
  intros Hd Hs. destruct (first_of_slot r l) as [y|] eqn:E; [by exists y|].
  apply (find_None_elem _ l) with (x := d) in E; [|done]. by rewrite bool_decide_true in E.
Qed.

Lemma first_of_slot_same a b l : slot a = slot b → first_of_slot a l = first_of_slot b l.
Proof. intros H. unfold first_of_slot. by rewrite H. Qed.

Lemma first_of_first r l y : first_of_slot r l = Some y → first_of_slot y l = Some y.
Proof. intros H. rewrite <- H. apply first_of_slot_same. by apply first_of_slot_Some in H as [_ ?]. Qed.

(** What [routes] keep: the first route of each slot that nothing shadows, each slot once. *)
Definition keeps (routes out : list ModelRoute) : Prop :=
  NoDup (slot <$> out) ∧
  ∀ r, r ∈ out ↔ first_of_slot r routes = Some r ∧ ¬ shadowed routes r.

Lemma keeps_slot_inj routes out a b : keeps routes out → a ∈ out → b ∈ out → slot a = slot b → a = b.
Proof.
  intros [_ H] [Ha _]%H [Hb _]%H Hs. rewrite (first_of_slot_same a b) in Ha by done. congruence.
Qed.

(** A profile transport that was seen is still represented. *)
Lemma keeps_profile routes out p :
  keeps routes out → p ∈ routes → is_profile_openai_compatible_route (mr_api_method p) = true →
  ∃ p', p' ∈ out ∧ slot p' = slot p.
Proof.
  intros [_ H] Hp Hprof. destruct (first_of_slot_elem p routes p) as [y Hy]; [done..|].
  pose proof (first_of_slot_Some _ _ _ Hy) as [_ Hs]. exists y. split; [|done].
  apply H. split; [by eapply first_of_first|]. intros [Hgen _].
  apply slot_split in Hs as [_ Hm]. rewrite Hm in Hgen. apply generic_not_profile in Hgen. congruence.
Qed.

(** Whatever was seen in the bucket of a route has a duplicate among what is kept. *)
Lemma keeps_represents routes out d :
  keeps routes out → d ∈ routes → ∃ e, e ∈ out ∧ duplicate_model_route e d = true.
Proof.
  intros HK Hd. destruct (first_of_slot_elem d routes d) as [y Hy]; [done..|].
  pose proof (first_of_slot_Some _ _ _ Hy) as [Hyin [Hk Hm]%slot_split].
  destruct (is_generic_openai_compatible_route (mr_api_method y)) eqn:Hgen.
  2: { exists y. split; [|apply duplicate_cases; auto].
       apply HK. split; [by eapply first_of_first|]. intros [? _]. congruence. }
  destruct (find (λ p, bool_decide (bucket_key p = bucket_key y)
                       && is_profile_openai_compatible_route (mr_api_method p)) routes) as [p|] eqn:Hp.
  - apply find_Some_elem in Hp as [Hpin [Hpk%bool_decide_eq_true Hprof]%andb_true_iff].
    destruct (keeps_profile routes out p HK Hpin Hprof) as (p' & Hp' & [Hk' Hm']%slot_split).
    exists p'. split; [done|]. apply duplicate_cases. split; [congruence|].
    right. right. by rewrite Hm', <- Hm.
  - exists y. split; [|apply duplicate_cases; auto].
    apply HK. split; [by eapply first_of_first|]. intros (_ & p & Hpin & Hpk & Hprof).
    apply (find_None_elem _ routes) with (x := p) in Hp; [|done].
    by rewrite bool_decide_true, Hprof in Hp.
Qed.

Lemma shadowed_app l x r :
  shadowed (l ++ [x]) r ↔
  shadowed l r ∨ (is_generic_openai_compatible_route (mr_api_method r) = true
                  ∧ bucket_key x = bucket_key r
                  ∧ is_profile_openai_compatible_route (mr_api_method x) = true).
Proof.
  unfold shadowed. split.
  - intros (Hg & p & [Hp| ->%list_elem_of_singleton]%elem_of_app & Hk & Hprof); [left|right]; eauto 6.
  - intros [(Hg & p & Hp & H)|(Hg & H)]; (split; [done|]).
    + exists p. by rewrite elem_of_app; auto.
    + exists x. rewrite elem_of_app, list_elem_of_singleton. auto.
Qed.

(** A route with no duplicate among what is kept is appended. *)
Lemma keeps_append done out x :
  keeps done out → (∀ e, e ∈ out → duplicate_model_route e x = false) → keeps (done ++ [x]) (out ++ [x]).
Proof.
  intros HK Hno.
  assert (first_of_slot x done = None) as Hnew.
  { destruct (first_of_slot x done) as [y|] eqn:E; [|reflexivity]. exfalso.
    apply first_of_slot_Some in E as [Hy [Hk Hm]%slot_split].
    destruct (keeps_represents done out y HK Hy) as (e & He & Hdup).
    specialize (Hno e He). apply not_true_iff_false in Hno. apply Hno, duplicate_cases.
    apply duplicate_cases in Hdup. by rewrite <- Hk, <- Hm. }
  assert (∀ r, r ∈ out → slot x ≠ slot r) as Hslots.
  { intros r Hr [Hk Hm]%slot_split. specialize (Hno r Hr). apply not_true_iff_false in Hno.
    apply Hno, duplicate_cases. auto. }
  assert (∀ r, r ∈ out → ¬ shadowed (done ++ [x]) r) as Hlive.
  { intros r Hr [Hsh|(Hg & Hk & Hp)]%shadowed_app.
    - by apply HK in Hr as [_ []].
    - specialize (Hno r Hr). apply not_true_iff_false in Hno. apply Hno, duplicate_cases. auto. }
  assert (¬ shadowed (done ++ [x]) x) as Hlivex.
  { intros [(Hg & p & Hp & Hk & Hprof)|(Hg & _ & Hprof)]%shadowed_app.
    - destruct (keeps_profile done out p HK Hp Hprof) as (p' & Hp' & [Hk' Hm']%slot_split).
      specialize (Hno p' Hp'). apply not_true_iff_false in Hno. apply Hno, duplicate_cases.
      split; [congruence|]. right. right. by rewrite Hm'.
    - apply generic_not_profile in Hg. congruence. }
  split.
  - rewrite fmap_app. apply NoDup_app. split_and!; [apply HK| |apply NoDup_singleton].
    intros s (r & -> & Hr)%list_elem_of_fmap. cbn. rewrite list_elem_of_singleton.
    intros Hs. by apply (Hslots r Hr).
  - intros r. rewrite elem_of_app, list_elem_of_singleton, first_of_slot_app. split.
    + intros [Hr| ->].
      * split; [|by apply Hlive]. apply HK in Hr as [-> _]. reflexivity.
      * split; [|done]. by rewrite Hnew, bool_decide_true.
    + intros [Hfirst Hsh]. destruct (first_of_slot r done) as [y|] eqn:E.
      * left. apply HK. split; [congruence|]. intros H. apply Hsh, shadowed_app. by left.
      * case_bool_decide; [|done]. right. congruence.
Qed.

(** A profile transport takes the place of the generic one. *)
Lemma keeps_replace done pre e suf x :
  keeps done (pre ++ e :: suf) → duplicate_model_route e x = true →
  should_replace_duplicate_route e x = true → keeps (done ++ [x]) (pre ++ x :: suf).
Proof.
  intros HK Hdup [He%negb_true_iff Hx]%andb_true_iff.
  apply duplicate_cases in Hdup as (Hk & [Hm|[[Hge _]|[Hpe _]]]); [congruence| |congruence].
  assert (e ∈ pre ++ e :: suf) as Hein by set_solver.
  assert (∀ p, p ∈ done → bucket_key p = bucket_key x →
               is_profile_openai_compatible_route (mr_api_method p) = true → False) as Hnoprof.
  { intros p Hp Hpk Hprof. apply HK in Hein as [_ []]. split; [done|]. exists p. by rewrite Hk. }
  assert (first_of_slot x done = None) as Hnew.
  { destruct (first_of_slot x done) as [y|] eqn:E; [|reflexivity]. exfalso.
    apply first_of_slot_Some in E as [Hy [Hyk Hm]%slot_split].
    apply (Hnoprof y); [done..|]. by rewrite Hm. }
  assert (NoDup (slot <$> pre ++ e :: suf)) as Hnd by apply HK.
  assert (∀ r, r ∈ pre ++ suf → slot r ≠ slot e) as Hrest.
  { intros r Hr Hs. rewrite fmap_app, fmap_cons, NoDup_app in Hnd. destruct Hnd as (_ & Hd & Hnd).
    apply NoDup_cons in Hnd as [Hns _]. apply elem_of_app in Hr as [Hr|Hr].
    - apply (Hd (slot r)); [by apply list_elem_of_fmap_2|]. rewrite Hs. by left.
    - apply Hns. rewrite <- Hs. by apply list_elem_of_fmap_2. }
  assert (∀ r, r ∈ pre ++ suf → slot x ≠ slot r) as Hslots.
  { intros r Hr Hs. assert (r ∈ pre ++ e :: suf) as Hin by set_solver.
    apply HK in Hin as [Hf _]. rewrite <- (first_of_slot_same x r done Hs), Hnew in Hf. discriminate. }
  split.
  - rewrite fmap_app, fmap_cons. rewrite fmap_app, fmap_cons in Hnd. revert Hnd.
    rewrite <- !Permutation_middle, !NoDup_cons, <- fmap_app. intros [_ Hnd]. split; [|done].
    intros (r & Hs & Hr)%list_elem_of_fmap. by apply (Hslots r Hr).
  - intros r. assert (r ∈ pre ++ x :: suf ↔ r = x ∨ r ∈ pre ++ suf) as -> by set_solver.
    rewrite first_of_slot_app. split.
    + intros [->|Hr].
      * rewrite Hnew, bool_decide_true by done. split; [done|].
        intros [(Hg & _)|(Hg & _)]%shadowed_app; apply generic_not_profile in Hg; congruence.
      * assert (r ∈ pre ++ e :: suf) as Hin by set_solver. pose proof Hin as Hin'.
        apply HK in Hin as [-> Hsh]. split; [done|].
        intros [Hsh'|(Hg & Hxk & _)]%shadowed_app; [done|].
        apply (Hrest r Hr), slot_generic; [congruence|done..].
    + intros [Hfirst Hsh]. destruct (first_of_slot r done) as [y|] eqn:E.
      * right. assert (r ∈ pre ++ e :: suf) as Hin.
        { apply HK. split; [congruence|]. intros H. apply Hsh, shadowed_app. by left. }
        assert (r ≠ e) as Hne.
        { intros ->. apply Hsh, shadowed_app. right. split_and!; [done|congruence|done]. }
        set_solver.
      * case_bool_decide; [|done]. left. congruence.
Qed.

(** A duplicate that replaces nothing changes nothing. *)
Lemma keeps_drop done out e x :
  keeps done out → e ∈ out → duplicate_model_route e x = true →
  should_replace_duplicate_route e x = false → keeps (done ++ [x]) out.
Proof.
  intros HK He [Hk Hcases]%duplicate_cases Hrep. split; [apply HK|].
  assert (∀ r, shadowed (done ++ [x]) r → r ∈ out → shadowed done r) as Hsame.
  { intros r [Hsh|(Hg & Hxk & Hx)]%shadowed_app _; [done|].
    split; [done|]. exists e. pose proof He as [Hf _]%HK. apply first_of_slot_Some in Hf as [Hin _].
    split_and!; [done|congruence|]. unfold should_replace_duplicate_route in Hrep.
    rewrite Hx, andb_true_r in Hrep. by apply negb_false_iff in Hrep. }
  assert (e ∈ done) as Hedone by (apply HK in He as [Hf _]; by apply first_of_slot_Some in Hf as [? _]).
  assert (first_of_slot x done = None → shadowed (done ++ [x]) x) as Hx.
  { intros Hnew. destruct Hcases as [Hm|[[Hge Hp]|[Hp Hg]]].
    - destruct (first_of_slot_elem x done e) as [y Hy]; [done|by apply slot_split|congruence].
    - unfold should_replace_duplicate_route in Hrep. rewrite Hp, andb_true_r in Hrep.
      apply negb_false_iff in Hrep. apply generic_not_profile in Hge. congruence.
    - apply shadowed_app. left. split; [done|]. by exists e. }
  intros r. rewrite first_of_slot_app. split.
  - intros Hr. pose proof Hr as [-> Hsh]%HK. split; [done|]. intros H. by apply Hsh, Hsame.
  - intros [Hfirst Hsh]. apply HK. split.
    + destruct (first_of_slot r done) as [y|] eqn:E; [congruence|]. case_bool_decide as Hs; [|done].
      injection Hfirst as ->. exfalso. by apply Hsh, Hx.
    + intros H. apply Hsh, shadowed_app. by left.
Qed.

Lemma reference_keeps routes : keeps routes (dedupe_model_routes_reference routes).
Proof.
  unfold dedupe_model_routes_reference. induction routes as [|x routes IH] using rev_ind.
  - split; [constructor|]. intros r. split; [by intros ?%elem_of_nil|by intros [? _]].
  - rewrite foldl_app. simpl. revert IH. generalize (foldl reference_step [] routes) as out.
    intros out HK. unfold reference_step.
    destruct (position (λ existing, duplicate_model_route existing x) out) as [idx|] eqn:Hp.
    + apply position_Some in Hp as (e & He & Hdup). unfold replace_at. rewrite He.
      destruct (should_replace_duplicate_route e x) eqn:Hrep.
      * rewrite insert_take_drop by by eapply lookup_lt_Some.
        eapply keeps_replace; [|exact Hdup|done]. by rewrite take_drop_middle.
      * eapply keeps_drop; [done| |done..]. by eapply list_elem_of_lookup_2.
    + apply keeps_append; [done|]. by apply position_None.
Qed.

(** What a merged catalog holds, exactly: for each provider, model and API method that some source
    lists, the first route listed for it, once, except the generic OpenAI-compatible transport of a
    model for which the same provider also lists a profile transport. *)
Theorem dedupe_keeps_exactly (routes : list ModelRoute) :
  NoDup (slot <$> dedupe_model_routes routes)
  ∧ ∀ r, r ∈ dedupe_model_routes routes ↔ first_of_slot r routes = Some r ∧ ¬ shadowed routes r.
Proof.
  unfold dedupe_model_routes. rewrite (dedupe_loops_agree routes ([], ∅)) by done. apply reference_keeps.
Qed.
