(* ===== verification/ProviderFallback.v ===== *)
(** * The next route to try (crates/arterm-provider-core/src/fallback_pick.rs)

    After a provider error the interface offers one other route.  Candidates are ranked by tier,
    then subscription logins first, then catalog order. *)

From S2P Require Export ProviderRoutes.

Definition api_method_is_oauth (m : ModelRouteApiMethod) : bool :=
  match m with ClaudeOAuth | OpenAIOAuth | CodeAssistOAuth => true | _ => false end.

Definition models_match (a b : string) : bool := eq_ignore_ascii_case (trim a) (trim b).

Definition api_methods_match (a b : string) : bool := bool_decide (parse_method a = parse_method b).

(** [FallbackPickOptions] *)
Record FallbackPickOptions := mk_options { credential_failure : bool }.

Definition CREDENTIAL_MARKERS : list string :=
  ["token refresh failed"; "refresh_token_invalidated"; "re-authenticate"; "session has ended";
   "authentication_error"; "invalid_grant"; "invalid x-api-key"; "invalid api key"; "incorrect api key";
   "api key not valid"; "token expired"; "unauthorized"; "oauth token expired"; "no refresh token";
   "credentials have been revoked"; "please log in again"; "run /login"].

Definition error_looks_like_credential_failure (error : string) : bool :=
  let lower := to_ascii_lowercase error in existsb (λ marker, contains marker lower) CREDENTIAL_MARKERS.

Section pick.
Context (current_model current_provider current_api_method : string) (options : FallbackPickOptions).

Definition unknown_method : bool := is_empty (trim current_api_method).

Definition same_model (r : ModelRoute) : bool := models_match (mr_model r) current_model.
Definition same_method (r : ModelRoute) : bool := api_methods_match (mr_api_method r) current_api_method.
Definition same_provider (r : ModelRoute) : bool :=
  model_route_provider_labels_match (mr_provider r) current_provider
  || models_match (mr_provider r) current_provider.

(** The closure of [filter_map], without the index: tier and login preference. *)
Definition fallback_rank (r : ModelRoute) : option (nat * nat) :=
  if same_model r && same_provider r && (same_method r || unknown_method) then None
  else if credential_failure options && same_provider r && (same_method r || unknown_method) then None
  else
    let tier := if same_model r && negb (same_method r) then 0 else if same_provider r then 1 else 2 in
    let prefers_oauth := if api_method_is_oauth (parse_method (mr_api_method r)) then 0 else 1 in
    Some (tier, prefers_oauth).

(** The candidates with their ranks; [index] is the index of the first route of the list. *)
Fixpoint candidates_from (index : nat) (routes : list ModelRoute) : list (nat * nat * nat) :=
  match routes with
  | [] => []
  | r :: routes =>
      match (if mr_available r then fallback_rank r else None) with
      | Some (tier, oauth) => (tier, oauth, index) :: candidates_from (S index) routes
      | None => candidates_from (S index) routes
      end
  end.
End pick.

(** The derived order of triples. *)
Definition rank_le (a b : nat * nat * nat) : bool :=
  let '(a1, a2, a3) := a in
  let '(b1, b2, b3) := b in
  (a1 <? b1) || ((a1 =? b1) && ((a2 <? b2) || ((a2 =? b2) && (a3 <=? b3)))).

(** [Iterator::min], which keeps the first of equal elements. *)
Definition min_by {A} (leb : A → A → bool) (l : list A) : option A :=
  match l with
  | [] => None
  | x :: l => Some (foldl (λ best y, if leb best y then best else y) x l)
  end.

Definition pick_next_fallback_route_with_options (routes : list ModelRoute)
    (current_model current_provider current_api_method : string) (options : FallbackPickOptions) : option nat :=
  snd <$> min_by rank_le
            (candidates_from current_model current_provider current_api_method options 0 routes).

Definition pick_next_fallback_route (routes : list ModelRoute)
    (current_model current_provider current_api_method : string) : option nat :=
  pick_next_fallback_route_with_options routes current_model current_provider current_api_method
    (mk_options false).

(** ** The least candidate *)

Lemma rank_le_iff a b :
  rank_le a b = true ↔
  let '(a1, a2, a3) := a in let '(b1, b2, b3) := b in
  a1 < b1 ∨ (a1 = b1 ∧ (a2 < b2 ∨ (a2 = b2 ∧ a3 ≤ b3))).
Proof.
  destruct a as [[a1 a2] a3], b as [[b1 b2] b3]. unfold rank_le.
  rewrite !orb_true_iff, !andb_true_iff, !orb_true_iff, !andb_true_iff, !Nat.ltb_lt, !Nat.eqb_eq, Nat.leb_le.
  tauto.
Qed.

Lemma rank_le_total a b : rank_le a b = true ∨ rank_le b a = true.
Proof. rewrite !rank_le_iff. destruct a as [[a1 a2] a3], b as [[b1 b2] b3]. lia. Qed.

Lemma rank_le_trans a b c : rank_le a b = true → rank_le b c = true → rank_le a c = true.
Proof. rewrite !rank_le_iff. destruct a as [[a1 a2] a3], b as [[b1 b2] b3], c as [[c1 c2] c3]. lia. Qed.

Lemma rank_le_antisym a b : rank_le a b = true → rank_le b a = true → a = b.
Proof.
  rewrite !rank_le_iff. destruct a as [[a1 a2] a3], b as [[b1 b2] b3]. intros H1 H2.
  assert (a1 = b1 ∧ a2 = b2 ∧ a3 = b3) as (-> & -> & ->) by lia. done.
Qed.

Section min.
Context {A : Type} (leb : A → A → bool).
Context (leb_total : ∀ x y, leb x y = true ∨ leb y x = true).
Context (leb_trans : ∀ x y z, leb x y = true → leb y z = true → leb x z = true).

Lemma foldl_min_spec x l :
  let m := foldl (λ best y, if leb best y then best else y) x l in
  m ∈ x :: l ∧ ∀ y, y ∈ x :: l → leb m y = true.
Proof using leb_total leb_trans.
  revert x. induction l as [|y l IH]; intros x; simpl.
  - split; [by left|]. intros z ->%list_elem_of_singleton. by destruct (leb_total x x).
  - destruct (leb x y) eqn:Hxy.
    + destruct (IH x) as [Hin Hle]. split; [set_solver|].
      intros z [->|[->|Hz]%elem_of_cons]%elem_of_cons; [apply Hle; by left| |apply Hle; by right].
      eapply leb_trans; [apply Hle; by left|done].
    + destruct (IH y) as [Hin Hle]. split; [set_solver|].
      intros z [->|[->|Hz]%elem_of_cons]%elem_of_cons; [|apply Hle; by left|apply Hle; by right].
      eapply leb_trans; [apply Hle; by left|]. destruct (leb_total x y); congruence.
Qed.

Lemma min_by_Some (leb_antisym : ∀ x y, leb x y = true → leb y x = true → x = y) l m :
  min_by leb l = Some m ↔ m ∈ l ∧ ∀ y, y ∈ l → leb m y = true.
Proof using leb_total leb_trans.
  destruct l as [|x l]; simpl; [split; [done|by intros [?%elem_of_nil _]]|].
  destruct (foldl_min_spec x l) as [Hin Hle]. split; [by intros [= <-]|].
  intros [Hm Hall]. f_equal. apply leb_antisym; [by apply Hle|by apply Hall].
Qed.

Lemma min_by_None l : min_by leb l = None ↔ l = [].
Proof. by destruct l. Qed.
End min.

Lemma elem_of_candidates model provider method options n routes t o i :
  (t, o, i) ∈ candidates_from model provider method options n routes ↔
  ∃ j r, i = n + j ∧ routes !! j = Some r ∧ mr_available r = true
         ∧ fallback_rank model provider method options r = Some (t, o).
Proof.
  revert n. induction routes as [|r routes IH]; intros n; simpl.
  { split; [by intros ?%elem_of_nil|by intros (j & r & _ & H & _)]. }
  assert (∀ R : Prop,
    (R ∨ ∃ j x, i = S n + j ∧ routes !! j = Some x ∧ mr_available x = true
                ∧ fallback_rank model provider method options x = Some (t, o)) ↔
    (R ∨ ∃ j x, i = n + S j ∧ routes !! j = Some x ∧ mr_available x = true
                ∧ fallback_rank model provider method options x = Some (t, o))) as Hshift.
  { intros R. by setoid_rewrite Nat.add_succ_r. }
  assert ((∃ j x, i = n + j ∧ (r :: routes) !! j = Some x ∧ mr_available x = true
                  ∧ fallback_rank model provider method options x = Some (t, o)) ↔
          (i = n ∧ mr_available r = true ∧ fallback_rank model provider method options r = Some (t, o))
          ∨ ∃ j x, i = n + S j ∧ routes !! j = Some x ∧ mr_available x = true
                   ∧ fallback_rank model provider method options x = Some (t, o)) as ->.
  { split.
    - intros ([|j] & x & -> & Hx & H); [left|right; by exists j, x].
      injection Hx as <-. by rewrite Nat.add_0_r.
    - intros [(-> & H)|(j & x & H)]; [exists 0, r|exists (S j), x]; rewrite ?Nat.add_0_r; auto. }
  rewrite <- Hshift. destruct (mr_available r) eqn:Ha; [|rewrite IH; naive_solver].
  destruct (fallback_rank model provider method options r) as [[t' o']|] eqn:Hr; [|rewrite IH; naive_solver].
  rewrite elem_of_cons, IH. naive_solver.
Qed.

Lemma rank_Some_inv model provider method options r k :
  fallback_rank model provider method options r = Some k →
  same_model model r && same_provider provider r && (same_method method r || unknown_method method) = false
  ∧ credential_failure options && same_provider provider r
    && (same_method method r || unknown_method method) = false.
Proof.
  unfold fallback_rank. destruct (_ && _ && _) eqn:H1; [done|].
  destruct (credential_failure options && _ && _) eqn:H2; [done|]. by intros _.
Qed.

(** The route offered after a failure.  An index is offered exactly when its route is available, is
    not excluded, and no other such route ranks before it by tier, then subscription logins, then
    catalog position; so nothing is offered exactly when every available route is excluded.  The offer
    is never the route that failed (any method counts as the failed one when the failed method is not
    known), and after a credential failure never a route of that provider on the same credential. *)
Theorem fallback_offer_exact (routes : list ModelRoute) (model provider method : string)
    (options : FallbackPickOptions) (i : nat) :
  let rank := fallback_rank model provider method options in
  (pick_next_fallback_route_with_options routes model provider method options = Some i ↔
   ∃ r t o, routes !! i = Some r ∧ mr_available r = true ∧ rank r = Some (t, o)
     ∧ ∀ j r' t' o', routes !! j = Some r' → mr_available r' = true → rank r' = Some (t', o') →
         rank_le (t, o, i) (t', o', j) = true)
  ∧ (pick_next_fallback_route_with_options routes model provider method options = None ↔
     ∀ j r, routes !! j = Some r → mr_available r = true → rank r = None)
  ∧ (pick_next_fallback_route_with_options routes model provider method options = Some i →
     ∃ r, routes !! i = Some r ∧ mr_available r = true
       ∧ (same_model model r = true → same_provider provider r = true →
          same_method method r = false ∧ unknown_method method = false)
       ∧ (credential_failure options = true → same_provider provider r = true →
          same_method method r = false ∧ unknown_method method = false)).
Proof.
  intros rank. unfold pick_next_fallback_route_with_options.
  set (cs := candidates_from model provider method options 0 routes).
  assert (∀ k, snd <$> min_by rank_le cs = Some k ↔
    ∃ t o, (t, o, k) ∈ cs ∧ ∀ y, y ∈ cs → rank_le (t, o, k) y = true) as Hmin.
  { intros k. rewrite fmap_Some. split.
    - intros ([[t o] k'] & H & ->). exists t, o.
      by apply (min_by_Some rank_le rank_le_total rank_le_trans rank_le_antisym).
    - intros (t & o & H). exists (t, o, k). split; [|done].
      by apply (min_by_Some rank_le rank_le_total rank_le_trans rank_le_antisym). }
  split_and!.
  - rewrite Hmin. unfold cs. setoid_rewrite elem_of_candidates. split.
    + intros (t & o & (j & r & -> & Hr & Ha & Hk) & Hall). exists r, t, o. split_and!; [done..|].
      intros j' r' t' o' Hr' Ha' Hk'. apply Hall. apply elem_of_candidates. by exists j', r'.
    + intros (r & t & o & Hr & Ha & Hk & Hall). exists t, o. split; [by exists i, r|].
      intros [[t' o'] j'] (j & r' & -> & Hr' & Ha' & Hk')%elem_of_candidates. by eapply Hall.
  - rewrite fmap_None, min_by_None. unfold cs. split.
    + intros Hnil j r Hr Ha. destruct (rank r) as [[t o]|] eqn:Hk; [|done]. exfalso.
      assert ((t, o, j) ∈ candidates_from model provider method options 0 routes) as Hin
        by (apply elem_of_candidates; by exists j, r).
      rewrite Hnil in Hin. by apply elem_of_nil in Hin.
    + intros Hall. destruct (candidates_from _ _ _ _ 0 routes) as [|[[t o] j] l] eqn:Hc; [done|].
      assert ((t, o, j) ∈ candidates_from model provider method options 0 routes) as Hin
        by (rewrite Hc; by left).
      apply elem_of_candidates in Hin as (j' & r & _ & Hr & Ha & Hk). 
      specialize (Hall j' r Hr Ha). unfold rank in Hall. congruence.
  - intros (t & o & Hin & _)%Hmin. apply elem_of_candidates in Hin as (j & r & -> & Hr & Ha & Hk).
    destruct (rank_Some_inv model provider method options r _ Hk) as [Hm Hc].
    exists r. split_and!; [done..| |]; intros H1 H2.
    + rewrite H1, H2 in Hm. by apply orb_false_iff.
    + rewrite H1, H2 in Hc. by apply orb_false_iff.
Qed.

Example offered :
  pick_next_fallback_route_with_options
    [mk_model_route "claude-opus-5" "Anthropic" "claude-api" true "" None;
     mk_model_route "gpt-5.5" "OpenAI" "openai-oauth" true "" None;
     mk_model_route "claude-opus-5" "Anthropic" "claude-oauth" true "" None]
    "claude-opus-5" "Anthropic" "claude-api" (mk_options true) = Some 2.
Proof. by vm_compute. Qed.
