(* ===== verification/ProviderFailover.v ===== *)
(** * Failover, retries and catalog refreshes (crates/arterm-provider-core/src)

    [failover.rs] decides from an error text whether to try the next provider, [retry_after.rs] reads
    a server's delay, [transport.rs] recognizes transient faults, [catalog_refresh.rs] summarizes how
    a catalog changed, [reasoning.rs] has the selectable effort levels.  Parsing an HTTP date is the
    [httpdate] crate's and is a parameter; a duration is a number of nanoseconds. *)

From S2P Require Export ProviderRoutes.

(** ** [failover.rs] *)

Inductive FailoverDecision := NoFailover | RetryNextProvider | RetryAndMarkUnavailable.

#[export] Instance FailoverDecision_eq_dec : EqDecision FailoverDecision.
Proof. solve_decision. Defined.

Definition should_failover (d : FailoverDecision) : bool := match d with NoFailover => false | _ => true end.

Definition should_mark_provider_unavailable (d : FailoverDecision) : bool :=
  match d with RetryAndMarkUnavailable => true | _ => false end.

(** [FailoverDecision::as_str] *)
Definition decision_str (d : FailoverDecision) : string :=
  match d with
  | NoFailover => "none"
  | RetryNextProvider => "retry-next-provider"
  | RetryAndMarkUnavailable => "retry-and-mark-unavailable"
  end.

Definition not_digit (c : option ascii) : bool :=
  match c with Some c => negb (is_ascii_digit c) | None => true end.

(** [contains_independent_status_code]: the matches of [match_indices], from left to right, none
    overlapping the one before.  [before] is the byte in front of the text, [skip] counts the bytes of
    a match still to pass. *)
Fixpoint independent_from (code : string) (before : option ascii) (skip : nat) (s : string) : bool :=
  match s with
  | EmptyString => false
  | String c s' =>
      match skip with
      | S k => independent_from code (Some c) k s'
      | 0 =>
          if starts_with code s
          then (not_digit before && not_digit (first_char (str_drop (String.length code) s)))
               || independent_from code (Some c) (String.length code - 1) s'
          else independent_from code (Some c) 0 s'
      end
  end.

Definition contains_independent_status_code (haystack code : string) : bool :=
  independent_from code None 0 haystack.

Definition SIZE_MARKERS : list string :=
  ["context length"; "context_length"; "context window"; "maximum context"; "prompt is too long";
   "input is too long"; "too many tokens"; "max tokens"; "token limit"; "token_limit";
   "413 payload too large"; "413 request entity too large"].

Definition QUOTA_MARKERS : list string :=
  ["rate limit"; "rate-limited"; "too many requests"; "quota"; "credit balance"; "credits have run out";
   "insufficient credit"; "billing"; "payment required"; "usage tier"].

Definition ACCESS_MARKERS : list string :=
  ["access denied"; "not accessible by integration"; "provider unavailable"; "provider not available";
   "provider is unavailable"; "provider currently unavailable"; "provider not configured";
   "credentials are not configured"; "no credentials"; "token exchange failed"; "authentication failed";
   "unauthorized"; "forbidden"].

Definition request_size_or_context (lower : string) : bool :=
  any_in SIZE_MARKERS lower || contains_independent_status_code lower "413".

Definition rate_or_quota (lower : string) : bool :=
  any_in QUOTA_MARKERS lower || contains_independent_status_code lower "429"
  || contains_independent_status_code lower "402".

Definition auth_or_access (lower : string) : bool :=
  any_in ACCESS_MARKERS lower || contains_independent_status_code lower "401"
  || contains_independent_status_code lower "403".

Definition classify_failover_error_message (message : string) : FailoverDecision :=
  let lower := to_ascii_lowercase message in
  if request_size_or_context lower then RetryNextProvider
  else if rate_or_quota lower then RetryAndMarkUnavailable
  else if auth_or_access lower then RetryAndMarkUnavailable
  else NoFailover.

(** ** [transport.rs] *)

Definition TRANSIENT_MARKERS : list string :=
  ["connection reset"; "connection closed"; "connection refused"; "connection aborted"; "broken pipe";
   "timed out"; "timeout"; "operation timed out"; "error decoding"; "error reading"; "unexpected eof";
   "close_notify"; "peer closed connection"; "tls handshake eof"; "client error (connect)";
   "connection error"; "incomplete message"; "request or response body error"; "badrecordmac";
   "bad_record_mac"; "fatal alert: badrecordmac"; "fatal alert: bad_record_mac";
   "received fatal alert: badrecordmac"; "received fatal alert: bad_record_mac";
   "decryption failed or bad record mac"; "temporary failure in name resolution";
   "failed to lookup address information"; "dns error"; "name or service not known";
   "no route to host"; "network is unreachable"; "host is unreachable"; "http2 error"; "stream error";
   "protocol error"; "refused_stream"; "refused stream"; "enhance_your_calm"; "goaway"; "go away";
   "sendrequest"].

Definition is_transient_transport_error (error_str : string) : bool :=
  any_in TRANSIENT_MARKERS (to_ascii_lowercase error_str).

(** ** [retry_after.rs] *)

Definition from_secs (n : N) : N := n * 1000000000.
Definition MAX_RETRY_AFTER_SECS : N := 60.
Definition MAX_RETRY_AFTER : N := from_secs MAX_RETRY_AFTER_SECS.

Definition saturating_add_u64 (a b : N) : N := N.min (a + b) U64_MAX.

(** One digit of the fold. *)
Definition retry_digit (seconds : N) (c : ascii) : N :=
  N.min (saturating_add_u64 (saturating_mul_u64 seconds 10) (byte c - 48)) MAX_RETRY_AFTER_SECS.

Fixpoint fold_bytes {A} (f : A → ascii → A) (acc : A) (s : string) : A :=
  match s with EmptyString => acc | String c s' => fold_bytes f (f acc c) s' end.

Section retry_after.
(** [httpdate::parse_http_date], as nanoseconds on some clock. *)
Context (parse_http_date : string → option Z).

(** [retry_after_delay_at], on the header's text ([None] when absent or not text). *)
Definition retry_after_delay_at (header : option string) (now : Z) : option N :=
  let?? header := header in
  let value := trim header in
  if is_empty value then None
  else if string_forallb is_ascii_digit value then Some (from_secs (fold_bytes retry_digit 0%N value))
  else
    let?? retry_at := parse_http_date value in
    Some (N.min (Z.to_N (retry_at - now)) MAX_RETRY_AFTER).

(** [RetryAfter::new] and [RetryAfter::remaining], on readings of a clock that does not go back. *)
Definition retry_deadline (now : N) (delay : N) : N := now + delay.
Definition remaining (deadline now : N) : N := deadline - now.
End retry_after.

(** [retry_backoff_delay] in milliseconds; [jitter] is the random factor applied in floating point. *)
Definition retry_backoff_delay (jitter : N → N) (attempt base_ms : N) : N :=
  let exp := saturating_mul_u64 base_ms (N.shiftl 1 (N.min (attempt - 1) 16)) in N.max (jitter exp) 1.

Definition retry_delay (jitter : N → N) (attempt base_ms : N) (server_hint : option N) : N :=
  match server_hint with
  | Some hint => hint
  | None => retry_backoff_delay jitter attempt base_ms * 1000000
  end.

(** ** [reasoning.rs] *)

Definition OPENAI_SELECTABLE_EFFORTS : list string :=
  ["none"; "minimal"; "low"; "medium"; "high"; "xhigh"; "max"; "swarm"; "swarm-deep"].
Definition OPENROUTER_SELECTABLE_EFFORTS : list string :=
  ["none"; "minimal"; "low"; "medium"; "high"; "xhigh"; "swarm"; "swarm-deep"].
Definition GROK_SELECTABLE_EFFORTS : list string :=
  ["none"; "low"; "medium"; "high"; "xhigh"; "swarm"; "swarm-deep"].
Definition DEEPSEEK_SELECTABLE_EFFORTS : list string :=
  ["none"; "low"; "medium"; "high"; "max"; "swarm"; "swarm-deep"].

Definition canonical_reasoning_effort (value : string) : option string :=
  let v := to_ascii_lowercase (trim value) in
  if one_of ["none"; "minimal"; "low"; "medium"; "high"; "xhigh"; "max"] v then Some v else None.

(** The ladder of a Claude model. *)
Definition anthropic_efforts (caps : AnthropicReasoningCaps) : list string :=
  if negb (supports_reasoning_effort caps) then []
  else ["none"; "low"; "medium"; "high"] ++ (if xhigh_effort caps then ["xhigh"] else [])
       ++ (if max_effort caps then ["max"] else []) ++ ["swarm"; "swarm-deep"].

Definition inferred_reasoning_efforts (provider_name model_name : option string) : list string :=
  let provider := to_ascii_lowercase (default "" provider_name) in
  let model := to_ascii_lowercase (default "" model_name) in
  let is_openai_model := starts_with "gpt-" model || starts_with "o1" model || starts_with "o3" model
                         || starts_with "o4" model || starts_with "o5" model in
  if contains "openrouter" provider then OPENROUTER_SELECTABLE_EFFORTS
  else if contains "deepseek" provider || contains "deepseek" model then DEEPSEEK_SELECTABLE_EFFORTS
  else if contains "xai" provider || contains "grok" model then GROK_SELECTABLE_EFFORTS
  else if contains "zai" provider || contains "glm" model then OPENAI_SELECTABLE_EFFORTS
  else if contains "openai-compatible" provider then
    if is_openai_model then OPENAI_SELECTABLE_EFFORTS else []
  else if contains "anthropic" provider || contains "claude" provider || starts_with "claude-" model then
    anthropic_efforts (anthropic_reasoning_caps model)
  else if contains "openai" provider || contains "codex" provider || is_openai_model then
    OPENAI_SELECTABLE_EFFORTS
  else [].

(** ** [catalog_refresh.rs] *)

Record ModelCatalogRefreshSummary := mk_summary {
  model_count_before : nat; model_count_after : nat; models_added : nat; models_removed : nat;
  models_added_names : list string; models_removed_names : list string;
  route_count_before : nat; route_count_after : nat; routes_added : nat; routes_removed : nat;
  routes_changed : nat }.

Definition is_display_only_age_suffix (detail : string) : bool :=
  let detail := trim detail in
  let fix first_stripped (suffixes : list string) : option string :=
    match suffixes with
    | [] => None
    | s :: suffixes => match strip_suffix s detail with Some p => Some p | None => first_stripped suffixes end
    end in
  match first_stripped ["m ago"; "h ago"; "d ago"] with
  | Some prefix => negb (is_empty prefix) && string_forallb is_ascii_digit prefix
  | None => false
  end.

Definition normalize_route_refresh_detail (detail : string) : string :=
  let detail := trim detail in
  if is_empty detail then ""
  else if is_display_only_age_suffix detail then ""
  else match rsplit_once "," detail with
       | Some (prefix, suffix) =>
           if is_display_only_age_suffix suffix
           then trim (trim_end_matches (Ascii.eqb ",") (trim_end prefix)) else detail
       | None => detail
       end.

Definition CatalogRouteMap : Type := gmap (string * string * string) (bool * string * option N).

(** Collecting into a map: a later route replaces an earlier one of its key. *)
Definition catalog_route_map (routes : list ModelRoute) : CatalogRouteMap :=
  foldl (λ m r,
    <[(mr_model r, mr_provider r, mr_api_method r)
      := (mr_available r, normalize_route_refresh_detail (mr_detail r), route_reference_cost r)]> m) ∅ routes.

(** Whether the snapshot of a key that both maps have differs. *)
Definition route_changed (before : CatalogRouteMap) (kv : (string * string * string) * (bool * string * option N)) : bool :=
  match before !! kv.1 with Some b => negb (bool_decide (b = kv.2)) | None => false end.

Definition summarize_model_catalog_refresh (before_models after_models : list string)
    (before_routes after_routes : list ModelRoute) : ModelCatalogRefreshSummary :=
  let before_set : gset string := list_to_set before_models in
  let after_set : gset string := list_to_set after_models in
  let before_map := catalog_route_map before_routes in
  let after_map := catalog_route_map after_routes in
  mk_summary (size before_set) (size after_set)
    (size (after_set ∖ before_set)) (size (before_set ∖ after_set))
    (sort_strings (elements (after_set ∖ before_set))) (sort_strings (elements (before_set ∖ after_set)))
    (size before_map) (size after_map)
    (size (dom after_map ∖ dom before_map)) (size (dom before_map ∖ dom after_map))
    (length (List.filter (route_changed before_map) (map_to_list after_map))).

(** * What the failover decision, the retry delay and the refresh summary say *)

(** ** Independent status codes *)

(** The byte in front of a position: the last of [a], or what came before the text. *)
Definition byte_before (before : option ascii) (a : string) : option ascii :=
  match last_char a with Some c => Some c | None => before end.

(** The code occurs with no digit next to it. *)
Definition occurs_alone (code : string) (before : option ascii) (s : string) : Prop :=
  ∃ a b, s = a +:+ code +:+ b ∧ not_digit (byte_before before a) = true ∧ not_digit (first_char b) = true.

Lemma byte_before_cons before c a : byte_before before (String c a) = byte_before (Some c) a.
Proof.
  unfold byte_before. destruct a as [|d a]; [done|].
  change (last_char (String c (String d a))) with (last_char (String d a)).
  destruct (last_char (String d a)) eqn:E; [done|]. exfalso. revert d E.
  induction a as [|x a IH]; intros d; [done|]. apply IH.
Qed.

(** An occurrence behind the first byte. *)
Lemma occurs_alone_cons code before c s :
  occurs_alone code before (String c s) ↔
  (starts_with code (String c s) = true ∧ not_digit before = true
   ∧ not_digit (first_char (str_drop (String.length code) (String c s))) = true)
  ∨ (code ≠ "" ∧ occurs_alone code (Some c) s) ∨ (code = "" ∧ occurs_alone code (Some c) s).
Proof.
  split.
  - intros ([|d a] & b & Hs & Hb & Ha).
    + left. change ("" +:+ code +:+ b) with (code +:+ b) in Hs. rewrite Hs, str_drop_app.
      split; [apply starts_with_app|done].
    + right. change (String d a +:+ code +:+ b) with (String d (a +:+ code +:+ b)) in Hs.
      injection Hs as -> Hs. rewrite byte_before_cons in Hb.
      destruct (decide (code = "")); [right|left]; (split; [done|]); by exists a, b.
  - intros [([t Ht]%starts_with_iff & Hb & Ha)|H].
    + exists "", t. rewrite Ht, str_drop_app in Ha. rewrite Ht. done.
    + assert (occurs_alone code (Some c) s) as (a & b & -> & Hb & Ha) by tauto.
      exists (String c a), b. by rewrite byte_before_cons.
Qed.

Section digits.
Context (code : string).
Context (Hcode : string_forallb is_ascii_digit code = true) (Hne : code ≠ "").

(** While a match is being passed, nothing independent can start: every byte passed is a digit, and
    so is the byte in front of the next one. *)
Lemma independent_from_spec s before skip :
  (skip = 0 ∨ not_digit before = false) →
  string_forallb is_ascii_digit (str_take skip s) = true →
  independent_from code before skip s = true ↔ occurs_alone code before s.
Proof using Hcode Hne.
  revert before skip. induction s as [|c s IH]; intros before skip Hskip Hdig.
  { split; [done|]. intros (a & b & Hs & _). destruct a; [|done]. by destruct code. }
  rewrite occurs_alone_cons. destruct skip as [|k]; cbn [independent_from].
  - destruct (starts_with code (String c s)) eqn:Hst.
    + pose proof Hst as [t Ht]%starts_with_iff. destruct code as [|d r] eqn:Hc; [done|].
      change (String d r +:+ t) with (String d (r +:+ t)) in Ht. injection Ht as <- ->.
      cbn [string_forallb] in Hcode. apply andb_true_iff in Hcode as [Hd Hr].
      rewrite orb_true_iff, andb_true_iff. cbn [String.length Nat.sub]. rewrite Nat.sub_0_r, IH.
      * naive_solver.
      * right. cbn. by rewrite Hd.
      * by rewrite str_take_app.
    + rewrite IH by auto. naive_solver.
  - destruct Hskip as [|Hb]; [done|]. cbn [str_take string_forallb] in Hdig.
    apply andb_true_iff in Hdig as [Hc Hdig]. rewrite IH; [|right; cbn; by rewrite Hc|done].
    rewrite Hb. naive_solver.
Qed.

Lemma independent_code_exact s :
  contains_independent_status_code s code = true ↔ occurs_alone code None s.
Proof using Hcode Hne. apply independent_from_spec; [by left|done]. Qed.
End digits.

(** ** The decision *)

(** The text has one of the phrases. *)
Definition mentions (phrases : list string) (text : string) : Prop :=
  ∃ p a b, p ∈ phrases ∧ text = a +:+ p +:+ b.

Definition too_large (text : string) : Prop := mentions SIZE_MARKERS text ∨ occurs_alone "413" None text.

Definition over_quota (text : string) : Prop :=
  mentions QUOTA_MARKERS text ∨ occurs_alone "429" None text ∨ occurs_alone "402" None text.

Definition no_access (text : string) : Prop :=
  mentions ACCESS_MARKERS text ∨ occurs_alone "401" None text ∨ occurs_alone "403" None text.

Lemma any_in_iff phrases text : any_in phrases text = true ↔ mentions phrases text.
Proof.
  unfold any_in, mentions. rewrite existsb_elem. split.
  - intros (p & Hp & (a & b & ->)%contains_iff). by exists p, a, b.
  - intros (p & a & b & Hp & ->). exists p. split; [done|]. apply contains_iff. by exists a, b.
Qed.

Lemma too_large_iff text : request_size_or_context text = true ↔ too_large text.
Proof. unfold request_size_or_context. by rewrite orb_true_iff, any_in_iff, independent_code_exact. Qed.

Lemma over_quota_iff text : rate_or_quota text = true ↔ over_quota text.
Proof.
  unfold rate_or_quota, over_quota. rewrite !orb_true_iff, any_in_iff, !independent_code_exact by done. tauto.
Qed.

Lemma no_access_iff text : auth_or_access text = true ↔ no_access text.
Proof.
  unfold auth_or_access, no_access. rewrite !orb_true_iff, any_in_iff, !independent_code_exact by done. tauto.
Qed.

(** The failover decision, exactly.  In the lower-case error text: a size or context phrase, or the
    status 413 standing alone (no digit next to it), sends the request to the next provider and keeps
    this one; otherwise a quota or access phrase, or 429, 402, 401 or 403 standing alone, also marks the
    provider unavailable; anything else stops.  A status inside a longer number never counts. *)
Theorem failover_decision_exact (message : string) :
  let text := to_ascii_lowercase message in
  (classify_failover_error_message message = RetryNextProvider ↔ too_large text)
  ∧ (classify_failover_error_message message = RetryAndMarkUnavailable ↔
     ¬ too_large text ∧ (over_quota text ∨ no_access text))
  ∧ (classify_failover_error_message message = NoFailover ↔
     ¬ too_large text ∧ ¬ over_quota text ∧ ¬ no_access text).
Proof.
  intros text. unfold classify_failover_error_message. cbv zeta. fold text.
  rewrite <- too_large_iff, <- over_quota_iff, <- no_access_iff.
  destruct (request_size_or_context text), (rate_or_quota text), (auth_or_access text); naive_solver.
Qed.

(** ** The delay a server asks for *)

(** The number a digit string writes, of any length. *)
Definition decimal_value (s : string) : N := fold_bytes (λ acc c, acc * 10 + (byte c - 48))%N 0%N s.

Lemma digit_value c : is_ascii_digit c = true → (byte c - 48 <= 9)%N.
Proof. unfold is_ascii_digit. intros [H1%N.leb_le H2%N.leb_le]%andb_true_iff. lia. Qed.

Lemma retry_digit_spec v c :
  is_ascii_digit c = true → retry_digit (N.min v 60) c = N.min (v * 10 + (byte c - 48)) 60.
Proof.
  intros Hc%digit_value. unfold retry_digit, saturating_add_u64, saturating_mul_u64, U64_MAX, MAX_RETRY_AFTER_SECS.
  revert Hc. generalize (byte c - 48)%N as d. intros d Hd. lia.
Qed.

Lemma retry_fold s v :
  string_forallb is_ascii_digit s = true →
  fold_bytes retry_digit (N.min v 60) s
  = N.min (fold_bytes (λ acc c, acc * 10 + (byte c - 48))%N v s) 60.
Proof.
  revert v. induction s as [|c s IH]; intros v; [done|]. cbn [string_forallb fold_bytes].
  intros [Hc Hs]%andb_true_iff. by rewrite retry_digit_spec, IH.
Qed.

(** A server's delay is honoured up to a minute and never beyond: a number of seconds, however many
    digits it has, gives the lesser of it and sixty (the saturating fold loses nothing), a date gives
    the time left until it, none when it has passed, up to sixty seconds, and anything else gives no
    delay. *)
Theorem retry_after_exact (parse_http_date : string → option Z) (header : string) (now : Z) :
  let value := trim header in
  (value ≠ "" → string_forallb is_ascii_digit value = true →
   retry_after_delay_at parse_http_date (Some header) now
   = Some (from_secs (N.min (decimal_value value) 60)))
  ∧ (string_forallb is_ascii_digit value = false →
     retry_after_delay_at parse_http_date (Some header) now
     = (λ at_, N.min (Z.to_N (at_ - now)) MAX_RETRY_AFTER) <$> parse_http_date value)
  ∧ ∀ d, retry_after_delay_at parse_http_date (Some header) now = Some d → (d <= MAX_RETRY_AFTER)%N.
Proof.
  intros value. unfold retry_after_delay_at. cbv zeta. fold value.
  assert (string_forallb is_ascii_digit value = true →
          fold_bytes retry_digit 0%N value = N.min (decimal_value value) 60) as Hfold
    by (intros H; exact (retry_fold value 0 H)).
  split_and!.
  - intros Hne%is_empty_false Hd. by rewrite Hne, Hd, Hfold.
  - intros Hd. rewrite Hd. destruct (is_empty value) eqn:He.
    { apply is_empty_true in He. by rewrite He in Hd. }
    by destruct (parse_http_date value).
  - intros d. destruct (is_empty value); [done|]. destruct (string_forallb is_ascii_digit value) eqn:Hd.
    + intros [= <-]. rewrite Hfold by done. unfold MAX_RETRY_AFTER, MAX_RETRY_AFTER_SECS, from_secs. lia.
    + destruct (parse_http_date value); [|done]. intros [= <-]. lia.
Qed.

(** ** The refresh summary *)

Lemma size_difference_balance {A} `{Countable A} (X Y : gset A) : size X + size (Y ∖ X) = size Y + size (X ∖ Y).
Proof.
  rewrite <- (size_union X (Y ∖ X)) by set_solver. rewrite <- (size_union Y (X ∖ Y)) by set_solver.
  f_equal. apply leibniz_equiv. apply set_equiv. intros x. rewrite !elem_of_union, !elem_of_difference.
  destruct (decide (x ∈ X)), (decide (x ∈ Y)); tauto.
Qed.

Lemma sorted_names (X : gset string) :
  NoDup (sort_strings (elements X)) ∧ StronglySorted (λ a b, String.leb a b = true) (sort_strings (elements X))
  ∧ ∀ m, m ∈ sort_strings (elements X) ↔ m ∈ X.
Proof.
  split_and!.
  - apply NoDup_sort_by, NoDup_elements.
  - apply sort_by_strongly_sorted; [apply str_leb_total|apply str_leb_trans].
  - intros m. by rewrite elem_of_sort_strings, elem_of_elements.
Qed.

Lemma length_sorted_names (X : gset string) : length (sort_strings (elements X)) = size X.
Proof. unfold sort_strings. by rewrite length_sort_by. Qed.

(** The keys of the changed routes, as a set. *)
Lemma changed_keys (before after : CatalogRouteMap) :
  ∃ C : gset (string * string * string),
    size C = length (List.filter (route_changed before) (map_to_list after)) ∧ C ⊆ dom after ∧ C ⊆ dom before.
Proof.
  set (l := List.filter (route_changed before) (map_to_list after)).
  assert (∀ kv, kv ∈ l → kv ∈ map_to_list after ∧ route_changed before kv = true) as Hl.
  { intros kv Hkv. apply list_elem_of_In in Hkv. unfold l in Hkv. apply filter_In in Hkv as [H1 H2].
    by rewrite list_elem_of_In. }
  exists (list_to_set (fst <$> l)). split_and!.
  - rewrite size_list_to_set; [apply length_fmap|]. unfold l.
    cut (∀ m, NoDup (fst <$> m) → NoDup (fst <$> List.filter (route_changed before) m)).
    { intros H. apply H, NoDup_fst_map_to_list. }
    intros m. induction m as [|kv m IH]; simpl; [constructor|]. intros [Hn Hnd]%NoDup_cons.
    destruct (route_changed before kv); [|by apply IH]. simpl. apply NoDup_cons. split; [|by apply IH].
    intros (kv' & Hk & Hin)%list_elem_of_fmap. apply Hn. rewrite Hk. apply list_elem_of_fmap_2.
    apply list_elem_of_In in Hin. apply filter_In in Hin as [Hin _]. by apply list_elem_of_In.
  - intros k (kv & -> & [Hkv _]%Hl)%elem_of_list_to_set%list_elem_of_fmap. destruct kv as [k v].
    apply elem_of_map_to_list in Hkv. by eapply elem_of_dom_2.
  - intros k (kv & -> & [_ Hch]%Hl)%elem_of_list_to_set%list_elem_of_fmap. unfold route_changed in Hch.
    destruct (before !! kv.1) eqn:Hb; [|done]. by eapply elem_of_dom_2.
Qed.

Lemma nothing_changed (m : CatalogRouteMap) :
  List.filter (route_changed m) (map_to_list m) = [].
Proof.
  assert (∀ l, (∀ kv, kv ∈ l → route_changed m kv = false) → List.filter (route_changed m) l = []) as H.
  { intros l. induction l as [|kv l IH]; intros Hl; [done|]. simpl. rewrite Hl by left.
    apply IH. intros x Hx. apply Hl. by right. }
  apply H. intros [k v] Hkv%elem_of_map_to_list. unfold route_changed. cbn [fst snd].
  replace (m !! k) with (Some v) by done. by rewrite bool_decide_true.
Qed.

Lemma route_map_size (m : CatalogRouteMap) : size m = size (dom m).
Proof. symmetry. apply size_dom. Qed.

(** A refresh summary balances: what was there and what was added is what is there and what was
    removed, for models and for routes; the names listed are exactly the models added and removed, in
    order, as many as counted; and refreshing with the same catalog reports no change. *)
Theorem refresh_summary_balances (before_models after_models : list string)
    (before_routes after_routes : list ModelRoute) :
  let s := summarize_model_catalog_refresh before_models after_models before_routes after_routes in
  model_count_before s + models_added s = model_count_after s + models_removed s
  ∧ route_count_before s + routes_added s = route_count_after s + routes_removed s
  ∧ routes_changed s + routes_added s ≤ route_count_after s
  ∧ length (models_added_names s) = models_added s ∧ length (models_removed_names s) = models_removed s
  ∧ NoDup (models_added_names s) ∧ NoDup (models_removed_names s)
  ∧ (∀ m, m ∈ models_added_names s ↔ m ∈ after_models ∧ m ∉ before_models)
  ∧ (∀ m, m ∈ models_removed_names s ↔ m ∈ before_models ∧ m ∉ after_models)
  ∧ (before_routes = after_routes → routes_changed s = 0 ∧ routes_added s = 0 ∧ routes_removed s = 0).
Proof.
  intros s. unfold s, summarize_model_catalog_refresh. cbn -[size].
  set (before_map := catalog_route_map before_routes). set (after_map := catalog_route_map after_routes).
  rewrite !route_map_size, !length_sorted_names.
  split_and!.
  - apply size_difference_balance.
  - apply size_difference_balance.
  - destruct (changed_keys before_map after_map) as (C & <- & Ha & Hb).
    rewrite <- size_union by set_solver. apply subseteq_size. set_solver.
  - done.
  - done.
  - apply sorted_names.
  - apply sorted_names.
  - intros m. rewrite (proj2 (proj2 (sorted_names _))). set_solver.
  - intros m. rewrite (proj2 (proj2 (sorted_names _))). set_solver.
  - intros Heq. unfold before_map, after_map. rewrite Heq, nothing_changed, difference_diag_L, size_empty. done.
Qed.
