(* ===== verification/ProviderCatalog.v ===== *)
(** * Provider metadata (crates/arterm-provider-metadata/src)

    The OpenAI-compatible endpoint profiles ([profiles.rs]), the login providers ([catalog.rs]) and
    the lookups over them ([lib.rs]).  The surface orders are [u8], here [nat]. *)

From S2P Require Export TrimFacts ProviderModels.

(** ** Types *)

Inductive LoginProviderAuthKind :=
  | Kind_OAuth | Kind_ApiKey | Kind_DeviceCode | Kind_Cli | Kind_Hybrid | Kind_Local.

(** [LoginProviderAuthKind::label] *)
Definition auth_kind_label (k : LoginProviderAuthKind) : string :=
  match k with
  | Kind_OAuth => "OAuth"
  | Kind_ApiKey => "API key"
  | Kind_DeviceCode => "device code"
  | Kind_Cli => "CLI"
  | Kind_Hybrid => "API key / CLI"
  | Kind_Local => "local endpoint"
  end.

Record OpenAiCompatibleProfile := mk_profile {
  profile_key : string; profile_name : string; api_base : string; api_key_env : string;
  env_file : string; setup_url : string; default_model : option string; requires_api_key : bool }.

Inductive LoginProviderTarget :=
  | Target_AutoImport | Target_Arterm | Target_Claude | Target_ClaudeApiKey | Target_OpenAi
  | Target_OpenAiApiKey | Target_OpenRouter | Target_Bedrock | Target_Azure
  | Target_OpenAiCompatible (profile : OpenAiCompatibleProfile)
  | Target_Cursor | Target_Copilot | Target_Gemini | Target_Antigravity | Target_Google.

Inductive LoginProviderAuthStateKey :=
  | State_ExternalImport | State_Arterm | State_Anthropic | State_OpenAi | State_Azure | State_Bedrock
  | State_OpenRouterLike | State_Copilot | State_Gemini | State_Antigravity | State_Cursor | State_Google.

Inductive LoginProviderSurface := CliLogin | TuiLogin | ServerBootstrap | AutoInit | AuthStatus.

Record LoginProviderSurfaceOrder := mk_order {
  cli_login : option nat; tui_login : option nat; server_bootstrap : option nat; auto_init : option nat;
  auth_status : option nat }.

(** [LoginProviderSurfaceOrder::for_surface] *)
Definition for_surface (o : LoginProviderSurfaceOrder) (s : LoginProviderSurface) : option nat :=
  match s with
  | CliLogin => cli_login o
  | TuiLogin => tui_login o
  | ServerBootstrap => server_bootstrap o
  | AutoInit => auto_init o
  | AuthStatus => auth_status o
  end.

Record LoginProviderDescriptor := mk_login {
  login_id : string; login_name : string; auth_kind : LoginProviderAuthKind;
  auth_state_key : LoginProviderAuthStateKey; auth_status_method : string; aliases : list string;
  menu_detail : string; recommended : bool; target : LoginProviderTarget;
  order : LoginProviderSurfaceOrder }.

(** ** The data *)

Definition OPENCODE_PROFILE : OpenAiCompatibleProfile :=
  mk_profile "opencode" "OpenCode Zen" "https://opencode.ai/zen/v1" "OPENCODE_API_KEY"
    "opencode.env" "https://github.com/Arclude/Arterm-CLI#openai-compatible-providers" (Some "minimax-m2.7") true.

Definition OPENCODE_GO_PROFILE : OpenAiCompatibleProfile :=
  mk_profile "opencode-go" "OpenCode Go" "https://opencode.ai/zen/go/v1" "OPENCODE_GO_API_KEY"
    "opencode-go.env" "https://github.com/Arclude/Arterm-CLI#openai-compatible-providers" (Some "kimi-k2.5") true.

Definition ZAI_PROFILE : OpenAiCompatibleProfile :=
  mk_profile "zai" "Z.AI" "https://api.z.ai/api/coding/paas/v4" "ZHIPU_API_KEY"
    "zai.env" "https://docs.z.ai/guides/develop/openai/introduction" (Some "glm-4.5") true.

Definition KIMI_PROFILE : OpenAiCompatibleProfile :=
  mk_profile "kimi" "Kimi Code" "https://api.kimi.com/coding/v1" "KIMI_API_KEY"
    "kimi.env" "https://www.kimi.com/coding/docs/en/more/third-party-agents.html" (Some "kimi-for-coding") true.

Definition AI302_PROFILE : OpenAiCompatibleProfile :=
  mk_profile "302ai" "302.AI" "https://api.302.ai/v1" "302AI_API_KEY"
    "302ai.env" "https://github.com/Arclude/Arterm-CLI#openai-compatible-providers" (Some "qwen3-235b-a22b-instruct-2507") true.

Definition BASETEN_PROFILE : OpenAiCompatibleProfile :=
  mk_profile "baseten" "Baseten" "https://inference.baseten.co/v1" "BASETEN_API_KEY"
    "baseten.env" "https://github.com/Arclude/Arterm-CLI#openai-compatible-providers" (Some "zai-org/GLM-4.7") true.

Definition CORTECS_PROFILE : OpenAiCompatibleProfile :=
  mk_profile "cortecs" "Cortecs" "https://api.cortecs.ai/v1" "CORTECS_API_KEY"
    "cortecs.env" "https://github.com/Arclude/Arterm-CLI#openai-compatible-providers" (Some "kimi-k2.5") true.

Definition OPENROUTER_OPENAI_COMPAT_PROFILE : OpenAiCompatibleProfile :=
  mk_profile "openrouter" "OpenRouter" "https://openrouter.ai/api/v1" "OPENROUTER_API_KEY"
    "openrouter.env" "https://openrouter.ai/keys" None true.

Definition ANTHROPIC_OPENAI_COMPAT_PROFILE : OpenAiCompatibleProfile :=
  mk_profile "anthropic-api" "Anthropic API" "https://api.anthropic.com/v1" "ANTHROPIC_API_KEY"
    "anthropic.env" "https://docs.anthropic.com/en/api/openai-sdk" None true.

Definition OPENAI_NATIVE_OPENAI_COMPAT_PROFILE : OpenAiCompatibleProfile :=
  mk_profile "openai-api" "OpenAI API" "https://api.openai.com/v1" "OPENAI_API_KEY"
    "openai.env" "https://platform.openai.com/api-keys" None true.

Definition GEMINI_OPENAI_COMPAT_PROFILE : OpenAiCompatibleProfile :=
  mk_profile "gemini-api" "Gemini API" "https://generativelanguage.googleapis.com/v1beta/openai" "GEMINI_API_KEY"
    "gemini.env" "https://ai.google.dev/gemini-api/docs/openai" (Some "gemini-2.5-flash") true.

Definition DEEPSEEK_PROFILE : OpenAiCompatibleProfile :=
  mk_profile "deepseek" "DeepSeek" "https://api.deepseek.com" "DEEPSEEK_API_KEY"
    "deepseek.env" "https://api-docs.deepseek.com/" (Some "deepseek-v4-flash") true.

Definition COMTEGRA_PROFILE : OpenAiCompatibleProfile :=
  mk_profile "comtegra" "Comtegra GPU Cloud" "https://llm.comtegra.cloud/v1" "COMTEGRA_API_KEY"
    "comtegra.env" "https://docs.cgc.comtegra.cloud/llm-api" (Some "glm-51-nvfp4") true.

Definition FPT_PROFILE : OpenAiCompatibleProfile :=
  mk_profile "fpt" "FPT AI Marketplace" "https://mkp-api.fptcloud.com" "FPT_API_KEY"
    "fpt.env" "https://ai-docs.fptcloud.com/api-reference/ai-marketplace/api-reference/api-integration-large-language-model-md" (Some "GLM-5.1") true.

Definition FIRMWARE_PROFILE : OpenAiCompatibleProfile :=
  mk_profile "firmware" "Firmware" "https://app.frogbot.ai/api/v1" "FIRMWARE_API_KEY"
    "firmware.env" "https://github.com/Arclude/Arterm-CLI#openai-compatible-providers" (Some "kimi-k2.5") true.

Definition HUGGING_FACE_PROFILE : OpenAiCompatibleProfile :=
  mk_profile "huggingface" "Hugging Face" "https://router.huggingface.co/v1" "HF_TOKEN"
    "huggingface.env" "https://github.com/Arclude/Arterm-CLI#openai-compatible-providers" (Some "zai-org/GLM-4.7") true.

Definition MOONSHOT_PROFILE : OpenAiCompatibleProfile :=
  mk_profile "moonshotai" "Moonshot AI" "https://api.moonshot.ai/v1" "MOONSHOT_API_KEY"
    "moonshotai.env" "https://github.com/Arclude/Arterm-CLI#openai-compatible-providers" (Some "kimi-k2.5") true.

Definition NEBIUS_PROFILE : OpenAiCompatibleProfile :=
  mk_profile "nebius" "Nebius Token Factory" "https://api.tokenfactory.nebius.com/v1" "NEBIUS_API_KEY"
    "nebius.env" "https://github.com/Arclude/Arterm-CLI#openai-compatible-providers" (Some "openai/gpt-oss-120b") true.

Definition SCALEWAY_PROFILE : OpenAiCompatibleProfile :=
  mk_profile "scaleway" "Scaleway" "https://api.scaleway.ai/v1" "SCALEWAY_API_KEY"
    "scaleway.env" "https://github.com/Arclude/Arterm-CLI#openai-compatible-providers" (Some "qwen3-coder-30b-a3b-instruct") true.

Definition STACKIT_PROFILE : OpenAiCompatibleProfile :=
  mk_profile "stackit" "STACKIT" "https://api.openai-compat.model-serving.eu01.onstackit.cloud/v1" "STACKIT_API_KEY"
    "stackit.env" "https://github.com/Arclude/Arterm-CLI#openai-compatible-providers" (Some "openai/gpt-oss-120b") true.

Definition GROQ_PROFILE : OpenAiCompatibleProfile :=
  mk_profile "groq" "Groq" "https://api.groq.com/openai/v1" "GROQ_API_KEY"
    "groq.env" "https://console.groq.com/docs/openai" (Some "llama-3.1-8b-instant") true.

Definition MISTRAL_PROFILE : OpenAiCompatibleProfile :=
  mk_profile "mistral" "Mistral" "https://api.mistral.ai/v1" "MISTRAL_API_KEY"
    "mistral.env" "https://docs.mistral.ai/getting-started/models/" (Some "devstral-medium-2507") true.

Definition PERPLEXITY_PROFILE : OpenAiCompatibleProfile :=
  mk_profile "perplexity" "Perplexity" "https://api.perplexity.ai" "PERPLEXITY_API_KEY"
    "perplexity.env" "https://docs.perplexity.ai/docs/agent-api/openai-compatibility" (Some "sonar") true.

Definition TOGETHER_AI_PROFILE : OpenAiCompatibleProfile :=
  mk_profile "togetherai" "Together AI" "https://api.together.xyz/v1" "TOGETHER_API_KEY"
    "togetherai.env" "https://docs.together.ai/docs/openai-api-compatibility" (Some "moonshotai/Kimi-K2-Instruct") true.

Definition DEEPINFRA_PROFILE : OpenAiCompatibleProfile :=
  mk_profile "deepinfra" "Deep Infra" "https://api.deepinfra.com/v1/openai" "DEEPINFRA_API_KEY"
    "deepinfra.env" "https://deepinfra.com/docs/api-reference" (Some "moonshotai/Kimi-K2-Instruct") true.

Definition FIREWORKS_PROFILE : OpenAiCompatibleProfile :=
  mk_profile "fireworks" "Fireworks" "https://api.fireworks.ai/inference/v1" "FIREWORKS_API_KEY"
    "fireworks.env" "https://docs.fireworks.ai/tools-sdks/openai-compatibility" (Some "accounts/fireworks/routers/kimi-k2p5-turbo") true.

Definition MINIMAX_PROFILE : OpenAiCompatibleProfile :=
  mk_profile "minimax" "MiniMax" "https://api.minimax.io/v1" "OPENAI_API_KEY"
    "minimax.env" "https://platform.minimax.io/docs/guides/text-generation" (Some "MiniMax-M2.7") true.

Definition XAI_PROFILE : OpenAiCompatibleProfile :=
  mk_profile "xai" "xAI" "https://api.x.ai/v1" "XAI_API_KEY"
    "xai.env" "https://docs.x.ai/developers/quickstart" (Some "grok-4.6") true.

Definition LMSTUDIO_PROFILE : OpenAiCompatibleProfile :=
  mk_profile "lmstudio" "LM Studio" "http://localhost:1234/v1" "LMSTUDIO_API_KEY"
    "lmstudio.env" "https://lmstudio.ai/docs/app/api/endpoints/openai" None false.

Definition OLLAMA_PROFILE : OpenAiCompatibleProfile :=
  mk_profile "ollama" "Ollama" "http://localhost:11434/v1" "OLLAMA_API_KEY"
    "ollama.env" "https://docs.ollama.com/api/openai-compatibility" None false.

Definition CHUTES_PROFILE : OpenAiCompatibleProfile :=
  mk_profile "chutes" "Chutes" "https://llm.chutes.ai/v1" "CHUTES_API_KEY"
    "chutes.env" "https://chutes.ai" None true.

Definition CEREBRAS_PROFILE : OpenAiCompatibleProfile :=
  mk_profile "cerebras" "Cerebras" "https://api.cerebras.ai/v1" "CEREBRAS_API_KEY"
    "cerebras.env" "https://inference-docs.cerebras.ai/introduction" (Some "gpt-oss-120b") true.

Definition ALIBABA_CODING_PLAN_PROFILE : OpenAiCompatibleProfile :=
  mk_profile "alibaba-coding-plan" "Alibaba Cloud Coding Plan" "https://coding-intl.dashscope.aliyuncs.com/v1" "BAILIAN_CODING_PLAN_API_KEY"
    "alibaba-coding-plan.env" "https://www.alibabacloud.com/help/en/model-studio/coding-plan-quickstart" (Some "qwen3-coder-plus") true.

Definition NVIDIA_NIM_PROFILE : OpenAiCompatibleProfile :=
  mk_profile "nvidia-nim" "NVIDIA NIM" "https://integrate.api.nvidia.com/v1" "NVIDIA_API_KEY"
    "nvidia-nim.env" "https://build.nvidia.com/explore/discover" (Some "nvidia/llama-3.1-nemotron-ultra-253b-v1") true.

Definition XIAOMI_MIMO_PROFILE : OpenAiCompatibleProfile :=
  mk_profile "xiaomi-mimo" "Xiaomi MiMo" "https://api.xiaomimimo.com/v1" "XIAOMI_MIMO_API_KEY"
    "xiaomi-mimo.env" "https://platform.xiaomimimo.com" (Some "mimo-v2.5") true.

Definition META_MUSE_PROFILE : OpenAiCompatibleProfile :=
  mk_profile "meta-muse" "Meta Model API" "https://api.meta.ai/v1" "META_MUSE_API_KEY"
    "meta-muse.env" "https://dev.meta.ai/" (Some "muse-spark-1.2") true.

Definition CELERIS_PROFILE : OpenAiCompatibleProfile :=
  mk_profile "celeris" "Celeris" "https://inference.celeris.ai/celeris-1/v1" "CELERIS_API_KEY"
    "celeris.env" "https://docs.celeris.ai/" (Some "celeris-1") true.

Definition OPENAI_COMPAT_PROFILE : OpenAiCompatibleProfile :=
  mk_profile "openai-compatible" "OpenAI-compatible" "https://api.openai.com/v1" "OPENAI_COMPAT_API_KEY"
    "openai-compatible.env" "https://github.com/Arclude/Arterm-CLI#openai-compatible-providers" None true.

Definition OPENAI_COMPAT_PROFILES : list OpenAiCompatibleProfile :=
  [OPENCODE_PROFILE; OPENCODE_GO_PROFILE; ZAI_PROFILE; KIMI_PROFILE; CHUTES_PROFILE;
   CEREBRAS_PROFILE; ALIBABA_CODING_PLAN_PROFILE; AI302_PROFILE; BASETEN_PROFILE; CORTECS_PROFILE;
   OPENROUTER_OPENAI_COMPAT_PROFILE; ANTHROPIC_OPENAI_COMPAT_PROFILE;
   OPENAI_NATIVE_OPENAI_COMPAT_PROFILE; GEMINI_OPENAI_COMPAT_PROFILE; DEEPSEEK_PROFILE;
   COMTEGRA_PROFILE; FPT_PROFILE; FIRMWARE_PROFILE; HUGGING_FACE_PROFILE; MOONSHOT_PROFILE;
   NEBIUS_PROFILE; SCALEWAY_PROFILE; STACKIT_PROFILE; GROQ_PROFILE; MISTRAL_PROFILE;
   PERPLEXITY_PROFILE; TOGETHER_AI_PROFILE; DEEPINFRA_PROFILE; FIREWORKS_PROFILE; MINIMAX_PROFILE;
   XAI_PROFILE; NVIDIA_NIM_PROFILE; XIAOMI_MIMO_PROFILE; META_MUSE_PROFILE; CELERIS_PROFILE;
   LMSTUDIO_PROFILE; OLLAMA_PROFILE; OPENAI_COMPAT_PROFILE].

Definition CLAUDE_LOGIN_PROVIDER : LoginProviderDescriptor :=
  mk_login "claude" "Anthropic/Claude" Kind_OAuth State_Anthropic
    "OAuth" ["anthropic"]
    "requires Claude Pro or Max subscription" true Target_Claude
    (mk_order (Some 1) (Some 1) (Some 1) (Some 1) (Some 1)).

Definition ANTHROPIC_API_LOGIN_PROVIDER : LoginProviderDescriptor :=
  mk_login "anthropic-api" "Anthropic API" Kind_ApiKey State_Anthropic
    "API key" ["claude-api"; "anthropic-key"; "claude-key"]
    "direct Anthropic Messages API" false Target_ClaudeApiKey
    (mk_order (Some 2) (Some 2) (Some 2) (Some 2) (Some 2)).

Definition AUTO_IMPORT_LOGIN_PROVIDER : LoginProviderDescriptor :=
  mk_login "auto-import" "Auto Import" Kind_Local State_ExternalImport
    "Reuse detected logins" ["import"; "reuse"; "autoimport"]
    "review and reuse logins from other tools" false Target_AutoImport
    (mk_order (Some 1) (Some 1) None None None).

Definition ARTERM_LOGIN_PROVIDER : LoginProviderDescriptor :=
  mk_login "arterm" "Arterm Subscription" Kind_ApiKey State_Arterm
    "API key" ["subscription"; "arterm-subscription"]
    "curated arterm subscription models" false Target_Arterm
    (mk_order (Some 3) (Some 3) (Some 3) (Some 3) (Some 3)).

Definition OPENAI_LOGIN_PROVIDER : LoginProviderDescriptor :=
  mk_login "openai" "OpenAI" Kind_OAuth State_OpenAi
    "OAuth" []
    "requires ChatGPT Plus or Pro subscription" true Target_OpenAi
    (mk_order (Some 2) (Some 2) (Some 2) (Some 2) (Some 2)).

Definition OPENAI_API_LOGIN_PROVIDER : LoginProviderDescriptor :=
  mk_login "openai-api" "OpenAI API" Kind_ApiKey State_OpenAi
    "API key" ["openai-key"; "openai-apikey"; "openai-platform"; "platform-openai"]
    "native OpenAI API key, pay-per-token" false Target_OpenAiApiKey
    (mk_order (Some 99) (Some 99) (Some 99) (Some 99) (Some 99)).

Definition OPENROUTER_LOGIN_PROVIDER : LoginProviderDescriptor :=
  mk_login "openrouter" "OpenRouter" Kind_ApiKey State_OpenRouterLike
    "API key" []
    "API key, pay-per-token, 200+ models" false Target_OpenRouter
    (mk_order (Some 4) (Some 3) (Some 4) (Some 3) (Some 3)).

Definition BEDROCK_LOGIN_PROVIDER : LoginProviderDescriptor :=
  mk_login "bedrock" "AWS Bedrock" Kind_ApiKey State_Bedrock
    "API key / AWS credentials" ["aws-bedrock"; "aws_bedrock"]
    "Bedrock API key or AWS credentials, pay-per-token" false Target_Bedrock
    (mk_order (Some 5) (Some 4) None None (Some 4)).

Definition AZURE_LOGIN_PROVIDER : LoginProviderDescriptor :=
  mk_login "azure" "Azure OpenAI" Kind_Hybrid State_Azure
    "Entra ID / API key" ["azure-openai"; "azure_openai"; "aoai"]
    "Microsoft Entra ID or Azure OpenAI API key" false Target_Azure
    (mk_order (Some 5) (Some 5) None None (Some 4)).

Definition OPENCODE_LOGIN_PROVIDER : LoginProviderDescriptor :=
  mk_login "opencode" "OpenCode Zen" Kind_ApiKey State_OpenRouterLike
    "API key" ["opencode-zen"; "zen"]
    "API key" false (Target_OpenAiCompatible OPENCODE_PROFILE)
    (mk_order (Some 5) (Some 4) (Some 5) (Some 4) (Some 4)).

Definition OPENCODE_GO_LOGIN_PROVIDER : LoginProviderDescriptor :=
  mk_login "opencode-go" "OpenCode Go" Kind_ApiKey State_OpenRouterLike
    "API key" ["opencodego"]
    "API key" false (Target_OpenAiCompatible OPENCODE_GO_PROFILE)
    (mk_order (Some 6) (Some 5) (Some 6) (Some 5) (Some 5)).

Definition ZAI_LOGIN_PROVIDER : LoginProviderDescriptor :=
  mk_login "zai" "Z.AI" Kind_ApiKey State_OpenRouterLike
    "API key" ["z.ai"; "z-ai"; "zai-coding"; "zhipu"]
    "API key" false (Target_OpenAiCompatible ZAI_PROFILE)
    (mk_order (Some 7) (Some 6) (Some 7) (Some 6) (Some 6)).

Definition KIMI_LOGIN_PROVIDER : LoginProviderDescriptor :=
  mk_login "kimi" "Kimi Code" Kind_ApiKey State_OpenRouterLike
    "API key" ["kimi-code"; "kimi-coding"; "kimi-coding-plan"; "kimi-for-coding"; "moonshot-coding"]
    "API key, dedicated Kimi coding endpoint" false (Target_OpenAiCompatible KIMI_PROFILE)
    (mk_order (Some 36) (Some 36) (Some 36) (Some 36) (Some 36)).

Definition CHUTES_LOGIN_PROVIDER : LoginProviderDescriptor :=
  mk_login "chutes" "Chutes" Kind_ApiKey State_OpenRouterLike
    "API key" []
    "API key" false (Target_OpenAiCompatible CHUTES_PROFILE)
    (mk_order (Some 8) (Some 7) (Some 8) (Some 7) (Some 7)).

Definition CEREBRAS_LOGIN_PROVIDER : LoginProviderDescriptor :=
  mk_login "cerebras" "Cerebras" Kind_ApiKey State_OpenRouterLike
    "API key" ["cerebrascode"; "cerberascode"]
    "API key" false (Target_OpenAiCompatible CEREBRAS_PROFILE)
    (mk_order (Some 9) (Some 8) (Some 9) (Some 8) (Some 8)).

Definition ALIBABA_CODING_PLAN_LOGIN_PROVIDER : LoginProviderDescriptor :=
  mk_login "alibaba-coding-plan" "Alibaba Cloud Coding Plan" Kind_ApiKey State_OpenRouterLike
    "API key" ["bailian"; "aliyun-bailian"; "coding-plan"; "alibaba-coding"]
    "API key, dedicated Alibaba coding endpoint" false (Target_OpenAiCompatible ALIBABA_CODING_PLAN_PROFILE)
    (mk_order (Some 10) (Some 9) (Some 10) (Some 9) (Some 9)).

Definition AI302_LOGIN_PROVIDER : LoginProviderDescriptor :=
  mk_login "302ai" "302.AI" Kind_ApiKey State_OpenRouterLike
    "API key" ["302.ai"]
    "API key" false (Target_OpenAiCompatible AI302_PROFILE)
    (mk_order (Some 18) (Some 18) (Some 18) (Some 18) (Some 18)).

Definition BASETEN_LOGIN_PROVIDER : LoginProviderDescriptor :=
  mk_login "baseten" "Baseten" Kind_ApiKey State_OpenRouterLike
    "API key" []
    "API key" false (Target_OpenAiCompatible BASETEN_PROFILE)
    (mk_order (Some 19) (Some 19) (Some 19) (Some 19) (Some 19)).

Definition CORTECS_LOGIN_PROVIDER : LoginProviderDescriptor :=
  mk_login "cortecs" "Cortecs" Kind_ApiKey State_OpenRouterLike
    "API key" []
    "API key" false (Target_OpenAiCompatible CORTECS_PROFILE)
    (mk_order (Some 20) (Some 20) (Some 20) (Some 20) (Some 20)).

Definition DEEPSEEK_LOGIN_PROVIDER : LoginProviderDescriptor :=
  mk_login "deepseek" "DeepSeek" Kind_ApiKey State_OpenRouterLike
    "API key" []
    "API key" false (Target_OpenAiCompatible DEEPSEEK_PROFILE)
    (mk_order (Some 21) (Some 21) (Some 21) (Some 21) (Some 21)).

Definition COMTEGRA_LOGIN_PROVIDER : LoginProviderDescriptor :=
  mk_login "comtegra" "Comtegra GPU Cloud" Kind_ApiKey State_OpenRouterLike
    "API key" ["cgc"; "comtegra-gpu-cloud"]
    "OpenAI-compatible LLM API" false (Target_OpenAiCompatible COMTEGRA_PROFILE)
    (mk_order (Some 22) (Some 22) (Some 22) (Some 22) (Some 22)).

Definition FPT_LOGIN_PROVIDER : LoginProviderDescriptor :=
  mk_login "fpt" "FPT AI Marketplace" Kind_ApiKey State_OpenRouterLike
    "API key" ["fpt-ai"; "fptcloud"; "fpt-cloud"]
    "OpenAI-compatible FPT AI Marketplace API" false (Target_OpenAiCompatible FPT_PROFILE)
    (mk_order (Some 23) (Some 23) (Some 23) (Some 23) (Some 23)).

Definition FIRMWARE_LOGIN_PROVIDER : LoginProviderDescriptor :=
  mk_login "firmware" "Firmware" Kind_ApiKey State_OpenRouterLike
    "API key" []
    "API key" false (Target_OpenAiCompatible FIRMWARE_PROFILE)
    (mk_order (Some 24) (Some 24) (Some 24) (Some 24) (Some 24)).

Definition HUGGING_FACE_LOGIN_PROVIDER : LoginProviderDescriptor :=
  mk_login "huggingface" "Hugging Face" Kind_ApiKey State_OpenRouterLike
    "API key" ["hugging-face"; "hf"]
    "API key" false (Target_OpenAiCompatible HUGGING_FACE_PROFILE)
    (mk_order (Some 25) (Some 25) (Some 25) (Some 25) (Some 25)).

Definition MOONSHOT_LOGIN_PROVIDER : LoginProviderDescriptor :=
  mk_login "moonshotai" "Moonshot AI" Kind_ApiKey State_OpenRouterLike
    "API key" ["moonshot"]
    "API key" false (Target_OpenAiCompatible MOONSHOT_PROFILE)
    (mk_order (Some 26) (Some 26) (Some 26) (Some 26) (Some 26)).

Definition NEBIUS_LOGIN_PROVIDER : LoginProviderDescriptor :=
  mk_login "nebius" "Nebius Token Factory" Kind_ApiKey State_OpenRouterLike
    "API key" []
    "API key" false (Target_OpenAiCompatible NEBIUS_PROFILE)
    (mk_order (Some 27) (Some 27) (Some 27) (Some 27) (Some 27)).

Definition SCALEWAY_LOGIN_PROVIDER : LoginProviderDescriptor :=
  mk_login "scaleway" "Scaleway" Kind_ApiKey State_OpenRouterLike
    "API key" []
    "API key" false (Target_OpenAiCompatible SCALEWAY_PROFILE)
    (mk_order (Some 28) (Some 28) (Some 28) (Some 28) (Some 28)).

Definition STACKIT_LOGIN_PROVIDER : LoginProviderDescriptor :=
  mk_login "stackit" "STACKIT" Kind_ApiKey State_OpenRouterLike
    "API key" []
    "API key" false (Target_OpenAiCompatible STACKIT_PROFILE)
    (mk_order (Some 29) (Some 29) (Some 29) (Some 29) (Some 29)).

Definition GROQ_LOGIN_PROVIDER : LoginProviderDescriptor :=
  mk_login "groq" "Groq" Kind_ApiKey State_OpenRouterLike
    "API key" []
    "API key" false (Target_OpenAiCompatible GROQ_PROFILE)
    (mk_order (Some 30) (Some 30) (Some 30) (Some 30) (Some 30)).

Definition MISTRAL_LOGIN_PROVIDER : LoginProviderDescriptor :=
  mk_login "mistral" "Mistral" Kind_ApiKey State_OpenRouterLike
    "API key" ["mistralai"]
    "API key" false (Target_OpenAiCompatible MISTRAL_PROFILE)
    (mk_order (Some 29) (Some 29) (Some 29) (Some 29) (Some 29)).

Definition PERPLEXITY_LOGIN_PROVIDER : LoginProviderDescriptor :=
  mk_login "perplexity" "Perplexity" Kind_ApiKey State_OpenRouterLike
    "API key" ["pplx"]
    "API key" false (Target_OpenAiCompatible PERPLEXITY_PROFILE)
    (mk_order (Some 30) (Some 30) (Some 30) (Some 30) (Some 30)).

Definition TOGETHER_AI_LOGIN_PROVIDER : LoginProviderDescriptor :=
  mk_login "togetherai" "Together AI" Kind_ApiKey State_OpenRouterLike
    "API key" ["together"; "together-ai"]
    "API key" false (Target_OpenAiCompatible TOGETHER_AI_PROFILE)
    (mk_order (Some 31) (Some 31) (Some 31) (Some 31) (Some 31)).

Definition DEEPINFRA_LOGIN_PROVIDER : LoginProviderDescriptor :=
  mk_login "deepinfra" "Deep Infra" Kind_ApiKey State_OpenRouterLike
    "API key" ["deep-infra"]
    "API key" false (Target_OpenAiCompatible DEEPINFRA_PROFILE)
    (mk_order (Some 32) (Some 32) (Some 32) (Some 32) (Some 32)).

Definition FIREWORKS_LOGIN_PROVIDER : LoginProviderDescriptor :=
  mk_login "fireworks" "Fireworks" Kind_ApiKey State_OpenRouterLike
    "API key" ["fireworks-ai"; "fireworks.ai"]
    "API key" false (Target_OpenAiCompatible FIREWORKS_PROFILE)
    (mk_order (Some 37) (Some 37) (Some 37) (Some 37) (Some 37)).

Definition MINIMAX_LOGIN_PROVIDER : LoginProviderDescriptor :=
  mk_login "minimax" "MiniMax" Kind_ApiKey State_OpenRouterLike
    "API key" ["minimaxi"; "minimax-ai"]
    "API key" false (Target_OpenAiCompatible MINIMAX_PROFILE)
    (mk_order (Some 38) (Some 38) (Some 38) (Some 38) (Some 38)).

Definition XAI_LOGIN_PROVIDER : LoginProviderDescriptor :=
  mk_login "xai" "xAI" Kind_ApiKey State_OpenRouterLike
    "API key" ["x.ai"; "x-ai"; "grok"]
    "API key" false (Target_OpenAiCompatible XAI_PROFILE)
    (mk_order (Some 33) (Some 33) (Some 33) (Some 33) (Some 33)).

Definition XAI_OAUTH_LOGIN_PROVIDER : LoginProviderDescriptor :=
  mk_login "xai-oauth" "xAI (Grok subscription)" Kind_DeviceCode State_OpenRouterLike
    "Grok subscription" ["grok-oauth"; "xai-grok"; "grok-login"]
    "Sign in with SuperGrok or X Premium+" false (Target_OpenAiCompatible XAI_PROFILE)
    (mk_order (Some 32) (Some 32) None None (Some 32)).

Definition NVIDIA_NIM_LOGIN_PROVIDER : LoginProviderDescriptor :=
  mk_login "nvidia-nim" "NVIDIA NIM" Kind_ApiKey State_OpenRouterLike
    "API key" ["nvidia"; "nim"]
    "API key" false (Target_OpenAiCompatible NVIDIA_NIM_PROFILE)
    (mk_order (Some 34) (Some 34) (Some 34) (Some 34) (Some 34)).

Definition LMSTUDIO_LOGIN_PROVIDER : LoginProviderDescriptor :=
  mk_login "lmstudio" "LM Studio" Kind_Local State_OpenRouterLike
    "local endpoint" ["lm-studio"]
    "local OpenAI-compatible endpoint" false (Target_OpenAiCompatible LMSTUDIO_PROFILE)
    (mk_order (Some 34) (Some 34) (Some 34) (Some 34) (Some 34)).

Definition OLLAMA_LOGIN_PROVIDER : LoginProviderDescriptor :=
  mk_login "ollama" "Ollama" Kind_Local State_OpenRouterLike
    "local endpoint" []
    "local OpenAI-compatible endpoint" false (Target_OpenAiCompatible OLLAMA_PROFILE)
    (mk_order (Some 35) (Some 35) (Some 35) (Some 35) (Some 35)).

Definition OPENAI_COMPAT_LOGIN_PROVIDER : LoginProviderDescriptor :=
  mk_login "openai-compatible" "OpenAI-compatible" Kind_Hybrid State_OpenRouterLike
    "API key / local endpoint" ["openai_compatible"; "compat"; "custom"]
    "custom endpoint setup: base URL first, then API key" false (Target_OpenAiCompatible OPENAI_COMPAT_PROFILE)
    (mk_order (Some 10) (Some 9) None None (Some 9)).

Definition CURSOR_LOGIN_PROVIDER : LoginProviderDescriptor :=
  mk_login "cursor" "Cursor" Kind_Hybrid State_Cursor
    "API key / CLI" []
    "browser login or API key" false Target_Cursor
    (mk_order (Some 11) (Some 12) None (Some 9) (Some 12)).

Definition COPILOT_LOGIN_PROVIDER : LoginProviderDescriptor :=
  mk_login "copilot" "GitHub Copilot" Kind_DeviceCode State_Copilot
    "device code" []
    "GitHub device flow" false Target_Copilot
    (mk_order (Some 3) (Some 10) (Some 3) (Some 10) (Some 10)).

Definition GEMINI_LOGIN_PROVIDER : LoginProviderDescriptor :=
  mk_login "gemini" "Google Gemini" Kind_OAuth State_Gemini
    "OAuth" []
    "Google Gemini Code Assist OAuth login" false Target_Gemini
    (mk_order (Some 13) (Some 11) (Some 4) (Some 11) (Some 13)).

Definition GEMINI_API_LOGIN_PROVIDER : LoginProviderDescriptor :=
  mk_login "gemini-api" "Gemini API" Kind_ApiKey State_OpenRouterLike
    "API key" ["gemini-key"; "gemini-apikey"; "google-ai-studio"; "ai-studio"]
    "Google AI Studio Developer API key (OpenAI-compatible)" false (Target_OpenAiCompatible GEMINI_OPENAI_COMPAT_PROFILE)
    (mk_order (Some 38) (Some 38) (Some 38) (Some 38) (Some 38)).

Definition ANTIGRAVITY_LOGIN_PROVIDER : LoginProviderDescriptor :=
  mk_login "antigravity" "Antigravity" Kind_OAuth State_Antigravity
    "OAuth" []
    "Google Antigravity OAuth login" false Target_Antigravity
    (mk_order (Some 12) (Some 12) None (Some 12) (Some 12)).

Definition XIAOMI_MIMO_LOGIN_PROVIDER : LoginProviderDescriptor :=
  mk_login "xiaomi-mimo" "Xiaomi MiMo" Kind_ApiKey State_OpenRouterLike
    "API key" ["xiaomi"; "mimo"; "xiaomi-mimo-api"]
    "OpenAI-compatible Xiaomi MiMo API" false (Target_OpenAiCompatible XIAOMI_MIMO_PROFILE)
    (mk_order (Some 37) (Some 37) (Some 37) (Some 37) (Some 37)).

Definition META_MUSE_LOGIN_PROVIDER : LoginProviderDescriptor :=
  mk_login "meta-muse" "Meta Model API" Kind_ApiKey State_OpenRouterLike
    "API key" ["meta"; "muse"; "muse-spark"; "meta-model-api"; "meta-ai"]
    "OpenAI-compatible Meta Model API" false (Target_OpenAiCompatible META_MUSE_PROFILE)
    (mk_order (Some 38) (Some 38) (Some 38) (Some 38) (Some 38)).

Definition CELERIS_LOGIN_PROVIDER : LoginProviderDescriptor :=
  mk_login "celeris" "Celeris" Kind_ApiKey State_OpenRouterLike
    "API key" ["celeris-ai"; "celeris1"; "celeris-1"]
    "OpenAI-compatible low-latency Celeris API" false (Target_OpenAiCompatible CELERIS_PROFILE)
    (mk_order (Some 38) (Some 38) (Some 38) (Some 38) (Some 38)).

Definition GOOGLE_LOGIN_PROVIDER : LoginProviderDescriptor :=
  mk_login "google" "Google/Gmail" Kind_OAuth State_Google
    "OAuth" ["gmail"]
    "read, draft, and send emails" false Target_Google
    (mk_order (Some 13) None None None None).

Definition LOGIN_PROVIDERS : list LoginProviderDescriptor :=
  [AUTO_IMPORT_LOGIN_PROVIDER; CLAUDE_LOGIN_PROVIDER; ANTHROPIC_API_LOGIN_PROVIDER;
   OPENAI_LOGIN_PROVIDER; OPENAI_API_LOGIN_PROVIDER; ARTERM_LOGIN_PROVIDER;
   OPENROUTER_LOGIN_PROVIDER; BEDROCK_LOGIN_PROVIDER; AZURE_LOGIN_PROVIDER; OPENCODE_LOGIN_PROVIDER;
   OPENCODE_GO_LOGIN_PROVIDER; ZAI_LOGIN_PROVIDER; KIMI_LOGIN_PROVIDER; CHUTES_LOGIN_PROVIDER;
   CEREBRAS_LOGIN_PROVIDER; ALIBABA_CODING_PLAN_LOGIN_PROVIDER; AI302_LOGIN_PROVIDER;
   BASETEN_LOGIN_PROVIDER; CORTECS_LOGIN_PROVIDER; DEEPSEEK_LOGIN_PROVIDER; COMTEGRA_LOGIN_PROVIDER;
   FPT_LOGIN_PROVIDER; FIRMWARE_LOGIN_PROVIDER; HUGGING_FACE_LOGIN_PROVIDER;
   MOONSHOT_LOGIN_PROVIDER; NEBIUS_LOGIN_PROVIDER; SCALEWAY_LOGIN_PROVIDER; STACKIT_LOGIN_PROVIDER;
   GROQ_LOGIN_PROVIDER; MISTRAL_LOGIN_PROVIDER; PERPLEXITY_LOGIN_PROVIDER;
   TOGETHER_AI_LOGIN_PROVIDER; DEEPINFRA_LOGIN_PROVIDER; FIREWORKS_LOGIN_PROVIDER;
   MINIMAX_LOGIN_PROVIDER; XAI_OAUTH_LOGIN_PROVIDER; XAI_LOGIN_PROVIDER; NVIDIA_NIM_LOGIN_PROVIDER;
   XIAOMI_MIMO_LOGIN_PROVIDER; META_MUSE_LOGIN_PROVIDER; CELERIS_LOGIN_PROVIDER;
   LMSTUDIO_LOGIN_PROVIDER; OLLAMA_LOGIN_PROVIDER; OPENAI_COMPAT_LOGIN_PROVIDER;
   CURSOR_LOGIN_PROVIDER; COPILOT_LOGIN_PROVIDER; GEMINI_LOGIN_PROVIDER; GEMINI_API_LOGIN_PROVIDER;
   ANTIGRAVITY_LOGIN_PROVIDER; GOOGLE_LOGIN_PROVIDER].

(** ** Lookups ([lib.rs]) *)

Definition openai_compatible_profiles : list OpenAiCompatibleProfile := OPENAI_COMPAT_PROFILES.
Definition login_providers : list LoginProviderDescriptor := LOGIN_PROVIDERS.

(** The key of the sort; every provider it is applied to has an order on the surface. *)
Definition surface_rank (s : LoginProviderSurface) (p : LoginProviderDescriptor) : nat :=
  default 255 (for_surface (order p) s).

Definition login_providers_for_surface (s : LoginProviderSurface) : list LoginProviderDescriptor :=
  sort_by (λ a b, surface_rank s a <=? surface_rank s b)
    (List.filter (λ p, match for_surface (order p) s with Some _ => true | None => false end) login_providers).

Definition cli_login_providers := login_providers_for_surface CliLogin.
Definition tui_login_providers := login_providers_for_surface TuiLogin.
Definition server_bootstrap_login_providers := login_providers_for_surface ServerBootstrap.
Definition auto_init_login_providers := login_providers_for_surface AutoInit.
Definition auth_status_login_providers := login_providers_for_surface AuthStatus.

Definition normalize_provider_input (input : string) : option string :=
  let trimmed := trim input in if is_empty trimmed then None else Some (to_ascii_lowercase trimmed).

(** The provider answers to a normalized name. *)
Definition answers_to (normalized : string) (p : LoginProviderDescriptor) : bool :=
  String.eqb (login_id p) normalized || existsb (λ alias, String.eqb alias normalized) (aliases p).

Definition resolve_login_provider (input : string) : option LoginProviderDescriptor :=
  let?? normalized := normalize_provider_input input in find (answers_to normalized) login_providers.

Definition resolve_login_provider_loose (input : string) : option LoginProviderDescriptor :=
  match resolve_login_provider input with
  | Some provider => Some provider
  | None =>
      let?? normalized := normalize_provider_input input in
      find (λ p, String.eqb (to_ascii_lowercase (login_name p)) normalized) login_providers
  end.

(** [s.parse::<usize>().ok()] on a 64-bit target. *)
Definition parse_usize (s : string) : option N :=
  let digits := match s with String c s' => if Ascii.eqb c "+" then s' else s | EmptyString => s end in
  let '(value, count, rest) := read_digits 10 0 0 digits in
  if negb (count =? 0) && is_empty rest && (value <=? 18446744073709551615)%N then Some value else None.

Definition resolve_login_selection (input : string) (providers : list LoginProviderDescriptor) :
    option LoginProviderDescriptor :=
  let trimmed := trim input in
  match parse_usize trimmed with
  | Some index => if (index =? 0)%N then None else providers !! N.to_nat (index - 1)
  | None =>
      let?? provider := resolve_login_provider trimmed in
      find (λ candidate, String.eqb (login_id candidate) (login_id provider)) providers
  end.

Definition is_safe_env_key_name (name : string) : bool :=
  negb (is_empty name)
  && string_forallb (λ c, is_ascii_upper c || is_ascii_digit c || Ascii.eqb c "_") name.

Definition is_safe_env_file_name (name : string) : bool :=
  negb (is_empty name) && negb (contains_char "/" name) && negb (contains_char "\" name)
  && string_forallb (λ c, is_ascii_alphanumeric c || Ascii.eqb c "_" || Ascii.eqb c "-" || Ascii.eqb c ".") name.

(** [resolve_openai_compatible_profile_selection] (arterm-base/src/provider_catalog.rs) *)
Definition resolve_openai_compatible_profile_selection (input : string) : option OpenAiCompatibleProfile :=
  let?? provider := resolve_login_provider input in
  match target provider with Target_OpenAiCompatible profile => Some profile | _ => None end.

Definition openai_compatible_profile_id_for_display_name (display_name : string) : option string :=
  let normalized := to_ascii_lowercase (trim display_name) in
  profile_key <$> find (λ p, String.eqb (profile_key p) normalized
                             || eq_ignore_ascii_case (profile_name p) (trim display_name))
                    openai_compatible_profiles.

(** ** Names resolve *)

#[export] Instance profile_eq_dec : EqDecision OpenAiCompatibleProfile.
Proof. solve_decision. Defined.

#[export] Instance auth_kind_eq_dec : EqDecision LoginProviderAuthKind.
Proof. solve_decision. Defined.

#[export] Instance auth_state_eq_dec : EqDecision LoginProviderAuthStateKey.
Proof. solve_decision. Defined.

#[export] Instance target_eq_dec : EqDecision LoginProviderTarget.
Proof. solve_decision. Defined.

#[export] Instance order_eq_dec : EqDecision LoginProviderSurfaceOrder.
Proof. solve_decision. Defined.

#[export] Instance descriptor_eq_dec : EqDecision LoginProviderDescriptor.
Proof. solve_decision. Defined.

(** Each id and alias is answered by its own provider first. *)
Lemma names_answered :
  forallb (λ p, forallb (λ n, bool_decide (find (answers_to n) login_providers = Some p) && negb (is_empty n))
                  (login_id p :: aliases p)) login_providers = true.
Proof. by vm_compute. Qed.

(** Each display name is answered by its own provider, unless it is an id or alias, which is then the
    provider's own. *)
Lemma labels_answered :
  forallb (λ p, bool_decide (find (λ q, String.eqb (to_ascii_lowercase (login_name q))
                                          (to_ascii_lowercase (login_name p))) login_providers = Some p)
                && match find (answers_to (to_ascii_lowercase (login_name p))) login_providers with
                   | Some q => bool_decide (q = p) | None => true end
                && negb (is_empty (login_name p))) login_providers = true.
Proof. by vm_compute. Qed.

(** Every login provider is found by each of its names: its id and its aliases, in any case and
    padded, resolve to it and to no other provider of the catalog, and its display name does so where
    labels are accepted. *)
Theorem login_names_resolve (p : LoginProviderDescriptor) (s : string) :
  p ∈ login_providers →
  (to_ascii_lowercase (trim s) ∈ login_id p :: aliases p → resolve_login_provider s = Some p)
  ∧ (eq_ignore_ascii_case (trim s) (login_name p) = true → resolve_login_provider_loose s = Some p).
Proof.
  intros Hp.
  assert (∀ n, to_ascii_lowercase (trim s) = n → n ≠ "" → normalize_provider_input s = Some n) as Hnorm.
  { intros n <- Hne. unfold normalize_provider_input. destruct (is_empty (trim s)) eqn:E; [|done].
    apply is_empty_true in E. by rewrite E in Hne. }
  split.
  - intros Hn. pose proof (proj1 (forallb_elem _ _) names_answered p Hp) as H.
    pose proof (proj1 (forallb_elem _ _) H _ Hn) as [Hf%bool_decide_eq_true Hne%negb_true_iff]%andb_true_iff.
    unfold resolve_login_provider. by rewrite (Hnorm _ eq_refl) by by apply is_empty_false.
  - intros Hn%String.eqb_eq. pose proof (proj1 (forallb_elem _ _) labels_answered p Hp) as H.
    apply andb_true_iff in H as [[Hf%bool_decide_eq_true Hq]%andb_true_iff Hne%negb_true_iff].
    rewrite <- Hn in Hf, Hq.
    assert (to_ascii_lowercase (trim s) ≠ "") as Hlow.
    { rewrite Hn. apply is_empty_false in Hne. by destruct (login_name p). }
    unfold resolve_login_provider_loose, resolve_login_provider. rewrite (Hnorm _ eq_refl Hlow).
    destruct (find (answers_to _) login_providers) as [q|].
    + by apply bool_decide_eq_true in Hq as ->.
    + exact Hf.
Qed.

Lemma login_names_resolve_witness :
  resolve_login_provider " Claude-API " = Some ANTHROPIC_API_LOGIN_PROVIDER
  ∧ resolve_login_provider_loose "anthropic api" = Some ANTHROPIC_API_LOGIN_PROVIDER.
Proof.
  assert (ANTHROPIC_API_LOGIN_PROVIDER ∈ login_providers) as Hin by by apply (list_elem_of_lookup_2 _ 2).
  split.
  - apply (proj1 (login_names_resolve ANTHROPIC_API_LOGIN_PROVIDER " Claude-API " Hin)). apply (list_elem_of_lookup_2 _ 1). by vm_compute.
  - apply (proj2 (login_names_resolve ANTHROPIC_API_LOGIN_PROVIDER "anthropic api" Hin)). by vm_compute.
Defined.
