(* ===== verification/SessionRoute.v ===== *)
(** * The route a session remembers (crates/arterm-base/src/provider/selection.rs and mod.rs,
      session.rs, arterm-app-core/src/agent/provider.rs)

    A session stores its model, a provider key and the API method of a picked route.  A switch of
    model writes them, a restore turns them back into a model request, and [set_model] reads the
    request.  The user's named profiles ([config().providers]) and the environment are parameters. *)

From S2P Require Export ProviderRoutes ProviderCatalog.

(** ** Keys from provider names *)

(** [session_provider_key_from_provider_name] *)
Definition session_provider_key_from_provider_name (provider_name : string) : option string :=
  let n := to_ascii_lowercase (trim provider_name) in
  if String.eqb n "arterm" then Some "arterm"
  else if one_of ["anthropic"; "claude"; "claude cli"] n then Some "claude"
  else if String.eqb n "openai" then Some "openai"
  else if one_of ["github copilot"; "copilot"] n then Some "copilot"
  else if String.eqb n "openrouter" then Some "openrouter"
  else if String.eqb n "cursor" then Some "cursor"
  else if one_of ["gemini"; "google"] n then Some "gemini"
  else if String.eqb n "antigravity" then Some "antigravity"
  else if one_of ["bedrock"; "aws bedrock"] n then Some "bedrock"
  else None.

(** [canonical_session_provider_key] *)
Definition canonical_session_provider_key (provider_key : string) : string :=
  match parse_route provider_key with
  | Some route => session_provider_key route
  | None => trim provider_key
  end.

(** The keys a session spells like the request prefix. *)
Definition PLAIN_KEYS : list string :=
  ["copilot"; "antigravity"; "gemini"; "cursor"; "bedrock"; "openrouter"].

Section session.
(** The keys of [config().providers], and [std::env::var(..).ok()]. *)
Context (config_providers : gset string) (env : string → option string).

(** A set environment variable, trimmed and in lower case, unless that leaves nothing. *)
Definition env_key (name : string) : option string :=
  let?? value := env name in
  let value := to_ascii_lowercase (trim value) in if is_empty value then None else Some value.

(** The last [match] of [derive_session_provider_key]. *)
Definition session_key_fallback (normalized_name : string) : option string :=
  if one_of ["anthropic"; "claude"; "claude cli"] normalized_name then Some "claude"
  else if one_of ["github copilot"; "copilot"] normalized_name then Some "copilot"
  else if is_empty normalized_name then None
  else Some normalized_name.

(** [or_else] along a list of attempts. *)
Fixpoint first_some {A} (attempts : list (option A)) : option A :=
  match attempts with [] => None | Some a :: _ => Some a | None :: rest => first_some rest end.

Definition derive_session_provider_key (provider_name : string) : option string :=
  let n := to_ascii_lowercase (trim provider_name) in
  if String.eqb n "arterm" then Some "arterm"
  else first_some
         [let?? runtime := env_key "ARTERM_RUNTIME_PROVIDER" in
            if String.eqb runtime "openai-compatible" then None else Some runtime;
          env_key "ARTERM_OPENROUTER_CACHE_NAMESPACE"; env_key "ARTERM_ACTIVE_PROVIDER";
          session_key_fallback n].

(** [resolve_openai_compatible_profile_selection(p).is_some() || config().providers.contains_key(p)] *)
Definition known_profile (p : string) : bool :=
  match resolve_openai_compatible_profile_selection p with Some _ => true | None => false end
  || bool_decide (p ∈ config_providers).

(** ** Writing the key *)

(** [explicit_session_provider_key_for_model_request] *)
Definition explicit_session_provider_key (model_request : string) : option string :=
  let model_request := trim model_request in
  let from_prefix :=
    let?? (prefix, rest) := split_once ":" model_request in
    let prefix := trim prefix in
    if is_empty prefix || is_empty (trim rest) then None
    else match parse_route prefix with
         | Some route => Some (session_provider_key route)
         | None => if one_of PLAIN_KEYS prefix || known_profile prefix then Some prefix else None
         end in
  match from_prefix with
  | Some key => Some key
  | None => if contains_char "@" model_request then Some "openrouter" else None
  end.

(** The key of the provider's name, or of the environment. *)
Definition named_key (provider_name : string) : option string :=
  first_some [session_provider_key_from_provider_name provider_name; derive_session_provider_key provider_name].

Definition session_provider_key_for_model_request (model_request provider_name : string) : option string :=
  first_some [explicit_session_provider_key model_request; named_key provider_name].

Definition session_provider_key_matches_provider_name (provider_key provider_name : string) : bool :=
  let provider_key := canonical_session_provider_key (trim provider_key) in
  match named_key provider_name with
  | None => false
  | Some derived =>
      if String.eqb derived "claude" then one_of ["claude"; "claude-oauth"; "claude-api"; "anthropic"] provider_key
      else if String.eqb derived "openai" then one_of ["openai"; "openai-oauth"; "openai-api"] provider_key
      else if String.eqb derived "openrouter" then
        String.eqb provider_key "openrouter" || known_profile provider_key
      else String.eqb provider_key derived
  end.

Definition session_provider_key_after_model_switch (model_request provider_name : string)
    (previous_provider_key : option string) : option string :=
  match explicit_session_provider_key model_request with
  | Some key => Some key
  | None =>
      let kept :=
        let?? previous := previous_provider_key in
        let previous := trim previous in
        if negb (is_empty previous) && session_provider_key_matches_provider_name previous provider_name
        then Some previous else None in
      first_some [kept; named_key provider_name]
  end.

(** ** Rebuilding the request *)

Definition model_switch_request_for_session_model (model : string) (provider_key : option string) : string :=
  let model := trim model in
  let keyed :=
    let?? key := provider_key in let key := trim key in if is_empty key then None else Some key in
  let prefixed_profile :=
    match split_once ":" model with
    | Some (prefix, rest) =>
        let prefix := trim prefix in
        negb (is_empty prefix) && negb (is_empty (trim rest)) && known_profile prefix
    | None => false
    end in
  if is_empty model then ""
  else if match explicit_model_provider_prefix model with Some _ => true | None => false end then model
  else if contains_char "@" model then "openrouter:" +:+ model
  else if prefixed_profile then model
  else match keyed with
       | None => model
       | Some key =>
           match parse_explicit_credential_prefix key with
           | Some route => model_prefix route +:+ ":" +:+ model
           | None =>
               match parse_route key with
               | Some route => bare_model_prefix (route_provider route) +:+ ":" +:+ model
               | None =>
                   let key := canonical_session_provider_key key in
                   if one_of PLAIN_KEYS key || known_profile key then key +:+ ":" +:+ model else model
               end
           end
       end.

Definition model_switch_request_for_session_route (model : string) (provider_key route_api_method : option string) :
    string :=
  let model := trim model in
  let by_key := model_switch_request_for_session_model model provider_key in
  if is_empty model then ""
  else if match explicit_model_provider_prefix model with Some _ => false | None => contains_char "@" model end
  then "openrouter:" +:+ model
  else match (let?? m := route_api_method in let m := trim m in if is_empty m then None else Some m) with
       | None => by_key
       | Some api_method =>
           match parse_method api_method with
           | ArtermSubscription => model
           | ClaudeOAuth => "claude-oauth:" +:+ model
           | AnthropicApiKey => "claude-api:" +:+ model
           | OpenAIOAuth => "openai-oauth:" +:+ model
           | OpenAIApiKey => "openai-api:" +:+ model
           | OpenRouter => "openrouter:" +:+ model
           | OpenAiCompatible (Some profile_id) => profile_id +:+ ":" +:+ model
           | Copilot => "copilot:" +:+ model
           | Cursor => "cursor:" +:+ model
           | Bedrock => "bedrock:" +:+ model
           | AntigravityHttps => "antigravity:" +:+ model
           | OpenAiCompatible None | CodeAssistOAuth | RemoteCatalog | Current | Other _ => by_key
           end
       end.

(** ** Reading a request: the prefix branches of [MultiProvider::set_model] *)

Inductive RequestTarget :=
  | ToProfile (profile : OpenAiCompatibleProfile) (model : string)
  | ToNamedProfile (name model : string)
  | ToProvider (provider : ActiveProvider) (pinned : option AuthRoute) (model : string)
  | Unprefixed (model : string).

Definition openai_compatible_profile_by_id (id : string) : option OpenAiCompatibleProfile :=
  find (λ p, String.eqb (profile_key p) (to_ascii_lowercase (trim id))) openai_compatible_profiles.

Definition openai_compatible_model_prefix (model : string) : option (OpenAiCompatibleProfile * string) :=
  let?? (prefix, rest) := split_once ":" model in
  match explicit_model_provider_prefix model with
  | Some _ => None
  | None =>
      let rest := trim rest in
      if is_empty rest then None
      else let?? profile := openai_compatible_profile_by_id prefix in Some (profile, rest)
  end.

Definition named_provider_profile_model_prefix (model : string) : option (string * string) :=
  let?? (prefix, rest) := split_once ":" model in
  match explicit_model_provider_prefix model, openai_compatible_model_prefix model with
  | None, None =>
      let prefix := trim prefix in
      let rest := trim rest in
      if is_empty prefix || is_empty rest then None
      else if bool_decide (prefix ∈ config_providers) then Some (prefix, rest) else None
  | _, _ => None
  end.

(** [None] is the error for an empty model. *)
Definition request_target (model : string) : option RequestTarget :=
  let requested := trim model in
  if is_empty requested then None
  else match openai_compatible_model_prefix requested with
       | Some (profile, target_model) => Some (ToProfile profile target_model)
       | None =>
           match named_provider_profile_model_prefix requested with
           | Some (name, target_model) => Some (ToNamedProfile name target_model)
           | None =>
               match explicit_model_provider_prefix requested with
               | Some (target, prefix, target_model) =>
                   Some (ToProvider target (parse_explicit_credential_prefix prefix) target_model)
               | None => Some (Unprefixed requested)
               end
           end
       end.

(** ** The session's route *)

Record SessionRoute := mk_session {
  session_model : option string; session_key : option string; session_api_method : option string }.

(** The session after [Agent::set_model] accepted a request; [resolved] is the model the provider
    then reports, [provider_name] its name. *)
Definition after_set_model (request provider_name resolved : string) (s : SessionRoute) : SessionRoute :=
  mk_session (Some resolved) (session_provider_key_after_model_switch request provider_name (session_key s))
    (session_api_method s).

(** The session after [Agent::set_route_selection]. *)
Definition after_set_route (selection : RouteSelection) (resolved : string) (s : SessionRoute) : SessionRoute :=
  mk_session (Some resolved) (Some (stable_id (rs_runtime_key selection))) (Some (rs_api_method selection)).

(** The request with which a session is restored, when it has a model. *)
Definition restore_request (s : SessionRoute) : option string :=
  (λ model, model_switch_request_for_session_route model (session_key s) (session_api_method s))
  <$> session_model s.

(** ** Configuration *)

Inductive ConfigProviderSelection :=
  | BuiltIn (p : ActiveProvider) | ConfigProfile (id : string) | NamedProfile (name : string).

(** [ConfigProviderSelection::active_provider] *)
Definition selection_active_provider (c : ConfigProviderSelection) : ActiveProvider :=
  match c with BuiltIn p => p | _ => AP_OpenRouter end.

Definition resolve_config_provider_selection (value : string) : option ConfigProviderSelection :=
  let trimmed := trim value in
  if is_empty trimmed then None
  else match resolve_openai_compatible_profile_selection trimmed with
       | Some profile => Some (ConfigProfile (profile_key profile))
       | None =>
           if bool_decide (trimmed ∈ config_providers) then Some (NamedProfile trimmed)
           else BuiltIn <$> first_some [parse_provider_hint trimmed; route_active_provider <$> parse_route trimmed]
       end.

(** [initial_provider_from_env] *)
Definition initial_provider_from_env : option ActiveProvider :=
  let explicit := match env "ARTERM_INITIAL_PROVIDER_EXPLICIT" with
                  | Some value => one_of ["1"; "true"; "yes"; "on"] (to_ascii_lowercase (trim value))
                  | None => false
                  end in
  if negb explicit then None
  else let?? value := env "ARTERM_ACTIVE_PROVIDER" in parse_provider_hint value.
End session.

(** [config_default_provider_for_login_provider] *)
Definition config_default_provider_for_login_provider (provider : LoginProviderDescriptor) : option string :=
  match target provider with
  | Target_Claude | Target_ClaudeApiKey => Some "claude"
  | Target_OpenAi | Target_OpenAiApiKey => Some "openai"
  | Target_OpenRouter => Some "openrouter"
  | Target_Bedrock => Some "bedrock"
  | Target_OpenAiCompatible profile => Some (profile_key profile)
  | Target_Cursor => Some "cursor"
  | Target_Copilot => Some "copilot"
  | Target_Gemini => Some "gemini"
  | Target_Antigravity => Some "antigravity"
  | Target_AutoImport | Target_Arterm | Target_Azure | Target_Google => None
  end.

(** [openai_compatible_profile_id_from_route] *)
Definition openai_compatible_profile_id_from_route (api_method provider_display : string) : option string :=
  match parse_method api_method with
  | OpenAiCompatible (Some _) =>
      let?? (_, p) := split_once ":" api_method in
      let p := trim p in if is_empty p then None else Some p
  | OpenAiCompatible None => openai_compatible_profile_id_for_display_name provider_display
  | _ => None
  end.
