(* ===== verification/SessionTheorems.v ===== *)
(** * Where a restored session sends its requests *)

From S2P Require Export SessionRoute.

Section theorems.
Context (config_providers : gset string) (env : string → option string).

(** A bare model name: trimmed, not empty, with no provider prefix, pin or profile prefix of its own. *)
Definition bare_model (m : string) : Prop :=
  m ≠ "" ∧ trimmed m ∧ explicit_model_provider_prefix m = None ∧ contains_char "@" m = false
  ∧ match split_once ":" m with
    | Some (prefix, _) => known_profile config_providers (trim prefix) = false
    | None => True
    end.

(** ** Requests with one of the program's own prefixes *)

Lemma own_prefix_trimmed p prefix m :
  (p, prefix) ∈ MODEL_PREFIXES → trimmed m → trimmed (prefix +:+ m).
Proof.
  intros Hp Hm.
  assert (∃ c stem, prefix = String c stem +:+ str1 ":" ∧ solid c = true
                    ∧ lead_ws (String c stem +:+ str1 ":") = false) as (c & stem & -> & Hc & Hl).
  { exists (default ":"%char (first_char prefix)), (str_take (String.length prefix - 2) (str_drop 1 prefix)).
    unfold MODEL_PREFIXES in Hp. rewrite !elem_of_cons, elem_of_nil in Hp.
    by repeat (destruct Hp as [[= -> ->]|Hp]; [by vm_compute|]). }
  rewrite <- str_app_assoc. apply trimmed_prefixed; [done..| |].
  - by intros _.
  - right. by exists c, stem.
Qed.

(** Case analysis on a row of [MODEL_PREFIXES]. *)
Ltac prefix_rows Hp :=
  unfold MODEL_PREFIXES in Hp; rewrite !elem_of_cons, elem_of_nil in Hp;
  repeat (destruct Hp as [[= -> ->]|Hp]); [..|done].

Lemma own_prefix_explicit p prefix m :
  (p, prefix) ∈ MODEL_PREFIXES → explicit_model_provider_prefix (prefix +:+ m) = Some (p, prefix, m).
Proof. intros Hp. prefix_rows Hp; by destruct m. Qed.

Lemma own_prefix_nonempty p prefix m : (p, prefix) ∈ MODEL_PREFIXES → is_empty (prefix +:+ m) = false.
Proof. intros Hp. prefix_rows Hp; reflexivity. Qed.

(** A request with a provider prefix goes to that provider; the prefix decides the credential. *)
Lemma own_prefix_target p prefix m :
  (p, prefix) ∈ MODEL_PREFIXES → trimmed m →
  request_target config_providers (prefix +:+ m)
  = Some (ToProvider p (parse_explicit_credential_prefix prefix) m).
Proof.
  intros Hp Hm. unfold request_target. cbv zeta.
  rewrite trim_id by by eapply own_prefix_trimmed.
  rewrite (own_prefix_nonempty p) by done.
  unfold named_provider_profile_model_prefix, openai_compatible_model_prefix.
  rewrite (own_prefix_explicit p) by done. by destruct (split_once ":" (prefix +:+ m)) as [[a b]|].
Qed.

(** What a switch to such a request writes. *)
Lemma own_prefix_key p prefix m provider_name previous :
  (p, prefix) ∈ MODEL_PREFIXES → m ≠ "" → trimmed m →
  session_provider_key_after_model_switch config_providers env (prefix +:+ m) provider_name previous
  = Some (match parse_route prefix with
          | Some route => session_provider_key route
          | None => provider_key p
          end).
Proof.
  intros Hp Hne Hm. unfold session_provider_key_after_model_switch, explicit_session_provider_key. cbv zeta.
  rewrite trim_id by by eapply own_prefix_trimmed.
  apply is_empty_false in Hne.
  prefix_rows Hp; cbn -[trim parse_route one_of known_profile]; rewrite (trim_id m Hm), Hne; reflexivity.
Qed.

(** What a bare model and a canonical key restore to. *)
Lemma restore_keyed m key :
  bare_model m → key ≠ "" → trimmed key →
  model_switch_request_for_session_model config_providers m (Some key)
  = match parse_explicit_credential_prefix key with
    | Some route => model_prefix route +:+ ":" +:+ m
    | None =>
        match parse_route key with
        | Some route => bare_model_prefix (route_provider route) +:+ ":" +:+ m
        | None =>
            if one_of PLAIN_KEYS (canonical_session_provider_key key)
               || known_profile config_providers (canonical_session_provider_key key)
            then canonical_session_provider_key key +:+ ":" +:+ m else m
        end
    end.
Proof.
  intros (Hne & Htr & Hex & Hat & Hprof) Hk Hkt.
  unfold model_switch_request_for_session_model. cbv zeta.
  rewrite (trim_id m Htr), (trim_id key Hkt), Hex, Hat.
  apply is_empty_false in Hne, Hk. rewrite Hne, Hk.
  destruct (split_once ":" m) as [[a b]|]; [|done]. by rewrite Hprof, !andb_false_r.
Qed.

(** The prefix a session restores with after a switch with [prefix]. *)
Definition restored_prefix (prefix : string) : string :=
  match parse_route prefix with Some route => model_prefix route +:+ ":" | None => prefix end.

(** The rows of the table, checked: the restored prefix names the same provider and pins what the parser
    reads; a prefix that is no credential route is the provider's own key. *)
Lemma prefix_table :
  forallb (λ row : ActiveProvider * string,
    bool_decide ((row.1, restored_prefix row.2) ∈ MODEL_PREFIXES)
    && bool_decide (parse_explicit_credential_prefix (restored_prefix row.2) = parse_route row.2)
    && match parse_route row.2 with
       | Some _ => true
       | None =>
           bool_decide (row.2 = provider_key row.1 +:+ ":")
           && bool_decide (parse_explicit_credential_prefix (provider_key row.1) = None)
           && bool_decide (parse_route (provider_key row.1) = None)
           && one_of PLAIN_KEYS (provider_key row.1)
       end) MODEL_PREFIXES = true.
Proof. by vm_compute. Qed.

Lemma restored_row p prefix :
  (p, prefix) ∈ MODEL_PREFIXES →
  (p, restored_prefix prefix) ∈ MODEL_PREFIXES
  ∧ parse_explicit_credential_prefix (restored_prefix prefix) = parse_route prefix.
Proof.
  intros Hp. pose proof (proj1 (forallb_elem _ _) prefix_table _ Hp) as H. cbn [fst snd] in H.
  apply andb_true_iff in H as [[H1%bool_decide_eq_true H2%bool_decide_eq_true]%andb_true_iff _]. done.
Qed.

Lemma session_key_pins r :
  parse_explicit_credential_prefix (session_provider_key r) = Some r
  ∧ session_provider_key r ≠ "" ∧ trimmed (session_provider_key r).
Proof. by destruct r as [[] []]; vm_compute. Qed.

Lemma provider_key_trimmed p : provider_key p ≠ "" ∧ trimmed (provider_key p).
Proof. by destruct p; vm_compute. Qed.

Lemma restored_request p prefix m :
  (p, prefix) ∈ MODEL_PREFIXES → bare_model m →
  model_switch_request_for_session_model config_providers m
    (Some (match parse_route prefix with
           | Some route => session_provider_key route
           | None => provider_key p
           end)) = restored_prefix prefix +:+ m.
Proof.
  intros Hp Hm. pose proof (proj1 (forallb_elem _ _) prefix_table _ Hp) as H. cbn [fst snd] in H.
  apply andb_true_iff in H as [_ H]. unfold restored_prefix.
  destruct (parse_route prefix) as [r|].
  - destruct (session_key_pins r) as (H1 & H2 & H3). rewrite restore_keyed, H1 by done.
    by rewrite str_app_assoc.
  - rewrite !andb_true_iff, !bool_decide_eq_true in H. destruct H as [[[H1 H2] H3] H4].
    destruct (provider_key_trimmed p) as [H5 H6]. rewrite restore_keyed, H2, H3 by done.
    unfold canonical_session_provider_key. rewrite H3, (trim_id _ H6), H4, H1. by rewrite str_app_assoc.
Qed.


(** ** Picked routes *)

(** The methods whose routed spec is a prefix and the model. *)
Definition prefix_of_method (k : ModelRouteApiMethod) : option string :=
  match k with
  | ClaudeOAuth => Some "claude-oauth"
  | AnthropicApiKey => Some "claude-api"
  | OpenAIOAuth => Some "openai-oauth"
  | OpenAIApiKey => Some "openai-api"
  | OpenAiCompatible p => p
  | Copilot => Some "copilot"
  | Cursor => Some "cursor"
  | Bedrock => Some "bedrock"
  | AntigravityHttps => Some "antigravity"
  | _ => None
  end.

Lemma parse_method_trim v : parse_method (trim v) = parse_method v.
Proof. unfold parse_method. by rewrite trim_idemp. Qed.

Lemma from_auth_route_prefix r : prefix_of_method (from_auth_route r) = Some (model_prefix r).
Proof. by destruct r as [[] []]. Qed.

Lemma parse_method_profile v p : parse_method v = OpenAiCompatible (Some p) → trim p = p.
Proof.
  unfold parse_method. destruct (parse_route _) as [r|]; [by destruct r as [[] []]|].
  repeat (case_match; try done). intros [= <-]. apply trim_idemp.
Qed.

Lemma parse_method_nonempty v prefix :
  prefix_of_method (parse_method v) = Some prefix → is_empty (trim v) = false.
Proof.
  intros H. apply is_empty_false. intros E. rewrite <- parse_method_trim, E in H. by vm_compute in H.
Qed.

Lemma routed_spec_prefix s prefix :
  rs_runtime_key s = from_api_method (parse_method (rs_api_method s)) →
  prefix_of_method (parse_method (rs_api_method s)) = Some prefix →
  routed_model_spec s = prefix +:+ ":" +:+ trim (rs_model s).
Proof.
  intros Hk Hp. unfold routed_model_spec. cbv zeta. rewrite Hk.
  pose proof (parse_method_profile (rs_api_method s)) as Hprof.
  destruct (parse_method (rs_api_method s)) as [| | | | | |[p|]| | | | | | | |m]; simpl in *;
    try discriminate; injection Hp as <-; try reflexivity.
  by rewrite Hprof.
Qed.

Lemma restore_by_method m key v prefix :
  bare_model m → prefix_of_method (parse_method v) = Some prefix →
  model_switch_request_for_session_route config_providers m key (Some v) = prefix +:+ ":" +:+ m.
Proof.
  intros (Hne & Htr & Hex & Hat & _) Hp. unfold model_switch_request_for_session_route. cbv zeta.
  rewrite (trim_id m Htr), Hex, Hat, (proj2 (is_empty_false m) Hne), (parse_method_nonempty v prefix Hp).
  rewrite parse_method_trim.
  destruct (parse_method v) as [| | | | | |[p|]| | | | | | | |x]; simpl in *;
    try discriminate; injection Hp as <-; reflexivity.
Qed.

(** The stable id of each method with a prefix, other than a profile's, is a key that restores to it. *)
Lemma restore_by_stable_id m k prefix :
  bare_model m → prefix_of_method k = Some prefix → is_openai_compatible k = false →
  model_switch_request_for_session_model config_providers m (Some (stable_id (from_api_method k)))
  = prefix +:+ ":" +:+ m.
Proof.
  intros Hm Hp Hk.
  assert (∀ key r, parse_explicit_credential_prefix key = Some r → key ≠ "" → trimmed key →
            model_switch_request_for_session_model config_providers m (Some key) = model_prefix r +:+ ":" +:+ m)
    as Hdual by (intros key r H1 H2 H3; by rewrite restore_keyed, H1).
  assert (∀ key, parse_explicit_credential_prefix key = None → parse_route key = None →
            one_of PLAIN_KEYS key = true → key ≠ "" → trimmed key →
            model_switch_request_for_session_model config_providers m (Some key) = key +:+ ":" +:+ m) as Hplain.
  { intros key H1 H2 H3 H4 H5. rewrite restore_keyed, H1, H2 by done.
    unfold canonical_session_provider_key. by rewrite H2, (trim_id key H5), H3. }
  destruct k as [| | | | | |q| | | | | | | |x]; simpl in *; try discriminate; injection Hp as <-.
  - by apply (Hdual _ (anthropic Oauth)).
  - by apply (Hdual _ (anthropic ApiKey)).
  - by apply (Hdual _ (openai Oauth)).
  - by apply (Hdual _ (openai ApiKey)).
  - by apply Hplain.
  - by apply Hplain.
  - by apply Hplain.
  - by apply Hplain.
Qed.

(** A picked route survives: after a route whose method has a request prefix (the four dual-auth
    credentials, Copilot, Cursor, Bedrock, Antigravity, an OpenAI-compatible profile) is selected, the
    restored session makes the very request the selection made; and unless the route is a profile's, so
    does a session that inherited the provider key without the API method. *)
Theorem picked_route_survives (s : RouteSelection) (before : SessionRoute) (prefix : string) :
  rs_runtime_key s = from_api_method (parse_method (rs_api_method s)) →
  prefix_of_method (parse_method (rs_api_method s)) = Some prefix →
  bare_model (trim (rs_model s)) →
  let after := after_set_route s (trim (rs_model s)) before in
  restore_request config_providers after = Some (routed_model_spec s)
  ∧ (is_openai_compatible (parse_method (rs_api_method s)) = false →
     restore_request config_providers (mk_session (session_model after) (session_key after) None)
     = Some (routed_model_spec s)).
Proof.
  intros Hk Hp Hm after. rewrite (routed_spec_prefix s prefix Hk Hp).
  unfold after, after_set_route, restore_request.
  cbn [session_model session_key session_api_method fmap option_fmap option_map]. split.
  - f_equal. by apply restore_by_method.
  - intros Hc. f_equal. rewrite Hk. rewrite <- (restore_by_stable_id _ _ prefix Hm Hp Hc).
    destruct Hm as (Hne & Htr & Hex & Hat & _). unfold model_switch_request_for_session_route. cbv zeta.
    by rewrite trim_idemp, Hex, Hat, (proj2 (is_empty_false _) Hne).
Qed.

(** A picked route outlives its replacement: when a session that remembers the method of a dual-auth
    route switches to a request for any other provider, restoring it still goes to the old route's
    provider with the old credential, and asks it for the new model. *)
Theorem stale_route_hijacks_restore (before : SessionRoute) (v : string) (old : AuthRoute)
    (p : ActiveProvider) (prefix m provider_name : string) :
  session_api_method before = Some v → parse_method v = from_auth_route old →
  (p, prefix) ∈ MODEL_PREFIXES → bare_model m →
  let after := after_set_model config_providers env (prefix +:+ m) provider_name m before in
  request_target config_providers (prefix +:+ m)
    = Some (ToProvider p (parse_explicit_credential_prefix prefix) m)
  ∧ (restore_request config_providers after ≫= request_target config_providers)
    = Some (ToProvider (route_active_provider old) (Some old) m).
Proof.
  intros Hv Hold Hp Hm after. pose proof Hm as (_ & Htr & _). split; [by apply own_prefix_target|].
  unfold after, after_set_model, restore_request.
  cbn [session_model session_key session_api_method fmap option_fmap option_map]. rewrite Hv. simpl.
  rewrite (restore_by_method m _ v (model_prefix old)) by (done || by rewrite Hold, from_auth_route_prefix).
  rewrite str_app_assoc.
  assert ((route_active_provider old, model_prefix old +:+ ":") ∈ MODEL_PREFIXES
          ∧ parse_explicit_credential_prefix (model_prefix old +:+ ":") = Some old) as [Hrow <-].
  { destruct old as [[] []]; (split; [apply (bool_decide_eq_true_1 _); by vm_compute|by vm_compute]). }
  by apply own_prefix_target.
Qed.
End theorems.

(** ** At work *)

Lemma opus_bare : bare_model ∅ "claude-opus-5".
Proof. repeat split; by vm_compute. Qed.

Lemma gpt_bare : bare_model ∅ "gpt-5.5".
Proof. repeat split; by vm_compute. Qed.


Lemma picked_route_survives_witness :
  restore_request ∅ (after_set_route
    (from_model_route (mk_model_route "claude-opus-5" "Anthropic" "anthropic-api-key" true "" None))
    "claude-opus-5" (mk_session None None None)) = Some "claude-api:claude-opus-5".
Proof.
  apply (picked_route_survives ∅
    (from_model_route (mk_model_route "claude-opus-5" "Anthropic" "anthropic-api-key" true "" None))
    (mk_session None None None) "claude-api"); [by vm_compute..|apply opus_bare].
Defined.

Lemma stale_route_hijacks_restore_witness :
  (restore_request ∅ (after_set_model ∅ (λ _, None) "openai:gpt-5.5" "OpenAI" "gpt-5.5"
     (mk_session (Some "claude-opus-5") (Some "anthropic-api-key") (Some "anthropic-api-key")))
   ≫= request_target ∅) = Some (ToProvider AP_Claude (Some (anthropic ApiKey)) "gpt-5.5").
Proof.
  apply (stale_route_hijacks_restore ∅ (λ _, None)
    (mk_session (Some "claude-opus-5") (Some "anthropic-api-key") (Some "anthropic-api-key"))
    "anthropic-api-key" (anthropic ApiKey) AP_OpenAI "openai:" "gpt-5.5" "OpenAI").
  - reflexivity.
  - by vm_compute.
  - apply (list_elem_of_lookup_2 _ 6). reflexivity.
  - apply gpt_bare.
Defined.
