(* ===== verification/Utf8.v ===== *)
(** * Decoding a byte stream (crates/arterm-core/src/util.rs)

    Providers stream text in chunks that may split a character.  [Utf8StreamDecoder] carries the
    incomplete bytes to the next chunk and replaces what can never be a character by U+FFFD.
    [std::str::from_utf8] and [String::from_utf8_lossy] are modelled as the standard library documents
    them; bytes that need not be UTF-8 are a [string] too. *)

From S2P Require Export RustStr.

(** ** [std::str::from_utf8] *)

Definition in_range (lo hi : N) (c : ascii) : bool := ((lo <=? byte c) && (byte c <=? hi))%N.

(** The range of the second byte after a lead byte of three or four. *)
Definition second_ok (lead c : ascii) : bool :=
  if (byte lead =? 224)%N then in_range 160 191 c
  else if (byte lead =? 237)%N then in_range 128 159 c
  else if (byte lead =? 240)%N then in_range 144 191 c
  else if (byte lead =? 244)%N then in_range 128 143 c
  else in_range 128 191 c.

(** What the front of the input is: a character of [n] bytes, [n] bytes that start no character, or a
    character that the end of the input cuts off. *)
Inductive Front := Character (n : nat) | Invalid (n : nat) | CutOff.

(** Two continuation bytes after the lead, then one, then none. *)
Definition front_one (good bad : nat) (s : string) : Front :=
  match s with
  | EmptyString => CutOff
  | String c _ => if is_continuation c then Character good else Invalid bad
  end.

Definition front_two (good : nat) (s : string) : Front :=
  match s with
  | EmptyString => CutOff
  | String c s' => if is_continuation c then front_one good (good - 1) s' else Invalid (good - 2)
  end.

Definition front (s : string) : option Front :=
  match s with
  | EmptyString => None
  | String a s1 =>
      Some (
        if (byte a <? 128)%N then Character 1
        else if in_range 194 223 a then front_one 2 1 s1
        else if in_range 224 239 a then
          match s1 with
          | EmptyString => CutOff
          | String b s2 => if second_ok a b then front_one 3 2 s2 else Invalid 1
          end
        else if in_range 240 244 a then
          match s1 with
          | EmptyString => CutOff
          | String b s2 => if second_ok a b then front_two 4 s2 else Invalid 1
          end
        else Invalid 1)
  end.

(** [from_utf8]: the valid prefix, with what ends it; [CutAt] is [error_len() == None].  A round takes
    at least a byte, so the length of the input and one more is enough fuel. *)
Inductive Verdict := AllValid | CutAt (valid_up_to : nat) | InvalidAt (valid_up_to error_len : nat).

Fixpoint from_utf8_go (fuel : nat) (done : nat) (s : string) : Verdict :=
  match fuel with
  | 0 => AllValid
  | S fuel =>
      match front s with
      | None => AllValid
      | Some CutOff => CutAt done
      | Some (Invalid n) => InvalidAt done n
      | Some (Character n) => from_utf8_go fuel (done + n) (str_drop n s)
      end
  end.

Definition from_utf8 (s : string) : Verdict := from_utf8_go (S (String.length s)) 0 s.

(** U+FFFD *)
Definition REPLACEMENT : string := String "239" (String "191" (String "189" "")).

(** [String::from_utf8_lossy]: every maximal run that starts no character becomes one U+FFFD. *)
Fixpoint lossy_go (fuel : nat) (s : string) : string :=
  match fuel with
  | 0 => ""
  | S fuel =>
      match front s with
      | None => ""
      | Some CutOff => REPLACEMENT
      | Some (Invalid n) => REPLACEMENT +:+ lossy_go fuel (str_drop n s)
      | Some (Character n) => str_take n s +:+ lossy_go fuel (str_drop n s)
      end
  end.

Definition from_utf8_lossy (s : string) : string := lossy_go (S (String.length s)) s.

(** ** The decoder *)

(** [Utf8StreamDecoder::decode] on a carry: the text and the new carry.  The recursive call is on what
    follows an invalid sequence, which is shorter. *)
Fixpoint decode_go (fuel : nat) (carry chunk : string) : string * string :=
  match fuel with
  | 0 => ("", "")
  | S fuel =>
      let bytes := if is_empty carry then chunk else carry +:+ chunk in
      match from_utf8 bytes with
      | AllValid => (bytes, "")
      | CutAt valid_up_to =>
          (from_utf8_lossy (str_take valid_up_to bytes), str_drop valid_up_to bytes)
      | InvalidAt valid_up_to invalid_len =>
          let good := from_utf8_lossy (str_take valid_up_to bytes) in
          let rest := str_drop valid_up_to bytes in
          let '(text, carry') := decode_go fuel "" (str_drop invalid_len rest) in
          (good +:+ REPLACEMENT +:+ text, carry')
      end
  end.

Definition decode (carry chunk : string) : string * string :=
  decode_go (S (String.length carry + String.length chunk)) carry chunk.

(** [Utf8StreamDecoder::flush] *)
Definition flush_carry (carry : string) : string :=
  if is_empty carry then "" else from_utf8_lossy carry.

Definition has_pending_bytes (carry : string) : bool := negb (is_empty carry).

(** A stream: its chunks are decoded in order, then the decoder is flushed. *)
Fixpoint decode_stream (carry : string) (chunks : list string) : string :=
  match chunks with
  | [] => flush_carry carry
  | chunk :: chunks => let '(text, carry') := decode carry chunk in text +:+ decode_stream carry' chunks
  end.

(** ** The front of a string *)

(** A continuation byte decides [front_one]; more input changes nothing once it is there. *)
Lemma front_one_app good bad s t : front_one good bad s ≠ CutOff → front_one good bad (s +:+ t) = front_one good bad s.
Proof. by destruct s. Qed.

Lemma front_two_app good s t : front_two good s ≠ CutOff → front_two good (s +:+ t) = front_two good s.
Proof.
  destruct s as [|c s]; [done|]. change (String c s +:+ t) with (String c (s +:+ t)). cbn [front_two].
  destruct (is_continuation c); [apply front_one_app|done].
Qed.

Lemma front_app s t f : front s = Some f → f ≠ CutOff → front (s +:+ t) = Some f.
Proof.
  destruct s as [|a s]; [done|]. change (String a s +:+ t) with (String a (s +:+ t)). cbn [front].
  intros [= <-] Hf. f_equal.
  destruct (byte a <? 128)%N; [done|].
  destruct (in_range 194 223 a); [by apply front_one_app|].
  destruct (in_range 224 239 a).
  { destruct s as [|b s]; [done|]. change (String b s +:+ t) with (String b (s +:+ t)). cbv beta iota.
    destruct (second_ok a b); [by apply front_one_app|done]. }
  destruct (in_range 240 244 a); [|done].
  destruct s as [|b s]; [done|]. change (String b s +:+ t) with (String b (s +:+ t)). cbv beta iota.
  destruct (second_ok a b); [by apply front_two_app|done].
Qed.

(** How many bytes a front takes. *)
Definition front_size (f : Front) : nat := match f with Character n | Invalid n => n | CutOff => 0 end.

Lemma front_size_bounds s f :
  front s = Some f → f ≠ CutOff → 1 ≤ front_size f ≤ String.length s.
Proof.
  destruct s as [|a s]; [done|]. cbn [front]. intros [= <-].
  repeat match goal with
  | |- context [if ?b then _ else _] => destruct b
  | |- context [front_one _ _ ?s] => destruct s; cbn [front_one]
  | |- context [front_two _ ?s] => destruct s; cbn [front_two]
  | |- context [match ?s with EmptyString => _ | _ => _ end] => destruct s
  end; cbn; intros; try done; lia.
Qed.

(** A character cut off is at most three bytes. *)
Lemma cut_off_short s : front s = Some CutOff → 1 ≤ String.length s ≤ 3.
Proof.
  destruct s as [|a s]; [done|]. cbn [front].
  repeat match goal with
  | |- context [if ?b then _ else _] => destruct b
  | |- context [front_one _ _ ?s] => destruct s; cbn [front_one]
  | |- context [front_two _ ?s] => destruct s; cbn [front_two]
  | |- context [match ?s with EmptyString => _ | _ => _ end] => destruct s
  end; cbn; intros; try done; lia.
Qed.

Lemma front_None s : front s = None ↔ s = "".
Proof. by destruct s. Qed.

(** ** The lossy text, without fuel *)

Lemma lossy_go_enough fuel fuel' s :
  String.length s < fuel → String.length s < fuel' → lossy_go fuel s = lossy_go fuel' s.
Proof.
  revert fuel' s. induction fuel as [|fuel IH]; intros [|fuel'] s H H'; [lia..|]. cbn [lossy_go].
  destruct (front s) as [f|] eqn:Hf; [|done].
  destruct f as [n|n|]; [| |done];
    destruct (front_size_bounds s _ Hf ltac:(done)) as [H1 H2]; cbn in H1, H2;
    f_equal; apply IH; rewrite str_length_drop; lia.
Qed.

Lemma lossy_unfold s :
  from_utf8_lossy s =
  match front s with
  | None => ""
  | Some CutOff => REPLACEMENT
  | Some (Invalid n) => REPLACEMENT +:+ from_utf8_lossy (str_drop n s)
  | Some (Character n) => str_take n s +:+ from_utf8_lossy (str_drop n s)
  end.
Proof.
  unfold from_utf8_lossy at 1. cbn [lossy_go].
  destruct (front s) as [f|] eqn:Hf; [|done].
  destruct f as [n|n|]; [| |done];
    destruct (front_size_bounds s _ Hf ltac:(done)) as [H1 H2]; cbn in H1, H2;
    f_equal; apply lossy_go_enough; rewrite ?str_length_drop; lia.
Qed.

Lemma lossy_empty : from_utf8_lossy "" = "".
Proof. done. Qed.

(** Text that reads as itself in front of anything. *)
Definition clean (v : string) : Prop := ∀ t, from_utf8_lossy (v +:+ t) = v +:+ from_utf8_lossy t.

Lemma clean_alone v : clean v → from_utf8_lossy v = v.
Proof. intros H. specialize (H ""). by rewrite lossy_empty, !str_app_nil_r in H. Qed.

Lemma clean_app a b : clean a → clean b → clean (a +:+ b).
Proof. intros Ha Hb t. by rewrite <- !str_app_assoc, Ha, Hb. Qed.

Lemma str_take_app_le n (s t : string) : n ≤ String.length s → str_take n (s +:+ t) = str_take n s.
Proof.
  revert s. induction n as [|n IH]; intros s Hn; [by destruct s, t|].
  destruct s as [|c s]; cbn in Hn; [lia|]. change (String c s +:+ t) with (String c (s +:+ t)). cbn.
  by rewrite IH by lia.
Qed.

Lemma str_drop_app_le n (s t : string) : n ≤ String.length s → str_drop n (s +:+ t) = str_drop n s +:+ t.
Proof.
  revert s. induction n as [|n IH]; intros s Hn; [done|].
  destruct s as [|c s]; cbn in Hn; [lia|]. change (String c s +:+ t) with (String c (s +:+ t)). cbn.
  by apply IH; lia.
Qed.

Lemma character_clean s n : front s = Some (Character n) → clean (str_take n s).
Proof.
  intros Hf t. destruct (front_size_bounds s _ Hf ltac:(done)) as [H1 H2]. cbn in H1, H2.
  assert (Hlen : String.length (str_take n s) = n) by (rewrite str_length_take; lia).
  rewrite (lossy_unfold (str_take n s +:+ t)).
  assert (front (str_take n s) = Some (Character n)) as Hfront.
  { clear t Hlen. destruct s as [|a s]; [done|]. destruct n as [|n]; [lia|].
    cbn [str_take front] in *. injection Hf as Hf. f_equal. cbn in H2. revert Hf H1 H2.
    repeat match goal with
    | |- context [if ?b then _ else _] => destruct b eqn:?
    | |- context [front_one _ _ ?s] => is_var s; destruct s; cbn [front_one]
    | |- context [front_two _ ?s] => is_var s; destruct s; cbn [front_two]
    | |- context [match ?s with EmptyString => _ | _ => _ end] => is_var s; destruct s
    end; intros [= <-] _ _; cbn [str_take front_one front_two]; by rewrite ?Heqb, ?Heqb0, ?Heqb1, ?Heqb2, ?Heqb3, ?Heqb4, ?Heqb5. }
  rewrite (front_app _ t _ Hfront) by done.
  rewrite <- Hlen at 1. rewrite str_take_app. f_equal. by rewrite <- Hlen at 1; rewrite str_drop_app.
Qed.

(** ** The scan and the decoder *)

(** What a verdict says of the bytes scanned after the first [done]. *)
Definition scanned (s : string) (done : nat) (v : Verdict) : Prop :=
  ∃ good rest, s = good +:+ rest ∧ clean good ∧
    match v with
    | AllValid => rest = ""
    | CutAt k => k = done + String.length good ∧ front rest = Some CutOff
    | InvalidAt k n => k = done + String.length good ∧ front rest = Some (Invalid n)
    end.

Lemma clean_nil : clean "".
Proof. by intros t. Qed.

Lemma scan_spec fuel done s :
  String.length s < fuel → scanned s done (from_utf8_go fuel done s).
Proof.
  revert done s. induction fuel as [|fuel IH]; intros done s Hs; [lia|]. cbn [from_utf8_go].
  destruct (front s) as [[n|n|]|] eqn:Hf.
  - destruct (front_size_bounds s _ Hf ltac:(easy)) as [H1 H2]. cbn in H1, H2.
    destruct (IH (done + n) (str_drop n s)) as (good & rest & Hsplit & Hgood & Hv);
      [rewrite str_length_drop; lia|].
    exists (str_take n s +:+ good), rest. split_and!.
    + by rewrite <- str_app_assoc, <- Hsplit, str_take_drop.
    + by apply clean_app; [apply character_clean|].
    + destruct (from_utf8_go fuel (done + n) (str_drop n s)); [easy| |];
        (destruct Hv as [-> ?]; split; [|easy]; rewrite str_length_app, str_length_take; lia).
  - exists "", s. split_and!; [easy|apply clean_nil|cbn; lia|easy].
  - exists "", s. split_and!; [easy|apply clean_nil|cbn; lia|easy].
  - exists "", s. split_and!; [easy|apply clean_nil|by apply front_None].
Qed.

Lemma from_utf8_spec s : scanned s 0 (from_utf8 s).
Proof. apply scan_spec. lia. Qed.

(** Decoding a chunk moves text from the input to the output; what is kept back starts a character. *)
Lemma decode_go_spec fuel carry chunk :
  String.length carry + String.length chunk < fuel →
  let '(text, carry') := decode_go fuel carry chunk in
  (∀ t, from_utf8_lossy (carry +:+ chunk +:+ t) = text +:+ from_utf8_lossy (carry' +:+ t))
  ∧ (carry' = "" ∨ front carry' = Some CutOff).
Proof.
  revert carry chunk. induction fuel as [|fuel IH]; intros carry chunk Hfuel; [lia|]. cbn [decode_go]. cbv zeta.
  assert ((if is_empty carry then chunk else carry +:+ chunk) = carry +:+ chunk) as ->
    by by destruct carry.
  destruct (from_utf8_spec (carry +:+ chunk)) as (good & rest & Hsplit & Hgood & Hv).
  assert (∀ t, carry +:+ chunk +:+ t = good +:+ (rest +:+ t)) as Hall
    by (intros t; by rewrite !str_app_assoc, Hsplit).
  destruct (from_utf8 (carry +:+ chunk)) as [|k|k n].
  - subst rest. split; [|by left]. intros t. rewrite Hall, Hsplit, str_app_nil_r. apply Hgood.
  - destruct Hv as [-> Hf]. cbn [Nat.add]. rewrite Hsplit, str_take_app, str_drop_app, clean_alone by done.
    split; [|by right]. intros t. by rewrite Hall, Hgood.
  - destruct Hv as [-> Hf]. cbn [Nat.add]. rewrite Hsplit, str_take_app, str_drop_app, clean_alone by done.
    destruct (front_size_bounds rest _ Hf ltac:(done)) as [H1 H2]. cbn in H1, H2.
    assert (String.length carry + String.length chunk = String.length good + String.length rest) as Hl
      by (rewrite <- !str_length_app; by rewrite Hsplit).
    specialize (IH "" (str_drop n rest)). cbn [String.length Nat.add] in IH.
    destruct (decode_go fuel "" (str_drop n rest)) as [text carry'].
    destruct IH as [IH Hc]; [rewrite str_length_drop; lia|]. split; [|done].
    intros t. rewrite Hall, Hgood, (lossy_unfold (rest +:+ t)), (front_app rest t _ Hf) by done.
    rewrite str_drop_app_le by lia. specialize (IH t). change ("" +:+ ?x) with x in IH. rewrite IH.
    by rewrite !str_app_assoc.
Qed.

Lemma decode_spec carry chunk :
  let '(text, carry') := decode carry chunk in
  (∀ t, from_utf8_lossy (carry +:+ chunk +:+ t) = text +:+ from_utf8_lossy (carry' +:+ t))
  ∧ (carry' = "" ∨ front carry' = Some CutOff).
Proof. apply decode_go_spec. lia. Qed.

Lemma flush_carry_lossy carry : flush_carry carry = from_utf8_lossy carry.
Proof. by destruct carry. Qed.

Definition concat_all (chunks : list string) : string := foldr String.append "" chunks.

Lemma decode_stream_spec carry chunks :
  decode_stream carry chunks = from_utf8_lossy (carry +:+ concat_all chunks).
Proof.
  revert carry. induction chunks as [|chunk chunks IH]; intros carry; cbn [decode_stream].
  - change (concat_all []) with "". by rewrite flush_carry_lossy, str_app_nil_r.
  - pose proof (decode_spec carry chunk) as H. destruct (decode carry chunk) as [text carry'].
    destruct H as [H _]. change (concat_all (chunk :: chunks)) with (chunk +:+ concat_all chunks).
    by rewrite IH, (H (concat_all chunks)).
Qed.

Lemma valid_reads_as_itself s : from_utf8 s = AllValid → from_utf8_lossy s = s.
Proof.
  intros Hv. destruct (from_utf8_spec s) as (good & rest & Hs & Hgood & Hr). rewrite Hv in Hr. subst rest.
  rewrite str_app_nil_r in Hs. subst good. by apply clean_alone.
Qed.

(** Where the network cuts a stream does not show in its text: decoding the chunks one after the
    other and flushing gives the text of all the bytes at once, valid text comes out exactly as it
    went in, and between two chunks the decoder holds back at most three bytes, none unless they
    start a character that is not complete. *)
Theorem chunks_do_not_show (chunks : list string) :
  decode_stream "" chunks = from_utf8_lossy (concat_all chunks)
  ∧ (from_utf8 (concat_all chunks) = AllValid → decode_stream "" chunks = concat_all chunks)
  ∧ ∀ carry chunk, let carry' := (decode carry chunk).2 in
      String.length carry' ≤ 3 ∧ (carry' ≠ "" → front carry' = Some CutOff).
Proof.
  split_and!.
  - apply decode_stream_spec.
  - intros Hv. rewrite decode_stream_spec. by apply valid_reads_as_itself.
  - intros carry chunk. pose proof (decode_spec carry chunk) as H.
    destruct (decode carry chunk) as [text carry']. destruct H as [_ [->|Hc]]; cbn [snd].
    + split; [cbn; lia|done].
    + split; [pose proof (cut_off_short _ Hc); lia|done].
Qed.

(** A crab cut after its first byte, and a byte that is no text. *)
Example split_crab :
  decode_stream "" [String "240" ""; String "159" (String "166" ""); String "128" "!"; String "255" "?"]
  = String "240" (String "159" (String "166" (String "128" ("!" +:+ REPLACEMENT +:+ "?")))).
Proof. by vm_compute. Qed.
