(* ===== verification/CoreUtil.v ===== *)
(** * Text helpers (crates/arterm-core/src/util.rs)

    Truncation at a character boundary, token estimates, the payload of an SSE line, and the recovery
    of JSON objects that a proxy has glued together. *)

From S2P Require Export RustStr.

(** ** Truncation *)

(** [s.is_char_boundary(n)] for an index that is not past the end. *)
Definition is_char_boundary (s : string) (n : nat) : bool :=
  match str_drop n s with EmptyString => true | String c _ => negb (is_continuation c) end.

(** The loop of [truncate_str]. *)
Fixpoint back_up (s : string) (i : nat) : nat :=
  match i with
  | 0 => 0
  | S k => if is_char_boundary s i then i else back_up s k
  end.

Definition truncate_str (s : string) (max_bytes : nat) : string :=
  if String.length s <=? max_bytes then s else str_take (back_up s max_bytes) s.

(** ** Token estimates *)

Definition APPROX_CHARS_PER_TOKEN : nat := 4.

Inductive ApproxTokenSeverity := Severity_Normal | Severity_Warning | Severity_Danger.

Definition estimate_tokens (s : string) : nat := String.length s / APPROX_CHARS_PER_TOKEN.

(** The digits with the separators, [n] digits still to come including this one. *)
Fixpoint separate_digits (idx total : nat) (digits : string) : string :=
  match digits with
  | EmptyString => ""
  | String ch digits =>
      (if (0 <? idx) && (((total - idx) mod 3) =? 0) then "," else "")
      +:+ String ch (separate_digits (S idx) total digits)
  end.

Definition format_number (n : N) : string :=
  let digits := show_N n in separate_digits 0 (String.length digits) digits.

Definition format_approx_token_count (tokens : N) : string :=
  if (tokens <=? 999)%N then show_N tokens +:+ " tok"
  else if (tokens <=? 9999)%N then
    let whole := (tokens / 1000)%N in
    let tenth := ((tokens mod 1000) / 100)%N in
    if (tenth =? 0)%N then show_N whole +:+ "k tok"
    else show_N whole +:+ "." +:+ show_N tenth +:+ "k tok"
  else show_N (tokens / 1000) +:+ "k tok".

Definition approx_tool_output_token_severity (tokens : N) : ApproxTokenSeverity :=
  if (12000 <=? tokens)%N then Severity_Danger
  else if (4000 <=? tokens)%N then Severity_Warning
  else Severity_Normal.

(** ** Streams of objects *)

Definition sse_data_line (line : string) : option string :=
  let?? rest := strip_prefix "data:" line in
  Some (default rest (strip_prefix " " rest)).

Record SplitJson := mk_split { objects : list string; trailing_partial : option string }.

Record ScanState := mk_scan {
  depth : nat; start : option nat; in_string : bool; escaped : bool; found : list string }.

Definition backslash : ascii := "092"%char.

(** [&payload[s..=i]] *)
Definition slice_incl (payload : string) (s i : nat) : string := str_take (S i - s) (str_drop s payload).

(** The body of the loop, on the byte at [i]. *)
Definition scan_byte (payload : string) (i : nat) (b : ascii) (st : ScanState) : ScanState :=
  if in_string st then
    if escaped st then mk_scan (depth st) (start st) true false (found st)
    else if Ascii.eqb b backslash then mk_scan (depth st) (start st) true true (found st)
    else if Ascii.eqb b dquote then mk_scan (depth st) (start st) false false (found st)
    else st
  else if Ascii.eqb b dquote then mk_scan (depth st) (start st) true (escaped st) (found st)
  else if Ascii.eqb b "{" then
    mk_scan (S (depth st)) (if depth st =? 0 then Some i else start st) false (escaped st) (found st)
  else if Ascii.eqb b "}" then
    let depth' := depth st - 1 in
    match (if depth' =? 0 then start st else None) with
    | Some s => mk_scan depth' None false (escaped st) (found st ++ [slice_incl payload s i])
    | None => mk_scan depth' (start st) false (escaped st) (found st)
    end
  else st.

Fixpoint scan_from (payload : string) (i : nat) (rest : string) (st : ScanState) : ScanState :=
  match rest with
  | EmptyString => st
  | String b rest => scan_from payload (S i) rest (scan_byte payload i b st)
  end.

Definition split_concatenated_json (payload : string) : option SplitJson :=
  let st := scan_from payload 0 payload (mk_scan 0 None false false []) in
  let partial := (λ s, str_drop s payload) <$> start st in
  if (length (found st) <? 2) && match partial with None => true | Some _ => false end then None
  else Some (mk_split (found st) partial).

(** ** The longest prefix at a boundary *)

Lemma back_up_spec s i :
  back_up s i ≤ i ∧ is_char_boundary s (back_up s i) = true ∨ back_up s i = 0.
Proof.
  induction i as [|k IH]; [by right|]. cbn [back_up].
  destruct (is_char_boundary s (S k)) eqn:E; [by left|]. destruct IH as [[? ?]|?]; [left|by right].
  split; [lia|done].
Qed.

Lemma back_up_largest s i j : j ≤ i → is_char_boundary s j = true → j ≤ back_up s i.
Proof.
  induction i as [|k IH]; intros Hj Hb; [cbn; lia|]. cbn [back_up].
  destruct (is_char_boundary s (S k)) eqn:E; [done|].
  destruct (decide (j = S k)) as [->|]; [congruence|]. apply IH; [lia|done].
Qed.

(** Truncation keeps a prefix of at most [max_bytes] bytes that ends between two characters, and no
    longer prefix does; in particular the slice never cuts a character. *)
Lemma truncate_longest (s : string) (max_bytes : nat) :
  is_char_boundary s 0 = true →
  ∃ n, truncate_str s max_bytes = str_take n s ∧ n ≤ max_bytes ∧ n ≤ String.length s
    ∧ is_char_boundary s n = true
    ∧ ∀ j, j ≤ max_bytes → j ≤ String.length s → is_char_boundary s j = true → j ≤ n.
Proof.
  intros H0. unfold truncate_str. destruct (Nat.leb_spec (String.length s) max_bytes) as [Hle|Hlt].
  - exists (String.length s). split_and!; [|lia|lia| |lia].
    + pose proof (str_take_app s "") as E. by rewrite str_app_nil_r in E.
    + unfold is_char_boundary. pose proof (str_drop_app s "") as E. by rewrite str_app_nil_r in E; rewrite E.
  - exists (back_up s max_bytes).
    assert (back_up s max_bytes ≤ max_bytes) as Hb by (destruct (back_up_spec s max_bytes) as [[? _]| ->]; lia).
    split_and!; [done|done|lia| |].
    + destruct (back_up_spec s max_bytes) as [[_ ?]| ->]; done.
    + intros j Hj _. by apply back_up_largest.
Qed.

(** ** Objects that were glued together *)

(** The inside of a string literal and its closing quote. *)
Inductive literal : string → Prop :=
  | literal_end : literal (str1 dquote)
  | literal_escape c s : literal s → literal (String backslash (String c s))
  | literal_char c s : c ≠ backslash → c ≠ dquote → literal s → literal (String c s).

Definition plain (c : ascii) : bool :=
  negb (Ascii.eqb c dquote) && negb (Ascii.eqb c "{") && negb (Ascii.eqb c "}").

(** Text whose braces balance, braces inside string literals apart. *)
Inductive balanced : string → Prop :=
  | balanced_nil : balanced ""
  | balanced_char c s : plain c = true → balanced s → balanced (String c s)
  | balanced_literal l s : literal l → balanced s → balanced (String dquote (l +:+ s))
  | balanced_braces b s : balanced b → balanced s → balanced (String "{" (b +:+ String "}" s)).

Section scan.
Context (payload : string).

Lemma scan_literal l rest i d k acc :
  literal l →
  scan_from payload i (l +:+ rest) (mk_scan d k true false acc)
  = scan_from payload (i + String.length l) rest (mk_scan d k false false acc).
Proof.
  intros Hl. revert i. induction Hl as [|c s Hs IH|c s H1 H2 Hs IH]; intros i.
  - cbn. by rewrite Nat.add_1_r.
  - change (String backslash (String c s) +:+ rest) with (String backslash (String c (s +:+ rest))).
    cbn [scan_from scan_byte in_string escaped depth start found]. rewrite Ascii.eqb_refl.
    cbn [scan_byte in_string escaped depth start found]. rewrite IH. f_equal. cbn. lia.
  - change (String c s +:+ rest) with (String c (s +:+ rest)).
    cbn [scan_from scan_byte in_string escaped depth start found].
    apply Ascii.eqb_neq in H1 as ->. apply Ascii.eqb_neq in H2 as ->. rewrite IH. f_equal. cbn. lia.
Qed.

Lemma scan_plain_byte i c st : in_string st = false → plain c = true → scan_byte payload i c st = st.
Proof.
  intros Hst [[H1%negb_true_iff H2%negb_true_iff]%andb_true_iff H3%negb_true_iff]%andb_true_iff.
  unfold scan_byte. by rewrite Hst, H1, H2, H3.
Qed.

(** Inside an object, balanced text leaves the scan where it was. *)
Lemma scan_balanced b rest i d k acc :
  balanced b →
  scan_from payload i (b +:+ rest) (mk_scan (S d) (Some k) false false acc)
  = scan_from payload (i + String.length b) rest (mk_scan (S d) (Some k) false false acc).
Proof.
  intros Hb. revert rest i d. induction Hb as [|c s Hc Hs IH|l s Hl Hs IH|b s Hb IHb Hs IHs]; intros rest i d.
  - cbn. by rewrite Nat.add_0_r.
  - change (String c s +:+ rest) with (String c (s +:+ rest)). cbn [scan_from].
    rewrite scan_plain_byte by done. rewrite IH. f_equal. cbn. lia.
  - change (String dquote (l +:+ s) +:+ rest) with (String dquote ((l +:+ s) +:+ rest)).
    rewrite <- str_app_assoc. cbn [scan_from scan_byte in_string escaped depth start found].
    rewrite Ascii.eqb_refl, scan_literal, IH by done. f_equal. cbn. rewrite str_length_app. lia.
  - change (String "{" (b +:+ String "}" s) +:+ rest) with (String "{" ((b +:+ String "}" s) +:+ rest)).
    rewrite <- str_app_assoc. change (String "}" s +:+ rest) with (String "}" (s +:+ rest)).
    cbn [scan_from]. unfold scan_byte at 1. cbn [in_string escaped depth start found]. simpl (Ascii.eqb _ _).
    cbv iota. rewrite IHb. cbn [scan_from]. unfold scan_byte at 1.
    cbn [in_string escaped depth start found]. simpl (Ascii.eqb _ _). cbn [Nat.sub Nat.eqb].
    rewrite IHs. f_equal. cbn. rewrite str_length_app. cbn. lia.
Qed.

Lemma scan_separator sep rest i acc :
  string_forallb plain sep = true →
  scan_from payload i (sep +:+ rest) (mk_scan 0 None false false acc)
  = scan_from payload (i + String.length sep) rest (mk_scan 0 None false false acc).
Proof.
  revert i. induction sep as [|c sep IH]; intros i; [cbn; by rewrite Nat.add_0_r|].
  intros [Hc Hs]%andb_true_iff. change (String c sep +:+ rest) with (String c (sep +:+ rest)).
  cbn [scan_from]. rewrite scan_plain_byte by done. rewrite IH by done. f_equal. cbn. lia.
Qed.

Lemma slice_exact pre o rest :
  payload = pre +:+ o +:+ rest → o ≠ "" →
  slice_incl payload (String.length pre) (String.length pre + String.length o - 1) = o.
Proof.
  intros -> Ho. unfold slice_incl. rewrite str_drop_app.
  replace (S _ - _) with (String.length o) by (destruct o; [done|]; cbn; lia). apply str_take_app.
Qed.

(** One separator and one object. *)
Lemma scan_object pre sep b rest acc :
  payload = pre +:+ sep +:+ String "{" (b +:+ String "}" rest) →
  string_forallb plain sep = true → balanced b →
  scan_from payload (String.length pre) (sep +:+ String "{" (b +:+ String "}" rest))
    (mk_scan 0 None false false acc)
  = scan_from payload (String.length (pre +:+ sep +:+ String "{" (b +:+ "}"))) rest
      (mk_scan 0 None false false (acc ++ [String "{" (b +:+ "}")])).
Proof.
  intros Hp Hs Hb. rewrite scan_separator by done. cbn [scan_from].
  unfold scan_byte at 1. cbn [in_string escaped depth start found]. simpl (Ascii.eqb _ _).
  cbn [Nat.eqb]. rewrite scan_balanced by done. cbn [scan_from]. unfold scan_byte at 1.
  cbn [in_string escaped depth start found]. simpl (Ascii.eqb _ _). cbn [Nat.sub Nat.eqb].
  f_equal; [rewrite !str_length_app; cbn; rewrite str_length_app; cbn; lia|].
  f_equal. f_equal. f_equal.
  rewrite <- str_length_app.
  replace (S _ + _) with (String.length (pre +:+ sep) + String.length (String "{" (b +:+ "}")) - 1)
    by (cbn; rewrite !str_length_app; cbn; lia).
  apply (slice_exact _ _ rest); [|done]. rewrite Hp, str_app_assoc. f_equal.
  change (String "{" (b +:+ "}") +:+ rest) with (String "{" ((b +:+ "}") +:+ rest)).
  by rewrite <- str_app_assoc.
Qed.
End scan.

Definition braced (b : string) : string := String "{" (b +:+ "}").

(** Separators and objects, one after the other. *)
Fixpoint glue (pieces : list (string * string)) (rest : string) : string :=
  match pieces with
  | [] => rest
  | (sep, b) :: pieces => sep +:+ String "{" (b +:+ String "}" (glue pieces rest))
  end.

Definition piece_ok (p : string * string) : Prop := string_forallb plain p.1 = true ∧ balanced p.2.

Lemma scan_glue payload pre pieces rest acc :
  Forall piece_ok pieces → payload = pre +:+ glue pieces rest →
  ∃ pre', payload = pre' +:+ rest ∧
    scan_from payload (String.length pre) (glue pieces rest) (mk_scan 0 None false false acc)
    = scan_from payload (String.length pre') rest
        (mk_scan 0 None false false (acc ++ (braced ∘ snd <$> pieces))).
Proof.
  intros Hp. revert pre acc. induction Hp as [|[sep b] pieces [Hs Hb] Hp IH]; intros pre acc Hpay.
  - exists pre. by rewrite app_nil_r.
  - cbn [glue] in *. cbn [fst snd] in *. rewrite (scan_object payload pre sep b) by done.
    destruct (IH (pre +:+ sep +:+ String "{" (b +:+ "}")) (acc ++ [braced b])) as (pre' & Hpre' & Hscan).
    { rewrite Hpay, <- !str_app_assoc. do 2 f_equal.
      change (String "{" (b +:+ "}") +:+ ?x) with (String "{" ((b +:+ "}") +:+ x)). by rewrite <- str_app_assoc. }
    exists pre'. split; [done|]. unfold braced at 1 in Hscan. rewrite Hscan. by rewrite <- app_assoc.
Qed.

(** The bytes before the tail. *)
Definition glued_length (pieces : list (string * string)) (tail : string) : nat :=
  String.length (glue pieces "") + String.length tail.

Lemma glue_app pieces rest : glue pieces rest = glue pieces "" +:+ rest.
Proof.
  induction pieces as [|[sep b] pieces IH]; [done|]. cbn [glue]. rewrite IH.
  rewrite <- (str_app_assoc sep). f_equal.
  change (String "{" ?x +:+ rest) with (String "{" (x +:+ rest)). f_equal. by rewrite <- str_app_assoc.
Qed.

Lemma scan_cut pieces tail cut :
  Forall piece_ok pieces → string_forallb plain tail = true → balanced cut →
  let payload := glue pieces (tail +:+ String "{" cut) in
  scan_from payload 0 payload (mk_scan 0 None false false [])
  = mk_scan 1 (Some (glued_length pieces tail)) false false (braced ∘ snd <$> pieces).
Proof.
  intros Hp Ht Hc payload.
  destruct (scan_glue payload "" pieces (tail +:+ String "{" cut) [] Hp eq_refl) as (pre & Hpre & Hscan).
  assert (String.length pre = String.length (glue pieces "")) as Hlen.
  { apply (f_equal String.length) in Hpre. unfold payload in Hpre.
    rewrite (glue_app pieces (tail +:+ _)), !str_length_app in Hpre. lia. }
  change (String.length "") with 0 in Hscan. unfold payload at 2. rewrite Hscan, scan_separator by done.
  cbn [scan_from]. unfold scan_byte at 1. cbn [in_string escaped depth start found]. simpl (Ascii.eqb _ _).
  cbn [Nat.eqb].
  pose proof (scan_balanced payload cut "" (S (String.length pre + String.length tail)) 0
                (String.length pre + String.length tail) ([] ++ (braced ∘ snd <$> pieces)) Hc) as H.
  rewrite str_app_nil_r in H. rewrite H. unfold glued_length. by rewrite Hlen.
Qed.

(** Glued objects come apart: from a payload of objects with balanced braces, in any number, with
    separators such as a stray [data:] between them, exactly the objects are found, in order.  Two or
    more complete objects are a recovery, and so is any number of them followed by one that was cut
    off inside, which is handed back whole; braces and quotes inside string literals do not count. *)
Theorem glued_objects_split (pieces : list (string * string)) (tail cut : string) :
  Forall piece_ok pieces → string_forallb plain tail = true → balanced cut →
  split_concatenated_json (glue pieces tail)
    = (if length pieces <? 2 then None else Some (mk_split (braced ∘ snd <$> pieces) None))
  ∧ split_concatenated_json (glue pieces (tail +:+ String "{" cut))
    = Some (mk_split (braced ∘ snd <$> pieces) (Some (String "{" cut))).
Proof.
  intros Hp Ht Hc. split; unfold split_concatenated_json; cbv zeta.
  - destruct (scan_glue (glue pieces tail) "" pieces tail [] Hp eq_refl) as (pre & Hpre & Hscan).
    change (String.length "") with 0 in Hscan. rewrite Hscan.
    pose proof (scan_separator (glue pieces tail) tail "" (String.length pre) ([] ++ (braced ∘ snd <$> pieces)) Ht) as H.
    rewrite str_app_nil_r in H. rewrite H. cbn [scan_from found start fmap option_fmap option_map app].
    by rewrite length_fmap, andb_true_r.
  - rewrite (scan_cut pieces tail cut) by done. cbn [found start fmap option_fmap option_map].
    rewrite andb_false_r. do 3 f_equal.
    unfold glued_length. rewrite (glue_app pieces (tail +:+ _)), str_app_assoc, <- str_length_app. apply str_drop_app.
Qed.

Lemma glued_objects_split_witness :
  split_concatenated_json ("{" +:+ str1 dquote +:+ "a}" +:+ str1 dquote +:+ ":1}data: {}{") = Some
    (mk_split ["{" +:+ str1 dquote +:+ "a}" +:+ str1 dquote +:+ ":1}"; "{}"] (Some "{")).
Proof.
  refine (proj2 (glued_objects_split
    [("", str1 dquote +:+ "a}" +:+ str1 dquote +:+ ":1"); ("data: ", "")] "" "" _ eq_refl balanced_nil)).
  constructor; [split; [done|]|constructor; [split; [done|constructor]|constructor]].
  apply (balanced_literal ("a}" +:+ str1 dquote) ":1").
  - do 2 (apply literal_char; [done..|]). apply literal_end.
  - do 2 (apply balanced_char; [done|]). apply balanced_nil.
Defined.
