(* ===== verification/Glob.v ===== *)
(** * The globs of permission rules (crates/arterm-base/src/config/permission_rules.rs)

    [match_simple] is the two-pointer matcher for one word, [match_words] the recursion over the words
    of a pattern.  [globs] and [words_match] say what a pattern means. *)

From S2P Require Export RustStr.

(** ** One word *)

(** The loop of [match_simple]: the answer, or [None] when the fuel is spent.  [star] is [None] for the
    sentinel [usize::MAX]. *)
Fixpoint glob_loop (fuel : nat) (p t : list string) (pi ti : nat) (star : option nat) (mark : nat) : option bool :=
  match fuel with
  | 0 => None
  | S fuel =>
      match t !! ti with
      | None => Some (forallb (String.eqb "*") (drop pi p))
      | Some c =>
          if match p !! pi with Some x => String.eqb x "?" || String.eqb x c | None => false end
          then glob_loop fuel p t (S pi) (S ti) star mark
          else if match p !! pi with Some x => String.eqb x "*" | None => false end
          then glob_loop fuel p t (S pi) ti (Some pi) ti
          else match star with
               | Some k => glob_loop fuel p t (S k) (S mark) (Some k) (S mark)
               | None => Some false
               end
      end
  end.

(** Rounds that are always enough: [mark] moves on at most once per character of the text, and between
    two moves the pointers only advance. *)
Definition glob_fuel (p t : list string) : nat :=
  S (length t * (length p + length t + 2) + length p + length t).

Definition match_simple (pat text : string) : bool :=
  let p := chars pat in
  let t := chars text in
  default false (glob_loop (glob_fuel p t) p t 0 0 None 0).

Definition word_match (pattern word : string) : bool := match_simple pattern word.

(** ** Words *)

Definition is_star_word (w : string) : bool := String.eqb w "*" || String.eqb w "**".

Fixpoint match_words (pat sub : list string) : bool :=
  match pat with
  | [] => match sub with [] => true | _ :: _ => false end
  | p :: pat =>
      if is_star_word p then existsb (λ skip, match_words pat (drop skip sub)) (seq 0 (S (length sub)))
      else match sub with
           | s :: sub => word_match p s && match_words pat sub
           | [] => false
           end
  end.

Definition glob_words_match (pattern subject : string) : bool :=
  match_words (split_whitespace pattern) (split_whitespace subject).

(** ** What a pattern means *)

Inductive globs : list string → list string → Prop :=
  | globs_nil : globs [] []
  | globs_skip p t : globs p t → globs ("*" :: p) t
  | globs_take p c t : globs ("*" :: p) t → globs ("*" :: p) (c :: t)
  | globs_any p c t : globs p t → globs ("?" :: p) (c :: t)
  | globs_same p c t : globs p t → globs (c :: p) (c :: t).

Inductive words_match : list string → list string → Prop :=
  | words_nil : words_match [] []
  | words_skip w p s : is_star_word w = true → words_match p s → words_match (w :: p) s
  | words_take w p x s : is_star_word w = true → words_match (w :: p) s → words_match (w :: p) (x :: s)
  | words_one w p x s : is_star_word w = false → word_match w x = true → words_match p s →
      words_match (w :: p) (x :: s).

Lemma globs_star p t : globs ("*" :: p) t ↔ ∃ a d, t = a ++ d ∧ globs p d.
Proof.
  split.
  - intros H. remember ("*" :: p) as q eqn:Hq. induction H; simplify_eq.
    + by exists [], t.
    + destruct IHglobs as (a & d & -> & ?); [done|]. by exists (c :: a), d.
    + by exists ["*"], t.
  - intros (a & d & -> & H). induction a as [|c a IH]; [by apply globs_skip|by apply globs_take].
Qed.

(** A pattern without stars takes as many characters as it has. *)
Lemma globs_segment seg p t :
  "*" ∉ seg → globs (seg ++ p) t → ∃ b d, t = b ++ d ∧ length b = length seg ∧ globs p d.
Proof.
  revert t. induction seg as [|x seg IH]; intros t Hx H; [by exists [], t|].
  apply not_elem_of_cons in Hx as [Hx Hseg]. inversion H; simplify_eq.
  - destruct (IH _ Hseg ltac:(eassumption)) as (b & d & -> & Hb & ?). exists (c :: b), d.
    split_and!; [done|cbn; by f_equal|done].
  - destruct (IH _ Hseg ltac:(eassumption)) as (b & d & -> & Hb & ?). exists (x :: b), d.
    split_and!; [done|cbn; by f_equal|done].
Qed.

Lemma globs_nil_text p : globs p [] ↔ forallb (String.eqb "*") p = true.
Proof.
  split.
  - remember [] as t eqn:Ht. induction 1; simplify_eq; [done|]. cbn [forallb]. by apply IHglobs.
  - induction p as [|x p IH]; [constructor|]. cbn [forallb]. intros [Hx Hp]%andb_true_iff.
    apply String.eqb_eq in Hx as <-. apply globs_skip. by apply IH.
Qed.

(** ** The loop terminates *)

Lemma glob_loop_total fuel p t pi ti star mark :
  mark ≤ ti → ti ≤ length t → pi ≤ length p → (∀ k, star = Some k → k < length p) →
  (length t - mark) * (length p + length t + 2) + (length p - pi) + (length t - ti) < fuel →
  glob_loop fuel p t pi ti star mark ≠ None.
Proof.
  revert pi ti star mark. induction fuel as [|fuel IH]; intros pi ti star mark H1 H2 H3 H4 Hf; [by destruct (Nat.nlt_0_r _ Hf)|].
  cbn [glob_loop]. destruct (t !! ti) as [c|] eqn:Ht; [|done]. apply lookup_lt_Some in Ht.
  destruct (p !! pi) as [x|] eqn:Hp.
  - apply lookup_lt_Some in Hp. destruct (_ || _).
    + apply IH; [lia..|done|lia].
    + destruct (String.eqb x "*").
      * apply IH; [lia..| |].
        -- by intros k [= <-].
        -- pose proof (Nat.mul_le_mono_r (length t - ti) (length t - mark)
                         (length p + length t + 2) ltac:(lia)) as Hm.
           set (A := (length t - ti) * _) in *. set (B := (length t - mark) * _) in *. lia.
      * destruct star as [k|]; [|done]. specialize (H4 k eq_refl). apply IH; [lia..| |].
        -- by intros ? [= <-].
        -- replace (length t - mark) with (S (length t - S mark)) in Hf by lia. cbn in Hf. lia.
  - destruct star as [k|]; [|done]. specialize (H4 k eq_refl). apply IH; [lia..| |].
    + by intros ? [= <-].
    + replace (length t - mark) with (S (length t - S mark)) in Hf by lia. cbn in Hf. lia.
Qed.

Lemma glob_fuel_enough p t : ∃ b, glob_loop (glob_fuel p t) p t 0 0 None 0 = Some b.
Proof.
  destruct (glob_loop (glob_fuel p t) p t 0 0 None 0) as [b|] eqn:E; [by exists b|].
  apply glob_loop_total in E; [done|lia..|done|]. unfold glob_fuel. rewrite !Nat.sub_0_r. lia.
Qed.

(** ** The loop decides the meaning *)

Section loop.
Context (p t : list string).

(** What is left to match is enough for a match, and so is what the last star would retry. *)
Definition enough (pi ti : nat) (star : option nat) (mark : nat) : Prop :=
  (globs (drop pi p) (drop ti t) → globs p t)
  ∧ ∀ k, star = Some k → p !! k = Some "*" ∧ (globs (drop k p) (drop mark t) → globs p t).

Lemma drop_lookup_cons {A} (l : list A) i x : l !! i = Some x → drop i l = x :: drop (S i) l.
Proof. intros H. by rewrite (drop_S l x i). Qed.

(** Giving one more character to the last star. *)
Lemma retry_star k mark :
  p !! k = Some "*" → mark < length t →
  globs (drop (S k) p) (drop (S mark) t) → globs (drop k p) (drop mark t).
Proof.
  intros Hk Hm H. rewrite (drop_lookup_cons _ _ _ Hk).
  destruct (lookup_lt_is_Some_2 t mark Hm) as [c Hc]. rewrite (drop_lookup_cons _ _ _ Hc).
  by apply globs_take, globs_skip.
Qed.

Lemma glob_loop_sound fuel pi ti star mark :
  mark ≤ ti → enough pi ti star mark → glob_loop fuel p t pi ti star mark = Some true → globs p t.
Proof.
  revert pi ti star mark. induction fuel as [|fuel IH]; intros pi ti star mark Hm [HR HS]; [done|].
  cbn [glob_loop]. destruct (t !! ti) as [c|] eqn:Ht.
  - pose proof (lookup_lt_Some _ _ _ Ht) as Hlt.
    assert (∀ k, star = Some k → glob_loop fuel p t (S k) (S mark) (Some k) (S mark) = Some true → globs p t) as Hretry.
    { intros k Hk Hrun. destruct (HS k Hk) as [Hstar Hgo]. apply (IH (S k) (S mark) (Some k) (S mark)); [lia| |exact Hrun].
      assert (globs (drop (S k) p) (drop (S mark) t) → globs p t) as Hnext
        by (intros H; apply Hgo, retry_star; [done|lia|done]).
      split; [done|]. intros ? [= <-]. split; [done|]. intros H. apply Hgo.
      rewrite (drop_lookup_cons _ _ _ Hstar) in *.
      destruct (lookup_lt_is_Some_2 t mark ltac:(lia)) as [d Hd]. rewrite (drop_lookup_cons _ _ _ Hd).
      by apply globs_take. }
    destruct (p !! pi) as [x|] eqn:Hp; [|destruct star as [k|]; [by apply Hretry|done]].
    destruct (String.eqb x "?" || String.eqb x c) eqn:Hx.
    + intros Hrun. apply (IH (S pi) (S ti) star mark); [lia|split; [|exact HS]|exact Hrun].
      intros H. apply HR. rewrite (drop_lookup_cons _ _ _ Hp), (drop_lookup_cons _ _ _ Ht).
      apply orb_true_iff in Hx as [->%String.eqb_eq| ->%String.eqb_eq]; by constructor.
    + destruct (String.eqb x "*") eqn:Hs; [|destruct star as [k|]; [by apply Hretry|done]].
      apply String.eqb_eq in Hs as ->. intros Hrun. apply (IH (S pi) ti (Some pi) ti); [lia|split|exact Hrun].
      * intros H. apply HR. rewrite (drop_lookup_cons _ _ _ Hp). by apply globs_skip.
      * intros k [= <-]. split; [done|]. apply HR.
  - intros [= Hrest]. apply HR. apply lookup_ge_None in Ht. rewrite (drop_ge t) by done.
    by apply globs_nil_text.
Qed.

(** The greedy state: the characters since the last star matched one by one, with no star among
    them, and a match, if there is one, goes through the present state or gives that star more. *)
Definition greedy (pi ti : nat) (star : option nat) (mark : nat) : Prop :=
  match star with
  | None => globs (drop pi p) (drop ti t)
  | Some k =>
      (∃ seg, "*" ∉ seg ∧ drop k p = "*" :: seg ++ drop pi p ∧ ti = mark + length seg)
      ∧ (globs (drop pi p) (drop ti t) ∨ (mark < length t ∧ globs (drop k p) (drop (S mark) t)))
  end.

(** A star met on the way makes retrying the one before it useless. *)
Lemma later_star_suffices k seg pi ti mark :
  "*" ∉ seg → drop k p = "*" :: seg ++ drop pi p → ti = mark + length seg → p !! pi = Some "*" →
  mark < length t → globs (drop k p) (drop (S mark) t) →
  ti < length t ∧ globs (drop pi p) (drop (S ti) t).
Proof.
  intros Hseg Hk -> Hp Hm H. rewrite Hk in H. apply globs_star in H as (a & d & Hd & H).
  apply globs_segment in H as (b & e & -> & Hb & H); [|done].
  assert (drop (S mark + length seg) t = drop (length seg) (a ++ b) ++ e) as Hdrop.
  { rewrite <- drop_drop, Hd, app_assoc. rewrite drop_app_le; [done|]. rewrite length_app. lia. }
  assert (length t - S mark = length a + (length b + length e)) as Hlen
    by (rewrite <- (length_drop t), Hd, !length_app; lia).
  rewrite (drop_lookup_cons _ _ _ Hp) in *.
  split.
  - destruct (decide (mark + length seg < length t)); [done|]. lia.
  - change (S (mark + length seg)) with (S mark + length seg). rewrite Hdrop.
    apply globs_star in H as (a' & d' & -> & H). apply globs_star.
    exists (drop (length seg) (a ++ b) ++ a'), d'. by rewrite app_assoc.
Qed.

Context (star_free : "*" ∉ t).

(** One character matched. *)
Lemma greedy_advance pi ti star mark x c :
  greedy pi ti star mark → p !! pi = Some x → t !! ti = Some c → x = "?" ∨ x = c →
  greedy (S pi) (S ti) star mark.
Proof using star_free.
  intros Hg Hp Ht Hx.
  assert (x ≠ "*") as Hns by (intros ->; destruct Hx as [?| <-]; [done|apply star_free; by eapply list_elem_of_lookup_2]).
  assert (globs (drop pi p) (drop ti t) → globs (drop (S pi) p) (drop (S ti) t)) as Hstep.
  { rewrite (drop_lookup_cons _ _ _ Hp), (drop_lookup_cons _ _ _ Ht). by inversion 1; simplify_eq. }
  destruct star as [k|]; [|by apply Hstep]. destruct Hg as [(seg & Hseg & Hk & ->) Hg]. split.
  - exists (seg ++ [x]). split_and!.
    + apply not_elem_of_app. split; [done|]. by apply not_elem_of_cons; split; [|apply not_elem_of_nil].
    + by rewrite Hk, (drop_lookup_cons _ _ _ Hp), <- app_assoc.
    + rewrite length_app. cbn. lia.
  - destruct Hg as [Hg|Hg]; [left; by apply Hstep|by right].
Qed.

Lemma greedy_new_star pi ti star mark :
  greedy pi ti star mark → p !! pi = Some "*" → ti < length t → greedy (S pi) ti (Some pi) ti.
Proof.
  intros Hg Hp Hti. split.
  - exists []. split_and!; [apply not_elem_of_nil|by rewrite (drop_lookup_cons _ _ _ Hp)|cbn; lia].
  - assert (globs (drop pi p) (drop ti t) →
            globs (drop (S pi) p) (drop ti t) ∨ ti < length t ∧ globs (drop pi p) (drop (S ti) t)) as Hsplit.
    { rewrite (drop_lookup_cons _ _ _ Hp). destruct (lookup_lt_is_Some_2 t ti Hti) as [c Hc].
      rewrite (drop_lookup_cons _ _ _ Hc). intros H. apply globs_star in H as ([|c' a] & d & Hd & H); cbn in Hd.
      - left. by rewrite Hd.
      - right. split; [done|]. simplify_eq. apply globs_star. by exists a, d. }
    destruct star as [k|]; [|by apply Hsplit]. destruct Hg as [(seg & Hseg & Hk & Hti') [Hg|[Hm Hg]]].
    + by apply Hsplit.
    + right. by eapply later_star_suffices.
Qed.

Lemma greedy_retry pi ti k mark :
  greedy pi ti (Some k) mark → ¬ globs (drop pi p) (drop ti t) →
  greedy (S k) (S mark) (Some k) (S mark) ∧ mark < length t.
Proof.
  intros [(seg & Hseg & Hk & ->) [Hg|[Hm Hg]]] Hno; [done|]. split; [|done].
  assert (drop k p = "*" :: drop (S k) p) as Hk'.
  { assert (p !! k = Some "*") as H by (rewrite <- (Nat.add_0_r k), <- lookup_drop, Hk; done).
    by apply drop_lookup_cons. }
  split.
  - exists []. split_and!; [apply not_elem_of_nil|by rewrite Hk'|cbn; lia].
  - rewrite Hk' in *. apply globs_star in Hg as ([|c a] & d & Hd & H); cbn in Hd; [left; by rewrite Hd|right].
    assert (t !! S mark = Some c) as Hc by (rewrite <- (Nat.add_0_r (S mark)), <- lookup_drop, Hd; done).
    split; [by eapply lookup_lt_Some|]. rewrite (drop_lookup_cons _ _ _ Hc) in Hd. simplify_eq.
    apply globs_star. by exists a, d.
Qed.

Lemma glob_loop_complete fuel pi ti star mark b :
  greedy pi ti star mark → glob_loop fuel p t pi ti star mark = Some b → b = true.
Proof using star_free.
  revert pi ti star mark. induction fuel as [|fuel IH]; intros pi ti star mark Hg; [done|].
  cbn [glob_loop]. destruct (t !! ti) as [c|] eqn:Ht.
  - assert (¬ globs (drop pi p) (drop ti t) →
            (match star with Some k => glob_loop fuel p t (S k) (S mark) (Some k) (S mark) | None => Some false end)
            = Some b → b = true) as Hretry.
    { intros Hno. destruct star as [k|]; [|by destruct Hno].
      destruct (greedy_retry _ _ _ _ Hg Hno) as [Hg' _]. by apply IH. }
    destruct (p !! pi) as [x|] eqn:Hp.
    + destruct (String.eqb x "?" || String.eqb x c) eqn:Hx.
      * apply IH. eapply greedy_advance; [done..|].
        apply orb_true_iff in Hx as [->%String.eqb_eq| ->%String.eqb_eq]; auto.
      * destruct (String.eqb x "*") eqn:Hs.
        -- apply String.eqb_eq in Hs as ->. apply IH. eapply greedy_new_star; [done..|]. by eapply lookup_lt_Some.
        -- apply Hretry. rewrite (drop_lookup_cons _ _ _ Hp), (drop_lookup_cons _ _ _ Ht).
           apply orb_false_iff in Hx as [H1%String.eqb_neq H2%String.eqb_neq]. apply String.eqb_neq in Hs.
           by inversion 1; simplify_eq.
    + apply Hretry. rewrite (drop_lookup_cons _ _ _ Ht). apply lookup_ge_None in Hp.
      rewrite (drop_ge p) by done. by inversion 1.
  - intros [= <-]. apply lookup_ge_None in Ht. apply globs_nil_text.
    destruct star as [k|]; [|red in Hg; by rewrite (drop_ge t) in Hg].
    destruct Hg as [(seg & Hseg & Hk & ->) [Hg|[Hm Hg]]]; [by rewrite (drop_ge t) in Hg|].
    rewrite Hk in Hg. apply globs_star in Hg as (a & d & Hd & H).
    apply globs_segment in H as (b' & e & -> & Hb & H); [|done].
    apply (f_equal length) in Hd. rewrite length_drop, !length_app in Hd. lia.
Qed.
End loop.

(** A permission glob means what it says: the two-pointer matcher always stops, whenever it accepts
    a word the pattern matches it, stars taking any characters and question marks one, and it accepts
    every word the pattern matches that has no star of its own. *)
Theorem match_simple_exact (pat text : string) :
  (∃ b, glob_loop (glob_fuel (chars pat) (chars text)) (chars pat) (chars text) 0 0 None 0 = Some b)
  ∧ (match_simple pat text = true → globs (chars pat) (chars text))
  ∧ ("*" ∉ chars text → globs (chars pat) (chars text) → match_simple pat text = true).
Proof.
  unfold match_simple. cbv zeta. set (p := chars pat). set (t := chars text).
  destruct (glob_fuel_enough p t) as [b Hb]. split_and!; [by exists b| |].
  - rewrite Hb. simpl. intros ->. eapply glob_loop_sound; [| |exact Hb]; [done|].
    split; [done|]. by intros k.
  - intros Hfree H. rewrite Hb. simpl. eapply (glob_loop_complete p t Hfree); [|exact Hb]. exact H.
Qed.

(** A star of the text that meets the star of the pattern is taken as the same character, and the
    star matches nothing else: a rule about [*.txt] does not see [*a.txt]. *)
Example star_in_text_missed :
  globs (chars "*.txt") (chars "*a.txt") ∧ match_simple "*.txt" "*a.txt" = false
  ∧ match_simple "*.txt" "a.txt" = true.
Proof.
  split_and!; [|by vm_compute|by vm_compute].
  apply globs_star. exists ["*"; "a"], [".";"t";"x";"t"]. split; [done|]. repeat apply globs_same. constructor.
Qed.

(** ** Words *)

Lemma match_words_exact pat sub : match_words pat sub = true ↔ words_match pat sub.
Proof.
  revert sub. induction pat as [|w pat IH]; intros sub; cbn [match_words].
  { split; [by destruct sub; [constructor|]|by inversion 1]. }
  destruct (is_star_word w) eqn:Hw.
  - rewrite existsb_elem. split.
    + intros (skip & _ & H%IH). clear IH. revert sub H. induction skip as [|skip IH]; intros sub H.
      * by apply words_skip.
      * destruct sub as [|x sub]; [by apply words_skip|]. by apply words_take, IH.
    + intros H. remember (w :: pat) as q eqn:Hq. induction H; simplify_eq.
      * exists 0. split; [apply elem_of_seq; lia|by apply IH].
      * destruct IHwords_match as (skip & Hs%elem_of_seq & ?); [done..|]. exists (S skip).
        split; [apply elem_of_seq; cbn; lia|done].
      * congruence.
  - destruct sub as [|x sub]; [split; [done|inversion 1; congruence]|]. rewrite andb_true_iff, IH. split.
    + intros [? ?]. by apply words_one.
    + inversion 1; simplify_eq; [congruence..|done].
Qed.
