(* ===== verification/PermissionRules.v ===== *)
(** * Permission rules (crates/arterm-base/src/config/permission_rules.rs)

    A line of the configuration (a verb, a tool name, a pattern in parentheses) is parsed into a rule, the rules decide a
    tool call, and [permission_gate.rs] of the application turns the decision into a refusal.  Whether a
    character outside ASCII is alphanumeric, and the text of a JSON value, are parameters. *)

From S2P Require Export TrimFacts Json Glob.

Inductive PermissionDecision := Decision_Deny | Decision_Ask | Decision_Allow | Decision_Default.

#[export] Instance PermissionDecision_eq_dec : EqDecision PermissionDecision.
Proof. solve_decision. Defined.

Record PermissionRule := MkRule {
  decision : PermissionDecision;
  tool : string;
  specifier : option string;
}.

(** What the gate decided about one tool call. *)
Inductive GateAnswer := Gate_Allow | Gate_Blocked (reason message : string).

(** The parsed rules, [PermissionRules]. *)
Notation PermissionRules := (list PermissionRule).

Definition opening : ascii := "(".
Definition closing : ascii := ")".

(** ** Deciding a call *)

Section decide.
(** [Value::to_string] *)
Context (json_text : Json → string).

Definition SUBJECT_KEYS : list string := ["command"; "file_path"; "path"; "url"; "patch_text"].

(** [input.get(key).and_then(Value::as_str)] *)
Definition get_str (input : Json) (key : string) : option string :=
  match as_object input with
  | Some m => match bt_get key m with Some v => as_str v | None => None end
  | None => None
  end.

Definition primary_subject (input : Json) : string :=
  match head (omap (get_str input) SUBJECT_KEYS) with
  | Some s => s
  | None => json_text input
  end.

Definition rule_matches (r : PermissionRule) (name : string) (input : Json) : bool :=
  if negb (String.eqb (tool r) (to_ascii_lowercase name)) then false
  else match specifier r with
       | None => true
       | Some pattern => glob_words_match pattern (primary_subject input)
       end.

Definition tier (d : PermissionDecision) : nat :=
  match d with Decision_Deny => 0 | Decision_Ask => 1 | Decision_Allow => 2 | Decision_Default => 3 end.

Definition specificity (r : PermissionRule) : nat :=
  match specifier r with Some s => String.length s | None => 0 end.

(** One turn of the loop of [decide]. *)
Definition better_rule (name : string) (input : Json)
    (best : option (nat * PermissionDecision * nat)) (r : PermissionRule) : option (nat * PermissionDecision * nat) :=
  if negb (rule_matches r name input) then best
  else
    let t := tier (decision r) in
    let better := match best with
                  | None => true
                  | Some (bt, _, bs) => (t <? bt) || ((t =? bt) && (bs <? specificity r))
                  end in
    if better then Some (t, decision r, specificity r) else best.

Definition rules_decide (rules : PermissionRules) (name : string) (input : Json) : PermissionDecision :=
  match foldl (better_rule name input) None rules with
  | Some (_, d, _) => d
  | None => Decision_Default
  end.

Definition deny_message (resolved_name : string) : string :=
  "Tool call blocked by permission rules: " +:+ resolved_name +:+ " matched a deny rule".

Definition ask_message (resolved_name : string) : string :=
  "Tool call blocked by permission rules: " +:+ resolved_name
  +:+ " matched an `ask` rule, and interactive approval is not wired up yet, so the call is "
  +:+ "refused rather than run unasked. Change the rule to `allow` to permit it, or `deny` to make "
  +:+ "the refusal explicit.".

(** [permission_gate::evaluate] *)
Definition gate_evaluate (rules : PermissionRules) (resolved_name : string) (input : Json) : GateAnswer :=
  if is_nil rules then Gate_Allow
  else match rules_decide rules resolved_name input with
       | Decision_Deny =>
           Gate_Blocked "matched a deny permission rule"
             (deny_message resolved_name)
       | Decision_Ask =>
           Gate_Blocked "matched an ask permission rule, and this session cannot ask"
             (ask_message resolved_name)
       | Decision_Allow | Decision_Default => Gate_Allow
       end.
End decide.

(** ** Parsing and printing *)

Section parse.
Context (wide_alphanumeric : string → bool).

Definition tool_char (w : string) : bool := is_alphanumeric wide_alphanumeric w || String.eqb w "_".

Definition split_verb (text : string) : PermissionDecision * string :=
  match strip_prefix "deny " text with
  | Some rest => (Decision_Deny, trim rest)
  | None =>
      match strip_prefix "ask " text with
      | Some rest => (Decision_Ask, trim rest)
      | None =>
          match strip_prefix "allow " text with
          | Some rest => (Decision_Allow, trim rest)
          | None => (Decision_Allow, text)
          end
      end
  end.

(** [Tool(specifier)] or a bare tool. *)
Definition split_specifier (rest : string) : string * option string :=
  match str_find (str1 opening) rest with
  | Some open =>
      if ends_with (str1 closing) rest then
        let spec := trim (str_take (String.length rest - 1 - S open) (str_drop (S open) rest)) in
        (to_ascii_lowercase (trim (str_take open rest)), if is_empty spec then None else Some spec)
      else (to_ascii_lowercase (trim rest), None)
  | None => (to_ascii_lowercase (trim rest), None)
  end.

(** [PermissionRule::parse] *)
Definition rule_parse (text : string) : result PermissionRule string :=
  let text := trim text in
  if is_empty text then Err "empty permission rule"
  else
    let '(d, rest) := split_verb text in
    let '(name, spec) := split_specifier rest in
    if is_empty name || negb (forallb tool_char (chars name))
    then Err ("invalid tool name in permission rule '" +:+ text +:+ "'")
    else Ok (MkRule d name spec).

Fixpoint parse_all (ls : list string) : result PermissionRules string :=
  match ls with
  | [] => Ok []
  | line :: ls =>
      let line := trim line in
      if is_empty line || starts_with "#" line then parse_all ls
      else let? r := rule_parse line in let? rs := parse_all ls in Ok (r :: rs)
  end.

(** [PermissionRules::extend_rules] *)
Definition extend_rules (rules : PermissionRules) (ls : list string) : PermissionRules :=
  match parse_all ls with Ok extra => rules ++ extra | Err _ => rules end.

Definition rule_line (r : PermissionRule) : string :=
  let verb := match decision r with Decision_Deny => "deny " | Decision_Ask => "ask " | _ => "" end in
  match specifier r with
  | Some spec => verb +:+ tool r +:+ str1 opening +:+ spec +:+ str1 closing
  | None => verb +:+ tool r
  end.

(** [From<PermissionRules> for Vec<String>] *)
Definition rules_lines (rules : PermissionRules) : list string := map rule_line rules.

End parse.

(** ** The decision *)

Section decide_facts.
Context (json_text : Json → string) (name : string) (input : Json).

(** Some matching rule has this verb. *)
Definition some_rule (rules : PermissionRules) (d : PermissionDecision) : bool :=
  existsb (λ r, bool_decide (decision r = d) && rule_matches json_text r name input) rules.

Lemma some_rule_iff rules d :
  some_rule rules d = true ↔ ∃ r, r ∈ rules ∧ decision r = d ∧ rule_matches json_text r name input = true.
Proof.
  unfold some_rule. rewrite existsb_elem. split; intros (r & Hr & H).
  - apply andb_true_iff in H as [H%bool_decide_eq_true ?]. by exists r.
  - exists r. split; [done|]. apply andb_true_iff. by rewrite bool_decide_eq_true.
Qed.

Lemma tier_inj d e : tier d = tier e → d = e.
Proof. by destruct d, e. Qed.

(** What the loop knows after some rules: no rule has matched, or the best tier is that of a matching
    rule and no matching rule has a better one. *)
Definition best_of (rules : PermissionRules) (best : option (nat * PermissionDecision * nat)) : Prop :=
  match best with
  | None => ∀ r, r ∈ rules → rule_matches json_text r name input = false
  | Some (t, d, _) =>
      t = tier d ∧ some_rule rules d = true
      ∧ ∀ r, r ∈ rules → rule_matches json_text r name input = true → t ≤ tier (decision r)
  end.

Lemma better_rule_best rules best r :
  best_of rules best → best_of (rules ++ [r]) (better_rule json_text name input best r).
Proof.
  unfold better_rule. intros Hb. destruct (rule_matches json_text r name input) eqn:Hm; cbn [negb].
  - assert (some_rule (rules ++ [r]) (decision r) = true) as Hr
      by (apply some_rule_iff; exists r; set_solver).
    destruct best as [[[t d] s]|]; cbn [best_of] in *.
    + destruct Hb as (-> & Hd & Hle). destruct (_ || _) eqn:Hbt.
      * split_and!; [done..|]. intros r' [H|[->|[]%not_elem_of_nil]%elem_of_cons]%elem_of_app ?; [|done].
        pose proof (Hle _ H ltac:(done)).
        apply orb_true_iff in Hbt as [?%Nat.ltb_lt|[?%Nat.eqb_eq _]%andb_true_iff]; lia.
      * split; [done|]. split.
        { apply some_rule_iff in Hd as (r' & ? & ?). apply some_rule_iff. exists r'. set_solver. }
        intros r' [H|[->|[]%not_elem_of_nil]%elem_of_cons]%elem_of_app ?; [by apply Hle|].
        apply orb_false_iff in Hbt as [?%Nat.ltb_ge _]. lia.
    + split_and!; [done..|]. intros r' [H|[->|[]%not_elem_of_nil]%elem_of_cons]%elem_of_app Hr'; [|done].
      by rewrite Hb in Hr'.
  - destruct best as [[[t d] s]|]; cbn [best_of] in *.
    + destruct Hb as (-> & Hd & Hle). split; [done|]. split.
      * apply some_rule_iff in Hd as (r' & ? & ?). apply some_rule_iff. exists r'. set_solver.
      * intros r' [H|[->|[]%not_elem_of_nil]%elem_of_cons]%elem_of_app Hr'; [by apply Hle|congruence].
    + intros r' [H|[->|[]%not_elem_of_nil]%elem_of_cons]%elem_of_app; [by apply Hb|done].
Qed.

Lemma fold_best rules : best_of rules (foldl (better_rule json_text name input) None rules).
Proof.
  induction rules as [|r rules IH] using rev_ind; [by intros r ?%not_elem_of_nil|].
  rewrite foldl_snoc. by apply better_rule_best.
Qed.

Lemma some_rule_false rules d best :
  best_of rules best → (match best with Some (t, _, _) => tier d < t | None => True end) →
  some_rule rules d = false.
Proof.
  intros Hb Hlt. apply not_true_iff_false. intros (r & Hr & <- & Hm)%some_rule_iff.
  destruct best as [[[t d'] s]|]; cbn [best_of] in *; [|by rewrite Hb in Hm].
  destruct Hb as (_ & _ & Hle). specialize (Hle _ Hr Hm). lia.
Qed.

(** The decision depends on nothing but which verbs the matching rules have. *)
Lemma rules_decide_tiers rules :
  rules_decide json_text rules name input =
    (if some_rule rules Decision_Deny then Decision_Deny
     else if some_rule rules Decision_Ask then Decision_Ask
     else if some_rule rules Decision_Allow then Decision_Allow
     else Decision_Default).
Proof.
  unfold rules_decide. pose proof (fold_best rules) as Hb.
  destruct (foldl _ _ _) as [[[t d] s]|] eqn:Hf.
  - destruct Hb as (-> & Hd & Hle).
    destruct d; rewrite ?Hd; repeat (rewrite (some_rule_false rules _ (Some (_, _, s))) by
      (try exact (conj eq_refl (conj Hd Hle)); simpl; lia)); done.
  - by rewrite !(some_rule_false rules _ None).
Qed.

(** C21. Deny beats ask, ask beats allow: the gate refuses a call exactly when some matching rule denies it
    or asks about it, a denial is named before a question, and neither the order of the rules nor how
    specific they are makes a difference. *)
Theorem deny_beats_ask_beats_allow rules :
  gate_evaluate json_text rules name input =
    (if some_rule rules Decision_Deny
     then Gate_Blocked "matched a deny permission rule" (deny_message name)
     else if some_rule rules Decision_Ask
     then Gate_Blocked "matched an ask permission rule, and this session cannot ask" (ask_message name)
     else Gate_Allow).
Proof.
  unfold gate_evaluate. destruct rules as [|r rules]; [done|]. cbn [is_nil]. rewrite rules_decide_tiers.
  by repeat case_match.
Qed.

Lemma gate_allows_iff rules :
  gate_evaluate json_text rules name input = Gate_Allow ↔
  ∀ r, r ∈ rules → rule_matches json_text r name input = true →
       decision r ≠ Decision_Deny ∧ decision r ≠ Decision_Ask.
Proof.
  assert (gate_evaluate json_text rules name input = Gate_Allow
          ↔ some_rule rules Decision_Deny = false ∧ some_rule rules Decision_Ask = false) as ->.
  { unfold gate_evaluate. destruct rules as [|r rules]; [done|]. cbn [is_nil]. rewrite rules_decide_tiers.
    repeat case_match; naive_solver. }
  rewrite <- !not_true_iff_false, !some_rule_iff. split.
  - intros [Hd Ha] r Hr Hm. split; intros E; [apply Hd|apply Ha]; by exists r.
  - intros H. split; intros (r & Hr & Hd & Hm); by destruct (H r Hr Hm).
Qed.
End decide_facts.

(** ** Saving and loading rules *)

Section roundtrip.
Context (wide : string → bool).

(** The names [parse] accepts hold no ASCII character but letters, digits and underscores. *)
Lemma tool_name_free c s :
  (byte c < 128)%N → is_ascii_alphanumeric c = false → c ≠ "_"%char →
  forallb (tool_char wide) (chars s) = true → contains_char c s = false.
Proof.
  intros Hc Hn Hu.
  assert (∀ w, (∃ d t, w = String d t ∧ is_continuation d = true) ∨ tool_char wide w = true →
               first_char w ≠ Some c) as Hw.
  { intros w [(d & t & -> & Hd)|Hw]; intros [= E].
    - subst d. unfold is_continuation in Hd. apply andb_true_iff in Hd as [?%N.leb_le _]. lia.
    - destruct w as [|d t]; [done|]. injection E as ->. unfold tool_char, is_alphanumeric in Hw.
      rewrite (proj2 (N.ltb_lt _ _) Hc), Hn in Hw. apply String.eqb_eq in Hw. congruence. }
  intros Hs. assert (match chars s with
                     | w :: ws => first_char w ≠ Some c ∧ forallb (tool_char wide) ws = true
                     | [] => True end) as H.
  { destruct (chars s) as [|w ws]; [done|]. cbn [forallb] in Hs. apply andb_true_iff in Hs as [? ?].
    split; [|done]. apply Hw. by right. }
  clear Hs. induction s as [|d s IH]; [done|]. cbn [contains_char]. cbn [chars] in H.
  assert (first_char (String d "") ≠ Some c → Ascii.eqb c d = false) as Hd.
  { intros Hne. apply Ascii.eqb_neq. intros ->. by apply Hne. }
  destruct (chars s) as [|w ws] eqn:Hch.
  - destruct H as [H _]. rewrite Hd by done. by apply IH.
  - destruct w as [|e t].
    + destruct H as [H ?]. rewrite Hd by done. by apply IH.
    + destruct (is_continuation e) eqn:He; destruct H as [H Hws]; rewrite Hd by done; apply IH.
      * split; [|done]. apply Hw. left. by eexists _, _.
      * apply andb_true_iff in Hws as [Hx ?]. split; [|done]. apply Hw. by right.
Qed.

Lemma contains_char_find c s : contains_char c s = false → str_find (str1 c) s = None.
Proof.
  intros H. destruct (str_find (str1 c) s) as [n|] eqn:Hf; [|done].
  apply str_find_Some in Hf as (a & b & -> & _). rewrite !contains_char_app in H. simpl in H.
  rewrite Ascii.eqb_refl in H. by rewrite orb_true_r in H.
Qed.

Lemma find_first_char c a b :
  contains_char c a = false → str_find (str1 c) (a +:+ str1 c +:+ b) = Some (String.length a).
Proof.
  intros Ha. destruct (str_find _ _) as [n|] eqn:Hf.
  - pose proof (str_find_first _ _ _ a b Hf eq_refl) as Hle. f_equal.
    apply str_find_Some in Hf as (x & y & Hxy & <-).
    destruct (Nat.eq_dec (String.length x) (String.length a)) as [|Hne]; [done|].
    assert (∃ u v, a = x +:+ String u v ∧ String u (v +:+ str1 c +:+ b) = str1 c +:+ y) as (u & v & -> & E).
    { clear -Hxy Hne Hle. revert x Hxy Hne Hle. induction a as [|h a IH]; intros [|k x] Hxy Hne Hle; simpl in *; try lia.
      - by exists h, a.
      - injection Hxy as -> Hxy. destruct (IH x Hxy) as (u & v & -> & ?); [lia..|]. by exists u, v. }
    injection E as -> _. rewrite contains_char_app in Ha. simpl in Ha. rewrite Ascii.eqb_refl in Ha.
    by rewrite orb_true_r in Ha.
  - by destruct (str_find_None _ _ Hf a b).
Qed.

(** What [parse] makes. *)
Definition rule_wf (r : PermissionRule) : Prop :=
  decision r ≠ Decision_Default ∧ tool r ≠ "" ∧ forallb (tool_char wide) (chars (tool r)) = true
  ∧ trimmed (tool r) ∧ to_ascii_lowercase (tool r) = tool r
  ∧ ∀ s, specifier r = Some s → s ≠ "" ∧ trimmed s.

Lemma split_verb_decision text : (split_verb text).1 ≠ Decision_Default.
Proof. unfold split_verb. by repeat case_match. Qed.

Lemma split_specifier_wf rest name spec :
  split_specifier rest = (name, spec) →
  trimmed name ∧ to_ascii_lowercase name = name ∧ ∀ s, spec = Some s → s ≠ "" ∧ trimmed s.
Proof.
  unfold split_specifier. cbv zeta. intros H.
  repeat case_match; simplify_eq; (split_and!; [apply trimmed_lower, trim_trimmed|apply lower_idemp|]);
    intros s [= <-]; (split; [by apply is_empty_false|apply trim_trimmed]).
Qed.

Lemma rule_parse_wf text r : rule_parse wide text = Ok r → rule_wf r.
Proof.
  unfold rule_parse. cbv zeta. destruct (is_empty (trim text)); [done|].
  destruct (split_verb (trim text)) as [d rest] eqn:Hv.
  destruct (split_specifier rest) as [name spec] eqn:Hs. destruct (_ || _) eqn:Hbad; [done|]. intros [= <-].
  apply orb_false_iff in Hbad as [Hne%is_empty_false Hch%negb_false_iff].
  pose proof (split_verb_decision (trim text)) as Hd. rewrite Hv in Hd.
  apply split_specifier_wf in Hs as (? & ? & ?). by repeat split_and.
Qed.

Definition verb_text (d : PermissionDecision) : string :=
  match d with Decision_Deny => "deny " | Decision_Ask => "ask " | _ => "" end.

(** A rule without its verb. *)
Definition rule_body (r : PermissionRule) : string :=
  match specifier r with
  | Some spec => tool r +:+ str1 opening +:+ spec +:+ str1 closing
  | None => tool r
  end.

Lemma rule_line_body r : rule_line r = verb_text (decision r) +:+ rule_body r.
Proof. unfold rule_line, rule_body, verb_text. by destruct (specifier r), (decision r). Qed.

Lemma rule_body_trimmed r : rule_wf r → trimmed (rule_body r).
Proof.
  intros (_ & Hne & _ & [Hl Hr] & _ & _). unfold rule_body. destruct (specifier r) as [spec|]; [|done]. split.
  - change (str1 opening +:+ spec +:+ str1 closing) with (String opening (spec +:+ str1 closing)).
    by apply lead_ws_ascii.
  - rewrite !rev_app. by apply (solid_lead_rev closing).
Qed.

Lemma rule_line_trimmed r : rule_wf r → trimmed (rule_line r).
Proof.
  intros Hwf. pose proof (rule_body_trimmed r Hwf) as [Hl Hr]. rewrite rule_line_body.
  destruct Hwf as (_ & Hne & _).
  assert (String.rev (rule_body r) ≠ "") as Hrev.
  { intros E. assert (rule_body r = "") as Hb by (rewrite <- (rev_rev (rule_body r)), E; done).
    unfold rule_body in Hb. destruct (specifier r), (tool r); done. }
  destruct (decision r); cbn [verb_text]; (split; [by apply solid_lead || exact Hl|]); rewrite rev_app;
    try (change (String.rev "") with ""; rewrite str_app_nil_r; exact Hr); by apply (lead_ws_rev_ascii _ " "%char).
Qed.

Lemma split_body r : rule_wf r → split_specifier (rule_body r) = (tool r, specifier r).
Proof.
  intros (_ & Hne & Hch & Htr & Hlow & Hspec). pose proof (tool_name_free opening _ eq_refl eq_refl ltac:(done) Hch) as Ho.
  unfold split_specifier, rule_body. destruct (specifier r) as [spec|].
  - rewrite find_first_char by done.
    assert (ends_with (str1 closing) (tool r +:+ str1 opening +:+ spec +:+ str1 closing) = true) as ->.
    { unfold ends_with. apply starts_with_iff. rewrite !rev_app. by eexists. }
    rewrite str_take_app, trim_id, Hlow by done. destruct (Hspec spec eq_refl) as [Hs Hst].
    assert (str_drop (S (String.length (tool r))) (tool r +:+ str1 opening +:+ spec +:+ str1 closing)
            = spec +:+ str1 closing) as ->.
    { rewrite (str_app_assoc (tool r)).
      replace (S (String.length (tool r))) with (String.length (tool r +:+ str1 opening))
        by (rewrite str_length_app; simpl; lia). apply str_drop_app. }
    replace (_ - _ - _) with (String.length spec) by (rewrite !str_length_app; simpl; lia).
    rewrite str_take_app, trim_id by done. cbv zeta. by rewrite (proj2 (is_empty_false spec)).
  - rewrite contains_char_find by done. by rewrite trim_id, Hlow.
Qed.

(** Two texts that are first cut by different characters differ. *)
Lemma cut_apart c d a p u t :
  contains_char d a = false → contains_char c p = false → c ≠ d → a +:+ String c u ≠ p +:+ String d t.
Proof.
  intros Ha Hp Hcd. revert p Hp. induction a as [|x a IH]; intros [|y p] Hp E; simpl in *.
  - injection E as ->. done.
  - injection E as -> _. by rewrite Ascii.eqb_refl in Hp.
  - injection E as -> _. by rewrite Ascii.eqb_refl in Ha.
  - injection E as -> E. apply orb_false_iff in Ha as [? Ha], Hp as [? Hp]. by apply (IH Ha p Hp).
Qed.

Lemma body_no_verb r p :
  rule_wf r → contains_char opening p = false → strip_prefix (p +:+ " ") (rule_body r) = None.
Proof.
  intros (_ & _ & Hch & _) Hp. pose proof (tool_name_free " "%char _ eq_refl eq_refl ltac:(done) Hch) as Hsp.
  destruct (strip_prefix _ _) as [t|] eqn:E; [|done]. apply strip_prefix_Some in E.
  rewrite <- str_app_assoc in E. change (" " +:+ t) with (String " " t) in E.
  unfold rule_body in E. destruct (specifier r) as [spec|]; [by apply cut_apart in E|].
  rewrite E, contains_char_app in Hsp. simpl in Hsp. by rewrite orb_true_r in Hsp.
Qed.

Lemma split_verb_line r : rule_wf r → split_verb (rule_line r) = (decision r, rule_body r).
Proof.
  intros Hwf. rewrite rule_line_body.
  pose proof (trim_id _ (rule_body_trimmed r Hwf)) as Ht. pose proof (body_no_verb r) as Hb.
  pose proof (Hb "deny" Hwf eq_refl) as H1. pose proof (Hb "ask" Hwf eq_refl) as H2.
  pose proof (Hb "allow" Hwf eq_refl) as H3. simpl in H1, H2, H3. clear Hb.
  destruct Hwf as (Hd & _). unfold split_verb. destruct (decision r); cbn [verb_text]; [| | |done].
  - change ("deny " +:+ rule_body r) with ("deny " +:+ rule_body r).
    by rewrite (proj2 (strip_prefix_Some "deny " _ (rule_body r)) eq_refl), Ht.
  - rewrite (proj2 (strip_prefix_Some "ask " _ (rule_body r)) eq_refl), Ht.
    by assert (strip_prefix "deny " ("ask " +:+ rule_body r) = None) as -> by done.
  - change ("" +:+ rule_body r) with (rule_body r). by rewrite H1, H2, H3.
Qed.

Lemma rule_parse_line r : rule_wf r → rule_parse wide (rule_line r) = Ok r.
Proof.
  intros Hwf. unfold rule_parse. cbv zeta. rewrite (trim_id _ (rule_line_trimmed r Hwf)).
  rewrite split_verb_line, split_body by done. destruct Hwf as (_ & Hne & Hch & _).
  assert (is_empty (rule_line r) = false) as ->.
  { apply is_empty_false. rewrite rule_line_body. unfold rule_body.
    destruct (decision r), (specifier r), (tool r); done. }
  rewrite (proj2 (is_empty_false _) Hne), Hch. cbn [orb negb]. by destruct r.
Qed.

Lemma rule_line_kept r :
  rule_wf r → is_empty (rule_line r) = false ∧ starts_with "#" (rule_line r) = false.
Proof.
  intros (_ & Hne & Hch & _). rewrite rule_line_body. unfold rule_body.
  pose proof (tool_name_free "#"%char _ eq_refl eq_refl ltac:(done) Hch) as Hh.
  destruct (tool r) as [|c t]; [done|]. cbn [contains_char] in Hh.
  apply orb_false_iff in Hh as [Hc%Ascii.eqb_neq _].
  assert (∀ x, starts_with "#" (String c x) = false) as Hs.
  { intros x. apply not_true_iff_false. intros (u & E)%starts_with_iff. by injection E as ->. }
  destruct (decision r), (specifier r); (split; [done|]); try done; by apply Hs.
Qed.

Lemma parse_all_lines rules : Forall rule_wf rules → parse_all wide (rules_lines rules) = Ok rules.
Proof.
  induction 1 as [|r rules Hr _ IH]; [done|]. cbn [rules_lines map parse_all].
  rewrite (trim_id _ (rule_line_trimmed r Hr)). destruct (rule_line_kept r Hr) as [-> ->]. cbn [orb].
  rewrite rule_parse_line by done. unfold rules_lines in IH. by rewrite IH.
Qed.

Lemma parse_all_wf ls rules : parse_all wide ls = Ok rules → Forall rule_wf rules.
Proof.
  revert rules. induction ls as [|line ls IH]; cbn [parse_all]; intros rules H; [by simplify_eq|].
  destruct (_ || _); [by apply IH|]. destruct (rule_parse wide (trim line)) as [r|] eqn:Hr; [|done].
  destruct (parse_all wide ls) as [rs|] eqn:Hls; [|done]. simplify_eq.
  constructor; [by eapply rule_parse_wf|by apply IH].
Qed.

(** C30. Rules survive being saved: the lines written for a parsed set of rules are read back as exactly
    these rules, and a profile overlay of such lines appends them all. *)
Theorem rules_survive_saving ls rules more :
  parse_all wide ls = Ok rules →
  parse_all wide (rules_lines rules) = Ok rules ∧ extend_rules wide more (rules_lines rules) = more ++ rules.
Proof.
  intros H%parse_all_wf%parse_all_lines. split; [done|]. unfold extend_rules. by rewrite H.
Qed.
End roundtrip.

(** One line that does not parse silences a whole profile overlay, its denials included. *)
Example overlay_dropped :
  extend_rules (λ _, false) [] ["deny Bash(rm *)"; "deny bad tool(x)"] = []
  ∧ rules_lines (extend_rules (λ _, false) [] ["deny Bash(rm *)"]) = ["deny bash(rm *)"].
Proof. by vm_compute. Qed.

Lemma rules_survive_saving_witness :
  ∃ rules, parse_all (λ _, true) [" # comment"; "deny Bash( rm  -rf * )"; "Edit"; "ask allow(x)"] = Ok rules
  ∧ length rules = 3 ∧ parse_all (λ _, true) (rules_lines rules) = Ok rules.
Proof.
  eexists. split; [vm_compute; reflexivity|]. split; [reflexivity|].
  eapply (rules_survive_saving (λ _, true) [" # comment"; "deny Bash( rm  -rf * )"; "Edit"; "ask allow(x)"] _ []).
  vm_compute. reflexivity.
Defined.
