(* ===== verification/Hooks.v ===== *)
(** * Lifecycle hooks (crates/arterm-base/src/hooks.rs)

    The commands configured for an event, the payload they get, and the [pre_tool] gate: every configured
    target is asked, and the first one that blocks decides.  What a process, an HTTP server or the sidecar
    model answers is a value of an outcome type; how it is obtained, with the world it changes, is a
    parameter, and so are JSON printing and parsing.  Warnings that only log are left out. *)

From S2P Require Export TrimFacts Json Utf8 CoreUtil.

Definition PAYLOAD_ENV_LIMIT : nat := 16 * 1024.
Definition TOOL_INPUT_ENV_LIMIT : nat := 16 * 1024.
Definition BLOCK_REASON_LIMIT : nat := 2000.

Inductive HookTarget := Target_Command (command : string) | Target_Http (url : string) | Target_Prompt (rest : string).

Inductive GateDecision := Hook_Allow | Hook_Block (reason : string).

#[export] Instance GateDecision_eq_dec : EqDecision GateDecision.
Proof. solve_decision. Defined.

Record HookEvent := MkHookEvent {
  he_event : string;
  he_session_id : option string;
  he_cwd : option string;
  he_fields : list (string * string);
}.

(** [[hooks]] in the configuration. *)
Record HookConfig := MkHookConfig {
  hc_turn_start : option (list string);
  hc_turn_end : option (list string);
  hc_session_start : option (list string);
  hc_session_end : option (list string);
  hc_pre_tool : option (list string);
  hc_post_tool : option (list string);
  (** [ARTERM_HOOKS_DISABLED] is set. *)
  hc_suppressed : bool;
}.

Definition event_new (event : string) : HookEvent := MkHookEvent event None None [].
Definition event_session_id (s : string) (e : HookEvent) : HookEvent :=
  MkHookEvent (he_event e) (Some s) (he_cwd e) (he_fields e).
Definition event_cwd (s : string) (e : HookEvent) : HookEvent :=
  MkHookEvent (he_event e) (he_session_id e) (Some s) (he_fields e).
Definition event_field (key value : string) (e : HookEvent) : HookEvent :=
  MkHookEvent (he_event e) (he_session_id e) (he_cwd e) (he_fields e ++ [(key, value)]).

Definition hooks_for (c : HookConfig) (event : string) : option (list string) :=
  if String.eqb event "turn_start" then hc_turn_start c
  else if String.eqb event "turn_end" then hc_turn_end c
  else if String.eqb event "session_start" then hc_session_start c
  else if String.eqb event "session_end" then hc_session_end c
  else if String.eqb event "pre_tool" then hc_pre_tool c
  else if String.eqb event "post_tool" then hc_post_tool c
  else None.

Definition hook_commands (c : HookConfig) (event : string) : list string :=
  if hc_suppressed c then []
  else filter (λ w, negb (is_empty w)) (map trim (default [] (hooks_for c event))).

Definition hook_command (c : HookConfig) (event : string) : option string := head (hook_commands c event).

Definition hook_configured (c : HookConfig) (event : string) : bool := negb (is_nil (hook_commands c event)).

Definition truncate_bytes (value : string) (limit : nat) : string :=
  if String.length value <=? limit then value else str_take (back_up value limit) value.

Definition hook_target (command_line : string) : HookTarget :=
  let trimmed := trim command_line in
  if starts_with "https://" trimmed || starts_with "http://" trimmed then Target_Http trimmed
  else match strip_prefix "prompt:" trimmed with
       | Some rest => Target_Prompt (trim rest)
       | None => Target_Command trimmed
       end.

Definition block_reason (reason fallback : string) : GateDecision :=
  let reason := trim reason in
  Hook_Block (if is_empty reason then fallback else truncate_bytes reason BLOCK_REASON_LIMIT).

(** ** Answers *)

Definition to_ascii_uppercase_char (c : ascii) : ascii :=
  if is_ascii_lower c then ascii_of_N (byte c - 32) else c.

Definition to_ascii_uppercase : string → string := string_map to_ascii_uppercase_char.

Definition separator (c : ascii) : bool := ws_ascii c || Ascii.eqb c ":" || Ascii.eqb c "-".

(** [first_line.split_once(|c| c.is_whitespace() || matches!(c, ':' | '-'))] *)
Fixpoint split_token (s : string) : option (string * string) :=
  match s with
  | EmptyString => None
  | String a s1 =>
      let step := match split_token s1 with Some (t, r) => Some (String a t, r) | None => None end in
      if separator a then Some ("", s1) else
      match s1 with
      | EmptyString => step
      | String b s2 =>
          if ws_two a b then Some ("", s2) else
          match s2 with
          | EmptyString => step
          | String c s3 => if ws_three a b c then Some ("", s3) else step
          end
      end
  end.

Definition parse_prompt_gate_response (raw : string) : GateDecision :=
  let trimmed := trim raw in
  let first_line := trim (default "" (head (lines trimmed))) in
  let '(token, rest) := match split_token first_line with
                        | Some (token, rest) => (token, trim rest)
                        | None => (first_line, "")
                        end in
  let word := to_ascii_uppercase token in
  if one_of ["ALLOW"; "YES"; "OK"] word then Hook_Allow
  else if one_of ["BLOCK"; "DENY"; "REJECT"; "NO"] word then block_reason rest "blocked by pre_tool prompt hook"
  else Hook_Allow.

(** [value.get(a).or_else(|| value.get(b)).and_then(Value::as_str)] *)
Definition get_either (value : Json) (a b : string) : option string :=
  match as_object value with
  | None => None
  | Some m =>
      match bt_get a m with
      | Some v => as_str v
      | None => match bt_get b m with Some v => as_str v | None => None end
      end
  end.

Definition means_block (decision : string) : bool :=
  eq_ignore_ascii_case decision "block" || eq_ignore_ascii_case decision "deny"
  || eq_ignore_ascii_case decision "reject".

Inductive CommandOutcome :=
  | Command_invalid
  | Command_not_started
  | Command_failed
  | Command_timed_out
  | Command_exited (code : option Z) (stderr : string).

Inductive HttpOutcome := Http_failed | Http_answered (status : N) (body : string).

Inductive PromptOutcome := Prompt_no_backend | Prompt_failed | Prompt_timed_out | Prompt_answered (text : string).

Definition command_decision (o : CommandOutcome) : GateDecision :=
  match o with
  | Command_exited (Some 2%Z) stderr =>
      let reason := trim (from_utf8_lossy stderr) in
      Hook_Block (if is_empty reason then "blocked by pre_tool hook" else truncate_bytes reason BLOCK_REASON_LIMIT)
  | _ => Hook_Allow
  end.

Definition prompt_decision (o : PromptOutcome) : GateDecision :=
  match o with Prompt_answered text => parse_prompt_gate_response text | _ => Hook_Allow end.

Definition DEFAULT_PROMPT_GATE_SYSTEM : string :=
  "You are a permission gate for an AI coding agent. "
  +:+ "Decide whether the proposed tool call is allowed. Reply with exactly one line: "
  +:+ "ALLOW or BLOCK <short reason>. Default to ALLOW unless the call is clearly "
  +:+ "destructive, exfiltrating secrets, or outside the user's request.".

Section gate.
Context (json_text : Json → string) (json_parse : string → option Json).

Definition parse_http_gate_response (status : N) (body : string) : GateDecision :=
  if (status =? 403)%N then block_reason body "blocked by pre_tool HTTP hook"
  else if negb ((200 <=? status)%N && (status <? 300)%N) then Hook_Allow
  else
    let trimmed := trim body in
    if is_empty trimmed then Hook_Allow
    else match json_parse trimmed with
         | Some value =>
             if means_block (default "allow" (get_either value "decision" "action"))
             then block_reason (default "" (get_either value "reason" "message")) "blocked by pre_tool HTTP hook"
             else Hook_Allow
         | None => parse_prompt_gate_response trimmed
         end.

Definition http_decision (o : HttpOutcome) : GateDecision :=
  match o with Http_answered status body => parse_http_gate_response status body | Http_failed => Hook_Allow end.

Definition insert_opt (key : string) (v : option string) (m : Obj) : Obj :=
  match v with Some s => bt_insert key (JString s) m | None => m end.

(** The object of [payload_json], before it is printed. *)
Definition payload_object (e : HookEvent) : Obj :=
  foldl (λ m f, bt_insert (to_ascii_lowercase f.1) (JString f.2) m)
    (insert_opt "cwd" (he_cwd e) (insert_opt "session_id" (he_session_id e)
       (bt_insert "event" (JString (he_event e)) [])))
    (he_fields e).

Definition payload_json (e : HookEvent) : string :=
  truncate_bytes (json_text (JObject (payload_object e))) PAYLOAD_ENV_LIMIT.

(** What the gate asks of the world outside. *)
Record Outside (W : Type) := MkOutside {
  ask_command : string → HookEvent → string → W → W * CommandOutcome;
  ask_http : string → string → W → W * HttpOutcome;
  ask_prompt : string → string → W → W * PromptOutcome;
}.
Arguments ask_command {W}.
Arguments ask_http {W}.
Arguments ask_prompt {W}.

Section world.
Context {W : Type} (out : Outside W).

Definition run_http_pre_tool_gate (url : string) (e : HookEvent) (w : W) : W * GateDecision :=
  let '(w, o) := ask_http out url (payload_json e) w in (w, http_decision o).

Definition run_prompt_pre_tool_gate (instruction : string) (e : HookEvent) (tool_name tool_input_json : string) (w : W)
    : W * GateDecision :=
  let system := if is_empty instruction then DEFAULT_PROMPT_GATE_SYSTEM
                else DEFAULT_PROMPT_GATE_SYSTEM +:+ nl +:+ nl +:+ "Additional policy:" +:+ nl +:+ instruction in
  let user := "session=" +:+ default "-" (he_session_id e) +:+ nl +:+ "tool=" +:+ tool_name +:+ nl
              +:+ "cwd=" +:+ default "-" (he_cwd e) +:+ nl +:+ "input=" +:+ tool_input_json in
  let '(w, o) := ask_prompt out system user w in (w, prompt_decision o).

Definition run_pre_tool_command (command_line : string) (e : HookEvent) (tool_input_json : string) (w : W)
    : W * GateDecision :=
  let '(w, o) := ask_command out command_line e tool_input_json w in (w, command_decision o).

Definition run_pre_tool_target (command_line : string) (e : HookEvent) (tool_name tool_input_json : string) (w : W)
    : W * GateDecision :=
  match hook_target command_line with
  | Target_Http url => run_http_pre_tool_gate url e w
  | Target_Prompt instruction => run_prompt_pre_tool_gate instruction e tool_name tool_input_json w
  | Target_Command command => run_pre_tool_command command e tool_input_json w
  end.

(** The loop of [run_pre_tool_gate]: later targets still run after one has blocked. *)
Fixpoint run_targets (lines : list string) (e : HookEvent) (tool_name tool_input_json : string)
    (decision : GateDecision) (w : W) : W * GateDecision :=
  match lines with
  | [] => (w, decision)
  | line :: lines =>
      let '(w, current) := run_pre_tool_target line e tool_name tool_input_json w in
      let decision := match current, decision with Hook_Block _, Hook_Allow => current | _, _ => decision end in
      run_targets lines e tool_name tool_input_json decision w
  end.

Definition pre_tool_event (session_id : string) (working_dir : option string) (tool_name tool_input_json : string) : HookEvent :=
  let e := event_field "TOOL_INPUT" (truncate_bytes tool_input_json TOOL_INPUT_ENV_LIMIT)
             (event_field "TOOL_NAME" tool_name (event_session_id session_id (event_new "pre_tool"))) in
  match working_dir with Some cwd => event_cwd cwd e | None => e end.

Definition run_pre_tool_gate (c : HookConfig) (session_id : string) (working_dir : option string)
    (tool_name tool_input_json : string) (w : W) : W * GateDecision :=
  let command_lines := hook_commands c "pre_tool" in
  if is_nil command_lines then (w, Hook_Allow)
  else run_targets command_lines (pre_tool_event session_id working_dir tool_name tool_input_json)
         tool_name tool_input_json Hook_Allow w.
End world.
End gate.

(** ** What the gate decides *)

Lemma truncate_bytes_length s limit : String.length (truncate_bytes s limit) ≤ limit.
Proof.
  unfold truncate_bytes. destruct (Nat.leb_spec (String.length s) limit); [done|].
  destruct (back_up_spec s limit) as [[Hb _]|Hb]; rewrite str_length_take by lia; lia.
Qed.

Lemma truncate_bytes_cut s limit :
  limit < String.length s → ∃ t, t ≠ "" ∧ s = truncate_bytes s limit +:+ t.
Proof.
  intros Hlt. pose proof (truncate_bytes_length s limit) as Hle. revert Hle.
  unfold truncate_bytes. rewrite (proj2 (Nat.leb_gt _ _) Hlt). intros Hle.
  exists (str_drop (back_up s limit) s). rewrite str_take_drop. split; [|done]. intros E.
  pose proof (str_take_drop (back_up s limit) s) as Ht. rewrite E, str_app_nil_r in Ht. rewrite Ht in Hle. lia.
Qed.

(** A decision that blocks does so for a reason of bounded size. *)
Definition bounded (d : GateDecision) : Prop :=
  match d with Hook_Allow => True | Hook_Block r => String.length r ≤ BLOCK_REASON_LIMIT end.

Lemma block_reason_bounded reason fallback :
  String.length fallback ≤ BLOCK_REASON_LIMIT → bounded (block_reason reason fallback).
Proof. intros H. unfold block_reason. cbn. case_match; [done|]. apply truncate_bytes_length. Qed.

Lemma prompt_response_bounded raw : bounded (parse_prompt_gate_response raw).
Proof.
  unfold parse_prompt_gate_response. cbv zeta. destruct (split_token _) as [[token rest]|];
    repeat case_match; try done; apply block_reason_bounded; cbn; unfold BLOCK_REASON_LIMIT; lia.
Qed.

Definition first_block (ds : list GateDecision) : GateDecision :=
  default Hook_Allow (head (filter (λ d, d ≠ Hook_Allow) ds)).

Section gate_facts.
Context (json_text : Json → string) (json_parse : string → option Json) {W : Type} (out : Outside W).

Notation target := (run_pre_tool_target json_text json_parse out).
Notation gate := (run_pre_tool_gate json_text json_parse out).

(** Every target's own decision, each asked in the world the earlier ones leave. *)
Fixpoint target_decisions (lines : list string) (e : HookEvent) (name input : string) (w : W) : W * list GateDecision :=
  match lines with
  | [] => (w, [])
  | line :: lines =>
      let '(w, d) := target line e name input w in
      let '(w, ds) := target_decisions lines e name input w in (w, d :: ds)
  end.

Lemma run_targets_decisions lines e name input d w :
  run_targets json_text json_parse out lines e name input d w =
    (let '(w, ds) := target_decisions lines e name input w in (w, first_block (d :: ds))).
Proof.
  revert d w. induction lines as [|line lines IH]; intros d w; cbn [run_targets target_decisions].
  { by destruct d. }
  destruct (target line e name input w) as [w1 cur]. rewrite IH.
  destruct (target_decisions lines e name input w1) as [w2 ds]. f_equal.
  destruct cur as [|r], d as [|s]; unfold first_block; cbn; done.
Qed.

Lemma http_response_bounded status body : bounded (parse_http_gate_response json_parse status body).
Proof.
  unfold parse_http_gate_response. cbv zeta. repeat case_match; try done; try apply prompt_response_bounded;
    apply block_reason_bounded; cbn; unfold BLOCK_REASON_LIMIT; lia.
Qed.

Lemma command_decision_blocks o r :
  command_decision o = Hook_Block r ↔
  ∃ err, o = Command_exited (Some 2%Z) err
    ∧ r = (if is_empty (trim (from_utf8_lossy err)) then "blocked by pre_tool hook"
           else truncate_bytes (trim (from_utf8_lossy err)) BLOCK_REASON_LIMIT).
Proof.
  split.
  - destruct o as [| | | |[code|] err]; cbn [command_decision]; try done.
    destruct (decide (code = 2%Z)) as [->|Hne]; [intros [= <-]; by exists err|].
    destruct code as [|[p|[p|p|]|]|p]; done.
  - by intros (err & -> & ->).
Qed.

Lemma target_bounded line e name input w : bounded (target line e name input w).2.
Proof.
  unfold run_pre_tool_target. destruct (hook_target line) as [c|url|ins].
  - unfold run_pre_tool_command. destruct (ask_command _ _ _ _ _ _) as [w' o]. cbn [snd].
    destruct (command_decision o) as [|r] eqn:H; [done|].
    apply command_decision_blocks in H as (err & -> & ->). cbn [bounded].
    case_match; [cbn; unfold BLOCK_REASON_LIMIT; lia|apply truncate_bytes_length].
  - unfold run_http_pre_tool_gate. destruct (ask_http _ _ _ _ _) as [w' [|status body]]; [done|].
    apply http_response_bounded.
  - unfold run_prompt_pre_tool_gate. destruct (ask_prompt _ _ _ _ _) as [w' [| | |text]]; try done.
    apply prompt_response_bounded.
Qed.

Lemma target_decisions_bounded lines e name input w : Forall bounded (target_decisions lines e name input w).2.
Proof.
  revert w. induction lines as [|line lines IH]; intros w; cbn [target_decisions]; [constructor|].
  pose proof (target_bounded line e name input w) as Hb.
  destruct (target line e name input w) as [w1 d]. specialize (IH w1).
  destruct (target_decisions lines e name input w1) as [w2 ds]. by constructor.
Qed.

Lemma first_block_bounded ds : Forall bounded ds → bounded (first_block ds).
Proof.
  unfold first_block. induction 1 as [|d ds Hd _ IH]; [done|]. rewrite filter_cons. by case_decide.
Qed.

(** The gate before a tool asks every configured target, in order and whether or not an earlier one
    has blocked, and its decision is that of the first target that blocks; no target blocks by failing:
    a command blocks exactly when it exits with code 2.  A reason shown to the model has at most 2000
    bytes, and what is exported to a hook at most 16 KiB. *)
Theorem first_blocking_hook_decides c session_id cwd name input w :
  let e := pre_tool_event session_id cwd name input in
  let asked := target_decisions (hook_commands c "pre_tool") e name input w in
  gate c session_id cwd name input w = (asked.1, first_block asked.2)
  ∧ bounded (gate c session_id cwd name input w).2
  ∧ (∀ o r, command_decision o = Hook_Block r → ∃ err, o = Command_exited (Some 2%Z) err)
  ∧ String.length (payload_json json_text e) ≤ PAYLOAD_ENV_LIMIT
  ∧ Forall (λ f, f.1 = "TOOL_INPUT" → String.length f.2 ≤ TOOL_INPUT_ENV_LIMIT) (he_fields e).
Proof.
  intros e asked.
  assert (gate c session_id cwd name input w = (asked.1, first_block asked.2)) as Hg.
  { unfold run_pre_tool_gate, asked. destruct (hook_commands c "pre_tool") as [|l ls]; [done|].
    cbn [is_nil]. rewrite run_targets_decisions. fold e. by destruct (target_decisions _ _ _ _ _). }
  split_and!; [done| | |apply truncate_bytes_length|].
  - rewrite Hg. apply first_block_bounded, target_decisions_bounded.
  - intros o r (err & -> & _)%command_decision_blocks. by exists err.
  - unfold e, pre_tool_event. destruct cwd; cbn [he_fields event_cwd event_field event_session_id event_new];
      (apply Forall_cons_2; [discriminate|]); (apply Forall_cons_2; [intros _; apply truncate_bytes_length|apply Forall_nil_2]).
Qed.
End gate_facts.

(** The payload of a call with a large input is cut in the middle of its JSON text. *)
Lemma payload_cut json_text e :
  PAYLOAD_ENV_LIMIT < String.length (json_text (JObject (payload_object e))) →
  ∃ t, t ≠ "" ∧ json_text (JObject (payload_object e)) = payload_json json_text e +:+ t.
Proof. intros Hlt. unfold payload_json. exact (truncate_bytes_cut _ _ Hlt). Qed.

Example replies :
  parse_prompt_gate_response "deny: writes to /etc" = Hook_Block "writes to /etc"
  ∧ parse_prompt_gate_response "BLOCK rm -rf /" = Hook_Block "rm -rf /"
  ∧ parse_prompt_gate_response "yes" = Hook_Allow ∧ parse_prompt_gate_response "nonsense" = Hook_Allow
  ∧ parse_prompt_gate_response "**BLOCK** exfiltrates" = Hook_Allow.
Proof. by vm_compute. Qed.
