(* ===== verification/ToolTypes.v ===== *)
(** * Tool types (crates/arterm-tool-types/src/lib.rs, crates/arterm-tool-core/src/lib.rs)

    What a tool gets and returns, the aliases of tool names, and the properties every tool schema
    declares.  The channels of a [ToolContext] (standard input, questions to the user, the shutdown
    signal) are left out: no definition here uses them. *)

From S2P Require Export Json StdPath.

Record ToolImage := MkToolImage {
  ti_media_type : string;
  ti_data : string;
  ti_label : option string;
}.

Record ToolOutput := MkToolOutput {
  to_output : string;
  to_title : option string;
  to_metadata : option Json;
  to_images : list ToolImage;
}.

(** [ToolOutput::new] *)
Definition tool_output (output : string) : ToolOutput := MkToolOutput output None None [].

Definition with_title (title : string) (o : ToolOutput) : ToolOutput :=
  MkToolOutput (to_output o) (Some title) (to_metadata o) (to_images o).

Definition with_metadata (metadata : Json) (o : ToolOutput) : ToolOutput :=
  MkToolOutput (to_output o) (to_title o) (Some metadata) (to_images o).

Definition with_image (media_type data : string) (o : ToolOutput) : ToolOutput :=
  MkToolOutput (to_output o) (to_title o) (to_metadata o) (to_images o ++ [MkToolImage media_type data None]).

Definition with_labeled_image (media_type data label : string) (o : ToolOutput) : ToolOutput :=
  MkToolOutput (to_output o) (to_title o) (to_metadata o) (to_images o ++ [MkToolImage media_type data (Some label)]).

(** The [match] of [resolve_tool_name]. *)
Definition TOOL_ALIASES : list (list string * string) :=
  [(["communicate"], "swarm"); (["task"; "task_runner"], "subagent"); (["launch"], "open");
   (["shell"], "bash"); (["shell_exec"], "bash"); (["read_file"], "read"); (["file_read"], "read");
   (["write_file"], "write"); (["file_write"], "write"); (["edit_file"], "edit"); (["file_edit"], "edit");
   (["grep"; "file_grep"], "agentgrep"); (["skill"; "Skill"], "skill_manage");
   (["discover_tools"], "integration_tools");
   (["todoread"; "todowrite"; "todo_read"; "todo_write"; "todos"], "todo");
   (["Bash"], "bash"); (["Read"], "read"); (["Write"], "write"); (["Edit"], "edit");
   (["Grep"], "agentgrep"); (["Agent"], "subagent"); (["ScheduleWakeup"], "schedule")].

Definition resolve_tool_name (name : string) : string :=
  let name := default name (strip_prefix "functions." name) in
  match find (λ row, one_of row.1 name) TOOL_ALIASES with
  | Some row => row.2
  | None => name
  end.

(** ** The context of a call *)

Inductive ToolExecutionMode := AgentTurn | Direct.

Record ToolContext := MkToolContext {
  tc_session_id : string;
  tc_message_id : string;
  tc_tool_call_id : string;
  tc_working_dir : option string;
  tc_execution_mode : ToolExecutionMode;
}.

(** The [Debug] text of a mode. *)
Definition mode_debug (m : ToolExecutionMode) : string := match m with AgentTurn => "AgentTurn" | Direct => "Direct" end.

Definition for_subcall (ctx : ToolContext) (tool_call_id : string) : ToolContext :=
  MkToolContext (tc_session_id ctx) (tc_message_id ctx) tool_call_id (tc_working_dir ctx) (tc_execution_mode ctx).

Definition resolve_path (ctx : ToolContext) (path : string) : string :=
  if is_absolute path then path
  else match tc_working_dir ctx with
       | Some base => path_join base path
       | None => path
       end.

(** ** A question to the user *)

Record AskUserOption := MkAskUserOption { ao_label : string; ao_detail : option string }.
Record AskUserResponse := MkAskUserResponse { ar_selected_index : option nat; ar_custom : option string }.

Definition answer_text (r : AskUserResponse) (options : list AskUserOption) : string :=
  let picked := match ar_selected_index r with
                | Some i => match options !! i with Some o => ao_label o | None => "" end
                | None => ""
                end in
  match ar_custom r with
  | Some custom => if is_empty (trim custom) then picked else trim custom
  | None => picked
  end.

(** ** Schemas *)

Definition TOOL_INTENT_DESCRIPTION : string :=
  "Required short label shown in the UI: why this call is being made.".
Definition ACCEPT_LARGE_OUTPUT_KEY : string := "accept_large_output".
Definition ACCEPT_LARGE_OUTPUT_DESCRIPTION : string :=
  "Re-run accepting the stated token cost of a withheld result.".

Definition intent_schema_property : Json :=
  JObject (bt_insert "description" (JString TOOL_INTENT_DESCRIPTION) (bt_insert "type" (JString "string") [])).

Definition accept_large_output_schema_property : Json :=
  JObject (bt_insert "description" (JString ACCEPT_LARGE_OUTPUT_DESCRIPTION) (bt_insert "type" (JString "boolean") [])).

Definition is_object_schema (o : Obj) : bool :=
  match match bt_get "type" o with Some t => as_str t | None => None end with
  | Some t => String.eqb t "object"
  | None => bt_contains "properties" o
  end.

(** [v.as_str() == Some(..)] for some element. *)
Definition names (name : string) (required : list Json) : bool :=
  existsb (λ v, bool_decide (as_str v = Some name)) required.

Definition require_intent (o : Obj) : Obj :=
  match bt_get "required" o with
  | Some (JArray required) =>
      if names "intent" required then o
      else bt_insert "required" (JArray (required ++ [JString "intent"])) o
  | _ => bt_insert "required" (JArray [JString "intent"]) o
  end.

Definition ensure_intent_in_schema (schema : Json) : Json :=
  match schema with
  | JObject o =>
      if negb (is_object_schema o) then schema
      else
        let o := bt_or_insert "properties" (JObject []) o in
        match bt_get "properties" o with
        | Some (JObject properties) =>
            let properties := bt_or_insert "intent" intent_schema_property properties in
            let properties := bt_or_insert ACCEPT_LARGE_OUTPUT_KEY accept_large_output_schema_property properties in
            JObject (require_intent (bt_insert "properties" (JObject properties) o))
        | _ => JObject o
        end
  | _ => schema
  end.

(** ** Names *)

(** Resolving is a matter of one step: what an alias stands for is no alias itself. *)
Lemma resolve_canonical row : row ∈ TOOL_ALIASES → resolve_tool_name row.2 = row.2.
Proof. intros H. repeat (apply elem_of_cons in H as [->|H]; [by vm_compute|]). by apply not_elem_of_nil in H. Qed.

Lemma resolve_idemp name :
  (∀ rest, strip_prefix "functions." (default name (strip_prefix "functions." name)) ≠ Some rest) →
  resolve_tool_name (resolve_tool_name name) = resolve_tool_name name.
Proof.
  intros Hn. unfold resolve_tool_name at 2 3. cbv zeta. set (n := default name _) in *.
  destruct (find _ TOOL_ALIASES) as [row|] eqn:Hf.
  - apply resolve_canonical. apply find_some in Hf as [Hin _]. by apply list_elem_of_In.
  - unfold resolve_tool_name. destruct (strip_prefix "functions." n) as [rest|] eqn:E; [by destruct (Hn rest)|].
    cbn [default]. by rewrite Hf.
Qed.

(** ** What every schema declares *)

Lemma bt_wf_require_intent o : bt_wf o → bt_wf (require_intent o).
Proof. intros H. unfold require_intent. repeat case_match; try done; by apply bt_wf_insert. Qed.

Lemma require_intent_required o :
  ∃ r, bt_get "required" (require_intent o) = Some (JArray r) ∧ names "intent" r = true
  ∧ match bt_get "required" o with
    | Some (JArray r0) => r = (if names "intent" r0 then r0 else r0 ++ [JString "intent"])
    | _ => r = [JString "intent"]
    end.
Proof.
  assert (∀ r0, names "intent" (r0 ++ [JString "intent"]) = true) as Hn.
  { intros r0. unfold names. rewrite existsb_app. by apply orb_true_iff; right. }
  unfold require_intent. destruct (bt_get "required" o) as [[| | | |r0|]|] eqn:E;
    try (exists [JString "intent"]; by rewrite bt_get_insert_eq).
  cbv iota. destruct (names "intent" r0) eqn:Hr.
  - by exists r0.
  - exists (r0 ++ [JString "intent"]). rewrite bt_get_insert_eq. by rewrite Hn.
Qed.

Lemma require_intent_other k o : k ≠ "required" → bt_get k (require_intent o) = bt_get k o.
Proof. intros Hk. unfold require_intent. repeat case_match; try done; by rewrite bt_get_insert_ne. Qed.

Lemma require_intent_id o r :
  bt_get "required" o = Some (JArray r) → names "intent" r = true → require_intent o = o.
Proof. intros H1 H2. unfold require_intent. by rewrite H1, H2. Qed.

Lemma bt_or_insert_is_Some {V} k (v : V) m : is_Some (bt_get k (bt_or_insert k v m)).
Proof. unfold bt_or_insert. destruct (bt_get k m) eqn:E; [by rewrite E|]. by rewrite bt_get_insert_eq. Qed.

Lemma bt_or_insert_keeps {V} k k' (v w : V) m : bt_get k' m = Some w → bt_get k' (bt_or_insert k v m) = Some w.
Proof.
  intros H. unfold bt_or_insert. destruct (bt_get k m) eqn:E; [done|].
  rewrite bt_get_insert_ne; [done|]. congruence.
Qed.

Lemma bt_or_insert_id {V} k (v : V) m : is_Some (bt_get k m) → bt_or_insert k v m = m.
Proof. intros [w H]. unfold bt_or_insert. by rewrite H. Qed.

(** The properties after [ensure_intent_in_schema]. *)
Definition with_shared (p : Obj) : Obj :=
  bt_or_insert ACCEPT_LARGE_OUTPUT_KEY accept_large_output_schema_property
    (bt_or_insert "intent" intent_schema_property p).

Lemma with_shared_declares p :
  is_Some (bt_get "intent" (with_shared p)) ∧ is_Some (bt_get ACCEPT_LARGE_OUTPUT_KEY (with_shared p))
  ∧ ∀ k v, bt_get k p = Some v → bt_get k (with_shared p) = Some v.
Proof.
  unfold with_shared. split_and!.
  - destruct (bt_or_insert_is_Some "intent" intent_schema_property p) as [v Hv].
    exists v. by apply bt_or_insert_keeps.
  - apply bt_or_insert_is_Some.
  - intros k v H. by do 2 apply bt_or_insert_keeps.
Qed.

Lemma with_shared_id p :
  is_Some (bt_get "intent" p) → is_Some (bt_get ACCEPT_LARGE_OUTPUT_KEY p) → with_shared p = p.
Proof. intros H1 H2. unfold with_shared. rewrite (bt_or_insert_id "intent") by done. by apply bt_or_insert_id. Qed.

Lemma ensure_intent_object o p :
  is_object_schema o = true → bt_get "properties" (bt_or_insert "properties" (JObject []) o) = Some (JObject p) →
  ensure_intent_in_schema (JObject o) =
    JObject (require_intent (bt_insert "properties" (JObject (with_shared p)) (bt_or_insert "properties" (JObject []) o))).
Proof. intros H1 H2. unfold ensure_intent_in_schema. rewrite H1. cbn [negb]. cbv zeta. by rewrite H2. Qed.

(** C39. Every tool asks for an intent: in the schema of a tool that takes an object, whether its own or a
    remote server's, the shared properties are declared and the intent is required, every property, every
    requirement and every other keyword of the tool's own schema stays as it was, and doing it twice
    changes nothing more. *)
Theorem every_schema_declares_intent o p :
  bt_wf o → is_object_schema o = true →
  bt_get "properties" (bt_or_insert "properties" (JObject []) o) = Some (JObject p) →
  ∃ o' p' r, ensure_intent_in_schema (JObject o) = JObject o'
    ∧ bt_get "properties" o' = Some (JObject p') ∧ bt_get "required" o' = Some (JArray r)
    ∧ (is_Some (bt_get "intent" p') ∧ is_Some (bt_get ACCEPT_LARGE_OUTPUT_KEY p') ∧ names "intent" r = true)
    ∧ (∀ k v, bt_get k p = Some v → bt_get k p' = Some v)
    ∧ (∀ r0, bt_get "required" o = Some (JArray r0) → r = r0 ∨ r = r0 ++ [JString "intent"])
    ∧ (∀ k, k ≠ "properties" → k ≠ "required" → bt_get k o' = bt_get k o)
    ∧ ensure_intent_in_schema (JObject o') = JObject o'.
Proof.
  intros Hwf Hobj Hp. rewrite (ensure_intent_object o p) by done.
  set (o1 := bt_insert "properties" _ _).
  assert (bt_wf o1) as Hwf1 by (by apply bt_wf_insert, bt_wf_or_insert).
  assert (∀ k, k ≠ "properties" → bt_get k o1 = bt_get k o) as Hother.
  { intros k Hk. unfold o1. rewrite bt_get_insert_ne by done. unfold bt_or_insert.
    destruct (bt_get "properties" o); [done|]. by rewrite bt_get_insert_ne. }
  destruct (require_intent_required o1) as (r & Hr & Hn & Hr0). destruct (with_shared_declares p) as (H1 & H2 & H3).
  assert (bt_get "properties" (require_intent o1) = Some (JObject (with_shared p))) as Hp1
    by (rewrite require_intent_other by done; apply bt_get_insert_eq).
  exists (require_intent o1), (with_shared p), r. split_and!; try done.
  - intros r0 H. rewrite Hother, H in Hr0 by done. subst r. case_match; auto.
  - intros k ? ?. rewrite require_intent_other by done. by apply Hother.
  - rewrite (ensure_intent_object _ (with_shared p)).
    + f_equal. rewrite (with_shared_id (with_shared p)) by done.
      rewrite bt_or_insert_id by (by rewrite Hp1).
      rewrite bt_insert_same by (done || by apply bt_wf_require_intent).
      by apply (require_intent_id _ r).
    + unfold is_object_schema, bt_contains in *.
      rewrite require_intent_other, Hother by done. rewrite Hp1.
      destruct (bt_get "type" o) as [t|]; [|by rewrite bool_decide_eq_true_2].
      destruct (as_str t); [done|by rewrite bool_decide_eq_true_2].
    + by rewrite bt_or_insert_id by (by rewrite Hp1).
Qed.

Lemma every_schema_declares_intent_witness :
  ∃ o', ensure_intent_in_schema (JObject [("properties", JObject [("command", JBool true)]); ("required", JArray [JString "command"]); ("type", JString "object")]) = JObject o'
  ∧ bt_get "required" o' = Some (JArray [JString "command"; JString "intent"]).
Proof.
  destruct (every_schema_declares_intent
    [("properties", JObject [("command", JBool true)]); ("required", JArray [JString "command"]); ("type", JString "object")]
    [("command", JBool true)]) as (o' & _ & _ & H & _).
  - unfold bt_wf. repeat constructor.
  - reflexivity.
  - reflexivity.
  - exists o'. split; [exact H|]. vm_compute in H. injection H as <-. reflexivity.
Defined.
