(* ===== verification/ToolRegistry.v ===== *)
(** * The tool registry (crates/arterm-app-core/src/tool/mod.rs, inflight.rs)

    [execute] runs a tool a model asks for: plan mode, the permission rules, the session's policy, the
    registry and the [pre_tool] hook may each refuse, then the tool runs and the context guard looks at
    its output.  A tool is an interface ([ToolImpl]); what it does, the clock, telemetry, the observers
    and the compaction manager act on a world [W] that is a parameter, as is the text of the guard's
    notices, which formats floating-point numbers. *)

From S2P Require Export Floats ToolTypes PermissionRules Hooks.

(** ** Plan mode, policies, calls in flight *)

Record SessionToolPolicy := MkPolicy {
  allowed_tools : option (gset string);
  disabled_tools : gset string;
}.

Definition tool_name_is_allowed (allowed : gset string) (name : string) : bool :=
  bool_decide (name ∈ allowed) || (bool_decide ("mcp" ∈ allowed) && starts_with "mcp__" name).

Definition tool_name_is_disabled (disabled : gset string) (name : string) : bool :=
  bool_decide (name ∈ disabled) || (bool_decide ("mcp" ∈ disabled) && starts_with "mcp__" name).

Definition PLAN_MODE_BLOCKED_TOOLS : list string :=
  ["edit"; "write"; "multiedit"; "patch"; "apply_patch"; "bash"; "monitor"; "open"].

Definition set_plan_mode (session_id : string) (enabled : bool) (modes : gmap string bool) : gmap string bool :=
  if enabled then <[session_id := true]> modes else delete session_id modes.

Definition is_plan_mode (session_id : string) (modes : gmap string bool) : bool :=
  default false (modes !! session_id).

Definition plan_mode_message (resolved : string) : string :=
  "Plan Mode is active: '" +:+ resolved
  +:+ "' is blocked. Present your plan and wait for the user to approve before making changes. Read-only "
  +:+ "tools (read, ls, agentgrep, websearch, webfetch, etc.) are still available.".

(** The message of the refusal, if there is one. *)
Definition check_plan_mode (session_id tool_name : string) (modes : gmap string bool) : option string :=
  if is_plan_mode session_id modes then
    let resolved := resolve_tool_name tool_name in
    if one_of PLAN_MODE_BLOCKED_TOOLS resolved then Some (plan_mode_message resolved) else None
  else None.

Definition set_session_tool_policy (session_id : string) (allowed : option (gset string)) (disabled : gset string)
    (policies : gmap string SessionToolPolicy) : gmap string SessionToolPolicy :=
  <[session_id := MkPolicy allowed disabled]> policies.

Definition clear_session_tool_policy (session_id : string) (policies : gmap string SessionToolPolicy)
    : gmap string SessionToolPolicy := delete session_id policies.

(** The two tests of [execute] on the session's policy. *)
Definition policy_refusal (policy : option SessionToolPolicy) (resolved_name : string) : option string :=
  match policy with
  | None => None
  | Some policy =>
      if match allowed_tools policy with Some allowed => negb (tool_name_is_allowed allowed resolved_name) | None => false end
      then Some ("Tool '" +:+ resolved_name +:+ "' is not allowed")
      else if tool_name_is_disabled (disabled_tools policy) resolved_name
      then Some ("Tool '" +:+ resolved_name +:+ "' is disabled")
      else None
  end.

(** [mark_tool_in_flight]: empty ids are not tracked. *)
Definition mark_tool_in_flight (id : string) (m : gmap string nat) : gmap string nat :=
  if is_empty id then m else <[id := S (default 0 (m !! id))]> m.

(** [Drop for InFlightToolGuard]; a call with an empty id has no guard. *)
Definition drop_guard (id : string) (m : gmap string nat) : gmap string nat :=
  if is_empty id then m
  else match m !! id with
       | Some count => if (count - 1 =? 0) then delete id m else <[id := count - 1]> m
       | None => m
       end.

Definition is_tool_in_flight (id : string) (m : gmap string nat) : bool := bool_decide (is_Some (m !! id)).

Definition in_flight_tool_count (m : gmap string nat) : nat := size m.

Definition accepts_large_output (input : Json) : bool :=
  match match as_object input with Some m => bt_get ACCEPT_LARGE_OUTPUT_KEY m | None => None end with
  | Some (JBool accepted) => accepted
  | Some (JString raw) => eq_ignore_ascii_case (trim raw) "true"
  | _ => false
  end.

(** ** Suggestions for an unknown name *)

(** One row of [levenshtein]: [prev] is the row above from this column on, [left] the cell just written. *)
Fixpoint levenshtein_row (ca : string) (b : list string) (prev : list nat) (left : nat) : list nat :=
  match b, prev with
  | cb :: b, diag :: ((above :: _) as prev) =>
      let cost := if String.eqb ca cb then 0 else 1 in
      let cell := min (min (above + 1) (left + 1)) (diag + cost) in
      cell :: levenshtein_row ca b prev cell
  | _, _ => []
  end.

Fixpoint levenshtein_rows (i : nat) (a b : list string) (prev : list nat) : list nat :=
  match a with
  | [] => prev
  | ca :: a => levenshtein_rows (S i) a b (S i :: levenshtein_row ca b prev (S i))
  end.

Definition levenshtein (a b : string) : nat :=
  let a := chars a in
  let b := chars b in
  if is_nil a then length b
  else if is_nil b then length a
  else default 0 (last (levenshtein_rows 0 a b (seq 0 (S (length b))))).

Definition name_score (needle candidate : string) : option nat :=
  let hay := to_ascii_lowercase candidate in
  if String.eqb hay needle then Some 0
  else if starts_with needle hay || starts_with hay needle then Some 1
  else if contains needle hay || contains hay needle then Some 2
  else
    let dist := levenshtein needle hay in
    let threshold := max (max (String.length hay) (String.length needle) / 3) 2 in
    if dist <=? threshold then Some (3 + dist) else None.

Definition score_leb (x y : nat * string) : bool :=
  (x.1 <? y.1) || ((x.1 =? y.1) && String.leb x.2 y.2).

Definition closest_tool_names (name : string) (available : list string) : list string :=
  let needle := to_ascii_lowercase (trim name) in
  if is_empty needle then []
  else
    let scored := omap (λ candidate, (λ s, (s, candidate)) <$> name_score needle candidate) available in
    map snd (take 3 (sort_by score_leb scored)).

Definition unknown_tool_message (name : string) (available : list string) : string :=
  let suggestions := closest_tool_names name available in
  "Unknown tool: " +:+ name +:+ "."
  +:+ (if is_nil suggestions then "" else " Did you mean: " +:+ String.concat ", " suggestions +:+ "?")
  +:+ " Available tools: " +:+ String.concat ", " available +:+ ".".

(** ** The context guard *)

(** 0.90 and 0.30 as [f32]. *)
Definition CONTEXT_GUARD_THRESHOLD : spec_float := S754_finite false 15099494 (-24).
Definition SINGLE_OUTPUT_MAX_FRACTION : spec_float := S754_finite false 10066330 (-25).
Definition SINGLE_OUTPUT_MAX_TOKENS : N := 50000.

Definition threshold_tokens (budget : N) : N := f32_to_usize (f32_mul (f32_of budget) CONTEXT_GUARD_THRESHOLD).

Definition single_max_tokens (budget : N) : N :=
  N.min (f32_to_usize (f32_mul (f32_of budget) SINGLE_OUTPUT_MAX_FRACTION)) SINGLE_OUTPUT_MAX_TOKENS.

(** [output.floor_char_boundary(n)] *)
Definition floor_char_boundary (s : string) (n : nat) : nat :=
  if String.length s <=? n then String.length s else back_up s n.

(** What becomes of an output: it is returned, replaced by one of two refusals, or cut; a notice names
    the numbers. *)
Inductive Guarded :=
  | Guard_Returned
  | Guard_NoRoom (output_tokens current_tokens budget : N)
  | Guard_Withheld (output_tokens affordable_tokens current_tokens budget : N)
  | Guard_Cut (kept : string) (output_tokens current_tokens budget max_tokens : N).

Definition guard_outcome (budget current_tokens : N) (output : string) (accept_large_output : bool) : Guarded :=
  if (budget =? 0)%N then Guard_Returned
  else
    let output_tokens := N.of_nat (estimate_tokens output) in
    let projected := (current_tokens + output_tokens)%N in
    let threshold := threshold_tokens budget in
    let single_max := single_max_tokens budget in
    let needs_truncation := (threshold <? projected)%N || (single_max <? output_tokens)%N in
    if negb needs_truncation then Guard_Returned
    else if (threshold <=? current_tokens)%N then Guard_NoRoom output_tokens current_tokens budget
    else
      let max_tokens := N.min (threshold - current_tokens) single_max in
      let max_chars := (max_tokens * 4)%N in
      if (N.of_nat (String.length output) <=? max_chars)%N then Guard_Returned
      else if negb accept_large_output then Guard_Withheld output_tokens max_tokens current_tokens budget
      else Guard_Cut (str_take (floor_char_boundary output (N.to_nat (max_chars - 150))) output)
             output_tokens current_tokens budget max_tokens.

(** ** The registry *)

(** The trait [Tool]. *)
Class ToolImpl (Tool State : Type) := {
  tool_name : Tool → string;
  tool_description : Tool → string;
  parameters_schema : Tool → Json;
  (** [execute]: an error is its chain of messages, outermost first. *)
  tool_run : Tool → Json → ToolContext → State → State * result ToolOutput (list string);
}.

Record ToolDefinition := MkToolDefinition {
  td_name : string;
  td_description : string;
  td_input_schema : Json;
}.

Inductive LogLevel := Log_Info | Log_Warn.

Record LogEvent := MkLogEvent {
  le_level : LogLevel;
  le_event : string;
  le_fields : list (string * string);
}.

(** The shared state a call reads and writes. *)
Record ToolState (Tool W : Type) := MkToolState {
  ts_tools : gmap string Tool;
  ts_plan_mode : gmap string bool;
  ts_policies : gmap string SessionToolPolicy;
  ts_in_flight : gmap string nat;
  ts_log : list LogEvent;
  ts_world : W;
}.
Arguments MkToolState {Tool W}.
Arguments ts_tools {Tool W}.
Arguments ts_plan_mode {Tool W}.
Arguments ts_policies {Tool W}.
Arguments ts_in_flight {Tool W}.
Arguments ts_log {Tool W}.
Arguments ts_world {Tool W}.

(** The names a fresh registry holds, in the order of [base_tools] and [new] on Unix with sponsors on. *)
Definition BASE_TOOL_NAMES : list string :=
  ["read"; "write"; "agentgrep"; "side_panel"; "edit"; "undo"; "multiedit"; "patch"; "apply_patch"; "ls";
   "repo_map"; "diagnostics"; "lsp"; "github"; "monitor"; "bash"; "browser"; "open"; "webfetch"; "websearch";
   "invalid"; "arterm_docs"; "todo"; "bg"; "ask_user"; "swarm"; "session_search"; "memory"; "initiative";
   "gmail"; "schedule"; "selfdev"; "skill_manage"; "batch"; "conversation_search"; "integration_tools"].

(** What is shown of an error chain: [util::format_error_chain] (crates/arterm-base/src/util.rs). *)
Definition push_cause (parts : list string) (text : string) : list string :=
  let trimmed := trim text in
  if is_empty trimmed then parts
  else if bool_decide (last parts = Some trimmed) then parts
  else parts ++ [trimmed].

Definition format_error_chain (chain : list string) : string :=
  match foldl push_cause [] chain with
  | [] => "unknown error"
  | parts => String.concat ": " parts
  end.

Section execute.
Context {Tool W : Type}.
Notation State := (ToolState Tool W).
Context `{!ToolImpl Tool State}.
Context (json_text : Json → string) (json_parse : string → option Json) (out : Outside W).
(** The configuration, read when it is needed. *)
Context (permission_rules : W → PermissionRules) (hooks : W → HookConfig).
(** Milliseconds between two states, telemetry, the detached observers, and the compaction manager's
    [token_budget] and [effective_token_count]. *)
Context (elapsed_ms : State → State → N) (record_tool_execution : string → Json → bool → N → W → W).
Context (dispatch_observer : HookEvent → W → W) (compaction : W → N * N) (notice : Guarded → string).

Definition set_world (w : W) (s : State) : State :=
  MkToolState (ts_tools s) (ts_plan_mode s) (ts_policies s) (ts_in_flight s) (ts_log s) w.

Definition set_in_flight (m : gmap string nat) (s : State) : State :=
  MkToolState (ts_tools s) (ts_plan_mode s) (ts_policies s) m (ts_log s) (ts_world s).

Definition set_tools (m : gmap string Tool) (s : State) : State :=
  MkToolState m (ts_plan_mode s) (ts_policies s) (ts_in_flight s) (ts_log s) (ts_world s).

Definition log_event (level : LogLevel) (fields : list (string * string)) (s : State) : State :=
  MkToolState (ts_tools s) (ts_plan_mode s) (ts_policies s) (ts_in_flight s)
    (ts_log s ++ [MkLogEvent level "TOOL_LIFECYCLE" fields]) (ts_world s).

Definition PATH_FIELDS : list string := ["file_path"; "path"; "target"; "target_path"; "old_path"; "new_path"].
Definition TEXT_FIELDS : list string := ["command"; "prompt"; "task"; "query"; "content"].

Definition str_field (m : Obj) (key : string) : option string :=
  match bt_get key m with Some v => as_str v | None => None end.

Definition touched_paths (ctx : ToolContext) (m : Obj) : list string :=
  omap (λ key, (λ path, key +:+ ":" +:+ resolve_path ctx path) <$> str_field m key) PATH_FIELDS
  ++ match match bt_get "paths" m with Some v => as_array v | None => None end with
     | Some paths => map (λ path, "paths:" +:+ resolve_path ctx path) (take 8 (strs paths))
     | None => []
     end.

Definition object_fields (ctx : ToolContext) (m : Obj) : list (string * string) :=
  let touched := touched_paths ctx m in
  [("input_keys", String.concat "," (sort_strings (m.*1)))]
  ++ (if is_nil touched then []
      else [("touched_paths", String.concat "," touched); ("touched_path_count", show_nat (length touched))])
  ++ concat (map (λ key, match str_field m key with
                         | Some text => [(key +:+ "_bytes", show_nat (String.length text));
                                         (key +:+ "_chars", show_nat (char_count text))]
                         | None => []
                         end) TEXT_FIELDS).

Definition tool_lifecycle_fields (phase requested_name resolved_name : string) (input : Json) (ctx : ToolContext)
    : list (string * string) :=
  [("phase", phase); ("tool_name", requested_name); ("resolved_tool_name", resolved_name);
   ("session_id", tc_session_id ctx); ("message_id", tc_message_id ctx); ("tool_call_id", tc_tool_call_id ctx);
   ("execution_mode", mode_debug (tc_execution_mode ctx)); ("cwd", default "none" (tc_working_dir ctx));
   ("input_json_bytes", show_nat (String.length (json_text input)))]
  ++ match as_object input with Some m => object_fields ctx m | None => [] end.

Definition available_names (s : State) : list string := sort_strings ((map_to_list (ts_tools s)).*1).

(** [guard_context_overflow] *)
Definition guard_context_overflow (output : ToolOutput) (accept_large_output : bool) (s : State) : ToolOutput :=
  let '(budget, current_tokens) := compaction (ts_world s) in
  let replaced text := MkToolOutput text (to_title output) (to_metadata output) (to_images output) in
  match guard_outcome budget current_tokens (to_output output) accept_large_output with
  | Guard_Returned => output
  | Guard_Cut kept _ _ _ _ as g => replaced (kept +:+ notice g)
  | g => replaced (notice g)
  end.

Definition ERROR_LIMIT : nat := 1000.

(** [fire_post_tool_hook] *)
Definition post_tool_event (resolved_name : string) (ctx : ToolContext) (res : result ToolOutput (list string)) (latency_ms : N)
    : HookEvent :=
  let e := event_field "DURATION_MS" (show_N latency_ms)
             (event_field "STATUS" (match res with Ok _ => "ok" | Err _ => "error" end)
                (event_field "TOOL_NAME" resolved_name
                   (event_session_id (tc_session_id ctx) (event_new "post_tool")))) in
  let e := match tc_working_dir ctx with Some dir => event_cwd dir e | None => e end in
  match res with
  | Ok output => event_field "OUTPUT_BYTES" (show_nat (String.length (to_output output))) e
  | Err chain => event_field "ERROR" (String.concat "" (take ERROR_LIMIT (chars (default "" (head chain))))) e
  end.

Definition fire_post_tool_hook (resolved_name : string) (ctx : ToolContext) (res : result ToolOutput (list string))
    (latency_ms : N) (s : State) : State :=
  if negb (hook_configured (hooks (ts_world s)) "post_tool") then s
  else set_world (dispatch_observer (post_tool_event resolved_name ctx res latency_ms) (ts_world s)) s.

(** From the start event to the result: every gate has let the call through. *)
Definition run_tool (tool : Tool) (name resolved_name : string) (input : Json) (ctx : ToolContext) (s : State)
    : State * result ToolOutput (list string) :=
  let s := log_event Log_Info (tool_lifecycle_fields "start" name resolved_name input ctx) s in
  let '(s', res) := tool_run tool input ctx s in
  let latency_ms := N.min (elapsed_ms s s') (2 ^ 64 - 1) in
  let s := set_world (record_tool_execution resolved_name input (match res with Ok _ => true | Err _ => false end)
                        latency_ms (ts_world s')) s' in
  let s := fire_post_tool_hook resolved_name ctx res latency_ms s in
  match res with
  | Err error =>
      (log_event Log_Warn (tool_lifecycle_fields "error" name resolved_name input ctx
         ++ [("elapsed_ms", show_N latency_ms); ("error", format_error_chain error)]) s, Err error)
  | Ok output =>
      let output := guard_context_overflow output (accepts_large_output input) s in
      (log_event Log_Info (tool_lifecycle_fields "done" name resolved_name input ctx
         ++ [("elapsed_ms", show_N latency_ms); ("output_bytes", show_nat (String.length (to_output output)));
             ("output_chars", show_nat (char_count (to_output output)));
             ("image_count", show_nat (length (to_images output)))]) s, Ok output)
  end.

(** The [pre_tool] gate, skipped when no hook is configured. *)
Definition ask_pre_tool (resolved_name : string) (input : Json) (ctx : ToolContext) (s : State) : State * GateDecision :=
  if negb (hook_configured (hooks (ts_world s)) "pre_tool") then (s, Hook_Allow)
  else
    let '(w, d) := run_pre_tool_gate json_text json_parse out (hooks (ts_world s)) (tc_session_id ctx)
                     (tc_working_dir ctx) resolved_name (json_text input) (ts_world s) in
    (set_world w s, d).

Definition blocked_fields (name resolved_name : string) (input : Json) (ctx : ToolContext) (reason : string)
    : list (string * string) :=
  tool_lifecycle_fields "blocked" name resolved_name input ctx ++ [("block_reason", reason)].

Definition execute_body (name : string) (input : Json) (ctx : ToolContext) (s : State)
    : State * result ToolOutput (list string) :=
  let resolved_name := resolve_tool_name name in
  match check_plan_mode (tc_session_id ctx) resolved_name (ts_plan_mode s) with
  | Some msg => (s, Err [msg])
  | None =>
  match gate_evaluate json_text (permission_rules (ts_world s)) resolved_name input with
  | Gate_Blocked reason message =>
      (log_event Log_Warn (blocked_fields name resolved_name input ctx reason) s, Err [message])
  | Gate_Allow =>
  match policy_refusal (ts_policies s !! tc_session_id ctx) resolved_name with
  | Some msg => (s, Err [msg])
  | None =>
  match ts_tools s !! resolved_name with
  | None => (s, Err [unknown_tool_message name (available_names s)])
  | Some tool =>
  match ask_pre_tool resolved_name input ctx s with
  | (s, Hook_Block reason) =>
      (log_event Log_Warn (blocked_fields name resolved_name input ctx reason) s,
       Err ["Tool call blocked by pre_tool hook: " +:+ reason])
  | (s, Hook_Allow) => run_tool tool name resolved_name input ctx s
  end end end end end.

(** [execute]: the call is in flight from before the first gate until it returns. *)
Definition execute (name : string) (input : Json) (ctx : ToolContext) (s : State)
    : State * result ToolOutput (list string) :=
  let id := tc_tool_call_id ctx in
  let s := set_in_flight (mark_tool_in_flight id (ts_in_flight s)) s in
  let '(s, res) := execute_body name input ctx s in
  (set_in_flight (drop_guard id (ts_in_flight s)) s, res).

(** ** Registering *)

(** [Tool::to_definition] *)
Definition to_definition (tool : Tool) : ToolDefinition :=
  MkToolDefinition (tool_name tool) (tool_description tool) (ensure_intent_in_schema (parameters_schema tool)).

Definition definition_leb (a b : ToolDefinition) : bool := String.leb (td_name a) (td_name b).

Definition definition_allowed (allowed : option (gset string)) (name : string) : bool :=
  match allowed with Some a => tool_name_is_allowed a name | None => true end.

(** The body of [definitions] for the entries in the order the hash map yields them. *)
Definition definitions_of (allowed : option (gset string)) (entries : list (string * Tool)) : list ToolDefinition :=
  sort_by definition_leb
    (map (λ e, let def := to_definition e.2 in
               if String.eqb (td_name def) e.1 then def
               else MkToolDefinition e.1 (td_description def) (td_input_schema def))
       (filter (λ e, definition_allowed allowed e.1) entries)).

Definition definitions (allowed : option (gset string)) (s : State) : list ToolDefinition :=
  definitions_of allowed (map_to_list (ts_tools s)).

Definition register (name : string) (tool : Tool) (s : State) : State := set_tools (<[name := tool]> (ts_tools s)) s.

Definition unregister (name : string) (s : State) : State * option Tool :=
  (set_tools (delete name (ts_tools s)) s, ts_tools s !! name).

Definition unregister_prefix (prefix : string) (s : State) : State * list string :=
  let to_remove := filter (λ k, starts_with prefix k) ((map_to_list (ts_tools s)).*1) in
  (set_tools (foldl (λ m k, delete k m) (ts_tools s) to_remove) s, to_remove).
End execute.
