(* ===== verification/ToolGates.v ===== *)
(** * The gates of the tool registry are complete

    Theorems about [ToolRegistry]: no tool runs unless every gate lets it, the calls in flight are
    exactly counted, the context guard keeps within the budget, the definitions sent to a model do not
    depend on hashing, and the distance behind the suggestions is the edit distance. *)

From S2P Require Export ToolRegistry.

(** ** Calls in flight *)

Definition counts_positive (m : gmap string nat) : Prop := map_Forall (λ _ n, 0 < n) m.

Lemma mark_positive id m : counts_positive m → counts_positive (mark_tool_in_flight id m).
Proof.
  unfold mark_tool_in_flight. intros H. destruct (is_empty id); [done|].
  apply map_Forall_insert_2; [lia|done].
Qed.

Lemma drop_positive id m : counts_positive m → counts_positive (drop_guard id m).
Proof.
  unfold drop_guard. intros H. destruct (is_empty id); [done|].
  destruct (m !! id) as [n|] eqn:E; [|done]. destruct (n - 1 =? 0) eqn:Hn.
  - by apply map_Forall_delete.
  - apply Nat.eqb_neq in Hn. apply map_Forall_insert_2; [lia|done].
Qed.

(** A guard undoes its mark. *)
Lemma drop_mark id m : counts_positive m → drop_guard id (mark_tool_in_flight id m) = m.
Proof.
  intros H. unfold drop_guard, mark_tool_in_flight. destruct (is_empty id); [done|].
  rewrite lookup_insert_eq. destruct (m !! id) as [n|] eqn:E; cbn [default].
  - apply H in E as Hn. destruct n as [|n]; [lia|]. cbn.
    rewrite insert_insert_eq. by apply insert_id.
  - cbn. rewrite delete_insert_eq. by apply delete_id.
Qed.

(** ** Gates *)

Lemma check_plan_mode_None sid name modes :
  check_plan_mode sid name modes = None ↔
  ¬ (modes !! sid = Some true ∧ resolve_tool_name name ∈ PLAN_MODE_BLOCKED_TOOLS).
Proof.
  unfold check_plan_mode, is_plan_mode. cbv zeta. rewrite <- one_of_iff.
  destruct (modes !! sid) as [[]|]; cbn [default]; [|naive_solver..].
  destruct (one_of PLAN_MODE_BLOCKED_TOOLS (resolve_tool_name name)); naive_solver.
Qed.

(** What a session's policy lets through. *)
Definition policy_permits (policy : SessionToolPolicy) (name : string) : Prop :=
  (∀ a, allowed_tools policy = Some a → tool_name_is_allowed a name = true)
  ∧ tool_name_is_disabled (disabled_tools policy) name = false.

Lemma policy_refusal_None policy name :
  policy_refusal policy name = None ↔ ∀ p, policy = Some p → policy_permits p name.
Proof.
  unfold policy_refusal, policy_permits. destruct policy as [[[a|] d]|]; cbn [allowed_tools disabled_tools]; [| |naive_solver].
  - destruct (tool_name_is_allowed a name) eqn:Ha, (tool_name_is_disabled d name) eqn:Hd; cbn [negb];
      split; try done; intros H; try (by intros ? [= <-]; split; [intros ? [= <-]|]);
      destruct (H _ eq_refl) as [H1 H2]; cbn in *; [congruence|specialize (H1 a eq_refl); congruence..].
  - destruct (tool_name_is_disabled d name) eqn:Hd; split; try done; intros H.
    + destruct (H _ eq_refl) as [_ H2]. cbn in H2. congruence.
    + by intros ? [= <-].
Qed.

Section mediation.
Context {Tool W : Type}.
Notation State := (ToolState Tool W).
Context (json_text : Json → string) (json_parse : string → option Json) (out : Outside W).
Context (permission_rules : W → PermissionRules) (hooks : W → HookConfig).
Context (elapsed_ms : State → State → N) (record_tool_execution : string → Json → bool → N → W → W).
Context (dispatch_observer : HookEvent → W → W) (compaction : W → N * N) (notice : Guarded → string).
Implicit Types (s : State).

Notation exec impl := (@execute Tool W impl json_text json_parse out permission_rules hooks elapsed_ms
  record_tool_execution dispatch_observer compaction notice).
Notation exec_body impl := (@execute_body Tool W impl json_text json_parse out permission_rules hooks elapsed_ms
  record_tool_execution dispatch_observer compaction notice).
Notation run impl := (@run_tool Tool W impl json_text hooks elapsed_ms record_tool_execution dispatch_observer
  compaction notice).
Notation asked := (ask_pre_tool json_text json_parse out hooks).

(** Every gate lets the call through: plan mode is off or the tool only reads, no rule denies or asks,
    the session's policy permits the name, the tool is registered, and the hook allows the call, leaving
    the state [s']. *)
Record admitted (s : State) (name : string) (input : Json) (ctx : ToolContext) (tool : Tool) (s' : State) : Prop := {
  admitted_plan : ¬ (ts_plan_mode s !! tc_session_id ctx = Some true
                     ∧ resolve_tool_name (resolve_tool_name name) ∈ PLAN_MODE_BLOCKED_TOOLS);
  admitted_rules : ∀ r, r ∈ permission_rules (ts_world s) →
    rule_matches json_text r (resolve_tool_name name) input = true → decision r ≠ Decision_Deny ∧ decision r ≠ Decision_Ask;
  admitted_policy : ∀ p, ts_policies s !! tc_session_id ctx = Some p → policy_permits p (resolve_tool_name name);
  admitted_tool : ts_tools s !! resolve_tool_name name = Some tool;
  admitted_hook : asked (resolve_tool_name name) input ctx s = (s', Hook_Allow);
}.

Lemma ask_pre_tool_frame resolved input ctx s :
  ts_tools (asked resolved input ctx s).1 = ts_tools s
  ∧ ts_plan_mode (asked resolved input ctx s).1 = ts_plan_mode s
  ∧ ts_policies (asked resolved input ctx s).1 = ts_policies s
  ∧ ts_in_flight (asked resolved input ctx s).1 = ts_in_flight s.
Proof. unfold ask_pre_tool. case_match; [done|]. by destruct (run_pre_tool_gate _ _ _ _ _ _ _ _ _). Qed.

Lemma execute_body_admitted impl name input ctx s tool s' :
  admitted s name input ctx tool s' →
  exec_body impl name input ctx s = run impl tool name (resolve_tool_name name) input ctx s'.
Proof.
  intros [Hp Hr Hpol Ht Hh]. unfold execute_body. cbv zeta.
  rewrite (proj2 (check_plan_mode_None _ _ _) Hp).
  rewrite (proj2 (gate_allows_iff json_text (resolve_tool_name name) input (permission_rules (ts_world s))) Hr).
  by rewrite (proj2 (policy_refusal_None _ _) Hpol), Ht, Hh.
Qed.

Lemma execute_body_refused impl1 impl2 name input ctx s :
  (∀ tool s', ¬ admitted s name input ctx tool s') →
  exec_body impl1 name input ctx s = exec_body impl2 name input ctx s
  ∧ ∃ s' msg, exec_body impl1 name input ctx s = (s', Err [msg])
    ∧ ts_tools s' = ts_tools s ∧ ts_plan_mode s' = ts_plan_mode s ∧ ts_policies s' = ts_policies s
    ∧ ts_in_flight s' = ts_in_flight s.
Proof.
  intros Hno. unfold execute_body. cbv zeta.
  destruct (check_plan_mode _ _ _) as [msg|] eqn:Hp; [split; [done|by eexists s, msg]|].
  destruct (gate_evaluate _ _ _ _) as [|reason msg] eqn:Hr; [|split; [done|by eexists _, msg]].
  destruct (policy_refusal _ _) as [msg|] eqn:Hpol; [split; [done|by eexists s, msg]|].
  destruct (ts_tools s !! _) as [tool|] eqn:Ht; [|split; [done|by eexists s, _]].
  pose proof (ask_pre_tool_frame (resolve_tool_name name) input ctx s) as Hf.
  destruct (asked _ _ _ _) as [s' [|reason]] eqn:Hh; [|split; [done|by eexists _, _]].
  destruct (Hno tool s'). split; [| | |done|done].
  - by apply check_plan_mode_None.
  - by apply (gate_allows_iff json_text (resolve_tool_name name) input).
  - by apply policy_refusal_None.
Qed.

(** C2. No tool runs unasked: a call is executed exactly when plan mode, the permission rules, the
    session's policy, the registry and the hook all let it through.  Any other call is refused with one
    message whatever the tool would do, and leaves the tools, the modes, the policies and the calls in
    flight as they were; in either case the gates see the call counted as in flight. *)
Theorem no_tool_runs_unasked name input ctx s :
  let id := tc_tool_call_id ctx in
  let s1 := set_in_flight (mark_tool_in_flight id (ts_in_flight s)) s in
  (∀ impl tool s2, admitted s1 name input ctx tool s2 →
     exec impl name input ctx s =
       (let '(s3, res) := run impl tool name (resolve_tool_name name) input ctx s2 in
        (set_in_flight (drop_guard id (ts_in_flight s3)) s3, res)))
  ∧ (counts_positive (ts_in_flight s) → (∀ tool s2, ¬ admitted s1 name input ctx tool s2) →
     ∃ s' msg, (∀ impl, exec impl name input ctx s = (s', Err [msg]))
       ∧ ts_tools s' = ts_tools s ∧ ts_plan_mode s' = ts_plan_mode s ∧ ts_policies s' = ts_policies s
       ∧ ts_in_flight s' = ts_in_flight s).
Proof.
  intros id s1. split.
  - intros impl tool s2 H. unfold execute. fold id s1. by rewrite (execute_body_admitted _ _ _ _ _ _ _ H).
  - intros Hc Hno.
    set (stub := Build_ToolImpl Tool State (λ _, "") (λ _, "") (λ _, JNull) (λ _ _ _ s, (s, Err []))).
    destruct (execute_body_refused stub stub _ _ _ _ Hno) as (_ & s' & msg & Hs' & H1 & H2 & H3 & H4).
    exists (set_in_flight (drop_guard id (ts_in_flight s')) s'), msg. split_and!; try done.
    + intros impl. unfold execute. fold id s1.
      destruct (execute_body_refused impl stub _ _ _ _ Hno) as [-> _]. by rewrite Hs'.
    + cbn. rewrite H4. by apply drop_mark.
Qed.
End mediation.

(** ** A registry with one tool *)

Section example.
Definition echo_tool : ToolImpl unit (ToolState unit nat) :=
  {| tool_name _ := "echo"; tool_description _ := "says it again"; parameters_schema _ := JObject [];
     tool_run _ input _ s := (set_world (S (ts_world s)) s, Ok (tool_output "echoed")) |}.

Definition one_tool (modes : gmap string bool) : ToolState unit nat :=
  MkToolState {[ "bash" := tt ]} modes ∅ ∅ [] 0.

Definition call (rules : PermissionRules) (name : string) (s : ToolState unit nat) :=
  @execute unit nat echo_tool (λ _, "{}") (λ _, None)
    (MkOutside nat (λ _ _ _ w, (w, Command_failed)) (λ _ _ w, (w, Http_failed)) (λ _ _ w, (w, Prompt_failed)))
    (λ _, rules) (λ _, MkHookConfig None None None None None None false) (λ _ _, 0%N) (λ _ _ _ _ w, w) (λ _ w, w)
    (λ _, (0%N, 0%N)) (λ _, "") name (JObject [("command", JString "rm -rf /tmp/x")])
    (MkToolContext "s" "m" "c" None AgentTurn) s.

Example gates_at_work :
  (* the aliases reach the tool, and it runs once *)
  (ts_world (call [] "functions.shell_exec" (one_tool ∅)).1 = 1
   ∧ (call [] "Bash" (one_tool ∅)).2 = Ok (tool_output "echoed"))
  (* plan mode, a rule and an unknown name each stop the call before it *)
  ∧ ts_world (call [] "shell" (one_tool {[ "s" := true ]})).1 = 0
  ∧ (ts_world (call [MkRule Decision_Deny "bash" (Some "rm -rf *")] "bash" (one_tool ∅)).1 = 0
     ∧ (call [MkRule Decision_Deny "bash" (Some "rm -rf *")] "bash" (one_tool ∅)).2 = Err [deny_message "bash"])
  ∧ (call [] "bahs" (one_tool ∅)).2 = Err ["Unknown tool: bahs. Did you mean: bash? Available tools: bash."].
Proof. by vm_compute. Qed.
End example.

(** A rule written with an alias of a tool never matches: the gate is asked about the resolved name. *)
Example alias_rule_is_dead :
  (call [MkRule Decision_Deny "shell_exec" None] "shell_exec" (one_tool ∅)).2 = Ok (tool_output "echoed").
Proof. by vm_compute. Qed.

(** ** The context guard *)

Lemma div4_le a b : a ≤ 4 * b → a / 4 ≤ b.
Proof. intros H. apply Nat.Div0.div_le_upper_bound. lia. Qed.

(** The context guard spends no more than it has: with a budget, an output that is returned whole
    leaves the conversation within the threshold and is no larger than a single output may be; an output
    is cut only when the caller accepted its price, to a prefix within the room that is left; and an
    output that is withheld for its price is so only when the caller did not accept it. *)
Theorem guard_spends_within_budget budget current output accept :
  budget ≠ 0%N →
  match guard_outcome budget current output accept with
  | Guard_Returned =>
      (current + N.of_nat (estimate_tokens output) ≤ threshold_tokens budget)%N
      ∧ (N.of_nat (estimate_tokens output) ≤ single_max_tokens budget)%N
  | Guard_NoRoom _ _ _ => (threshold_tokens budget ≤ current)%N
  | Guard_Withheld _ affordable _ _ =>
      accept = false ∧ (current + affordable ≤ threshold_tokens budget)%N ∧ (affordable ≤ single_max_tokens budget)%N
  | Guard_Cut kept _ _ _ most =>
      accept = true ∧ (∃ rest, output = kept +:+ rest) ∧ (N.of_nat (String.length kept) ≤ most * 4)%N
      ∧ (current + most ≤ threshold_tokens budget)%N ∧ (most ≤ single_max_tokens budget)%N
  end.
Proof.
  intros Hb. unfold guard_outcome. rewrite (proj2 (N.eqb_neq _ _) Hb). cbv zeta.
  set (thr := threshold_tokens budget). set (single := single_max_tokens budget).
  destruct (_ || _) eqn:Hn; cbn [negb].
  2: { apply orb_false_iff in Hn as [?%N.ltb_ge ?%N.ltb_ge]. done. }
  destruct (N.leb_spec thr current) as [Hr|Hr]; [done|].
  destruct (N.leb_spec (N.of_nat (String.length output)) (N.min (thr - current) single * 4)) as [Hl|Hl].
  - assert (N.of_nat (estimate_tokens output) ≤ N.min (thr - current) single)%N; [|lia].
    unfold estimate_tokens, APPROX_CHARS_PER_TOKEN. set (m := N.min _ _) in *.
    assert (String.length output / 4 ≤ N.to_nat m) by (apply div4_le; lia). lia.
  - destruct accept; cbn [negb]; [|split; [done|lia]]. split_and!; [done| | |lia|lia].
    + eexists. symmetry. apply str_take_drop.
    + set (k := N.to_nat _). assert (floor_char_boundary output k ≤ k ∧ floor_char_boundary output k ≤ String.length output) as [H1 H2].
      { unfold floor_char_boundary. destruct (Nat.leb_spec (String.length output) k); [lia|].
        destruct (back_up_spec output k) as [[? _]|?]; lia. }
      rewrite str_length_take by done. subst k. lia.
Qed.

Lemma guard_spends_within_budget_witness :
  let output := String.concat "" (repeat "0123456789" 200) in
  guard_outcome 1000 100 output true = Guard_Cut (str_take 1050 output) 500 100 1000 300
  ∧ (100 + 300 ≤ threshold_tokens 1000)%N.
Proof.
  intros output. pose proof (guard_spends_within_budget 1000 100 output true ltac:(discriminate)) as H.
  assert (guard_outcome 1000 100 output true = Guard_Cut (str_take 1050 output) 500 100 1000 300) as E
    by (vm_compute; reflexivity).
  split; [exact E|]. rewrite E in H. apply H.
Defined.

(** The room for a cut output has no lower bound: one token below the threshold nothing of it is kept. *)
Example cut_to_nothing :
  guard_outcome 1000 899 (String.concat "" (repeat "0123456789" 100)) true = Guard_Cut "" 250 899 1000 1.
Proof. by vm_compute. Qed.

(** ** The tools a model is shown *)

Section definitions.
Context {Tool W : Type}.
Notation State := (ToolState Tool W).
Context `{!ToolImpl Tool State}.
Implicit Types (s : State) (entries : list (string * Tool)).

Definition entry_definition (e : string * Tool) : ToolDefinition :=
  let def := @to_definition Tool W _ e.2 in
  if String.eqb (td_name def) e.1 then def else MkToolDefinition e.1 (td_description def) (td_input_schema def).

Lemma entry_definition_name e : td_name (entry_definition e) = e.1.
Proof. unfold entry_definition. cbv zeta. by destruct (String.eqb_spec (td_name (@to_definition Tool W _ e.2)) e.1). Qed.

Lemma map_entry_names entries : map td_name (map entry_definition entries) = entries.*1.
Proof. rewrite map_map. apply map_ext. intros e. apply entry_definition_name. Qed.

Lemma definition_leb_total a b : definition_leb a b = true ∨ definition_leb b a = true.
Proof. apply str_leb_total. Qed.

Lemma definition_leb_trans a b c : definition_leb a b = true → definition_leb b c = true → definition_leb a c = true.
Proof. apply str_leb_trans. Qed.

(** Sorting by name forgets the order in which entries with different names came. *)
Lemma sort_entries_perm l1 l2 :
  l1 ≡ₚ l2 → NoDup (l1.*1) →
  sort_by definition_leb (map entry_definition l1) = sort_by definition_leb (map entry_definition l2).
Proof.
  intros Hp Hnd. apply (StronglySorted_unique_strong (λ a b, definition_leb a b = true)).
  - intros a b Ha Hb H1 H2. rewrite !elem_of_sort_by in *.
    apply list_elem_of_fmap in Ha as (x & -> & Hx). apply list_elem_of_fmap in Hb as (y & -> & Hy).
    f_equal. unfold definition_leb in *. rewrite !entry_definition_name in *.
    assert (x.1 = y.1) as E by by apply str_leb_antisym. rewrite <- Hp in Hy.
    apply list_elem_of_lookup in Hx as [i Hi], Hy as [j Hj].
    assert (i = j) as ->; [|congruence].
    eapply NoDup_lookup; [exact Hnd| |]; rewrite list_lookup_fmap; [by rewrite Hi|by rewrite Hj, E].
  - apply sort_by_strongly_sorted; [apply definition_leb_total|apply definition_leb_trans].
  - apply sort_by_strongly_sorted; [apply definition_leb_total|apply definition_leb_trans].
  - rewrite !sort_by_perm. by apply Permutation_map.
Qed.

(** The tools are shown in one order: the definitions do not depend on the order in which the hash
    map yields its entries, so the prompt stays the same; they are named by their registry keys, sorted,
    each allowed key once. *)
Theorem definitions_deterministic allowed s entries :
  entries ≡ₚ map_to_list (ts_tools s) →
  definitions_of allowed entries = definitions allowed s
  ∧ Sorted (λ a b, definition_leb a b = true) (definitions allowed s)
  ∧ map td_name (definitions allowed s) ≡ₚ
      filter (λ k, definition_allowed allowed k) ((map_to_list (ts_tools s)).*1).
Proof.
  intros Hp. unfold definitions, definitions_of. fold entry_definition. split_and!.
  - apply sort_entries_perm; [by rewrite Hp|].
    eapply sublist_NoDup; [|apply fmap_sublist, sublist_filter].
    rewrite Hp. apply NoDup_fst_map_to_list.
  - apply sort_by_sorted, definition_leb_total.
  - rewrite (Permutation_map td_name (sort_by_perm _ _)), map_entry_names.
    clear Hp. induction (map_to_list (ts_tools s)) as [|e l IH]; [done|]. rewrite fmap_cons, !filter_cons.
    case_decide; [|done]. rewrite fmap_cons. by apply Permutation_skip.
Qed.

Lemma unregister_prefix_exact prefix s k :
  ts_tools (unregister_prefix prefix s).1 !! k = (if starts_with prefix k then None else ts_tools s !! k)
  ∧ (k ∈ (unregister_prefix prefix s).2 ↔ is_Some (ts_tools s !! k) ∧ starts_with prefix k = true).
Proof.
  unfold unregister_prefix. cbn [fst snd set_tools ts_tools].
  set (gone := filter _ _).
  assert (k ∈ gone ↔ is_Some (ts_tools s !! k) ∧ starts_with prefix k = true) as Hgone.
  { unfold gone. rewrite list_elem_of_filter, list_elem_of_fmap. rewrite Is_true_true. split.
    - intros [Hs ([k' t] & -> & H)]. apply elem_of_map_to_list in H. split; [by eexists|done].
    - intros [[t Ht] Hs]. split; [done|]. exists (k, t). split; [done|]. by apply elem_of_map_to_list. }
  split; [|done].
  assert (∀ (l : list string) (m : gmap string Tool),
    foldl (λ m k, delete k m) m l !! k = if bool_decide (k ∈ l) then None else m !! k) as Hfold.
  { induction l as [|x l IH]; intros m; cbn [foldl]; [done|]. rewrite IH.
    destruct (decide (k = x)) as [->|Hne].
    - rewrite lookup_delete_eq. rewrite (bool_decide_eq_true_2 (x ∈ x :: l)) by set_solver. by case_match.
    - rewrite lookup_delete_ne by done.
      by rewrite (bool_decide_ext (k ∈ x :: l) (k ∈ l)) by (rewrite elem_of_cons; naive_solver). }
  rewrite Hfold. case_bool_decide as Hk; [by rewrite (proj2 (proj1 Hgone Hk))|].
  destruct (starts_with prefix k) eqn:Hs; [|done].
  destruct (ts_tools s !! k) eqn:E; [|done]. destruct Hk. apply Hgone. by split; [eexists|].
Qed.
End definitions.

Lemma definitions_deterministic_witness :
  let s := MkToolState {[ "read" := tt; "bash" := tt ]} ∅ ∅ ∅ [] 0 in
  let _ := echo_tool in
  definitions_of None (reverse (map_to_list (ts_tools s))) = @definitions unit nat echo_tool None s
  ∧ map td_name (@definitions unit nat echo_tool None s) = ["bash"; "read"].
Proof.
  intros s inst. split; [|vm_compute; reflexivity].
  apply (definitions_deterministic None s (reverse (map_to_list (ts_tools s)))). apply reverse_Permutation.
Defined.

(** * The edit distance behind the suggestions for a tool name

    [ToolRegistry.levenshtein] keeps two rows of the classic table.  [edits a b n] says that [n] single
    insertions, deletions and replacements turn [a] into [b]; the function returns the least such [n]. *)

Inductive edits : list string → list string → nat → Prop :=
  | edits_nil : edits [] [] 0
  | edits_delete x a b n : edits a b n → edits (x :: a) b (S n)
  | edits_insert y a b n : edits a b n → edits a (y :: b) (S n)
  | edits_keep x a b n : edits a b n → edits (x :: a) (x :: b) n
  | edits_replace x y a b n : edits a b n → edits (x :: a) (y :: b) (S n).

Definition distance (a b : list string) (n : nat) : Prop := edits a b n ∧ ∀ m, edits a b m → n ≤ m.

Definition cost (x y : string) : nat := if String.eqb x y then 0 else 1.

Lemma edits_app a b n a' b' n' : edits a b n → edits a' b' n' → edits (a ++ a') (b ++ b') (n + n').
Proof.
  intros H H'. induction H; cbn;
    [done|by apply edits_delete|by apply edits_insert|by apply edits_keep|by apply edits_replace].
Qed.

Lemma edits_change x y : edits [x] [y] (cost x y).
Proof.
  unfold cost. destruct (String.eqb_spec x y) as [->|]; [apply edits_keep|apply edits_replace]; constructor.
Qed.

Lemma edits_rev a b n : edits a b n → edits (reverse a) (reverse b) n.
Proof.
  induction 1 as [|x a b n _ IH|y a b n _ IH|x a b n _ IH|x y a b n _ IH];
    rewrite ?reverse_cons; [constructor| | | |].
  - rewrite <- (app_nil_r (reverse b)), <- Nat.add_1_r. apply edits_app; [done|]. repeat constructor.
  - rewrite <- (app_nil_r (reverse a)), <- Nat.add_1_r. apply edits_app; [done|]. repeat constructor.
  - rewrite <- (Nat.add_0_r n). apply edits_app; [done|]. apply edits_keep. constructor.
  - rewrite <- Nat.add_1_r. apply edits_app; [done|]. apply edits_replace. constructor.
Qed.

(** How a script ends. *)
Lemma edits_snoc_inv a x b y n :
  edits (a ++ [x]) (b ++ [y]) n →
  (∃ m, n = m + 1 ∧ edits a (b ++ [y]) m) ∨ (∃ m, n = m + 1 ∧ edits (a ++ [x]) b m)
  ∨ (∃ m, m + cost x y ≤ n ∧ edits a b m).
Proof.
  intros H%edits_rev. rewrite !reverse_snoc in H. unfold cost.
  inversion H as [|? ? ? m Hm|? ? ? m Hm|? ? ? m Hm|? ? ? ? m Hm]; subst; apply edits_rev in Hm;
    rewrite ?reverse_cons, ?reverse_involutive in Hm.
  - left. exists m. by rewrite Nat.add_1_r.
  - right; left. exists m. by rewrite Nat.add_1_r.
  - right; right. exists n. rewrite String.eqb_refl. split; [lia|done].
  - right; right. exists m. split; [case_match; lia|done].
Qed.

Lemma edits_nil_l b n : edits [] b n → length b ≤ n.
Proof.
  intros H. remember [] as a eqn:Ha. induction H; simplify_eq; cbn; [lia|]. specialize (IHedits eq_refl). lia.
Qed.

Lemma edits_nil_r a n : edits a [] n → length a ≤ n.
Proof.
  intros H. remember [] as b eqn:Hb. induction H; simplify_eq; cbn; [lia|]. specialize (IHedits eq_refl). lia.
Qed.

Lemma distance_nil_l b : distance [] b (length b).
Proof. split; [|apply edits_nil_l]. induction b; by constructor. Qed.

Lemma distance_nil_r a : distance a [] (length a).
Proof. split; [|apply edits_nil_r]. induction a; by constructor. Qed.

(** The recurrence of the table. *)
Lemma distance_step a x b y above left diag :
  distance a (b ++ [y]) above → distance (a ++ [x]) b left → distance a b diag →
  distance (a ++ [x]) (b ++ [y]) (min (min (above + 1) (left + 1)) (diag + cost x y)).
Proof.
  intros [Ha La] [Hl Ll] [Hd Ld]. split.
  - destruct (Nat.min_dec (min (above + 1) (left + 1)) (diag + cost x y)) as [->| ->].
    + destruct (Nat.min_dec (above + 1) (left + 1)) as [->| ->].
      * rewrite <- (app_nil_r (b ++ [y])). apply edits_app; [done|]. repeat constructor.
      * rewrite <- (app_nil_r (a ++ [x])). apply edits_app; [done|]. repeat constructor.
    + apply edits_app; [done|apply edits_change].
  - intros m [(k & -> & H)|[(k & -> & H)|(k & Hk & H)]]%edits_snoc_inv.
    + specialize (La _ H). lia.
    + specialize (Ll _ H). lia.
    + specialize (Ld _ H). lia.
Qed.

(** A row of the table: the distances of [a] from [b1] and every longer prefix of [b1 ++ b2]. *)
Fixpoint row_ok (a b1 b2 : list string) (row : list nat) : Prop :=
  match row with
  | [] => False
  | d :: row =>
      distance a b1 d ∧ match b2 with [] => row = [] | y :: b2 => row_ok a (b1 ++ [y]) b2 row end
  end.

Lemma first_row_ok b1 b2 : row_ok [] b1 b2 (seq (length b1) (S (length b2))).
Proof.
  revert b1. induction b2 as [|y b2 IH]; intros b1; cbn [length seq row_ok].
  - split; [apply distance_nil_l|done].
  - split; [apply distance_nil_l|]. specialize (IH (b1 ++ [y])).
    rewrite length_app, Nat.add_1_r in IH. done.
Qed.

Lemma next_row_ok a x b1 b2 prev left :
  row_ok a b1 b2 prev → distance (a ++ [x]) b1 left →
  row_ok (a ++ [x]) b1 b2 (left :: levenshtein_row x b2 prev left).
Proof.
  revert b1 prev left. induction b2 as [|y b2 IH]; intros b1 prev left Hrow Hl; cbn [row_ok]; (split; [done|]).
  { by destruct prev. }
  destruct prev as [|diag prev]; [done|]. cbn [row_ok] in Hrow. destruct Hrow as [Hd Hrow].
  destruct prev as [|above prev]; [by destruct b2|]. cbn [levenshtein_row]. apply IH; [done|].
  apply distance_step; [|done..]. by destruct b2; destruct Hrow.
Qed.

Lemma rows_ok a1 a b prev :
  row_ok a1 [] b prev → row_ok (a1 ++ a) [] b (levenshtein_rows (length a1) a b prev).
Proof.
  revert a1 prev. induction a as [|x a IH]; intros a1 prev Hrow; cbn [levenshtein_rows].
  { by rewrite app_nil_r. }
  rewrite (cons_middle x), (app_assoc a1 [x]).
  replace (S (length a1)) with (length (a1 ++ [x])) by (rewrite length_app; cbn; lia).
  apply IH, next_row_ok; [done|]. apply distance_nil_r.
Qed.

Lemma row_last a b1 b2 row : row_ok a b1 b2 row → ∃ d, last row = Some d ∧ distance a (b1 ++ b2) d.
Proof.
  revert b1 row. induction b2 as [|y b2 IH]; intros b1 [|d row]; cbn [row_ok]; [done| |done|].
  - intros [Hd ->]. exists d. by rewrite app_nil_r.
  - intros [_ Hrow]. destruct (IH _ _ Hrow) as (e & He & Hd). exists e. rewrite <- app_assoc in Hd.
    split; [|done]. by destruct row.
Qed.

(** The two-row table is the edit distance: the number behind a suggestion is the least number of
    insertions, deletions and replacements of characters that turns one name into the other. *)
Theorem levenshtein_exact (a b : string) :
  edits (chars a) (chars b) (levenshtein a b) ∧ ∀ n, edits (chars a) (chars b) n → levenshtein a b ≤ n.
Proof.
  change (distance (chars a) (chars b) (levenshtein a b)). unfold levenshtein. cbv zeta.
  set (x := chars a). set (y := chars b). destruct (is_nil x) eqn:Hx.
  { destruct x; [|done]. apply distance_nil_l. }
  destruct (is_nil y) eqn:Hy.
  { destruct y; [|done]. apply distance_nil_r. }
  destruct (row_last _ _ _ _ (rows_ok [] x y _ (first_row_ok [] y))) as (d & Hd & Hdist).
  cbn [length app] in *. by rewrite Hd.
Qed.
