(* ===== verification/Checkpoints.v ===== *)
(** * File checkpoints and undo (crates/arterm-app-core/src/tool/checkpoint.rs, undo.rs)

    Before a file tool writes, the file's content, or the fact that it was absent, goes into a store that
    all sessions of the process share; [undo] takes the newest entry out and puts the content back.  The
    file system is an interface: [FileSystem] has the operations of [std::fs] the tools call, any of which
    may fail, and [FileSystemLaws] says what a call that succeeded means for the same path.  Two paths are
    the same for the store when their components are ([PathBuf]'s equality). *)

From S2P Require Export ToolTypes Utf8.

Inductive IoError := NotFound | IoOther (text : string).

(** The text of an error. *)
Definition io_text (e : IoError) : string :=
  match e with NotFound => "No such file or directory (os error 2)" | IoOther t => t end.

Class FileSystem (W : Type) := {
  fs_read : string → W → result string IoError;
  fs_write : string → string → W → W * result unit IoError;
  fs_remove_file : string → W → W * result unit IoError;
  fs_create_dir_all : string → W → W * result unit IoError;
  fs_exists : string → W → bool;
  (** Seconds since the epoch. *)
  fs_now : W → N;
}.

Class FileSystemLaws (W : Type) `{!FileSystem W} := {
  fs_write_read p c w w' : fs_write p c w = (w', Ok tt) → fs_read p w' = Ok c;
  fs_remove_read p w w' : fs_remove_file p w = (w', Ok tt) → fs_read p w' = Err NotFound;
  fs_remove_absent p w w' : fs_remove_file p w = (w', Err NotFound) → fs_read p w' = Err NotFound;
  (** Making the directory a file lies in does not make or change the file. *)
  fs_mkdir_read p d w w' : parent p = Some d → fs_create_dir_all d w = (w', Ok tt) → fs_read p w' = fs_read p w;
}.

(** [std::fs::read_to_string] *)
Definition read_to_string {W} `{!FileSystem W} (p : string) (w : W) : result string IoError :=
  match fs_read p w with
  | Ok s => match from_utf8 s with AllValid => Ok s | _ => Err (IoOther "stream did not contain valid UTF-8") end
  | Err e => Err e
  end.

(** ** The store *)

Definition MAX_SNAPSHOTS_PER_FILE : nat := 5.
Definition MAX_AGE_SECS : N := 7 * 24 * 3600.

Record Checkpoint := MkCheckpoint {
  cp_file_path : string;
  cp_pre_content : option string;
  cp_created_at : N;
  cp_session_id : string;
}.

(** [CheckpointStore]: oldest first. *)
Notation CheckpointStore := (list Checkpoint).

Definition of_file (file : string) (c : Checkpoint) : bool := path_eq (cp_file_path c) file.

(** [guard.remove(pos)] at the first entry that satisfies [f]. *)
Fixpoint remove_first (f : Checkpoint → bool) (l : CheckpointStore) : CheckpointStore :=
  match l with
  | [] => []
  | c :: l => if f c then l else c :: remove_first f l
  end.

(** The loop of [record]: [count] entries of the file are left. *)
Fixpoint trim_history (count : nat) (file : string) (l : CheckpointStore) : CheckpointStore :=
  match count with
  | 0 => l
  | S k =>
      if MAX_SNAPSHOTS_PER_FILE <=? count then
        match position (of_file file) l with
        | Some _ => trim_history k file (remove_first (of_file file) l)
        | None => l
        end
      else l
  end.

Definition count_of (file : string) (l : CheckpointStore) : nat := length (List.filter (of_file file) l).

Definition record (cp : Checkpoint) (l : CheckpointStore) : CheckpointStore :=
  trim_history (count_of (cp_file_path cp) l) (cp_file_path cp) l ++ [cp].

(** [rposition] and [remove]: the last entry that satisfies [f], and the others. *)
Fixpoint pop_last (f : Checkpoint → bool) (l : CheckpointStore) : option (Checkpoint * CheckpointStore) :=
  match l with
  | [] => None
  | c :: l =>
      match pop_last f l with
      | Some (d, l) => Some (d, c :: l)
      | None => if f c then Some (c, l) else None
      end
  end.

Definition pop_for (path : string) (l : CheckpointStore) : option (Checkpoint * CheckpointStore) :=
  pop_last (of_file path) l.

Definition pop_for_session (session_id path : string) (l : CheckpointStore) : option (Checkpoint * CheckpointStore) :=
  pop_last (λ c, of_file path c && String.eqb (cp_session_id c) session_id) l.

Definition latest (l : CheckpointStore) : option Checkpoint := last l.

Definition prune_expired (now : N) (l : CheckpointStore) : CheckpointStore :=
  List.filter (λ c, (now - MAX_AGE_SECS <=? cp_created_at c)%N) l.

(** ** Snapshots *)

(** What the file tools share: the world, the global store, and the file-touch events published. *)
Inductive FileOp := Op_Read | Op_Write | Op_Edit.

Record FileTouch := MkFileTouch {
  ft_session_id : string;
  ft_path : string;
  ft_op : FileOp;
  ft_intent : option string;
  ft_summary : option string;
  ft_detail : option string;
}.

Record FileState (W : Type) := MkFileState {
  fst_world : W;
  fst_checkpoints : CheckpointStore;
  fst_bus : list FileTouch;
}.
Arguments MkFileState {W}.
Arguments fst_world {W}.
Arguments fst_checkpoints {W}.
Arguments fst_bus {W}.

Section ops.
Context {W : Type} `{!FileSystem W}.
Implicit Types (s : FileState W).

Definition with_world (w : W) s : FileState W := MkFileState w (fst_checkpoints s) (fst_bus s).
Definition with_checkpoints (l : CheckpointStore) s : FileState W := MkFileState (fst_world s) l (fst_bus s).
Definition publish (t : FileTouch) s : FileState W := MkFileState (fst_world s) (fst_checkpoints s) (fst_bus s ++ [t]).

Definition snapshot (session_id path : string) (w : W) : option Checkpoint :=
  match fs_read path w with
  | Ok bytes => Some (MkCheckpoint path (Some bytes) (fs_now w) session_id)
  | Err NotFound => Some (MkCheckpoint path None (fs_now w) session_id)
  | Err _ => None
  end.

Definition snapshot_and_record (session_id path : string) s : FileState W :=
  match snapshot session_id path (fst_world s) with
  | Some cp => with_checkpoints (record cp (fst_checkpoints s)) s
  | None => s
  end.

Definition restore (cp : Checkpoint) (w : W) : W * result unit IoError :=
  match cp_pre_content cp with
  | Some bytes =>
      match match parent (cp_file_path cp) with Some dir => fs_create_dir_all dir w | None => (w, Ok tt) end with
      | (w, Ok _) => fs_write (cp_file_path cp) bytes w
      | (w, Err e) => (w, Err e)
      end
  | None =>
      match fs_remove_file (cp_file_path cp) w with
      | (w, Err NotFound) => (w, Ok tt)
      | other => other
      end
  end.

(** [UndoTool::execute] *)
Definition undo_execute (file_path : option string) (ctx : ToolContext) s : FileState W * result ToolOutput string :=
  let target := match file_path with
                | Some rel => Some (resolve_path ctx rel)
                | None => match latest (fst_checkpoints s) with
                          | Some cp => if String.eqb (cp_session_id cp) (tc_session_id ctx) then Some (cp_file_path cp) else None
                          | None => None
                          end
                end in
  match match target with Some path => pop_for_session (tc_session_id ctx) path (fst_checkpoints s) | None => None end with
  | None => (s, Ok (tool_output "No checkpoint to undo for this session."))
  | Some (cp, rest) =>
      let s := with_checkpoints rest s in
      match restore cp (fst_world s) with
      | (w, Err e) => (with_world w s, Err (io_text e))
      | (w, Ok _) =>
          let what := match cp_pre_content cp with
                      | Some _ => "restored pre-edit content"
                      | None => "removed file created by the last edit"
                      end in
          (with_world w s,
           Ok (with_title (cp_file_path cp) (tool_output ("Undid edit: " +:+ cp_file_path cp +:+ " (" +:+ what +:+ ")."))))
      end
  end.
End ops.

(** ** Histories *)

Lemma of_file_iff p c : of_file p c = true ↔ components (cp_file_path c) = components p.
Proof. apply bool_decide_eq_true. Qed.

Lemma of_file_same p q c : of_file p c = true → of_file q c = of_file q (MkCheckpoint p None 0 "").
Proof.
  intros H%of_file_iff. unfold of_file, path_eq. cbn [cp_file_path]. by rewrite H.
Qed.

Lemma count_of_app p l1 l2 : count_of p (l1 ++ l2) = count_of p l1 + count_of p l2.
Proof. unfold count_of. by rewrite List.filter_app, length_app. Qed.

Lemma count_of_cons p c l : count_of p (c :: l) = (if of_file p c then 1 else 0) + count_of p l.
Proof. unfold count_of. cbn [List.filter]. by case_match. Qed.

Lemma count_of_pos p l : 0 < count_of p l ↔ ∃ i, position (of_file p) l = Some i.
Proof.
  induction l as [|c l IH]; cbn [position]; [split; [cbn; lia|by intros (? & ?)]|].
  rewrite count_of_cons. destruct (of_file p c); [split; [by exists 0|lia]|].
  rewrite Nat.add_0_l, IH. split; intros (i & Hi).
  - exists (S i). by rewrite Hi.
  - destruct (position _ l) as [j|]; [by exists j|done].
Qed.

(** Removing an entry of one file leaves every other file's entries alone. *)
Lemma count_remove_first p q l :
  0 < count_of p l →
  count_of q (remove_first (of_file p) l) + (if path_eq p q then 1 else 0) = count_of q l.
Proof.
  induction l as [|c l IH]; [cbn; lia|]. rewrite count_of_cons. cbn [remove_first].
  destruct (of_file p c) eqn:Hc.
  - intros _. rewrite count_of_cons, (of_file_same p q c Hc). unfold of_file at 1. cbn [cp_file_path]. lia.
  - intros H. rewrite !count_of_cons, <- IH by (cbn in H; lia). lia.
Qed.

Lemma path_eq_refl p : path_eq p p = true.
Proof. by apply bool_decide_eq_true. Qed.

Lemma path_eq_sym p q : path_eq p q = path_eq q p.
Proof. apply bool_decide_ext. naive_solver. Qed.

Lemma trim_history_count n p q l :
  n = count_of p l →
  count_of q (trim_history n p l) ≤ count_of q l
  ∧ (path_eq p q = true → count_of q (trim_history n p l) = min n 4)
  ∧ (path_eq p q = false → count_of q (trim_history n p l) = count_of q l).
Proof.
  revert l. induction n as [|n IH]; intros l Hn.
  - split; [done|]. split; [|done]. intros E. cbn [trim_history].
    assert (count_of q l = count_of p l) as ->; [|lia].
    unfold count_of. f_equal. apply filter_ext. intros c. unfold of_file. apply bool_decide_eq_true in E.
    unfold path_eq. by rewrite E.
  - cbn [trim_history]. destruct (Nat.leb_spec MAX_SNAPSHOTS_PER_FILE (S n)) as [Hle|Hlt].
    + destruct (proj1 (count_of_pos p l)) as [i ->]; [lia|].
      pose proof (count_remove_first p p l) as H1. pose proof (count_remove_first p q l) as H2.
      rewrite path_eq_refl in H1. destruct (IH (remove_first (of_file p) l)) as (H3 & H4 & H5); [lia|].
      unfold MAX_SNAPSHOTS_PER_FILE in Hle. split; [|split].
      * lia.
      * intros E. rewrite H4 by done. lia.
      * intros E. rewrite H5 by done. rewrite E in H2. lia.
    + split; [done|]. split; [|done]. intros E. unfold MAX_SNAPSHOTS_PER_FILE in Hlt.
      assert (count_of q l = count_of p l) as ->; [|lia].
      unfold count_of. f_equal. apply filter_ext. intros c. unfold of_file. apply bool_decide_eq_true in E.
      unfold path_eq. by rewrite E.
Qed.

(** At most five entries per file. *)
Definition history_ok (l : CheckpointStore) : Prop := ∀ p, count_of p l ≤ MAX_SNAPSHOTS_PER_FILE.

Lemma record_bounded cp l : history_ok l → history_ok (record cp l).
Proof.
  intros H p. unfold record. rewrite count_of_app, count_of_cons. change (count_of p []) with 0.
  destruct (trim_history_count _ (cp_file_path cp) p l eq_refl) as (_ & H1 & H2).
  specialize (H p). unfold of_file, MAX_SNAPSHOTS_PER_FILE in *.
  destruct (path_eq (cp_file_path cp) p) eqn:E; [rewrite H1 by done; lia|rewrite H2 by done; lia].
Qed.

Lemma trim_history_id l p : count_of p l < MAX_SNAPSHOTS_PER_FILE → trim_history (count_of p l) p l = l.
Proof.
  intros H. destruct (count_of p l) as [|n]; [done|]. cbn [trim_history].
  by rewrite (proj2 (Nat.leb_gt _ _) H).
Qed.

Lemma pop_last_snoc f l c : f c = true → pop_last f (l ++ [c]) = Some (c, l).
Proof. intros H. induction l as [|d l IH]; cbn [app pop_last]; [by rewrite H|by rewrite IH]. Qed.

Lemma pop_record session path cp l :
  path_eq (cp_file_path cp) path = true → cp_session_id cp = session →
  pop_for_session session path (record cp l) = Some (cp, trim_history (count_of (cp_file_path cp) l) (cp_file_path cp) l).
Proof.
  intros Hp Hs. apply pop_last_snoc. unfold of_file. rewrite Hp, Hs. cbn. apply String.eqb_refl.
Qed.

(** ** Undo *)

(** Undo after undo: the entries come back newest first. *)
Fixpoint pop_many (n : nat) (session path : string) (l : CheckpointStore) : option (list Checkpoint * CheckpointStore) :=
  match n with
  | 0 => Some ([], l)
  | S n =>
      let?? (cp, l) := pop_for_session session path l in
      let?? (cps, l) := pop_many n session path l in
      Some (cp :: cps, l)
  end.

Lemma pop_many_recorded session path cps l :
  Forall (λ cp, cp_file_path cp = path ∧ cp_session_id cp = session) cps →
  count_of path l + length cps ≤ MAX_SNAPSHOTS_PER_FILE →
  pop_many (length cps) session path (foldl (λ l cp, record cp l) l cps) = Some (reverse cps, l).
Proof.
  induction cps as [|cp cps IH] using rev_ind; [done|].
  intros [Hall [[Hp Hs] _]%Forall_cons]%Forall_app Hn. specialize (IH Hall).
  rewrite length_app in *. cbn [length] in *. rewrite foldl_app, Nat.add_1_r. cbn [foldl pop_many].
  set (l' := foldl _ l cps) in *.
  assert (count_of path l' = count_of path l + length cps) as Hc.
  { clear IH. subst l'. revert l Hn. induction Hall as [|c cps [Hcp _] _ IH]; intros l Hn; cbn [foldl length] in *; [lia|].
    assert (count_of path (record c l) = S (count_of path l)) as E.
    { unfold record. rewrite Hcp, trim_history_id by lia. rewrite count_of_app, count_of_cons.
      unfold of_file. rewrite Hcp, path_eq_refl. cbn. lia. }
    rewrite IH; lia. }
  rewrite (pop_record session path cp) by (done || by rewrite Hp, path_eq_refl).
  rewrite Hp, trim_history_id by lia. rewrite IH by lia. by rewrite reverse_snoc.
Qed.

Section undo.
Context {W : Type} `{!FileSystem W, !FileSystemLaws W}.
Implicit Types (s : FileState W) (w : W).

Lemma restore_reads cp w w' :
  restore cp w = (w', Ok tt) →
  fs_read (cp_file_path cp) w' = match cp_pre_content cp with Some c => Ok c | None => Err NotFound end.
Proof.
  unfold restore. destruct (cp_pre_content cp) as [c|].
  - destruct (match parent (cp_file_path cp) with Some dir => _ | None => _ end) as [w1 [u|e]]; [|done].
    apply fs_write_read.
  - destruct (fs_remove_file (cp_file_path cp) w) as [w1 [[]|[|t]]] eqn:H; intros [= <-].
    + by eapply fs_remove_read.
    + by eapply fs_remove_absent.
Qed.

Lemma snapshot_reads session path w cp :
  snapshot session path w = Some cp →
  cp_file_path cp = path ∧ cp_session_id cp = session
  ∧ fs_read path w = match cp_pre_content cp with Some c => Ok c | None => Err NotFound end.
Proof. unfold snapshot. destruct (fs_read path w) as [c|[|t]] eqn:E; [by intros [= <-]|by intros [= <-]|done]. Qed.

Lemma snapshot_is_Some session path w :
  (∀ t, fs_read path w ≠ Err (IoOther t)) → ∃ cp, snapshot session path w = Some cp.
Proof. intros H. unfold snapshot. destruct (fs_read path w) as [c|[|t]]; [by eexists..|by destruct (H t)]. Qed.

(** Undo puts a file back: whatever a tool did to the world after it took the checkpoint of a path,
    an undo of that path that succeeds leaves the file with exactly the content it had, or absent if it
    was absent, and takes that one checkpoint out of the store; the store never holds more than five
    checkpoints of a file. *)
Lemma undo_after_snapshot ctx rel s w2 :
  let path := resolve_path ctx rel in
  let s1 := snapshot_and_record (tc_session_id ctx) path s in
  (∀ t, fs_read path (fst_world s) ≠ Err (IoOther t)) → history_ok (fst_checkpoints s) →
  history_ok (fst_checkpoints s1)
  ∧ match undo_execute (Some rel) ctx (with_world w2 s1) with
    | (s3, res) =>
        fst_checkpoints s3 = trim_history (count_of path (fst_checkpoints s)) path (fst_checkpoints s)
        ∧ match res with
          | Ok _ => fs_read path (fst_world s3) = fs_read path (fst_world s)
          | Err _ => True
          end
    end.
Proof.
  intros path s1 Hread Hok. destruct (snapshot_is_Some (tc_session_id ctx) path _ Hread) as [cp Hcp].
  destruct (snapshot_reads _ _ _ _ Hcp) as (Hp & Hs & Hr).
  assert (s1 = with_checkpoints (record cp (fst_checkpoints s)) s) as -> by (unfold s1, snapshot_and_record; by rewrite Hcp).
  split; [by apply record_bounded|]. unfold undo_execute. fold path. cbv zeta. cbn [fst_checkpoints with_world with_checkpoints].
  rewrite (pop_record (tc_session_id ctx) path cp) by (done || by rewrite Hp, path_eq_refl). rewrite Hp.
  cbn [fst_world with_world with_checkpoints].
  destruct (restore cp w2) as [w3 [[]|e]] eqn:Hrest; cbn [fst_checkpoints fst_world with_world with_checkpoints]; [|done].
  split; [done|]. rewrite Hr, <- Hp. by eapply restore_reads.
Qed.
End undo.

(** ** A file system that is a map *)

#[export] Instance map_fs : FileSystem (gmap string string) := {
  fs_read p m := match m !! p with Some c => Ok c | None => Err NotFound end;
  fs_write p c m := (<[p := c]> m, Ok tt);
  fs_remove_file p m := match m !! p with Some _ => (delete p m, Ok tt) | None => (m, Err NotFound) end;
  fs_create_dir_all _ m := (m, Ok tt);
  fs_exists p m := bool_decide (is_Some (m !! p));
  fs_now _ := 0%N;
}.

#[export] Instance map_fs_laws : FileSystemLaws (gmap string string).
Proof.
  split; cbn; intros p w.
  - intros w' w1 [= <-]. by rewrite lookup_insert_eq.
  - intros w'. destruct (w !! p); [|done]. intros [= <-]. by rewrite lookup_delete_eq.
  - intros w'. destruct (w !! p) eqn:E; [done|]. intros [= <-]. by rewrite E.
  - by intros w' w1 _ [= <-].
Qed.

Definition in_session (id : string) : ToolContext := MkToolContext id "m" "c" (Some "/work") AgentTurn.

Definition entry (session path content : string) : Checkpoint := MkCheckpoint path (Some content) 0 session.

(** Without a path, undo looks only at the newest entry of all sessions: one of another session hides
    everything this session could undo. *)
Example latest_of_another_session :
  (undo_execute None (in_session "a")
     (MkFileState (∅ : gmap string string) [entry "a" "/work/mine" "old"; entry "b" "/work/yours" "x"] [])).2
  = Ok (tool_output "No checkpoint to undo for this session.").
Proof. reflexivity. Qed.

(** The bound of five is for all sessions together: edits of a file in one session push out another
    session's only checkpoint of it. *)
Example other_session_evicts :
  let edits := repeat (entry "b" "/work/shared" "theirs") 5 in
  pop_for_session "a" "/work/shared" (foldl (λ l cp, record cp l) [entry "a" "/work/shared" "mine"] edits) = None.
Proof. reflexivity. Qed.
