(* ===== verification/AutoCommit.v ===== *)
(** * Auto-commit (crates/arterm-app-core/src/tool/git_auto_commit.rs)

    After a file tool has written, the touched files may be committed.  Running git in a directory and
    resolving symbolic links act on a world that is a parameter. *)

From S2P Require Export Checkpoints.

Definition COMMIT_PREFIX : string := "arterm:".

Inductive AutoCommitOutcome :=
  | Auto_Committed (message : string)
  | Auto_Skipped (reason : string)
  | Auto_Refused (reason : string)
  | Auto_Failed (reason : string).

(** [enabled]: the environment variable [ARTERM_GIT_AUTO_COMMIT] wins over the configuration. *)
Definition auto_commit_enabled (var : option string) (config : bool) : bool :=
  match var with
  | Some v => one_of ["1"; "true"; "yes"; "on"] v
  | None => config
  end.

(** [Path::strip_prefix], as the text of the components that are left. *)
Definition component_text (c : Component) : string :=
  match c with RootDir => "/" | CurDir => "." | ParentDir => ".." | Normal n => n end.

Definition path_strip_prefix (p base : string) : option string :=
  if path_starts_with p base
  then Some (String.concat "/" (map component_text (drop (length (components base)) (components p))))
  else None.

Definition append_notice (body : string) (outcome : AutoCommitOutcome) : string :=
  match outcome with
  | Auto_Committed msg => body +:+ nl +:+ nl +:+ "Auto-committed: " +:+ msg
  | Auto_Refused reason => body +:+ nl +:+ nl +:+ "Auto-commit skipped: " +:+ reason
  | Auto_Failed reason => body +:+ nl +:+ nl +:+ "Auto-commit failed: " +:+ reason
  | Auto_Skipped _ => body
  end.

Section commit.
Context {W : Type} `{!FileSystem W}.
(** The trimmed output of a git command that succeeded, and [std::fs::canonicalize]. *)
Context (git : string → list string → W → W * option string).
Context (canonicalize : string → W → option string).

Definition rel_to_workdir (workdir file : string) (w : W) : option string :=
  path_strip_prefix (default file (canonicalize file w)) (default workdir (canonicalize workdir w)).

(** The loop over the files: [Some] outcome when the function returns inside it. *)
Fixpoint stage_files (workdir : string) (files : list string) (w : W) : W * option AutoCommitOutcome :=
  match files with
  | [] => (w, None)
  | file :: files =>
      match rel_to_workdir workdir file w with
      | None => (w, Some (Auto_Skipped (file +:+ " is outside the repository")))
      | Some rel =>
          let '(w, status) := git workdir ["status"; "--porcelain"; "--"; rel] w in
          if match status with Some st => negb (is_empty st) && negb (starts_with "??" st) | None => false end
          then (w, Some (Auto_Refused (rel +:+ " had uncommitted changes before this edit; leaving the commit to you")))
          else
            let '(w, added) := git workdir ["add"; "--"; rel] w in
            match added with
            | None => (w, Some (Auto_Failed ("git add failed for " +:+ rel)))
            | Some _ => stage_files workdir files w
            end
      end
  end.

Definition commit_message (tool_name : string) (files : list string) : string :=
  COMMIT_PREFIX +:+ " " +:+ tool_name +:+ ": " +:+ show_nat (length files) +:+ " file(s)".

Definition commit_touched (enabled : bool) (workdir tool_name : string) (files : list string) (w : W)
    : W * AutoCommitOutcome :=
  if negb enabled then (w, Auto_Skipped "auto-commit disabled")
  else if is_nil files then (w, Auto_Skipped "no files touched")
  else
    let git_dir := path_join workdir ".git" in
    let '(w, is_repo) :=
      if fs_exists git_dir w then (w, true)
      else let '(w, found) := git workdir ["rev-parse"; "--git-dir"] w in
           (w, match found with Some _ => true | None => false end) in
    if negb is_repo then (w, Auto_Skipped "not a git repository")
    else if fs_exists (path_join git_dir "rebase-merge") w || fs_exists (path_join git_dir "rebase-apply") w
            || fs_exists (path_join git_dir "MERGE_HEAD") w
    then (w, Auto_Refused "rebase/merge in progress; auto-commit skipped")
    else
      let '(w, stopped) := stage_files workdir files w in
      match stopped with
      | Some outcome => (w, outcome)
      | None =>
          let '(w, unchanged) := git workdir ["diff"; "--cached"; "--quiet"] w in
          match unchanged with
          | Some _ => (w, Auto_Skipped "no staged changes")
          | None =>
              let message := commit_message tool_name files in
              let '(w, committed) := git workdir ["commit"; "-m"; message] w in
              match committed with
              | Some _ => (w, Auto_Committed message)
              | None => let '(w, _) := git workdir ["reset"; "--quiet"] w in (w, Auto_Failed "git commit failed")
              end
          end
      end.
End commit.

(** ** What is staged and committed *)

Section facts.
Context {W : Type} `{!FileSystem W}.
Context (git : string → list string → W → W * option string) (canonicalize : string → W → option string).

(** An edit of a file that git tracks shows in the status that is asked for after it, so it is refused
    as a change that was there before. *)
Lemma tracked_edit_refused enabled workdir tool_name file rel status (w w1 : W) :
  enabled = true → fs_exists (path_join workdir ".git") w = true →
  (∀ f, f ∈ ["rebase-merge"; "rebase-apply"; "MERGE_HEAD"] → fs_exists (path_join (path_join workdir ".git") f) w = false) →
  rel_to_workdir canonicalize workdir file w = Some rel →
  git workdir ["status"; "--porcelain"; "--"; rel] w = (w1, Some status) →
  status ≠ "" → starts_with "??" status = false →
  commit_touched git canonicalize enabled workdir tool_name [file] w
    = (w1, Auto_Refused (rel +:+ " had uncommitted changes before this edit; leaving the commit to you")).
Proof.
  intros -> Hgit Hmid Hrel Hst Hne Hq. unfold commit_touched. cbn [negb is_nil]. cbv zeta. rewrite Hgit. cbn [negb].
  rewrite !Hmid by set_solver. cbn [orb stage_files]. rewrite Hrel, Hst.
  by rewrite (proj2 (is_empty_false status) Hne), Hq.
Qed.
End facts.

Section trace.
Context {W : Type} `{!FileSystem W}.
Context (git : string → list string → W → W * option string) (canonicalize : string → W → option string).

(** The world with the git commands run so far. *)
Notation Traced := (W * list (list string))%type.

#[local] Instance traced_fs : FileSystem Traced := {
  fs_read p x := fs_read p x.1;
  fs_write p c x := let '(w, r) := fs_write p c x.1 in ((w, x.2), r);
  fs_remove_file p x := let '(w, r) := fs_remove_file p x.1 in ((w, x.2), r);
  fs_create_dir_all p x := let '(w, r) := fs_create_dir_all p x.1 in ((w, x.2), r);
  fs_exists p x := fs_exists p x.1;
  fs_now x := fs_now x.1;
}.

Definition traced_git (dir : string) (args : list string) (x : Traced) : Traced * option string :=
  let '(w, r) := git dir args x.1 in ((w, x.2 ++ [args]), r).

Definition traced_canonicalize (p : string) (x : Traced) : option string := canonicalize p x.1.

(** A command that asks, or stages or looks at one touched file. *)
Inductive harmless (workdir : string) (files : list string) : list string → Prop :=
  | harmless_query args : args ∈ [["rev-parse"; "--git-dir"]; ["diff"; "--cached"; "--quiet"]; ["reset"; "--quiet"]] →
      harmless workdir files args
  | harmless_status file rel w : file ∈ files → rel_to_workdir canonicalize workdir file w = Some rel →
      harmless workdir files ["status"; "--porcelain"; "--"; rel]
  | harmless_add file rel w : file ∈ files → rel_to_workdir canonicalize workdir file w = Some rel →
      harmless workdir files ["add"; "--"; rel].

Lemma traced_git_eq dir args x r x' : traced_git dir args x = (x', r) → x'.2 = x.2 ++ [args].
Proof. unfold traced_git. destruct (git dir args x.1) as [w o]. by intros [= <- _]. Qed.

Lemma stage_files_trace workdir all files x x' o :
  (∀ f, f ∈ files → f ∈ all) →
  stage_files traced_git traced_canonicalize workdir files x = (x', o) →
  ∃ t, x'.2 = x.2 ++ t ∧ Forall (harmless workdir all) t ∧ ∀ m, o ≠ Some (Auto_Committed m).
Proof.
  revert x. induction files as [|file files IH]; intros x Hin; cbn [stage_files].
  { intros [= <- <-]. exists []. by rewrite app_nil_r. }
  destruct (rel_to_workdir traced_canonicalize workdir file x) as [rel|] eqn:Hrel.
  2: { intros [= <- <-]. exists []. by rewrite app_nil_r. }
  destruct (traced_git workdir ["status"; "--porcelain"; "--"; rel] x) as [x1 st] eqn:H1. apply traced_git_eq in H1.
  assert (harmless workdir all ["status"; "--porcelain"; "--"; rel]) as Hs
    by (eapply (harmless_status _ _ file rel x.1); [apply Hin; by left|done]).
  case_match. { intros [= <- <-]. exists [["status"; "--porcelain"; "--"; rel]]. split_and!; [done|by apply Forall_cons_2|done]. }
  destruct (traced_git workdir ["add"; "--"; rel] x1) as [x2 ad] eqn:H2. apply traced_git_eq in H2.
  assert (harmless workdir all ["add"; "--"; rel]) as Ha
    by (eapply (harmless_add _ _ file rel x.1); [apply Hin; by left|done]).
  destruct ad as [ad|].
  - intros Hgo. apply IH in Hgo as (t & Ht & Hall & Hno); [|intros f ?; apply Hin; by right].
    exists (["status"; "--porcelain"; "--"; rel] :: ["add"; "--"; rel] :: t).
    rewrite Ht, H2, H1, <- !app_assoc. split_and!; [done| |done]. by do 2 (apply Forall_cons_2; [done|]).
  - intros [= <- <-]. exists [["status"; "--porcelain"; "--"; rel]; ["add"; "--"; rel]].
    rewrite H2, H1, <- app_assoc. split_and!; [done| |done].
    by do 2 (apply Forall_cons_2; [done|]).
Qed.

Lemma harmless_list workdir files l :
  (∀ args, args ∈ l → args ∈ [["rev-parse"; "--git-dir"]; ["diff"; "--cached"; "--quiet"]; ["reset"; "--quiet"]]) →
  Forall (harmless workdir files) l.
Proof. intros Hl. apply Forall_forall. intros args Ha. by apply harmless_query, Hl. Qed.

(** An auto-commit touches nothing but what the tool touched: every git command it runs only asks, or
    looks at or stages one of the touched files by name, except for a single commit, which is the last
    command unless it fails; the outcome says that something was committed exactly when the commit went
    through, with the agent's prefix in its message. *)
Theorem only_touched_files_staged enabled workdir tool_name files w :
  let '((_, trace), outcome) := commit_touched traced_git traced_canonicalize enabled workdir tool_name files (w, []) in
  let commit := ["commit"; "-m"; commit_message tool_name files] in
  ∃ t, Forall (harmless workdir files) t
    ∧ ((trace = t ∧ ∀ m, outcome ≠ Auto_Committed m)
       ∨ (trace = t ++ [commit] ∧ outcome = Auto_Committed (commit_message tool_name files))
       ∨ (trace = t ++ [commit; ["reset"; "--quiet"]] ∧ outcome = Auto_Failed "git commit failed")).
Proof.
  unfold commit_touched. destruct enabled; cbn [negb]; [|by exists []; eauto].
  destruct (is_nil files); [by exists []; eauto|]. cbv zeta.
  set (probe := if fs_exists _ _ then _ else _).
  assert (∃ t0, probe.1.2 = t0 ∧ Forall (harmless workdir files) t0) as (t0 & Ht0 & Hall0).
  { eexists; split; [done|]. unfold probe. case_match; [constructor|].
    destruct (traced_git _ _ _) as [x1 r] eqn:Hg. apply traced_git_eq in Hg. cbn [fst snd]. rewrite Hg.
    apply harmless_list. set_solver. }
  destruct probe as [x0 is_repo]. cbn [fst] in Ht0. destruct x0 as [w0 t0']. cbn [snd] in Ht0. subst t0'.
  destruct is_repo; cbn [negb]; [|by exists t0; eauto].
  destruct (_ || _); [by exists t0; eauto|].
  destruct (stage_files _ _ workdir files (w0, t0)) as [[w1 tr1] stopped] eqn:Hst.
  apply (stage_files_trace _ files) in Hst as (t1 & Ht1 & Hall1 & Hno); [|done]. cbn [snd] in Ht1. subst tr1.
  assert (Forall (harmless workdir files) (t0 ++ t1)) as Hall by (by apply Forall_app).
  destruct stopped as [outcome|] eqn:Hstop.
  { exists (t0 ++ t1). split; [done|]. left. split; [done|]. intros m ->. by destruct (Hno m). }
  destruct (traced_git _ _ (w1, t0 ++ t1)) as [x2 d] eqn:Hd. apply traced_git_eq in Hd.
  destruct x2 as [w2 tr2]. cbn [snd] in Hd. subst tr2.
  set (t2 := (t0 ++ t1) ++ [["diff"; "--cached"; "--quiet"]]) in *.
  assert (Forall (harmless workdir files) t2) as Hall2.
  { apply Forall_app; split; [done|]. apply harmless_list. set_solver. }
  destruct d as [d|]; [by exists t2; eauto|].
  destruct (traced_git _ _ (w2, t2)) as [[w3 tr3] c] eqn:Hc. apply traced_git_eq in Hc. cbn [snd] in Hc. subst tr3.
  destruct c as [c|]; [exists t2; split; [done|]; by right; left|].
  destruct (traced_git workdir ["reset"; "--quiet"] _) as [[w4 tr4] r] eqn:Hr. apply traced_git_eq in Hr.
  cbn [snd] in Hr. subst tr4. exists t2. split; [done|]. right; right. by rewrite <- app_assoc.
Qed.
End trace.
