(* ===== verification/TextEdit.v ===== *)
(** * Text routines of the file tools (crates/arterm-app-core/src/tool/edit.rs, write.rs, multiedit.rs,
      apply_patch.rs)

    Counting and replacing occurrences, line numbers, the context shown around an edit, the help for a
    text that was not found, and the compact diffs.  The diff itself is the [similar] crate's: a list of
    changes is an argument.  A slice out of range is a panic, [None]. *)

From S2P Require Export CoreUtil.
From S2P Require StdPath.

(** ** Occurrences *)

(** [content.matches(p).count()] for a non-empty [p]. *)
Fixpoint count_go (p : string) (skip : nat) (s : string) : nat :=
  match s with
  | EmptyString => 0
  | String _ s' =>
      match skip with
      | S k => count_go p k s'
      | 0 => if starts_with p s then S (count_go p (String.length p - 1) s') else count_go p 0 s'
      end
  end.

(** An empty pattern matches at every character boundary. *)
Definition count_matches (p s : string) : nat := if is_empty p then S (char_count s) else count_go p 0 s.

(** [content.replace(p, to)] *)
Definition replace_matches (p to s : string) : string :=
  if is_empty p then String.concat "" (map (λ c, to +:+ c) (chars s)) +:+ to else replace p to s.

(** [content.replacen(p, to, 1)] *)
Definition replace_first (p to s : string) : string :=
  match str_find p s with
  | Some i => str_take i s +:+ to +:+ str_drop (i + String.length p) s
  | None => s
  end.

(** ** Lines *)

Definition find_line_number (content substring : string) : nat :=
  match str_find substring content with
  | Some pos => length (lines (str_take pos content)) + 1
  | None => 1
  end.

(** [lines[start..end]] *)
Definition slice {A} (l : list A) (start stop : nat) : option (list A) :=
  if (start <=? stop) && (stop <=? length l) then Some (take (stop - start) (drop start l)) else None.

(** [{:>4}] *)
Definition pad_left (width : nat) (s : string) : string :=
  String.concat "" (repeat " " (width - char_count s)) +:+ s.

Fixpoint number_lines (n : nat) (ls : list string) : list string :=
  match ls with
  | [] => []
  | line :: ls => (pad_left 4 (show_nat n) +:+ "│ " +:+ line) :: number_lines (S n) ls
  end.

(** [extract_context]; [None] is a panic of the slice. *)
Definition extract_context (content : string) (edit_start edit_end padding : nat) : option (nat * nat * string) :=
  let ls := lines content in
  let start := edit_start - (padding + 1) in
  let stop := min (edit_end + padding) (length ls) in
  let?? shown := slice ls start stop in
  Some (start + 1, stop, String.concat nl (number_lines (start + 1) shown)).

(** ** A text that is not there *)

(** [content_lines.windows(n).enumerate()], [n] not zero. *)
Fixpoint windows {A} (n : nat) (l : list A) : list (list A) :=
  match l with
  | [] => []
  | _ :: l' => if n <=? length l then take n l :: windows n l' else []
  end.

Definition same_trimmed (window old_lines : list string) : bool :=
  forallb (λ p : string * string, String.eqb (trim p.1) (trim p.2)) (zip window old_lines).

(** [try_flexible_match]: the error text; [None] is the panic of [windows(0)]. *)
Definition try_flexible_match (content old_string file_path : string) : option string :=
  let trimmed := trim old_string in
  if contains trimmed content && negb (String.eqb trimmed old_string) then
    Some ("old_string not found exactly, but found after trimming whitespace." +:+ nl
          +:+ "Try using the exact string from the file, including leading/trailing whitespace.")
  else
    let old_lines := lines old_string in
    if is_nil old_lines then None
    else match position (λ w, same_trimmed w old_lines) (windows (length old_lines) (lines content)) with
         | Some i =>
             Some ("old_string not found exactly, but found with different indentation around line "
                   +:+ show_nat (i + 1) +:+ "." +:+ nl
                   +:+ "Make sure to preserve the exact whitespace from the file.")
         | None =>
             Some ("old_string not found in " +:+ file_path +:+ "." +:+ nl
                   +:+ "Use the read tool to see the current file contents.")
         end.

(** ** Compact diffs *)

Inductive ChangeTag := Tag_Equal | Tag_Delete | Tag_Insert.

Notation Changes := (list (ChangeTag * string)).

Definition diff_line (n : nat) (sign content : string) : string := show_nat n +:+ sign +:+ " " +:+ content +:+ nl.

(** The loop of [generate_diff] in edit.rs. *)
Fixpoint edit_diff (old_line new_line : nat) (changes : Changes) : string :=
  match changes with
  | [] => ""
  | (tag, value) :: changes =>
      let content := trim value in
      match tag with
      | Tag_Equal => edit_diff (S old_line) (S new_line) changes
      | Tag_Delete =>
          (if is_empty content then "" else diff_line old_line "-" content) +:+ edit_diff (S old_line) new_line changes
      | Tag_Insert =>
          (if is_empty content then "" else diff_line new_line "+" content) +:+ edit_diff old_line (S new_line) changes
      end
  end.

Definition generate_diff (start_line : nat) (changes : Changes) : string :=
  let output := edit_diff start_line start_line changes in
  if is_empty output then "" else trim_end output.

(** The loop of [generate_diff_summary] in write.rs and multiedit.rs: at most [max_lines] lines. *)
Fixpoint summary_diff (max_lines shown old_line new_line : nat) (changes : Changes) : string :=
  match changes with
  | [] => ""
  | (Tag_Equal, _) :: changes => summary_diff max_lines shown (S old_line) (S new_line) changes
  | (Tag_Delete, value) :: changes =>
      let content := trim value in
      if is_empty content then summary_diff max_lines shown (S old_line) new_line changes
      else if max_lines <=? shown then "..." +:+ nl
      else diff_line old_line "-" content +:+ summary_diff max_lines (S shown) (S old_line) new_line changes
  | (Tag_Insert, value) :: changes =>
      let content := trim value in
      if is_empty content then summary_diff max_lines shown old_line (S new_line) changes
      else if max_lines <=? shown then "..." +:+ nl
      else diff_line new_line "+" content +:+ summary_diff max_lines (S shown) old_line (S new_line) changes
  end.

Definition write_diff_summary (changes : Changes) : string := trim_end (summary_diff 20 0 1 1 changes).
Definition multiedit_diff_summary (changes : Changes) : string := summary_diff 30 0 1 1 changes.

(** The loop of the diffs in patch.rs and apply_patch.rs, which keep indentation. *)
Fixpoint patch_diff_go (shown old_line new_line : nat) (changes : Changes) : string :=
  match changes with
  | [] => ""
  | (tag, value) :: changes =>
      if 30 <=? shown then "... (diff truncated)" +:+ nl
      else
        let content := trim_end_matches (Ascii.eqb newline) value in
        match tag with
        | Tag_Equal => patch_diff_go shown (S old_line) (S new_line) changes
        | Tag_Delete =>
            if is_empty (trim content) then patch_diff_go shown (S old_line) new_line changes
            else diff_line old_line "-" content +:+ patch_diff_go (S shown) (S old_line) new_line changes
        | Tag_Insert =>
            if is_empty (trim content) then patch_diff_go shown old_line (S new_line) changes
            else diff_line new_line "+" content +:+ patch_diff_go (S shown) old_line (S new_line) changes
        end
  end.

Definition patch_diff (start_line : nat) (changes : Changes) : string :=
  trim_end (patch_diff_go 0 start_line start_line changes).

Definition FILE_TOUCH_PREVIEW_MAX_LINES : nat := 6.
Definition FILE_TOUCH_PREVIEW_MAX_BYTES : nat := 240.

Definition build_file_touch_preview (diff : string) : option string :=
  let trimmed := trim diff in
  if is_empty trimmed then None
  else
    let ls := lines trimmed in
    let preview := String.concat nl (take FILE_TOUCH_PREVIEW_MAX_LINES ls) in
    let truncated := negb (is_nil (drop FILE_TOUCH_PREVIEW_MAX_LINES ls)) in
    let '(preview, truncated) :=
      if FILE_TOUCH_PREVIEW_MAX_BYTES <? String.length preview
      then (trim_end (truncate_str preview FILE_TOUCH_PREVIEW_MAX_BYTES), true)
      else (preview, truncated) in
    Some (if truncated then preview +:+ nl +:+ "…" else preview).

(** ** Replacing occurrences, specified *)

(** [s'] is [s] with its [n] leftmost non-overlapping occurrences of [p] replaced. *)
Inductive Replaced (p to : string) : string → string → nat → Prop :=
  | replaced_none s : (∀ a b, s ≠ a +:+ p +:+ b) → Replaced p to s s 0
  | replaced_one a b b' n :
      (∀ a' b', a +:+ p +:+ b = a' +:+ p +:+ b' → String.length a ≤ String.length a') →
      Replaced p to b b' n → Replaced p to (a +:+ p +:+ b) (a +:+ to +:+ b') (S n).

Lemma replace_go_skip p to k s : replace_go p to k s = replace_go p to 0 (str_drop k s).
Proof.
  revert k. induction s as [|c s IH]; intros [|k]; [done..|]. cbn [str_drop]. rewrite <- IH. done.
Qed.

Lemma count_go_skip p k s : count_go p k s = count_go p 0 (str_drop k s).
Proof.
  revert k. induction s as [|c s IH]; intros [|k]; [done..|]. cbn [str_drop]. rewrite <- IH. done.
Qed.

Lemma replace_go_here p to c s :
  starts_with p (String c s) = true → p ≠ "" →
  replace_go p to 0 (String c s) = to +:+ replace_go p to 0 (str_drop (String.length p) (String c s)).
Proof.
  intros Hp Hne. cbn [replace_go]. rewrite Hp, replace_go_skip. destruct p as [|d p]; [done|].
  cbn [String.length str_drop]. by rewrite Nat.sub_succ, Nat.sub_0_r.
Qed.

Lemma count_go_here p c s :
  starts_with p (String c s) = true → p ≠ "" →
  count_go p 0 (String c s) = S (count_go p 0 (str_drop (String.length p) (String c s))).
Proof.
  intros Hp Hne. cbn [count_go]. rewrite Hp, count_go_skip. destruct p as [|d p]; [done|].
  cbn [String.length str_drop]. by rewrite Nat.sub_succ, Nat.sub_0_r.
Qed.

(** Text before the first occurrence is copied. *)
Lemma replace_go_prefix p to a b :
  (∀ a' b', a +:+ b = a' +:+ p +:+ b' → String.length a ≤ String.length a') →
  replace_go p to 0 (a +:+ b) = a +:+ replace_go p to 0 b ∧ count_go p 0 (a +:+ b) = count_go p 0 b.
Proof.
  induction a as [|c a IH]; intros Hfirst; [done|]. cbn [String.append] in *.
  destruct IH as [IH1 IH2].
  { intros a' b' E. specialize (Hfirst (String c a') b'). cbn in Hfirst. apply le_S_n, Hfirst.
    by rewrite E. }
  cbn [replace_go count_go]. destruct (starts_with p (String c (a +:+ b))) eqn:Hp.
  - apply starts_with_iff in Hp as [t Ht]. specialize (Hfirst "" t Ht). cbn in Hfirst. lia.
  - rewrite IH1, IH2. done.
Qed.

Lemma replace_replaced p to s : p ≠ "" → Replaced p to s (replace p to s) (count_go p 0 s).
Proof.
  intros Hne. induction s as [s IH] using (induction_ltof1 _ String.length). unfold ltof in IH.
  destruct (str_find p s) as [i|] eqn:Hf.
  - pose proof (str_find_Some _ _ _ Hf) as (a & b & -> & Ha).
    assert (∀ a' b', a +:+ p +:+ b = a' +:+ p +:+ b' → String.length a ≤ String.length a') as Hfirst.
    { intros a' b' E. rewrite Ha. by eapply str_find_first. }
    destruct (replace_go_prefix p to a (p +:+ b) Hfirst) as [H1 H2]. unfold replace. rewrite H1, H2.
    destruct p as [|c p]; [done|].
    assert (starts_with (String c p) (String c p +:+ b) = true) as Hs by apply starts_with_app.
    change (String c p +:+ b) with (String c (p +:+ b)) in Hs |- *.
    rewrite replace_go_here, count_go_here by done.
    change (String c (p +:+ b)) with (String c p +:+ b). rewrite str_drop_app.
    apply replaced_one; [done|]. apply IH. rewrite !str_length_app. cbn. lia.
  - pose proof (str_find_None _ _ Hf) as Hno.
    destruct (replace_go_prefix p to s "") as [H1 H2].
    { intros a' b' E. rewrite str_app_nil_r in E. by destruct (Hno a' b'). }
    rewrite str_app_nil_r in H1, H2. unfold replace. rewrite H1, H2. cbn. rewrite str_app_nil_r.
    by apply replaced_none.
Qed.

Lemma replace_first_spec p to s i :
  str_find p s = Some i →
  ∃ a b, s = a +:+ p +:+ b ∧ String.length a = i ∧ replace_first p to s = a +:+ to +:+ b.
Proof.
  intros Hf. unfold replace_first. rewrite Hf. apply str_find_Some in Hf as (a & b & -> & Ha).
  exists a, b. split_and!; [done..|]. rewrite <- Ha, str_take_app.
  replace (String.length a + String.length p) with (String.length (a +:+ p)) by apply str_length_app.
  by rewrite (str_app_assoc a p b), str_drop_app.
Qed.

(** ** Slices that are in range *)

Lemma split_on_app c a b : length (split_on c a) ≤ length (split_on c (a +:+ b)).
Proof.
  induction a as [|d a IH].
  - cbn. pose proof (StdPath.split_on_ne c b). destruct (split_on c b); [done|cbn; lia].
  - change (String d a +:+ b) with (String d (a +:+ b)). cbn [split_on].
    destruct (Ascii.eqb c d); [cbn; lia|].
    pose proof (StdPath.split_on_ne c a). pose proof (StdPath.split_on_ne c (a +:+ b)).
    destruct (split_on c a), (split_on c (a +:+ b)); cbn in *; done || lia.
Qed.

Lemma lines_of_length ws : length (lines_of ws) ≤ length ws ≤ S (length (lines_of ws)).
Proof.
  induction ws as [|w [|w' ws] IH]; cbn [lines_of] in *; [cbn; lia|case_match; cbn; lia|].
  cbn [length] in *. lia.
Qed.

(** Text that is added at the end makes no fewer lines than one less. *)
Lemma lines_app_length a b : length (lines a) ≤ S (length (lines (a +:+ b))).
Proof.
  unfold lines. pose proof (split_on_app newline a b).
  pose proof (lines_of_length (split_on newline a)). pose proof (lines_of_length (split_on newline (a +:+ b))). lia.
Qed.

Lemma lines_nil s : lines s = [] → s = "".
Proof.
  destruct s as [|c s]; [done|]. unfold lines. cbn [split_on]. intros H. exfalso. revert H.
  pose proof (StdPath.split_on_ne newline s). destruct (split_on newline s) as [|w ws]; [done|].
  case_match; [done|]. by destruct ws.
Qed.

Lemma slice_ok {A} (l : list A) start stop : start ≤ stop → stop ≤ length l → is_Some (slice l start stop).
Proof.
  intros H1 H2. unfold slice. rewrite (proj2 (Nat.leb_le _ _) H1), (proj2 (Nat.leb_le _ _) H2). by eexists.
Qed.

Lemma extract_context_ok content edit_start edit_end padding :
  edit_start ≤ edit_end → edit_start ≤ length (lines content) + padding + 1 →
  is_Some (extract_context content edit_start edit_end padding).
Proof.
  intros H1 H2. unfold extract_context. cbv zeta.
  destruct (slice_ok (lines content) (edit_start - (padding + 1)) (min (edit_end + padding) (length (lines content))))
    as [l ->]; [lia..|]. by eexists.
Qed.

Lemma try_flexible_match_ok content old_string file_path :
  old_string ≠ "" → is_Some (try_flexible_match content old_string file_path).
Proof.
  intros H. unfold try_flexible_match. cbv zeta. case_match; [by eexists|].
  destruct (lines old_string) as [|l ls] eqn:E; [by apply lines_nil in E|]. cbn [is_nil]. case_match; by eexists.
Qed.

(** The line of a match that starts inside a line is counted one too high. *)
Example line_number_inside_line :
  find_line_number "let x = 1;" "1" = 2 ∧ find_line_number "let x = 1;" "let" = 1
  ∧ find_line_number ("a" +:+ nl +:+ "b = 2") "b" = 2.
Proof. by vm_compute. Qed.

Example occurrences_ex :
  count_matches "aa" "aaaa" = 2 ∧ count_matches "" "ab" = 3
  ∧ replace_matches "" "-" "ab" = "-a-b-" ∧ replace_first "a" "x" "banana" = "bxnana".
Proof. by vm_compute. Qed.
