(* ===== verification/FileTools.v ===== *)
(** * The tools [edit], [write] and [multiedit] (crates/arterm-app-core/src/tool)

    Each tool checks its input, takes a checkpoint, writes, and reports.  The inputs are the
    deserialized parameters.  The line diff ([similar]), git, canonical paths, whether auto-commit is
    on, and the report about the configuration file are parameters.  [None] is a panic. *)


From S2P Require Export TextEdit AutoCommit.

Record EditInput := MkEditInput {
  ei_intent : option string;
  ei_file_path : string;
  ei_old_string : string;
  ei_new_string : string;
  ei_replace_all : bool;
}.

Record WriteInput := MkWriteInput {
  wi_intent : option string;
  wi_file_path : string;
  wi_content : string;
}.

Record EditOperation := MkEditOperation {
  eo_old_string : string;
  eo_new_string : string;
  eo_replace_all : bool;
}.

Record MultiEditInput := MkMultiEditInput {
  mi_file_path : string;
  mi_edits : list EditOperation;
}.

(** [intent.filter(|value| !value.trim().is_empty())] *)
Definition some_intent (intent : option string) : option string :=
  match intent with Some i => if is_empty (trim i) then None else Some i | None => None end.

(** ** One edit of a text *)

Definition replace_text (content old_string new_string : string) (all : bool) : string :=
  if all then replace_matches old_string new_string content else replace_first old_string new_string content.

(** The tests of [EditTool::execute] on the content: the new content and the number of occurrences, or
    the error; [None] is a panic. *)
Definition edit_content (p : EditInput) (content : string) : option (result (string * nat) string) :=
  let occurrences := count_matches (ei_old_string p) content in
  if occurrences =? 0 then
    let?? e := try_flexible_match content (ei_old_string p) (ei_file_path p) in Some (Err e)
  else if (1 <? occurrences) && negb (ei_replace_all p) then
    Some (Err ("old_string found " +:+ show_nat occurrences +:+ " times in the file. Either:" +:+ nl
               +:+ "1. Provide more context to make it unique, or" +:+ nl
               +:+ "2. Set replace_all: true to replace all occurrences"))
  else Some (Ok (replace_text content (ei_old_string p) (ei_new_string p) (ei_replace_all p), occurrences)).

(** One turn of the loop of [MultiEditTool::execute]: the text, what was applied and what failed. *)
Definition multi_step (i : nat) (e : EditOperation) (acc : string * list string * list string)
    : string * list string * list string :=
  let '(content, applied, failed) := acc in
  let label := "Edit " +:+ show_nat (i + 1) +:+ ": " in
  if String.eqb (eo_old_string e) (eo_new_string e)
  then (content, applied, failed ++ [label +:+ "old_string equals new_string"])
  else
    let occurrences := count_matches (eo_old_string e) content in
    if occurrences =? 0 then (content, applied, failed ++ [label +:+ "old_string not found"])
    else if (1 <? occurrences) && negb (eo_replace_all e)
    then (content, applied,
          failed ++ [label +:+ "found " +:+ show_nat occurrences +:+ " occurrences, use replace_all or be more specific"])
    else
      (replace_text content (eo_old_string e) (eo_new_string e) (eo_replace_all e),
       applied ++ [if eo_replace_all e then label +:+ "replaced " +:+ show_nat occurrences +:+ " occurrences"
                   else label +:+ "replaced 1 occurrence"],
       failed).

Fixpoint multi_edits (i : nat) (edits : list EditOperation) (acc : string * list string * list string)
    : string * list string * list string :=
  match edits with
  | [] => acc
  | e :: edits => multi_edits (S i) edits (multi_step i e acc)
  end.

Section tools.
Context {W : Type} `{!FileSystem W}.
Context (text_diff : string → string → Changes).
Context (git : string → list string → W → W * option string) (canonicalize : string → W → option string).
Context (auto_commit : W → bool).
(** [config_edit_notice(path, before, after)], which drops the cached configuration. *)
Context (config_edit_notice : string → string → string → W → W * option string).
Implicit Types (s : FileState W).

Definition run_auto_commit (tool_name : string) (ctx : ToolContext) (files : list string) s : FileState W * AutoCommitOutcome :=
  let '(w, o) := commit_touched git canonicalize (auto_commit (fst_world s)) (default "." (tc_working_dir ctx))
                   tool_name files (fst_world s) in
  (with_world w s, o).

(** The two notices at the end of a result. *)
Definition finish_body (body : string) (outcome : AutoCommitOutcome) (path before after : string) s : FileState W * string :=
  let body := append_notice body outcome in
  let '(w, notice) := config_edit_notice path before after (fst_world s) in
  (with_world w s, body +:+ default "" notice).

Definition edit_execute (p : EditInput) (ctx : ToolContext) s : option (FileState W * result ToolOutput string) :=
  if String.eqb (ei_old_string p) (ei_new_string p)
  then Some (s, Err "old_string and new_string must be different")
  else
    let path := resolve_path ctx (ei_file_path p) in
    if negb (fs_exists path (fst_world s)) then Some (s, Err ("File not found: " +:+ ei_file_path p))
    else match read_to_string path (fst_world s) with
    | Err e => Some (s, Err (io_text e))
    | Ok content =>
        let?? edited := edit_content p content in
        match edited with
        | Err e => Some (s, Err e)
        | Ok (new_content, occurrences) =>
            let start_line := find_line_number content (ei_old_string p) in
            let s := snapshot_and_record (tc_session_id ctx) path s in
            let '(w, written) := fs_write path new_content (fst_world s) in
            let s := with_world w s in
            match written with
            | Err e => Some (s, Err (io_text e))
            | Ok _ =>
                let diff := generate_diff start_line (text_diff (ei_old_string p) (ei_new_string p)) in
                let end_line := start_line + (length (lines (ei_new_string p)) - 1) in
                let s := publish (MkFileTouch (tc_session_id ctx) path Op_Edit (some_intent (ei_intent p))
                           (Some ("edited lines " +:+ show_nat start_line +:+ "-" +:+ show_nat end_line +:+ " ("
                                  +:+ show_nat occurrences +:+ " occurrence" +:+ (if occurrences =? 1 then "" else "s") +:+ ")"))
                           (build_file_touch_preview diff)) s in
                let '(s, outcome) := run_auto_commit "edit" ctx [path] s in
                let?? (from, to, shown) := extract_context new_content start_line end_line 3 in
                let body := "Edited " +:+ ei_file_path p +:+ ": replaced " +:+ show_nat occurrences +:+ " occurrence(s)"
                            +:+ nl +:+ diff +:+ nl +:+ nl +:+ "Context after edit (lines " +:+ show_nat from +:+ "-"
                            +:+ show_nat to +:+ "):" +:+ nl +:+ shown in
                let '(s, body) := finish_body body outcome path content new_content s in
                Some (s, Ok (with_title (ei_file_path p) (tool_output body)))
            end
        end
    end.

Definition write_execute (p : WriteInput) (ctx : ToolContext) s : FileState W * result ToolOutput string :=
  let path := resolve_path ctx (wi_file_path p) in
  let '(w, made) := match parent path with
                    | Some dir => if fs_exists dir (fst_world s) then (fst_world s, Ok tt) else fs_create_dir_all dir (fst_world s)
                    | None => (fst_world s, Ok tt)
                    end in
  let s := with_world w s in
  match made with
  | Err e => (s, Err (io_text e))
  | Ok _ =>
      let existed := fs_exists path (fst_world s) in
      let old_content := if existed then match read_to_string path (fst_world s) with Ok c => Some c | Err _ => None end else None in
      let s := snapshot_and_record (tc_session_id ctx) path s in
      let '(w, written) := fs_write path (wi_content p) (fst_world s) in
      let s := with_world w s in
      match written with
      | Err e => (s, Err (io_text e))
      | Ok _ =>
          let line_count := show_nat (length (lines (wi_content p))) in
          let diff := write_diff_summary (text_diff (default "" old_content) (wi_content p)) in
          let s := publish (MkFileTouch (tc_session_id ctx) path Op_Write (some_intent (wi_intent p))
                     (Some ((if existed then "overwrote file (" else "created new file (") +:+ line_count +:+ " lines)"))
                     (build_file_touch_preview diff)) s in
          let '(s, outcome) := run_auto_commit "write" ctx [path] s in
          let body :=
            if existed then "Updated " +:+ wi_file_path p +:+ " (" +:+ line_count +:+ " lines)"
                            +:+ (if is_empty diff then "" else ":") +:+ nl +:+ diff
            else "Created " +:+ wi_file_path p +:+ " (" +:+ line_count +:+ " lines):" +:+ nl
                 +:+ write_diff_summary (text_diff "" (wi_content p)) in
          let '(s, body) := finish_body body outcome path (default "" old_content) (wi_content p) s in
          (s, Ok (with_title (wi_file_path p) (tool_output body)))
      end
  end.

Definition report_list (title mark : string) (msgs : list string) : string :=
  if is_nil msgs then "" else title +:+ nl +:+ String.concat "" (map (λ m, "  " +:+ mark +:+ " " +:+ m +:+ nl) msgs).

Definition multiedit_execute (p : MultiEditInput) (ctx : ToolContext) s : FileState W * result ToolOutput string :=
  let path := resolve_path ctx (mi_file_path p) in
  if negb (fs_exists path (fst_world s)) then (s, Err ("File not found: " +:+ mi_file_path p))
  else match read_to_string path (fst_world s) with
  | Err e => (s, Err (io_text e))
  | Ok original =>
      let '(content, applied, failed) := multi_edits 0 (mi_edits p) (original, [], []) in
      let s := snapshot_and_record (tc_session_id ctx) path s in
      let '(w, written) := fs_write path content (fst_world s) in
      let s := with_world w s in
      match written with
      | Err e => (s, Err (io_text e))
      | Ok _ =>
          let '(s, outcome) := run_auto_commit "multiedit" ctx [path] s in
          let output := "Edited " +:+ mi_file_path p +:+ nl +:+ nl
                        +:+ report_list "Applied:" "✓" applied
                        +:+ (if is_nil failed then "" else nl +:+ report_list "Failed:" "✗" failed)
                        +:+ nl +:+ "Total: " +:+ show_nat (length applied) +:+ " applied, " +:+ show_nat (length failed)
                        +:+ " failed" +:+ nl
                        +:+ (if is_nil applied then ""
                             else nl +:+ "Diff:" +:+ nl +:+ multiedit_diff_summary (text_diff original content)) in
          let '(s, output) := finish_body output outcome path original content s in
          (s, Ok (with_title (mi_file_path p) (tool_output output)))
      end
  end.
End tools.

(** * The file tools do what they say

    Theorems about [FileTools]: an edit replaces exactly the occurrences it reports, the edit tool never
    panics, and what [edit], [write] or [multiedit] did to a file can be undone. *)

(** ** What an edit does to the text *)

Lemma count_go_pos p s : count_go p 0 s ≠ 0 → p ≠ "" → ∃ i, str_find p s = Some i.
Proof.
  intros Hc Hne. destruct (str_find p s) as [i|] eqn:Hf; [by exists i|]. destruct Hc.
  pose proof (str_find_None _ _ Hf) as Hno.
  destruct (replace_go_prefix p "" s "") as [_ H].
  { intros a' b' E. rewrite str_app_nil_r in E. by destruct (Hno a' b'). }
  rewrite str_app_nil_r in H. by rewrite H.
Qed.

Lemma replaced_unique_zero p to s s' : Replaced p to s s' 0 → s' = s.
Proof. by inversion 1. Qed.

(** With one occurrence, replacing the first is replacing all. *)
Lemma replace_first_one p to s : p ≠ "" → count_go p 0 s = 1 → replace_first p to s = replace p to s.
Proof.
  intros Hne Hc. destruct (count_go_pos p s) as [i Hf]; [lia|done|].
  destruct (replace_first_spec p to s i Hf) as (a & b & Hs & Ha & ->).
  assert (∀ a' b', a +:+ p +:+ b = a' +:+ p +:+ b' → String.length a ≤ String.length a') as Hfirst.
  { intros a' b' E. rewrite Ha. eapply str_find_first; [exact Hf|]. by rewrite Hs. }
  destruct (replace_go_prefix p to a (p +:+ b) Hfirst) as [H1 H2]. rewrite Hs in *. unfold replace. rewrite H1.
  rewrite H2 in Hc. destruct p as [|c p]; [done|].
  assert (starts_with (String c p) (String c (p +:+ b)) = true) as Hst by apply (starts_with_app (String c p)).
  change (String c p +:+ b) with (String c (p +:+ b)) in Hc |- *.
  rewrite count_go_here in Hc by done. rewrite replace_go_here by done.
  change (String c (p +:+ b)) with (String c p +:+ b) in Hc |- *. rewrite str_drop_app in Hc |- *.
  pose proof (replace_replaced (String c p) to b ltac:(done)) as Hb. injection Hc as Hc. rewrite Hc in Hb.
  apply replaced_unique_zero in Hb. unfold replace in Hb. by rewrite Hb.
Qed.



(** Every edit of a [multiedit] is accounted for. *)
Lemma multi_edits_account edits i content applied failed :
  let '(_, applied', failed') := multi_edits i edits (content, applied, failed) in
  length applied' + length failed' = length applied + length failed + length edits.
Proof.
  revert i content applied failed. induction edits as [|e edits IH]; intros i content applied failed; cbn [multi_edits].
  { cbn. lia. }
  destruct (multi_step i e (content, applied, failed)) as [[c a] f] eqn:Hstep.
  specialize (IH (S i) c a f). destruct (multi_edits _ _ _) as [[c' a'] f'].
  assert (length a + length f = length applied + length failed + 1); [|cbn; lia].
  unfold multi_step in Hstep. repeat case_match; simplify_eq; rewrite ?length_app; cbn; lia.
Qed.

Section tools.
Context {W : Type} `{!FileSystem W}.
Context (text_diff : string → string → Changes).
Context (git : string → list string → W → W * option string) (canonicalize : string → W → option string).
Context (auto_commit : W → bool) (config_edit_notice : string → string → string → W → W * option string).
Implicit Types (s : FileState W).

Notation edit := (edit_execute text_diff git canonicalize auto_commit config_edit_notice).
Notation write := (write_execute text_diff git canonicalize auto_commit config_edit_notice).
Notation multiedit := (multiedit_execute text_diff git canonicalize auto_commit config_edit_notice).

Lemma run_auto_commit_frame tool_name ctx files s :
  fst_checkpoints (run_auto_commit git canonicalize auto_commit tool_name ctx files s).1 = fst_checkpoints s.
Proof. unfold run_auto_commit. by destruct (commit_touched _ _ _ _ _ _ _). Qed.

Lemma finish_body_frame body o path before after s :
  fst_checkpoints (finish_body config_edit_notice body o path before after s).1 = fst_checkpoints s.
Proof. unfold finish_body. by destruct (config_edit_notice _ _ _ _). Qed.

(** The prefix before the edit is in both texts, so the context around the edit is in range. *)
Lemma edit_context_ok p content new_content n :
  edit_content p content = Some (Ok (new_content, n)) →
  let start := find_line_number content (ei_old_string p) in
  is_Some (extract_context new_content start (start + (length (lines (ei_new_string p)) - 1)) 3).
Proof.
  intros H start. apply extract_context_ok; [lia|].
  assert (∃ a x y, content = a +:+ x ∧ new_content = a +:+ y ∧ start ≤ S (length (lines a))) as (a & x & y & _ & -> & Hs).
  { unfold edit_content in H. cbv zeta in H. destruct (_ =? 0) eqn:Hz; [by destruct (try_flexible_match _ _ _)|].
    destruct (_ && _); [done|]. injection H as <- _. unfold start, find_line_number, replace_text.
    destruct (str_find (ei_old_string p) content) as [i|] eqn:Hf.
    2: { eexists "", content, _. split; [done|]. split; [done|]. cbn. lia. }
    destruct (replace_first_spec (ei_old_string p) (ei_new_string p) content i Hf) as (a & b & Hc & Ha & Hr).
    assert (length (lines (str_take i content)) + 1 ≤ S (length (lines a))) as Hl by (rewrite Hc, <- Ha, str_take_app; lia).
    destruct (ei_replace_all p); [|by exists a; eexists _, _; rewrite Hr].
    unfold replace_matches. destruct (is_empty (ei_old_string p)) eqn:He.
    - apply is_empty_true in He. exists "". eexists content, _. split; [done|]. split; [done|].
      assert (i = 0) as ->; [|cbn; lia]. rewrite He in Hf. destruct content; cbn in Hf; congruence.
    - apply is_empty_false in He.
      assert (∀ a' b', a +:+ ei_old_string p +:+ b = a' +:+ ei_old_string p +:+ b' → String.length a ≤ String.length a') as Hfirst.
      { intros a' b' E. rewrite Ha. eapply str_find_first; [exact Hf|]. by rewrite Hc. }
      destruct (replace_go_prefix _ (ei_new_string p) a _ Hfirst) as [H1 _]. exists a. eexists _, _. split; [exact Hc|].
      split; [unfold replace; by rewrite Hc, H1|done]. }
  pose proof (lines_app_length a y). lia.
Qed.

(** The edit tool never panics: whatever file, strings and world it is given, it returns a result. *)
Theorem edit_never_panics p ctx s :
  is_Some (edit_execute text_diff git canonicalize auto_commit config_edit_notice p ctx s).
Proof.
  unfold edit_execute. cbv zeta. destruct (String.eqb_spec (ei_old_string p) (ei_new_string p)) as [|Hne]; [by eexists|].
  case_match; [by eexists|]. destruct (read_to_string _ _) as [content|e]; [|by eexists].
  destruct (edit_content p content) as [[[new n]|e]|] eqn:Hed; [| |].
  - destruct (fs_write _ _ _) as [w [u|e]]; [|by eexists].
    destruct (run_auto_commit _ _ _ _ _ _ _) as [s1 o].
    destruct (edit_context_ok p content new n Hed) as [[[from to] shown] ->].
    destruct (finish_body _ _ _ _ _ _ _) as [s2 body]. by eexists.
  - by eexists.
  - exfalso. unfold edit_content in Hed. cbv zeta in Hed. destruct (_ =? 0) eqn:Hz; [|by repeat case_match].
    destruct (try_flexible_match_ok content (ei_old_string p) (ei_file_path p)) as [e E]; [|by rewrite E in Hed].
    intros E. apply Nat.eqb_eq in Hz. by rewrite E in Hz.
Qed.

(** A tool that ran to its end on a path, from one state to another. *)
Inductive file_tool_ran (ctx : ToolContext) s : string → FileState W → Prop :=
  | ran_edit p s' out : edit p ctx s = Some (s', Ok out) → file_tool_ran ctx s (ei_file_path p) s'
  | ran_write p s' out : write p ctx s = (s', Ok out) → file_tool_ran ctx s (wi_file_path p) s'
  | ran_multiedit p s' out : multiedit p ctx s = (s', Ok out) → file_tool_ran ctx s (mi_file_path p) s'.

Lemma with_world_id s : with_world (fst_world s) s = s.
Proof. by destruct s. Qed.

(** Each tool takes one checkpoint, of the file as it was. *)
Lemma tool_takes_checkpoint `{!FileSystemLaws W} ctx s rel s' :
  file_tool_ran ctx s rel s' →
  let path := resolve_path ctx rel in
  ∃ w0, fs_read path w0 = fs_read path (fst_world s)
    ∧ fst_checkpoints s' = fst_checkpoints (snapshot_and_record (tc_session_id ctx) path (with_world w0 s)).
Proof.
  intros [p s1 out H|p s1 out H|p s1 out H] path.
  - exists (fst_world s). rewrite with_world_id. split; [done|]. unfold edit_execute in H. cbv zeta in H. fold path in H.
    destruct (String.eqb _ _); [done|]. destruct (negb _); [done|].
    destruct (read_to_string path _) as [content|e]; [|done].
    destruct (edit_content p content) as [[[new n]|e]|]; [|done..].
    destruct (fs_write _ _ _) as [w [u|e]]; [|done].
    match type of H with context [run_auto_commit _ _ _ _ _ _ ?x] => pose proof (run_auto_commit_frame "edit" ctx [path] x) as F1 end.
    destruct (run_auto_commit _ _ _ _ _ _ _) as [s2 o].
    destruct (extract_context _ _ _ _) as [[[from to] shown]|]; [|done].
    match type of H with context [finish_body ?a ?b ?c ?d ?e ?f ?g] => pose proof (finish_body_frame b c d e f g) as F2 end.
    destruct (finish_body _ _ _ _ _ _ _) as [s3 body]. injection H as <- _. cbn in F1, F2. rewrite F2, F1. done.
  - unfold write_execute in H. cbv zeta in H. fold path in H.
    destruct (match parent path with Some dir => _ | None => _ end) as [w0 [[]|e]] eqn:Hmk; [|done].
    exists w0. split.
    { destruct (parent path) as [d|] eqn:Hd; [|by simplify_eq]. destruct (fs_exists d _); [by simplify_eq|].
      by apply (fs_mkdir_read path d). }
    destruct (fs_write _ _ _) as [w [u|e]]; [|done].
    match type of H with context [run_auto_commit _ _ _ _ _ _ ?x] => pose proof (run_auto_commit_frame "write" ctx [path] x) as F1 end.
    destruct (run_auto_commit _ _ _ _ _ _ _) as [s2 o].
    match type of H with context [finish_body ?a ?b ?c ?d ?e ?f ?g] => pose proof (finish_body_frame b c d e f g) as F2 end.
    destruct (finish_body _ _ _ _ _ _ _) as [s3 body]. injection H as <- _. cbn in F1, F2. rewrite F2, F1. done.
  - exists (fst_world s). rewrite with_world_id. split; [done|]. unfold multiedit_execute in H. cbv zeta in H. fold path in H.
    destruct (negb _); [done|]. destruct (read_to_string path _) as [content|e]; [|done].
    destruct (multi_edits _ _ _) as [[new applied] failed].
    destruct (fs_write _ _ _) as [w [u|e]]; [|done].
    match type of H with context [run_auto_commit _ _ _ _ _ _ ?x] => pose proof (run_auto_commit_frame "multiedit" ctx [path] x) as F1 end.
    destruct (run_auto_commit _ _ _ _ _ _ _) as [s2 o].
    match type of H with context [finish_body ?a ?b ?c ?d ?e ?f ?g] => pose proof (finish_body_frame b c d e f g) as F2 end.
    destruct (finish_body _ _ _ _ _ _ _) as [s3 body]. injection H as <- _. cbn in F1, F2. rewrite F2, F1. done.
Qed.

(** C6. What a file tool did can be undone: after [edit], [write] or [multiedit] has run on a path, an undo
    of that path, or an undo that names no path, finds the tool's own checkpoint, and if it succeeds the
    file has exactly the content it had before the tool ran, or is gone if the tool created it; the
    checkpoint is used up, and the store holds at most five checkpoints of a file throughout. *)
Theorem tools_can_be_undone `{!FileSystemLaws W} ctx s rel s' :
  file_tool_ran ctx s rel s' →
  (∀ t, fs_read (resolve_path ctx rel) (fst_world s) ≠ Err (IoOther t)) → history_ok (fst_checkpoints s) →
  history_ok (fst_checkpoints s')
  ∧ undo_execute None ctx s' = undo_execute (Some rel) ctx s'
  ∧ match undo_execute (Some rel) ctx s' with
    | (s3, res) =>
        fst_checkpoints s3 = trim_history (count_of (resolve_path ctx rel) (fst_checkpoints s)) (resolve_path ctx rel) (fst_checkpoints s)
        ∧ match res with
          | Ok _ => fs_read (resolve_path ctx rel) (fst_world s3) = fs_read (resolve_path ctx rel) (fst_world s)
          | Err _ => True
          end
    end.
Proof.
  intros Hran Hread Hok. destruct (tool_takes_checkpoint ctx s rel s' Hran) as (w0 & Hw0 & Hcp).
  rewrite <- Hw0 in Hread. destruct (undo_after_snapshot ctx rel (with_world w0 s) (fst_world s') Hread Hok) as [H1 H2].
  cbn [fst_checkpoints with_world] in H1, H2. rewrite <- Hw0, Hcp. split; [done|].
  destruct (snapshot_is_Some (tc_session_id ctx) _ _ Hread) as [cp Hsnap].
  assert (fst_checkpoints s' = record cp (fst_checkpoints s)) as Hrec.
  { rewrite Hcp. unfold snapshot_and_record. cbn [fst_world with_world]. by rewrite Hsnap. }
  destruct (snapshot_reads _ _ _ _ Hsnap) as (Hp & Hs & _). split.
  - unfold undo_execute. rewrite Hrec. unfold record, latest. rewrite last_snoc, Hs, String.eqb_refl, Hp. done.
  - unfold undo_execute in *. cbv zeta in *. cbn [fst_checkpoints fst_world with_world with_checkpoints] in *.
    rewrite Hcp. destruct (pop_for_session _ _ _) as [[cp' rest]|]; [|by rewrite Hcp].
    cbn [fst_checkpoints fst_world with_world with_checkpoints] in *.
    destruct (restore cp' (fst_world s')) as [w3 [u|e]]; done.
Qed.
End tools.

Lemma tools_can_be_undone_witness :
  let s := MkFileState {[ "/work/a.txt" := "one two" ]} [] [] in
  let none := λ (_ : string) (_ : list string) (w : gmap string string), (w, None) in
  let run := write_execute (λ _ _, []) none (λ _ _, None) (λ _, false) (λ _ _ _ w, (w, None))
               (MkWriteInput None "a.txt" "three") (in_session "s") s in
  fs_read "/work/a.txt" (fst_world run.1) = Ok "three"
  ∧ fs_read "/work/a.txt" (fst_world (undo_execute None (in_session "s") run.1).1) = Ok "one two".
Proof.
  intros s none run. split; [vm_compute; reflexivity|].
  assert (∃ out, run = (run.1, Ok out)) as [out Hout] by (eexists; vm_compute; reflexivity).
  destruct (tools_can_be_undone (λ _ _, []) none (λ _ _, None) (λ _, false) (λ _ _ _ w, (w, None))
              (in_session "s") s "a.txt" run.1) as (_ & Hnone & H).
  - exact (ran_write _ _ _ _ _ (in_session "s") s (MkWriteInput None "a.txt" "three") run.1 out Hout).
  - intros t. vm_compute. discriminate.
  - intros q. vm_compute. lia.
  - rewrite Hnone. vm_compute. reflexivity.
Defined.
