(* ===== verification/ApplyPatch.v ===== *)
(** * The tool [apply_patch] (crates/arterm-app-core/src/tool/apply_patch.rs)

    A patch in the begin/end format is parsed into hunks; an update hunk finds the lines of its chunks in
    the file, collects replacements, and splices them from the last to the first.  The index into the
    lines of the patch is the list of lines that are left.  [None] of an operation on lines is a panic. *)

From S2P Require Export FileTools RiskPaths.

Record UpdateFileChunk := MkChunk {
  change_context : option string;
  old_lines : list string;
  new_lines : list string;
  is_end_of_file : bool;
}.

Inductive PatchHunk :=
  | AddFile (path contents : string)
  | DeleteFile (path : string)
  | UpdateFile (path : string) (move_to : option string) (chunks : list UpdateFileChunk).

(** ** Parsing *)

(** The lines of an added file, and the lines after it. *)
Fixpoint parse_added (ls : list string) : string * list string :=
  match ls with
  | [] => ("", [])
  | current :: rest =>
      if starts_with "*** " current then ("", ls)
      else
        let '(contents, after) := parse_added rest in
        match strip_prefix "+" current with
        | Some added => (added +:+ nl +:+ contents, after)
        | None => (contents, after)
        end
  end.

(** The inner loop over the diff lines of a chunk. *)
Record ChunkLines := MkChunkLines {
  cl_old : list string;
  cl_new : list string;
  cl_eof : bool;
  cl_had : bool;
  cl_rest : list string;
}.

Fixpoint chunk_lines (ls old new : list string) (had : bool) : ChunkLines :=
  match ls with
  | [] => MkChunkLines old new false had []
  | cl :: rest =>
      if String.eqb cl "*** End of File" then MkChunkLines old new true had rest
      else if starts_with "*** " cl || starts_with "@@" cl then MkChunkLines old new false had ls
      else match strip_prefix " " cl with
           | Some content => chunk_lines rest (old ++ [content]) (new ++ [content]) true
           | None =>
           match strip_prefix "+" cl with
           | Some content => chunk_lines rest old (new ++ [content]) true
           | None =>
           match strip_prefix "-" cl with
           | Some content => chunk_lines rest (old ++ [content]) new true
           | None =>
               if is_empty cl then chunk_lines rest (old ++ [""]) (new ++ [""]) true
               else if had then MkChunkLines old new false had ls
               else chunk_lines rest old new had
           end end end
  end.

(** The loop over the chunks of an update; [None] when the fuel is spent. *)
Fixpoint parse_chunks (fuel : nat) (ls : list string) (is_first_chunk : bool)
    : option (list UpdateFileChunk * list string) :=
  match fuel with
  | 0 => None
  | S fuel =>
      match ls with
      | [] => Some ([], [])
      | line :: rest =>
          let current := trim_end line in
          if starts_with "*** " current && negb (String.eqb current "*** End of File") then Some ([], ls)
          else if is_empty (trim current) && negb (starts_with " " current) && negb (starts_with "+" current)
                  && negb (starts_with "-" current)
          then parse_chunks fuel rest is_first_chunk
          else
            let head :=
              if String.eqb current "@@" then Some (None, rest)
              else match strip_prefix "@@ " current with
                   | Some ctx => Some (Some ctx, rest)
                   | None => if is_first_chunk then Some (None, ls) else None
                   end in
            match head with
            | None => Some ([], ls)
            | Some (change_context, body) =>
                let c := chunk_lines body [] [] false in
                let?? (chunks, after) := parse_chunks fuel (cl_rest c) false in
                Some ((if cl_had c || bool_decide (is_Some change_context)
                       then [MkChunk change_context (cl_old c) (cl_new c) (cl_eof c)] else []) ++ chunks, after)
            end
      end
  end.

Definition chunk_fuel (ls : list string) : nat := 2 * length ls + 2.

(** The main loop; the [None] of the fuel, then the result. *)
Fixpoint parse_hunks (fuel : nat) (ls : list string) : option (result (list PatchHunk) string) :=
  match fuel with
  | 0 => None
  | S fuel =>
      match ls with
      | [] => Some (Ok [])
      | line0 :: rest =>
          let line := trim_end line0 in
          if String.eqb (trim line) "*** End Patch" then Some (Ok [])
          else match strip_prefix "*** Add File: " line with
          | Some path =>
              let '(contents, after) := parse_added rest in
              let?? r := parse_hunks fuel after in
              Some (let? hunks := r in Ok (AddFile (trim path) contents :: hunks))
          | None =>
          match strip_prefix "*** Delete File: " line with
          | Some path =>
              let?? r := parse_hunks fuel rest in
              Some (let? hunks := r in Ok (DeleteFile (trim path) :: hunks))
          | None =>
          match strip_prefix "*** Update File: " line with
          | Some path =>
              let '(move_to, body) :=
                match rest with
                | target :: rest' =>
                    match strip_prefix "*** Move to: " (trim_end target) with
                    | Some t => (Some (trim t), rest')
                    | None => (None, rest)
                    end
                | [] => (None, rest)
                end in
              let?? (chunks, after) := parse_chunks (chunk_fuel body) body true in
              if is_nil chunks then Some (Err ("Update file hunk for '" +:+ trim path +:+ "' has no changes"))
              else
                let?? r := parse_hunks fuel after in
                Some (let? hunks := r in Ok (UpdateFile (trim path) move_to chunks :: hunks))
          | None => parse_hunks fuel rest
          end end end
      end
  end.

Definition parse_apply_patch (input : string) : option (result (list PatchHunk) string) :=
  let ls := lines input in
  match position (λ l, String.eqb (trim l) "*** Begin Patch") ls with
  | None => Some (Err "Patch must contain *** Begin Patch")
  | Some start =>
      let body := drop (S start) ls in
      let?? r := parse_hunks (S (length body)) body in
      Some (let? hunks := r in
            if is_nil hunks then Err "No valid patch directives found" else Ok hunks)
  end.

(** ** Finding the lines of a chunk *)

(** The first position from [from] on where the window equals the pattern, line by line under [f]. *)
Definition seek_with (f : string → string) (ls pattern : list string) (from : nat) : option nat :=
  find (λ i, bool_decide (map f (take (length pattern) (drop i ls)) = map f pattern))
       (seq from (S (length ls - length pattern) - from)).

Definition seek_sequence (ls pattern : list string) (start : nat) (eof : bool) : option nat :=
  if is_nil pattern then Some start
  else if length ls <? length pattern then None
  else
    let search_start := if eof && (length pattern <=? length ls) then length ls - length pattern else start in
    match seek_with id ls pattern search_start with
    | Some i => Some i
    | None =>
        match seek_with trim_end ls pattern search_start with
        | Some i => Some i
        | None => seek_with trim ls pattern search_start
        end
    end.

Notation Replacement := (nat * nat * list string)%type.

Definition ends_empty (l : list string) : bool := match last l with Some s => is_empty s | None => false end.

(** [l[..l.len() - 1]] *)
Definition but_last (l : list string) : list string := take (length l - 1) l.

(** The pattern of a chunk, the new lines, and where they were found. *)
Definition locate_chunk (ls : list string) (chunk : UpdateFileChunk) (line_index : nat)
    : list string * list string * option nat :=
  let pattern := old_lines chunk in
  let new_slice := new_lines chunk in
  match seek_sequence ls pattern line_index (is_end_of_file chunk) with
  | Some i => (pattern, new_slice, Some i)
  | None =>
      if ends_empty pattern then
        let pattern := but_last pattern in
        let new_slice := if ends_empty new_slice then but_last new_slice else new_slice in
        (pattern, new_slice, seek_sequence ls pattern line_index (is_end_of_file chunk))
      else (pattern, new_slice, None)
  end.

Definition insertion_index (ls : list string) : nat := if ends_empty ls then length ls - 1 else length ls.

(** The loop of [compute_replacements]. *)
Fixpoint compute_go (ls : list string) (path : string) (chunks : list UpdateFileChunk) (line_index : nat)
    : result (list Replacement) string :=
  match chunks with
  | [] => Ok []
  | chunk :: chunks =>
      let? line_index :=
        match change_context chunk with
        | Some ctx_line =>
            match seek_sequence ls [ctx_line] line_index false with
            | Some idx => Ok (idx + 1)
            | None => Err ("Failed to find context '" +:+ ctx_line +:+ "' in " +:+ path)
            end
        | None => Ok line_index
        end in
      if is_nil (old_lines chunk) then
        let? rs := compute_go ls path chunks line_index in
        Ok ((insertion_index ls, 0, new_lines chunk) :: rs)
      else
        match locate_chunk ls chunk line_index with
        | (pattern, new_slice, Some start_idx) =>
            let? rs := compute_go ls path chunks (start_idx + length pattern) in
            Ok ((start_idx, length pattern, new_slice) :: rs)
        | (_, _, None) =>
            Err ("Failed to find expected lines in " +:+ path +:+ ":" +:+ nl +:+ String.concat nl (old_lines chunk))
        end
  end.

Definition replacement_leb (a b : Replacement) : bool := a.1.1 <=? b.1.1.

Definition compute_replacements (ls : list string) (path : string) (chunks : list UpdateFileChunk)
    : result (list Replacement) string :=
  let? rs := compute_go ls path chunks 0 in Ok (sort_by replacement_leb rs).

(** ** Splicing *)

Fixpoint remove_loop (n start : nat) (ls : list string) : list string :=
  match n with
  | 0 => ls
  | S n => remove_loop n start (if start <? length ls then delete start ls else ls)
  end.

(** [lines.insert(pos, x)] panics past the end. *)
Definition insert_line (pos : nat) (x : string) (ls : list string) : option (list string) :=
  if pos <=? length ls then Some (take pos ls ++ x :: drop pos ls) else None.

Fixpoint insert_loop (pos : nat) (new ls : list string) : option (list string) :=
  match new with
  | [] => Some ls
  | x :: new => let?? ls := insert_line pos x ls in insert_loop (S pos) new ls
  end.

(** The loop over the replacements, last first. *)
Fixpoint apply_replacements (ls : list string) (rs : list Replacement) : option (list string) :=
  match rs with
  | [] => Some ls
  | (start, old_len, new) :: rs =>
      let?? ls := apply_replacements ls rs in
      insert_loop start new (remove_loop old_len start ls)
  end.

(** The pure part of [apply_update_chunks]: the new contents for the old ones. *)
Definition update_contents (original path : string) (chunks : list UpdateFileChunk) : option (result string string) :=
  let ls := split_on newline original in
  let ls := if ends_empty ls then but_last ls else ls in
  match compute_replacements ls path chunks with
  | Err e => Some (Err e)
  | Ok rs =>
      let?? new := apply_replacements ls rs in
      let new := if ends_empty new then new else new ++ [""] in
      Some (Ok (String.concat nl new))
  end.

(** ** Running a patch *)

Record ApplyPatchInput := MkApplyPatchInput { ai_intent : option string; ai_patch_text : string }.

Section run.
Context {W : Type} `{!FileSystem W}.
Context (text_diff : string → string → Changes).
Context (git : string → list string → W → W * option string) (canonicalize : string → W → option string).
Context (auto_commit : W → bool).
(** The variable [HOME], and the report of [ConfigEditWatch] about what happened to the configuration
    file between two worlds. *)
Context (home_var : W → option string) (config_watch : W → W → W * option string).
Implicit Types (s : FileState W).

Definition publish_file_touch (ctx : ToolContext) (resolved verb diff : string) (intent : option string) s : FileState W :=
  let intent := match intent with Some i => if is_empty (trim i) then None else Some (trim i) | None => None end in
  publish (MkFileTouch (tc_session_id ctx) resolved Op_Edit intent (Some (verb +:+ " via apply_patch"))
             (build_file_touch_preview diff)) s.

(** [✓ path: what], with the diff below when there is one. *)
Definition done_line (path what diff : string) : string :=
  "✓ " +:+ path +:+ ": " +:+ what +:+ (if is_empty diff then "" else nl +:+ diff).

Definition apply_add (ctx : ToolContext) (intent : option string) (path contents : string) s
    : FileState W * result (string * list string) string :=
  let resolved := resolve_path ctx path in
  let s := snapshot_and_record (tc_session_id ctx) resolved s in
  let '(w, made) := match parent resolved with
                    | Some dir => fs_create_dir_all dir (fst_world s)
                    | None => (fst_world s, Ok tt)
                    end in
  let s := with_world w s in
  match made with
  | Err e => (s, Err (io_text e))
  | Ok _ =>
      let '(w, written) := fs_write resolved contents (fst_world s) in
      let s := with_world w s in
      match written with
      | Err e => (s, Err (io_text e))
      | Ok _ =>
          let diff := patch_diff 1 (text_diff "" contents) in
          (publish_file_touch ctx resolved "created" diff intent s, Ok (done_line path "created" diff, [path]))
      end
  end.

Definition apply_delete (ctx : ToolContext) (intent : option string) (path : string) s
    : FileState W * result (string * list string) string :=
  let resolved := resolve_path ctx path in
  if is_catastrophic_target resolved (from_env (tc_working_dir ctx) (home_var (fst_world s)))
  then (s, Ok ("✗ " +:+ path +:+ ": refused, this path is protected and must never be deleted by an agent", []))
  else
    let old_contents := match read_to_string resolved (fst_world s) with Ok c => c | Err _ => "" end in
    let s := snapshot_and_record (tc_session_id ctx) resolved s in
    let '(w, removed) := fs_remove_file resolved (fst_world s) in
    let s := with_world w s in
    match removed with
    | Ok _ =>
        let diff := patch_diff 1 (text_diff old_contents "") in
        (publish_file_touch ctx resolved "deleted" diff intent s, Ok (done_line path "deleted" diff, [path]))
    | Err _ => (s, Ok ("✗ " +:+ path +:+ ": failed to delete", []))
    end.

(** [apply_update_chunks] *)
Definition apply_update_chunks (resolved : string) (chunks : list UpdateFileChunk) s
    : option (result (string * string) string) :=
  match read_to_string resolved (fst_world s) with
  | Err e => Some (Err (io_text e))
  | Ok original =>
      let?? r := update_contents original resolved chunks in
      Some (let? new := r in Ok (original, new))
  end.

Definition apply_update (ctx : ToolContext) (intent : option string) (path : string) (move_to : option string)
    (chunks : list UpdateFileChunk) s : option (FileState W * result (string * list string) string) :=
  let resolved := resolve_path ctx path in
  let?? updated := apply_update_chunks resolved chunks s in
  match updated with
  | Err e => Some (s, Ok ("✗ " +:+ path +:+ ": " +:+ e, []))
  | Ok (old_contents, new_contents) =>
      let diff := patch_diff 1 (text_diff old_contents new_contents) in
      let hunks := "modified (" +:+ show_nat (length chunks) +:+ " hunks)" in
      let s := snapshot_and_record (tc_session_id ctx) resolved s in
      Some
        match move_to with
        | Some dest =>
            let dest_resolved := resolve_path ctx dest in
            let s := snapshot_and_record (tc_session_id ctx) dest_resolved s in
            let '(w, made) := match parent dest_resolved with
                              | Some dir => fs_create_dir_all dir (fst_world s)
                              | None => (fst_world s, Ok tt)
                              end in
            let s := with_world w s in
            match made with
            | Err e => (s, Err (io_text e))
            | Ok _ =>
                let '(w, written) := fs_write dest_resolved new_contents (fst_world s) in
                let s := with_world w s in
                match written with
                | Err e => (s, Err (io_text e))
                | Ok _ =>
                    let '(w, _) := fs_remove_file resolved (fst_world s) in
                    let s := with_world w s in
                    let s := publish_file_touch ctx resolved "modified" diff intent s in
                    let s := publish_file_touch ctx dest_resolved "modified" diff intent s in
                    (s, Ok (done_line path (hunks +:+ ", moved to " +:+ dest) diff, [path; dest]))
                end
            end
        | None =>
            let '(w, written) := fs_write resolved new_contents (fst_world s) in
            let s := with_world w s in
            match written with
            | Err e => (s, Err (io_text e))
            | Ok _ => (publish_file_touch ctx resolved "modified" diff intent s, Ok (done_line path hunks diff, [path]))
            end
        end
  end.

Definition apply_hunk (ctx : ToolContext) (intent : option string) (hunk : PatchHunk) s
    : option (FileState W * result (string * list string) string) :=
  match hunk with
  | AddFile path contents => Some (apply_add ctx intent path contents s)
  | DeleteFile path => Some (apply_delete ctx intent path s)
  | UpdateFile path move_to chunks => apply_update ctx intent path move_to chunks s
  end.

(** The loop over the hunks: the result lines and the touched paths, or the error that ended it. *)
Fixpoint apply_hunks (ctx : ToolContext) (intent : option string) (hunks : list PatchHunk) s
    : option (FileState W * result (list string * list string) string) :=
  match hunks with
  | [] => Some (s, Ok ([], []))
  | hunk :: hunks =>
      let?? (s, r) := apply_hunk ctx intent hunk s in
      match r with
      | Err e => Some (s, Err e)
      | Ok (line, touched) =>
          let?? (s, r) := apply_hunks ctx intent hunks s in
          Some (s, let? (ls, more) := r in Ok (line :: ls, touched ++ more))
      end
  end.

Definition apply_patch_execute (p : ApplyPatchInput) (ctx : ToolContext) s
    : option (FileState W * result ToolOutput string) :=
  let?? parsed := parse_apply_patch (ai_patch_text p) in
  match parsed with
  | Err e => Some (s, Err e)
  | Ok hunks =>
      let before := fst_world s in
      let?? (s, r) := apply_hunks ctx (ai_intent p) hunks s in
      match r with
      | Err e => Some (s, Err e)
      | Ok (results, touched_paths) =>
          if is_nil results then Some (s, Ok (tool_output "No changes applied"))
          else
            let '(s, outcome) := run_auto_commit git canonicalize auto_commit "apply_patch" ctx
                                   (map (resolve_path ctx) touched_paths) s in
            let body := append_notice (String.concat nl results) outcome in
            let '(w, notice) := config_watch before (fst_world s) in
            let output := tool_output (body +:+ default "" notice) in
            Some (with_world w s,
                  Ok (with_title match touched_paths with
                                 | [path] => path
                                 | _ => show_nat (length touched_paths) +:+ " files"
                                 end output))
      end
  end.
End run.
