(* ===== verification/ApplyPatchTheorems.v ===== *)
(** * A patch changes what it matched

    Theorems about [ApplyPatch]: parsing ends, no patch makes the tool panic, and the replacements of an
    update are disjoint places of the file that match the chunks' old lines and are spliced all at once. *)

From S2P Require Export ApplyPatch.

(** ** Parsing ends *)

Lemma chunk_lines_rest ls old new had : length (cl_rest (chunk_lines ls old new had)) ≤ length ls.
Proof.
  revert old new had. induction ls as [|l ls IH]; intros old new had; cbn [chunk_lines]; [done|].
  repeat case_match; cbn [cl_rest length]; try lia; (etrans; [apply IH|lia]).
Qed.

Lemma parse_chunks_ok fuel ls first :
  2 * length ls + (if first : bool then 1 else 0) < fuel →
  ∃ chunks after, parse_chunks fuel ls first = Some (chunks, after) ∧ length after ≤ length ls.
Proof.
  revert ls first. induction fuel as [|fuel IH]; intros ls first Hf; [lia|]. cbn [parse_chunks].
  destruct ls as [|line rest]; [by exists [], []|]. cbn [length] in *. cbv zeta.
  destruct (starts_with "*** " _ && _); [eexists _, _; split; [done|cbn; lia]|].
  destruct (_ && _ && _ && _). { destruct (IH rest first) as (c & a & -> & ?); [lia|]. eexists _, _. split; [done|lia]. }
  assert (∀ ctx body, length body ≤ length rest ∨ (length body ≤ S (length rest) ∧ first = true) →
    ∃ chunks after,
      match parse_chunks fuel (cl_rest (chunk_lines body [] [] false)) false with
      | Some (chunks, after) =>
          Some ((if cl_had (chunk_lines body [] [] false) || bool_decide (is_Some ctx)
                 then [MkChunk ctx (cl_old (chunk_lines body [] [] false)) (cl_new (chunk_lines body [] [] false))
                         (cl_eof (chunk_lines body [] [] false))] else []) ++ chunks, after)
      | None => None
      end = Some (chunks, after) ∧ length after ≤ S (length rest)) as Hgo.
  { intros ctx body Hb. pose proof (chunk_lines_rest body [] [] false) as Hr.
    destruct (IH (cl_rest (chunk_lines body [] [] false)) false) as (c & a & -> & Ha).
    - destruct Hb as [Hb|[Hb ->]]; lia.
    - eexists _, _. split; [done|]. destruct Hb as [Hb|[Hb _]]; lia. }
  destruct (String.eqb (trim_end line) "@@"); [apply Hgo; by left|].
  destruct (strip_prefix "@@ " (trim_end line)) as [ctx|]; [apply Hgo; by left|].
  destruct first; [apply Hgo; right; cbn; done || (split; [cbn; lia|done])|].
  eexists _, _. split; [done|cbn; lia].
Qed.

Lemma parse_added_rest ls : length (parse_added ls).2 ≤ length ls.
Proof.
  induction ls as [|l ls IH]; cbn [parse_added]; [done|]. case_match; [cbn; lia|].
  destruct (parse_added ls) as [c a]. cbn in *. case_match; cbn; lia.
Qed.

Lemma parse_hunks_ok fuel ls : length ls < fuel → is_Some (parse_hunks fuel ls).
Proof.
  revert ls. induction fuel as [|fuel IH]; intros ls Hf; [lia|]. cbn [parse_hunks].
  destruct ls as [|line rest]; [by eexists|]. cbn [length] in *. cbv zeta.
  destruct (String.eqb _ _); [by eexists|].
  destruct (strip_prefix "*** Add File: " _) as [path|].
  { pose proof (parse_added_rest rest). destruct (parse_added rest) as [contents after]. cbn in *.
    destruct (IH after) as [r ->]; [lia|]. by eexists. }
  destruct (strip_prefix "*** Delete File: " _) as [path|].
  { destruct (IH rest) as [r ->]; [lia|]. by eexists. }
  destruct (strip_prefix "*** Update File: " _) as [path|]; [|apply IH; lia].
  set (mv := match rest with [] => _ | _ => _ end).
  assert (length mv.2 ≤ length rest) as Hmv.
  { subst mv. destruct rest as [|t rest']; [done|]. case_match; cbn; lia. }
  destruct mv as [move_to body]. cbn [snd] in Hmv.
  destruct (parse_chunks_ok (chunk_fuel body) body true) as (chunks & after & -> & Ha); [unfold chunk_fuel; lia|].
  destruct (is_nil chunks); [by eexists|]. destruct (IH after) as [r ->]; [lia|]. by eexists.
Qed.

Lemma parse_apply_patch_ok input : is_Some (parse_apply_patch input).
Proof.
  unfold parse_apply_patch. destruct (position _ _) as [start|]; [|by eexists].
  destruct (parse_hunks_ok (S (length (drop (S start) (lines input)))) (drop (S start) (lines input))) as [r ->]; [lia|].
  by eexists.
Qed.

(** ** Where a chunk is found *)

(** The window at [i] is the pattern, up to white space at the ends of its lines. *)
Definition window_is (ls pattern : list string) (i : nat) : Prop :=
  ∃ f, f ∈ [id; trim_end; trim] ∧ map f (take (length pattern) (drop i ls)) = map f pattern.

Lemma seek_with_Some f ls pattern from i :
  seek_with f ls pattern from = Some i → length pattern ≤ length ls →
  from ≤ i ∧ i + length pattern ≤ length ls ∧ map f (take (length pattern) (drop i ls)) = map f pattern.
Proof.
  unfold seek_with. intros H Hle. apply find_some in H as [Hin Hm%bool_decide_eq_true].
  apply in_seq in Hin. split_and!; [lia|lia|done].
Qed.

Lemma seek_sequence_Some ls pattern start eof i :
  seek_sequence ls pattern start eof = Some i → start ≤ length ls →
  i + length pattern ≤ length ls ∧ window_is ls pattern i ∧ (eof = false → start ≤ i).
Proof.
  unfold seek_sequence. destruct pattern as [|p pattern].
  { cbn [is_nil]. intros [= <-] ?. split_and!; [cbn; lia| |done]. exists id. split; [by left|]. done. }
  cbn [is_nil]. destruct (Nat.ltb_spec (length ls) (length (p :: pattern))) as [|Hle]; [done|]. cbv zeta.
  intros H Hs. match type of H with context [seek_with id _ _ ?x] => set (from := x) in H end.
  assert (eof = false → start ≤ from) as Hfrom by (intros ->; done).
  assert (∀ f, f ∈ [id; trim_end; trim] → seek_with f ls (p :: pattern) from = Some i →
    i + length (p :: pattern) ≤ length ls ∧ window_is ls (p :: pattern) i ∧ (eof = false → start ≤ i)) as Hgo.
  { intros f Hf Hk. apply seek_with_Some in Hk as (? & ? & ?); [|done]. split_and!; [done|by exists f|].
    intros He. specialize (Hfrom He). lia. }
  destruct (seek_with id _ _ _) as [k|] eqn:H1; [simplify_eq; apply (Hgo id); [set_solver|done]|].
  destruct (seek_with trim_end _ _ _) as [k|] eqn:H2; [simplify_eq; apply (Hgo trim_end); [set_solver|done]|].
  apply (Hgo trim); [set_solver|done].
Qed.

(** What a chunk looks for: its old lines, or these without an empty last line. *)
Definition chunk_pattern (chunk : UpdateFileChunk) (pattern new : list string) : Prop :=
  (pattern = old_lines chunk ∧ new = new_lines chunk)
  ∨ (ends_empty (old_lines chunk) = true ∧ pattern = but_last (old_lines chunk)
     ∧ new = (if ends_empty (new_lines chunk) then but_last (new_lines chunk) else new_lines chunk)).

Lemma locate_chunk_Some ls chunk line_index pattern new i :
  locate_chunk ls chunk line_index = (pattern, new, Some i) → line_index ≤ length ls →
  chunk_pattern chunk pattern new ∧ i + length pattern ≤ length ls ∧ window_is ls pattern i
  ∧ (is_end_of_file chunk = false → line_index ≤ i).
Proof.
  unfold locate_chunk. cbv zeta. intros H Hl. destruct (seek_sequence ls (old_lines chunk) _ _) as [k|] eqn:Hk.
  { simplify_eq. split; [by left|]. by apply seek_sequence_Some. }
  destruct (ends_empty (old_lines chunk)) eqn:He; [|done]. injection H as <- <- H.
  split; [by right|]. by apply seek_sequence_Some.
Qed.

(** ** No panic *)

Definition start_of (r : Replacement) : nat := r.1.1.

Lemma delete_length_ge {A} i k (l : list A) : k ≤ i → k ≤ length l → i < length l → k ≤ length (delete i l).
Proof.
  intros H1 H2 H3. destruct (lookup_lt_is_Some_2 l i H3) as [x Hx].
  rewrite length_delete by by eexists. lia.
Qed.

Lemma remove_loop_ge n start ls : start ≤ length ls → start ≤ length (remove_loop n start ls).
Proof.
  revert ls. induction n as [|n IH]; intros ls H; cbn [remove_loop]; [done|]. apply IH.
  destruct (Nat.ltb_spec start (length ls)); [|done]. by apply delete_length_ge.
Qed.

Lemma insert_loop_ok pos new ls :
  pos ≤ length ls → insert_loop pos new ls = Some (take pos ls ++ new ++ drop pos ls).
Proof.
  revert pos ls. induction new as [|x new IH]; intros pos ls H; cbn [insert_loop].
  { cbn [app]. by rewrite take_drop. }
  unfold insert_line. rewrite (proj2 (Nat.leb_le _ _) H).
  rewrite IH by (rewrite length_app, length_take_le by done; cbn; lia). f_equal.
  rewrite take_app_ge by (rewrite length_take_le; lia). rewrite drop_app_ge by (rewrite length_take_le; lia).
  rewrite length_take_le by done. replace (S pos - pos) with 1 by lia. cbn. by rewrite <- app_assoc.
Qed.

(** In order and starting within the file, the replacements can always be made. *)
Lemma apply_replacements_ok ls rs :
  Sorted (λ a b, replacement_leb a b = true) rs → Forall (λ r, start_of r ≤ length ls) rs →
  ∃ new, apply_replacements ls rs = Some new
    ∧ match rs with [] => length ls | r :: _ => start_of r end ≤ length new.
Proof.
  induction rs as [|[[st len] seg] rs IH]; intros Hs Hb; [by exists ls|].
  apply Sorted_inv in Hs as [Hs Hhd]. apply Forall_cons in Hb as [Hst Hb].
  destruct (IH Hs Hb) as (l1 & E & Hl). cbn [apply_replacements]. rewrite E.
  assert (st ≤ length l1) as Hle.
  { destruct rs as [|r rs]; [cbn in Hst; lia|]. apply HdRel_inv in Hhd. apply Nat.leb_le in Hhd. cbn in Hhd.
    unfold start_of in Hl. lia. }
  pose proof (remove_loop_ge len st l1 Hle) as Hr. rewrite insert_loop_ok by done. eexists. split; [done|].
  rewrite length_app, length_take_le by done. unfold start_of. cbn. lia.
Qed.

Lemma insertion_index_le ls : insertion_index ls ≤ length ls.
Proof. unfold insertion_index. case_match; lia. Qed.

(** The context line of a chunk moves the index on. *)
Lemma context_index ls path ctx line_index j :
  match ctx with
  | Some ctx_line =>
      match seek_sequence ls [ctx_line] line_index false with
      | Some idx => Ok (idx + 1)
      | None => Err ("Failed to find context '" +:+ ctx_line +:+ "' in " +:+ path)
      end
  | None => Ok line_index
  end = Ok j → line_index ≤ length ls → line_index ≤ j ≤ length ls.
Proof.
  destruct ctx as [c|]; [|by intros [= <-]]. destruct (seek_sequence _ _ _ _) as [idx|] eqn:Hk; [|done].
  intros [= <-] H. apply seek_sequence_Some in Hk as (H1 & _ & H2); [|done]. cbn in H1. specialize (H2 eq_refl). lia.
Qed.

Lemma compute_go_starts ls path chunks line_index rs :
  compute_go ls path chunks line_index = Ok rs → line_index ≤ length ls → Forall (λ r, start_of r ≤ length ls) rs.
Proof.
  revert line_index rs. induction chunks as [|chunk chunks IH]; intros line_index rs; cbn [compute_go]; [by intros [= <-]|].
  match goal with |- context [match ?m with Ok _ => _ | Err _ => _ end] => destruct m as [j|e] eqn:Hj end; [|done].
  intros H Hl. apply context_index in Hj as [_ Hj]; [|done]. destruct (is_nil (old_lines chunk)).
  - destruct (compute_go ls path chunks j) as [rs'|] eqn:Hgo; [|done]. injection H as <-.
    constructor; [apply insertion_index_le|by eapply IH].
  - destruct (locate_chunk ls chunk j) as [[pattern new] [i|]] eqn:Hloc; [|done].
    apply locate_chunk_Some in Hloc as (_ & Hi & _); [|done].
    destruct (compute_go ls path chunks _) as [rs'|] eqn:Hgo; [|done]. injection H as <-.
    constructor; [unfold start_of; cbn; lia|]. eapply IH; [exact Hgo|lia].
Qed.

Lemma replacement_leb_total a b : replacement_leb a b = true ∨ replacement_leb b a = true.
Proof. unfold replacement_leb. destruct (Nat.leb_spec a.1.1 b.1.1); [by left|right]. apply Nat.leb_le. lia. Qed.

Lemma update_contents_ok original path chunks : is_Some (update_contents original path chunks).
Proof.
  unfold update_contents, compute_replacements. cbv zeta.
  match goal with |- context [compute_go ?x _ _ _] => generalize x; intros ls end.
  destruct (compute_go ls path chunks 0) as [rs|e] eqn:Hgo; [|by eexists].
  destruct (apply_replacements_ok ls (sort_by replacement_leb rs)) as (new & -> & _); [| |by eexists].
  - apply sort_by_sorted, replacement_leb_total.
  - apply Forall_forall. intros r Hr%elem_of_sort_by.
    apply compute_go_starts in Hgo; [|lia]. rewrite Forall_forall in Hgo. by apply Hgo.
Qed.

(** ** Disjoint places *)

(** From [from] on, the replacements follow each other without overlap and end within [n] lines. *)
Fixpoint placed (from : nat) (rs : list Replacement) (n : nat) : Prop :=
  match rs with
  | [] => from ≤ n
  | (st, len, _) :: rs => from ≤ st ∧ placed (st + len) rs n
  end.

(** The file with every place replaced at once. *)
Fixpoint splice (from : nat) (ls : list string) (rs : list Replacement) : list string :=
  match rs with
  | [] => drop from ls
  | (st, len, new) :: rs => take (st - from) (drop from ls) ++ new ++ splice (st + len) ls rs
  end.

Lemma placed_le from rs n : placed from rs n → from ≤ n.
Proof.
  revert from. induction rs as [|[[st len] new] rs IH]; intros from; cbn [placed]; [done|].
  intros [H1 H2]. apply IH in H2. lia.
Qed.

Lemma remove_loop_exact a b c : remove_loop (length b) (length a) (a ++ b ++ c) = a ++ c.
Proof.
  induction b as [|x b IH]; [done|]. cbn [remove_loop length].
  rewrite (proj2 (Nat.ltb_lt _ _)) by (rewrite !length_app; cbn; lia).
  change ((x :: b) ++ c) with (x :: (b ++ c)). by rewrite delete_middle.
Qed.

Lemma take_take_drop {A} (l : list A) i j : i ≤ j → take i l ++ take (j - i) (drop i l) = take j l.
Proof. intros H. rewrite <- (take_drop i (take j l)), take_take, Nat.min_l, skipn_firstn_comm by done. done. Qed.

Lemma apply_replacements_splice from ls rs :
  placed from rs (length ls) → apply_replacements ls rs = Some (take from ls ++ splice from ls rs).
Proof.
  revert from. induction rs as [|[[st len] new] rs IH]; intros from H; cbn [apply_replacements splice placed] in *.
  { by rewrite take_drop. }
  destruct H as [Hf H]. pose proof (placed_le _ _ _ H) as Hle. rewrite (IH _ H).
  set (tail := splice (st + len) ls rs).
  assert (remove_loop len st (take (st + len) ls ++ tail) = take st ls ++ tail) as ->.
  { rewrite <- (take_take_drop ls st (st + len)) by lia. replace (st + len - st) with len by lia.
    set (b := take len (drop st ls)). assert (length b = len) as Hb by (unfold b; rewrite length_take, length_drop; lia).
    pose proof (remove_loop_exact (take st ls) b tail) as Hx. rewrite Hb, length_take_le in Hx by lia.
    by rewrite <- app_assoc. }
  rewrite insert_loop_ok by (rewrite length_app, length_take_le; lia).
  rewrite take_app_le, take_take, Nat.min_id by (rewrite length_take_le; lia).
  rewrite drop_app_ge, length_take_le, Nat.sub_diag by (rewrite ?length_take_le; lia).
  by rewrite drop_0, (app_assoc (take from ls)), (take_take_drop ls from st).
Qed.

Lemma insert_placed_front from st len new rs n :
  from ≤ st → placed (st + len) rs n → placed from (insert_by replacement_leb (st, len, new) rs) n.
Proof.
  intros Hf H. destruct rs as [|[[st' len'] new'] rs]; cbn [insert_by]; [done|].
  cbn [placed] in H. unfold replacement_leb. cbn [fst].
  rewrite (proj2 (Nat.leb_le _ _)) by lia. done.
Qed.

Lemma insert_placed_end from new rs n :
  placed from rs n → placed from (insert_by replacement_leb (n, 0, new) rs) n.
Proof.
  revert from. induction rs as [|[[st len] new'] rs IH]; intros from H; cbn [insert_by placed] in *; [lia|].
  destruct H as [Hf H]. unfold replacement_leb at 1. cbn [fst]. destruct (Nat.leb_spec n st).
  - cbn [placed]. pose proof (placed_le _ _ _ H). split_and!; [lia..|done].
  - cbn [placed]. split; [done|by apply IH].
Qed.

(** Why a replacement is there: some chunk's pattern stands at its place, or a chunk without old lines
    adds at the end of the file. *)
Definition justified (ls : list string) (chunks : list UpdateFileChunk) (r : Replacement) : Prop :=
  ∃ chunk, chunk ∈ chunks ∧
    ((old_lines chunk = [] ∧ r = (length ls, 0, new_lines chunk))
     ∨ ∃ pattern i new, r = (i, length pattern, new) ∧ chunk_pattern chunk pattern new ∧ window_is ls pattern i).

Lemma justified_cons ls chunk chunks r : justified ls chunks r → justified ls (chunk :: chunks) r.
Proof. intros (c & Hc & H). exists c. split; [by right|done]. Qed.

Lemma compute_go_placed ls path chunks line_index rs :
  (∀ c, c ∈ chunks → is_end_of_file c = false) →
  (ends_empty ls = true → ∀ c, c ∈ chunks → old_lines c ≠ []) →
  compute_go ls path chunks line_index = Ok rs → line_index ≤ length ls →
  placed line_index (sort_by replacement_leb rs) (length ls) ∧ Forall (justified ls chunks) rs.
Proof.
  revert line_index rs. induction chunks as [|chunk chunks IH]; intros line_index rs He Hi; cbn [compute_go].
  { intros [= <-] H. done. }
  match goal with |- context [match ?m with Ok _ => _ | Err _ => _ end] => destruct m as [j|e] eqn:Hj end; [|done].
  intros H Hl. apply context_index in Hj as [Hlj Hj]; [|done].
  assert (∀ k rs', compute_go ls path chunks k = Ok rs' → k ≤ length ls →
    placed k (sort_by replacement_leb rs') (length ls) ∧ Forall (justified ls (chunk :: chunks)) rs') as IH'.
  { intros k rs' Hgo Hk. destruct (IH k rs') as [H1 H2]; [by intros c ?; apply He; right|by intros ? c ?; apply Hi; [|right]|done..|].
    split; [done|]. eapply Forall_impl; [exact H2|]. intros r. apply justified_cons. }
  destruct (old_lines chunk) as [|o os] eqn:Ho; cbn [is_nil] in H.
  - destruct (compute_go ls path chunks j) as [rs'|] eqn:Hgo; [|done]. injection H as <-.
    destruct (IH' _ _ Hgo Hj) as [H1 H2]. assert (insertion_index ls = length ls) as Hii.
    { unfold insertion_index. destruct (ends_empty ls) eqn:Hem; [|done]. destruct (Hi eq_refl chunk); [by left|done]. }
    rewrite Hii. split.
    + cbn [sort_by]. apply insert_placed_end. clear -H1 Hlj.
      destruct (sort_by replacement_leb rs') as [|[[st len] new] l]; cbn [placed] in *; [lia|]. split; [lia|apply H1].
    + constructor; [|done]. exists chunk. split; [by left|]. by left.
  - destruct (locate_chunk ls chunk j) as [[pattern new] [i|]] eqn:Hloc; [|done].
    apply locate_chunk_Some in Hloc as (Hpat & Hw & Hwin & Hge); [|done].
    destruct (compute_go ls path chunks _) as [rs'|] eqn:Hgo; [|done]. injection H as <-.
    destruct (IH' _ _ Hgo ltac:(lia)) as [H1 H2].
    assert (j ≤ i) by (apply Hge, He; by left). split.
    + cbn [sort_by]. apply insert_placed_front; [lia|done].
    + constructor; [|done]. exists chunk. split; [by left|]. right. by exists pattern, i, new.
Qed.


Definition chunk (old new : list string) : UpdateFileChunk := MkChunk None old new false.


(** ** The tool *)

Section run.
Context {W : Type} `{!FileSystem W}.
Context (text_diff : string → string → Changes).
Context (git : string → list string → W → W * option string) (canonicalize : string → W → option string).
Context (auto_commit : W → bool).
Context (home_var : W → option string) (config_watch : W → W → W * option string).
Implicit Types (s : FileState W).

Lemma apply_hunk_ok ctx intent hunk s : is_Some (apply_hunk text_diff home_var ctx intent hunk s).
Proof.
  destruct hunk as [path contents|path|path move_to chunks]; cbn [apply_hunk]; [by eexists..|].
  unfold apply_update, apply_update_chunks. cbv zeta.
  destruct (read_to_string _ _) as [original|e]; [|by eexists].
  destruct (update_contents_ok original (resolve_path ctx path) chunks) as [[new|e] ->]; by eexists.
Qed.

Lemma apply_hunks_ok ctx intent hunks s : is_Some (apply_hunks text_diff home_var ctx intent hunks s).
Proof.
  revert s. induction hunks as [|hunk hunks IH]; intros s; cbn [apply_hunks]; [by eexists|].
  destruct (apply_hunk_ok ctx intent hunk s) as [[s1 [[line touched]|e]] ->]; [|by eexists].
  destruct (IH s1) as [[s2 r] ->]. by eexists.
Qed.

(** C34. [apply_patch] always answers: for every text, directory and world, parsing ends and no slice,
    removal or insertion of lines is out of range, so the tool returns a result or an error. *)
Theorem apply_patch_always_answers p ctx s :
  is_Some (apply_patch_execute text_diff git canonicalize auto_commit home_var config_watch p ctx s).
Proof.
  unfold apply_patch_execute. destruct (parse_apply_patch_ok (ai_patch_text p)) as [[hunks|e] ->]; [|by eexists].
  cbv zeta. destruct (apply_hunks_ok ctx (ai_intent p) hunks s) as [[s1 [[results touched]|e]] ->]; [|by eexists].
  destruct (is_nil results); [by eexists|]. destruct (run_auto_commit _ _ _ _ _ _ _) as [s2 o].
  destruct (config_watch _ _) as [w notice]. by eexists.
Qed.

(** Deleting a protected path changes nothing: no checkpoint, no event, no call of the file system. *)
Lemma protected_path_kept ctx intent path s :
  is_catastrophic_target (resolve_path ctx path) (from_env (tc_working_dir ctx) (home_var (fst_world s))) = true →
  (apply_delete text_diff home_var ctx intent path s).1 = s.
Proof. intros H. unfold apply_delete. by rewrite H. Qed.
End run.

(** ** Behaviours worth knowing *)

Definition patch_in (files : gmap string string) (ls : list string) : gmap string string :=
  match apply_patch_execute (λ _ _, []) (λ _ _ w, (w, None)) (λ _ _, None) (λ _, false)
          (λ _, Some "/home/me") (λ _ w, (w, None))
          (MkApplyPatchInput None (String.concat nl ls)) (in_session "s") (MkFileState files [] []) with
  | Some (s, _) => fst_world s
  | None => files
  end.

Example patch_ex :
  let after := patch_in {[ "/work/a" := "foo" +:+ nl +:+ "bar" +:+ nl ]}
    ["*** Begin Patch"; "*** Update File: a"; "@@"; " foo"; "-bar"; "+baz"; "*** Add File: b"; "+new"; "*** End Patch"] in
  (after !! "/work/a", after !! "/work/b") = (Some ("foo" +:+ nl +:+ "baz" +:+ nl), Some ("new" +:+ nl)).
Proof. by vm_compute. Qed.

(** A move to the same path writes the file and then removes it. *)
Example move_onto_itself_deletes :
  patch_in {[ "/work/a" := "foo" +:+ nl ]}
    ["*** Begin Patch"; "*** Update File: a"; "*** Move to: a"; "@@"; "-foo"; "+bar"; "*** End Patch"] !! "/work/a" = None.
Proof. by vm_compute. Qed.

(** A protected file that may not be deleted can be moved away. *)
Example move_removes_protected_file :
  let key := {[ "/home/me/.ssh/id" := "KEY" +:+ nl ]} in
  let deleted := patch_in key ["*** Begin Patch"; "*** Delete File: /home/me/.ssh/id"; "*** End Patch"] in
  let moved := patch_in key
    ["*** Begin Patch"; "*** Update File: /home/me/.ssh/id"; "*** Move to: /tmp/x"; "@@"; " KEY"; "*** End Patch"] in
  deleted !! "/home/me/.ssh/id" = Some ("KEY" +:+ nl)
  ∧ (moved !! "/home/me/.ssh/id", moved !! "/tmp/x") = (None, Some ("KEY" +:+ nl)).
Proof. split; by vm_compute. Qed.

(** A blank line at the end of the file is lost. *)
Example trailing_blank_line_lost :
  update_contents ("a" +:+ nl +:+ nl) "f" [chunk ["a"] ["b"]] = Some (Ok ("b" +:+ nl)).
Proof. by vm_compute. Qed.

(** A chunk marked as the end of the file is looked for there whatever came before, and may lose its
    change to an earlier chunk that covers the same lines. *)
Example end_of_file_overlaps :
  update_contents ("a" +:+ nl +:+ "b" +:+ nl) "f" [chunk ["a"; "b"] ["X"]; MkChunk None ["b"] ["Y"] true] = Some (Ok ("X" +:+ nl)).
Proof. by vm_compute. Qed.
