(* ===== verification/UnifiedPatch.v ===== *)
(** * The tool [patch] (crates/arterm-app-core/src/tool/patch.rs)

    A unified diff is parsed into file patches, each applied by line numbers alone: the old lines only
    say how many lines to take out.  The index into the patch is the list of lines that are left; [None]
    of [apply_file_patch] is the panic of [splice] on a range that starts past the end. *)

From S2P Require Export ApplyPatchTheorems.

Record Hunk := MkHunk { hk_old_start : N; hk_old_lines : list string; hk_new_lines : list string }.

Record FilePatch := MkFilePatch {
  fp_path : string;
  fp_hunks : list Hunk;
  fp_is_new : bool;
  fp_is_delete : bool;
}.

(** ** Parsing *)

Fixpoint digits_value (acc : N) (s : string) : option N :=
  match s with
  | EmptyString => Some acc
  | String c s => if is_ascii_digit c then digits_value (10 * acc + (byte c - 48)) s else None
  end.

(** [str::parse::<usize>] *)
Definition parse_line_number (s : string) : option N :=
  let digits := default s (strip_prefix "+" s) in
  if is_empty digits then None
  else let?? n := digits_value 0 digits in if (n <? 2 ^ 64)%N then Some n else None.

(** [line.strip_prefix(p).unwrap_or("").split('\t').next()] *)
Definition header_file (p line : string) : string :=
  default "" (head (split_on tab (default "" (strip_prefix p line)))).

(** The loop of [parse_hunk] over the body. *)
Fixpoint hunk_body (ls old new : list string) : list string * list string * list string :=
  match ls with
  | [] => (old, new, [])
  | line :: rest =>
      if starts_with "@@" line || starts_with "---" line then (old, new, ls)
      else match strip_prefix "-" line with
           | Some content => hunk_body rest (old ++ [content]) new
           | None =>
           match strip_prefix "+" line with
           | Some content => hunk_body rest old (new ++ [content])
           | None =>
           match strip_prefix " " line with
           | Some content => hunk_body rest (old ++ [content]) (new ++ [content])
           | None => hunk_body rest old new
           end end end
  end.

(** [parse_hunk] at a header, with the lines after it. *)
Definition parse_hunk (header : string) (rest : list string) : option Hunk * list string :=
  match split_whitespace header with
  | _ :: old_part :: _ :: _ =>
      let old_range := default old_part (strip_prefix "-" old_part) in
      let old_start := default 1%N (parse_line_number (default "" (head (split_on "," old_range)))) in
      let '(old, new, after) := hunk_body rest [] [] in
      (Some (MkHunk old_start old new), after)
  | _ => (None, rest)
  end.

Fixpoint parse_file_hunks (fuel : nat) (ls : list string) : list Hunk * list string :=
  match fuel with
  | 0 => ([], ls)
  | S fuel =>
      match ls with
      | [] => ([], [])
      | line :: rest =>
          if starts_with "---" line then ([], ls)
          else if starts_with "@@" line then
            let '(hunk, after) := parse_hunk line rest in
            let '(hunks, after) := parse_file_hunks fuel after in
            (match hunk with Some h => h :: hunks | None => hunks end, after)
          else parse_file_hunks fuel rest
      end
  end.

Fixpoint parse_patch_go (fuel : nat) (ls : list string) : list FilePatch :=
  match fuel with
  | 0 => []
  | S fuel =>
      match ls with
      | [] => []
      | line :: rest =>
          if starts_with "---" line then
            let old_file := header_file "--- " line in
            match rest with
            | next :: body =>
                if starts_with "+++" next then
                  let new_file := header_file "+++ " next in
                  let path := if String.eqb new_file "/dev/null" then default old_file (strip_prefix "a/" old_file)
                              else default new_file (strip_prefix "b/" new_file) in
                  let is_new := String.eqb old_file "/dev/null" in
                  let is_delete := String.eqb new_file "/dev/null" in
                  let '(hunks, after) := parse_file_hunks (S (length body)) body in
                  (if negb (is_nil hunks) || is_new || is_delete then [MkFilePatch path hunks is_new is_delete] else [])
                  ++ parse_patch_go fuel after
                else parse_patch_go fuel rest
            | [] => []
            end
          else parse_patch_go fuel rest
      end
  end.

Definition parse_patch (text : string) : list FilePatch :=
  let ls := lines text in parse_patch_go (S (length ls)) ls.

(** ** Applying *)

(** [lines.splice(start..end, new)] *)
Definition splice_lines (start stop : nat) (new ls : list string) : option (list string) :=
  if (start <=? stop) && (stop <=? length ls) then Some (take start ls ++ new ++ drop stop ls) else None.

(** The loop over [hunks.iter().rev()]. *)
Fixpoint apply_file_hunks (ls : list string) (hunks : list Hunk) : option (list string) :=
  match hunks with
  | [] => Some ls
  | hunk :: hunks =>
      let?? ls := apply_file_hunks ls hunks in
      let start := N.to_nat (hk_old_start hunk - 1) in
      let stop := min (start + length (hk_old_lines hunk)) (length ls) in
      splice_lines start stop (hk_new_lines hunk) ls
  end.

Definition first_line (hunks : list Hunk) : nat :=
  match map (λ h, N.to_nat (hk_old_start h)) hunks with [] => 1 | n :: ns => foldl min n ns end.

Section run.
Context {W : Type} `{!FileSystem W}.
Context (text_diff : string → string → Changes).
Context (git : string → list string → W → W * option string) (canonicalize : string → W → option string).
Context (auto_commit : W → bool) (config_watch : W → W → W * option string).
Implicit Types (s : FileState W).

(** [apply_patch_with_diff] *)
Definition apply_file_patch (p : FilePatch) (path : string) (w : W) : option (W * result (string * string) string) :=
  if fp_is_delete p then
    if fs_exists path w then
      let old_content := match read_to_string path w with Ok c => c | Err _ => "" end in
      let '(w, removed) := fs_remove_file path w in
      Some match removed with
           | Err e => (w, Err (io_text e))
           | Ok _ => (w, Ok ("deleted", patch_diff 1 (text_diff old_content "")))
           end
    else Some (w, Err "file does not exist")
  else if fp_is_new p then
    if fs_exists path w then Some (w, Err "file already exists")
    else
      let '(w, made) := match parent path with Some dir => fs_create_dir_all dir w | None => (w, Ok tt) end in
      match made with
      | Err e => Some (w, Err (io_text e))
      | Ok _ =>
          let content := String.concat "" (map (λ l, l +:+ nl) (concat (map hk_new_lines (fp_hunks p)))) in
          let '(w, written) := fs_write path content w in
          Some match written with
               | Err e => (w, Err (io_text e))
               | Ok _ => (w, Ok ("created", patch_diff 1 (text_diff "" content)))
               end
      end
  else if negb (fs_exists path w) then Some (w, Err "file does not exist")
  else match read_to_string path w with
  | Err e => Some (w, Err (io_text e))
  | Ok old_content =>
      let?? ls := apply_file_hunks (lines old_content) (fp_hunks p) in
      let new_content := String.concat nl ls +:+ nl in
      let '(w, written) := fs_write path new_content w in
      Some match written with
           | Err e => (w, Err (io_text e))
           | Ok _ => (w, Ok ("modified (" +:+ show_nat (length (fp_hunks p)) +:+ " hunks)",
                             patch_diff (first_line (fp_hunks p)) (text_diff old_content new_content)))
           end
  end.

(** The loop of [PatchTool::execute]: result lines and touched files. *)
Fixpoint apply_file_patches (ctx : ToolContext) (patches : list FilePatch) s
    : option (FileState W * (list string * list string)) :=
  match patches with
  | [] => Some (s, ([], []))
  | p :: patches =>
      let resolved := resolve_path ctx (fp_path p) in
      let s := snapshot_and_record (tc_session_id ctx) resolved s in
      let?? (w, r) := apply_file_patch p resolved (fst_world s) in
      let?? (s, (results, touched)) := apply_file_patches ctx patches (with_world w s) in
      Some (s, match r with
               | Ok (msg, diff) =>
                   (("✓ " +:+ fp_path p +:+ ": " +:+ msg +:+ (if is_empty diff then "" else nl +:+ diff)) :: results,
                    resolved :: touched)
               | Err e => (("✗ " +:+ fp_path p +:+ ": " +:+ e) :: results, touched)
               end)
  end.

Definition patch_execute (patch_text : string) (ctx : ToolContext) s : option (FileState W * result ToolOutput string) :=
  let patches := parse_patch patch_text in
  if is_nil patches then Some (s, Err "No valid patches found in input")
  else
    let before := fst_world s in
    let?? (s, (results, touched)) := apply_file_patches ctx patches s in
    let '(s, outcome) := run_auto_commit git canonicalize auto_commit "patch" ctx touched s in
    let body := append_notice (String.concat (nl +:+ nl) results) outcome in
    let '(w, notice) := config_watch before (fst_world s) in
    Some (with_world w s, Ok (tool_output (body +:+ default "" notice))).
End run.

(** ** The fuel of the parser is enough *)

Lemma hunk_body_rest ls old new : length (hunk_body ls old new).2 ≤ length ls.
Proof.
  revert old new. induction ls as [|l ls IH]; intros old new; cbn [hunk_body]; [done|].
  destruct (_ || _); [done|]. repeat case_match; (etrans; [apply IH|cbn; lia]).
Qed.

Lemma parse_hunk_rest header rest : length (parse_hunk header rest).2 ≤ length rest.
Proof.
  unfold parse_hunk. destruct (split_whitespace header) as [|a [|b [|c l]]]; try done.
  pose proof (hunk_body_rest rest [] []). cbv zeta. by destruct (hunk_body rest [] []) as [[old new] after].
Qed.

Lemma parse_file_hunks_fuel f g ls :
  length ls < f → length ls < g →
  parse_file_hunks f ls = parse_file_hunks g ls ∧ length (parse_file_hunks f ls).2 ≤ length ls.
Proof.
  revert g ls. induction f as [|f IH]; intros g ls Hf Hg; [lia|]. destruct g as [|g]; [lia|].
  cbn [parse_file_hunks]. destruct ls as [|line rest]; [done|]. cbn [length] in *.
  destruct (starts_with "---" line); [done|]. destruct (starts_with "@@" line).
  - pose proof (parse_hunk_rest line rest). destruct (parse_hunk line rest) as [h after]. cbn [snd] in *.
    destruct (IH g after) as [-> Hr]; [lia..|]. destruct (IH f after) as [_ _]; [lia..|].
    destruct (IH g after) as [E Hr']; [lia..|]. rewrite E in Hr'. destruct (parse_file_hunks g after) as [hs a].
    split; [done|]. cbn in *. lia.
  - destruct (IH g rest) as [-> Hr]; [lia..|]. split; [done|].
    destruct (IH g rest) as [E Hr']; [lia..|]. rewrite E in Hr'. lia.
Qed.

Lemma parse_patch_go_fuel f g ls : length ls < f → length ls < g → parse_patch_go f ls = parse_patch_go g ls.
Proof.
  revert g ls. induction f as [|f IH]; intros g ls Hf Hg; [lia|]. destruct g as [|g]; [lia|].
  cbn [parse_patch_go]. destruct ls as [|line rest]; [done|]. cbn [length] in *.
  destruct (starts_with "---" line); [|apply IH; lia]. cbv zeta. destruct rest as [|next body]; [done|]. cbn [length] in *.
  destruct (starts_with "+++" next); [|apply IH; cbn; lia].
  destruct (parse_file_hunks_fuel (S (length body)) (S (length body)) body) as [_ Hr]; [lia..|].
  destruct (parse_file_hunks (S (length body)) body) as [hunks after]. cbn [snd] in Hr. f_equal. apply IH; lia.
Qed.

(** ** Line numbers of the old file *)

Definition hunk_start (h : Hunk) : nat := N.to_nat (hk_old_start h - 1).

(** A hunk as a replacement of lines of the old file. *)
Definition as_replacement (h : Hunk) : Replacement := (hunk_start h, length (hk_old_lines h), hk_new_lines h).

(** Hunks that come in order and without overlap are applied all at once: going from the last to the
    first keeps the line numbers of the hunks before, so every hunk replaces the lines of the old file its
    header names, and the tool does not panic. *)
Theorem ordered_hunks_apply_at_once ls hunks :
  placed 0 (map as_replacement hunks) (length ls) →
  apply_file_hunks ls hunks = Some (splice 0 ls (map as_replacement hunks)).
Proof.
  enough (∀ from, placed from (map as_replacement hunks) (length ls) →
    apply_file_hunks ls hunks = Some (take from ls ++ splice from ls (map as_replacement hunks))) as H by apply (H 0).
  induction hunks as [|h hunks IH]; intros from H; cbn [map apply_file_hunks splice placed as_replacement] in *.
  { by rewrite take_drop. }
  destruct H as [Hf H]. rewrite (IH _ H). pose proof (placed_le _ _ _ H) as Hle. cbv zeta. fold (hunk_start h).
  set (st := hunk_start h) in *. set (len := length (hk_old_lines h)) in *. set (tail := splice _ ls _).
  assert (length (take (st + len) ls) = st + len) as Hl by (rewrite length_take; lia).
  assert (min (st + len) (length (take (st + len) ls ++ tail)) = st + len) as -> by (rewrite length_app; lia).
  unfold splice_lines. rewrite (proj2 (Nat.leb_le _ _)) by lia. rewrite (proj2 (Nat.leb_le _ _)) by (rewrite length_app; lia).
  cbn [andb]. rewrite drop_app_ge, Hl, Nat.sub_diag, drop_0 by lia.
  rewrite take_app_le, take_take, Nat.min_l by lia.
  by rewrite (app_assoc (take from ls)), (take_take_drop ls from st).
Qed.

Lemma ordered_hunks_apply_at_once_witness :
  apply_file_hunks ["a"; "b"; "c"; "d"] [MkHunk 1 ["a"] ["A"; "A2"]; MkHunk 4 ["d"] []] = Some ["A"; "A2"; "b"; "c"].
Proof.
  rewrite (ordered_hunks_apply_at_once ["a"; "b"; "c"; "d"] [MkHunk 1 ["a"] ["A"; "A2"]; MkHunk 4 ["d"] []]).
  - vm_compute. reflexivity.
  - vm_compute. lia.
Defined.

(** The lines that are taken out are not compared with the hunk's. *)
Example old_lines_ignored : apply_file_hunks ["keep"; "me"] [MkHunk 1 ["something else"] ["new"]] = Some ["new"; "me"].
Proof. reflexivity. Qed.

(** A hunk that starts past the end of the file is a panic. *)
Example hunk_past_the_end : apply_file_hunks ["a"] [MkHunk 5 ["x"] ["y"]] = None.
Proof. reflexivity. Qed.

(** A removed line that begins with two dashes ends its hunk, and an empty context line is dropped. *)
Example dashes_end_a_hunk :
  map fp_hunks (parse_patch (String.concat nl ["--- a/f"; "+++ b/f"; "@@ -1,3 +1,2 @@"; " x"; "--- y"; " z"]))
  = [[MkHunk 1 ["x"] ["x"]]]
  ∧ map fp_hunks (parse_patch (String.concat nl ["--- a/f"; "+++ b/f"; "@@ -1,3 +1,3 @@"; " x"; ""; "-z"; "+Z"]))
  = [[MkHunk 1 ["x"; "z"] ["x"; "Z"]]].
Proof. split; by vm_compute. Qed.

(** Unlike [apply_patch], this tool deletes a protected path. *)
Example protected_path_deleted :
  match patch_execute (λ _ _, []) (λ _ _ w, (w, None)) (λ _ _, None) (λ _, false) (λ _ w, (w, None))
    (String.concat nl ["--- a//home/me/.ssh/id"; "+++ /dev/null"]) (in_session "s")
    (MkFileState {[ "/home/me/.ssh/id" := "KEY" +:+ nl ]} [] []) with
  | Some (s, _) => fst_world s !! "/home/me/.ssh/id" = None
  | None => False
  end
  ∧ is_catastrophic_target "/home/me/.ssh/id" (from_env None (Some "/home/me")) = true.
Proof. split; by vm_compute. Qed.
