(* ===== verification/CompactionText.v ===== *)
(** * The texts of compaction (crates/arterm-compaction-core/src/lib.rs, arterm-embedding/src/lib.rs,
      arterm-provider-openai/src/request.rs)

    What a hard compaction leaves in place of the messages it drops, the prompt of a summary, the
    excerpts that are embedded, and the similarity of embeddings on [f32].  Which characters outside
    ASCII are alphanumeric is a parameter. *)

From S2P Require Export Compaction Floats.

(** ** Prompts *)

Definition SUMMARY_PROMPT : string := String.concat nl
  ["Summarize our conversation so you can continue this work later."; "";
   "Write in natural language with these sections:";
   "- **Context:** What we're working on and why (1-2 sentences)";
   "- **What we did:** Key actions taken, files changed, problems solved";
   "- **Current state:** What works, what's broken, what's next";
   "- **User preferences:** Specific requirements or decisions they made"; "";
   "Be concise but preserve important details. You can search the full conversation later if you need exact error messages or code snippets."].

Section prompt.
Context {Json Time : Type} (json_to_string : Json → string).
Notation Msg := (Message Json Time).

Definition build_compaction_prompt (messages : list Msg) (existing_summary : option Summary) (max_prompt_chars : nat)
    : string :=
  let conversation_text := build_compaction_conversation_text json_to_string messages existing_summary in
  let overhead := String.length SUMMARY_PROMPT + 50 in
  let conversation_text :=
    if (max_prompt_chars <? String.length conversation_text + overhead) && (overhead <? max_prompt_chars)
    then truncate_str_boundary conversation_text (max_prompt_chars - overhead)
         +:+ nl +:+ nl +:+ "... [earlier conversation truncated to fit context window]" +:+ nl
    else conversation_text in
  conversation_text +:+ nl +:+ nl +:+ "---" +:+ nl +:+ nl +:+ SUMMARY_PROMPT.

(** ** Excerpts *)

Definition push_semantic_excerpt (target source : string) (max_chars : nat) : string :=
  if is_empty source then target
  else target +:+ (if is_empty target then "" else " ") +:+ String.concat "" (take max_chars (chars source)).

Definition goal_block (text : string) (b : ContentBlock Json) : string :=
  match b with
  | Text block_text _ => push_semantic_excerpt text block_text 200
  | ToolResult _ content _ => push_semantic_excerpt text content 100
  | _ => text
  end.

Definition semantic_goal_text (messages : list Msg) : string :=
  foldl (λ text m, foldl goal_block text (m_content m)) "" messages.

Definition EMBED_MAX_CHARS_PER_MSG : nat := 512.

Definition semantic_message_text (m : Msg) : string :=
  foldl (λ text b, match b with Text t _ => push_semantic_excerpt text t EMBED_MAX_CHARS_PER_MSG | _ => text end)
    "" (m_content m).

(** ** What was dropped *)

Section emergency.
Context (wide_alphanumeric : string → bool).

Definition looks_like_file_reference (word : string) : bool :=
  (contains "/" word || contains "." word) && (3 <? String.length word) && (String.length word <? 120)
  && negb (starts_with "http" word)
  && (contains ".rs" word || contains ".ts" word || contains ".py" word || contains ".toml" word
      || contains ".json" word || starts_with "src/" word || starts_with "./" word).

(** The characters [trim_matches] takes off. *)
Definition trimmed_char (w : string) : bool :=
  negb (is_alphanumeric wide_alphanumeric w) && negb (one_of ["/"; "."; "_"; "-"] w).

Fixpoint drop_chars (f : string → bool) (ws : list string) : list string :=
  match ws with [] => [] | w :: ws' => if f w then drop_chars f ws' else ws end.

Definition clean_file_reference (word : string) : string :=
  String.concat "" (reverse (drop_chars trimmed_char (reverse (drop_chars trimmed_char (chars word))))).

Definition extract_file_mentions (text : string) (file_mentions : list string) : list string :=
  foldl (λ acc word,
           if looks_like_file_reference word then
             let cleaned := clean_file_reference word in
             if is_empty cleaned then acc else acc ++ [cleaned]
           else acc) file_mentions (split_whitespace text).

Definition hint_block (acc : gset string * list string) (b : ContentBlock Json) : gset string * list string :=
  match b with
  | ToolUse _ name _ _ => ({[name]} ∪ acc.1, acc.2)
  | Text text _ => (acc.1, extract_file_mentions text acc.2)
  | _ => acc
  end.

Definition collect_emergency_summary_hints (acc : gset string * list string) (m : Msg) : gset string * list string :=
  foldl hint_block acc (m_content m).

(** [Vec::dedup]: equal neighbours become one. *)
Fixpoint dedup (l : list string) : list string :=
  match l with
  | x :: (y :: _) as l' => if String.eqb x y then dedup l' else x :: dedup l'
  | _ => l
  end.

Definition build_emergency_summary_text (existing_summary : option string) (dropped_count : nat) (pre_tokens : N)
    (token_budget : N) (dropped_messages : list Msg) : string :=
  let '(tool_names, file_mentions) := foldl collect_emergency_summary_hints (∅, []) dropped_messages in
  let file_mentions := dedup (sort_strings file_mentions) in
  String.concat (nl +:+ nl)
    (match existing_summary with Some existing => if is_empty existing then [] else [existing] | None => [] end
     ++ ["**[Emergency compaction]**: " +:+ show_nat dropped_count
         +:+ " messages were dropped to recover from context overflow. The conversation had ~"
         +:+ show_N (pre_tokens / 1000) +:+ "k tokens which exceeded the " +:+ show_N (token_budget / 1000) +:+ "k limit."]
     ++ (if bool_decide (tool_names = ∅) then []
         else ["Tools used: " +:+ String.concat ", " (sort_strings (elements tool_names))])
     ++ (if is_nil file_mentions then []
         else ["Files referenced: " +:+ String.concat ", " (take 30 file_mentions)])).
End emergency.
End prompt.

(** ** Embeddings *)

(** One vector added into the first [dim] places of the sum. *)
Fixpoint add_into (mean emb : list spec_float) : list spec_float :=
  match mean, emb with
  | m :: mean, v :: emb => f32_add m v :: add_into mean emb
  | _, _ => mean
  end.

Definition mean_embedding (embeddings : list (list spec_float)) (dim : nat) : list spec_float :=
  let sum := foldl add_into (repeat (S754_zero false) dim) embeddings in
  let n := f32_of (N.of_nat (max 1 (length embeddings))) in
  let mean := map (λ v, f32_div v n) sum in
  let norm := f32_sqrt (f32_sum (map (λ x, f32_mul x x) mean)) in
  if SFltb (S754_zero false) norm then map (λ v, f32_div v norm) mean else mean.

Definition cosine_similarity (a b : list spec_float) : spec_float :=
  if negb (length a =? length b) || is_nil a then S754_zero false
  else
    let dot := f32_sum (zip_with f32_mul a b) in
    let norm_a := f32_sqrt (f32_sum (map (λ x, f32_mul x x) a)) in
    let norm_b := f32_sqrt (f32_sum (map (λ x, f32_mul x x) b)) in
    if SFeqb norm_a (S754_zero false) || SFeqb norm_b (S754_zero false) then S754_zero false
    else f32_div dot (f32_mul norm_a norm_b).

(** ** Provider-native compaction of OpenAI *)

Definition OPENAI_ENCRYPTED_CONTENT_PROVIDER_MAX_CHARS : N := 10485760.
Definition OPENAI_ENCRYPTED_CONTENT_SAFE_MAX_CHARS : N := 9500000.

Definition openai_encrypted_content_is_sendable (encrypted_content : string) : bool :=
  (N.of_nat (String.length encrypted_content) <=? OPENAI_ENCRYPTED_CONTENT_SAFE_MAX_CHARS)%N.

Definition openai_encrypted_content_fallback_summary (encrypted_content_len : nat) : string :=
  "OpenAI native compaction state was discarded because its encrypted payload was "
  +:+ show_nat encrypted_content_len +:+ " chars, above Arterm's safe replay limit of "
  +:+ show_N OPENAI_ENCRYPTED_CONTENT_SAFE_MAX_CHARS +:+ " chars (provider hard limit: "
  +:+ show_N OPENAI_ENCRYPTED_CONTENT_PROVIDER_MAX_CHARS
  +:+ " chars). Earlier compacted details may be unavailable; use the recent visible messages and session search/tools if exact prior details are needed.".

Definition is_openai_encrypted_content_too_large_error (error : string) : bool :=
  let lower := to_ascii_lowercase error in
  contains "encrypted_content" lower
  && (contains "string_above_max_length" lower || contains "string too long" lower || contains "maximum length" lower
      || contains "large_string_param" lower || contains "largestringparam" lower).
