(* ===== verification/CompactionManager.v ===== *)
(** * The compaction manager (crates/arterm-base/src/compaction.rs)

    The manager does not own the conversation: its callers pass the whole list of messages, and the
    manager remembers how many from the front a summary stands for.  A background task summarizes
    messages while the conversation goes on; its result is applied when it is polled, and a hard
    compaction drops messages at once and discards the task.  A task that runs keeps the messages it was
    given and the provider that will answer; [end_task] is the step in which it ends.  What a provider
    answers, how long that takes and what text embeds to are parameters.  Bodies that index a slice out
    of range panic: they return [option], and [None] is the panic.  Lengths are unbounded. *)

From S2P Require Export CompactionText.

(** ** Configuration *)

Inductive CompactionMode := Reactive | Proactive | Semantic.

#[export] Instance CompactionMode_eq_dec : EqDecision CompactionMode.
Proof. solve_decision. Defined.

(** [CompactionMode::as_str] *)
Definition mode_str (m : CompactionMode) : string :=
  match m with Reactive => "reactive" | Proactive => "proactive" | Semantic => "semantic" end.

(** [CompactionMode::parse] *)
Definition mode_parse (input : string) : option CompactionMode :=
  let word := to_ascii_lowercase (trim input) in
  if String.eqb word "reactive" then Some Reactive
  else if String.eqb word "proactive" then Some Proactive
  else if String.eqb word "semantic" then Some Semantic
  else None.

Record CompactionConfig := MkCompactionConfig {
  cc_mode : CompactionMode;
  cc_lookahead_turns : nat;
  cc_ewma_alpha : spec_float;
  cc_proactive_floor : spec_float;
  cc_min_samples : nat;
  cc_stall_window : nat;
  cc_min_turns_between_compactions : nat;
  cc_topic_shift_threshold : spec_float;
  cc_relevance_keep_threshold : spec_float;
  cc_goal_window_turns : nat;
}.

(** [CompactionConfig::default] *)
Definition default_compaction_config : CompactionConfig :=
  MkCompactionConfig Reactive 15 (f32_ratio 30 100) (f32_ratio 40 100) 3 5 10 (f32_ratio 45 100) (f32_ratio 65 100) 5.

Definition COMPACTION_THRESHOLD : spec_float := f32_ratio 80 100.
Definition CRITICAL_THRESHOLD : spec_float := f32_ratio 95 100.
Definition MANUAL_COMPACT_MIN_THRESHOLD : spec_float := f32_ratio 10 100.
Definition RECENT_TURNS_TO_KEEP : nat := 10.
Definition MIN_TURNS_TO_KEEP : nat := 2.
Definition EMERGENCY_TOOL_RESULT_MAX_CHARS : nat := 4000.
Definition EMERGENCY_IMAGE_MAX_CHARS : nat := 1024.
Definition TOKEN_HISTORY_WINDOW : nat := 20.
Definition EMBEDDING_HISTORY_WINDOW : nat := 10.
Definition SEMANTIC_EMBED_CACHE_CAPACITY : nat := 256.

(** ** The estimate of the active messages *)

Record ActiveCharEstimate := MkEstimate { ae_chars : nat; ae_dirty : bool }.

Definition invalidate (e : ActiveCharEstimate) : ActiveCharEstimate := MkEstimate (ae_chars e) true.
Definition set_exact (chars : nat) : ActiveCharEstimate := MkEstimate chars false.
Definition append_exact (chars : nat) (e : ActiveCharEstimate) : ActiveCharEstimate :=
  MkEstimate (ae_chars e + chars) false.
Definition reset_pending (maybe_has_active : bool) : ActiveCharEstimate := MkEstimate 0 maybe_has_active.

(** ** Data *)

Record CompactionEvent := MkEvent {
  ce_trigger : string;
  ce_pre_tokens : option N;
  ce_post_tokens : option N;
  ce_tokens_saved : option N;
  ce_duration_ms : option N;
  ce_messages_dropped : option nat;
  ce_messages_compacted : option nat;
  ce_summary_chars : option nat;
  ce_active_messages : option nat;
}.

Inductive CompactionAction :=
  | Action_None
  | Action_BackgroundStarted (trigger : string)
  | Action_HardCompacted (dropped : nat).

Record StoredCompactionState := MkStored {
  sc_summary_text : string;
  sc_openai_encrypted_content : option string;
  sc_covers_up_to_turn : nat;
  sc_original_turn_count : nat;
  sc_compacted_count : nat;
}.

Record CompactionStats := MkStats {
  st_total_turns : nat;
  st_active_messages : nat;
  st_has_summary : bool;
  st_is_compacting : bool;
  st_token_estimate : N;
  st_effective_tokens : N;
  st_observed_input_tokens : option N;
  st_context_usage : spec_float;
}.

Record CompactionResult := MkResult {
  cr_summary_text : string;
  cr_openai_encrypted_content : option string;
  cr_covers_up_to_turn : nat;
  cr_duration_ms : N;
  cr_summarized_messages : nat;
}.

Record EmergencyRecovery := MkRecovery {
  er_pre_usage : spec_float;
  er_dropped : option nat;
  er_truncated : nat;
}.

(** [EmergencyRecovery::did_anything] *)
Definition did_anything (r : EmergencyRecovery) : bool :=
  (0 <? default 0 (er_dropped r)) || (0 <? er_truncated r).

(** ** OpenAI's native state *)

(** The replacement of an encrypted state that is too large to send again. *)
Definition without_native_state (s : Summary) (encrypted_content_len : nat) : Summary :=
  let fallback := openai_encrypted_content_fallback_summary encrypted_content_len in
  let text :=
    if is_empty (trim (sm_text s)) then fallback
    else if negb (contains "OpenAI native compaction state was discarded" (sm_text s))
    then sm_text s +:+ nl +:+ nl +:+ fallback
    else sm_text s in
  {| sm_text := text; sm_openai_encrypted_content := None;
     sm_covers_up_to_turn := sm_covers_up_to_turn s; sm_original_turn_count := sm_original_turn_count s |}.

(** The new summary, if the old one has an encrypted state that cannot be sent. *)
Definition oversized_replaced (s : Summary) : option Summary :=
  match sm_openai_encrypted_content s with
  | Some encrypted_content =>
      if openai_encrypted_content_is_sendable encrypted_content then None
      else Some (without_native_state s (String.length encrypted_content))
  | None => None
  end.

Section manager.
Context {Json Time : Type} (json_to_string : Json → string).
Notation Msg := (Message Json Time).

(** ** What a provider is asked *)

Record NativeCompaction := MkNative {
  nc_summary_text : option string;
  nc_openai_encrypted_content : option string;
}.

(** [native_compact] ([None] is an error), [complete_simple] and [context_window] of a provider. *)
Record Provider := MkProvider {
  native_compact : list Msg → option string → option string → option NativeCompaction;
  complete_simple : string → string → result string string;
  context_window : nat;
}.

(** [generate_compaction_artifact], ended after [duration_ms]. *)
Definition generate_compaction_artifact (provider : Provider) (messages : list Msg) (existing_summary : option Summary)
    (duration_ms : N) : result CompactionResult string :=
  let existing_summary :=
    match existing_summary with
    | Some s => Some (default s (oversized_replaced s))
    | None => None
    end in
  let native :=
    match native_compact provider messages (sm_text <$> existing_summary)
            (existing_summary ≫= sm_openai_encrypted_content) with
    | Some native =>
        if match nc_openai_encrypted_content native with
           | Some e => negb (openai_encrypted_content_is_sendable e)
           | None => false
           end then None
        else Some native
    | None => None
    end in
  match native with
  | Some native =>
      Ok (MkResult (default "" (nc_summary_text native)) (nc_openai_encrypted_content native)
            (length messages) duration_ms (length messages))
  | None =>
      let max_prompt_chars := (context_window provider - 4000) * CHARS_PER_TOKEN in
      let prompt := build_compaction_prompt json_to_string messages existing_summary max_prompt_chars in
      let? summary := complete_simple provider prompt "You are a helpful assistant that summarizes conversations." in
      Ok (MkResult summary None (length messages) duration_ms (length messages))
  end.

(** A background task: what it was started with, or how it ended ([None] is a panic). *)
Inductive Task :=
  | Task_Running (provider : Provider) (messages : list Msg) (existing_summary : option Summary)
  | Task_Ended (outcome : option (result CompactionResult string)).

Inductive Ending := Ends_after (duration_ms : N) | Ends_in_panic.

(** A task that runs ends; [duration_ms] and [summarized_messages] are written by the closure. *)
Definition end_task (t : Task) (e : Ending) : Task :=
  match t, e with
  | Task_Running provider messages existing_summary, Ends_after duration_ms =>
      Task_Ended (Some (match generate_compaction_artifact provider messages existing_summary duration_ms with
                        | Ok r => Ok (MkResult (cr_summary_text r) (cr_openai_encrypted_content r)
                                        (cr_covers_up_to_turn r) duration_ms (length messages))
                        | Err e => Err e
                        end))
  | Task_Running _ _ _, Ends_in_panic => Task_Ended None
  | Task_Ended _, _ => t
  end.

(** [JoinHandle::is_finished] *)
Definition is_finished (t : Task) : bool := match t with Task_Running _ _ _ => false | Task_Ended _ => true end.

(** ** The state *)

Record Manager := MkManager {
  cm_compacted_count : nat;
  cm_active_summary : option Summary;
  cm_active_chars : ActiveCharEstimate;
  cm_pending_task : option Task;
  cm_pending_trigger : option string;
  cm_pending_cutoff : nat;
  cm_total_turns : nat;
  cm_suppress_compaction : bool;
  cm_token_budget : N;
  cm_observed_input_tokens : option N;
  cm_last_compaction : option CompactionEvent;
  cm_mode : CompactionMode;
  cm_compaction_config : CompactionConfig;
  cm_token_history : list N;
  cm_turns_since_last_compact : nat;
  cm_embedding_history : list (list spec_float);
  cm_semantic_embed_cache : gmap N (option (list spec_float) * N);
  cm_semantic_embed_cache_counter : N;
}.

(** Assignments to one field. *)
Definition set_compacted_count (v : nat) (m : Manager) : Manager :=
  MkManager v (cm_active_summary m) (cm_active_chars m) (cm_pending_task m) (cm_pending_trigger m)
    (cm_pending_cutoff m) (cm_total_turns m) (cm_suppress_compaction m) (cm_token_budget m)
    (cm_observed_input_tokens m) (cm_last_compaction m) (cm_mode m) (cm_compaction_config m)
    (cm_token_history m) (cm_turns_since_last_compact m) (cm_embedding_history m) (cm_semantic_embed_cache m)
    (cm_semantic_embed_cache_counter m).
Definition set_active_summary (v : option Summary) (m : Manager) : Manager :=
  MkManager (cm_compacted_count m) v (cm_active_chars m) (cm_pending_task m) (cm_pending_trigger m)
    (cm_pending_cutoff m) (cm_total_turns m) (cm_suppress_compaction m) (cm_token_budget m)
    (cm_observed_input_tokens m) (cm_last_compaction m) (cm_mode m) (cm_compaction_config m)
    (cm_token_history m) (cm_turns_since_last_compact m) (cm_embedding_history m) (cm_semantic_embed_cache m)
    (cm_semantic_embed_cache_counter m).
Definition set_active_chars (v : ActiveCharEstimate) (m : Manager) : Manager :=
  MkManager (cm_compacted_count m) (cm_active_summary m) v (cm_pending_task m) (cm_pending_trigger m)
    (cm_pending_cutoff m) (cm_total_turns m) (cm_suppress_compaction m) (cm_token_budget m)
    (cm_observed_input_tokens m) (cm_last_compaction m) (cm_mode m) (cm_compaction_config m)
    (cm_token_history m) (cm_turns_since_last_compact m) (cm_embedding_history m) (cm_semantic_embed_cache m)
    (cm_semantic_embed_cache_counter m).
Definition set_pending_task (v : option Task) (m : Manager) : Manager :=
  MkManager (cm_compacted_count m) (cm_active_summary m) (cm_active_chars m) v (cm_pending_trigger m)
    (cm_pending_cutoff m) (cm_total_turns m) (cm_suppress_compaction m) (cm_token_budget m)
    (cm_observed_input_tokens m) (cm_last_compaction m) (cm_mode m) (cm_compaction_config m)
    (cm_token_history m) (cm_turns_since_last_compact m) (cm_embedding_history m) (cm_semantic_embed_cache m)
    (cm_semantic_embed_cache_counter m).
Definition set_pending_trigger (v : option string) (m : Manager) : Manager :=
  MkManager (cm_compacted_count m) (cm_active_summary m) (cm_active_chars m) (cm_pending_task m) v
    (cm_pending_cutoff m) (cm_total_turns m) (cm_suppress_compaction m) (cm_token_budget m)
    (cm_observed_input_tokens m) (cm_last_compaction m) (cm_mode m) (cm_compaction_config m)
    (cm_token_history m) (cm_turns_since_last_compact m) (cm_embedding_history m) (cm_semantic_embed_cache m)
    (cm_semantic_embed_cache_counter m).
Definition set_pending_cutoff (v : nat) (m : Manager) : Manager :=
  MkManager (cm_compacted_count m) (cm_active_summary m) (cm_active_chars m) (cm_pending_task m)
    (cm_pending_trigger m) v (cm_total_turns m) (cm_suppress_compaction m) (cm_token_budget m)
    (cm_observed_input_tokens m) (cm_last_compaction m) (cm_mode m) (cm_compaction_config m)
    (cm_token_history m) (cm_turns_since_last_compact m) (cm_embedding_history m) (cm_semantic_embed_cache m)
    (cm_semantic_embed_cache_counter m).
Definition set_total_turns (v : nat) (m : Manager) : Manager :=
  MkManager (cm_compacted_count m) (cm_active_summary m) (cm_active_chars m) (cm_pending_task m)
    (cm_pending_trigger m) (cm_pending_cutoff m) v (cm_suppress_compaction m) (cm_token_budget m)
    (cm_observed_input_tokens m) (cm_last_compaction m) (cm_mode m) (cm_compaction_config m)
    (cm_token_history m) (cm_turns_since_last_compact m) (cm_embedding_history m) (cm_semantic_embed_cache m)
    (cm_semantic_embed_cache_counter m).
Definition set_suppress_compaction (v : bool) (m : Manager) : Manager :=
  MkManager (cm_compacted_count m) (cm_active_summary m) (cm_active_chars m) (cm_pending_task m)
    (cm_pending_trigger m) (cm_pending_cutoff m) (cm_total_turns m) v (cm_token_budget m)
    (cm_observed_input_tokens m) (cm_last_compaction m) (cm_mode m) (cm_compaction_config m)
    (cm_token_history m) (cm_turns_since_last_compact m) (cm_embedding_history m) (cm_semantic_embed_cache m)
    (cm_semantic_embed_cache_counter m).
Definition set_token_budget (v : N) (m : Manager) : Manager :=
  MkManager (cm_compacted_count m) (cm_active_summary m) (cm_active_chars m) (cm_pending_task m)
    (cm_pending_trigger m) (cm_pending_cutoff m) (cm_total_turns m) (cm_suppress_compaction m) v
    (cm_observed_input_tokens m) (cm_last_compaction m) (cm_mode m) (cm_compaction_config m)
    (cm_token_history m) (cm_turns_since_last_compact m) (cm_embedding_history m) (cm_semantic_embed_cache m)
    (cm_semantic_embed_cache_counter m).
Definition set_observed_input_tokens (v : option N) (m : Manager) : Manager :=
  MkManager (cm_compacted_count m) (cm_active_summary m) (cm_active_chars m) (cm_pending_task m)
    (cm_pending_trigger m) (cm_pending_cutoff m) (cm_total_turns m) (cm_suppress_compaction m)
    (cm_token_budget m) v (cm_last_compaction m) (cm_mode m) (cm_compaction_config m) (cm_token_history m)
    (cm_turns_since_last_compact m) (cm_embedding_history m) (cm_semantic_embed_cache m)
    (cm_semantic_embed_cache_counter m).
Definition set_last_compaction (v : option CompactionEvent) (m : Manager) : Manager :=
  MkManager (cm_compacted_count m) (cm_active_summary m) (cm_active_chars m) (cm_pending_task m)
    (cm_pending_trigger m) (cm_pending_cutoff m) (cm_total_turns m) (cm_suppress_compaction m)
    (cm_token_budget m) (cm_observed_input_tokens m) v (cm_mode m) (cm_compaction_config m) (cm_token_history m)
    (cm_turns_since_last_compact m) (cm_embedding_history m) (cm_semantic_embed_cache m)
    (cm_semantic_embed_cache_counter m).
Definition set_mode (v : CompactionMode) (m : Manager) : Manager :=
  MkManager (cm_compacted_count m) (cm_active_summary m) (cm_active_chars m) (cm_pending_task m)
    (cm_pending_trigger m) (cm_pending_cutoff m) (cm_total_turns m) (cm_suppress_compaction m)
    (cm_token_budget m) (cm_observed_input_tokens m) (cm_last_compaction m) v (cm_compaction_config m)
    (cm_token_history m) (cm_turns_since_last_compact m) (cm_embedding_history m) (cm_semantic_embed_cache m)
    (cm_semantic_embed_cache_counter m).
Definition set_compaction_config (v : CompactionConfig) (m : Manager) : Manager :=
  MkManager (cm_compacted_count m) (cm_active_summary m) (cm_active_chars m) (cm_pending_task m)
    (cm_pending_trigger m) (cm_pending_cutoff m) (cm_total_turns m) (cm_suppress_compaction m)
    (cm_token_budget m) (cm_observed_input_tokens m) (cm_last_compaction m) (cm_mode m) v (cm_token_history m)
    (cm_turns_since_last_compact m) (cm_embedding_history m) (cm_semantic_embed_cache m)
    (cm_semantic_embed_cache_counter m).
Definition set_token_history (v : list N) (m : Manager) : Manager :=
  MkManager (cm_compacted_count m) (cm_active_summary m) (cm_active_chars m) (cm_pending_task m)
    (cm_pending_trigger m) (cm_pending_cutoff m) (cm_total_turns m) (cm_suppress_compaction m)
    (cm_token_budget m) (cm_observed_input_tokens m) (cm_last_compaction m) (cm_mode m) (cm_compaction_config m)
    v (cm_turns_since_last_compact m) (cm_embedding_history m) (cm_semantic_embed_cache m)
    (cm_semantic_embed_cache_counter m).
Definition set_turns_since_last_compact (v : nat) (m : Manager) : Manager :=
  MkManager (cm_compacted_count m) (cm_active_summary m) (cm_active_chars m) (cm_pending_task m)
    (cm_pending_trigger m) (cm_pending_cutoff m) (cm_total_turns m) (cm_suppress_compaction m)
    (cm_token_budget m) (cm_observed_input_tokens m) (cm_last_compaction m) (cm_mode m) (cm_compaction_config m)
    (cm_token_history m) v (cm_embedding_history m) (cm_semantic_embed_cache m)
    (cm_semantic_embed_cache_counter m).
Definition set_embedding_history (v : list (list spec_float)) (m : Manager) : Manager :=
  MkManager (cm_compacted_count m) (cm_active_summary m) (cm_active_chars m) (cm_pending_task m)
    (cm_pending_trigger m) (cm_pending_cutoff m) (cm_total_turns m) (cm_suppress_compaction m)
    (cm_token_budget m) (cm_observed_input_tokens m) (cm_last_compaction m) (cm_mode m) (cm_compaction_config m)
    (cm_token_history m) (cm_turns_since_last_compact m) v (cm_semantic_embed_cache m)
    (cm_semantic_embed_cache_counter m).
Definition set_semantic_embed_cache (v : gmap N (option (list spec_float) * N)) (m : Manager) : Manager :=
  MkManager (cm_compacted_count m) (cm_active_summary m) (cm_active_chars m) (cm_pending_task m)
    (cm_pending_trigger m) (cm_pending_cutoff m) (cm_total_turns m) (cm_suppress_compaction m)
    (cm_token_budget m) (cm_observed_input_tokens m) (cm_last_compaction m) (cm_mode m) (cm_compaction_config m)
    (cm_token_history m) (cm_turns_since_last_compact m) (cm_embedding_history m) v
    (cm_semantic_embed_cache_counter m).
Definition set_semantic_embed_cache_counter (v : N) (m : Manager) : Manager :=
  MkManager (cm_compacted_count m) (cm_active_summary m) (cm_active_chars m) (cm_pending_task m)
    (cm_pending_trigger m) (cm_pending_cutoff m) (cm_total_turns m) (cm_suppress_compaction m)
    (cm_token_budget m) (cm_observed_input_tokens m) (cm_last_compaction m) (cm_mode m) (cm_compaction_config m)
    (cm_token_history m) (cm_turns_since_last_compact m) (cm_embedding_history m) (cm_semantic_embed_cache m) v.

(** [CompactionManager::new] under a configuration *)
Definition manager_new (cfg : CompactionConfig) : Manager :=
  MkManager 0 None (MkEstimate 0 false) None None 0 0 false DEFAULT_TOKEN_BUDGET None None (cc_mode cfg) cfg [] 0 [] ∅ 0.

(** ** Messages come in *)

(** [notify_message_added] *)
Definition notify_message_added (m : Manager) : Manager :=
  set_active_chars (invalidate (cm_active_chars m))
    (set_suppress_compaction false (set_total_turns (cm_total_turns m + 1) m)).

(** [notify_message_added_blocks] *)
Definition notify_message_added_blocks (content : list (ContentBlock Json)) (m : Manager) : Manager :=
  set_active_chars (append_exact (content_char_count json_to_string content) (cm_active_chars m))
    (set_suppress_compaction false (set_total_turns (cm_total_turns m + 1) m)).

(** [notify_message_added_with], [add_message] *)
Definition notify_message_added_with (message : Msg) (m : Manager) : Manager :=
  notify_message_added_blocks (m_content message) m.

(** [seed_restored_messages] *)
Definition seed_restored_messages (count : nat) (m : Manager) : Manager :=
  set_active_chars (reset_pending (0 <? count)) (set_suppress_compaction (0 <? count) (set_total_turns count m)).

(** [seed_restored_messages_with] *)
Definition seed_restored_messages_with (all_messages : list Msg) (m : Manager) : Manager :=
  set_active_chars (set_exact (sum_of (message_char_count json_to_string) all_messages))
    (set_suppress_compaction (negb (is_nil all_messages)) (set_total_turns (length all_messages) m)).

(** [active_messages] *)
Definition active_messages {A} (m : Manager) (all_messages : list A) : list A :=
  drop (min (cm_compacted_count m) (length all_messages)) all_messages.

(** [active_messages_count] *)
Definition active_messages_count (m : Manager) : nat := cm_total_turns m - cm_compacted_count m.

(** [restore_persisted_state] *)
Definition restore_persisted_state (state : StoredCompactionState) (total_messages : nat) (m : Manager) : Manager :=
  let compacted_count := min (sc_compacted_count state) total_messages in
  MkManager compacted_count
    (Some {| sm_text := sc_summary_text state; sm_openai_encrypted_content := sc_openai_encrypted_content state;
             sm_covers_up_to_turn := sc_covers_up_to_turn state; sm_original_turn_count := sc_original_turn_count state |})
    (reset_pending (compacted_count <? total_messages)) None None 0 total_messages (0 <? total_messages)
    (cm_token_budget m) None None (cm_mode m) (cm_compaction_config m) [] 0 [] ∅ 0.

(** [restore_persisted_state_with] *)
Definition restore_persisted_state_with (state : StoredCompactionState) (all_messages : list Msg) (m : Manager) : Manager :=
  let m := restore_persisted_state state (length all_messages) m in
  set_active_chars (set_exact (sum_of (message_char_count json_to_string) (active_messages m all_messages))) m.

(** [persisted_state] *)
Definition persisted_state (m : Manager) : option StoredCompactionState :=
  match cm_active_summary m with
  | Some s => Some (MkStored (sm_text s) (sm_openai_encrypted_content s) (sm_covers_up_to_turn s)
                      (sm_original_turn_count s) (cm_compacted_count m))
  | None => None
  end.

(** [discard_oversized_openai_native_compaction], and whether it discarded something *)
Definition discard_oversized_openai_native_compaction (m : Manager) : Manager * bool :=
  match cm_active_summary m ≫= oversized_replaced with
  | Some s => (set_observed_input_tokens None (set_active_summary (Some s) m), true)
  | None => (m, false)
  end.

(** ** How full the context is *)

(** [clamp_compacted_count_to_messages] *)
Definition clamp_compacted_count_to_messages (all_messages : list Msg) (m : Manager) : Manager * bool :=
  if is_nil all_messages then (m, false)
  else if cm_compacted_count m <=? length all_messages then (m, false)
  else (set_active_chars (set_exact 0) (set_compacted_count (length all_messages) m), true).

(** [active_message_chars_with] *)
Definition active_message_chars_with (m : Manager) (all_messages : list Msg) : nat :=
  if ae_dirty (cm_active_chars m) || negb (active_messages_count m =? length (active_messages m all_messages))
  then sum_of (message_char_count json_to_string) (active_messages m all_messages)
  else ae_chars (cm_active_chars m).

(** [token_estimate_with] *)
Definition token_estimate_with (m : Manager) (all_messages : list Msg) : N :=
  estimate_compaction_tokens (cm_active_summary m) (N.of_nat (active_message_chars_with m all_messages))
    (cm_token_budget m).

(** [token_estimate] *)
Definition token_estimate (m : Manager) : N :=
  estimate_compaction_tokens (cm_active_summary m) 0 (cm_token_budget m).

(** [effective_token_count_with] *)
Definition effective_token_count_with (m : Manager) (all_messages : list Msg) : N :=
  N.max (token_estimate_with m all_messages) (default 0%N (cm_observed_input_tokens m)).

(** [effective_token_count] *)
Definition effective_token_count (m : Manager) : N :=
  N.max (token_estimate m) (default 0%N (cm_observed_input_tokens m)).

(** [context_usage_with] *)
Definition context_usage_with (m : Manager) (all_messages : list Msg) : spec_float :=
  f32_div (f32_of (effective_token_count_with m all_messages)) (f32_of (cm_token_budget m)).

(** [context_usage] *)
Definition context_usage (m : Manager) : spec_float :=
  f32_div (f32_of (effective_token_count m)) (f32_of (cm_token_budget m)).

(** [summary_chars] *)
Definition summary_chars (m : Manager) : nat :=
  match cm_active_summary m with Some s => summary_payload_char_count s | None => 0 end.

Definition is_compacting (m : Manager) : bool := bool_decide (is_Some (cm_pending_task m)).

Definition stats (m : Manager) : CompactionStats :=
  MkStats (cm_total_turns m) 0 (bool_decide (is_Some (cm_active_summary m))) (is_compacting m) (token_estimate m)
    (effective_token_count m) (cm_observed_input_tokens m) (context_usage m).

Definition stats_with (m : Manager) (all_messages : list Msg) : CompactionStats :=
  MkStats (cm_total_turns m) (length (active_messages m all_messages)) (bool_decide (is_Some (cm_active_summary m)))
    (is_compacting m) (token_estimate_with m all_messages) (effective_token_count_with m all_messages)
    (cm_observed_input_tokens m) (context_usage_with m all_messages).

(** [set_mode]: both copies of the mode. *)
Definition change_mode (mode : CompactionMode) (m : Manager) : Manager :=
  let c := cm_compaction_config m in
  set_compaction_config
    (MkCompactionConfig mode (cc_lookahead_turns c) (cc_ewma_alpha c) (cc_proactive_floor c) (cc_min_samples c)
       (cc_stall_window c) (cc_min_turns_between_compactions c) (cc_topic_shift_threshold c)
       (cc_relevance_keep_threshold c) (cc_goal_window_turns c)) (set_mode mode m).

(** A queue that keeps its last [window] entries. *)
Definition push_bounded {A} (window : nat) (x : A) (l : list A) : list A :=
  let l := l ++ [x] in if window <? length l then tail l else l.

Definition push_token_snapshot (tokens : N) (m : Manager) : Manager :=
  set_turns_since_last_compact (cm_turns_since_last_compact m + 1)
    (set_token_history (push_bounded TOKEN_HISTORY_WINDOW tokens (cm_token_history m)) m).

(** ** Embeddings, cached by the hash of the text *)

Section embedding.
(** [crate::embedding::embed], and [semantic_cache_key] (the standard library's hash). *)
Context (embed : string → option (list spec_float)) (semantic_cache_key : string → N).

(** The key whose entry was used longest ago, over the entries in the order of the table. *)
Definition older (a b : N * (option (list spec_float) * N)) : bool := (b.2.2 <? a.2.2)%N.

Fixpoint oldest_entry (best : N * (option (list spec_float) * N)) (l : list (N * (option (list spec_float) * N)))
    : N * (option (list spec_float) * N) :=
  match l with [] => best | x :: l => oldest_entry (if older best x then x else best) l end.

Definition oldest_key (c : gmap N (option (list spec_float) * N)) : option N :=
  match map_to_list c with [] => None | x :: l => Some (oldest_entry x l).1 end.

Definition next_counter (m : Manager) : N := ((cm_semantic_embed_cache_counter m + 1) mod 2 ^ 64)%N.

Definition insert_semantic_embedding_cache (key : N) (embedding : option (list spec_float)) (m : Manager) : Manager :=
  let c := cm_semantic_embed_cache m in
  let c :=
    if SEMANTIC_EMBED_CACHE_CAPACITY <=? size c
    then match oldest_key c with Some k => delete k c | None => c end else c in
  let counter := cm_semantic_embed_cache_counter m in
  set_semantic_embed_cache (<[key := (embedding, counter)]> c) (set_semantic_embed_cache_counter (next_counter m) m).

Definition cached_semantic_embedding (text : string) (m : Manager) : Manager * option (list spec_float) :=
  let key := semantic_cache_key text in
  match cm_semantic_embed_cache m !! key with
  | Some (cached, _) =>
      let counter := cm_semantic_embed_cache_counter m in
      (set_semantic_embed_cache (<[key := (cached, counter)]> (cm_semantic_embed_cache m))
         (set_semantic_embed_cache_counter (next_counter m) m), cached)
  | None =>
      let embedding := embed text in
      (insert_semantic_embedding_cache key embedding m, embedding)
  end.

Definition push_embedding_snapshot (text : string) (m : Manager) : Manager :=
  let snippet := String.concat "" (take EMBED_MAX_CHARS_PER_MSG (chars text)) in
  match cached_semantic_embedding snippet m with
  | (m, Some emb) => set_embedding_history (push_bounded EMBEDDING_HISTORY_WINDOW emb (cm_embedding_history m)) m
  | (m, None) => m
  end.

(** ** When to compact *)

(** The growth of the last [stall_window] snapshots; an empty window is indexed at its last place. *)
Definition growth_stalled (history : list N) (stall_window : nat) : option bool :=
  if stall_window <=? length history then
    let recent := take stall_window (reverse history) in
    match head recent, last recent with
    | Some newest, Some oldest => Some (newest <=? oldest)%N
    | _, _ => None
    end
  else Some false.

Definition anti_signals_block (m : Manager) (all_messages : list Msg) : option bool :=
  let cfg := cm_compaction_config m in
  if is_compacting m then Some true
  else if SFltb (context_usage_with m all_messages) (cc_proactive_floor cfg) then Some true
  else if length (cm_token_history m) <? cc_min_samples cfg then Some true
  else
    let?? stalled := growth_stalled (cm_token_history m) (cc_stall_window cfg) in
    Some (stalled || (cm_turns_since_last_compact m <? cc_min_turns_between_compactions cfg)).

(** The smoothed growth: [l] is the snapshots from [prev] on. *)
Fixpoint ewma (alpha : spec_float) (ewma_delta : spec_float) (prev : N) (l : list N) : spec_float :=
  match l with
  | [] => ewma_delta
  | x :: l =>
      let delta := f64_max0 (f64_sub (f64_of_N x) (f64_of_N prev)) in
      ewma alpha (f64_add (f64_times alpha delta) (f64_times (f64_sub (f64_of_N 1) alpha) ewma_delta)) x l
  end.

Definition should_compact_proactively (m : Manager) (all_messages : list Msg) : option bool :=
  let?? blocked := anti_signals_block m all_messages in
  if blocked : bool then Some false
  else
    let cfg := cm_compaction_config m in
    let threshold := f64_times (f64_of_f32 COMPACTION_THRESHOLD) (f64_of_N (cm_token_budget m)) in
    match cm_token_history m with
    | first :: second :: rest =>
        let ewma_delta := f64_max0 (f64_sub (f64_of_N second) (f64_of_N first)) in
        let ewma_delta := ewma (f64_of_f32 (cc_ewma_alpha cfg)) ewma_delta second rest in
        let current := f64_of_N (default second (last rest)) in
        let projected := f64_add current (f64_times ewma_delta (f64_of_N (N.of_nat (cc_lookahead_turns cfg)))) in
        Some (SFleb threshold projected)
    | _ => Some false
    end.

Definition should_compact_semantic (m : Manager) (all_messages : list Msg) : option bool :=
  let?? blocked := anti_signals_block m all_messages in
  if blocked : bool then Some false
  else
    let history := cm_embedding_history m in
    if length history <? 4 then should_compact_proactively m all_messages
    else
      let half := length history / 2 in
      let old_embeddings := take half history in
      let new_embeddings := drop half history in
      let?? first := head old_embeddings in
      let dim := length first in
      let similarity := cosine_similarity (mean_embedding old_embeddings dim) (mean_embedding new_embeddings dim) in
      if SFltb similarity (cc_topic_shift_threshold (cm_compaction_config m)) then Some true
      else should_compact_proactively m all_messages.

Definition should_compact_with (m : Manager) (all_messages : list Msg) : option bool :=
  if cm_suppress_compaction m then Some false
  else
    let active := active_messages m all_messages in
    match cm_mode m with
    | Reactive =>
        Some (negb (is_compacting m) && SFleb COMPACTION_THRESHOLD (context_usage_with m all_messages)
              && (RECENT_TURNS_TO_KEEP <? length active))
    | Proactive =>
        if RECENT_TURNS_TO_KEEP <? length active then should_compact_proactively m all_messages else Some false
    | Semantic =>
        if RECENT_TURNS_TO_KEEP <? length active then should_compact_semantic m all_messages else Some false
    end.

(** ** Where to cut *)

(** The scan over the messages that could be summarized: how many are close to the goal, and the first. *)
Fixpoint score_messages (goal_emb : list spec_float) (keep : spec_float) (idx : nat) (ms : list Msg)
    (count earliest : nat) (m : Manager) : Manager * nat * nat :=
  match ms with
  | [] => (m, count, earliest)
  | msg :: ms =>
      let text := semantic_message_text msg in
      if is_empty text then score_messages goal_emb keep (S idx) ms count earliest m
      else
        match cached_semantic_embedding text m with
        | (m, Some embedding) =>
            if SFleb keep (cosine_similarity goal_emb embedding)
            then score_messages goal_emb keep (S idx) ms (count + 1) (min earliest idx) m
            else score_messages goal_emb keep (S idx) ms count earliest m
        | (m, None) => score_messages goal_emb keep (S idx) ms count earliest m
        end
  end.

Definition semantic_cutoff (active : list Msg) (m : Manager) : Manager * nat :=
  let cfg := cm_compaction_config m in
  let standard_cutoff := length active - RECENT_TURNS_TO_KEEP in
  if standard_cutoff =? 0 then (m, 0)
  else
    let goal_turns := min (cc_goal_window_turns cfg) (length active) in
    let goal_text := semantic_goal_text (drop (length active - goal_turns) active) in
    if is_empty goal_text then (m, standard_cutoff)
    else
      match cached_semantic_embedding goal_text m with
      | (m, None) => (m, standard_cutoff)
      | (m, Some goal_emb) =>
          let '(m, high_relevance_count, earliest) :=
            score_messages goal_emb (cc_relevance_keep_threshold cfg) 0 (take standard_cutoff active) 0 standard_cutoff m in
          if high_relevance_count =? 0 then (m, standard_cutoff)
          else if earliest <? 2 then (m, standard_cutoff)
          else (m, earliest)
      end.

(** Set the task that summarizes the first [cutoff] active messages. *)
Definition start_task (cutoff : nat) (trigger : string) (provider : Provider) (all_messages : list Msg) (m : Manager)
    : Manager :=
  set_pending_task (Some (Task_Running provider (take cutoff (active_messages m all_messages)) (cm_active_summary m)))
    (set_pending_trigger (Some trigger) (set_pending_cutoff cutoff m)).

Definition maybe_start_compaction_with (all_messages : list Msg) (provider : Provider) (m : Manager) : option Manager :=
  let?? should := should_compact_with m all_messages in
  if negb should then Some m
  else
    let active := active_messages m all_messages in
    let '(m, cutoff) :=
      match cm_mode m with
      | Semantic => semantic_cutoff active m
      | _ => (m, length active - RECENT_TURNS_TO_KEEP)
      end in
    if cutoff =? 0 then Some m
    else
      let cutoff := safe_compaction_cutoff active cutoff in
      if cutoff =? 0 then Some m
      else Some (start_task cutoff (mode_str (cm_mode m)) provider all_messages m).

Definition force_compact_with (all_messages : list Msg) (provider : Provider) (show_percent : spec_float → string)
    (m : Manager) : Manager * result unit string :=
  if is_compacting m then (m, Err "Compaction already in progress")
  else
    let active := active_messages m all_messages in
    if length active <=? RECENT_TURNS_TO_KEEP then
      (m, Err ("Not enough messages to compact (need more than " +:+ show_nat RECENT_TURNS_TO_KEEP +:+ ", have "
               +:+ show_nat (length active) +:+ ")"))
    else if SFltb (context_usage_with m all_messages) MANUAL_COMPACT_MIN_THRESHOLD then
      (m, Err ("Context usage too low (" +:+ show_percent (context_usage_with m all_messages) +:+ "%) - nothing to compact"))
    else
      let cutoff := length active - RECENT_TURNS_TO_KEEP in
      if cutoff =? 0 then (m, Err "No messages available to compact after keeping recent turns")
      else
        let cutoff := safe_compaction_cutoff active cutoff in
        if cutoff =? 0 then (m, Err "Cannot compact - would split tool call/result pairs")
        else (start_task cutoff "manual" provider all_messages m, Ok tt).

(** ** A task that ended is applied *)

Definition no_pending (m : Manager) : Manager :=
  set_pending_task None (set_pending_trigger None (set_pending_cutoff 0 m)).

(** The result of a task that summarized [pending_cutoff] messages. *)
Definition apply_result (r : CompactionResult) (all_messages : list Msg) (m : Manager) : Manager :=
  let cutoff := cm_pending_cutoff m in
  let trigger := default (mode_str (cm_mode m)) (cm_pending_trigger m) in
  let pre_tokens := effective_token_count_with m all_messages in
  let compacted_chars := sum_of (message_char_count json_to_string) (take cutoff (active_messages m all_messages)) in
  let m := set_compacted_count
             (if is_nil all_messages then cm_compacted_count m + cutoff
              else min (cm_compacted_count m + cutoff) (length all_messages)) m in
  let m := set_active_chars (set_exact (active_message_chars_with m all_messages - compacted_chars)) m in
  let m := set_active_summary
             (Some {| sm_text := cr_summary_text r; sm_openai_encrypted_content := cr_openai_encrypted_content r;
                      sm_covers_up_to_turn := cr_covers_up_to_turn r; sm_original_turn_count := cutoff |}) m in
  let m := (discard_oversized_openai_native_compaction m).1 in
  let m := set_observed_input_tokens None m in
  let post_tokens := effective_token_count_with m all_messages in
  let m := set_last_compaction
             (Some (MkEvent trigger (Some pre_tokens) (Some post_tokens) (Some (pre_tokens - post_tokens)%N)
                      (Some (cr_duration_ms r)) None (Some (cr_summarized_messages r))
                      (match cm_active_summary m with Some s => Some (String.length (sm_text s)) | None => None end)
                      (Some (active_messages_count m)))) m in
  no_pending (set_turns_since_last_compact 0 m).

(** [check_and_apply_compaction_with] *)
Definition check_and_apply_compaction_with (all_messages : list Msg) (m : Manager) : Manager :=
  let m := (clamp_compacted_count_to_messages all_messages m).1 in
  match cm_pending_task m with
  | None => m
  | Some (Task_Running _ _ _) => m
  | Some (Task_Ended (Some (Ok r))) =>
      let active_len := length (active_messages m all_messages) in
      if negb (is_nil all_messages) && (active_len - MIN_TURNS_TO_KEEP <? cm_pending_cutoff m)
      then no_pending m
      else apply_result r all_messages m
  | Some (Task_Ended _) => no_pending m
  end.

(** [check_and_apply_compaction] *)
Definition check_and_apply_compaction (m : Manager) : Manager :=
  let m := check_and_apply_compaction_with [] m in set_active_chars (invalidate (cm_active_chars m)) m.

(** [take_compaction_event] *)
Definition take_compaction_event (m : Manager) : Manager * option CompactionEvent :=
  (set_last_compaction None m, cm_last_compaction m).

(** [poll_compaction_event_with] *)
Definition poll_compaction_event_with (all_messages : list Msg) (m : Manager) : Manager * option CompactionEvent :=
  take_compaction_event (check_and_apply_compaction_with all_messages m).

Definition summary_message (s : Summary) : Msg :=
  {| m_role := User;
     m_content := [match sm_openai_encrypted_content s with
                   | Some encrypted_content => OpenAICompaction encrypted_content
                   | None => Text (compacted_summary_text_block (sm_text s)) None
                   end];
     m_timestamp := None; m_tool_duration_ms := None |}.

(** What stands before the active messages in a request. *)
Definition api_view (m : Manager) (all_messages : list Msg) : list Msg :=
  match cm_active_summary m with Some s => [summary_message s] | None => [] end ++ active_messages m all_messages.

(** [messages_for_api_with] *)
Definition messages_for_api_with (all_messages : list Msg) (m : Manager) : Manager * list Msg :=
  let m := check_and_apply_compaction_with all_messages m in
  let m := (discard_oversized_openai_native_compaction m).1 in
  (m, api_view m all_messages).

(** ** Dropping messages at once *)

Section hard.
Context (wide_alphanumeric : string → bool).

(** [remaining_suffix_chars]: the sums of all suffixes. *)
Fixpoint suffix_sums (l : list nat) : list nat :=
  match l with
  | [] => [0]
  | x :: l => let sums := suffix_sums l in (x + default 0 (head sums)) :: sums
  end.

(** The loop over ever fewer kept turns. *)
Fixpoint keep_loop (fuel : nat) (active : list Msg) (sums : list nat) (token_budget : N) (turns_to_keep : nat)
    : option nat :=
  match fuel with
  | 0 => None
  | S fuel =>
      let cutoff := safe_compaction_cutoff active (length active - turns_to_keep) in
      if (0 <? cutoff)
         && N.leb (N.of_nat (default 0 (sums !! cutoff) / CHARS_PER_TOKEN)) token_budget
      then Some cutoff
      else if turns_to_keep <=? MIN_TURNS_TO_KEEP
      then Some (safe_compaction_cutoff active (length active - MIN_TURNS_TO_KEEP))
      else keep_loop fuel active sums token_budget (max (turns_to_keep / 2) MIN_TURNS_TO_KEEP)
  end.

(** [hard_compact_with] *)
Definition hard_compact_with (all_messages : list Msg) (m : Manager) : option (Manager * result nat string) :=
  let m := (clamp_compacted_count_to_messages all_messages m).1 in
  let active := active_messages m all_messages in
  if length active <=? MIN_TURNS_TO_KEEP then
    Some (m, Err ("Not enough messages to compact (have " +:+ show_nat (length active) +:+ ", need more than "
                  +:+ show_nat MIN_TURNS_TO_KEEP +:+ ")"))
  else
    let pre_tokens := effective_token_count_with m all_messages in
    let sums := suffix_sums (map (message_char_count json_to_string) active) in
    let turns_to_keep := min RECENT_TURNS_TO_KEEP (length active - 1) in
    let?? cutoff := keep_loop (S turns_to_keep) active sums (cm_token_budget m) turns_to_keep in
    if cutoff =? 0 then Some (m, Err "Cannot compact — would split tool call/result pairs")
    else
      let m := if is_compacting m then no_pending m else m in
      let summary_text :=
        build_emergency_summary_text wide_alphanumeric (sm_text <$> cm_active_summary m) cutoff pre_tokens
          (cm_token_budget m) (take cutoff active) in
      let m := set_compacted_count (min (cm_compacted_count m + cutoff) (length all_messages)) m in
      let m := set_active_chars (set_exact (default 0 (sums !! cutoff))) m in
      let m := set_active_summary
                 (Some {| sm_text := summary_text; sm_openai_encrypted_content := None;
                          sm_covers_up_to_turn := cutoff; sm_original_turn_count := cutoff |}) m in
      let m := set_observed_input_tokens None m in
      let post_tokens := effective_token_count_with m all_messages in
      let m := set_last_compaction
                 (Some (MkEvent "hard_compact" (Some pre_tokens) (Some post_tokens) (Some (pre_tokens - post_tokens)%N)
                          (Some 0%N) (Some cutoff) (Some cutoff) (Some (String.length summary_text))
                          (Some (active_messages_count m)))) m in
      Some (m, Ok cutoff).

(** [emergency_truncate_with]: the manager, the messages, how many payloads were shortened *)
Definition emergency_truncate_with (all_messages : list Msg) (m : Manager) : Manager * list Msg * nat :=
  let start := min (cm_compacted_count m) (length all_messages) in
  let '(active, truncated) :=
    emergency_truncate_large_payloads (drop start all_messages) EMERGENCY_TOOL_RESULT_MAX_CHARS EMERGENCY_IMAGE_MAX_CHARS in
  let m := if 0 <? truncated
           then set_active_chars (invalidate (cm_active_chars m)) (set_observed_input_tokens None m) else m in
  (m, take start all_messages ++ active, truncated).

Definition recover_within_budget (all_messages : list Msg) (m : Manager)
    : option (Manager * list Msg * EmergencyRecovery) :=
  let pre_usage := context_usage_with m all_messages in
  let?? (m, hard) := hard_compact_with all_messages m in
  let dropped := match hard with Ok n => Some n | Err _ => None end in
  let still_over_budget := SFltb (f32_of 1) (context_usage_with m all_messages) || negb (bool_decide (is_Some dropped)) in
  let '(m, all_messages, truncated) :=
    if still_over_budget then emergency_truncate_with all_messages m else (m, all_messages, 0) in
  Some (m, all_messages, MkRecovery pre_usage dropped truncated).

(** [wait_for_pending_compaction_at_hard_threshold]: [ending] says whether the task ends while the
    caller waits.  Whether it timed out. *)
Definition wait_for_pending (all_messages : list Msg) (ending : option Ending) (m : Manager) : Manager * bool :=
  let task := match cm_pending_task m, ending with
              | Some t, Some e => Some (end_task t e)
              | t, _ => t
              end in
  let m := set_pending_task task m in
  if match task with Some t => is_finished t | None => false end
  then (check_and_apply_compaction_with all_messages m, false)
  else (m, true).

(** The end of [ensure_context_fits]: a background compaction may start. *)
Definition start_in_background (all_messages : list Msg) (provider : Provider) (m : Manager)
    : option (Manager * CompactionAction) :=
  let?? m' := maybe_start_compaction_with all_messages provider m in
  Some (m', if negb (is_compacting m) && is_compacting m'
            then Action_BackgroundStarted (default (mode_str (cm_mode m')) (cm_pending_trigger m'))
            else Action_None).

(** Messages are dropped at once, or what would have been done below the threshold. *)
Definition hard_or_background (all_messages : list Msg) (provider : Provider) (m : Manager)
    : option (Manager * CompactionAction) :=
  let?? (m, hard) := hard_compact_with all_messages m in
  match hard with
  | Ok dropped => Some (m, Action_HardCompacted dropped)
  | Err _ => start_in_background all_messages provider m
  end.

(** [ensure_context_fits] *)
Definition ensure_context_fits (all_messages : list Msg) (provider : Provider) (ending : option Ending) (m : Manager)
    : option (Manager * CompactionAction) :=
  if SFleb CRITICAL_THRESHOLD (context_usage_with m all_messages) then
    if is_compacting m then
      let m := (wait_for_pending all_messages ending m).1 in
      if SFltb (context_usage_with m all_messages) CRITICAL_THRESHOLD
      then start_in_background all_messages provider m
      else hard_or_background all_messages provider m
    else hard_or_background all_messages provider m
  else start_in_background all_messages provider m.
End hard.
End embedding.

(** ** A session is restored *)

(** [Agent::seed_compaction_from_session]: the manager, and the state to store if it was sanitized. *)
Definition seed_compaction_from_session (cfg : CompactionConfig) (budget : N) (state : option StoredCompactionState)
    (all_messages : list Msg) : Manager * option (option StoredCompactionState) :=
  let m := set_token_budget budget (manager_new cfg) in
  let m := match state with
           | Some state => restore_persisted_state_with state all_messages m
           | None => seed_restored_messages_with all_messages m
           end in
  let '(m, discarded) := discard_oversized_openai_native_compaction m in
  (m, if discarded then Some (persisted_state m) else None).

(** ** Handing a conversation over *)

(** [build_transfer_compaction_state] *)
Definition build_transfer_compaction_state (provider : Provider) (messages : list Msg)
    (existing_state : option StoredCompactionState) (duration_ms : N) : result (option StoredCompactionState) string :=
  let existing_summary :=
    (λ s, {| sm_text := sc_summary_text s; sm_openai_encrypted_content := sc_openai_encrypted_content s;
             sm_covers_up_to_turn := sc_covers_up_to_turn s; sm_original_turn_count := sc_original_turn_count s |})
      <$> existing_state in
  if is_nil messages then
    Ok ((λ s, MkStored (sc_summary_text s) (sc_openai_encrypted_content s) (sc_covers_up_to_turn s)
                (sc_original_turn_count s) 0) <$> existing_state)
  else
    let prior_turns :=
      match existing_state with Some s => max (sc_original_turn_count s) (sc_covers_up_to_turn s) | None => 0 end in
    let? r := generate_compaction_artifact provider messages existing_summary duration_ms in
    let total_turns := prior_turns + length messages in
    Ok (Some (MkStored (cr_summary_text r) (cr_openai_encrypted_content r) total_turns total_turns 0)).
End manager.
