(* ===== verification/CompactionManagerTheorems.v ===== *)
(** * The compaction manager keeps the conversation whole

    Theorems about [CompactionManager].  [Op] is what can happen to a manager and its conversation, in
    any order: messages come in, requests are built, compactions start, tasks end, and the session is
    restarted.  [reachable] is closed under all of them. *)

From S2P Require Export CompactionManager.

Section runs.
Context {Json Time : Type} (json_to_string : Json → string).
Context (embed : string → option (list spec_float)) (semantic_cache_key : string → N).
Context (wide_alphanumeric : string → bool) (show_percent : spec_float → string).
Notation Msg := (Message Json Time).
Notation Mgr := (@Manager Json Time).
Implicit Types (m : Mgr) (ms : list Msg).

(** ** What can happen *)

Inductive Op :=
  | Op_Add (msg : Msg)
  | Op_Ensure (provider : @Provider Json Time) (ending : option Ending)
  | Op_Compact (provider : @Provider Json Time)
  | Op_TaskEnds (e : Ending)
  | Op_Request
  | Op_Poll
  | Op_Hard
  | Op_Recover
  | Op_Observe (tokens : N)
  | Op_Budget (tokens : N)
  | Op_Mode (mode : CompactionMode)
  | Op_Snapshot (tokens : N)
  | Op_Embed (text : string)
  | Op_Restart (cfg : CompactionConfig) (budget : N).

Definition run_op (op : Op) (s : Mgr * list Msg) : option (Mgr * list Msg) :=
  let '(m, ms) := s in
  match op with
  | Op_Add msg => Some (notify_message_added_with json_to_string msg m, ms ++ [msg])
  | Op_Ensure provider ending =>
      let?? (m, _) := ensure_context_fits json_to_string embed semantic_cache_key wide_alphanumeric ms provider ending m in
      Some (m, ms)
  | Op_Compact provider => Some ((force_compact_with json_to_string ms provider show_percent m).1, ms)
  | Op_TaskEnds e =>
      Some (match cm_pending_task m with
            | Some t => set_pending_task (Some (end_task json_to_string t e)) m
            | None => m
            end, ms)
  | Op_Request => Some ((messages_for_api_with json_to_string ms m).1, ms)
  | Op_Poll => Some ((poll_compaction_event_with json_to_string ms m).1, ms)
  | Op_Hard => let?? (m, _) := hard_compact_with json_to_string wide_alphanumeric ms m in Some (m, ms)
  | Op_Recover =>
      let?? (m, ms, _) := recover_within_budget json_to_string wide_alphanumeric ms m in Some (m, ms)
  | Op_Observe tokens => Some (set_observed_input_tokens (Some tokens) m, ms)
  | Op_Budget tokens => Some (set_token_budget tokens m, ms)
  | Op_Mode mode => Some (change_mode mode m, ms)
  | Op_Snapshot tokens => Some (push_token_snapshot tokens m, ms)
  | Op_Embed text => Some (push_embedding_snapshot embed semantic_cache_key text m, ms)
  | Op_Restart cfg budget => Some ((seed_compaction_from_session json_to_string cfg budget (persisted_state m) ms).1, ms)
  end.

(** The messages that stay when the pending compaction is applied. *)
Definition pending_count m : nat := if is_compacting m then cm_pending_cutoff m else 0.
Definition kept m ms : list Msg := drop (cm_compacted_count m + pending_count m) ms.

(** A message answers only calls that are still kept, or its own. *)
Definition answers (op : Op) (s : Mgr * list Msg) : Prop :=
  match op with
  | Op_Add msg => ∀ id, id ∈ tool_results [msg] → id ∈ tool_uses (kept s.1 s.2 ++ [msg])
  | _ => True
  end.

Inductive reachable (quiet : bool) : Mgr * list Msg → Prop :=
  | reach_new cfg : reachable quiet (manager_new cfg, [])
  | reach_op op s s' :
      reachable quiet s → answers op s → (quiet = true → op ≠ Op_Recover) → run_op op s = Some s' → reachable quiet s'.

(** ** Runs of messages *)

Lemma tool_uses_app ms1 ms2 : tool_uses (ms1 ++ ms2) = tool_uses ms1 ++ tool_uses ms2.
Proof. unfold tool_uses. by rewrite map_app, concat_app. Qed.
Lemma tool_results_app ms1 ms2 : tool_results (ms1 ++ ms2) = tool_results ms1 ++ tool_results ms2.
Proof. unfold tool_results. by rewrite map_app, concat_app. Qed.

Lemma closed_run_nil : closed_run (@nil Msg).
Proof. by intros id H. Qed.

Lemma closed_run_add ms msg tail :
  closed_run ms → tail `suffix_of` ms → (∀ id, id ∈ tool_results [msg] → id ∈ tool_uses (tail ++ [msg])) →
  closed_run (ms ++ [msg]).
Proof.
  intros Hc [pre ->] Hm id. rewrite tool_results_app, tool_uses_app, !elem_of_app. intros [H|H].
  - left. by apply Hc.
  - apply Hm in H. rewrite tool_uses_app in *. rewrite elem_of_app in H. rewrite elem_of_app. tauto.
Qed.

Lemma suffix_drop {A} (i j : nat) (l : list A) : i ≤ j → drop j l `suffix_of` drop i l.
Proof. intros H. exists (take (j - i) (drop i l)). replace (drop j l) with (drop (j - i) (drop i l)); [by rewrite take_drop|]. rewrite drop_drop. f_equal. lia. Qed.

(** ** The invariant *)

(** A task is about [k] messages. *)
Definition task_about (t : @Task Json Time) (k : nat) : Prop :=
  match t with
  | Task_Running _ messages _ => length messages = k
  | Task_Ended (Some (Ok r)) => cr_summarized_messages r = k
  | Task_Ended _ => True
  end.

Definition pending_ok m ms : Prop :=
  match cm_pending_task m with
  | Some t =>
      let k := cm_pending_cutoff m in
      0 < k ∧ cm_compacted_count m + k + RECENT_TURNS_TO_KEEP ≤ length ms
      ∧ closed_run (drop (cm_compacted_count m + k) ms) ∧ task_about t k
  | None => True
  end.

Definition whole m ms : Prop :=
  cm_total_turns m = length ms
  ∧ closed_run (drop (cm_compacted_count m) ms)
  ∧ (cm_compacted_count m = 0
     ∨ cm_compacted_count m + MIN_TURNS_TO_KEEP ≤ length ms ∧ is_Some (cm_active_summary m))
  ∧ pending_ok m ms.

(** The fields the invariant speaks of. *)
Definition core m := (cm_compacted_count m, cm_total_turns m, cm_active_summary m, cm_pending_task m, cm_pending_cutoff m).

Lemma whole_core m m' ms : core m = core m' → whole m ms → whole m' ms.
Proof. unfold core, whole, pending_ok. intros E. injection E as -> -> -> -> ->. done. Qed.

Lemma whole_le m ms : whole m ms → cm_compacted_count m ≤ length ms.
Proof. intros (_ & _ & [H|[H _]] & _); lia. Qed.

Lemma active_whole m ms : whole m ms → active_messages m ms = drop (cm_compacted_count m) ms.
Proof. intros H%whole_le. unfold active_messages. by rewrite Nat.min_l. Qed.

Lemma whole_new cfg : whole (manager_new cfg) [].
Proof. unfold whole, pending_ok. cbn. split_and!; [done| |by left|done]. apply closed_run_nil. Qed.

(** A message comes in. *)
Lemma whole_add m ms msg :
  whole m ms → (∀ id, id ∈ tool_results [msg] → id ∈ tool_uses (kept m ms ++ [msg])) →
  whole (notify_message_added_with json_to_string msg m) (ms ++ [msg]).
Proof.
  intros Hw Ha. pose proof (whole_le _ _ Hw) as Hle. destruct Hw as (Ht & Hc & Hs & Hp).
  assert (∀ j, cm_compacted_count m ≤ j ≤ cm_compacted_count m + pending_count m → j ≤ length ms →
            closed_run (drop j ms) → closed_run (drop j (ms ++ [msg]))) as Hadd.
  { intros j Hj Hl Hcj. rewrite drop_app_le by lia. eapply closed_run_add; [done| |exact Ha]. apply suffix_drop. lia. }
  unfold whole, pending_ok. cbn [notify_message_added_with notify_message_added_blocks set_active_chars
    set_suppress_compaction set_total_turns cm_total_turns cm_compacted_count cm_active_summary cm_pending_task cm_pending_cutoff].
  rewrite length_app. cbn [length]. split_and!; [lia|apply Hadd; [lia..|done]| |].
  - destruct Hs as [|[]]; [by left|right; split; [lia|done]].
  - destruct (cm_pending_task m) as [t|] eqn:Hpt; [|done].
    unfold pending_ok in Hp. rewrite Hpt in Hp. destruct Hp as (H0 & Hl & Hck & Hk). split_and!; [done|lia| |done].
    apply Hadd; [|lia|done]. unfold pending_count, is_compacting. rewrite Hpt, bool_decide_eq_true_2 by done. lia.
Qed.

(** A task starts. *)
Lemma whole_start m ms k trigger provider :
  whole m ms → 0 < k → k ≤ length (active_messages m ms) - RECENT_TURNS_TO_KEEP →
  RECENT_TURNS_TO_KEEP ≤ length (active_messages m ms) → closed_run (drop k (active_messages m ms)) →
  whole (start_task k trigger provider ms m) ms.
Proof.
  intros Hw H0 Hk Hr Hc. rewrite (active_whole _ _ Hw) in *. rewrite drop_drop in Hc. rewrite length_drop in *.
  pose proof (whole_le _ _ Hw). destruct Hw as (Ht & Hcl & Hs & Hp).
  unfold whole, pending_ok. cbn [start_task set_pending_task set_pending_trigger set_pending_cutoff cm_total_turns
    cm_compacted_count cm_active_summary cm_pending_task cm_pending_cutoff task_about].
  split_and!; [done..| |done|]; [lia|]. rewrite length_take.
  unfold active_messages. rewrite length_drop. cbn. lia.
Qed.

(** All but the caches and what the budget is computed from. *)
Definition full_core m := (core m, cm_active_chars m).

(** Pieces of the start that do not touch the conversation. *)
Lemma cached_core text m : full_core (cached_semantic_embedding embed semantic_cache_key text m).1 = full_core m.
Proof. unfold cached_semantic_embedding. destruct (_ !! _) as [[??]|]; done. Qed.

Lemma score_core goal_emb keep idx ms count earliest m :
  full_core (score_messages embed semantic_cache_key goal_emb keep idx ms count earliest m).1.1 = full_core m
  ∧ (score_messages embed semantic_cache_key goal_emb keep idx ms count earliest m).2 ≤ earliest.
Proof.
  revert idx count earliest m. induction ms as [|msg ms IH]; intros idx count earliest m; cbn [score_messages]; [done|].
  destruct (is_empty _); [apply IH|]. pose proof (cached_core (semantic_message_text msg) m) as Hm.
  destruct (cached_semantic_embedding _ _ _ m) as [m1 [emb|]]; cbn [fst] in Hm; rewrite <- Hm; [|apply IH].
  destruct (SFleb _ _); [|apply IH].
  destruct (IH (S idx) (count + 1) (min earliest idx) m1) as [-> H]. split; [done|lia].
Qed.

Lemma semantic_cutoff_core active m :
  full_core (semantic_cutoff embed semantic_cache_key active m).1 = full_core m
  ∧ (semantic_cutoff embed semantic_cache_key active m).2 ≤ length active - RECENT_TURNS_TO_KEEP.
Proof.
  unfold semantic_cutoff. destruct (_ =? 0) eqn:Hz; [by split; [|cbn; lia]|].
  destruct (is_empty _); [done|]. set (goal := semantic_goal_text _). pose proof (cached_core goal m) as Hm.
  destruct (cached_semantic_embedding _ _ goal m) as [m1 [emb|]]; cbn [fst] in Hm; [|by rewrite <- Hm].
  pose proof (score_core emb (cc_relevance_keep_threshold (cm_compaction_config m)) 0
    (take (length active - RECENT_TURNS_TO_KEEP) active) 0 (length active - RECENT_TURNS_TO_KEEP) m1) as [Hs Hle].
  destruct (score_messages _ _ _ _ _ _ _ _ _) as [[m2 n] e]. cbn [fst snd] in *.
  rewrite <- Hm, <- Hs. destruct (n =? 0); [done|]. destruct (e <? 2); [done|]. done.
Qed.

Lemma safe_cutoff_positive (active : list Msg) k :
  let c := safe_compaction_cutoff active k in c ≠ 0 → c ≤ k ∧ c ≤ length active ∧ closed_run (drop c active).
Proof.
  cbv zeta. intros H. destruct (safe_cutoff_spec active k) as (Hle & [|Hc] & _); [lia|]. split_and!; [lia..|done].
Qed.

Lemma active_core m m' ms : core m = core m' → active_messages (A:=Msg) m ms = active_messages m' ms.
Proof. unfold core, active_messages. by intros [= -> _ _ _ _]. Qed.

Lemma whole_maybe_start ms provider m m' :
  maybe_start_compaction_with json_to_string embed semantic_cache_key ms provider m = Some m' → whole m ms → whole m' ms.
Proof.
  unfold maybe_start_compaction_with. intros H Hw. destruct (should_compact_with _ m ms) as [[]|]; [|by simplify_eq/=|done].
  cbn [negb] in H.
  set (cut := match cm_mode m with Semantic => _ | _ => _ end) in H.
  assert (full_core cut.1 = full_core m ∧ cut.2 ≤ length (active_messages m ms) - RECENT_TURNS_TO_KEEP) as [Hcore Hcut].
  { unfold cut. destruct (cm_mode m); [done|done|apply semantic_cutoff_core]. }
  apply (f_equal fst) in Hcore. destruct cut as [m1 k]. cbn [fst snd full_core] in *. assert (whole m1 ms) as Hw1 by by eapply whole_core.
  destruct (k =? 0); [by simplify_eq/=|]. destruct (_ =? 0) eqn:Hz; [by simplify_eq/=|].
  injection H as <-. apply Nat.eqb_neq in Hz. destruct (safe_cutoff_positive _ _ Hz) as (Hk & Hl & Hc).
  rewrite (active_core m m1 ms) in * by done. apply whole_start; [done|lia..|done].
Qed.

Lemma whole_force ms provider m :
  whole m ms → whole (force_compact_with json_to_string ms provider show_percent m).1 ms.
Proof.
  unfold force_compact_with. intros Hw. repeat (case_match; [done|]).
  match goal with H : (safe_compaction_cutoff _ _ =? 0) = false |- _ => apply Nat.eqb_neq in H as Hz end.
  destruct (safe_cutoff_positive _ _ Hz) as (Hk & Hl & Hc). apply whole_start; [done|lia..|done].
Qed.

(** A task ends. *)
Lemma end_task_about (t : @Task Json Time) e k : task_about t k → task_about (end_task json_to_string t e) k.
Proof. destruct t as [p l o|o], e; cbn; try done. intros <-. by destruct (generate_compaction_artifact _ _ _ _ _). Qed.

Lemma whole_task_ends t e m ms :
  cm_pending_task m = Some t → whole m ms → whole (set_pending_task (Some (end_task json_to_string t e)) m) ms.
Proof.
  intros Ht (H1 & H2 & H3 & H4). unfold pending_ok in H4. rewrite Ht in H4. split_and!; [done..|].
  unfold pending_ok. cbn [set_pending_task cm_pending_task cm_pending_cutoff cm_compacted_count].
  destruct H4 as (?&?&?&?). split_and!; [done..|by apply end_task_about].
Qed.

(** Its result is applied. *)
Lemma whole_no_pending m ms : whole m ms → whole (no_pending m) ms.
Proof. by intros (?&?&?&?). Qed.

Lemma clamp_whole m ms : whole m ms → clamp_compacted_count_to_messages ms m = (m, false).
Proof.
  intros H%whole_le. unfold clamp_compacted_count_to_messages. case_match; [done|].
  by rewrite (proj2 (Nat.leb_le _ _) H).
Qed.

Lemma discard_core m :
  let m' := (discard_oversized_openai_native_compaction m).1 in
  cm_compacted_count m' = cm_compacted_count m ∧ cm_total_turns m' = cm_total_turns m
  ∧ cm_pending_task m' = cm_pending_task m ∧ cm_pending_cutoff m' = cm_pending_cutoff m
  ∧ (is_Some (cm_active_summary m) → is_Some (cm_active_summary m')).
Proof. unfold discard_oversized_openai_native_compaction. destruct (_ ≫= _); cbn; [|done]. by eauto. Qed.

Lemma whole_weaken m m' ms :
  cm_compacted_count m' = cm_compacted_count m → cm_total_turns m' = cm_total_turns m →
  cm_pending_task m' = cm_pending_task m → cm_pending_cutoff m' = cm_pending_cutoff m →
  (is_Some (cm_active_summary m) → is_Some (cm_active_summary m')) → whole m ms → whole m' ms.
Proof. unfold whole, pending_ok. intros -> -> -> -> Hs (?&?&H&?). split_and!; [done..| |done]. naive_solver. Qed.

Lemma whole_discard m ms : whole m ms → whole (discard_oversized_openai_native_compaction m).1 ms.
Proof. destruct (discard_core m) as (?&?&?&?&?). by apply whole_weaken. Qed.

(** After [apply_result], the prefix has grown by the pending cutoff. *)
Lemma apply_result_core r m ms :
  let m' := apply_result json_to_string r ms m in
  cm_compacted_count m' = (if is_nil ms then cm_compacted_count m + cm_pending_cutoff m
                           else min (cm_compacted_count m + cm_pending_cutoff m) (length ms))
  ∧ cm_total_turns m' = cm_total_turns m ∧ cm_pending_task m' = None ∧ cm_pending_cutoff m' = 0
  ∧ is_Some (cm_active_summary m').
Proof.
  cbv zeta. unfold apply_result. cbv zeta.
  match goal with |- context [discard_oversized_openai_native_compaction ?x] => destruct (discard_core x) as (H1&H2&_&_&H5) end.
  cbn in H1, H2, H5 |- *. split_and!; [done..|]. by apply H5.
Qed.

Lemma whole_apply m ms :
  whole m ms → whole (check_and_apply_compaction_with json_to_string ms m) ms.
Proof.
  intros Hw. unfold check_and_apply_compaction_with. rewrite (clamp_whole m ms Hw). cbn [fst].
  destruct (cm_pending_task m) as [[|[[r|]|]]|] eqn:Ht; [done| |by apply whole_no_pending..|done].
  case_match; [by apply whole_no_pending|].
  destruct (apply_result_core r m ms) as (H1 & H2 & H3 & H4 & H5). pose proof (whole_le _ _ Hw) as Hle.
  destruct Hw as (Hl & Hc & Hs & Hp). unfold pending_ok in Hp. rewrite Ht in Hp. destruct Hp as (H0 & Hk & Hck & _).
  assert (cm_compacted_count (apply_result json_to_string r ms m) = cm_compacted_count m + cm_pending_cutoff m) as Hcc.
  { rewrite H1. destruct ms; [done|]. cbn [is_nil]. lia. }
  unfold whole, pending_ok. rewrite Hcc, H2, H3. split_and!; [done..| |done]. right. split; [|done].
  unfold MIN_TURNS_TO_KEEP, RECENT_TURNS_TO_KEEP in *. lia.
Qed.

(** ** Hard compaction *)

Lemma suffix_sums_lookup (l : list nat) i : i ≤ length l → suffix_sums l !! i = Some (sum_of id (drop i l)).
Proof.
  revert i. induction l as [|x l IH]; intros [|i] H; cbn in H |- *; try lia; try done.
  - pose proof (IH 0 ltac:(lia)) as H0. rewrite drop_0 in H0. destruct (suffix_sums l) as [|y ys]; [done|].
    injection H0 as ->. done.
  - apply IH. lia.
Qed.

Lemma sum_of_map {A} (f : A → nat) l : sum_of id (map f l) = sum_of f l.
Proof. unfold sum_of. induction l as [|x l IH]; [done|]. cbn. by rewrite IH. Qed.

(** How many characters the messages from [i] on have. *)
Lemma suffix_sums_chars (active : list Msg) i :
  i ≤ length active →
  default 0 (suffix_sums (map (message_char_count json_to_string) active) !! i)
  = sum_of (message_char_count json_to_string) (drop i active).
Proof.
  intros H. rewrite suffix_sums_lookup by (by rewrite length_map). change (default 0 (Some ?x)) with x. rewrite skipn_map. apply sum_of_map.
Qed.

Lemma keep_loop_some fuel (active : list Msg) sums budget turns :
  turns < fuel → is_Some (keep_loop fuel active sums budget turns).
Proof.
  revert turns. induction fuel as [|fuel IH]; intros turns H; [lia|]. cbn [keep_loop].
  destruct (_ && _); [by eexists|]. destruct (turns <=? MIN_TURNS_TO_KEEP) eqn:Ht; [by eexists|].
  apply Nat.leb_gt in Ht. apply IH. unfold MIN_TURNS_TO_KEEP in *.
  pose proof (Nat.div_lt turns 2 ltac:(lia) ltac:(lia)). lia.
Qed.

(** The cut keeps the last [MIN_TURNS_TO_KEEP] messages; it fits the budget unless it is the largest one. *)
Lemma keep_loop_spec fuel (active : list Msg) sums budget turns c :
  MIN_TURNS_TO_KEEP ≤ turns → keep_loop fuel active sums budget turns = Some c →
  let largest := safe_compaction_cutoff active (length active - MIN_TURNS_TO_KEEP) in
  c = largest
  ∨ 0 < c ∧ c ≤ length active - MIN_TURNS_TO_KEEP ∧ closed_run (drop c active)
    ∧ (N.of_nat (default 0%nat (sums !! c) / CHARS_PER_TOKEN) ≤ budget)%N.
Proof.
  cbv zeta. revert turns. induction fuel as [|fuel IH]; intros turns Ht H; cbn [keep_loop] in H; [done|].
  destruct (_ && _) eqn:Hb.
  - injection H as <-. apply andb_true_iff in Hb as [Hp Hf]. apply Nat.ltb_lt in Hp. apply N.leb_le in Hf.
    destruct (safe_cutoff_positive active (length active - turns) ltac:(lia)) as (Hle & _ & Hc).
    right. split_and!; [done|lia|done|done].
  - destruct (turns <=? MIN_TURNS_TO_KEEP); [injection H as <-; by left|]. exact (IH _ (Nat.le_max_r _ _) H).
Qed.

(** What a hard compaction does. *)
Definition hard_done m ms m' (n : nat) : Prop :=
  let active := active_messages m ms in
  0 < n ∧ n + MIN_TURNS_TO_KEEP ≤ length active ∧ closed_run (drop n active)
  ∧ ((N.of_nat (sum_of (message_char_count json_to_string) (drop n active) / CHARS_PER_TOKEN) ≤ cm_token_budget m)%N
     ∨ ∀ j, n < j ≤ length active - MIN_TURNS_TO_KEEP → ¬ closed_run (drop j active))
  ∧ cm_compacted_count m' = cm_compacted_count m + n ∧ cm_total_turns m' = cm_total_turns m
  ∧ cm_pending_task m' = None ∧ is_Some (cm_active_summary m') ∧ cm_observed_input_tokens m' = None
  ∧ cm_active_chars m' = set_exact (sum_of (message_char_count json_to_string) (drop n active)).

Lemma hard_compact_spec m ms :
  whole m ms →
  ∃ m' r, hard_compact_with json_to_string wide_alphanumeric ms m = Some (m', r)
  ∧ match r with
    | Ok n => hard_done m ms m' n
    | Err _ => m' = m ∧ ∀ j, 0 < j ≤ length (active_messages m ms) - MIN_TURNS_TO_KEEP →
                 ¬ closed_run (drop j (active_messages m ms))
    end.
Proof.
  intros Hw. unfold hard_compact_with. rewrite (clamp_whole m ms Hw). cbn [fst]. cbv zeta.
  pose proof (active_whole m ms Hw) as Hact. pose proof (whole_le _ _ Hw) as Hle.
  set (active := active_messages m ms) in *.
  destruct (length active <=? MIN_TURNS_TO_KEEP) eqn:Hl.
  { apply Nat.leb_le in Hl. eexists _, _. split; [done|]. cbn. split; [done|]. intros j Hj. lia. }
  apply Nat.leb_gt in Hl. set (sums := suffix_sums _). set (turns := min _ _).
  destruct (keep_loop_some (S turns) active sums (cm_token_budget m) turns ltac:(lia)) as [c Hk]. rewrite Hk. cbn [mbind option_bind].
  apply keep_loop_spec in Hk; [|unfold turns, RECENT_TURNS_TO_KEEP, MIN_TURNS_TO_KEEP in *; lia].
  destruct (safe_cutoff_spec active (length active - MIN_TURNS_TO_KEEP)) as (Hs1 & Hs2 & Hs3).
  destruct (c =? 0) eqn:Hz.
  { apply Nat.eqb_eq in Hz as ->. eexists _, _. split; [done|]. cbn. split; [done|]. intros j Hj. apply Hs3.
    destruct Hk as [<-|]; lia. }
  apply Nat.eqb_neq in Hz. eexists _, _. split; [done|]. cbn beta iota. unfold hard_done. fold active.
  assert (default 0 (sums !! c) = sum_of (message_char_count json_to_string) (drop c active)) as Hsum.
  { apply suffix_sums_chars. destruct Hk as [->|]; lia. }
  assert (0 < c ∧ c + MIN_TURNS_TO_KEEP ≤ length active ∧ closed_run (drop c active)) as (?&?&?).
  { destruct Hk as [->|(?&?&?&?)]; [|split_and!; [lia..|done]]. split_and!; [lia|lia|]. by destruct Hs2. }
  assert (c ≤ length ms - cm_compacted_count m) by (unfold active in *; rewrite Hact, length_drop in *; lia).
  split_and!; [done..| | | | | | |].
  - rewrite <- Hsum. destruct Hk as [->|(?&?&?&?)]; [right; intros j Hj; apply Hs3; lia|by left].
  - destruct (is_compacting m); cbn; lia.
  - by destruct (is_compacting m).
  - unfold is_compacting. cbn. destruct (cm_pending_task m) eqn:E; cbn; [done|]. by rewrite E.
  - by eexists.
  - done.
  - cbn. by rewrite Hsum.
Qed.

Lemma whole_hard m ms m' r :
  hard_compact_with json_to_string wide_alphanumeric ms m = Some (m', r) → whole m ms → whole m' ms.
Proof.
  intros H Hw. destruct (hard_compact_spec m ms Hw) as (m1 & r1 & H1 & Hr). rewrite H1 in H. injection H as -> ->.
  destruct r as [n|e]; [|by destruct Hr as [-> _]]. rewrite ?(active_whole _ _ Hw) in Hr.
  destruct Hr as (H0 & Hn & Hc & _ & Hcc & Ht & Hp & Hs & _). rewrite (active_whole _ _ Hw), ?length_drop, ?drop_drop in *.
  unfold whole, pending_ok. rewrite Hcc, Ht, Hp. destruct Hw as (Hl & _). split_and!; [done|done| |done].
  right. split; [lia|done].
Qed.

(** ** Shortened payloads keep their ids *)

Lemma shrink_payload_ids a b (x : ContentBlock Json) :
  block_uses (shrink_payload a b x).1 = block_uses x ∧ block_results (shrink_payload a b x).1 = block_results x.
Proof. destruct x; cbn; try done; by case_match. Qed.

Lemma shrink_ids a b (ms : list Msg) :
  let ms' := (emergency_truncate_large_payloads ms a b).1 in
  tool_uses ms' = tool_uses ms ∧ tool_results ms' = tool_results ms ∧ length ms' = length ms.
Proof.
  cbv zeta. unfold emergency_truncate_large_payloads, shrink_messages. cbn [fst]. rewrite length_map.
  unfold tool_uses, tool_results. rewrite !map_map. cbn [set_content m_content].
  split_and!; [| |done]; f_equal; apply map_ext; intros msg; rewrite map_map; f_equal; apply map_ext; intros x;
    apply shrink_payload_ids.
Qed.

Lemma shrink_drop a b (ms : list Msg) k :
  drop k (emergency_truncate_large_payloads ms a b).1 = (emergency_truncate_large_payloads (drop k ms) a b).1.
Proof. unfold emergency_truncate_large_payloads, shrink_messages. cbn [fst]. by rewrite skipn_map. Qed.

Lemma shrink_closed a b (ms : list Msg) : closed_run ms → closed_run (emergency_truncate_large_payloads ms a b).1.
Proof. destruct (shrink_ids a b ms) as (H1 & H2 & _). unfold closed_run. by rewrite H1, H2. Qed.

Lemma whole_truncate m ms :
  whole m ms → let '(m', ms', _) := emergency_truncate_with ms m in whole m' ms'.
Proof.
  intros Hw. unfold emergency_truncate_with. pose proof (whole_le _ _ Hw) as Hle. rewrite Nat.min_l by done.
  remember (cm_compacted_count m) as start eqn:Hst.
  destruct (emergency_truncate_large_payloads _ _ _) as [active n] eqn:E.
  assert (active = (emergency_truncate_large_payloads (drop start ms) EMERGENCY_TOOL_RESULT_MAX_CHARS EMERGENCY_IMAGE_MAX_CHARS).1) as Ha
    by by rewrite E.
  assert (length active = length ms - start) as Hlen.
  { rewrite Ha. etransitivity; [apply shrink_ids|]. apply length_drop. }
  assert (∀ k, closed_run (drop (start + k) ms) → closed_run (drop (start + k) (take start ms ++ active))) as Hdrop.
  { intros k Hc. rewrite drop_app_ge by (rewrite length_take; lia). rewrite length_take, Nat.min_l by done.
    replace (start + k - start) with k by lia. rewrite Ha, shrink_drop. apply shrink_closed. by rewrite drop_drop. }
  assert (whole m (take start ms ++ active)) as H.
  { destruct Hw as (Ht & Hc & Hs & Hp). unfold whole. rewrite <- Hst in *. rewrite length_app, length_take, Hlen, Nat.min_l by done.
    replace (start + (length ms - start)) with (length ms) by lia. split_and!; [done| |done|].
    - specialize (Hdrop 0). rewrite Nat.add_0_r in Hdrop. by apply Hdrop.
    - unfold pending_ok in *. destruct (cm_pending_task m); [|done]. destruct Hp as (?&?&?&?).
      rewrite <- Hst in *. rewrite length_app, length_take, Hlen, Nat.min_l by done.
      replace (start + (length ms - start)) with (length ms) by lia. split_and!; [done..|by apply Hdrop|done]. }
  destruct (0 <? n); [|done]. by apply (whole_core m).
Qed.

Lemma whole_recover m ms m' ms' r :
  recover_within_budget json_to_string wide_alphanumeric ms m = Some (m', ms', r) → whole m ms → whole m' ms'.
Proof.
  unfold recover_within_budget. intros H Hw. destruct (hard_compact_with _ _ ms m) as [[m1 hard]|] eqn:Hh; [|done].
  pose proof (whole_hard _ _ _ _ Hh Hw) as Hw1. cbv zeta in H. destruct (_ || _).
  - pose proof (whole_truncate _ _ Hw1) as Ht. destruct (emergency_truncate_with ms m1) as [[m2 ms2] n]. by simplify_eq/=.
  - by simplify_eq/=.
Qed.

(** ** Fitting the context *)

Lemma whole_wait m ms ending :
  whole m ms → whole (wait_for_pending json_to_string ms ending m).1 ms.
Proof.
  intros Hw. unfold wait_for_pending. cbv zeta. set (task := match cm_pending_task m, ending with | Some t, Some e => _ | _, _ => _ end).
  assert (whole (set_pending_task task m) ms) as H.
  { unfold task. destruct (cm_pending_task m) as [t|] eqn:Ht, ending as [e|]; try (by apply whole_task_ends);
      by apply (whole_core m); [unfold core; cbn; by rewrite Ht|]. }
  destruct (match task with Some t => is_finished t | None => false end); [by apply whole_apply|done].
Qed.

Lemma whole_background provider m ms m' act :
  start_in_background json_to_string embed semantic_cache_key ms provider m = Some (m', act) → whole m ms → whole m' ms.
Proof.
  unfold start_in_background. intros H Hw. destruct (maybe_start_compaction_with _ _ _ _ _ _) eqn:E; [|done].
  simplify_eq/=. by eapply whole_maybe_start.
Qed.

Lemma whole_hard_or_background provider m ms m' act :
  hard_or_background json_to_string embed semantic_cache_key wide_alphanumeric ms provider m = Some (m', act) →
  whole m ms → whole m' ms.
Proof.
  unfold hard_or_background. intros H Hw. destruct (hard_compact_with _ _ _ _) as [[m1 [n|e]]|] eqn:E; [| |done].
  - simplify_eq/=. by eapply whole_hard.
  - eapply whole_background; [exact H|]. by eapply whole_hard.
Qed.

Lemma whole_ensure provider ending m ms m' act :
  ensure_context_fits json_to_string embed semantic_cache_key wide_alphanumeric ms provider ending m = Some (m', act) →
  whole m ms → whole m' ms.
Proof.
  unfold ensure_context_fits. cbv zeta. intros H Hw. pose proof (whole_wait m ms ending Hw) as Hw1.
  repeat case_match; eauto using whole_background, whole_hard_or_background.
Qed.

(** ** Restarting *)

Lemma whole_restart cfg budget m ms :
  whole m ms → whole (seed_compaction_from_session json_to_string cfg budget (persisted_state m) ms).1 ms.
Proof.
  intros Hw. pose proof (whole_le _ _ Hw) as Hle. destruct Hw as (Ht & Hc & Hs & Hp). unfold seed_compaction_from_session.
  set (m1 := match persisted_state m with Some s => _ | None => _ end).
  assert (whole m1 ms) as H1.
  { unfold m1, persisted_state. destruct (cm_active_summary m) as [s|].
    - unfold whole, pending_ok, restore_persisted_state_with, restore_persisted_state. cbn.
      rewrite Nat.min_l by done. split_and!; [done..| |done]. destruct Hs as [|[]]; [by left|right; split; [done|by eexists]].
    - destruct Hs as [Hs|[_ [? ?]]]; [|done]. unfold whole, pending_ok. cbn. rewrite Hs in Hc. split_and!; [done..|by left|done]. }
  pose proof (whole_discard _ _ H1) as H2. by destruct (discard_oversized_openai_native_compaction m1).
Qed.

(** ** Every step keeps the invariant *)

Lemma whole_step op m ms s' : whole m ms → answers op (m, ms) → run_op op (m, ms) = Some s' → whole s'.1 s'.2.
Proof.
  intros Hw Ha H. destruct op; cbn in H.
  - injection H as <-. by apply whole_add.
  - destruct (ensure_context_fits _ _ _ _ _ _ _ _) as [[m1 act]|] eqn:E; [|done]. injection H as <-. by eapply whole_ensure.
  - injection H as <-. by apply whole_force.
  - injection H as <-. destruct (cm_pending_task m) eqn:E; [by apply whole_task_ends|done].
  - injection H as <-. apply whole_discard. by apply whole_apply.
  - injection H as <-. eapply whole_core; [|by apply (whole_apply m ms)]. done.
  - destruct (hard_compact_with _ _ _ _) as [[m1 r]|] eqn:E; [|done]. injection H as <-. by eapply whole_hard.
  - destruct (recover_within_budget _ _ _ _) as [[[m1 ms1] r]|] eqn:E; [|done]. injection H as <-. by eapply whole_recover.
  - injection H as <-. by apply (whole_core m).
  - injection H as <-. by apply (whole_core m).
  - injection H as <-. by apply (whole_core m).
  - injection H as <-. by apply (whole_core m).
  - injection H as <-. cbn [fst snd]. apply (whole_core m); [|done]. unfold push_embedding_snapshot.
    match goal with |- context [cached_semantic_embedding _ _ ?t m] => pose proof (f_equal fst (cached_core t m)) as Hc; cbn [full_core fst] in Hc end.
    destruct (cached_semantic_embedding _ _ _ m) as [m1 [emb|]]; by rewrite <- Hc.
  - injection H as <-. by apply whole_restart.
Qed.

Lemma reachable_whole quiet s : reachable quiet s → whole s.1 s.2.
Proof.
  induction 1 as [cfg|op [m ms] s' H IH Ha Hq Hs]; [apply whole_new|]. by apply (whole_step op m ms).
Qed.

(** ** The count of characters *)

Notation chars_of := (sum_of (message_char_count json_to_string)).

(** The estimate is up to date. *)
Definition exact m ms : Prop := cm_active_chars m = set_exact (chars_of (drop (cm_compacted_count m) ms)).

Lemma exact_eq m m' ms :
  cm_active_chars m' = cm_active_chars m → cm_compacted_count m' = cm_compacted_count m → exact m ms → exact m' ms.
Proof. unfold exact. by intros -> ->. Qed.

Lemma exact_chars m ms :
  whole m ms → exact m ms → active_message_chars_with json_to_string m ms = chars_of (drop (cm_compacted_count m) ms).
Proof.
  intros Hw He. unfold active_message_chars_with. rewrite (active_whole _ _ Hw), He. cbn.
  destruct (_ =? _); cbn; [|done]. by rewrite He.
Qed.

Lemma exact_add m ms msg :
  whole m ms → exact m ms → exact (notify_message_added_with json_to_string msg m) (ms ++ [msg]).
Proof.
  intros Hw%whole_le He. unfold exact in *. cbn. rewrite He, drop_app_le, sum_of_app by done. unfold append_exact, set_exact. cbn.
  f_equal. unfold message_char_count. lia.
Qed.

Lemma discard_active_chars m : cm_active_chars (discard_oversized_openai_native_compaction m).1 = cm_active_chars m.
Proof. unfold discard_oversized_openai_native_compaction. by destruct (_ ≫= _). Qed.

Lemma exact_discard m ms : exact m ms → exact (discard_oversized_openai_native_compaction m).1 ms.
Proof. apply exact_eq; [apply discard_active_chars|apply discard_core]. Qed.

Lemma apply_result_chars r m ms :
  cm_active_chars (apply_result json_to_string r ms m)
  = set_exact (active_message_chars_with json_to_string
                 (set_compacted_count (cm_compacted_count (apply_result json_to_string r ms m)) m) ms
               - chars_of (take (cm_pending_cutoff m) (active_messages m ms))).
Proof.
  destruct (apply_result_core r m ms) as [-> _]. unfold apply_result. cbv zeta. cbn [no_pending set_pending_task set_pending_trigger
    set_pending_cutoff set_turns_since_last_compact set_last_compaction set_observed_input_tokens cm_active_chars].
  by rewrite discard_active_chars.
Qed.

Lemma exact_apply_result r m ms :
  whole m ms → exact m ms → cm_compacted_count m + cm_pending_cutoff m ≤ length ms → ms ≠ [] →
  exact (apply_result json_to_string r ms m) ms.
Proof.
  intros Hw He Hk Hn. unfold exact. rewrite apply_result_chars. destruct (apply_result_core r m ms) as [-> _].
  rewrite (active_whole _ _ Hw). destruct (is_nil ms) eqn:Hnil; [by destruct ms|]. rewrite Nat.min_l by done.
  set (c := cm_compacted_count m) in *. set (k := cm_pending_cutoff m) in *.
  assert (active_message_chars_with json_to_string (set_compacted_count (c + k) m) ms = chars_of (drop c ms)) as ->.
  { unfold active_message_chars_with, active_messages_count, active_messages. cbn [set_compacted_count cm_active_chars
      cm_total_turns cm_compacted_count]. destruct Hw as [-> _]. unfold exact in He. rewrite Nat.min_l, length_drop, Nat.eqb_refl, He by done. done. }
  rewrite <- (take_drop k (drop c ms)) at 1. rewrite sum_of_app, drop_drop. f_equal. lia.
Qed.

Lemma exact_apply m ms : whole m ms → exact m ms → exact (check_and_apply_compaction_with json_to_string ms m) ms.
Proof.
  intros Hw He. unfold check_and_apply_compaction_with. rewrite (clamp_whole m ms Hw). cbn [fst].
  destruct (cm_pending_task m) as [[|[[r|]|]]|] eqn:Ht; try done. case_match; [done|].
  pose proof Hw as (_ & _ & _ & Hp). unfold pending_ok in Hp. rewrite Ht in Hp.
  apply exact_apply_result; [done..|lia|]. intros ->. cbn in Hp. lia.
Qed.

Lemma exact_hard m ms m' r :
  hard_compact_with json_to_string wide_alphanumeric ms m = Some (m', r) → whole m ms → exact m ms → exact m' ms.
Proof.
  intros H Hw He. destruct (hard_compact_spec m ms Hw) as (m1 & r1 & H1 & Hr). rewrite H1 in H. injection H as -> ->.
  destruct r as [n|e]; [|by destruct Hr as [-> _]]. unfold hard_done in Hr. rewrite (active_whole _ _ Hw) in Hr.
  destruct Hr as (_ & _ & _ & _ & Hcc & _ & _ & _ & _ & Hch). unfold exact. by rewrite Hch, Hcc, drop_drop.
Qed.

Lemma maybe_start_count ms provider m m' :
  maybe_start_compaction_with json_to_string embed semantic_cache_key ms provider m = Some m' →
  cm_active_chars m' = cm_active_chars m ∧ cm_compacted_count m' = cm_compacted_count m.
Proof.
  unfold maybe_start_compaction_with. intros H. destruct (should_compact_with _ m ms) as [[]|]; [|by simplify_eq/=|done].
  cbn [negb] in H. set (cut := match cm_mode m with Semantic => _ | _ => _ end) in H.
  assert (full_core cut.1 = full_core m) as Hc by (unfold cut; destruct (cm_mode m); [done|done|apply semantic_cutoff_core]).
  destruct cut as [m1 k]. unfold full_core, core in Hc. cbn in Hc. injection Hc as Hcc _ _ _ _ Hch.
  repeat case_match; by simplify_eq/=.
Qed.

Lemma exact_maybe_start ms provider m m' :
  maybe_start_compaction_with json_to_string embed semantic_cache_key ms provider m = Some m' → exact m ms → exact m' ms.
Proof. intros [H1 H2]%maybe_start_count. by apply exact_eq. Qed.

Lemma exact_wait m ms ending :
  whole m ms → exact m ms → exact (wait_for_pending json_to_string ms ending m).1 ms.
Proof.
  intros Hw He. pose proof (whole_wait m ms ending Hw) as Hw1. revert Hw1. unfold wait_for_pending. cbv zeta.
  set (task := match cm_pending_task m, ending with | Some t, Some e => _ | _, _ => _ end).
  destruct (match task with Some t => is_finished t | None => false end); cbn [fst]; [|done].
  intros _. apply exact_apply; [|done].
  unfold task. destruct (cm_pending_task m) as [t|] eqn:Ht, ending as [e|]; try (by apply whole_task_ends);
    by apply (whole_core m); [unfold core; cbn; by rewrite Ht|].
Qed.

Lemma exact_background provider m ms m' act :
  start_in_background json_to_string embed semantic_cache_key ms provider m = Some (m', act) → exact m ms → exact m' ms.
Proof.
  unfold start_in_background. intros H Hw. destruct (maybe_start_compaction_with _ _ _ _ _ _) eqn:E; [|done].
  simplify_eq/=. by eapply exact_maybe_start.
Qed.

Lemma exact_hard_or_background provider m ms m' act :
  hard_or_background json_to_string embed semantic_cache_key wide_alphanumeric ms provider m = Some (m', act) →
  whole m ms → exact m ms → exact m' ms.
Proof.
  unfold hard_or_background. intros H Hw He. destruct (hard_compact_with _ _ _ _) as [[m1 [n|e]]|] eqn:E; [| |done].
  - simplify_eq/=. by eapply exact_hard.
  - eapply exact_background; [exact H|]. by eapply exact_hard.
Qed.

Lemma exact_ensure provider ending m ms m' act :
  ensure_context_fits json_to_string embed semantic_cache_key wide_alphanumeric ms provider ending m = Some (m', act) →
  whole m ms → exact m ms → exact m' ms.
Proof.
  unfold ensure_context_fits. cbv zeta. intros H Hw He.
  pose proof (whole_wait m ms ending Hw). pose proof (exact_wait m ms ending Hw He).
  repeat case_match; eauto using exact_background, exact_hard_or_background.
Qed.

(** A restart reads the summary and counts the characters anew. *)
Lemma restart_view cfg budget m ms :
  whole m ms →
  let m' := (seed_compaction_from_session json_to_string cfg budget (persisted_state m) ms).1 in
  cm_compacted_count m' = cm_compacted_count m
  ∧ cm_active_summary m' = cm_active_summary (discard_oversized_openai_native_compaction m).1
  ∧ cm_pending_task m' = None ∧ exact m' ms.
Proof.
  intros Hw. pose proof (whole_le _ _ Hw) as Hle. destruct Hw as (_ & _ & Hs & _). cbv zeta. unfold seed_compaction_from_session.
  set (m1 := match persisted_state m with Some s => _ | None => _ end).
  assert (cm_compacted_count m1 = cm_compacted_count m ∧ cm_active_summary m1 = cm_active_summary m
          ∧ cm_pending_task m1 = None ∧ exact m1 ms) as (H1 & H2 & H3 & H4).
  { unfold m1, persisted_state. destruct (cm_active_summary m) as [[st se sc so]|].
    - unfold exact, restore_persisted_state_with, restore_persisted_state. cbn. rewrite !Nat.min_l by done. done.
    - destruct Hs as [->|[_ [? ?]]]; [|done]. by unfold exact. }
  pose proof (exact_discard _ _ H4) as H4'. destruct (discard_core m1) as (Hc & _ & Ht & _).
  assert (cm_active_summary (discard_oversized_openai_native_compaction m1).1
          = cm_active_summary (discard_oversized_openai_native_compaction m).1) as Hsum.
  { unfold discard_oversized_openai_native_compaction. rewrite H2. by destruct (_ ≫= _). }
  destruct (discard_oversized_openai_native_compaction m1) as [m2 d]. cbn [fst] in *. by rewrite Hc, Ht.
Qed.

Lemma exact_step op m ms s' :
  whole m ms → exact m ms → op ≠ Op_Recover → run_op op (m, ms) = Some s' → exact s'.1 s'.2.
Proof.
  intros Hw He Hn H. destruct op; cbn in H; try (injection H as <-; done).
  - injection H as <-. by apply exact_add.
  - destruct (ensure_context_fits _ _ _ _ _ _ _ _) as [[m1 act]|] eqn:E; [|done]. injection H as <-. by eapply exact_ensure.
  - injection H as <-. unfold force_compact_with. by repeat case_match.
  - injection H as <-. by destruct (cm_pending_task m).
  - injection H as <-. apply exact_discard. by apply exact_apply.
  - injection H as <-. by apply (exact_apply m ms).
  - destruct (hard_compact_with _ _ _ _) as [[m1 r]|] eqn:E; [|done]. injection H as <-. by eapply exact_hard.
  - done.
  - injection H as <-. cbn [fst snd]. unfold push_embedding_snapshot.
    match goal with |- context [cached_semantic_embedding _ _ ?t m] => pose proof (cached_core t m) as Hc end.
    unfold full_core, core in Hc. destruct (cached_semantic_embedding _ _ _ m) as [m1 [emb|]]; cbn in Hc;
      injection Hc as ? _ _ _ _ ?; by apply (exact_eq m).
  - injection H as <-. by apply restart_view.
Qed.

Lemma reachable_exact s : reachable true s → exact s.1 s.2.
Proof.
  induction 1 as [cfg|op [m ms] s' H IH Ha Hq Hs]; [done|].
  apply (exact_step op m ms); [by apply (reachable_whole true (m, ms))|done|by apply Hq|done].
Qed.

(** ** Nothing panics while the stall window is not empty *)

Lemma growth_stalled_some l w : 0 < w → is_Some (growth_stalled l w).
Proof.
  intros H. unfold growth_stalled. destruct (w <=? length l) eqn:Hl; [|by eexists]. apply Nat.leb_le in Hl.
  destruct (take w (reverse l)) as [|x t] eqn:E.
  - apply (f_equal length) in E. rewrite length_take, length_reverse in E. cbn in E. lia.
  - destruct (last (x :: t)) eqn:E2; [by eexists|]. by apply last_None in E2.
Qed.

Definition window_ok m : Prop := 0 < cc_stall_window (cm_compaction_config m).

Lemma anti_signals_some m ms : window_ok m → is_Some (anti_signals_block json_to_string m ms).
Proof.
  intros H. unfold anti_signals_block. destruct (growth_stalled_some (cm_token_history m) _ H) as [b ->].
  repeat (case_match; [by eexists|]). by eexists.
Qed.

Lemma proactive_some m ms : window_ok m → is_Some (should_compact_proactively json_to_string m ms).
Proof.
  intros H. unfold should_compact_proactively. destruct (anti_signals_some m ms H) as [[] ->]; [by eexists|].
  repeat case_match; by eexists.
Qed.

Lemma semantic_some m ms : window_ok m → is_Some (should_compact_semantic json_to_string m ms).
Proof.
  intros H. unfold should_compact_semantic. destruct (anti_signals_some m ms H) as [[] ->]; [by eexists|].
  destruct (_ <? 4) eqn:E; [by apply proactive_some|]. apply Nat.ltb_ge in E.
  assert (2 ≤ length (cm_embedding_history m) / 2) as E2 by (by apply Nat.div_le_lower_bound).
  destruct (head (take _ _)) eqn:Eh; cbn.
  - case_match; [by eexists|by apply proactive_some].
  - destruct (cm_embedding_history m), (length _ / 2) as [|[]]; cbn in *; try lia; done.
Qed.

Lemma should_compact_some m ms : window_ok m → is_Some (should_compact_with json_to_string m ms).
Proof.
  intros H. unfold should_compact_with. destruct (cm_suppress_compaction m); [by eexists|].
  destruct (cm_mode m); [by eexists|..]; (case_match; [|by eexists]); eauto using proactive_some, semantic_some.
Qed.

Lemma maybe_start_some ms provider m :
  window_ok m → is_Some (maybe_start_compaction_with json_to_string embed semantic_cache_key ms provider m).
Proof.
  intros H. unfold maybe_start_compaction_with. destruct (should_compact_some m ms H) as [b ->]. cbn.
  destruct (negb b); [by eexists|]. repeat case_match; by eexists.
Qed.

Lemma background_some ms provider m :
  window_ok m → is_Some (start_in_background json_to_string embed semantic_cache_key ms provider m).
Proof. intros H. unfold start_in_background. destruct (maybe_start_some ms provider m H) as [m' ->]. by eexists. Qed.

Lemma hard_compact_some ms m :
  ∃ m' r, hard_compact_with json_to_string wide_alphanumeric ms m = Some (m', r)
          ∧ cm_compaction_config m' = cm_compaction_config m.
Proof.
  unfold hard_compact_with. cbv zeta.
  assert (cm_compaction_config (clamp_compacted_count_to_messages ms m).1 = cm_compaction_config m) as Hc
    by (unfold clamp_compacted_count_to_messages; by repeat case_match).
  set (m1 := (clamp_compacted_count_to_messages ms m).1) in *. destruct (_ <=? _); [by eauto|].
  set (turns := min _ _). set (sums := suffix_sums _).
  destruct (keep_loop_some (S turns) (active_messages m1 ms) sums (cm_token_budget m1) turns ltac:(lia)) as [c ->]. cbn.
  destruct (c =? 0); [by eauto|]. eexists _, _. split; [done|]. cbn. by destruct (is_compacting m1).
Qed.

Lemma check_and_apply_config ms m :
  cm_compaction_config (check_and_apply_compaction_with json_to_string ms m) = cm_compaction_config m.
Proof.
  assert (∀ m0, cm_compaction_config (discard_oversized_openai_native_compaction m0).1 = cm_compaction_config m0) as Hd.
  { intros m0. unfold discard_oversized_openai_native_compaction. by case_match. }
  assert (cm_compaction_config (clamp_compacted_count_to_messages ms m).1 = cm_compaction_config m) as Hc
    by (unfold clamp_compacted_count_to_messages; by repeat case_match).
  unfold check_and_apply_compaction_with. cbv zeta. repeat case_match; try done. rewrite <- Hc. unfold apply_result. cbv zeta.
  cbn [no_pending set_pending_task set_pending_trigger set_pending_cutoff set_turns_since_last_compact set_last_compaction
    set_observed_input_tokens cm_compaction_config]. by rewrite Hd.
Qed.

Lemma hard_or_background_some ms provider m :
  window_ok m →
  is_Some (hard_or_background json_to_string embed semantic_cache_key wide_alphanumeric ms provider m).
Proof.
  intros H. unfold hard_or_background. destruct (hard_compact_some ms m) as (m' & [n|e] & -> & Hc); [by eexists|].
  apply background_some. unfold window_ok. by rewrite Hc.
Qed.

Lemma wait_config ms ending m :
  cm_compaction_config (wait_for_pending json_to_string ms ending m).1 = cm_compaction_config m.
Proof. unfold wait_for_pending. cbv zeta. case_match; cbn [fst]; [by rewrite check_and_apply_config|done]. Qed.

Lemma recover_some ms m : is_Some (recover_within_budget json_to_string wide_alphanumeric ms m).
Proof.
  unfold recover_within_budget. destruct (hard_compact_some ms m) as (m' & r & -> & _). cbn.
  set (over := _ || _). destruct (if over then _ else _) as [[m2 ms2] n]. by eexists.
Qed.

Lemma ensure_some ms provider ending m :
  window_ok m →
  is_Some (ensure_context_fits json_to_string embed semantic_cache_key wide_alphanumeric ms provider ending m).
Proof.
  intros H. unfold ensure_context_fits. cbv zeta.
  assert (window_ok (wait_for_pending json_to_string ms ending m).1) by (unfold window_ok; by rewrite wait_config).
  repeat case_match; eauto using background_some, hard_or_background_some.
Qed.

(** ** What is sent *)

(** The encrypted state of a summary can be sent. *)
Definition sendable_summary (s : Summary) : Prop :=
  ∀ e, sm_openai_encrypted_content s = Some e → openai_encrypted_content_is_sendable e = true.

Lemma discard_sendable m s : cm_active_summary (discard_oversized_openai_native_compaction m).1 = Some s → sendable_summary s.
Proof.
  unfold discard_oversized_openai_native_compaction, sendable_summary. destruct (cm_active_summary m) as [s0|] eqn:Hs; cbn [mbind option_bind].
  - destruct (oversized_replaced s0) as [s1|] eqn:Ho; cbn [fst].
    + intros [= <-] e He. unfold oversized_replaced, without_native_state in Ho. repeat case_match; by simplify_eq/=.
    + rewrite ?Hs. intros H e He. assert (s = s0) as -> by (cbn in H; congruence). unfold oversized_replaced in Ho. rewrite He in Ho. by case_match.
  - cbn [fst]. congruence.
Qed.

Lemma discard_again m :
  cm_active_summary (discard_oversized_openai_native_compaction (discard_oversized_openai_native_compaction m).1).1
  = cm_active_summary (discard_oversized_openai_native_compaction m).1.
Proof.
  set (m1 := (discard_oversized_openai_native_compaction m).1). pose proof (discard_sendable m) as Hs. fold m1 in Hs.
  unfold discard_oversized_openai_native_compaction at 1. destruct (cm_active_summary m1) as [s|] eqn:E; [|done].
  specialize (Hs s eq_refl). cbn [mbind option_bind]. destruct (oversized_replaced s) as [s1|] eqn:Ho; [|done].
  unfold oversized_replaced in Ho. destruct (sm_openai_encrypted_content s) as [e|] eqn:He; [|done].
  by rewrite (Hs e He) in Ho.
Qed.

(** The message that stands for a summary calls nothing and answers nothing. *)
Lemma summary_message_free s : tool_uses [summary_message (Json:=Json) (Time:=Time) s] = [] ∧ tool_results [summary_message (Json:=Json) (Time:=Time) s] = [].
Proof. unfold summary_message, tool_uses, tool_results. destruct s as [? [?|] ??]; done. Qed.

Lemma closed_api_view m ms : closed_run (active_messages m ms) → closed_run (api_view m ms).
Proof.
  intros H. unfold api_view. destruct (cm_active_summary m) as [s|]; [|done].
  destruct (summary_message_free s) as [Hu Hr]. intros id. rewrite tool_results_app, tool_uses_app, Hu, Hr. apply H.
Qed.

(** ** Properties *)


(** C25. As long as no emergency recovery shortened the messages, the character count that the manager
    keeps is the true count of the messages that are sent, after every sequence of operations: the
    token estimate that decides about compaction is never stale. *)
Theorem estimate_is_exact m ms :
  reachable true (m, ms) →
  cm_active_chars m = set_exact (chars_of (active_messages m ms))
  ∧ token_estimate_with json_to_string m ms
    = estimate_compaction_tokens (cm_active_summary m) (N.of_nat (chars_of (active_messages m ms))) (cm_token_budget m).
Proof.
  intros H. pose proof (reachable_whole _ _ H) as Hw. pose proof (reachable_exact _ H) as He. cbn [fst snd] in *.
  rewrite (active_whole _ _ Hw). split; [done|]. unfold token_estimate_with. by rewrite exact_chars.
Qed.

(** C40. No operation panics, whatever the messages, the provider's answers and the embeddings are, if
    the configured stall window is not empty. *)
Theorem manager_never_panics op m ms :
  0 < cc_stall_window (cm_compaction_config m) → is_Some (run_op op (m, ms)).
Proof.
  intros H. destruct op; cbn; try by eexists.
  - destruct (ensure_some ms provider ending m H) as [[m' act] ->]. by eexists.
  - destruct (hard_compact_some ms m) as (m' & r & -> & _). by eexists.
  - destruct (recover_some ms m) as [[[m' ms'] r] ->]. by eexists.
Qed.

(** A hard compaction drops messages from the front such that at least two stay, no tool result
    loses its call, and what stays fits the token budget unless dropping more is impossible; it discards
    a background task that is under way, and the character count it leaves is exact.  It fails only if
    there is no place to cut, and then it changes nothing. *)
Theorem hard_compact_cuts_where_it_can quiet m ms :
  reachable quiet (m, ms) →
  ∃ m' r, hard_compact_with json_to_string wide_alphanumeric ms m = Some (m', r)
  ∧ match r with
    | Ok n => hard_done m ms m' n
    | Err _ => m' = m ∧ ∀ j, 0 < j ≤ length (active_messages m ms) - MIN_TURNS_TO_KEEP →
                 ¬ closed_run (drop j (active_messages m ms))
    end.
Proof. intros H%reachable_whole. by apply hard_compact_spec. Qed.

(** C26. A session that is stored and restored, under any configuration and budget, sends the request it
    would have sent before, provided no background compaction was waiting to be applied. *)
Theorem restart_keeps_the_request quiet cfg budget m ms :
  reachable quiet (m, ms) → cm_pending_task m = None →
  let '(restored, _) := seed_compaction_from_session json_to_string cfg budget (persisted_state m) ms in
  (messages_for_api_with json_to_string ms restored).2 = (messages_for_api_with json_to_string ms m).2.
Proof.
  intros Hr%reachable_whole Hp. cbn [fst snd] in Hr. pose proof (whole_restart cfg budget m ms Hr) as Hw.
  destruct (restart_view cfg budget m ms Hr) as (Hc & Hs & Ht & _).
  destruct (seed_compaction_from_session json_to_string cfg budget (persisted_state m) ms) as [m1 st]. cbn [fst] in *.
  assert (∀ m0 : Mgr, whole m0 ms → cm_pending_task m0 = None → check_and_apply_compaction_with json_to_string ms m0 = m0) as Hca.
  { intros m0 H0 H1. unfold check_and_apply_compaction_with. rewrite (clamp_whole _ _ H0). cbn. by rewrite H1. }
  unfold messages_for_api_with. rewrite !Hca by done. cbn [snd]. unfold api_view, active_messages.
  assert (cm_active_summary (discard_oversized_openai_native_compaction m1).1
          = cm_active_summary (discard_oversized_openai_native_compaction m).1) as ->.
  { rewrite <- (discard_again m). unfold discard_oversized_openai_native_compaction at 1 2. rewrite Hs.
    by destruct (_ ≫= _). }
  destruct (discard_core m1) as [-> _], (discard_core m) as [-> _]. by rewrite Hc.
Qed.
End runs.

(** ** A conversation *)

Module Demo.
Notation Msg := (Message unit unit).
Notation Mgr := (@Manager unit unit).

Definition json_to_string (_ : unit) : string := "{}".
Definition embed (_ : string) : option (list spec_float) := None.
Definition semantic_cache_key (_ : string) : N := 0.
Definition wide (_ : string) : bool := false.
Definition show_percent (_ : spec_float) : string := "9".

Definition text (t : string) : Msg :=
  {| m_role := User; m_content := [Text t None]; m_timestamp := None; m_tool_duration_ms := None |}.
Definition call (id : string) : Msg :=
  {| m_role := Assistant; m_content := [ToolUse id "bash" tt None]; m_timestamp := None; m_tool_duration_ms := None |}.
Definition answer (id content : string) : Msg :=
  {| m_role := User; m_content := [ToolResult id content None]; m_timestamp := None; m_tool_duration_ms := None |}.

Definition provider : @Provider unit unit := MkProvider (λ _ _ _, None) (λ _ _, Ok "S") 4100.

Notation run_one := (run_op json_to_string embed semantic_cache_key wide show_percent).
Notation can_reach := (reachable json_to_string embed semantic_cache_key wide show_percent).

Fixpoint run (ops : list (@Op unit unit)) (s : Mgr * list Msg) : option (Mgr * list Msg) :=
  match ops with [] => Some s | op :: ops => let?? s := run_one op s in run ops s end.

(** Every id that [op] answers is kept, decided. *)
Definition answersb (op : @Op unit unit) (s : Mgr * list Msg) : bool :=
  match op with
  | Op_Add msg => forallb (λ id, bool_decide (id ∈ tool_uses (kept s.1 s.2 ++ [msg]))) (tool_results [msg])
  | _ => true
  end.

Fixpoint runs_ok (quiet : bool) (ops : list (@Op unit unit)) (s : Mgr * list Msg) : bool :=
  match ops with
  | [] => true
  | op :: ops =>
      answersb op s && negb (quiet && match op with Op_Recover => true | _ => false end)
      && match run_one op s with Some s => runs_ok quiet ops s | None => false end
  end.

Lemma answersb_spec op s : answersb op s = true → answers op s.
Proof.
  destruct op; try done. cbn. intros H id Hid. rewrite forallb_forall in H. specialize (H id).
  eapply bool_decide_eq_true_1, H. by apply list_elem_of_In.
Qed.

Lemma run_reachable quiet ops s s' :
  can_reach quiet s → runs_ok quiet ops s = true → run ops s = Some s' → can_reach quiet s'.
Proof.
  revert s. induction ops as [|op ops IH]; intros s Hs Hok Hr; cbn in *; [by simplify_eq|].
  apply andb_true_iff in Hok as [[Ha Hq]%andb_true_iff Hok]. destruct (run_one op s) as [s1|] eqn:E; [|done].
  apply (IH s1); [|done..]. eapply reach_op; [done|by apply answersb_spec| |done].
  intros -> ->. done.
Qed.

(** Twelve short messages, a call with its answer, and a budget they nearly fill. *)
Definition ops : list (@Op unit unit) :=
  map (λ t, Op_Add (text t)) ["one"; "two"; "three"; "four"; "five"; "six"; "seven"; "eight"; "nine"; "ten"]
  ++ [Op_Add (call "c1"); Op_Add (answer "c1" "done"); Op_Budget 34].

Definition finish : list (@Op unit unit) :=
  [Op_Ensure provider None; Op_TaskEnds (Ends_after 7); Op_Poll].

Definition start : Mgr * list Msg := (manager_new default_compaction_config, []).
Definition state_of (o : option (Mgr * list Msg)) : Mgr * list Msg := default start o.

Definition ready := state_of (run ops start).
Definition summarized := state_of (run (ops ++ finish) start).

Lemma reach_ready quiet : can_reach quiet ready.
Proof. apply (run_reachable quiet ops start); [apply reach_new|by destruct quiet; vm_compute|by vm_compute]. Qed.

Lemma reach_summarized quiet : can_reach quiet summarized.
Proof. apply (run_reachable quiet (ops ++ finish) start); [apply reach_new|by destruct quiet; vm_compute|by vm_compute]. Qed.

(** The whole life of a background compaction: it starts at four fifths of the budget, two messages are
    summarized, and the next request has the summary and the other ten. *)
Example compaction_runs :
  (is_compacting ready.1, is_compacting (state_of (run (ops ++ [Op_Ensure provider None]) start)).1) = (false, true)
  ∧ cm_compacted_count summarized.1 = 2
  ∧ length (messages_for_api_with json_to_string summarized.2 summarized.1).2 = 11
  ∧ is_Some (cm_last_compaction (state_of (run (ops ++ [Op_Ensure provider None; Op_TaskEnds (Ends_after 7); Op_Request]) start)).1).
Proof. by vm_compute; split_and!; try eexists. Qed.

(** A hard compaction at the critical threshold keeps the last call with its answer. *)
Example hard_compaction_runs :
  (cm_compacted_count (state_of (run (ops ++ [Op_Budget 20; Op_Ensure provider None]) start)).1) = 10.
Proof. by vm_compute. Qed.

(** With an empty stall window the look at the growth indexes an empty list. *)
Example empty_stall_window_panics :
  let c := default_compaction_config in
  let cfg := MkCompactionConfig Proactive 15 (cc_ewma_alpha c) (cc_proactive_floor c) 3 0 10
               (cc_topic_shift_threshold c) (cc_relevance_keep_threshold c) 5 in
  run (ops ++ map Op_Snapshot [1; 2; 3]%N ++ [Op_Ensure provider None]) (manager_new cfg, []) = None.
Proof. by vm_compute. Qed.

(** After an emergency truncation the next message makes the old count trusted again: the manager
    believes in 8080 characters where 3135 are left. *)
Example truncation_is_forgotten :
  let long := String.concat "" (repeat "x" (N.to_nat 8000)) in
  let s := state_of (run [Op_Add (call "c1"); Op_Add (answer "c1" long); Op_Recover; Op_Add (text "and then")] start) in
  (N.of_nat (ae_chars (cm_active_chars s.1)), ae_dirty (cm_active_chars s.1)) = (8080%N, false)
  ∧ N.of_nat (sum_of (message_char_count json_to_string) s.2) = 3135%N.
Proof. by vm_compute. Qed.
End Demo.

Section witnesses.
Import Demo.


Lemma estimate_is_exact_witness :
  can_reach true (summarized.1, summarized.2)
  ∧ cm_active_chars summarized.1 = set_exact 109.
Proof.
  assert (can_reach true (summarized.1, summarized.2)) as H by (rewrite <- surjective_pairing; apply reach_summarized).
  split; [exact H|]. rewrite (proj1 (estimate_is_exact json_to_string embed semantic_cache_key wide show_percent _ _ H)). by vm_compute.
Defined.

Lemma manager_never_panics_witness :
  0 < cc_stall_window (cm_compaction_config ready.1)
  ∧ is_Some (run_one (Op_Ensure provider None) (ready.1, ready.2)).
Proof.
  assert (0 < cc_stall_window (cm_compaction_config ready.1)) as H by (apply Nat.ltb_lt; by vm_compute).
  split; [exact H|]. apply (manager_never_panics json_to_string embed semantic_cache_key wide show_percent _ _ _ H).
Defined.

Lemma hard_compact_cuts_where_it_can_witness :
  can_reach true (ready.1, ready.2)
  ∧ ∃ m' r, hard_compact_with json_to_string wide ready.2 ready.1 = Some (m', r).
Proof.
  assert (can_reach true (ready.1, ready.2)) as H by (rewrite <- surjective_pairing; apply reach_ready).
  split; [exact H|].
  destruct (hard_compact_cuts_where_it_can json_to_string embed semantic_cache_key wide show_percent _ _ _ H) as (m' & r & Hh & _).
  by exists m', r.
Defined.

Lemma restart_keeps_the_request_witness :
  (can_reach true (summarized.1, summarized.2) ∧ cm_pending_task summarized.1 = None)
  ∧ let '(restored, _) :=
      seed_compaction_from_session json_to_string default_compaction_config 34 (persisted_state summarized.1) summarized.2 in
    (messages_for_api_with json_to_string summarized.2 restored).2 = (messages_for_api_with json_to_string summarized.2 summarized.1).2.
Proof.
  assert (can_reach true (summarized.1, summarized.2)) as H by (rewrite <- surjective_pairing; apply reach_summarized).
  assert (cm_pending_task summarized.1 = None) as Hp by by vm_compute.
  split; [split; [exact H|exact Hp]|].
  apply (restart_keeps_the_request json_to_string embed semantic_cache_key wide show_percent _ _ _ _ _ H Hp).
Defined.
End witnesses.
