(* ===== verification/OpenAiRequest.v ===== *)
(** * Requests to OpenAI (crates/arterm-provider-openai/src/request.rs)

    [build_responses_input] turns a conversation into the items of a Responses request: one pass over
    the messages pairs tool calls with their outputs, and two more passes over the items make every
    call stand right before its output.  The iteration order of the set of calls left open is a
    parameter, as is the text of a JSON value.  Log lines and the counters they print are left out. *)

From S2P Require Export CompactionText StrictSchema ToolRegistry.

(** ** JSON objects *)

(** [json!({ ... })] *)
Definition jobj (l : list (string * Json)) : Json := JObject (foldl (λ m e, bt_insert e.1 e.2 m) [] l).

(** [item.get(key)] *)
Definition jget (key : string) (j : Json) : option Json := as_object j ≫= bt_get key.

(** ** Ids (crates/arterm-message-types/src/lib.rs) *)

Definition TOOL_OUTPUT_MISSING_TEXT : string :=
  "Tool output missing (session interrupted before tool execution completed)".

Definition sanitized_char (w : string) : string :=
  match w with
  | String c EmptyString => if is_ascii_alphanumeric c || String.eqb w "_" || String.eqb w "-" then w else "_"
  | _ => "_"
  end.

Definition sanitize_tool_id (id : string) : string :=
  if is_empty id then "unknown"
  else
    let sanitized := String.concat "" (map sanitized_char (chars id)) in
    if is_empty sanitized then "unknown" else sanitized.

(** ** Tools *)

Definition build_tools (tools : list ToolDefinition) (store : QuirkStore) : list Json :=
  map (λ t,
         let compatible_schema := openai_compatible_schema (td_input_schema t) store in
         let supports_strict := schema_supports_strict compatible_schema in
         let parameters := if supports_strict then strict_normalize_schema compatible_schema else compatible_schema in
         jobj [("type", JString "function"); ("name", JString (td_name t)); ("description", JString (td_description t));
               ("strict", JBool supports_strict); ("parameters", parameters)]) tools.

(** ** Items *)

Definition input_text (text : string) : Json := jobj [("type", JString "input_text"); ("text", JString text)].

Definition message_item (role : string) (content : list Json) : Json :=
  jobj [("type", JString "message"); ("role", JString role); ("content", JArray content)].

Definition function_call (name arguments call_id : string) : Json :=
  jobj [("type", JString "function_call"); ("name", JString name); ("arguments", JString arguments);
        ("call_id", JString call_id)].

Definition function_call_output (call_id output : string) : Json :=
  jobj [("type", JString "function_call_output"); ("call_id", JString call_id); ("output", JString output)].

Definition missing_output : string := "[Error] " +:+ TOOL_OUTPUT_MISSING_TEXT.

Definition item_type (item : Json) : option string := get_str item "type".
Definition item_call_id (item : Json) : option string := get_str item "call_id".
Definition is_call (item : Json) : bool :=
  bool_decide (item_type item = Some "function_call") || bool_decide (item_type item = Some "custom_tool_call").
Definition is_output (item : Json) : bool := bool_decide (item_type item = Some "function_call_output").

Section input.
Context {Time : Type} (json_to_string : Json → string) (set_order : gset string → list string).
Notation Msg := (Message Json Time).

Definition orphan_tool_output_to_user_message (item : Json) : option Json :=
  match jget "output" item with
  | None => None
  | Some output_value =>
      let output := match as_str output_value with Some text => trim text | None => json_to_string output_value end in
      if is_empty output || String.eqb output missing_output then None
      else
        let call_id := default "unknown_call" (item_call_id item) in
        Some (message_item "user" [input_text ("[Recovered orphaned tool output: " +:+ call_id +:+ "]" +:+ nl +:+ output)])
  end.

(** ** The pass over the messages *)

(** Where the last result for an id is. *)
Fixpoint tool_result_last_pos (idx : nat) (ms : list Msg) (acc : gmap string nat) : gmap string nat :=
  match ms with
  | [] => acc
  | msg :: ms =>
      let acc := match m_role msg with
                 | User => foldl (λ acc b, match b with ToolResult id _ _ => <[id := idx]> acc | _ => acc end)
                             acc (m_content msg)
                 | Assistant => acc
                 end in
      tool_result_last_pos (S idx) ms acc
  end.

Record InputState := MkInput {
  is_items : list Json;
  is_open : gset string;
  is_pending : gmap string string;
  is_used : gset string;
}.

Definition push (items : list Json) (st : InputState) : InputState :=
  MkInput (is_items st ++ items) (is_open st) (is_pending st) (is_used st).

(** The parts collected so far become a message. *)
Definition flush (parts : list Json) (st : InputState) : InputState :=
  if is_nil parts then st else push [message_item "user" parts] st.

Definition compaction_item (encrypted_content : string) : Json :=
  if openai_encrypted_content_is_sendable encrypted_content
  then jobj [("type", JString "compaction"); ("encrypted_content", JString encrypted_content)]
  else message_item "user" [input_text (openai_encrypted_content_fallback_summary (String.length encrypted_content))].

Definition result_output (content : string) (is_error : option bool) : string :=
  if bool_decide (is_error = Some true) then "[Error] " +:+ content else content.

Definition tool_result (id output : string) (st : InputState) : InputState :=
  if bool_decide (id ∈ is_used st) then st
  else if bool_decide (id ∈ is_open st) then
    MkInput (is_items st ++ [function_call_output (sanitize_tool_id id) output]) (is_open st ∖ {[id]}) (is_pending st)
      ({[id]} ∪ is_used st)
  else match is_pending st !! id with
       | Some _ => st
       | None => MkInput (is_items st) (is_open st) (<[id := output]> (is_pending st)) (is_used st)
       end.

Definition user_block (acc : InputState * list Json) (b : ContentBlock Json) : InputState * list Json :=
  let '(st, parts) := acc in
  match b with
  | Image media_type data =>
      (st, parts ++ [jobj [("type", JString "input_image");
                           ("image_url", JString ("data:" +:+ media_type +:+ ";base64," +:+ data))]])
  | Text text _ => (st, parts ++ [input_text text])
  | OpenAICompaction encrypted_content => (push [compaction_item encrypted_content] (flush parts st), [])
  | ToolResult id content is_error => (tool_result id (result_output content is_error) (flush parts st), [])
  | _ => (st, parts)
  end.

Definition user_message (content : list (ContentBlock Json)) (st : InputState) : InputState :=
  let '(st, parts) := foldl user_block (st, []) content in flush parts st.

Definition reasoning_item (id : string) (summary : list string) (encrypted_content status : option string) : Json :=
  jobj ([("type", JString "reasoning"); ("id", JString id);
         ("summary", JArray (map (λ text, jobj [("type", JString "summary_text"); ("text", JString text)]) summary))]
        ++ match encrypted_content with Some e => [("encrypted_content", JString e)] | None => [] end
        ++ match status with Some s => [("status", JString s)] | None => [] end).

Definition arguments (input : Json) : string :=
  match input with JObject _ => json_to_string input | _ => "{}" end.

Definition tool_use (last_pos : gmap string nat) (idx : nat) (id name : string) (input : Json) (st : InputState)
    : InputState :=
  let call := function_call name (arguments input) (sanitize_tool_id id) in
  match is_pending st !! id with
  | Some output =>
      MkInput (is_items st ++ [call; function_call_output (sanitize_tool_id id) output]) (is_open st)
        (delete id (is_pending st)) ({[id]} ∪ is_used st)
  | None =>
      if match last_pos !! id with Some pos => idx <? pos | None => false end
      then MkInput (is_items st ++ [call]) ({[id]} ∪ is_open st) (is_pending st) (is_used st)
      else MkInput (is_items st ++ [call; function_call_output (sanitize_tool_id id) missing_output]) (is_open st)
             (is_pending st) ({[id]} ∪ is_used st)
  end.

Definition assistant_block (last_pos : gmap string nat) (idx : nat) (st : InputState) (b : ContentBlock Json)
    : InputState :=
  match b with
  | Text text _ =>
      push [message_item "assistant" [jobj [("type", JString "output_text"); ("text", JString text)]]] st
  | OpenAIReasoning id summary encrypted_content status => push [reasoning_item id summary encrypted_content status] st
  | ToolUse id name input _ => tool_use last_pos idx id name input st
  | _ => st
  end.

Fixpoint input_loop (last_pos : gmap string nat) (idx : nat) (ms : list Msg) (st : InputState) : InputState :=
  match ms with
  | [] => st
  | msg :: ms =>
      input_loop last_pos (S idx) ms
        match m_role msg with
        | User => user_message (m_content msg) st
        | Assistant => foldl (assistant_block last_pos idx) st (m_content msg)
        end
  end.

(** The calls that are still open at the end. *)
Definition close_call (st : InputState) (call_id : string) : InputState :=
  if bool_decide (call_id ∈ is_used st) then st
  else match is_pending st !! call_id with
       | Some output =>
           MkInput (is_items st ++ [function_call_output (sanitize_tool_id call_id) output]) (is_open st)
             (delete call_id (is_pending st)) (is_used st)
       | None => push [function_call_output (sanitize_tool_id call_id) missing_output] st
       end.

(** The outputs that no call claimed. *)
Definition pending_orphans (pending : gmap string string) : list Json :=
  omap (λ e, orphan_tool_output_to_user_message (function_call_output (sanitize_tool_id e.1) e.2))
    (sort_by (λ a b, String.leb a.1 b.1) (map_to_list pending)).

Definition collect_items (ms : list Msg) : list Json :=
  let st := input_loop (tool_result_last_pos 0 ms ∅) 0 ms (MkInput [] ∅ ∅ ∅) in
  let st := foldl close_call st (set_order (is_open st)) in
  is_items st ++ pending_orphans (is_pending st).

(** ** The passes over the items *)

Definition output_ids (items : list Json) : gset string :=
  foldl (λ acc item, if is_output item then match item_call_id item with Some id => {[id]} ∪ acc | None => acc end
                     else acc) ∅ items.

(** Calls without any output are given one. *)
Fixpoint inject_missing (ids : gset string) (items : list Json) : list Json :=
  match items with
  | [] => []
  | item :: items =>
      match item_call_id item with
      | Some call_id =>
          if is_call item && bool_decide (call_id ∉ ids)
          then item :: function_call_output call_id missing_output :: inject_missing ({[call_id]} ∪ ids) items
          else item :: inject_missing ids items
      | None => item :: inject_missing ids items
      end
  end.

Definition is_missing (item : Json) : bool := bool_decide (get_str item "output" = Some missing_output).

(** The output of an id: the first one that is not a placeholder. *)
Definition note_output (m : gmap string Json) (item : Json) : gmap string Json :=
  if is_output item then
    match item_call_id item with
    | Some call_id =>
        match m !! call_id with
        | Some existing => if is_missing existing && negb (is_missing item) then <[call_id := item]> m else m
        | None => <[call_id := item]> m
        end
    | None => m
    end
  else m.

Definition output_map (items : list Json) : gmap string Json := foldl note_output ∅ items.

(** Every call followed by its output. *)
Fixpoint order_items (outputs : gmap string Json) (used : gset string) (items : list Json) : list Json :=
  match items with
  | [] => []
  | item :: items =>
      if is_call item then
        match item_call_id item with
        | Some call_id =>
            item :: default (function_call_output call_id missing_output) (outputs !! call_id)
              :: order_items outputs ({[call_id]} ∪ used) items
        | None => item :: order_items outputs used items
        end
      else if is_output item then
        if match item_call_id item with Some call_id => bool_decide (call_id ∈ used) | None => false end
        then order_items outputs used items
        else match orphan_tool_output_to_user_message item with
             | Some message_item => message_item :: order_items outputs used items
             | None => order_items outputs used items
             end
      else item :: order_items outputs used items
  end.

Definition build_responses_input (ms : list Msg) : list Json :=
  let items := collect_items ms in
  let normalized := inject_missing (output_ids items) items in
  order_items (output_map normalized) ∅ normalized.
End input.
