(* ===== verification/OpenAiRequestTheorems.v ===== *)
(** * Requests to OpenAI answer every call

    Theorems about [OpenAiRequest].  [paired] is what the provider demands of the items; [reference_input]
    is what the passes compute when every call has an id of its own; [Inv] is the invariant of the pass
    over the messages. *)

From S2P Require Export OpenAiRequest.

(** ** Every call stands before its output *)

(** The items of a request: a call is followed by an output with its id, and there is no other output. *)
Inductive paired : list Json → Prop :=
  | paired_nil : paired []
  | paired_call call output id items :
      is_call call = true → item_call_id call = Some id → is_output output = true → item_call_id output = Some id →
      paired items → paired (call :: output :: items)
  | paired_other item items : is_call item = false → is_output item = false → paired items → paired (item :: items).

(** Calls have ids. *)
Definition calls_named (items : list Json) : Prop :=
  ∀ item, item ∈ items → is_call item = true → is_Some (item_call_id item).

(** What [output_map] holds under an id is an output with that id. *)
Definition outputs_ok (m : gmap string Json) : Prop :=
  ∀ id o, m !! id = Some o → is_output o = true ∧ item_call_id o = Some id.

Lemma note_output_ok m item : outputs_ok m → outputs_ok (note_output m item).
Proof.
  intros H. unfold note_output. destruct (is_output item) eqn:Ho; [|done]. destruct (item_call_id item) as [c|] eqn:Hc; [|done].
  assert (outputs_ok (<[c := item]> m)) as Hi by (intros id o [[<- <-]|[_ ?]]%lookup_insert_Some; [done|by apply H]).
  destruct (m !! c); [|done]. by case_match.
Qed.

Lemma output_map_ok items : outputs_ok (output_map items).
Proof.
  unfold output_map. assert (outputs_ok ∅) as H by done. revert H. generalize (∅ : gmap string Json).
  induction items as [|x items IH]; intros m H; cbn; [done|]. apply IH. by apply note_output_ok.
Qed.

Section pairing.
Context {Time : Type} (json_to_string : Json → string) (set_order : gset string → list string).

Lemma orphan_is_message item m :
  orphan_tool_output_to_user_message json_to_string item = Some m → is_call m = false ∧ is_output m = false.
Proof.
  unfold orphan_tool_output_to_user_message. destruct (jget _ item) as [v|]; [|done]. destruct (_ || _); [done|]. by intros [= <-].
Qed.

Lemma order_items_paired outputs used items :
  outputs_ok outputs → calls_named items → paired (order_items json_to_string outputs used items).
Proof.
  intros Ho. revert used. induction items as [|x items IH]; intros used Hn; cbn [order_items]; [constructor|].
  assert (calls_named items) as Hn' by (intros y Hy; apply Hn; by right).
  destruct (is_call x) eqn:Hc.
  - destruct (Hn x ltac:(by left) Hc) as [id Hid]. rewrite Hid. apply (paired_call _ _ id); [done|done| | |by apply IH].
    + destruct (outputs !! id) eqn:E; [by apply (Ho id)|done].
    + destruct (outputs !! id) eqn:E; [by apply (Ho id)|done].
  - destruct (is_output x) eqn:Hx; [|apply paired_other; [done|done|by apply IH]].
    case_match; [by apply IH|]. destruct (orphan_tool_output_to_user_message _ x) as [m|] eqn:E; [|by apply IH].
    apply orphan_is_message in E as [??]. apply paired_other; [done|done|by apply IH].
Qed.

Lemma inject_missing_named ids items : calls_named items → calls_named (inject_missing ids items).
Proof.
  intros Hn. revert ids. induction items as [|x items IH]; intros ids; cbn [inject_missing]; [done|].
  assert (calls_named items) as Hn' by (intros y Hy; apply Hn; by right).
  assert (∀ l, calls_named l → calls_named (x :: l)) as Hx.
  { intros l Hl y [->|Hy]%elem_of_cons; [apply Hn; by left|by apply Hl]. }
  assert (∀ id l, calls_named l → calls_named (function_call_output id missing_output :: l)) as Hm.
  { intros id l Hl y [->|Hy]%elem_of_cons; [done|by apply Hl]. }
  destruct (item_call_id x) as [c|]; [|by apply Hx, IH]. destruct (_ && _); [by apply Hx, Hm, IH|by apply Hx, IH].
Qed.
End pairing.

(** ** What a request should be *)

Section reference.
Context {Time : Type} (json_to_string : Json → string) (set_order : gset string → list string).
Hypothesis set_order_perm : ∀ X, set_order X ≡ₚ elements X.
Notation Msg := (Message Json Time).
Implicit Types (ms : list Msg) (st : InputState) (R F : gmap string string) (C : gset string).

(** The first result for every id. *)
Definition note_result R (b : ContentBlock Json) : gmap string string :=
  match b with
  | ToolResult id content is_error =>
      match R !! id with Some _ => R | None => <[id := result_output content is_error]> R end
  | _ => R
  end.

Definition note_message R (msg : Msg) : gmap string string :=
  match m_role msg with User => foldl note_result R (m_content msg) | Assistant => R end.

Definition first_results ms : gmap string string := foldl note_message ∅ ms.

(** The ids of the calls, in order. *)
Definition calls_of (msg : Msg) : list string :=
  match m_role msg with Assistant => concat (map block_uses (m_content msg)) | User => [] end.
Definition all_calls ms : list string := concat (map calls_of ms).

(** What a user says, without results. *)
Definition flushed (parts : list Json) : list Json := if is_nil parts then [] else [message_item "user" parts].

Definition said_block (acc : list Json * list Json) (b : ContentBlock Json) : list Json * list Json :=
  let '(items, parts) := acc in
  match b with
  | Image media_type data =>
      (items, parts ++ [jobj [("type", JString "input_image");
                              ("image_url", JString ("data:" +:+ media_type +:+ ";base64," +:+ data))]])
  | Text text _ => (items, parts ++ [input_text text])
  | OpenAICompaction e => (items ++ flushed parts ++ [compaction_item e], [])
  | ToolResult _ _ _ => (items ++ flushed parts, [])
  | _ => acc
  end.

Definition user_said (content : list (ContentBlock Json)) : list Json :=
  let '(items, parts) := foldl said_block ([], []) content in items ++ flushed parts.

(** What the assistant says; a call with the items that [answer] gives it. *)
Definition assistant_said (answer : string → list Json) (b : ContentBlock Json) : list Json :=
  match b with
  | Text text _ => [message_item "assistant" [jobj [("type", JString "output_text"); ("text", JString text)]]]
  | OpenAIReasoning id summary e s => [reasoning_item id summary e s]
  | ToolUse id name input _ =>
      function_call name (arguments json_to_string input) (sanitize_tool_id id) :: answer id
  | _ => []
  end.

Definition said (answer : string → list Json) (msg : Msg) : list Json :=
  match m_role msg with
  | User => user_said (m_content msg)
  | Assistant => concat (map (assistant_said answer) (m_content msg))
  end.

Definition answer_with F (id : string) : Json := function_call_output (sanitize_tool_id id) (default missing_output (F !! id)).

(** Every message in its place, every call followed by its first result or the placeholder, and at the
    end the results that belong to no call. *)
Definition reference_input ms : list Json :=
  let F := first_results ms in
  concat (map (said (λ id, [answer_with F id])) ms)
  ++ pending_orphans json_to_string (filter (λ e, e.1 ∉ all_calls ms) F).

(** ** The state of the pass *)

Definition nonout (items : list Json) : list Json := filter (λ x, is_output x = false) items.

Definition call_set (items : list Json) : gset string :=
  list_to_set (omap (λ x, if is_call x then item_call_id x else None) items).

(** Every output comes after a call with its id. *)
Fixpoint claimed (used : gset string) (items : list Json) : Prop :=
  match items with
  | [] => True
  | x :: items =>
      (is_output x = true → ∃ id, item_call_id x = Some id ∧ id ∈ used)
      ∧ claimed (call_set [x] ∪ used) items
  end.

Lemma call_set_app l1 l2 : call_set (l1 ++ l2) = call_set l1 ∪ call_set l2.
Proof. unfold call_set. by rewrite omap_app, list_to_set_app_L. Qed.

Lemma claimed_app used l1 l2 : claimed used (l1 ++ l2) ↔ claimed used l1 ∧ claimed (call_set l1 ∪ used) l2.
Proof.
  revert used. induction l1 as [|x l1 IH]; intros used.
  - cbn. change (call_set []) with (∅ : gset string). rewrite (left_id_L ∅ (∪)). naive_solver.
  - cbn [app claimed]. rewrite IH. change (x :: l1) with ([x] ++ l1). rewrite call_set_app.
    replace (call_set l1 ∪ (call_set [x] ∪ used)) with (call_set [x] ∪ call_set l1 ∪ used) by set_solver. tauto.
Qed.

(** The items written for the calls [C], of which [used] have their output. *)
Record ItemsInv F C (used : gset string) (items : list Json) := {
  inv_outputs : ∀ o, o ∈ items → is_output o = true → ∃ id, id ∈ used ∧ o = answer_with F id;
  inv_answered : ∀ id, id ∈ used → answer_with F id ∈ items;
  inv_claimed : claimed ∅ items;
  inv_calls : ∀ id, id ∈ C → sanitize_tool_id id ∈ call_set items;
}.

(** After the calls [C], with the first results [R] so far and [F] in the whole conversation. *)
Record Inv F C R st := {
  inv_pending : ∀ id, is_pending st !! id = if bool_decide (id ∈ C) then None else R !! id;
  inv_open : ∀ id, id ∈ is_open st ↔ id ∈ C ∧ R !! id = None ∧ is_Some (F !! id);
  inv_used : ∀ id, id ∈ is_used st ↔ id ∈ C ∧ (is_Some (R !! id) ∨ F !! id = None);
  inv_items : ItemsInv F C (is_used st) (is_items st);
}.

Lemma claimed_plain used items : (∀ x, x ∈ items → is_output x = false) → claimed used items.
Proof.
  revert used. induction items as [|x items IH]; intros used H; cbn [claimed]; [done|].
  split; [rewrite (H x) by (by left); done|]. apply IH. intros y Hy. apply H. by right.
Qed.

(** Items that are no outputs are added. *)
Lemma items_plain F C used items more :
  (∀ x, x ∈ more → is_output x = false) → ItemsInv F C used items → ItemsInv F C used (items ++ more).
Proof.
  intros Hp [H4 H5 H6 H7]. split.
  - intros o [Ho|Ho]%elem_of_app Hout; [by apply H4|]. apply Hp in Ho. congruence.
  - intros id Hid. apply elem_of_app. left. by apply H5.
  - apply claimed_app. split; [done|by apply claimed_plain].
  - intros id Hid. rewrite call_set_app. apply elem_of_union. left. by apply H7.
Qed.

(** A call is added. *)
Lemma items_call F C used items name args id :
  ItemsInv F C used items →
  ItemsInv F ({[id]} ∪ C) used (items ++ [function_call name args (sanitize_tool_id id)]).
Proof.
  intros H. apply (items_plain _ _ _ _ [function_call name args (sanitize_tool_id id)]) in H;
    [|by intros x ->%list_elem_of_singleton]. destruct H as [H4 H5 H6 H7]. split; [done..|].
  intros i [->%elem_of_singleton|Hi]%elem_of_union; [|by apply H7].
  rewrite call_set_app. apply elem_of_union. right. by apply elem_of_list_to_set, list_elem_of_singleton.
Qed.

(** An output is given to a call made before. *)
Lemma items_answer F C used items id :
  id ∈ C → ItemsInv F C used items → ItemsInv F C ({[id]} ∪ used) (items ++ [answer_with F id]).
Proof.
  intros Hid [H4 H5 H6 H7]. split.
  - intros o [Ho|Ho%list_elem_of_singleton]%elem_of_app Hout.
    + destruct (H4 o Ho Hout) as (i & ? & ->). exists i. set_solver.
    + exists id. split; [set_solver|done].
  - intros i [->%elem_of_singleton|Hi']%elem_of_union; apply elem_of_app; [right; by left|left; by apply H5].
  - apply claimed_app. split; [done|]. split; [|done]. intros _. exists (sanitize_tool_id id). split; [done|].
    apply elem_of_union. left. by apply H7.
  - intros i Hi'. rewrite call_set_app. apply elem_of_union. left. by apply H7.
Qed.

Lemma inv_push F C R st items :
  (∀ x, x ∈ items → is_output x = false) → Inv F C R st → Inv F C R (push items st).
Proof. intros Hp [H1 H2 H3 H4]. split; [done..|]. by apply items_plain. Qed.

Lemma inv_flush F C R st parts : Inv F C R st → Inv F C R (flush parts st).
Proof.
  intros H. unfold flush. destruct (is_nil parts); [done|]. apply inv_push; [|done]. by intros x ->%list_elem_of_singleton.
Qed.

Lemma note_result_sub F R b : note_result R b ⊆ F → R ⊆ F.
Proof.
  destruct b; try done. cbn. destruct (R !! tool_use_id) eqn:E; [done|]. intros H. etransitivity; [|exact H]. by apply insert_subseteq.
Qed.

(** A result. *)
Lemma inv_result F C R st id content is_error :
  let b := ToolResult id content is_error in
  note_result R b ⊆ F → Inv F C R st →
  Inv F C (note_result R b) (tool_result id (result_output content is_error) st).
Proof.
  cbv zeta. cbn [note_result]. intros Hsub Hinv. pose proof Hinv as [H1 H2 H3 H4]. unfold tool_result.
  destruct (R !! id) as [v|] eqn:HR.
  - assert (F !! id = Some v) as HF by (by eapply lookup_weaken).
    destruct (bool_decide (id ∈ is_used st)) eqn:Hu; [done|]. apply bool_decide_eq_false in Hu.
    destruct (bool_decide (id ∈ is_open st)) eqn:Ho.
    { apply bool_decide_eq_true, H2 in Ho as (_ & ? & _). congruence. }
    rewrite H1. destruct (bool_decide (id ∈ C)) eqn:HC; [|by rewrite HR]. apply bool_decide_eq_true in HC.
    destruct Hu. apply H3. split; [done|left; by eexists].
  - set (v := result_output content is_error) in *.
    assert (F !! id = Some v) as HF by (eapply lookup_weaken; [|exact Hsub]; by rewrite lookup_insert_eq).
    destruct (bool_decide (id ∈ is_used st)) eqn:Hu.
    { apply bool_decide_eq_true, H3 in Hu as (_ & [[? ?]|?]); congruence. }
    destruct (bool_decide (id ∈ is_open st)) eqn:Ho.
    + apply bool_decide_eq_true, H2 in Ho as (HC & _ & _).
      assert (function_call_output (sanitize_tool_id id) v = answer_with F id) as Hv by (unfold answer_with; by rewrite HF).
      rewrite Hv. split; cbn [is_pending is_open is_used is_items]; [..|by apply items_answer].
      * intros i. rewrite H1. destruct (bool_decide (i ∈ C)) eqn:Hi; [done|].
        rewrite lookup_insert_ne; [done|]. intros <-. by apply bool_decide_eq_false in Hi.
      * intros i. rewrite elem_of_difference, H2, not_elem_of_singleton. destruct (decide (i = id)) as [->|Hne].
        -- rewrite lookup_insert_eq. split; [by intros [_ ?]|by intros (_ & ? & _)].
        -- rewrite lookup_insert_ne by done. tauto.
      * intros i. rewrite elem_of_union, elem_of_singleton, H3. destruct (decide (i = id)) as [->|Hne].
        -- rewrite lookup_insert_eq. split; [|by left]. intros _. split; [done|left; by eexists].
        -- rewrite lookup_insert_ne by done. tauto.
    + apply bool_decide_eq_false in Hu, Ho.
      assert (id ∉ C) as HC.
      { intros HC. apply Ho, H2. split_and!; [done|done|by eexists]. }
      rewrite H1, bool_decide_eq_false_2, HR by done. split; cbn [is_pending is_open is_used is_items]; [..|done].
      * intros i. destruct (decide (i = id)) as [->|Hne].
        -- by rewrite !lookup_insert_eq, bool_decide_eq_false_2.
        -- rewrite !lookup_insert_ne by done. apply H1.
      * intros i. rewrite H2. destruct (decide (i = id)) as [->|Hne]; [tauto|]. by rewrite lookup_insert_ne.
      * intros i. rewrite H3. destruct (decide (i = id)) as [->|Hne]; [tauto|]. by rewrite lookup_insert_ne.
Qed.

(** A call; [later] says whether the table of last results promises a later one. *)
Lemma inv_tool_use F C R st last_pos idx id name input :
  id ∉ C → R ⊆ F →
  (R !! id = None → match last_pos !! id with Some pos => idx <? pos | None => false end = bool_decide (is_Some (F !! id))) →
  Inv F C R st → Inv F ({[id]} ∪ C) R (tool_use json_to_string last_pos idx id name input st).
Proof.
  intros HC Hsub Hlater [H1 H2 H3 H4]. unfold tool_use. rewrite H1, bool_decide_eq_false_2 by done.
  assert (id ∉ is_open st ∧ id ∉ is_used st) as [Ho Hu] by (split; [intros []%H2; done|intros []%H3; done]).
  set (call := function_call name (arguments json_to_string input) (sanitize_tool_id id)).
  assert (∀ i, i ≠ id → bool_decide (i ∈ ({[id]} ∪ C : gset string)) = bool_decide (i ∈ C)) as Hdec.
  { intros i Hi. apply bool_decide_ext. set_solver. }
  assert (bool_decide (id ∈ ({[id]} ∪ C : gset string)) = true) as Hself by (apply bool_decide_eq_true_2; set_solver).
  destruct (R !! id) as [v|] eqn:HR.
  - assert (function_call_output (sanitize_tool_id id) v = answer_with F id) as ->
      by (unfold answer_with; by rewrite (lookup_weaken _ _ _ _ HR Hsub)).
    split; cbn [is_pending is_open is_used is_items].
    + intros i. destruct (decide (i = id)) as [->|Hi]; [by rewrite Hself, lookup_delete_eq|].
      by rewrite Hdec, lookup_delete_ne, H1 by done.
    + intros i. rewrite H2. destruct (decide (i = id)) as [->|Hi]; [|set_solver]. rewrite HR. split; by intros (?&?&?).
    + intros i. rewrite elem_of_union, elem_of_singleton, H3. destruct (decide (i = id)) as [->|Hi]; [|set_solver].
      split; [|by left]. intros _. rewrite HR. split; [set_solver|left; by eexists].
    + change [call; answer_with F id] with ([call] ++ [answer_with F id]). rewrite app_assoc.
      apply items_answer; [set_solver|]. by apply items_call.
  - rewrite Hlater by done. destruct (bool_decide (is_Some (F !! id))) eqn:HF.
    + apply bool_decide_eq_true in HF. split; cbn [is_pending is_open is_used is_items].
      * intros i. rewrite H1. destruct (decide (i = id)) as [->|Hi]; [|by rewrite Hdec]. by rewrite Hself, bool_decide_eq_false_2.
      * intros i. rewrite elem_of_union, elem_of_singleton, H2. destruct (decide (i = id)) as [->|Hi]; [|set_solver].
        split; [|by left]. intros _. split_and!; [set_solver|done|done].
      * intros i. rewrite H3. destruct (decide (i = id)) as [->|Hi]; [|set_solver]. rewrite HR.
        split; [by intros [? _]|]. intros [_ [[??]|HN]]; [done|]. rewrite HN in HF. by destruct HF.
      * by apply items_call.
    + apply bool_decide_eq_false in HF. assert (F !! id = None) as HN by (by apply eq_None_not_Some).
      assert (function_call_output (sanitize_tool_id id) missing_output = answer_with F id) as -> by (unfold answer_with; by rewrite HN).
      split; cbn [is_pending is_open is_used is_items].
      * intros i. rewrite H1. destruct (decide (i = id)) as [->|Hi]; [|by rewrite Hdec]. by rewrite Hself, bool_decide_eq_false_2.
      * intros i. rewrite H2. destruct (decide (i = id)) as [->|Hi]; [|set_solver].
        split; [by intros []|]. intros (_&_&?). by rewrite HN in *.
      * intros i. rewrite elem_of_union, elem_of_singleton, H3. destruct (decide (i = id)) as [->|Hi]; [|set_solver].
        split; [|by left]. intros _. split; [set_solver|by right].
      * change [call; answer_with F id] with ([call] ++ [answer_with F id]). rewrite app_assoc.
        apply items_answer; [set_solver|]. by apply items_call.
Qed.

(** ** The messages *)

Lemma note_result_le R b : R ⊆ note_result R b.
Proof. destruct b; try done. cbn. destruct (R !! tool_use_id) eqn:E; [done|]. by apply insert_subseteq. Qed.

Lemma note_results_le R content : R ⊆ foldl note_result R content.
Proof.
  revert R. induction content as [|b content IH]; intros R; cbn; [done|]. etransitivity; [apply note_result_le|apply IH].
Qed.

Lemma note_message_le R msg : R ⊆ note_message R msg.
Proof. unfold note_message. destruct (m_role msg); [apply note_results_le|done]. Qed.

Lemma note_messages_le R ms : R ⊆ foldl note_message R ms.
Proof.
  revert R. induction ms as [|msg ms IH]; intros R; cbn; [done|]. etransitivity; [apply note_message_le|apply IH].
Qed.

Lemma nonout_app l1 l2 : nonout (l1 ++ l2) = nonout l1 ++ nonout l2.
Proof. apply filter_app. Qed.

Lemma nonout_all items : (∀ x, x ∈ items → is_output x = false) → nonout items = items.
Proof.
  unfold nonout. induction items as [|x items IH]; intros H; [done|]. rewrite filter_cons_True by (apply H; by left).
  f_equal. apply IH. intros y Hy. apply H. by right.
Qed.

Lemma nonout_flush parts st : nonout (is_items (flush parts st)) = nonout (is_items st) ++ flushed parts.
Proof.
  unfold flush, flushed. destruct (is_nil parts); [by rewrite app_nil_r|]. cbn [push is_items].
  by rewrite nonout_app, (nonout_all [_]) by by intros x ->%list_elem_of_singleton.
Qed.

Lemma nonout_result id output st : nonout (is_items (tool_result id output st)) = nonout (is_items st).
Proof.
  unfold tool_result. repeat case_match; cbn [is_items]; rewrite ?nonout_app; try done. by rewrite (app_nil_r (nonout _)).
Qed.

Lemma user_blocks F C R content st parts base items :
  Inv F C R st → foldl note_result R content ⊆ F → nonout (is_items st) = base ++ items →
  let r := foldl user_block (st, parts) content in
  let s := foldl said_block (items, parts) content in
  Inv F C (foldl note_result R content) r.1 ∧ r.2 = s.2 ∧ nonout (is_items r.1) = base ++ s.1.
Proof.
  revert R st parts items. induction content as [|b content IH]; intros R st parts items Hinv Hsub Hn; [done|].
  cbn [foldl] in *. assert (note_result R b ⊆ F) as Hb by (etransitivity; [apply note_results_le|done]).
  destruct b; cbn [user_block said_block note_result] in *; try (apply IH; done).
  - apply IH; [by apply inv_result, inv_flush|done|]. by rewrite nonout_result, nonout_flush, Hn, app_assoc.
  - apply IH; [|done|].
    + apply inv_push; [|by apply inv_flush]. intros x ->%list_elem_of_singleton. unfold compaction_item. by case_match.
    + cbn [push is_items]. rewrite nonout_app, nonout_flush, Hn, (nonout_all [_]), !app_assoc; [done|].
      intros x ->%list_elem_of_singleton. unfold compaction_item. by case_match.
Qed.

Lemma user_step F C R content st :
  Inv F C R st → foldl note_result R content ⊆ F →
  Inv F C (foldl note_result R content) (user_message content st)
  ∧ nonout (is_items (user_message content st)) = nonout (is_items st) ++ user_said content.
Proof.
  intros Hinv Hsub. unfold user_message, user_said.
  destruct (user_blocks F C R content st [] (nonout (is_items st)) [] Hinv Hsub) as (H1 & H2 & H3); [by rewrite app_nil_r|].
  destruct (foldl user_block (st, []) content) as [st' parts], (foldl said_block ([], []) content) as [items parts'].
  cbn [fst snd] in *. subst. split; [by apply inv_flush|]. by rewrite nonout_flush, H3, app_assoc.
Qed.

Lemma assistant_blocks F C R last_pos idx content st :
  NoDup (concat (map block_uses content)) → (∀ id, id ∈ concat (map block_uses content) → id ∉ C) → R ⊆ F →
  (∀ id, R !! id = None →
     match last_pos !! id with Some pos => idx <? pos | None => false end = bool_decide (is_Some (F !! id))) →
  Inv F C R st →
  let st' := foldl (assistant_block json_to_string last_pos idx) st content in
  Inv F (list_to_set (concat (map block_uses content)) ∪ C) R st'
  ∧ nonout (is_items st') = nonout (is_items st) ++ concat (map (assistant_said (λ _, [])) content).
Proof.
  cbv zeta. intros Hnd Hdis Hsub Hl. revert C st Hnd Hdis. induction content as [|b content IH]; intros C st Hnd Hdis Hinv.
  - cbn. rewrite app_nil_r. split; [|done]. by rewrite (left_id_L ∅ (∪)).
  - cbn [map concat foldl] in *. rewrite list_to_set_app_L. apply NoDup_app in Hnd as (_ & Hb & Hnd).
    assert (∀ x st0, Inv F C R st0 → is_output x = false → block_uses b = [] → assistant_said (λ _, []) b = [x] →
      assistant_block json_to_string last_pos idx st0 b = push [x] st0 →
      Inv F (list_to_set (block_uses b) ∪ list_to_set (concat (map block_uses content)) ∪ C) R
        (foldl (assistant_block json_to_string last_pos idx) (assistant_block json_to_string last_pos idx st0 b) content)
      ∧ nonout (is_items (foldl (assistant_block json_to_string last_pos idx) (assistant_block json_to_string last_pos idx st0 b) content))
        = nonout (is_items st0) ++ assistant_said (λ _, []) b ++ concat (map (assistant_said (λ _, [])) content)) as Hplain.
    { intros x st0 Hi Hx Hu Hs ->. rewrite Hu, Hs. cbn [list_to_set]. rewrite (left_id_L ∅ (∪)).
      destruct (IH C (push [x] st0)) as [H1 H2]; [done| | |].
      - intros id Hid. apply Hdis. rewrite Hu. done.
      - apply inv_push; [by intros y ->%list_elem_of_singleton|done].
      - split; [done|]. rewrite H2. cbn [push is_items].
        by rewrite nonout_app, (nonout_all [x]), <- app_assoc by by intros y ->%list_elem_of_singleton. }
    destruct b; cbn [assistant_said assistant_block block_uses] in *;
      try (cbn [list_to_set app]; rewrite (left_id_L ∅ (∪)); apply IH; [done|intros; by apply Hdis|done]);
      try (eapply Hplain; [exact Hinv| |done..]; done).
    + eapply Hplain; [exact Hinv| |done..]. unfold reasoning_item. by destruct encrypted_content, status.
    + cbn [list_to_set app] in *. rewrite (right_id_L ∅ (∪)).
      destruct (IH ({[id]} ∪ C) (tool_use json_to_string last_pos idx id name input st)) as [H1 H2]; [done| | |].
      * intros i Hi [->%elem_of_singleton|HC]%elem_of_union; [by apply (Hb id); [left|]|].
        by apply (Hdis i); [right|].
      * apply inv_tool_use; [apply Hdis; by left|done|apply Hl|done].
      * split; [by replace ({[id]} ∪ list_to_set (concat (map block_uses content)) ∪ C)
          with (list_to_set (concat (map block_uses content)) ∪ ({[id]} ∪ C)) by set_solver|].
        rewrite H2. assert (nonout (is_items (tool_use json_to_string last_pos idx id name input st))
          = nonout (is_items st) ++ [function_call name (arguments json_to_string input) (sanitize_tool_id id)]) as ->.
        { unfold tool_use. repeat case_match; cbn [is_items]; by rewrite nonout_app. }
        by rewrite <- app_assoc.
Qed.

(** The ids a message has results for. *)
Definition result_ids (msg : Msg) : list string :=
  match m_role msg with User => concat (map block_results (m_content msg)) | Assistant => [] end.

Lemma note_results_dom R content id :
  is_Some (foldl note_result R content !! id) ↔ is_Some (R !! id) ∨ id ∈ concat (map block_results content).
Proof.
  revert R. induction content as [|b content IH]; intros R; cbn [foldl map concat].
  - rewrite elem_of_nil. tauto.
  - rewrite IH. destruct b; cbn [note_result block_results app]; try tauto. rewrite elem_of_cons.
    destruct (R !! tool_use_id) as [v|] eqn:E.
    + destruct (decide (id = tool_use_id)) as [->|]; [|tauto]. rewrite E. split; [tauto|]. by left; eexists.
    + destruct (decide (id = tool_use_id)) as [->|]; [|rewrite lookup_insert_ne by done; tauto].
      rewrite lookup_insert_eq. split; [tauto|]. by left; eexists.
Qed.

Lemma note_message_dom R msg id : is_Some (note_message R msg !! id) ↔ is_Some (R !! id) ∨ id ∈ result_ids msg.
Proof.
  unfold note_message, result_ids. destruct (m_role msg); [apply note_results_dom|]. rewrite elem_of_nil. tauto.
Qed.

Lemma note_messages_dom R ms id :
  is_Some (foldl note_message R ms !! id) ↔ is_Some (R !! id) ∨ id ∈ concat (map result_ids ms).
Proof.
  revert R. induction ms as [|msg ms IH]; intros R; cbn [foldl map concat]; [rewrite elem_of_nil; tauto|].
  rewrite IH, note_message_dom, elem_of_app. tauto.
Qed.

Lemma last_pos_message (idx : nat) (acc : gmap string nat) content id :
  foldl (λ acc b, match b with ToolResult id _ _ => <[id := idx]> acc | _ => acc end) acc content !! id
  = if bool_decide (id ∈ concat (map (@block_results Json) content)) then Some idx else acc !! id.
Proof.
  revert acc. induction content as [|b content IH]; intros acc; [done|]. cbn [foldl map concat]. rewrite IH.
  destruct (bool_decide (id ∈ concat (map block_results content))) eqn:E.
  - rewrite bool_decide_eq_true_2; [done|]. apply elem_of_app. right. by apply bool_decide_eq_true in E.
  - apply bool_decide_eq_false in E. destruct b; cbn [block_results app]; try by rewrite bool_decide_eq_false_2.
    destruct (decide (id = tool_use_id)) as [->|Hne].
    + rewrite lookup_insert_eq, bool_decide_eq_true_2; [done|by left].
    + rewrite lookup_insert_ne by done. rewrite bool_decide_eq_false_2; [done|]. by intros [->|]%elem_of_cons.
Qed.

Lemma last_pos_cons idx msg ms acc :
  ∃ acc', tool_result_last_pos idx (msg :: ms) acc = tool_result_last_pos (S idx) ms acc'
  ∧ ∀ id, acc' !! id = if bool_decide (id ∈ result_ids msg) then Some idx else acc !! id.
Proof.
  cbn [tool_result_last_pos]. unfold result_ids. eexists. split; [done|]. intros id.
  destruct (m_role msg); [apply last_pos_message|]. by rewrite bool_decide_eq_false_2 by apply not_elem_of_nil.
Qed.

(** The place of the last result. *)
Lemma last_pos_spec idx ms acc id :
  match tool_result_last_pos idx ms acc !! id with
  | Some pos => (acc !! id = Some pos ∧ id ∉ concat (map result_ids ms))
                ∨ ∃ msg, idx ≤ pos ∧ ms !! (pos - idx) = Some msg ∧ id ∈ result_ids msg
  | None => acc !! id = None ∧ id ∉ concat (map result_ids ms)
  end.
Proof.
  revert idx acc. induction ms as [|msg ms IH]; intros idx acc; cbn [map concat].
  - cbn. destruct (acc !! id); [left; split; [done|apply not_elem_of_nil]|split; [done|apply not_elem_of_nil]].
  - destruct (last_pos_cons idx msg ms acc) as (acc' & -> & Hacc). specialize (IH (S idx) acc'). specialize (Hacc id).
    destruct (tool_result_last_pos (S idx) ms acc' !! id) as [pos|].
    + destruct IH as [[Hs Hn]|(m & Hle & Hm & Hid)].
      * rewrite Hs in Hacc. destruct (bool_decide (id ∈ result_ids msg)) eqn:Hb.
        -- injection Hacc as ->. right. exists msg. rewrite Nat.sub_diag. apply bool_decide_eq_true in Hb. by split_and!.
        -- left. split; [done|]. apply bool_decide_eq_false in Hb. by intros [|]%elem_of_app.
      * right. exists m. split_and!; [lia| |done]. by replace (pos - idx) with (S (pos - S idx)) by lia.
    + destruct IH as [Hs Hn]. rewrite Hs in Hacc. destruct (bool_decide (id ∈ result_ids msg)) eqn:Hb; [done|].
      split; [done|]. apply bool_decide_eq_false in Hb. by intros [|]%elem_of_app.
Qed.

(** While no result for a call has come, the table says whether one will. *)
Lemma last_pos_later ms1 msg ms2 id :
  m_role msg = Assistant → first_results ms1 !! id = None →
  match tool_result_last_pos 0 (ms1 ++ msg :: ms2) ∅ !! id with Some pos => length ms1 <? pos | None => false end
  = bool_decide (is_Some (first_results (ms1 ++ msg :: ms2) !! id)).
Proof.
  intros Hr Hn. assert (id ∉ concat (map result_ids ms1)) as Hn1.
  { intros Hin. assert (is_Some (first_results ms1 !! id)) as [? ?]; [|congruence].
    apply note_messages_dom. by right. }
  pose proof (last_pos_spec 0 (ms1 ++ msg :: ms2) ∅ id) as H. destruct (tool_result_last_pos _ _ _ !! id) as [pos|].
  - destruct H as [[? _]|(m & _ & Hm & Hid)]; [done|]. rewrite Nat.sub_0_r in Hm.
    assert (¬ pos < length ms1) as H1.
    { intros Hlt. rewrite lookup_app_l in Hm by done. apply Hn1. by eapply elem_of_concat_map. }
    assert (pos ≠ length ms1) as H2.
    { intros ->. rewrite lookup_app_r, Nat.sub_diag in Hm by lia. injection Hm as <-. unfold result_ids in Hid. rewrite Hr in Hid.
      by apply not_elem_of_nil in Hid. }
    rewrite (proj2 (Nat.ltb_lt _ _)) by lia. symmetry. apply bool_decide_eq_true_2. apply note_messages_dom. right.
    by eapply elem_of_concat_map.
  - destruct H as [_ H]. symmetry. apply bool_decide_eq_false_2. intros [[? ?]|?]%note_messages_dom; done.
Qed.

(** The whole pass. *)
Lemma input_loop_inv ms1 ms2 st :
  let ms := ms1 ++ ms2 in
  NoDup (all_calls ms) →
  Inv (first_results ms) (list_to_set (all_calls ms1)) (first_results ms1) st →
  nonout (is_items st) = concat (map (said (λ _, [])) ms1) →
  let st' := input_loop json_to_string (tool_result_last_pos 0 ms ∅) (length ms1) ms2 st in
  Inv (first_results ms) (list_to_set (all_calls ms)) (first_results ms) st'
  ∧ nonout (is_items st') = concat (map (said (λ _, [])) ms).
Proof.
  cbv zeta. revert ms1 st. induction ms2 as [|msg ms2 IH]; intros ms1 st Hnd Hinv Hn; cbn [input_loop].
  { rewrite app_nil_r in *. done. }
  assert (ms1 ++ msg :: ms2 = (ms1 ++ [msg]) ++ ms2) as Hms by by rewrite <- app_assoc.
  assert (first_results (ms1 ++ [msg]) = note_message (first_results ms1) msg) as HR by (unfold first_results; by rewrite foldl_app).
  assert (all_calls (ms1 ++ [msg]) = all_calls ms1 ++ calls_of msg) as HC
    by (unfold all_calls; rewrite map_app, concat_app; cbn; by rewrite app_nil_r).
  assert (note_message (first_results ms1) msg ⊆ first_results (ms1 ++ msg :: ms2)) as Hsub.
  { rewrite Hms. unfold first_results at 2. rewrite foldl_app. fold (first_results (ms1 ++ [msg])). rewrite HR. apply note_messages_le. }
  pose proof (IH (ms1 ++ [msg])) as IH'. rewrite <- Hms, length_app in IH'. cbn [length] in IH'. rewrite Nat.add_1_r in IH'.
  apply IH'; [done| |]; clear IH IH'; rewrite ?HR, ?HC.
  - unfold calls_of. unfold note_message in *. destruct (m_role msg) eqn:Hrole.
    + rewrite app_nil_r. by apply user_step.
    + rewrite list_to_set_app_L. rewrite (union_comm_L (list_to_set (all_calls ms1))).
      rewrite Hms in Hnd. unfold all_calls in Hnd. rewrite map_app, concat_app in Hnd. apply NoDup_app in Hnd as (Hnd & _ & _).
      fold (all_calls (ms1 ++ [msg])) in Hnd. rewrite HC in Hnd. unfold calls_of in Hnd. rewrite Hrole in Hnd.
      apply NoDup_app in Hnd as (_ & Hd & Hnd). apply assistant_blocks; [done| |done| |done].
      * intros id Hid Hin%elem_of_list_to_set. by apply (Hd id).
      * intros id Hid. by apply last_pos_later.
  - rewrite map_app, concat_app. cbn [map concat]. rewrite app_nil_r, <- Hn. unfold said, note_message in *.
    destruct (m_role msg) eqn:Hrole; [by eapply user_step|].
    rewrite Hms in Hnd. unfold all_calls in Hnd. rewrite map_app, concat_app in Hnd. apply NoDup_app in Hnd as (Hnd & _ & _).
    fold (all_calls (ms1 ++ [msg])) in Hnd. rewrite HC in Hnd. unfold calls_of in Hnd. rewrite Hrole in Hnd.
    apply NoDup_app in Hnd as (_ & Hd & Hnd). eapply assistant_blocks; [done| |exact Hsub| |exact Hinv].
    + intros id Hid Hin%elem_of_list_to_set. by apply (Hd id).
    + intros id Hid. by apply last_pos_later.
Qed.

(** ** The passes over the items *)

Definition expand (outputs : gmap string Json) (x : Json) : list Json :=
  if is_call x then
    match item_call_id x with
    | Some id => [x; default (function_call_output id missing_output) (outputs !! id)]
    | None => [x]
    end
  else [x].

Lemma order_items_expand outputs used items :
  claimed used items → order_items json_to_string outputs used items = concat (map (expand outputs) (nonout items)).
Proof.
  revert used. induction items as [|x items IH]; intros used; [done|]. intros [Hx Hc]. cbn [order_items]. unfold nonout.
  destruct (is_call x) eqn:Hcall.
  - assert (is_output x = false) as Ho.
    { unfold is_call, is_output in *. apply bool_decide_eq_false. intros E. rewrite E in Hcall. done. }
    rewrite filter_cons_True by done. cbn [map concat]. unfold expand at 1. rewrite Hcall.
    assert (call_set [x] = match item_call_id x with Some id => {[id]} | None => ∅ end) as Hs.
    { unfold call_set. cbn. rewrite Hcall. destruct (item_call_id x); cbn; set_solver. }
    rewrite Hs in Hc. destruct (item_call_id x) as [id|]; cbn [app].
    + by rewrite (IH _ Hc).
    + rewrite (left_id_L ∅ (∪)) in Hc. by rewrite (IH _ Hc).
  - assert (call_set [x] = ∅) as Hs by (unfold call_set; cbn; by rewrite Hcall).
    rewrite Hs, (left_id_L ∅ (∪)) in Hc. destruct (is_output x) eqn:Ho.
    + rewrite filter_cons_False by congruence. destruct (Hx eq_refl) as (id & -> & Hin).
      rewrite bool_decide_eq_true_2 by done. by apply IH.
    + rewrite filter_cons_True by done. cbn [map concat]. unfold expand at 1. rewrite Hcall. by rewrite (IH _ Hc).
Qed.

Lemma inject_nothing ids items :
  (∀ x id, x ∈ items → is_call x = true → item_call_id x = Some id → id ∈ ids) → inject_missing ids items = items.
Proof.
  induction items as [|x items IH]; intros H; [done|]. cbn [inject_missing].
  assert (inject_missing ids items = items) as IH' by (apply IH; intros y id Hy; apply H; by right).
  destruct (item_call_id x) as [id|] eqn:E; [|by rewrite IH']. destruct (is_call x) eqn:Hc; [|by rewrite IH'].
  rewrite bool_decide_eq_false_2; [by rewrite IH'|]. intros Hn. apply Hn. apply (H x); [by left|done|done].
Qed.

Lemma elem_of_output_ids items id :
  id ∈ output_ids items ↔ ∃ o, o ∈ items ∧ is_output o = true ∧ item_call_id o = Some id.
Proof.
  unfold output_ids. assert (∀ acc : gset string, id ∈ foldl (λ acc item, if is_output item then
    match item_call_id item with Some id => {[id]} ∪ acc | None => acc end else acc) acc items
    ↔ id ∈ acc ∨ ∃ o, o ∈ items ∧ is_output o = true ∧ item_call_id o = Some id) as H.
  { induction items as [|x items IH]; intros acc; cbn [foldl].
    - split; [by left|]. intros [|(o & Ho & _)]; [done|]. by apply not_elem_of_nil in Ho.
    - rewrite IH. assert ((∃ o, o ∈ x :: items ∧ is_output o = true ∧ item_call_id o = Some id)
        ↔ (is_output x = true ∧ item_call_id x = Some id) ∨ ∃ o, o ∈ items ∧ is_output o = true ∧ item_call_id o = Some id) as ->.
      { split; [intros (o & [->|]%elem_of_cons & ?); [by left|right; by exists o]|].
        intros [?|(o & ? & ?)]; [exists x|exists o]; (split; [|done]); apply elem_of_cons; auto. }
      destruct (is_output x), (item_call_id x) as [c|]; rewrite ?elem_of_union, ?elem_of_singleton; intuition congruence. }
  rewrite H. rewrite elem_of_empty. tauto.
Qed.

Lemma output_map_lookup items k o :
  (∃ x, x ∈ items ∧ is_output x = true ∧ item_call_id x = Some k) →
  (∀ x, x ∈ items → is_output x = true → item_call_id x = Some k → x = o) →
  output_map items !! k = Some o.
Proof.
  unfold output_map. assert (∀ m : gmap string Json, (m !! k = None ∨ m !! k = Some o) →
    (m !! k = Some o ∨ ∃ x, x ∈ items ∧ is_output x = true ∧ item_call_id x = Some k) →
    (∀ x, x ∈ items → is_output x = true → item_call_id x = Some k → x = o) → foldl note_output m items !! k = Some o) as H.
  { induction items as [|x items IH]; intros m Hm Hex Hall; cbn [foldl].
    - destruct Hex as [|(x & Hx & _)]; [done|]. by apply not_elem_of_nil in Hx.
    - assert ((note_output m x !! k = None ∨ note_output m x !! k = Some o)
        ∧ (is_output x = true → item_call_id x = Some k → note_output m x !! k = Some o)
        ∧ (m !! k = Some o → note_output m x !! k = Some o)) as (H1 & H2 & H3).
      { unfold note_output. destruct (is_output x) eqn:Ho; [|by split_and!]. destruct (item_call_id x) as [c|] eqn:Hc; [|by split_and!].
        destruct (decide (c = k)) as [->|Hne].
        - assert (x = o) as -> by (apply Hall; [by left|done|done]). destruct (m !! k) as [e|] eqn:He.
          + destruct Hm as [|[= ->]]; [done|]. destruct (is_missing o); cbn; rewrite He; split_and!; auto.
          + rewrite lookup_insert_eq. split_and!; auto.
        - assert (∀ m', m' = m ∨ m' = <[c:=x]> m → m' !! k = m !! k) as Hk by (intros m' [->| ->]; [done|by rewrite lookup_insert_ne]).
          rewrite Hk by (destruct (m !! c); [case_match|]; auto). split_and!; [done|congruence|done]. }
      apply IH; [done| |intros y Hy; apply Hall; by right].
      destruct Hex as [Hex|(y & [->|Hy]%elem_of_cons & Ho & Hc)]; [left; auto|left; auto|right; by exists y]. }
  intros Hex Hall. apply H; auto.
Qed.

(** What is said has no calls but those of the assistant. *)
Lemma user_said_plain content x : x ∈ user_said content → is_call x = false ∧ is_output x = false.
Proof.
  unfold user_said. assert (∀ parts x, x ∈ flushed parts → is_call x = false ∧ is_output x = false) as Hf.
  { intros parts y. unfold flushed. destruct (is_nil parts); [by intros ?%not_elem_of_nil|]. by intros ->%list_elem_of_singleton. }
  assert (∀ items parts, (∀ x, x ∈ items → is_call x = false ∧ is_output x = false) →
    ∀ x, x ∈ (foldl said_block (items, parts) content).1 → is_call x = false ∧ is_output x = false) as H.
  { induction content as [|b content IH]; intros items parts Hi; [done|]. cbn [foldl].
    destruct b; cbn [said_block]; try (by apply IH); apply IH; intros y Hy; apply elem_of_app in Hy as [Hy|Hy]; auto; try (by eapply Hf).
    apply elem_of_app in Hy as [Hy| ->%list_elem_of_singleton]; [by eapply Hf|]. unfold compaction_item. by case_match. }
  specialize (H [] []). destruct (foldl said_block ([], []) content) as [items parts]. intros [Hx|Hx]%elem_of_app; [|by eapply Hf].
  apply H; [|done]. intros y Hy. by apply not_elem_of_nil in Hy.
Qed.

Lemma expand_plain outputs items :
  (∀ x, x ∈ items → is_call x = false) → concat (map (expand outputs) items) = items.
Proof.
  induction items as [|x items IH]; intros H; [done|]. cbn [map concat]. unfold expand at 1. rewrite (H x) by (by left).
  cbn [app]. f_equal. apply IH. intros y Hy. apply H. by right.
Qed.

Lemma concat_map_concat {A B} (f : A → list B) (l : list (list A)) : concat (map f (concat l)) = concat (map (λ x, concat (map f x)) l).
Proof. induction l as [|x l IH]; [done|]. cbn. by rewrite map_app, concat_app, IH. Qed.

Lemma expand_said F outputs msg :
  (∀ id, id ∈ calls_of msg → outputs !! sanitize_tool_id id = Some (answer_with F id)) →
  concat (map (expand outputs) (said (λ _, []) msg)) = said (λ id, [answer_with F id]) msg.
Proof.
  unfold said, calls_of. destruct (m_role msg); intros H.
  - apply expand_plain. intros x Hx. by eapply user_said_plain.
  - rewrite concat_map_concat, map_map. f_equal. revert H. induction (m_content msg) as [|b content IH]; intros H; [done|].
    cbn [map concat] in *. f_equal; [|apply IH; intros id Hid; apply H; apply elem_of_app; by right].
    destruct b; try done; cbn [assistant_said map concat].
    + unfold reasoning_item. by destruct encrypted_content, status.
    + unfold expand. cbn [app]. change (is_call (function_call _ _ _)) with true. cbn iota.
      change (item_call_id (function_call _ _ (sanitize_tool_id id))) with (Some (sanitize_tool_id id)). cbn iota.
      rewrite (H id); [done|]. by left.
Qed.

Lemma said_calls msg x :
  x ∈ said (λ _, []) msg → is_call x = true → ∃ id, id ∈ calls_of msg ∧ item_call_id x = Some (sanitize_tool_id id).
Proof.
  unfold said, calls_of. destruct (m_role msg).
  - intros Hx Hc. apply user_said_plain in Hx as [? _]. congruence.
  - induction (m_content msg) as [|b content IH]; cbn [map concat]; [by intros ?%not_elem_of_nil|].
    intros [Hx|Hx]%elem_of_app Hc.
    + destruct b; cbn [assistant_said] in Hx; try (by apply not_elem_of_nil in Hx); apply list_elem_of_singleton in Hx as ->; try done.
      * unfold reasoning_item in Hc. by destruct encrypted_content, status.
      * exists id. split; [by left|done].
    + destruct (IH Hx Hc) as (id & Hid & E). exists id. split; [apply elem_of_app; by right|done].
Qed.

Lemma pending_orphans_plain pending x :
  x ∈ pending_orphans json_to_string pending → is_call x = false ∧ is_output x = false.
Proof. unfold pending_orphans. intros (e & _ & He)%list_elem_of_omap. by eapply orphan_is_message. Qed.

(** The items of the first pass, when every call has an id of its own. *)
Lemma collected ms :
  NoDup (all_calls ms) →
  ∃ items, collect_items json_to_string set_order ms
           = items ++ pending_orphans json_to_string (filter (λ e, e.1 ∉ all_calls ms) (first_results ms))
  ∧ ItemsInv (first_results ms) (list_to_set (all_calls ms)) (list_to_set (all_calls ms)) items
  ∧ nonout items = concat (map (said (λ _, [])) ms).
Proof.
  intros Hnd. unfold collect_items. destruct (input_loop_inv [] ms (MkInput [] ∅ ∅ ∅)) as [[H1 H2 H3 H4] H5]; [done| |done|].
  { split; cbn [is_pending is_open is_used is_items].
    - intros id. by case_bool_decide.
    - intros id. split; [by intros ?%elem_of_empty|]. by intros [?%elem_of_empty _].
    - intros id. split; [by intros ?%elem_of_empty|]. by intros [?%elem_of_empty _].
    - split; [by intros o ?%not_elem_of_nil|by intros id ?%elem_of_empty|done|by intros id ?%elem_of_empty]. }
  cbn [app length] in *. set (st := input_loop _ _ _ _ _) in *.
  assert (is_open st = ∅) as Ho.
  { apply set_eq. intros id. rewrite H2, elem_of_empty. split; [|done]. intros (_ & Hn & [? ?]). congruence. }
  assert (set_order (is_open st) = []) as ->.
  { apply Permutation_nil. rewrite Ho, <- (elements_empty (C:=gset string)). symmetry. apply set_order_perm. }
  exists (is_items st). cbn [foldl]. split_and!; [|..|done].
  - f_equal. f_equal. apply map_eq. intros id. rewrite H1. destruct (bool_decide (id ∈ list_to_set (all_calls ms))) eqn:E.
    + apply bool_decide_eq_true, elem_of_list_to_set in E. symmetry. apply map_lookup_filter_None. right. intros v _ Hn. by apply Hn.
    + apply bool_decide_eq_false in E. rewrite elem_of_list_to_set in E. destruct (first_results ms !! id) as [v|] eqn:HF.
      * symmetry. by apply map_lookup_filter_Some.
      * symmetry. apply map_lookup_filter_None. by left.
  - assert (is_used st = list_to_set (all_calls ms)) as Hu; [|by rewrite Hu in H4]. apply set_eq. intros id. rewrite H3.
    split; [by intros []|]. intros Hid. split; [done|]. destruct (first_results ms !! id); [left; by eexists|by right].
Qed.

(** The whole request is the reference, if no two calls have the same sanitized id. *)
Lemma request_spec ms :
  NoDup (map sanitize_tool_id (all_calls ms)) →
  build_responses_input json_to_string set_order ms = reference_input ms.
Proof.
  intros Hnd. assert (NoDup (all_calls ms)) as Hnd1 by by eapply NoDup_fmap_1.
  assert (∀ a b, a ∈ all_calls ms → b ∈ all_calls ms → sanitize_tool_id a = sanitize_tool_id b → a = b) as Hinj.
  { intros a b [i Ha]%list_elem_of_lookup [j Hb]%list_elem_of_lookup E.
    assert (i = j) as ->; [|congruence]. eapply NoDup_lookup; [exact Hnd|..];
      rewrite list_lookup_fmap, ?Ha, ?Hb; cbn; [done|by rewrite E]. }
  unfold build_responses_input. destruct (collected ms Hnd1) as (items & -> & [I1 I2 I3 I4] & Hn).
  set (F := first_results ms) in *. set (orphans := pending_orphans _ _) in *.
  assert (∀ x, x ∈ orphans → is_call x = false ∧ is_output x = false) as Hplain by apply pending_orphans_plain.
  rewrite inject_nothing.
  - set (L := items ++ orphans).
    assert (∀ id, id ∈ all_calls ms → output_map L !! sanitize_tool_id id = Some (answer_with F id)) as Hmap.
    { intros id Hid. apply output_map_lookup.
      - exists (answer_with F id). split; [|done]. apply elem_of_app. left. apply I2. by apply elem_of_list_to_set.
      - intros x [Hx|Hx]%elem_of_app Ho Hc; [|apply Hplain in Hx as [_ ?]; congruence].
        destruct (I1 x Hx Ho) as (id' & Hid' & ->). apply elem_of_list_to_set in Hid'.
        change (item_call_id (answer_with F id')) with (Some (sanitize_tool_id id')) in Hc. injection Hc as Hc.
        by rewrite (Hinj id' id). }
    rewrite (order_items_expand _ ∅).
    + unfold L at 2. rewrite nonout_app, Hn, (nonout_all orphans), map_app, concat_app by (intros x Hx; by apply Hplain).
      rewrite (expand_plain _ orphans) by (intros x Hx; by apply Hplain). unfold reference_input. fold F. f_equal.
      rewrite concat_map_concat, map_map. f_equal. apply map_ext_in. intros msg Hmsg. apply expand_said. intros id Hid. apply Hmap.
      apply list_elem_of_In, list_elem_of_lookup in Hmsg as [i Hi]. by eapply elem_of_concat_map.
    + apply claimed_app. split; [done|]. apply claimed_plain. intros x Hx. by apply Hplain.
  - intros x id [Hx|Hx]%elem_of_app Hc Hid; [|apply Hplain in Hx as [? _]; congruence].
    assert (x ∈ nonout items) as Hx'.
    { apply list_elem_of_filter. split; [|done]. unfold is_call, is_output in *. apply bool_decide_eq_false. intros E.
      rewrite E in Hc. done. }
    rewrite Hn in Hx'. apply list_elem_of_In, in_concat in Hx' as (l & (msg & <- & Hmsg)%in_map_iff & Hin).
    apply list_elem_of_In in Hin. destruct (said_calls msg x Hin Hc) as (i & Hi & E).
    rewrite Hid in E. injection E as ->. apply elem_of_output_ids. exists (answer_with F i). split; [|done].
    apply elem_of_app. left. apply I2, elem_of_list_to_set. apply list_elem_of_In, list_elem_of_lookup in Hmsg as [j Hj].
    by eapply elem_of_concat_map.
Qed.

(** ** Calls have ids, whatever the conversation *)

Lemma named_app l1 l2 : calls_named l1 → calls_named l2 → calls_named (l1 ++ l2).
Proof. intros H1 H2 x [Hx|Hx]%elem_of_app; [by apply H1|by apply H2]. Qed.

Lemma named_plain l : (∀ x, x ∈ l → is_call x = false) → calls_named l.
Proof. intros H x Hx Hc. rewrite (H x Hx) in Hc. done. Qed.

Lemma named_call name args id l : calls_named l → calls_named (function_call name args id :: l).
Proof. intros H x [->|Hx]%elem_of_cons Hc; [by eexists|by apply H]. Qed.

Lemma named_output id out : calls_named [function_call_output id out].
Proof. by intros x ->%list_elem_of_singleton. Qed.

Lemma named_flush parts st : calls_named (is_items st) → calls_named (is_items (flush parts st)).
Proof.
  intros H. unfold flush. destruct (is_nil parts); [done|]. apply named_app; [done|]. by intros x ->%list_elem_of_singleton.
Qed.

Lemma named_user content st : calls_named (is_items st) → calls_named (is_items (user_message content st)).
Proof.
  intros H. unfold user_message. assert (∀ parts, calls_named (is_items (foldl user_block (st, parts) content).1)) as Hf.
  { revert st H. induction content as [|b content IH]; intros st H parts; [done|]. cbn [foldl].
    destruct b; cbn [user_block]; try (by apply IH); apply IH.
    - unfold tool_result. pose proof (named_flush parts st H) as Hp. repeat case_match; cbn [is_items]; try done.
      apply named_app; [done|apply named_output].
    - apply named_app; [by apply named_flush|]. intros x ->%list_elem_of_singleton. unfold compaction_item. by case_match. }
  specialize (Hf []). destruct (foldl user_block (st, []) content) as [st' parts]. by apply named_flush.
Qed.

Lemma named_assistant last_pos idx content st :
  calls_named (is_items st) → calls_named (is_items (foldl (assistant_block json_to_string last_pos idx) st content)).
Proof.
  revert st. induction content as [|b content IH]; intros st H; [done|]. cbn [foldl]. apply IH.
  destruct b; cbn [assistant_block push is_items]; try done.
  - apply named_app; [done|]. by intros x ->%list_elem_of_singleton.
  - apply named_app; [done|]. intros x ->%list_elem_of_singleton. unfold reasoning_item. by destruct encrypted_content, status.
  - unfold tool_use. repeat case_match; cbn [is_items]; (apply named_app; [done|]); apply named_call;
      first [apply named_output|by intros x ?%not_elem_of_nil].
Qed.

Lemma named_loop last_pos idx ms st :
  calls_named (is_items st) → calls_named (is_items (input_loop json_to_string last_pos idx ms st)).
Proof.
  revert idx st. induction ms as [|msg ms IH]; intros idx st H; [done|]. cbn [input_loop]. apply IH.
  destruct (m_role msg); [by apply named_user|by apply named_assistant].
Qed.

Lemma named_close order st : calls_named (is_items st) → calls_named (is_items (foldl close_call st order)).
Proof.
  revert st. induction order as [|id order IH]; intros st H; [done|]. cbn [foldl]. apply IH. unfold close_call.
  repeat case_match; cbn [push is_items]; try done; (apply named_app; [done|apply named_output]).
Qed.

Lemma collect_named ms : calls_named (collect_items json_to_string set_order ms).
Proof.
  unfold collect_items. apply named_app.
  - apply named_close, named_loop. by intros x ?%not_elem_of_nil.
  - apply named_plain. intros x Hx. by eapply pending_orphans_plain.
Qed.
End reference.

(** ** Properties *)

Section properties.
Context {Time : Type} (json_to_string : Json → string) (set_order : gset string → list string).
Implicit Types (ms : list (Message Json Time)).

(** C16. Whatever the conversation - interrupted tools, results without a call, repeated or colliding
    ids, results before their calls - every call in the request is followed at once by an output with
    its id, and no output stands anywhere else. *)
Theorem calls_answered_in_place ms : paired (build_responses_input json_to_string set_order ms).
Proof. apply order_items_paired; [apply output_map_ok|apply inject_missing_named, collect_named]. Qed.

(** C27. If no two calls have the same id after sanitizing, the passes compute the reference: every
    message in its place, every call followed by the first result the conversation has for it or by the
    placeholder, and the results that belong to no call at the end, as text. *)
Theorem request_is_reference ms :
  (∀ X, set_order X ≡ₚ elements X) → NoDup (map sanitize_tool_id (all_calls ms)) →
  build_responses_input json_to_string set_order ms = reference_input json_to_string ms.
Proof. intros Ho. by apply request_spec. Qed.
End properties.

Module RequestDemo.
Definition text (t : string) : Message Json unit :=
  {| m_role := User; m_content := [Text t None]; m_timestamp := None; m_tool_duration_ms := None |}.
Definition call (id : string) : Message Json unit :=
  {| m_role := Assistant; m_content := [ToolUse id "bash" (JObject []) None]; m_timestamp := None;
     m_tool_duration_ms := None |}.
Definition result (id content : string) : Message Json unit :=
  {| m_role := User; m_content := [ToolResult id content None]; m_timestamp := None; m_tool_duration_ms := None |}.

Definition json_to_string (_ : Json) : string := "{}".

(** A result before its call, one after other text, one missing, one without a call. *)
Definition messages : list (Message Json unit) :=
  [text "hello"; result "c2" "two"; call "c1"; text "wait"; call "c2"; result "c1" "one"; call "c3"; result "c9" "lost"].

Notation request := (build_responses_input json_to_string elements).

Example messages_request :
  request messages =
    [message_item "user" [input_text "hello"];
     function_call "bash" "{}" "c1"; function_call_output "c1" "one";
     message_item "user" [input_text "wait"];
     function_call "bash" "{}" "c2"; function_call_output "c2" "two";
     function_call "bash" "{}" "c3"; function_call_output "c3" missing_output;
     message_item "user" [input_text ("[Recovered orphaned tool output: c9]" +:+ nl +:+ "lost")]].
Proof. by vm_compute. Qed.

(** A provider that numbers the calls of each turn anew: the second call is answered with the output of
    the first, and its own is lost. *)
Example repeated_id_mixes_outputs :
  request [call "call_0"; result "call_0" "first"; call "call_0"; result "call_0" "second"] =
    [function_call "bash" "{}" "call_0"; function_call_output "call_0" "first";
     function_call "bash" "{}" "call_0"; function_call_output "call_0" "first"].
Proof. by vm_compute. Qed.

(** Two ids that sanitizing makes equal. *)
Example sanitized_ids_collide :
  request [call "a.1"; result "a.1" "first"; call "a_1"; result "a_1" "second"] =
    [function_call "bash" "{}" "a_1"; function_call_output "a_1" "first";
     function_call "bash" "{}" "a_1"; function_call_output "a_1" "first"].
Proof. by vm_compute. Qed.
End RequestDemo.

Lemma request_is_reference_witness :
  ((∀ X : gset string, elements X ≡ₚ elements X) ∧ NoDup (map sanitize_tool_id (all_calls RequestDemo.messages)))
  ∧ build_responses_input RequestDemo.json_to_string elements RequestDemo.messages
    = reference_input RequestDemo.json_to_string RequestDemo.messages.
Proof.
  assert (NoDup (map sanitize_tool_id (all_calls RequestDemo.messages))) as H.
  { apply (bool_decide_unpack _). by vm_compute. }
  split; [split; [done|exact H]|].
  apply (request_is_reference RequestDemo.json_to_string elements RequestDemo.messages); [done|exact H].
Defined.
