(* ===== verification/AnthropicRequest.v ===== *)
(** * Requests to Anthropic (crates/arterm-provider-anthropic/src/lib.rs)

    A conversation becomes messages that alternate between the roles, in which every tool call is
    answered in the next message; tools and the system prompt are sent with them; and up to four blocks
    carry a marker up to which the provider caches the request.  Log lines are left out; the check at
    the end of [format_messages], which only logs, is [unanswered]. *)

From S2P Require Export OpenAiRequest ProviderModels.

Definition OAUTH_BILLING_HEADER : string := "cc_version=2.1.123; cc_entrypoint=sdk-cli; cch=33f85;".
Definition CLAUDE_CODE_IDENTITY : string := "You are a Claude agent, built on Anthropic's Claude Agent SDK.".
Definition CONTINUATION_USER_TURN : string := "Continue.".

(** ** Data *)

Record CacheControlParam := MkCacheControl { ccp_kind : string; ccp_ttl : option string }.

(** [CacheControlParam::ephemeral] *)
Definition ephemeral (cache_ttl_1h : bool) : CacheControlParam :=
  if cache_ttl_1h then MkCacheControl "ephemeral" (Some "1h") else MkCacheControl "ephemeral" None.

Record ApiImageSource := MkImageSource { img_kind : string; img_media_type : string; img_data : string }.

Inductive ToolResultContentBlock := Result_Text (text : string) | Result_Image (source : ApiImageSource).

Inductive ToolResultContent := Content_Text (text : string) | Content_Blocks (blocks : list ToolResultContentBlock).

Inductive ApiContentBlock :=
  | Api_Text (text : string) (cache_control : option CacheControlParam)
  | Api_ToolUse (id name : string) (input : Json) (cache_control : option CacheControlParam)
  | Api_ToolResult (tool_use_id : string) (content : ToolResultContent) (is_error : bool)
  | Api_Thinking (thinking signature : string)
  | Api_Image (source : ApiImageSource).

Record ApiMessage := MkApiMessage { am_role : string; am_content : list ApiContentBlock }.

Record ApiTool := MkApiTool {
  at_name : string;
  at_description : string;
  at_input_schema : Json;
  at_cache_control : option CacheControlParam;
}.

Record ApiSystemBlock := MkSystemBlock { sb_text : string; sb_cache_control : option CacheControlParam }.

(** ** One answer for each call *)

Definition INTERRUPTED : string := "[Session interrupted before tool execution completed]".

(** [is_placeholder_tool_result] *)
Definition is_placeholder_tool_result (content : string) (is_error : option bool) : bool :=
  default false is_error && (contains TOOL_OUTPUT_MISSING_TEXT content || contains INTERRUPTED content).

Section messages.
Context {Time : Type}.
Notation Msg := (Message Json Time).
Notation Block := (ContentBlock Json).

(** For every id where the winning result is, and whether it is a real one; whether there were others. *)
Record Winners := MkWinners {
  w_winner : gmap string (nat * nat * bool);
  w_duplicate_seen : bool;
}.

Definition note_winner (mi bi : nat) (w : Winners) (b : Block) : Winners :=
  match b with
  | ToolResult tool_use_id content is_error =>
      let real := negb (is_placeholder_tool_result content is_error) in
      match w_winner w !! tool_use_id with
      | None => MkWinners (<[tool_use_id := (mi, bi, real)]> (w_winner w)) (w_duplicate_seen w)
      | Some (_, false) =>
          if real then MkWinners (<[tool_use_id := (mi, bi, true)]> (w_winner w)) true
          else MkWinners (w_winner w) true
      | Some (_, true) => MkWinners (w_winner w) true
      end
  | _ => w
  end.

Fixpoint winners_of_blocks (mi bi : nat) (w : Winners) (content : list Block) : Winners :=
  match content with
  | [] => w
  | b :: content => winners_of_blocks mi (S bi) (note_winner mi bi w b) content
  end.

Fixpoint winners (mi : nat) (w : Winners) (ms : list Msg) : Winners :=
  match ms with
  | [] => w
  | msg :: ms => winners (S mi) (winners_of_blocks mi 0 w (m_content msg)) ms
  end.

(** Keep a result only where it wins. *)
Fixpoint retain_winners (w : gmap string (nat * nat * bool)) (mi bi : nat) (content : list Block) : list Block :=
  match content with
  | [] => []
  | b :: content =>
      let rest := retain_winners w mi (S bi) content in
      match b with
      | ToolResult id _ _ => if bool_decide (fst <$> w !! id = Some (mi, bi)) then b :: rest else rest
      | _ => b :: rest
      end
  end.

Fixpoint retain_messages (w : gmap string (nat * nat * bool)) (mi : nat) (ms : list Msg) : list Msg :=
  match ms with
  | [] => []
  | msg :: ms => set_content (retain_winners w mi 0 (m_content msg)) msg :: retain_messages w (S mi) ms
  end.

(** [dedupe_tool_results] *)
Definition dedupe_tool_results (ms : list Msg) : list Msg :=
  let w := winners 0 (MkWinners ∅ false) ms in
  if negb (w_duplicate_seen w) then ms else retain_messages (w_winner w) 0 ms.

(** ** Blocks *)

Definition image_source (media_type data : string) : ApiImageSource := MkImageSource "base64" media_type data.

Definition has_image (blocks : list ToolResultContentBlock) : bool :=
  existsb (λ b, match b with Result_Image _ => true | _ => false end) blocks.

(** [map_tool_name_for_oauth] in OAuth mode. *)
Definition api_tool_name (is_oauth : bool) (name : string) : string :=
  if is_oauth then anthropic_map_tool_name_for_oauth name else name.

(** The last block written and those before it, newest first. *)
Definition format_block (is_oauth : bool) (result : list ApiContentBlock) (b : Block) : list ApiContentBlock :=
  match b with
  | Text text _ =>
      match result with
      | Api_ToolResult id (Content_Blocks blocks) is_error :: before =>
          if has_image blocks
          then Api_ToolResult id (Content_Blocks (blocks ++ [Result_Text text])) is_error :: before
          else Api_Text text None :: result
      | _ => Api_Text text None :: result
      end
  | AnthropicThinking thinking signature => Api_Thinking thinking signature :: result
  | ToolUse id name input _ =>
      Api_ToolUse (sanitize_tool_id id) (api_tool_name is_oauth name)
        (match input with JObject _ => input | _ => JObject [] end) None :: result
  | ToolResult tool_use_id content is_error =>
      Api_ToolResult (sanitize_tool_id tool_use_id) (Content_Text content) (default false is_error) :: result
  | Image media_type data =>
      let img := image_source media_type data in
      match result with
      | Api_ToolResult id (Content_Text text) is_error :: before =>
          Api_ToolResult id (Content_Blocks [Result_Text text; Result_Image img]) is_error :: before
      | Api_ToolResult id (Content_Blocks blocks) is_error :: before =>
          Api_ToolResult id (Content_Blocks (blocks ++ [Result_Image img])) is_error :: before
      | _ => Api_Image img :: result
      end
  | _ => result
  end.

(** [format_content_blocks] *)
Definition format_content_blocks (blocks : list Block) (is_oauth : bool) : list ApiContentBlock :=
  reverse (foldl (format_block is_oauth) [] blocks).

(** ** Messages *)

Definition role_str (r : Role) : string := match r with User => "user" | Assistant => "assistant" end.

(** The results made up for the calls of a message that have none. *)
Definition synthetic_results (dangling : gset string) (content : list Block) : list ApiContentBlock :=
  omap (λ b, match b with
             | ToolUse id _ _ _ =>
                 if bool_decide (id ∈ dangling)
                 then Some (Api_ToolResult (sanitize_tool_id id) (Content_Text INTERRUPTED) true)
                 else None
             | _ => None
             end) content.

Definition format_message (is_oauth : bool) (dangling : gset string) (msg : Msg) : list ApiMessage :=
  let content := format_content_blocks (m_content msg) is_oauth in
  (if is_nil content then [] else [MkApiMessage (role_str (m_role msg)) content])
  ++ match m_role msg with
     | Assistant =>
         let synthetic := synthetic_results dangling (m_content msg) in
         if is_nil synthetic then [] else [MkApiMessage "user" synthetic]
     | User => []
     end.

(** Consecutive messages of one role become one; the merged messages so far, newest first. *)
Definition merge_message (merged : list ApiMessage) (msg : ApiMessage) : list ApiMessage :=
  match merged with
  | last :: before =>
      if String.eqb (am_role last) (am_role msg)
      then MkApiMessage (am_role last) (am_content last ++ am_content msg) :: before
      else msg :: merged
  | [] => [msg]
  end.

Definition merge_messages (ms : list ApiMessage) : list ApiMessage := reverse (foldl merge_message [] ms).

(** A request must not end with the assistant. *)
Definition ensure_user_last (merged : list ApiMessage) : list ApiMessage :=
  match last merged with
  | Some m =>
      if String.eqb (am_role m) "assistant"
      then merged ++ [MkApiMessage "user" [Api_Text CONTINUATION_USER_TURN None]]
      else merged
  | None => merged
  end.

Definition dangling_calls (ms : list Msg) : gset string :=
  list_to_set (tool_uses ms) ∖ list_to_set (tool_results ms).

(** [format_messages] *)
Definition format_messages (ms : list Msg) (is_oauth : bool) : list ApiMessage :=
  let ms := dedupe_tool_results ms in
  ensure_user_last (merge_messages (concat (map (format_message is_oauth (dangling_calls ms)) ms))).
End messages.

Definition api_uses (m : ApiMessage) : list string :=
  omap (λ b, match b with Api_ToolUse id _ _ _ => Some id | _ => None end) (am_content m).
Definition api_results (m : ApiMessage) : list string :=
  omap (λ b, match b with Api_ToolResult id _ _ => Some id | _ => None end) (am_content m).

(** The final check of [format_messages]: the calls that are not answered in the next message. *)
Fixpoint unanswered (ms : list ApiMessage) : list string :=
  match ms with
  | [] => []
  | m :: rest =>
      (if String.eqb (am_role m) "assistant" then
         match rest with
         | next :: _ =>
             if negb (String.eqb (am_role next) "user") then api_uses m
             else filter (λ id, id ∉ api_results next) (api_uses m)
         | [] => api_uses m
         end
       else []) ++ unanswered rest
  end.

(** ** Cache markers *)

(** The last text or call of a message is marked. *)
Fixpoint mark_first (c : CacheControlParam) (rev_content : list ApiContentBlock) : list ApiContentBlock :=
  match rev_content with
  | [] => []
  | Api_Text text _ :: before => Api_Text text (Some c) :: before
  | Api_ToolUse id name input _ :: before => Api_ToolUse id name input (Some c) :: before
  | b :: before => b :: mark_first c before
  end.

Definition mark_message (c : CacheControlParam) (m : ApiMessage) : ApiMessage :=
  MkApiMessage (am_role m) (reverse (mark_first c (reverse (am_content m)))).

(** The last [n] messages of the assistant are marked; the messages are given newest first. *)
Fixpoint mark_assistants (c : CacheControlParam) (n : nat) (rev_messages : list ApiMessage) : list ApiMessage :=
  match rev_messages with
  | [] => []
  | m :: before =>
      match n with
      | 0 => rev_messages
      | S n' =>
          if String.eqb (am_role m) "assistant" then mark_message c m :: mark_assistants c n' before
          else m :: mark_assistants c n before
      end
  end.

(** [add_message_cache_breakpoint] *)
Definition add_message_cache_breakpoint (ms : list ApiMessage) (cache_ttl_1h : bool) : list ApiMessage :=
  if length ms <? 3 then ms else reverse (mark_assistants (ephemeral cache_ttl_1h) 2 (reverse ms)).

(** [format_messages_with_identity] *)
Definition format_messages_with_identity (ms : list ApiMessage) (is_oauth : bool) (cache_ttl_1h : bool) : list ApiMessage :=
  add_message_cache_breakpoint ms cache_ttl_1h.

(** ** The system prompt *)

Definition system_block (text : string) (cache_control : option CacheControlParam) : list ApiSystemBlock :=
  if is_empty text then [] else [MkSystemBlock text cache_control].

(** [build_system_param_split] *)
Definition build_system_param_split (static_part dynamic_part : string) (is_oauth cache_ttl_1h : bool)
    : option (list ApiSystemBlock) :=
  let parts := system_block static_part (Some (ephemeral cache_ttl_1h)) ++ system_block dynamic_part None in
  if is_oauth then
    Some ([MkSystemBlock ("x-anthropic-billing-header: " +:+ OAUTH_BILLING_HEADER) None;
           MkSystemBlock CLAUDE_CODE_IDENTITY None] ++ parts)
  else if is_empty static_part && is_empty dynamic_part then None
  else Some parts.

(** [build_system_param] *)
Definition build_system_param (system : string) (is_oauth cache_ttl_1h : bool) : option (list ApiSystemBlock) :=
  build_system_param_split system "" is_oauth cache_ttl_1h.

(** ** Tools *)

Definition typed (t : string) : Json := jobj [("type", JString t)].
Definition jstrings (l : list string) : Json := JArray (map JString l).

Definition closed_schema (properties : list (string * Json)) (required : list string) : Json :=
  jobj [("type", JString "object"); ("properties", jobj properties); ("required", jstrings required);
        ("additionalProperties", JBool false)].

Definition curated_tool (name description : string) (schema : Json) : ApiTool := MkApiTool name description schema None.

(** The builtin definitions, each with the local tools that can run it. *)
Definition curated_tools : list (list string * ApiTool) :=
  [(["subagent"], curated_tool "Agent" "Launch a new agent to handle complex, multi-step tasks."
      (closed_schema [("description", typed "string"); ("prompt", typed "string"); ("subagent_type", typed "string");
                      ("run_in_background", typed "boolean")] ["description"; "prompt"]));
   (["bash"], curated_tool "Bash" "Executes a given bash command and returns its output."
      (closed_schema [("command", typed "string"); ("timeout", typed "integer"); ("run_in_background", typed "boolean");
                      ("justification", jobj [("type", JString "string");
                         ("description", JString "Only when re-issuing a command the destructive gate refused; explain which user request it serves.")])]
         ["command"]));
   (["edit"], curated_tool "Edit" "Performs exact string replacements in files."
      (closed_schema [("file_path", typed "string"); ("old_string", typed "string"); ("new_string", typed "string");
                      ("replace_all", jobj [("type", JString "boolean"); ("default", JBool false)])]
         ["file_path"; "old_string"; "new_string"]));
   (["glob"], curated_tool "Glob" "Fast file pattern matching tool."
      (closed_schema [("pattern", typed "string"); ("path", typed "string")] ["pattern"]));
   (["grep"], curated_tool "Grep" "A powerful search tool built on ripgrep."
      (closed_schema [("pattern", typed "string"); ("path", typed "string"); ("glob", typed "string");
                      ("output_mode", jobj [("type", JString "string");
                                            ("enum", jstrings ["content"; "files_with_matches"; "count"])]);
                      ("-B", typed "number"); ("-A", typed "number"); ("-C", typed "number"); ("context", typed "number");
                      ("-n", typed "boolean"); ("-i", typed "boolean"); ("type", typed "string");
                      ("head_limit", typed "number"); ("offset", typed "number"); ("multiline", typed "boolean")]
         ["pattern"]));
   (["read"], curated_tool "Read" "Reads a file from the local filesystem."
      (closed_schema [("file_path", typed "string");
                      ("offset", jobj [("type", JString "integer"); ("minimum", JNumber "0")]);
                      ("limit", jobj [("type", JString "integer"); ("exclusiveMinimum", JNumber "0")]);
                      ("pages", typed "string")] ["file_path"]));
   (["skill_manage"], curated_tool "Skill" "Execute a skill within the main conversation"
      (closed_schema [("skill", typed "string"); ("args", typed "string")] ["skill"]));
   (["write"], curated_tool "Write" "Writes a file to the local filesystem."
      (closed_schema [("file_path", typed "string"); ("content", typed "string")] ["file_path"; "content"]))].

Definition OAUTH_BUILTIN_LOCAL_TOOLS : list string :=
  ["subagent"; "bash"; "edit"; "glob"; "grep"; "read"; "skill_manage"; "write"].

Section tools.
Context (store : QuirkStore).

Definition anthropic_input_schema (schema : Json) : Json := normalize schema ANTHROPIC store.

Definition has_backing (tools : list ToolDefinition) (candidates : list string) : bool :=
  existsb (λ candidate, existsb (λ tool, String.eqb (td_name tool) candidate) tools) candidates.

Definition forwarded_tool (is_oauth : bool) (tool : ToolDefinition) : ApiTool :=
  MkApiTool (api_tool_name is_oauth (td_name tool)) (td_description tool) (anthropic_input_schema (td_input_schema tool)) None.

(** The last tool is marked for caching. *)
Definition mark_last (c : CacheControlParam) (tools : list ApiTool) : list ApiTool :=
  match reverse tools with
  | t :: before => reverse (MkApiTool (at_name t) (at_description t) (at_input_schema t) (Some c) :: before)
  | [] => []
  end.

Definition format_tools (tools : list ToolDefinition) (is_oauth cache_ttl_1h : bool) : list ApiTool :=
  mark_last (ephemeral cache_ttl_1h)
    (if is_oauth then
       map snd (filter (λ e, has_backing tools e.1 = true) curated_tools)
       ++ map (forwarded_tool true) (filter (λ t, negb (one_of OAUTH_BUILTIN_LOCAL_TOOLS (td_name t)) = true) tools)
     else map (forwarded_tool false) tools).
End tools.
