(* ===== verification/AnthropicTheorems.v ===== *)
(** * Requests to Anthropic have the shape the provider accepts

    Theorems about [AnthropicRequest]: the messages alternate and end with the user, every call is
    answered in the next message and only once, the cache markers are at most four and stay where they
    are when a user message follows, and the tools of the subscription surface are the registered ones. *)


From S2P Require Export AnthropicRequest.

(** ** Merging *)

Fixpoint alternating (ms : list ApiMessage) : Prop :=
  match ms with
  | m1 :: ((m2 :: _) as rest) => am_role m1 ≠ am_role m2 ∧ alternating rest
  | _ => True
  end.

(** The merge from the back. *)
Definition join_message (m : ApiMessage) (merged : list ApiMessage) : list ApiMessage :=
  match merged with
  | g :: gs =>
      if String.eqb (am_role m) (am_role g) then MkApiMessage (am_role m) (am_content m ++ am_content g) :: gs
      else m :: g :: gs
  | [] => [m]
  end.

Definition joined (ms : list ApiMessage) : list ApiMessage := foldr join_message [] ms.

Lemma join_same (l m : ApiMessage) gs :
  am_role l = am_role m →
  join_message l (join_message m gs) = join_message (MkApiMessage (am_role l) (am_content l ++ am_content m)) gs.
Proof.
  intros E. destruct gs as [|g gs]; cbn.
  - by rewrite E, String.eqb_refl.
  - destruct (String.eqb (am_role m) (am_role g)) eqn:Hg; cbn; rewrite E, ?String.eqb_refl, ?Hg; [|done].
    by rewrite app_assoc.
Qed.

Lemma join_other (l m : ApiMessage) gs : am_role l ≠ am_role m → join_message l (join_message m gs) = l :: join_message m gs.
Proof.
  intros E%String.eqb_neq. destruct gs as [|g gs]; cbn; [by rewrite E|].
  destruct (String.eqb (am_role m) (am_role g)); cbn; by rewrite E.
Qed.

Lemma merge_messages_joined ms : merge_messages ms = joined ms.
Proof.
  unfold merge_messages. destruct ms as [|m ms]; [done|]. cbn [foldl merge_message].
  assert (∀ l before, reverse (foldl merge_message (l :: before) ms) = reverse before ++ join_message l (joined ms)) as H;
    [|by rewrite H].
  induction ms as [|x ms IH]; intros l before; cbn [foldl merge_message joined foldr].
  - by rewrite reverse_cons.
  - fold (joined ms). destruct (String.eqb (am_role l) (am_role x)) eqn:E.
    + apply String.eqb_eq in E. by rewrite IH, join_same.
    + apply String.eqb_neq in E. by rewrite IH, reverse_cons, join_other, <- app_assoc.
Qed.

Lemma join_alternating m gs : alternating gs → alternating (join_message m gs).
Proof.
  destruct gs as [|g gs]; [done|]. intros H. cbn [join_message].
  destruct (String.eqb (am_role m) (am_role g)) eqn:E.
  - apply String.eqb_eq in E. destruct gs as [|g2 gs]; [done|]. cbn in *. by rewrite E.
  - apply String.eqb_neq in E. by split.
Qed.

Lemma joined_alternating ms : alternating (joined ms).
Proof. induction ms as [|m ms IH]; [done|]. by apply join_alternating. Qed.

Lemma alternating_snoc ms m :
  alternating ms → (∀ l, last ms = Some l → am_role l ≠ am_role m) → alternating (ms ++ [m]).
Proof.
  induction ms as [|x ms IH]; intros H Hl; [done|]. destruct ms as [|y ms].
  - cbn. split; [by apply Hl|done].
  - destruct H as [Hxy H]. split; [done|]. by apply IH.
Qed.

(** ** What a list of messages answers *)

Definition is_user (m : ApiMessage) : bool := String.eqb (am_role m) "user".
Definition is_assistant (m : ApiMessage) : bool := String.eqb (am_role m) "assistant".

(** Every message has one of the two roles. *)
Definition roles_ok (ms : list ApiMessage) : Prop := ∀ m, m ∈ ms → am_role m = "user" ∨ am_role m = "assistant".

(** The results in the first run of user messages. *)
Fixpoint lead_results (ms : list ApiMessage) : list string :=
  match ms with
  | m :: ms => if is_user m then api_results m ++ lead_results ms else []
  | [] => []
  end.

(** The results in the first run of user messages, after messages of the assistant. *)
Fixpoint after_results (ms : list ApiMessage) : list string :=
  match ms with
  | m :: rest => if is_user m then lead_results ms else after_results rest
  | [] => []
  end.

(** Every call is answered in the next run of user messages. *)
Fixpoint answered (ms : list ApiMessage) : Prop :=
  match ms with
  | m :: rest => (is_assistant m = true → ∀ id, id ∈ api_uses m → id ∈ after_results rest) ∧ answered rest
  | [] => True
  end.

Lemma api_uses_app r c1 c2 : api_uses (MkApiMessage r (c1 ++ c2)) = api_uses (MkApiMessage r c1) ++ api_uses (MkApiMessage r c2).
Proof. unfold api_uses. apply omap_app. Qed.
Lemma api_results_app r c1 c2 : api_results (MkApiMessage r (c1 ++ c2)) = api_results (MkApiMessage r c1) ++ api_results (MkApiMessage r c2).
Proof. unfold api_results. apply omap_app. Qed.

Lemma join_lead m gs : lead_results (join_message m gs) = lead_results (m :: gs).
Proof.
  destruct gs as [|g gs]; [done|]. cbn [join_message]. destruct (String.eqb (am_role m) (am_role g)) eqn:E; [|done].
  apply String.eqb_eq in E. cbn [lead_results]. unfold is_user. cbn [am_role]. rewrite <- E.
  destruct (String.eqb (am_role m) "user"); [|done]. rewrite api_results_app, <- app_assoc. done.
Qed.

Lemma joined_lead ms : lead_results (joined ms) = lead_results ms.
Proof.
  induction ms as [|m ms IH]; [done|]. cbn [joined foldr]. rewrite join_lead. fold (joined ms). cbn [lead_results]. by rewrite IH.
Qed.

Lemma join_after m gs : after_results (join_message m gs) = after_results (m :: gs).
Proof.
  destruct gs as [|g gs]; [done|]. pose proof (join_lead m (g :: gs)) as Hl. cbn [join_message] in *.
  destruct (String.eqb (am_role m) (am_role g)) eqn:E; [|done]. apply String.eqb_eq in E.
  cbn [after_results]. unfold is_user in *. cbn [am_role] in *. rewrite Hl, <- E. by destruct (String.eqb (am_role m) "user").
Qed.

Lemma joined_after ms : after_results (joined ms) = after_results ms.
Proof.
  induction ms as [|m ms IH]; [done|]. cbn [joined foldr]. rewrite join_after. fold (joined ms). cbn [after_results].
  pose proof (joined_lead (m :: ms)) as Hl. cbn [joined foldr] in Hl. fold (joined ms) in Hl. rewrite join_lead in Hl.
  by rewrite Hl, IH.
Qed.

Lemma join_answered m gs : answered (m :: gs) → answered (join_message m gs).
Proof.
  destruct gs as [|g gs]; [done|]. intros [Hm [Hg Hgs]]. cbn [join_message].
  destruct (String.eqb (am_role m) (am_role g)) eqn:E; [|done]. apply String.eqb_eq in E. split; [|done].
  unfold is_assistant in *. cbn [am_role] in *. intros Ha id. rewrite api_uses_app. intros [H|H]%elem_of_app.
  - specialize (Hm Ha id). cbn [after_results] in Hm. destruct (is_user g) eqn:Hu; [|by apply Hm].
    unfold is_user in Hu. rewrite <- E in Hu. apply String.eqb_eq in Hu, Ha. congruence.
  - apply Hg; [by rewrite <- E|]. done.
Qed.

Lemma joined_answered ms : answered ms → answered (joined ms).
Proof.
  induction ms as [|m ms IH]; [done|]. intros [Hm Hr]. cbn [joined foldr]. apply join_answered. fold (joined ms).
  split; [by rewrite joined_after|by apply IH].
Qed.

(** In a list that alternates, the check looks at the next message only. *)
Lemma answered_check ms : roles_ok ms → alternating ms → answered ms → unanswered ms = [].
Proof.
  induction ms as [|m ms IH]; intros Hr Ha; [done|]. intros [Hm Hms]. cbn [unanswered].
  assert (unanswered ms = []) as ->.
  { apply IH; [intros x Hx; apply Hr; by right|by destruct ms; [|destruct Ha]|done]. }
  rewrite app_nil_r. unfold is_assistant in Hm. destruct (String.eqb (am_role m) "assistant") eqn:E; [|done].
  specialize (Hm eq_refl). destruct ms as [|next ms].
  - cbn in Hm. destruct (api_uses m) as [|id l]; [done|]. exfalso. apply (not_elem_of_nil id), Hm. by left.
  - destruct Ha as [Hne Ha]. apply String.eqb_eq in E.
    assert (am_role next = "user") as Hu.
    { destruct (Hr next ltac:(right; by left)) as [|Hn]; [done|]. rewrite E, Hn in Hne. done. }
    rewrite Hu, String.eqb_refl. cbn [negb]. cbn [after_results] in Hm. unfold is_user in Hm. rewrite Hu, String.eqb_refl in Hm.
    assert (lead_results (next :: ms) = api_results next) as Hl.
    { cbn [lead_results]. unfold is_user. rewrite Hu, String.eqb_refl. destruct ms as [|x ms]; cbn; [by rewrite app_nil_r|].
      destruct Ha as [Hx _]. rewrite Hu in Hx. unfold is_user. destruct (String.eqb (am_role x) "user") eqn:E2; [|by rewrite app_nil_r].
      apply String.eqb_eq in E2. congruence. }
    rewrite Hl in Hm. clear Hl. induction (api_uses m) as [|id l IHl]; [done|]. rewrite filter_cons_False.
    + apply IHl. intros i Hi. apply Hm. by right.
    + intros Hn. apply Hn, Hm. by left.
Qed.

(** No message of a request is empty. *)
Definition filled (ms : list ApiMessage) : Prop := ∀ m, m ∈ ms → am_content m ≠ [].

(** ** What becomes of a message *)

Section format.
Context {Time : Type}.
Notation Msg := (Message Json Time).
Notation Block := (ContentBlock Json).
Implicit Types (ms : list Msg) (msg : Msg) (b : Block).

Definition block_api_uses (l : list ApiContentBlock) : list string :=
  omap (λ x, match x with Api_ToolUse id _ _ _ => Some id | _ => None end) l.
Definition block_api_results (l : list ApiContentBlock) : list string :=
  omap (λ x, match x with Api_ToolResult id _ _ => Some id | _ => None end) l.

(** A block adds its call or its result, and keeps those before it. *)
Lemma format_block_ids is_oauth (result : list ApiContentBlock) b :
  block_api_uses (format_block is_oauth result b) = map sanitize_tool_id (block_uses b) ++ block_api_uses result
  ∧ block_api_results (format_block is_oauth result b) = map sanitize_tool_id (block_results b) ++ block_api_results result.
Proof. destruct b; cbn; try done; repeat case_match; done. Qed.

Lemma omap_reverse {A B} (f : A → option B) (l : list A) : omap f (reverse l) = reverse (omap f l).
Proof.
  induction l as [|x l IH]; [done|]. rewrite reverse_cons, omap_app, IH.
  change (omap f (x :: l)) with (omap f ([x] ++ l)). rewrite omap_app, reverse_app. f_equal. cbn. by destruct (f x).
Qed.

Lemma format_ids_go is_oauth content (acc : list ApiContentBlock) :
  let l := reverse (foldl (format_block is_oauth) acc content) in
  block_api_uses l = reverse (block_api_uses acc) ++ map sanitize_tool_id (concat (map block_uses content))
  ∧ block_api_results l = reverse (block_api_results acc) ++ map sanitize_tool_id (concat (map block_results content)).
Proof.
  cbv zeta. revert acc. induction content as [|b content IH]; intros acc; cbn [foldl map concat].
  - unfold block_api_uses, block_api_results. by rewrite !omap_reverse, !app_nil_r.
  - destruct (IH (format_block is_oauth acc b)) as [-> ->], (format_block_ids is_oauth acc b) as [-> ->].
    rewrite !reverse_app, !map_app, <- !app_assoc.
    assert (∀ l : list string, length l ≤ 1 → reverse l = l) as Hr by (by intros [|x [|]] ?; [..|cbn in *; lia]).
    assert (length (block_uses b) ≤ 1 ∧ length (block_results b) ≤ 1) as [??] by (destruct b; cbn; lia).
    rewrite (Hr (map sanitize_tool_id (block_uses b))), (Hr (map sanitize_tool_id (block_results b))) by (by rewrite length_map).
    done.
Qed.

Lemma format_content_ids is_oauth content :
  block_api_uses (format_content_blocks content is_oauth) = map sanitize_tool_id (concat (map block_uses content))
  ∧ block_api_results (format_content_blocks content is_oauth) = map sanitize_tool_id (concat (map block_results content)).
Proof. exact (format_ids_go is_oauth content []). Qed.

Definition msg_uses msg : list string := concat (map block_uses (m_content msg)).
Definition msg_results msg : list string := concat (map block_results (m_content msg)).

Lemma role_str_cases r : role_str r = "user" ∨ role_str r = "assistant".
Proof. destruct r; auto. Qed.

Lemma format_message_roles is_oauth dangling msg m :
  m ∈ format_message is_oauth dangling msg → am_role m = "user" ∨ am_role m = "assistant".
Proof.
  unfold format_message. intros [H|H]%elem_of_app; repeat case_match; try (by apply not_elem_of_nil in H);
    apply list_elem_of_singleton in H as ->; first [apply role_str_cases|by left].
Qed.

Lemma format_roles is_oauth dangling ms : roles_ok (concat (map (format_message is_oauth dangling) ms)).
Proof.
  intros m Hm. apply list_elem_of_In, in_concat in Hm as (l & (msg & <- & _)%in_map_iff & Hl). apply list_elem_of_In in Hl.
  by eapply format_message_roles.
Qed.

Lemma format_filled is_oauth dangling ms : filled (concat (map (format_message is_oauth dangling) ms)).
Proof.
  intros m Hm. apply list_elem_of_In, in_concat in Hm as (l & (msg & <- & _)%in_map_iff & Hl). apply list_elem_of_In in Hl.
  unfold format_message in Hl. apply elem_of_app in Hl as [H|H]; repeat case_match; try (by apply not_elem_of_nil in H);
    apply list_elem_of_singleton in H as ->; cbn; intros E; rewrite E in *; done.
Qed.

End format.

Lemma join_roles m ms : roles_ok (m :: ms) → roles_ok (join_message m ms).
Proof.
  destruct ms as [|g gs]; [done|]. intros H. cbn [join_message]. case_match; [|done].
  intros x [->|Hx]%elem_of_cons; [apply (H m); by left|apply H; by do 2 right].
Qed.

Lemma joined_roles ms : roles_ok ms → roles_ok (joined ms).
Proof.
  induction ms as [|m ms IH]; intros H; [done|]. cbn [joined foldr]. apply join_roles. fold (joined ms).
  intros x [->|Hx]%elem_of_cons; [apply H; by left|]. apply IH; [|done]. intros y Hy. apply H. by right.
Qed.

Lemma join_filled m ms : filled (m :: ms) → filled (join_message m ms).
Proof.
  destruct ms as [|g gs]; [done|]. intros H. cbn [join_message]. case_match; [|done].
  intros x [->|Hx]%elem_of_cons; [|apply H; by do 2 right]. cbn. intros [E _]%app_eq_nil. apply (H m); [by left|done].
Qed.

Lemma joined_filled ms : filled ms → filled (joined ms).
Proof.
  induction ms as [|m ms IH]; intros H; [done|]. cbn [joined foldr]. apply join_filled. fold (joined ms).
  intros x [->|Hx]%elem_of_cons; [apply H; by left|]. apply IH; [|done]. intros y Hy. apply H. by right.
Qed.

(** ** The last message is the user's *)

Lemma ensure_user_last_spec ms :
  roles_ok ms → alternating ms → filled ms →
  let r := ensure_user_last ms in
  roles_ok r ∧ alternating r ∧ filled r ∧ (∀ m, last r = Some m → am_role m = "user") ∧ ∃ tail, r = ms ++ tail ∧ length tail ≤ 1.
Proof.
  cbv zeta. intros Hr Ha Hf. unfold ensure_user_last. destruct (last ms) as [m|] eqn:Hl.
  - assert (m ∈ ms) as Hm by (apply last_Some_elem_of; exact Hl). destruct (Hr m Hm) as [Hu|Hu]; rewrite Hu; cbn.
    + split_and!; [done..| |exists []; rewrite app_nil_r; cbn; by auto with lia]. intros x. rewrite Hl. by intros [= <-].
    + split_and!.
      * intros x [Hx| ->%list_elem_of_singleton]%elem_of_app; [by apply Hr|by left].
      * apply alternating_snoc; [done|]. intros x. rewrite Hl. intros [= <-]. by rewrite Hu.
      * intros x [Hx| ->%list_elem_of_singleton]%elem_of_app; [by apply Hf|done].
      * intros x. rewrite last_snoc. by intros [= <-].
      * eexists. split; [done|cbn; lia].
  - split_and!; [done..| |exists []; rewrite app_nil_r; cbn; by auto with lia]. intros x. by rewrite Hl.
Qed.

(** A last message of the assistant that is answered has no calls, so the added turn takes nothing away. *)
Lemma ensure_user_last_unanswered ms : unanswered ms = [] → unanswered (ensure_user_last ms) = [].
Proof.
  intros H. unfold ensure_user_last. destruct (last ms) as [m|] eqn:Hl; [|done]. case_match; [|done].
  induction ms as [|x ms IH]; [done|]. cbn [app unanswered] in *. apply app_eq_nil in H as [Hx H]. destruct ms as [|y ms].
  - cbn [app unanswered]. destruct (String.eqb (am_role x) "assistant"); [|done]. rewrite Hx. cbn. done.
  - cbn [app]. rewrite Hx. apply IH; done.
Qed.

(** ** Every call is answered in the next run of the user *)

Lemma lead_after x ms : x ∈ lead_results ms → x ∈ after_results ms.
Proof. destruct ms as [|m ms]; [done|]. cbn [lead_results after_results]. destruct (is_user m) eqn:E; [done|]. by intros ?%not_elem_of_nil. Qed.

Section prompt.
Context {Time : Type}.
Notation Msg := (Message Json Time).
Implicit Types (ms : list Msg) (msg : Msg).

(** From place [i] to place [j] only the user speaks. *)
Definition user_run ms (i j : nat) : Prop := ∀ k, i < k ≤ j → ∃ u, ms !! k = Some u ∧ m_role u = User.

(** The results for a call of the assistant stand in the user's messages right after it. *)
Definition prompt_answers ms : Prop :=
  ∀ i j a m id, ms !! i = Some a → m_role a = Assistant → id ∈ msg_uses a → ms !! j = Some m → id ∈ msg_results m →
    i < j ∧ user_run ms i j.

Lemma format_lead is_oauth dangling ms j u id :
  (∀ k, k ≤ j → ∃ u, ms !! k = Some u ∧ m_role u = User) → ms !! j = Some u → id ∈ msg_results u →
  sanitize_tool_id id ∈ lead_results (concat (map (format_message is_oauth dangling) ms)).
Proof.
  revert j. induction ms as [|msg ms IH]; intros j Hrun Hj Hid; [done|]. cbn [map concat].
  destruct (Hrun 0 ltac:(lia)) as (u0 & [= <-] & Hu). unfold format_message. rewrite Hu. cbn [role_str]. rewrite app_nil_r.
  destruct (format_content_ids is_oauth (m_content msg)) as [_ Hres]. set (content := format_content_blocks (m_content msg) is_oauth) in *.
  assert (∀ l, lead_results ((if is_nil content then [] else [MkApiMessage "user" content]) ++ l)
               = block_api_results content ++ lead_results l) as Hl.
  { intros l. destruct content; [done|]. cbn [is_nil app lead_results]. done. }
  rewrite Hl, Hres, elem_of_app. destruct j as [|j].
  - left. injection Hj as ->. by apply list_elem_of_fmap_2.
  - right. apply (IH j); [|done|done]. intros k Hk. by apply (Hrun (S k)); lia.
Qed.

Lemma synthetic_ids dangling msg id :
  id ∈ msg_uses msg → id ∈ dangling → sanitize_tool_id id ∈ block_api_results (synthetic_results dangling (m_content msg)).
Proof.
  unfold msg_uses, synthetic_results. induction (m_content msg) as [|b content IH]; cbn [map concat]; [by intros ?%not_elem_of_nil|].
  intros [H|H]%elem_of_app Hd.
  - destruct b; try (by apply not_elem_of_nil in H). apply list_elem_of_singleton in H as ->. cbn.
    rewrite bool_decide_eq_true_2 by done. by left.
  - specialize (IH H Hd). destruct b; cbn; try done. destruct (bool_decide (id0 ∈ dangling)); [|done]. by right.
Qed.

Lemma answered_format is_oauth dangling ms :
  (∀ i a id, ms !! i = Some a → m_role a = Assistant → id ∈ msg_uses a →
     id ∈ dangling ∨ ∃ j u, i < j ∧ ms !! j = Some u ∧ id ∈ msg_results u ∧ user_run ms i j) →
  answered (concat (map (format_message is_oauth dangling) ms)).
Proof.
  induction ms as [|msg ms IH]; intros H; [done|]. cbn [map concat].
  assert (answered (concat (map (format_message is_oauth dangling) ms))) as Hrest.
  { apply IH. intros i a id Hi Ha Hid. destruct (H (S i) a id Hi Ha Hid) as [|(j & u & Hj & Hu & Hr & Hrun)]; [by left|].
    right. destruct j as [|j]; [lia|]. exists j, u. split_and!; [lia|done|done|]. intros k Hk. apply (Hrun (S k)). lia. }
  set (rest := concat (map (format_message is_oauth dangling) ms)) in *. unfold format_message.
  destruct (format_content_ids is_oauth (m_content msg)) as [Huses _]. set (content := format_content_blocks (m_content msg) is_oauth) in *.
  assert (∀ l r, answered l → (r = Assistant → ∀ id, id ∈ block_api_uses content → id ∈ after_results l) →
    answered ((if is_nil content then [] else [MkApiMessage (role_str r) content]) ++ l)) as Hcons.
  { intros l r Hl Ha. destruct (is_nil content); [done|]. split; [|done]. intros E. destruct r; [done|]. exact (Ha eq_refl). }
  rewrite <- app_assoc. apply Hcons.
  - destruct (m_role msg); [exact Hrest|].
    destruct (synthetic_results dangling (m_content msg)) as [|s l]; [exact Hrest|]. split; [|exact Hrest].
    intros E. vm_compute in E. done.
  - intros Hrole id Hid. rewrite Hrole. rewrite Huses in Hid. apply list_elem_of_fmap in Hid as (i & -> & Hi).
    set (synth := synthetic_results dangling (m_content msg)) in *.
    assert (∀ x, x ∈ block_api_results synth ∨ x ∈ lead_results rest →
      x ∈ after_results ((if is_nil synth then [] else [MkApiMessage "user" synth]) ++ rest)) as Hafter.
    { intros x Hx. destruct synth as [|s l] eqn:Es; cbn [is_nil app].
      - destruct Hx as [Hx|Hx]; [by apply not_elem_of_nil in Hx|by apply lead_after].
      - cbn [after_results lead_results]. change (is_user (MkApiMessage "user" (s :: l))) with true. cbn iota. by apply elem_of_app. }
    apply Hafter. destruct (H 0 msg i eq_refl Hrole Hi) as [Hd|(j & u & Hj & Hu & Hr & Hrun)].
    + left. by apply synthetic_ids.
    + right. destruct j as [|j]; [lia|]. apply (format_lead _ _ _ j u); [|done|done]. intros k Hk. apply (Hrun (S k)). lia.
Qed.
End prompt.

(** * Every call of a request to Anthropic is answered once, right after it

    [dedupe_tool_results] keeps one result for every id and nothing else is lost; with it the messages of
    a request alternate, end with the user, and answer every call in the message that follows. *)

Section answers.
Context {Time : Type}.
Notation Msg := (Message Json Time).
Notation Block := (ContentBlock Json).
Implicit Types (ms : list Msg) (msg : Msg) (b : Block).

(** ** The blocks of a conversation with their places *)

Notation Place := (nat * nat * Block)%type.

Fixpoint block_places (mi bi : nat) (content : list Block) : list Place :=
  match content with
  | [] => []
  | b :: content => (mi, bi, b) :: block_places mi (S bi) content
  end.

Fixpoint places (mi : nat) ms : list Place :=
  match ms with
  | [] => []
  | msg :: ms => block_places mi 0 (m_content msg) ++ places (S mi) ms
  end.

Definition all_blocks ms : list Block := concat (map m_content ms).

Lemma block_places_blocks mi bi content : map snd (block_places mi bi content) = content.
Proof. revert bi. induction content as [|b content IH]; intros bi; [done|]. cbn. by rewrite IH. Qed.

Lemma places_blocks mi ms : map snd (places mi ms) = all_blocks ms.
Proof.
  revert mi. induction ms as [|msg ms IH]; intros mi; [done|]. cbn. by rewrite map_app, block_places_blocks, IH.
Qed.

Lemma block_places_bounds mi bi content e : e ∈ block_places mi bi content → e.1.1 = mi ∧ bi ≤ e.1.2.
Proof.
  revert bi. induction content as [|b content IH]; intros bi; [by intros ?%not_elem_of_nil|].
  intros [->|H]%elem_of_cons; [cbn; lia|]. specialize (IH _ H). lia.
Qed.

Lemma places_bounds mi ms e : e ∈ places mi ms → mi ≤ e.1.1.
Proof.
  revert mi. induction ms as [|msg ms IH]; intros mi; [by intros ?%not_elem_of_nil|].
  intros [H|H]%elem_of_app; [by destruct (block_places_bounds _ _ _ _ H); lia|]. specialize (IH _ H). lia.
Qed.

Lemma block_places_nodup mi bi content : NoDup (map fst (block_places mi bi content)).
Proof.
  revert bi. induction content as [|b content IH]; intros bi; cbn [block_places map]; constructor; [|apply IH].
  intros (e & He & H)%list_elem_of_fmap. destruct (block_places_bounds _ _ _ _ H) as [_ Hb]. rewrite <- He in Hb. cbn in Hb. lia.
Qed.

Lemma places_nodup mi ms : NoDup (map fst (places mi ms)).
Proof.
  revert mi. induction ms as [|msg ms IH]; intros mi; [constructor|]. cbn [places]. rewrite map_app.
  apply NoDup_app. split_and!; [apply block_places_nodup| |apply IH].
  intros p (e & -> & H)%list_elem_of_fmap (e' & E & H')%list_elem_of_fmap.
  destruct (block_places_bounds _ _ _ _ H) as [Hm _]. specialize (places_bounds _ _ _ H'). rewrite <- E. lia.
Qed.

(** ** Which result is chosen *)

Definition is_result (id : string) b : bool :=
  match b with ToolResult i _ _ => String.eqb i id | _ => false end.
Definition is_real b : bool :=
  match b with ToolResult _ content is_error => negb (is_placeholder_tool_result content is_error) | _ => false end.

(** The first real element, or the first. *)
Definition pick {A} (real : A → bool) (l : list A) : option A :=
  match find real l with Some x => Some x | None => head l end.

Definition results_for (id : string) (l : list Block) : list Block := filter (λ b, is_result id b = true) l.

(** The result that a request sends for [id]. *)
Definition chosen (id : string) (l : list Block) : option Block := pick is_real (results_for id l).

Lemma pick_snoc {A} (real : A → bool) (l : list A) x :
  pick real (l ++ [x]) =
    match pick real l with
    | Some y => if real y then Some y else if real x then Some x else Some y
    | None => Some x
    end.
Proof.
  unfold pick. assert (find real (l ++ [x]) = match find real l with Some y => Some y | None => if real x then Some x else None end) as ->.
  { induction l as [|z l IH]; cbn; [done|]. by destruct (real z). }
  destruct (find real l) as [y|] eqn:F; [by apply find_some in F as [_ ->]|].
  destruct l as [|z l]; cbn in *; [by destruct (real x)|]. by destruct (real z), (real x).
Qed.

Lemma pick_elem {A} (real : A → bool) (l : list A) x : pick real l = Some x → x ∈ l.
Proof.
  unfold pick. destruct (find real l) as [y|] eqn:F; [|by intros ?%head_Some_elem_of].
  intros [= <-]. apply list_elem_of_In. by apply find_some in F as [? _].
Qed.

Lemma pick_map {A B} (f : B → A) (real : A → bool) (l : list B) : pick real (map f l) = f <$> pick (real ∘ f) l.
Proof.
  unfold pick. assert (find real (map f l) = f <$> find (real ∘ f) l) as ->.
  { induction l as [|x l IH]; cbn; [done|]. by destruct (real (f x)). }
  destruct (find (real ∘ f) l); [done|]. by destruct l.
Qed.

(** ** What the pass over the conversation remembers *)

Definition note_place (w : Winners) (e : Place) : Winners := note_winner e.1.1 e.1.2 w e.2.

Lemma winners_blocks mi bi w content : winners_of_blocks mi bi w content = foldl note_place w (block_places mi bi content).
Proof. revert bi w. induction content as [|b content IH]; intros bi w; [done|]. cbn. by rewrite IH. Qed.

Lemma winners_places mi w ms : winners mi w ms = foldl note_place w (places mi ms).
Proof.
  revert mi w. induction ms as [|msg ms IH]; intros mi w; [done|]. cbn. by rewrite foldl_app, IH, winners_blocks.
Qed.

Definition places_for (id : string) (l : list Place) : list Place := filter (λ e, is_result id e.2 = true) l.
Definition chosen_place (id : string) (l : list Place) : option Place := pick (λ e, is_real e.2) (places_for id l).

(** What [winners] knows after the blocks [l]. *)
Definition known (l : list Place) (w : Winners) : Prop :=
  (∀ id, w_winner w !! id = (λ e, (e.1, is_real e.2)) <$> chosen_place id l)
  ∧ (w_duplicate_seen w = false → ∀ id, length (places_for id l) ≤ 1)
  ∧ (w_duplicate_seen w = true → ∃ id, 2 ≤ length (places_for id l)).

Lemma places_for_snoc id l e :
  places_for id (l ++ [e]) = places_for id l ++ (if is_result id e.2 then [e] else []).
Proof.
  unfold places_for. rewrite filter_app. f_equal. destruct (is_result id e.2) eqn:E.
  - by rewrite filter_cons_True.
  - rewrite filter_cons_False; [done|]. by rewrite E.
Qed.

Lemma places_for_other id l e : is_result id e.2 = false → places_for id (l ++ [e]) = places_for id l.
Proof. intros E. by rewrite places_for_snoc, E, app_nil_r. Qed.

Lemma places_for_grows id l e : length (places_for id l) ≤ length (places_for id (l ++ [e])).
Proof. rewrite places_for_snoc, length_app. lia. Qed.

Lemma duplicate_stays l e : (∃ id, 2 ≤ length (places_for id l)) → ∃ id, 2 ≤ length (places_for id (l ++ [e])).
Proof. intros [id H]. exists id. pose proof (places_for_grows id l e). lia. Qed.

Lemma known_other l w e : (∀ id, is_result id e.2 = false) → known l w → known (l ++ [e]) w.
Proof.
  intros He (Hw & Hd & Ht). split_and!; [intros i; unfold chosen_place|intros E i|intros E; by apply duplicate_stays, Ht];
    rewrite places_for_other by done; [apply Hw|by apply Hd].
Qed.

(** The entry of one id is written. *)
Lemma known_write l w e id v d :
  known l w → (∀ i, is_result i e.2 = String.eqb id i) →
  (w_winner w !! id = None → d = w_duplicate_seen w) → (w_winner w !! id ≠ None → d = true) →
  (λ e, (e.1, is_real e.2)) <$> chosen_place id (l ++ [e]) = Some v →
  known (l ++ [e]) (MkWinners (<[id := v]> (w_winner w)) d).
Proof.
  intros (Hw & Hd & Ht) He Hn Hs Hv.
  assert (∀ i, i ≠ id → places_for i (l ++ [e]) = places_for i l) as Hother.
  { intros i Hi. apply places_for_other. rewrite He. by apply String.eqb_neq. }
  split_and!.
  - intros i. cbn [w_winner]. destruct (decide (i = id)) as [->|Hi]; [by rewrite lookup_insert_eq|].
    rewrite lookup_insert_ne by done. unfold chosen_place. rewrite Hother by done. apply Hw.
  - cbn [w_duplicate_seen]. intros -> i. destruct (w_winner w !! id) as [p|] eqn:Hid; [by specialize (Hs ltac:(done))|].
    destruct (decide (i = id)) as [->|Hi]; [|rewrite Hother by done; apply Hd; symmetry; by apply Hn].
    rewrite places_for_snoc, He, String.eqb_refl. rewrite Hw in Hid. unfold chosen_place, pick in Hid.
    destruct (find _ _); [done|]. destruct (places_for id l); [cbn; lia|done].
  - cbn [w_duplicate_seen]. intros ->. destruct (w_winner w !! id) as [p|] eqn:Hid; [|apply duplicate_stays, Ht; symmetry; by apply Hn].
    exists id. rewrite places_for_snoc, He, String.eqb_refl, length_app. rewrite Hw in Hid. unfold chosen_place, pick in Hid.
    destruct (places_for id l); [done|cbn; lia].
Qed.

Lemma note_winner_result mi bi w id content is_error :
  note_winner mi bi w (ToolResult id content is_error) =
    let real := negb (is_placeholder_tool_result content is_error) in
    match w_winner w !! id with
    | None => MkWinners (<[id := (mi, bi, real)]> (w_winner w)) (w_duplicate_seen w)
    | Some p =>
        if (snd p : bool) then MkWinners (w_winner w) true
        else if real then MkWinners (<[id := (mi, bi, true)]> (w_winner w)) true
        else MkWinners (w_winner w) true
    end.
Proof. cbn. destruct (w_winner w !! id) as [[p []]|]; done. Qed.

Lemma known_note l w e : known l w → known (l ++ [e]) (note_place w e).
Proof.
  intros Hk. destruct e as [[mi bi] b]. unfold note_place. cbn [fst snd].
  destruct b as [| | | | | |id content is_error| |]; try (by apply known_other).
  set (real := negb (is_placeholder_tool_result content is_error)). set (b := ToolResult id content is_error).
  assert (∀ i, is_result i (mi, bi, b).2 = String.eqb id i) as He by done.
  assert (chosen_place id (l ++ [(mi, bi, b)]) =
    match chosen_place id l with
    | Some y => if is_real y.2 then Some y else if real then Some (mi, bi, b) else Some y
    | None => Some (mi, bi, b)
    end) as Hc.
  { unfold chosen_place. rewrite places_for_snoc, He, String.eqb_refl. apply pick_snoc. }
  pose proof (proj1 Hk id) as Hid. pose proof (λ v d, known_write l w (mi, bi, b) id v d Hk He) as Hwrite. rewrite Hc in Hwrite.
  unfold b at 2. rewrite note_winner_result. cbv zeta. fold real b.
  destruct (chosen_place id l) as [y|] eqn:Hy; rewrite Hid in *; cbn [fmap option_fmap option_map] in *.
  - assert (w_winner w = <[id := (y.1, is_real y.2)]> (w_winner w)) as Hsame by (by rewrite insert_id).
    destruct (is_real y.2) eqn:Hr; [rewrite Hsame|destruct real eqn:Hreal; [|rewrite Hsame]]; apply Hwrite; cbn; try done.
    + by rewrite Hr.
    + unfold b, is_real. fold real. by rewrite Hreal.
    + by rewrite Hr.
  - by apply Hwrite.
Qed.

Lemma known_winners ms : known (places 0 ms) (winners 0 (MkWinners ∅ false) ms).
Proof.
  rewrite winners_places. induction (places 0 ms) as [|e l IH] using rev_ind; [|rewrite foldl_app; by apply known_note].
  split_and!; [done| |done]. intros _ id. cbn. lia.
Qed.
(** ** What is kept *)

Definition keeps (w : gmap string (nat * nat * bool)) (e : Place) : bool :=
  match e.2 with ToolResult id _ _ => bool_decide (fst <$> w !! id = Some e.1) | _ => true end.

Lemma filter_cons_if {A} (f : A → bool) x (l : list A) :
  filter (λ x, f x = true) (x :: l) = if f x then x :: filter (λ x, f x = true) l else filter (λ x, f x = true) l.
Proof. rewrite filter_cons. by destruct (f x). Qed.

Lemma retain_blocks w mi bi content :
  retain_winners w mi bi content = map snd (filter (λ e, keeps w e = true) (block_places mi bi content)).
Proof.
  revert bi. induction content as [|b content IH]; intros bi; [done|]. cbn [retain_winners block_places].
  rewrite filter_cons_if, IH. destruct b as [| | | | | |id content' is_error| |]; try done.
  change (keeps w (mi, bi, ToolResult id content' is_error)) with (bool_decide (fst <$> w !! id = Some (mi, bi))).
  by destruct (bool_decide _).
Qed.

Lemma retain_all w mi ms :
  all_blocks (retain_messages w mi ms) = map snd (filter (λ e, keeps w e = true) (places mi ms)).
Proof.
  revert mi. induction ms as [|msg ms IH]; intros mi; [done|]. cbn [retain_messages places]. unfold all_blocks in *. cbn [map concat].
  by rewrite IH, filter_app, map_app, <- retain_blocks.
Qed.

Lemma filter_alone {A B} (f : A → B) (P : A → Prop) `{!∀ x, Decision (P x)} (l : list A) c :
  NoDup (map f l) → c ∈ l → (∀ x, x ∈ l → P x ↔ f x = f c) → filter P l = [c].
Proof.
  induction l as [|x l IH]; cbn [map]; intros Hn Hc HP; [by apply not_elem_of_nil in Hc|].
  apply NoDup_cons in Hn as [Hx Hn].
  destruct (decide (P x)) as [Hp|Hp]; [rewrite filter_cons_True by done|rewrite filter_cons_False by done].
  - apply HP in Hp; [|by left]. assert (x = c) as ->.
    { apply elem_of_cons in Hc as [?|Hc]; [done|]. destruct Hx. rewrite Hp. by apply list_elem_of_fmap_2. }
    f_equal. assert (∀ y, y ∈ l → ¬ P y) as Hno.
    { intros y Hy Py. apply HP in Py; [|by right]. apply Hx. rewrite <- Py. by apply list_elem_of_fmap_2. }
    clear -Hno. induction l as [|y l IH]; [done|]. rewrite filter_cons_False by (apply Hno; by left).
    apply IH. intros z Hz. apply Hno. by right.
  - apply IH; [done| |by intros y Hy; apply HP; right]. apply elem_of_cons in Hc as [->|]; [|done].
    destruct Hp. by apply HP; [left|].
Qed.

Lemma places_for_map id l : results_for id (map snd l) = map snd (places_for id l).
Proof.
  unfold results_for, places_for. induction l as [|e l IH]; [done|]. cbn [map]. rewrite !filter_cons_if, IH.
  by destruct (is_result id e.2).
Qed.

Lemma chosen_of_places id ms : chosen id (all_blocks ms) = snd <$> chosen_place id (places 0 ms).
Proof. unfold chosen, chosen_place. rewrite <- (places_blocks 0 ms), places_for_map. apply (pick_map snd is_real). Qed.

Lemma is_result_id id b : is_result id b = true → ∃ content is_error, b = ToolResult id content is_error.
Proof. destruct b; try done. intros ->%String.eqb_eq. by eauto. Qed.

Lemma map_fst_filter_nodup (P : Place → Prop) `{!∀ x, Decision (P x)} (l : list Place) :
  NoDup (map fst l) → NoDup (map fst (filter P l)).
Proof.
  induction l as [|x l IH]; cbn [map]; intros Hn; [done|]. apply NoDup_cons in Hn as [Hx Hn].
  destruct (decide (P x)); [rewrite filter_cons_True by done|rewrite filter_cons_False by done; by apply IH].
  apply NoDup_cons. split; [|by apply IH]. intros (e & He & Hin)%list_elem_of_fmap. apply Hx.
  apply list_elem_of_filter in Hin as [_ Hin]. rewrite He. by apply list_elem_of_fmap_2.
Qed.

(** Of the results for an id, the chosen one is left. *)
Lemma dedupe_results id ms : results_for id (all_blocks (dedupe_tool_results ms)) = option_list (chosen id (all_blocks ms)).
Proof.
  rewrite chosen_of_places. destruct (known_winners ms) as (Hw & Hd & _). unfold dedupe_tool_results.
  set (w := winners 0 (MkWinners ∅ false) ms) in *. destruct (w_duplicate_seen w); cbn [negb].
  - rewrite retain_all, places_for_map. unfold places_for. rewrite list_filter_filter.
    assert (∀ l, filter (λ e : Place, is_result id e.2 = true ∧ keeps (w_winner w) e = true) l
      = filter (λ e, keeps (w_winner w) e = true) (places_for id l)) as ->.
    { intros l. unfold places_for. rewrite list_filter_filter. apply list_filter_iff. tauto. }
    pose proof (Hw id) as Hid. destruct (chosen_place id (places 0 ms)) as [c|] eqn:Hc.
    + assert (c ∈ places_for id (places 0 ms)) as Hin by (by eapply pick_elem).
      rewrite (filter_alone fst _ _ c); [done| |done|].
      * apply map_fst_filter_nodup, places_nodup.
      * intros e [He _]%list_elem_of_filter. apply is_result_id in He as (content & is_error & He).
        unfold keeps. rewrite He, Hid, bool_decide_eq_true. cbn. split; [by intros [= ->]|by intros ->].
    + unfold chosen_place, pick in Hc. destruct (find _ _); [done|]. by destruct (places_for id (places 0 ms)).
  - specialize (Hd eq_refl id). rewrite <- (places_blocks 0 ms), places_for_map. unfold chosen_place, pick.
    destruct (places_for id (places 0 ms)) as [|e [|]]; cbn in *; [done| |lia]. by destruct (is_real e.2).
Qed.

(** A message without its results. *)
Definition any_result b : bool := match b with ToolResult _ _ _ => true | _ => false end.
Definition without_results (content : list Block) : list Block := filter (λ b, any_result b = false) content.

(** [msg'] is [msg] with some results left out. *)
Definition loses_results msg msg' : Prop :=
  msg' = set_content (m_content msg') msg ∧ without_results (m_content msg') = without_results (m_content msg)
  ∧ sublist (m_content msg') (m_content msg).

Lemma retain_loses w mi bi content :
  without_results (retain_winners w mi bi content) = without_results content ∧ sublist (retain_winners w mi bi content) content.
Proof.
  revert bi. induction content as [|b content IH]; intros bi; [done|]. cbn [retain_winners]. destruct (IH (S bi)) as [E S].
  unfold without_results in *. destruct b; try (split; [rewrite !filter_cons_True by done; by f_equal|by constructor]).
  destruct (bool_decide _); (split; [rewrite !filter_cons_False by done; exact E|by constructor]).
Qed.

Lemma dedupe_loses ms : Forall2 loses_results ms (dedupe_tool_results ms).
Proof.
  unfold dedupe_tool_results. destruct (w_duplicate_seen _); cbn [negb].
  - set (w := w_winner (winners 0 (MkWinners ∅ false) ms)). clearbody w. generalize 0. induction ms as [|msg ms IH]; intros mi; cbn; constructor; [|apply IH].
    by destruct (retain_loses w mi 0 (m_content msg)).
  - induction ms as [|[] ms IH]; constructor; [|done]. by split_and!.
Qed.
Lemma loses_uses msg msg' : loses_results msg msg' → msg_uses msg' = msg_uses msg.
Proof.
  assert (∀ content : list Block, concat (map block_uses content) = concat (map block_uses (without_results content))) as H.
  { induction content as [|b content IH]; [done|]. unfold without_results in *. rewrite filter_cons. cbn [map concat]. rewrite IH.
    by destruct b. }
  intros (_ & E & _). unfold msg_uses. by rewrite H, E, <- H.
Qed.

Lemma loses_role msg msg' : loses_results msg msg' → m_role msg' = m_role msg.
Proof. by intros (-> & _). Qed.

Lemma loses_ids msg msg' id : loses_results msg msg' → id ∈ msg_results msg' → id ∈ msg_results msg.
Proof.
  intros (_ & _ & S). unfold msg_results. rewrite !list_elem_of_In, !in_concat. intros (l & (b & <- & Hb)%in_map_iff & Hid).
  eexists. split; [apply in_map, list_elem_of_In|exact Hid]. apply list_elem_of_In in Hb. by eapply sublist_subseteq.
Qed.

Lemma losing_runs ms ms' i j : Forall2 loses_results ms ms' → user_run ms i j → user_run ms' i j.
Proof.
  intros H Hr k Hk. destruct (Hr k Hk) as (u & Hu & E). destruct (Forall2_lookup_l _ _ _ _ _ H Hu) as (u' & Hu' & L).
  exists u'. split; [done|]. by rewrite (loses_role _ _ L).
Qed.

(** A conversation whose results stand right after their calls keeps this when results are left out. *)
Lemma prompt_answers_dedupe ms : prompt_answers ms → prompt_answers (dedupe_tool_results ms).
Proof.
  pose proof (dedupe_loses ms) as H. intros Hp i j a m id Ha Hr Hu Hm Hid.
  destruct (Forall2_lookup_r _ _ _ _ _ H Ha) as (a0 & Ha0 & La), (Forall2_lookup_r _ _ _ _ _ H Hm) as (m0 & Hm0 & Lm).
  rewrite (loses_role _ _ La) in Hr. rewrite (loses_uses _ _ La) in Hu. apply (loses_ids _ _ _ Lm) in Hid.
  destruct (Hp i j a0 m0 id Ha0 Hr Hu Hm0 Hid) as [Hij Hrun]. split; [done|]. by eapply losing_runs.
Qed.

(** ** The messages of a request *)

(** The messages a request is made of before they are merged. *)
Definition formatted ms is_oauth : list ApiMessage :=
  concat (map (format_message is_oauth (dangling_calls (dedupe_tool_results ms))) (dedupe_tool_results ms)).

Lemma format_messages_joined ms is_oauth : format_messages ms is_oauth = ensure_user_last (joined (formatted ms is_oauth)).
Proof. unfold format_messages. by rewrite merge_messages_joined. Qed.

(** What the provider asks of the messages of any request. *)
Definition well_shaped (ms : list ApiMessage) : Prop :=
  roles_ok ms ∧ alternating ms ∧ filled ms ∧ ∀ m, last ms = Some m → am_role m = "user".

Lemma formatted_shape ms is_oauth :
  roles_ok (joined (formatted ms is_oauth)) ∧ alternating (joined (formatted ms is_oauth)) ∧ filled (joined (formatted ms is_oauth)).
Proof. split_and!; [apply joined_roles, format_roles|apply joined_alternating|apply joined_filled, format_filled]. Qed.

Lemma request_shape ms is_oauth : well_shaped (format_messages ms is_oauth).
Proof.
  rewrite format_messages_joined. destruct (formatted_shape ms is_oauth) as (Hr & Ha & Hf).
  destruct (ensure_user_last_spec _ Hr Ha Hf) as (? & ? & ? & ? & _). by split_and!.
Qed.

Lemma tool_results_messages ms id : id ∈ tool_results ms ↔ ∃ j m, ms !! j = Some m ∧ id ∈ msg_results m.
Proof.
  unfold tool_results. rewrite list_elem_of_In, in_concat. split.
  - intros (l & (m & <- & Hm)%in_map_iff & Hid). apply list_elem_of_In, list_elem_of_lookup in Hm as [j Hj].
    exists j, m. split; [done|]. by apply list_elem_of_In.
  - intros (j & m & Hj & Hid). exists (msg_results m). split; [|by apply list_elem_of_In].
    apply in_map_iff. exists m. split; [done|]. apply list_elem_of_In. by eapply list_elem_of_lookup_2.
Qed.

Lemma tool_uses_messages ms i m id : ms !! i = Some m → id ∈ msg_uses m → id ∈ tool_uses ms.
Proof. intros H Hid. exact (elem_of_concat_map _ ms i m id H Hid). Qed.

Lemma request_answered ms is_oauth :
  prompt_answers (dedupe_tool_results ms) → unanswered (format_messages ms is_oauth) = [].
Proof.
  intros Hp. rewrite format_messages_joined. apply ensure_user_last_unanswered.
  destruct (formatted_shape ms is_oauth) as (Hr & Ha & _). apply answered_check; [done..|]. apply joined_answered.
  apply answered_format. intros i a id Hi Hrole Hid. set (l := dedupe_tool_results ms) in *.
  destruct (decide (id ∈ tool_results l)) as [(j & u & Hj & Hu)%tool_results_messages|Hn].
  - right. destruct (Hp i j a u id Hi Hrole Hid Hj Hu). by exists j, u.
  - left. unfold dangling_calls. apply elem_of_difference. rewrite !elem_of_list_to_set. split; [|done].
    by eapply tool_uses_messages.
Qed.

(** ** Nothing is answered twice *)

Lemma all_results_joined (ms : list ApiMessage) : concat (map api_results (joined ms)) = concat (map api_results ms).
Proof.
  induction ms as [|m ms IH]; [done|]. cbn [joined foldr map concat]. fold (joined ms). rewrite <- IH.
  destruct (joined ms) as [|g gs]; [done|]. cbn [join_message]. case_match; [|done]. cbn [map concat].
  rewrite api_results_app, <- app_assoc. by destruct m, g.
Qed.

Lemma all_results_ensured (ms : list ApiMessage) : concat (map api_results (ensure_user_last ms)) = concat (map api_results ms).
Proof.
  unfold ensure_user_last. destruct (last ms); [|done]. case_match; [|done]. rewrite map_app, concat_app. cbn. by rewrite app_nil_r.
Qed.

(** The ids whose results stand at a message. *)
Definition answers_at (dangling : gset string) msg : list string :=
  msg_results msg ++ match m_role msg with Assistant => filter (λ id, id ∈ dangling) (msg_uses msg) | User => [] end.

Lemma synthetic_all dangling content :
  block_api_results (synthetic_results dangling content)
  = map sanitize_tool_id (filter (λ id, id ∈ dangling) (concat (map block_uses content))).
Proof.
  induction content as [|b content IH]; [done|]. destruct b; try exact IH. cbn [map concat block_uses app].
  rewrite filter_cons. unfold synthetic_results, block_api_results in *. cbn [omap list_omap].
  destruct (decide (id ∈ dangling)) as [Hd|Hd].
  - rewrite bool_decide_eq_true_2 by done. cbn. by rewrite <- IH.
  - rewrite bool_decide_eq_false_2 by done. exact IH.
Qed.

Lemma format_message_results is_oauth dangling msg :
  concat (map api_results (format_message is_oauth dangling msg)) = map sanitize_tool_id (answers_at dangling msg).
Proof.
  unfold format_message, answers_at. rewrite map_app, concat_app, map_app. f_equal.
  - unfold msg_results. rewrite <- (proj2 (format_content_ids is_oauth (m_content msg))). destruct (format_content_blocks _ _); [done|]. cbn. by rewrite app_nil_r.
  - destruct (m_role msg); [done|]. unfold msg_uses. rewrite <- synthetic_all.
    destruct (synthetic_results _ _); [done|]. cbn. by rewrite app_nil_r.
Qed.

Lemma request_results ms is_oauth :
  let l := dedupe_tool_results ms in
  concat (map api_results (format_messages ms is_oauth)) = map sanitize_tool_id (concat (map (answers_at (dangling_calls l)) l)).
Proof.
  cbv zeta. rewrite format_messages_joined, all_results_ensured, all_results_joined. unfold formatted.
  generalize (dangling_calls (dedupe_tool_results ms)). generalize (dedupe_tool_results ms). clear ms. intros ms dangling.
  induction ms as [|msg ms IH]; [done|]. cbn [map concat]. by rewrite !map_app, concat_app, IH, format_message_results.
Qed.
Lemma interleave_perm {A B} (f g : A → list B) (l : list A) :
  concat (map (λ x, f x ++ g x) l) ≡ₚ concat (map f l) ++ concat (map g l).
Proof. induction l as [|x l IH]; [done|]. cbn [map concat]. rewrite IH. solve_Permutation. Qed.

Lemma concat_sublist {A B} (f g : A → list B) (l : list A) : (∀ x, sublist (f x) (g x)) → sublist (concat (map f l)) (concat (map g l)).
Proof. intros H. induction l as [|x l IH]; [done|]. cbn [map concat]. by apply sublist_app. Qed.

Lemma single_results_nodup (l : list Block) : (∀ id, length (results_for id l) ≤ 1) → NoDup (concat (map block_results l)).
Proof.
  unfold results_for. induction l as [|b l IH]; intros H; cbn [map concat]; [constructor|].
  assert (NoDup (concat (map block_results l))) as Hl.
  { apply IH. intros id. specialize (H id). rewrite filter_cons_if in H. destruct (is_result id b); cbn in *; lia. }
  destruct b as [| | | | | |id content is_error| |]; cbn [block_results app]; try done. apply NoDup_cons. split; [|done].
  intros (y & (b & <- & Hb)%in_map_iff & Hy)%list_elem_of_In%in_concat. specialize (H id). rewrite filter_cons_if in H. cbn [is_result] in H.
  rewrite String.eqb_refl in H. cbn [length] in H. destruct b; try done. destruct Hy as [->|[]].
  assert (ToolResult id content0 is_error0 ∈ filter (λ b, is_result id b = true) l) as Hin.
  { apply list_elem_of_filter. split; [apply String.eqb_refl|by apply list_elem_of_In]. }
  destruct (filter _ l); [by apply not_elem_of_nil in Hin|cbn in H; lia].
Qed.

Lemma tool_results_blocks ms : tool_results ms = concat (map block_results (all_blocks ms)).
Proof.
  unfold tool_results, all_blocks. induction ms as [|m ms IH]; [done|]. cbn [map concat]. by rewrite map_app, concat_app, IH.
Qed.

Lemma deduped_nodup ms : NoDup (tool_results (dedupe_tool_results ms)).
Proof.
  rewrite tool_results_blocks. apply single_results_nodup. intros id. rewrite dedupe_results.
  destruct (chosen _ _); cbn; lia.
Qed.

(** Without a second result for an id nothing changes. *)
Lemma dedupe_nothing ms : NoDup (tool_results ms) → dedupe_tool_results ms = ms.
Proof.
  intros Hn. unfold dedupe_tool_results. destruct (known_winners ms) as (_ & _ & Ht). destruct (w_duplicate_seen _); [|done].
  destruct (Ht eq_refl) as [id Hid]. exfalso. rewrite tool_results_blocks in Hn.
  assert (length (results_for id (all_blocks ms)) ≤ 1) as H; [|rewrite <- (places_blocks 0 ms), places_for_map, length_map in H; lia].
  revert Hn. generalize (all_blocks ms). clear. unfold results_for. induction l as [|b l IH]; cbn [map concat]; [cbn; lia|].
  intros Hn. rewrite filter_cons_if. destruct (is_result id b) eqn:E; [|apply IH; by apply NoDup_app in Hn as (_ & _ & Hn)].
  apply is_result_id in E as (content & is_error & ->). apply NoDup_cons in Hn as [Hn _]. cbn.
  destruct (filter _ l) as [|x xs] eqn:F; [cbn; lia|]. assert (x ∈ filter (λ b, is_result id b = true) l) as Hx by (rewrite F; by left).
  apply list_elem_of_filter in Hx as [(content' & is_error' & ->)%is_result_id Hx].
  destruct Hn. apply list_elem_of_lookup in Hx as [i Hi]. by apply (elem_of_concat_map block_results _ _ _ _ Hi); left.
Qed.

Lemma dedupe_tool_uses ms : tool_uses (dedupe_tool_results ms) = tool_uses ms.
Proof.
  pose proof (dedupe_loses ms) as H. unfold tool_uses. induction H as [|m m' l l' Hm _ IH]; [done|]. cbn [map concat].
  rewrite IH. f_equal. exact (loses_uses _ _ Hm).
Qed.

Lemma dedupe_tool_results_subset ms id : id ∈ tool_results (dedupe_tool_results ms) → id ∈ tool_results ms.
Proof.
  rewrite !tool_results_messages. intros (j & m & Hj & Hid).
  destruct (Forall2_lookup_r _ _ _ _ _ (dedupe_loses ms) Hj) as (m0 & Hm0 & L). exists j, m0. split; [done|]. by eapply loses_ids.
Qed.

Lemma answers_nodup ms : NoDup (tool_uses ms) → NoDup (tool_results ms) → NoDup (concat (map (answers_at (dangling_calls ms)) ms)).
Proof.
  intros Hu Hr. unfold answers_at. rewrite interleave_perm. set (g := λ m : Msg, _).
  assert (sublist (concat (map g ms)) (tool_uses ms)) as Hs.
  { apply concat_sublist. intros m. unfold g. destruct (m_role m); [apply sublist_nil_l|apply sublist_filter]. }
  apply NoDup_app. split_and!; [exact Hr| |exact (sublist_NoDup _ _ Hu Hs)].
  intros id Hid (y & (m & <- & Hm)%in_map_iff & Hy)%list_elem_of_In%in_concat. unfold g in Hy. apply list_elem_of_In in Hy.
  destruct (m_role m); [by apply not_elem_of_nil in Hy|]. apply list_elem_of_filter in Hy as [Hd _].
  unfold dangling_calls in Hd. apply elem_of_difference in Hd as [_ Hd]. apply Hd. by apply elem_of_list_to_set.
Qed.

Lemma answers_ids ms id : id ∈ concat (map (answers_at (dangling_calls ms)) ms) → id ∈ tool_uses ms ++ tool_results ms.
Proof.
  rewrite list_elem_of_In, in_concat. intros (y & (m & <- & Hm)%in_map_iff & Hy). apply elem_of_app.
  apply list_elem_of_In, list_elem_of_lookup in Hm as [j Hj]. unfold answers_at in Hy. apply list_elem_of_In, elem_of_app in Hy as [Hy|Hy].
  - right. apply tool_results_messages. by exists j, m.
  - left. destruct (m_role m); [by apply not_elem_of_nil in Hy|]. apply list_elem_of_filter in Hy as [_ Hy]. by eapply tool_uses_messages.
Qed.

(** No two ids of the conversation are the same after cleaning. *)
Definition ids_stay_apart ms : Prop :=
  ∀ i j, i ∈ tool_uses ms ++ tool_results ms → j ∈ tool_uses ms ++ tool_results ms → sanitize_tool_id i = sanitize_tool_id j → i = j.

Lemma request_answers_nodup ms is_oauth :
  NoDup (tool_uses ms) → ids_stay_apart ms → NoDup (concat (map api_results (format_messages ms is_oauth))).
Proof.
  intros Hu Hi. rewrite request_results. apply NoDup_fmap_2_strong.
  - intros x y Hx Hy. apply Hi; [apply answers_ids in Hx; revert Hx|apply answers_ids in Hy; revert Hy];
      rewrite !elem_of_app, dedupe_tool_uses; intros [?|?%dedupe_tool_results_subset]; auto.
  - apply answers_nodup; [by rewrite dedupe_tool_uses|apply deduped_nodup].
Qed.
End answers.

(** ** The properties *)

Section properties.
Context {Time : Type}.
Notation Msg := (Message Json Time).

(** Whatever the conversation is, the messages of a request to Anthropic alternate between user and
    assistant, none is empty, and the last is the user's. *)
Theorem request_alternates (ms : list Msg) (is_oauth : bool) : well_shaped (format_messages ms is_oauth).
Proof. apply request_shape. Qed.

(** C15. When what is left of the results stands in the user's messages right after the calls, the check at
    the end of [format_messages] finds nothing: every call, also one that was interrupted and has no result,
    is answered in the message that follows it. *)
Theorem calls_answered_next (ms : list Msg) (is_oauth : bool)
    (Hprompt : prompt_answers (dedupe_tool_results ms)) :
  unanswered (format_messages ms is_oauth) = [].
Proof. by apply request_answered. Qed.

End properties.

(** ** Examples *)

Module AnthropicDemo.
Definition user (content : list (ContentBlock Json)) : Message Json unit := 
  {| m_role := User; m_content := content; m_timestamp := None; m_tool_duration_ms := None |}.
Definition assistant (content : list (ContentBlock Json)) : Message Json unit := 
  {| m_role := Assistant; m_content := content; m_timestamp := None; m_tool_duration_ms := None |}.
Definition run_tool (id : string) : ContentBlock Json := ToolUse id "bash" (JObject []) None.
Definition answer (id content : string) : ContentBlock Json := ToolResult id content None.
Definition placeholder (id : string) : ContentBlock Json := ToolResult id TOOL_OUTPUT_MISSING_TEXT (Some true).

(** Two calls, one of them interrupted; the repair put a placeholder in before the result came. *)
Definition conversation : list (Message Json unit) :=
  [user [Text "hi" None]; assistant [run_tool "a.1"; run_tool "b"]; user [placeholder "a.1"]; user [answer "a.1" "done"];
   assistant [Text "ok" None]].

Example conversation_request :
  map (λ m, (am_role m, api_uses m, api_results m)) (format_messages conversation true) =
    [("user", [], []); ("assistant", ["a_1"; "b"], []); ("user", [], ["b"; "a_1"]); ("assistant", [], []); ("user", [], [])].
Proof. vm_compute. reflexivity. Qed.

Lemma conversation_prompt : prompt_answers (dedupe_tool_results conversation).
Proof.
  intros i j a m id Hi Hr Hu Hj Hm. vm_compute in Hi, Hj.
  destruct i as [|[|[|[|[|i]]]]]; try discriminate Hi; injection Hi as <-; try discriminate Hr; vm_compute in Hu;
    destruct j as [|[|[|[|[|j]]]]]; try discriminate Hj; injection Hj as <-; vm_compute in Hm;
    try (by inversion Hu); try (by inversion Hm).
  split; [lia|]. intros k Hk. assert (k = 2 ∨ k = 3) as [-> | ->] by lia; eexists; by vm_compute.
Qed.

Lemma conversation_apart : ids_stay_apart conversation.
Proof.
  assert (∀ i, i ∈ tool_uses conversation ++ tool_results conversation → i = "a.1" ∨ i = "b") as H.
  { intros i Hi. vm_compute in Hi. repeat (apply elem_of_cons in Hi as [->|Hi]; [by auto|]). by apply not_elem_of_nil in Hi. }
  intros i j [->| ->]%H [->| ->]%H E; vm_compute in E; done.
Qed.

(** The repair answers a call that is still running, the conversation goes on, and the real result comes
    later: it wins, the placeholder is taken away, and the call stands without an answer. *)
Definition overtaken : list (Message Json unit) :=
  [user [Text "hi" None]; assistant [run_tool "a"]; user [placeholder "a"; Text "still there?" None];
   assistant [Text "yes" None]; user [answer "a" "done"]].

Example late_result_unanswers_its_call : unanswered (format_messages overtaken false) = ["a"].
Proof. vm_compute. reflexivity. Qed.
End AnthropicDemo.

Section witnesses.
Import AnthropicDemo.

Lemma calls_answered_next_witness :
  prompt_answers (dedupe_tool_results conversation) ∧ unanswered (format_messages conversation true) = [].
Proof. split; [exact conversation_prompt|]. apply (calls_answered_next conversation true). exact conversation_prompt. Defined.

End witnesses.
