(* ===== verification/AnthropicCache.v ===== *)
(** * Cache markers and tools of a request to Anthropic

    A request has at most four markers; when the conversation grows by a turn the part of the request up
    to the last marker stays as it is, and is marked again; and the tools that are advertised on the
    subscription surface are the registered ones. *)

From S2P Require Export AnthropicTheorems.

(** ** Counting the markers *)

Definition marked (b : ApiContentBlock) : bool :=
  match b with Api_Text _ (Some _) | Api_ToolUse _ _ _ (Some _) => true | _ => false end.
Definition count {A} (f : A → bool) (l : list A) : nat := length (filter (λ x, f x = true) l).

Definition block_markers (content : list ApiContentBlock) : nat := count marked content.
Definition message_markers (ms : list ApiMessage) : nat := sum_list (map (λ m, block_markers (am_content m)) ms).
Definition tool_markers (tools : list ApiTool) : nat :=
  count (λ t, match at_cache_control t with Some _ => true | None => false end) tools.
Definition system_markers (system : option (list ApiSystemBlock)) : nat :=
  count (λ b, match sb_cache_control b with Some _ => true | None => false end) (default [] system).

Lemma count_app {A} (f : A → bool) l1 l2 : count f (l1 ++ l2) = count f l1 + count f l2.
Proof. unfold count. by rewrite filter_app, length_app. Qed.
Lemma count_cons {A} (f : A → bool) x l : count f (x :: l) = (if f x then 1 else 0) + count f l.
Proof. unfold count. rewrite filter_cons_if. by destruct (f x). Qed.
Lemma count_reverse {A} (f : A → bool) l : count f (reverse l) = count f l.
Proof. induction l as [|x l IH]; [done|]. rewrite reverse_cons, count_app, IH, !count_cons. change (count f []) with 0. lia. Qed.
Lemma count_zero {A} (f : A → bool) l : (∀ x, x ∈ l → f x = false) → count f l = 0.
Proof.
  induction l as [|x l IH]; intros H; [done|]. rewrite count_cons, (H x) by (by left). apply IH. intros y Hy. apply H. by right.
Qed.

Lemma message_markers_app l1 l2 : message_markers (l1 ++ l2) = message_markers l1 + message_markers l2.
Proof. unfold message_markers. rewrite map_app. induction (map _ l1) as [|n l IH]; cbn in *; lia. Qed.
Lemma message_markers_reverse l : message_markers (reverse l) = message_markers l.
Proof.
  induction l as [|m l IH]; [done|]. rewrite reverse_cons, message_markers_app, IH. unfold message_markers. cbn. lia.
Qed.

Lemma mark_first_count c l : block_markers (mark_first c l) ≤ S (block_markers l).
Proof.
  unfold block_markers. induction l as [|b l IH]; [cbn; lia|]. destruct b; cbn [mark_first]; rewrite !count_cons; cbn [marked];
    repeat case_match; lia.
Qed.

Lemma mark_message_count c m : block_markers (am_content (mark_message c m)) ≤ S (block_markers (am_content m)).
Proof.
  unfold mark_message. cbn [am_content]. pose proof (mark_first_count c (reverse (am_content m))) as H.
  unfold block_markers in *. by rewrite !count_reverse in *.
Qed.

Lemma mark_assistants_count c n ms : message_markers (mark_assistants c n ms) ≤ n + message_markers ms.
Proof.
  revert n. induction ms as [|m ms IH]; intros n; [cbn; lia|]. destruct n as [|n]; [cbn [mark_assistants]; lia|].
  cbn [mark_assistants]. unfold message_markers in *. destruct (String.eqb _ _); cbn [map sum_list sum_list_with].
  - pose proof (mark_message_count c m). specialize (IH n). cbn in *. lia.
  - specialize (IH (S n)). cbn in *. lia.
Qed.

Lemma breakpoint_count ms ttl : message_markers (add_message_cache_breakpoint ms ttl) ≤ 2 + message_markers ms.
Proof.
  unfold add_message_cache_breakpoint. destruct (_ <? _); [lia|].
  pose proof (mark_assistants_count (ephemeral ttl) 2 (reverse ms)) as H. by rewrite message_markers_reverse in *.
Qed.

(** ** A request as it is formatted has no markers *)

Definition unmarked_blocks (content : list ApiContentBlock) : Prop := ∀ b, b ∈ content → marked b = false.

Section unmarked.
Context {Time : Type}.
Notation Msg := (Message Json Time).

Lemma format_block_unmarked is_oauth (l : list ApiContentBlock) (b : ContentBlock Json) :
  unmarked_blocks l → unmarked_blocks (format_block is_oauth l b).
Proof.
  intros H. assert (∀ x l', unmarked_blocks l' → marked x = false → unmarked_blocks (x :: l')) as Hc.
  { intros x l' Hl' Hx y [->|Hy]%elem_of_cons; auto. }
  assert (∀ x l', l = x :: l' → unmarked_blocks l') as Ht by (intros x l' -> y Hy; apply H; by right).
  destruct b; cbn; try exact H; try (by apply Hc); repeat case_match; subst; eauto using Hc.
Qed.

Lemma format_content_unmarked is_oauth (content : list (ContentBlock Json)) :
  unmarked_blocks (format_content_blocks content is_oauth).
Proof.
  unfold format_content_blocks. assert (∀ acc, unmarked_blocks acc → unmarked_blocks (foldl (format_block is_oauth) acc content)) as H.
  { induction content as [|b content IH]; [done|]. intros acc Ha. apply IH. by apply format_block_unmarked. }
  intros b Hb. apply (H []); [by intros ? ?%not_elem_of_nil|]. by rewrite elem_of_reverse in Hb.
Qed.

Lemma synthetic_unmarked dangling (content : list (ContentBlock Json)) : unmarked_blocks (synthetic_results dangling content).
Proof.
  intros b (x & Hx & E)%list_elem_of_omap. destruct x; try done. case_match; [|done]. by injection E as <-.
Qed.

Definition unmarked (ms : list ApiMessage) : Prop := ∀ m, m ∈ ms → unmarked_blocks (am_content m).

Lemma unmarked_count ms : unmarked ms → message_markers ms = 0.
Proof.
  induction ms as [|m ms IH]; intros H; [done|]. unfold message_markers in *. cbn. rewrite IH by (intros x Hx; apply H; by right).
  unfold block_markers. by rewrite count_zero by (apply H; by left).
Qed.

Lemma join_unmarked m ms : unmarked (m :: ms) → unmarked (join_message m ms).
Proof.
  destruct ms as [|g gs]; [done|]. intros H. cbn [join_message]. case_match; [|done].
  intros x [->|Hx]%elem_of_cons; [|apply H; by do 2 right]. cbn.
  intros b [Hb|Hb]%elem_of_app; [by apply (H m); [left|]|by apply (H g); [right; left|]].
Qed.

Lemma joined_unmarked ms : unmarked ms → unmarked (joined ms).
Proof.
  induction ms as [|m ms IH]; intros H; [done|]. cbn [joined foldr]. apply join_unmarked. fold (joined ms).
  intros x [->|Hx]%elem_of_cons; [apply H; by left|]. apply IH; [|done]. intros y Hy. apply H. by right.
Qed.

Lemma request_unmarked (ms : list Msg) is_oauth : unmarked (format_messages ms is_oauth).
Proof.
  rewrite format_messages_joined. assert (unmarked (joined (formatted ms is_oauth))) as H.
  { apply joined_unmarked. intros m Hm. unfold formatted in Hm.
    apply list_elem_of_In, in_concat in Hm as (l & (msg & <- & _)%in_map_iff & Hl). apply list_elem_of_In in Hl.
    unfold format_message in Hl. apply elem_of_app in Hl as [Hl|Hl]; repeat case_match; try (by apply not_elem_of_nil in Hl);
      apply list_elem_of_singleton in Hl as ->; [apply format_content_unmarked|apply synthetic_unmarked]. }
  unfold ensure_user_last. destruct (last _); [|done]. case_match; [|done]. intros m [Hm| ->%list_elem_of_singleton]%elem_of_app; [by apply H|].
  by intros b ->%list_elem_of_singleton.
Qed.
End unmarked.

(** ** The system prompt and the tools *)

Lemma system_count static dynamic is_oauth ttl : system_markers (build_system_param_split static dynamic is_oauth ttl) ≤ 1.
Proof.
  unfold system_markers, build_system_param_split, system_block.
  destruct is_oauth, (is_empty static), (is_empty dynamic); vm_compute; lia.
Qed.

Section tools.
Context (store : QuirkStore).
Implicit Types (tools : list ToolDefinition).

Lemma mark_last_snoc c (tools : list ApiTool) t : mark_last c (tools ++ [t]) = tools ++ [MkApiTool (at_name t) (at_description t) (at_input_schema t) (Some c)].
Proof. unfold mark_last. by rewrite reverse_snoc, reverse_cons, reverse_involutive. Qed.

Lemma mark_last_count c (tools : list ApiTool) : tool_markers (mark_last c tools) ≤ S (tool_markers tools).
Proof.
  destruct tools as [|t l _] using rev_ind; [cbn; lia|]. rewrite mark_last_snoc. unfold tool_markers. rewrite !count_app, !count_cons.
  cbn [at_cache_control]. lia.
Qed.

Lemma mark_last_names c (tools : list ApiTool) : at_name <$> mark_last c tools = at_name <$> tools.
Proof. destruct tools as [|t l _] using rev_ind; [done|]. by rewrite mark_last_snoc, !fmap_app. Qed.

Lemma curated_unmarked e : e ∈ curated_tools → at_cache_control e.2 = None.
Proof. intros H. unfold curated_tools in H. by repeat (apply elem_of_cons in H as [->|H]; [reflexivity|]); apply not_elem_of_nil in H. Qed.

Lemma tools_count tools is_oauth ttl : tool_markers (format_tools store tools is_oauth ttl) ≤ 1.
Proof.
  unfold format_tools. etransitivity; [apply mark_last_count|]. apply le_n_S, Nat.le_0_r, count_zero. intros t Ht.
  assert (at_cache_control t = None) as ->; [|done]. destruct is_oauth.
  - apply elem_of_app in Ht as [(e & -> & [_ He]%list_elem_of_filter)%list_elem_of_fmap|(d & -> & _)%list_elem_of_fmap]; [|done].
    by apply curated_unmarked.
  - by apply list_elem_of_fmap in Ht as (d & -> & _).
Qed.

(** The local name of an advertised tool. *)
Definition local_name (t : ApiTool) : string := anthropic_map_tool_name_from_oauth (at_name t).

Lemma curated_backing : curated_tools.*1 = (λ t, [local_name t]) <$> curated_tools.*2.
Proof. vm_compute. reflexivity. Qed.

Lemma curated_names : local_name <$> curated_tools.*2 = OAUTH_BUILTIN_LOCAL_TOOLS.
Proof. vm_compute. reflexivity. Qed.

(** No registered tool has a name of the subscription surface. *)
Definition plain_names tools : Prop := ∀ d, d ∈ tools → one_of (snd <$> OAUTH_TOOL_NAMES) (td_name d) = false.

Lemma has_backing_one tools n : has_backing tools [n] = bool_decide (n ∈ td_name <$> tools).
Proof.
  unfold has_backing. cbn. rewrite orb_false_r. induction tools as [|d tools IH]; [done|]. cbn. rewrite IH.
  destruct (String.eqb (td_name d) n) eqn:E; [apply String.eqb_eq in E as <-; symmetry; apply bool_decide_eq_true; by left|].
  apply String.eqb_neq in E. cbn. apply bool_decide_ext. rewrite elem_of_cons. split; [by right|by intros [->|]].
Qed.

Lemma backed_names tools (l : list (list string * ApiTool)) :
  l.*1 = (λ t, [local_name t]) <$> l.*2 →
  local_name <$> (filter (λ e, has_backing tools e.1 = true) l).*2 = filter (λ n, n ∈ td_name <$> tools) (local_name <$> l.*2).
Proof.
  induction l as [|[c t] l IH]; [done|]. cbn [fmap list_fmap fst snd]. intros [= -> Hl]. rewrite filter_cons_if.
  cbn [fst]. rewrite has_backing_one, filter_cons. destruct (decide (local_name t ∈ td_name <$> tools)) as [H|H].
  - rewrite bool_decide_eq_true_2 by done. cbn. f_equal. by apply IH.
  - rewrite bool_decide_eq_false_2 by done. by apply IH.
Qed.

Lemma forwarded_names tools :
  plain_names tools →
  local_name <$> (forwarded_tool store true <$> filter (λ t, negb (one_of OAUTH_BUILTIN_LOCAL_TOOLS (td_name t)) = true) tools)
  = filter (λ n, n ∉ OAUTH_BUILTIN_LOCAL_TOOLS) (td_name <$> tools).
Proof.
  induction tools as [|d tools IH]; intros Hp; [done|]. cbn [fmap list_fmap]. rewrite filter_cons_if, filter_cons.
  assert (plain_names tools) as Hr by (intros x Hx; apply Hp; by right). specialize (IH Hr).
  destruct (one_of OAUTH_BUILTIN_LOCAL_TOOLS (td_name d)) eqn:E; cbn [negb].
  - apply one_of_iff in E. rewrite decide_False by tauto. exact IH.
  - apply one_of_false in E. rewrite decide_True by done. cbn [fmap list_fmap]. f_equal; [|exact IH].
    apply oauth_tool_name_roundtrip, Hp. by left.
Qed.

(** The local names of what the subscription surface is shown. *)
Lemma oauth_local_names tools ttl :
  plain_names tools →
  local_name <$> format_tools store tools true ttl
  = filter (λ n, n ∈ td_name <$> tools) OAUTH_BUILTIN_LOCAL_TOOLS ++ filter (λ n, n ∉ OAUTH_BUILTIN_LOCAL_TOOLS) (td_name <$> tools).
Proof.
  intros Hp. assert (∀ l : list ApiTool, local_name <$> l = anthropic_map_tool_name_from_oauth <$> (at_name <$> l)) as Hl.
  { intros l. by rewrite <- list_fmap_compose. }
  assert (format_tools store tools true ttl = mark_last (ephemeral ttl)
    ((filter (λ e, has_backing tools e.1 = true) curated_tools).*2
     ++ (forwarded_tool store true <$> filter (λ t, negb (one_of OAUTH_BUILTIN_LOCAL_TOOLS (td_name t)) = true) tools))) as -> by done.
  rewrite Hl, mark_last_names, <- Hl, fmap_app, (forwarded_names _ Hp), (backed_names _ _ curated_backing), curated_names.
  done.
Qed.

Lemma oauth_tools_are_registered tools ttl n :
  plain_names tools → n ∈ local_name <$> format_tools store tools true ttl ↔ n ∈ td_name <$> tools.
Proof.
  intros Hp. rewrite oauth_local_names by done. rewrite elem_of_app, !list_elem_of_filter.
  destruct (decide (n ∈ OAUTH_BUILTIN_LOCAL_TOOLS)); tauto.
Qed.

Lemma oauth_names_nodup tools ttl :
  plain_names tools → NoDup (td_name <$> tools) → NoDup (at_name <$> format_tools store tools true ttl).
Proof.
  intros Hp Hn. assert (NoDup (local_name <$> format_tools store tools true ttl)) as H.
  { rewrite oauth_local_names by done. apply NoDup_app. split_and!.
    - apply NoDup_filter. apply (bool_decide_unpack _). vm_compute. done.
    - intros x [_ Hx]%list_elem_of_filter [Hx' _]%list_elem_of_filter. done.
    - by apply NoDup_filter. }
  apply (NoDup_fmap_1 anthropic_map_tool_name_from_oauth). by rewrite <- list_fmap_compose.
Qed.
End tools.

(** ** A conversation that grows *)

Lemma joined_cons_role x xs : ∃ g gs, joined (x :: xs) = g :: gs ∧ am_role g = am_role x.
Proof.
  cbn [joined foldr]. destruct (foldr join_message [] xs) as [|g gs]; cbn; [by eauto|].
  destruct (String.eqb _ _); by eauto.
Qed.

Lemma joined_app xs ys :
  (∀ x y, last xs = Some x → head ys = Some y → am_role x ≠ am_role y) → joined (xs ++ ys) = joined xs ++ joined ys.
Proof.
  induction xs as [|x xs IH]; intros H; [done|]. cbn [app joined foldr]. fold (joined (xs ++ ys)) (joined xs).
  destruct xs as [|x2 xs].
  - cbn [app]. destruct ys as [|y ys]; [done|]. destruct (joined_cons_role y ys) as (g & gs & -> & Hg). cbn.
    assert (am_role x ≠ am_role g) as ->%String.eqb_neq; [|done]. rewrite Hg. by apply H.
  - rewrite IH by (intros z y Hz; by apply H). destruct (joined_cons_role x2 xs) as (g & gs & -> & _). cbn.
    by destruct (String.eqb _ _).
Qed.

Lemma joined_last xs x : last xs = Some x → ∃ y, last (joined xs) = Some y ∧ am_role y = am_role x.
Proof.
  revert x. induction xs as [|z xs IH]; intros x Hx; [done|]. destruct xs as [|x2 xs].
  - injection Hx as ->. by exists x.
  - destruct (IH x Hx) as (y & Hy & Hr). cbn [joined foldr]. fold (joined xs). change (join_message x2 (joined xs)) with (joined (x2 :: xs)).
    destruct (joined (x2 :: xs)) as [|g gs]; [done|]. cbn [join_message]. destruct (String.eqb _ _) eqn:E; [|by exists y].
    destruct gs as [|g2 gs]; [|by exists y]. injection Hy as <-. apply String.eqb_eq in E. eexists. split; [done|]. cbn. congruence.
Qed.

(** A message without its markers. *)
Definition erase_block (b : ApiContentBlock) : ApiContentBlock :=
  match b with
  | Api_Text text _ => Api_Text text None
  | Api_ToolUse id name input _ => Api_ToolUse id name input None
  | b => b
  end.
Definition erase (m : ApiMessage) : ApiMessage := MkApiMessage (am_role m) (map erase_block (am_content m)).

Lemma mark_first_erase c l : map erase_block (mark_first c l) = map erase_block l.
Proof. induction l as [|b l IH]; [done|]. destruct b; cbn [mark_first map]; by rewrite ?IH. Qed.

Lemma map_reverse {A B} (f : A → B) (l : list A) : map f (reverse l) = reverse (map f l).
Proof. exact (fmap_reverse f l). Qed.

Lemma mark_message_erase c m : erase (mark_message c m) = erase m.
Proof.
  unfold erase, mark_message. cbn [am_role am_content]. f_equal. by rewrite map_reverse, mark_first_erase, map_reverse, reverse_involutive.
Qed.

Lemma mark_assistants_erase c n ms : map erase (mark_assistants c n ms) = map erase ms.
Proof.
  revert n. induction ms as [|m ms IH]; intros [|n]; try done. cbn [mark_assistants].
  destruct (String.eqb _ _); cbn [map]; by rewrite IH, ?mark_message_erase.
Qed.

Lemma mark_assistants_length c n ms : length (mark_assistants c n ms) = length ms.
Proof. by rewrite <- (length_map erase), mark_assistants_erase, length_map. Qed.

(** The markers of messages that end with a turn of the assistant and one of the user. *)
Lemma breakpoints_snoc ttl pre a u :
  am_role a = "assistant" → am_role u = "user" → pre ≠ [] →
  add_message_cache_breakpoint (pre ++ [a; u]) ttl
  = reverse (mark_assistants (ephemeral ttl) 1 (reverse pre)) ++ [mark_message (ephemeral ttl) a; u].
Proof.
  intros Ha Hu Hp. unfold add_message_cache_breakpoint. rewrite length_app. destruct pre as [|x pre]; [done|].
  replace (length (x :: pre) + length [a; u] <? 3) with false by (symmetry; apply Nat.ltb_ge; cbn; lia).
  rewrite reverse_app. change (reverse [a; u]) with [u; a]. cbn [app mark_assistants]. rewrite Ha, Hu.
  change (String.eqb "user" "assistant") with false. change (String.eqb "assistant" "assistant") with true. cbn iota.
  by rewrite !reverse_cons, <- app_assoc.
Qed.

Lemma breakpoints_next ttl pre a u a2 u2 :
  am_role a = "assistant" → am_role u = "user" → am_role a2 = "assistant" → am_role u2 = "user" → pre ≠ [] →
  add_message_cache_breakpoint ((pre ++ [a; u]) ++ [a2; u2]) ttl
  = pre ++ [mark_message (ephemeral ttl) a; u; mark_message (ephemeral ttl) a2; u2].
Proof.
  intros Ha Hu Ha2 Hu2 Hp. rewrite breakpoints_snoc by (done || by destruct pre).
  rewrite reverse_app. change (reverse [a; u]) with [u; a]. cbn [app mark_assistants]. rewrite Ha, Hu.
  change (String.eqb "user" "assistant") with false. change (String.eqb "assistant" "assistant") with true. cbn iota.
  rewrite !reverse_cons.
  assert (mark_assistants (ephemeral ttl) 0 (reverse pre) = reverse pre) as -> by (by destruct (reverse pre)).
  by rewrite reverse_involutive, <- !app_assoc.
Qed.

(** The messages [new] begin with all that [old] has up to its last marker, and the message there is
    marked in both. *)
Definition keeps_cached_prefix (old new : list ApiMessage) : Prop :=
  ∃ n, (∀ k m, old !! k = Some m → 0 < block_markers (am_content m) → k ≤ n)
     ∧ map erase (take (S n) new) = map erase (take (S n) old) ∧ new !! n = old !! n ∧ is_Some (old !! n).

Lemma cached_prefix ttl pre a u a2 u2 :
  am_role a = "assistant" → am_role u = "user" → am_role a2 = "assistant" → am_role u2 = "user" → pre ≠ [] →
  unmarked (pre ++ [a; u]) →
  keeps_cached_prefix (add_message_cache_breakpoint (pre ++ [a; u]) ttl)
    (add_message_cache_breakpoint ((pre ++ [a; u]) ++ [a2; u2]) ttl).
Proof.
  intros Ha Hu Ha2 Hu2 Hp Hn. rewrite breakpoints_next, breakpoints_snoc by done.
  set (old := reverse _). assert (length old = length pre) as Hl.
  { unfold old. by rewrite length_reverse, mark_assistants_length, length_reverse. }
  exists (length pre). split_and!.
  - intros k m Hk Hm. destruct (decide (k ≤ length pre)) as [|Hgt]; [done|]. exfalso.
    rewrite lookup_app_r, Hl in Hk by lia. destruct (k - length pre) as [|[|i]] eqn:E; [lia| |done]. injection Hk as <-.
    assert (block_markers (am_content u) = 0); [|lia]. apply count_zero, Hn. apply elem_of_app. right. by right; left.
  - assert (∀ (l : list ApiMessage) x r, length l = length pre → take (S (length pre)) (l ++ x :: r) = l ++ [x]) as Ht.
    { intros l x r E. rewrite <- E, take_app_ge by lia. f_equal. replace (S (length l) - length l) with 1 by lia. done. }
    rewrite !Ht by done. rewrite !map_app. f_equal. unfold old. by rewrite map_reverse, mark_assistants_erase, map_reverse, reverse_involutive.
  - rewrite lookup_app_r by lia. rewrite lookup_app_r by lia. by rewrite Hl, Nat.sub_diag.
  - rewrite lookup_app_r by lia. by rewrite Hl, Nat.sub_diag.
Qed.

Section grow.
Context {Time : Type}.
Notation Msg := (Message Json Time).
Implicit Types (ms : list Msg) (msg : Msg).

(** Every call has a result somewhere. *)
Definition complete ms : Prop := ∀ id, id ∈ tool_uses ms → id ∈ tool_results ms.

(** Something of the message is sent. *)
Definition sends is_oauth msg : Prop := format_content_blocks (m_content msg) is_oauth ≠ [].

Definition sent is_oauth msg : ApiMessage := MkApiMessage (role_str (m_role msg)) (format_content_blocks (m_content msg) is_oauth).

Lemma complete_dangling ms : complete ms → dangling_calls ms = ∅.
Proof.
  intros H. apply set_eq. intros id. unfold dangling_calls. rewrite elem_of_difference, !elem_of_list_to_set.
  split; [intros [Hu Hr]; by apply H in Hu|by intros ?%not_elem_of_empty].
Qed.

Lemma format_message_complete is_oauth msg : sends is_oauth msg → format_message is_oauth ∅ msg = [sent is_oauth msg].
Proof.
  intros H. assert (∀ content : list (ContentBlock Json), synthetic_results ∅ content = []) as Hs.
  { intros content. induction content as [|b content IH]; [done|]. destruct b; exact IH. }
  unfold format_message. rewrite Hs. unfold sends in H. destruct (format_content_blocks _ _) eqn:E; [done|]. unfold sent. rewrite E.
  by destruct (m_role msg).
Qed.

Lemma formatted_complete ms is_oauth :
  complete ms → NoDup (tool_results ms) → formatted ms is_oauth = concat (map (format_message is_oauth ∅) ms).
Proof. intros Hc Hn. unfold formatted. by rewrite dedupe_nothing, complete_dangling. Qed.

Lemma user_end_joined ms is_oauth m :
  complete ms → NoDup (tool_results ms) → last ms = Some m → m_role m = User → sends is_oauth m →
  format_messages ms is_oauth = joined (formatted ms is_oauth)
  ∧ last (formatted ms is_oauth) = Some (sent is_oauth m).
Proof.
  intros Hc Hn Hl Hr Hs. assert (last (formatted ms is_oauth) = Some (sent is_oauth m)) as Hlast.
  { rewrite formatted_complete by done. apply last_Some in Hl as [l ->].
    rewrite map_app, concat_app. cbn [map concat]. by rewrite app_nil_r, (format_message_complete _ _ Hs), last_snoc. }
  split; [|done]. rewrite format_messages_joined. destruct (joined_last _ _ Hlast) as (y & Hy & Hyr).
  unfold ensure_user_last. rewrite Hy, Hyr. cbn [sent am_role]. by rewrite Hr.
Qed.

Lemma request_grows ms is_oauth m a u :
  complete ms → complete (ms ++ [a; u]) → NoDup (tool_results (ms ++ [a; u])) →
  last ms = Some m → m_role m = User → sends is_oauth m →
  m_role a = Assistant → sends is_oauth a → m_role u = User → sends is_oauth u →
  format_messages (ms ++ [a; u]) is_oauth = format_messages ms is_oauth ++ [sent is_oauth a; sent is_oauth u].
Proof.
  intros Hc Hc2 Hn Hl Hm Hsm Ha Hsa Hu Hsu.
  assert (NoDup (tool_results ms)) as Hn1.
  { unfold tool_results in *. rewrite map_app, concat_app in Hn. by apply NoDup_app in Hn as [? _]. }
  destruct (user_end_joined ms is_oauth m) as [-> Hlast]; [done..|].
  destruct (user_end_joined (ms ++ [a; u]) is_oauth u) as [-> _]; [done..| |done|done|].
  { change [a; u] with ([a] ++ [u]). by rewrite app_assoc, last_snoc. }
  rewrite (formatted_complete (ms ++ [a; u])), map_app, concat_app, <- formatted_complete by done. cbn [map concat app].
  rewrite (format_message_complete _ _ Hsa), (format_message_complete _ _ Hsu). cbn [app].
  rewrite joined_app.
  - f_equal. cbn [joined foldr join_message]. unfold sent at 1 2. cbn [am_role]. by rewrite Ha, Hu.
  - intros x y. rewrite Hlast. intros [= <-] [= <-]. unfold sent. cbn [am_role]. by rewrite Hm, Ha.
Qed.

Lemma alternating_suffix l1 l2 : alternating (l1 ++ l2) → alternating l2.
Proof. induction l1 as [|x l1 IH]; [done|]. intros H. apply IH. cbn in H. by destruct (l1 ++ l2); [|destruct H]. Qed.

Lemma well_shaped_end (l : list ApiMessage) :
  well_shaped l → 3 ≤ length l → ∃ pre a u, l = pre ++ [a; u] ∧ am_role a = "assistant" ∧ am_role u = "user" ∧ pre ≠ [].
Proof.
  intros (Hr & Ha & _ & Hl) Hlen. destruct l as [|u l _] using rev_ind; [cbn in Hlen; lia|].
  destruct l as [|a l _] using rev_ind; [cbn in Hlen; lia|]. exists l, a, u. rewrite <- app_assoc in *. cbn [app] in *.
  assert (am_role u = "user") as Hu by (apply Hl; change [a; u] with ([a] ++ [u]); by rewrite app_assoc, last_snoc).
  apply alternating_suffix in Ha as [Ha _]. split_and!; [done| |done|by intros ->; cbn in Hlen; lia].
  destruct (Hr a) as [E|]; [apply elem_of_app; right; by left| |done]. congruence.
Qed.

Lemma grown_prefix ms is_oauth ttl m a u :
  complete ms → complete (ms ++ [a; u]) → NoDup (tool_results (ms ++ [a; u])) →
  last ms = Some m → m_role m = User → sends is_oauth m →
  m_role a = Assistant → sends is_oauth a → m_role u = User → sends is_oauth u →
  3 ≤ length (format_messages ms is_oauth) →
  keeps_cached_prefix (format_messages_with_identity (format_messages ms is_oauth) is_oauth ttl)
    (format_messages_with_identity (format_messages (ms ++ [a; u]) is_oauth) is_oauth ttl).
Proof.
  intros Hc Hc2 Hn Hl Hm Hsm Ha Hsa Hu Hsu Hlen. unfold format_messages_with_identity. rewrite (request_grows _ _ m) by done.
  destruct (well_shaped_end _ (request_shape ms is_oauth) Hlen) as (pre & a1 & u1 & E & Ha1 & Hu1 & Hp).
  pose proof (request_unmarked ms is_oauth) as Hun. rewrite E in *. apply cached_prefix; try done; cbn; by rewrite ?Ha, ?Hu.
Qed.
End grow.

(** ** The properties *)

Section properties.
Context {Time : Type}.
Notation Msg := (Message Json Time).

(** C37. A request has at most four cache markers, the most the provider takes: one in the system prompt,
    one on the tools and two in the messages, whatever the conversation, the tools and the prompt are. *)
Theorem at_most_four_markers (store : QuirkStore) (ms : list Msg) (tools : list ToolDefinition) (static dynamic : string)
    (is_oauth ttl : bool) :
  system_markers (build_system_param_split static dynamic is_oauth ttl)
  + tool_markers (format_tools store tools is_oauth ttl)
  + message_markers (format_messages_with_identity (format_messages ms is_oauth) is_oauth ttl) ≤ 4.
Proof.
  pose proof (system_count static dynamic is_oauth ttl). pose proof (tools_count store tools is_oauth ttl).
  pose proof (breakpoint_count (format_messages ms is_oauth) ttl) as H'.
  rewrite (unmarked_count _ (request_unmarked ms is_oauth)) in H'. unfold format_messages_with_identity. lia.
Qed.


(** On the subscription surface the model is offered, under the names of that surface, the registered
    tools and no others, so a call is never of an unknown tool; and no name is offered twice. *)
Theorem advertised_tools_exist (store : QuirkStore) (tools : list ToolDefinition) (ttl : bool)
    (Hplain : plain_names tools) (Hnames : NoDup (td_name <$> tools)) :
  (∀ n, n ∈ local_name <$> format_tools store tools true ttl ↔ n ∈ td_name <$> tools)
  ∧ NoDup (at_name <$> format_tools store tools true ttl).
Proof. split; [intros n; by apply oauth_tools_are_registered|by apply oauth_names_nodup]. Qed.
End properties.

Module AnthropicCacheDemo.
Import AnthropicDemo.

Definition first_turns : list (Message Json unit) :=
  [user [Text "hi" None]; assistant [Text "let me see" None; run_tool "a"]; user [answer "a" "done"]].
Definition next_turn : list (Message Json unit) := [assistant [Text "ok" None]; user [Text "thanks" None]].

Example markers_move :
  map (λ m, block_markers (am_content m))
    (format_messages_with_identity (format_messages (first_turns ++ next_turn) false) false false) = [0; 1; 0; 1; 0].
Proof. vm_compute. reflexivity. Qed.

Definition registered : list ToolDefinition :=
  [MkToolDefinition "read" "Reads" (JObject []); MkToolDefinition "websearch" "Searches" (JObject []);
   MkToolDefinition "bash" "Runs" (JObject [])].

End AnthropicCacheDemo.

Section witnesses.
Import AnthropicDemo AnthropicCacheDemo.


Lemma advertised_tools_exist_witness :
  at_name <$> format_tools None registered true false = ["Bash"; "Read"; "websearch"]
  ∧ ("websearch" ∈ local_name <$> format_tools None registered true false ↔ "websearch" ∈ td_name <$> registered).
Proof.
  split; [by vm_compute|]. refine (proj1 (advertised_tools_exist None registered false _ _) "websearch").
  - intros d Hd. repeat (apply elem_of_cons in Hd as [->|Hd]; [reflexivity|]). by apply not_elem_of_nil in Hd.
  - by apply (bool_decide_unpack _); vm_compute.
Defined.
End witnesses.
