(* ===== verification/SessionStore.v ===== *)
(** * Sessions on disk (crates/arterm-base/src/session.rs, session/journal.rs, session/persistence.rs)

    A session is kept as a snapshot, the whole session as JSON, and a journal, one line of JSON for every
    save that only appended.  [save] decides between the two, [load_from_path] reads the snapshot and
    replays the journal.  The messages a provider is given are derived from the transcript and cached.

    A session's files are a [Disk]; what the file system makes of a write is an [Io].  [serde_json] is a
    parameter.  The fields that a journal entry repeats are kept as one record, [SessionJournalMeta];
    the memory profile, log lines and the presence files of other processes are left out. *)

From S2P Require Export CompactionManager PlanModel Utf8.

(** ** Data *)

Inductive SessionStatus :=
  | Status_Active | Status_Closed | Status_Crashed (message : option string) | Status_Reloaded
  | Status_Compacted | Status_RateLimited | Status_Error (message : string).
#[export] Instance SessionStatus_eq_dec : EqDecision SessionStatus. Proof. solve_decision. Defined.

Inductive SessionImproveMode := ImproveRun | ImprovePlan | RefactorRun | RefactorPlan.
#[export] Instance SessionImproveMode_eq_dec : EqDecision SessionImproveMode. Proof. solve_decision. Defined.

Inductive StoredDisplayRole := Display_System | Display_BackgroundTask.

Record StoredTokenUsage := MkUsage {
  tu_input_tokens : N;
  tu_output_tokens : N;
  tu_cache_read_input_tokens : option N;
  tu_cache_creation_input_tokens : option N;
}.

Record StoredMessage {Json Time : Type} := MkStoredMessage {
  st_id : string;
  st_role : Role;
  st_content : list (ContentBlock Json);
  st_display_role : option StoredDisplayRole;
  st_timestamp : option Time;
  st_tool_duration_ms : option N;
  st_token_usage : option StoredTokenUsage;
}.
Arguments StoredMessage : clear implicits. Arguments MkStoredMessage {Json Time}.

Record GitState := MkGitState {
  git_root : string;
  git_head : option string;
  git_branch : option string;
  git_dirty : option bool;
}.

Record EnvSnapshot {Time : Type} := MkEnvSnapshot {
  env_captured_at : Time;
  env_reason : string;
  env_session_id : string;
  env_working_dir : option string;
  env_provider : string;
  env_model : string;
  env_arterm_version : string;
  env_arterm_git_hash : option string;
  env_arterm_git_dirty : option bool;
  env_os : string;
  env_arch : string;
  env_pid : N;
  env_is_selfdev : bool;
  env_is_debug : bool;
  env_is_canary : bool;
  env_testing_build : option string;
  env_working_git : option GitState;
}.
Arguments EnvSnapshot : clear implicits. Arguments MkEnvSnapshot {Time}.

Record StoredMemoryInjection {Time : Type} := MkInjection {
  mi_summary : string;
  mi_content : string;
  mi_count : N;
  mi_memory_ids : list string;
  mi_age_ms : option N;
  mi_before_message : option nat;
  mi_timestamp : Time;
}.
Arguments StoredMemoryInjection : clear implicits. Arguments MkInjection {Time}.

(** [Member] is the status of a swarm member, which a session only compares and stores. *)
Inductive StoredReplayEventKind {Member : Type} :=
  | DisplayMessage (role : string) (title : option string) (content : string)
  | SwarmStatus (members : list Member)
  | SwarmPlan (swarm_id : string) (version : N) (items : list PlanItem) (participants : list string) (reason : option string).
Arguments StoredReplayEventKind : clear implicits. Arguments DisplayMessage {Member}.
Arguments SwarmStatus {Member}. Arguments SwarmPlan {Member}.
#[export] Instance StoredReplayEventKind_eq_dec {Member : Type} `{EqDecision Member} : EqDecision (StoredReplayEventKind Member).
Proof. solve_decision. Defined.

Record StoredReplayEvent {Time Member : Type} := MkReplayEvent {
  re_timestamp : Time;
  re_kind : StoredReplayEventKind Member;
}.
Arguments StoredReplayEvent : clear implicits. Arguments MkReplayEvent {Time Member}.

(** What a journal entry says of the session beside its appended parts. *)
Record SessionJournalMeta {Time : Type} := MkMeta {
  jm_parent_id : option string;
  jm_title : option string;
  jm_custom_title : option string;
  jm_updated_at : Time;
  jm_compaction : option StoredCompactionState;
  jm_provider_session_id : option string;
  jm_provider_key : option string;
  jm_model : option string;
  jm_reasoning_effort : option string;
  jm_subagent_model : option string;
  jm_improve_mode : option SessionImproveMode;
  jm_autoreview_enabled : option bool;
  jm_autojudge_enabled : option bool;
  jm_is_canary : bool;
  jm_testing_build : option string;
  jm_working_dir : option string;
  jm_short_name : option string;
  jm_status : SessionStatus;
  jm_last_pid : option N;
  jm_last_active_at : option Time;
  jm_is_debug : bool;
  jm_saved : bool;
  jm_save_label : option string;
}.
Arguments SessionJournalMeta : clear implicits. Arguments MkMeta {Time}.

Record SessionJournalEntry {Json Time Member : Type} := MkEntry {
  je_meta : SessionJournalMeta Time;
  je_append_messages : list (StoredMessage Json Time);
  je_append_env_snapshots : list (EnvSnapshot Time);
  je_append_memory_injections : list (StoredMemoryInjection Time);
  je_append_replay_events : list (StoredReplayEvent Time Member);
}.
Arguments SessionJournalEntry : clear implicits. Arguments MkEntry {Json Time Member}.

Inductive PersistVectorMode := Clean | Append | Full.
#[export] Instance PersistVectorMode_eq_dec : EqDecision PersistVectorMode. Proof. solve_decision. Defined.

(** What was last written. *)
Record SessionPersistState {Time : Type} := MkPersist {
  ps_snapshot_exists : bool;
  ps_messages_len : nat;
  ps_env_snapshots_len : nat;
  ps_memory_injections_len : nat;
  ps_replay_events_len : nat;
  ps_messages_mode : PersistVectorMode;
  ps_env_snapshots_mode : PersistVectorMode;
  ps_memory_injections_mode : PersistVectorMode;
  ps_replay_events_mode : PersistVectorMode;
  ps_last_meta : option (SessionJournalMeta Time);
}.
Arguments SessionPersistState : clear implicits. Arguments MkPersist {Time}.

Definition default_persist_state {Time} : SessionPersistState Time := MkPersist false 0 0 0 0 Clean Clean Clean Clean None.

Definition MAX_SESSION_JOURNAL_BYTES : N := 512 * 1024.
Definition MAX_ENV_SNAPSHOTS : nat := 8.
Definition ENTRY_START : string := String "{" (String (ascii_of_nat 34) ("meta" +:+ String (ascii_of_nat 34) ":")).

Definition differs {A} `{EqDecision A} (x y : A) : bool := negb (bool_decide (x = y)).

(** ** The hash of a prefix (FNV-1a, 64 bits) *)

Definition STABLE_HASH_SEED : N := 14695981039346656037.
Definition STABLE_HASH_PRIME : N := 1099511628211.

Definition hash_byte (hash : N) (b : ascii) : N := (N.lxor hash (byte b) * STABLE_HASH_PRIME) mod 2 ^ 64.
Fixpoint hash_bytes_from (hash : N) (bytes : string) : N :=
  match bytes with EmptyString => hash | String b bytes => hash_bytes_from (hash_byte hash b) bytes end.
Definition stable_hash_bytes (bytes : string) : N := hash_bytes_from STABLE_HASH_SEED bytes.

(** [u64::to_le_bytes] *)
Fixpoint le_bytes (n : nat) (x : N) : string :=
  match n with 0 => EmptyString | S n => String (ascii_of_N (x mod 256)) (le_bytes n (x / 256)) end.

Definition extend_stable_hash (acc next : N) : N := stable_hash_bytes (le_bytes 8 acc +:+ le_bytes 8 next).

Section session.
Context {Json Time Member : Type} `{EqDecision Member}.
Notation Stored := (StoredMessage Json Time).
Notation Msg := (Message Json Time).
Notation Meta := (SessionJournalMeta Time).
Notation Entry := (SessionJournalEntry Json Time Member).

Record Session := MkSession {
  ses_id : string;
  ses_created_at : Time;
  ses_meta : Meta;
  ses_route_api_method : option string;
  ses_messages : list Stored;
  ses_env_snapshots : list (EnvSnapshot Time);
  ses_memory_injections : list (StoredMemoryInjection Time);
  ses_replay_events : list (StoredReplayEvent Time Member);
  ses_persist_state : SessionPersistState Time;
  ses_provider_messages_cache : list Msg;
  ses_prefix_hashes_cache : list N;
  ses_cache_len : nat;
  ses_cache_mode : PersistVectorMode;
}.

Definition put_meta (meta : Meta) (s : Session) : Session :=
  MkSession
    (ses_id s) (ses_created_at s) meta (ses_route_api_method s) (ses_messages s) (ses_env_snapshots s)
    (ses_memory_injections s) (ses_replay_events s) (ses_persist_state s) (ses_provider_messages_cache s)
    (ses_prefix_hashes_cache s) (ses_cache_len s) (ses_cache_mode s).
Definition put_messages (messages : list Stored) (s : Session) : Session :=
  MkSession
    (ses_id s) (ses_created_at s) (ses_meta s) (ses_route_api_method s) messages (ses_env_snapshots s)
    (ses_memory_injections s) (ses_replay_events s) (ses_persist_state s) (ses_provider_messages_cache s)
    (ses_prefix_hashes_cache s) (ses_cache_len s) (ses_cache_mode s).
Definition put_env_snapshots (env_snapshots : list (EnvSnapshot Time)) (s : Session) : Session :=
  MkSession
    (ses_id s) (ses_created_at s) (ses_meta s) (ses_route_api_method s) (ses_messages s) env_snapshots
    (ses_memory_injections s) (ses_replay_events s) (ses_persist_state s) (ses_provider_messages_cache s)
    (ses_prefix_hashes_cache s) (ses_cache_len s) (ses_cache_mode s).
Definition put_memory_injections (memory_injections : list (StoredMemoryInjection Time)) (s : Session) : Session :=
  MkSession
    (ses_id s) (ses_created_at s) (ses_meta s) (ses_route_api_method s) (ses_messages s) (ses_env_snapshots s)
    memory_injections (ses_replay_events s) (ses_persist_state s) (ses_provider_messages_cache s)
    (ses_prefix_hashes_cache s) (ses_cache_len s) (ses_cache_mode s).
Definition put_replay_events (replay_events : list (StoredReplayEvent Time Member)) (s : Session) : Session :=
  MkSession
    (ses_id s) (ses_created_at s) (ses_meta s) (ses_route_api_method s) (ses_messages s) (ses_env_snapshots s)
    (ses_memory_injections s) replay_events (ses_persist_state s) (ses_provider_messages_cache s)
    (ses_prefix_hashes_cache s) (ses_cache_len s) (ses_cache_mode s).
Definition put_persist_state (persist_state : SessionPersistState Time) (s : Session) : Session :=
  MkSession
    (ses_id s) (ses_created_at s) (ses_meta s) (ses_route_api_method s) (ses_messages s) (ses_env_snapshots s)
    (ses_memory_injections s) (ses_replay_events s) persist_state (ses_provider_messages_cache s)
    (ses_prefix_hashes_cache s) (ses_cache_len s) (ses_cache_mode s).

Definition put_cache (cache : list Msg) (hashes : list N) (len : nat) (mode : PersistVectorMode) (s : Session) : Session :=
  MkSession
    (ses_id s) (ses_created_at s) (ses_meta s) (ses_route_api_method s) (ses_messages s) (ses_env_snapshots s)
    (ses_memory_injections s) (ses_replay_events s) (ses_persist_state s) cache hashes len mode.

(** ** What the fields of the metadata are set to *)

Definition meta_updated_at (updated_at : Time) (m : Meta) : Meta :=
  MkMeta
    (jm_parent_id m) (jm_title m) (jm_custom_title m) updated_at (jm_compaction m) (jm_provider_session_id m)
    (jm_provider_key m) (jm_model m) (jm_reasoning_effort m) (jm_subagent_model m) (jm_improve_mode m)
    (jm_autoreview_enabled m) (jm_autojudge_enabled m) (jm_is_canary m) (jm_testing_build m) (jm_working_dir m)
    (jm_short_name m) (jm_status m) (jm_last_pid m) (jm_last_active_at m) (jm_is_debug m) (jm_saved m)
    (jm_save_label m).
Definition meta_custom_title (custom_title : option string) (m : Meta) : Meta :=
  MkMeta
    (jm_parent_id m) (jm_title m) custom_title (jm_updated_at m) (jm_compaction m) (jm_provider_session_id m)
    (jm_provider_key m) (jm_model m) (jm_reasoning_effort m) (jm_subagent_model m) (jm_improve_mode m)
    (jm_autoreview_enabled m) (jm_autojudge_enabled m) (jm_is_canary m) (jm_testing_build m) (jm_working_dir m)
    (jm_short_name m) (jm_status m) (jm_last_pid m) (jm_last_active_at m) (jm_is_debug m) (jm_saved m)
    (jm_save_label m).
Definition meta_canary (is_canary : bool) (testing_build : option string) (m : Meta) : Meta :=
  MkMeta
    (jm_parent_id m) (jm_title m) (jm_custom_title m) (jm_updated_at m) (jm_compaction m)
    (jm_provider_session_id m) (jm_provider_key m) (jm_model m) (jm_reasoning_effort m) (jm_subagent_model m)
    (jm_improve_mode m) (jm_autoreview_enabled m) (jm_autojudge_enabled m) is_canary testing_build
    (jm_working_dir m) (jm_short_name m) (jm_status m) (jm_last_pid m) (jm_last_active_at m) (jm_is_debug m)
    (jm_saved m) (jm_save_label m).
Definition meta_status (status : SessionStatus) (m : Meta) : Meta :=
  MkMeta
    (jm_parent_id m) (jm_title m) (jm_custom_title m) (jm_updated_at m) (jm_compaction m)
    (jm_provider_session_id m) (jm_provider_key m) (jm_model m) (jm_reasoning_effort m) (jm_subagent_model m)
    (jm_improve_mode m) (jm_autoreview_enabled m) (jm_autojudge_enabled m) (jm_is_canary m) (jm_testing_build m)
    (jm_working_dir m) (jm_short_name m) status (jm_last_pid m) (jm_last_active_at m) (jm_is_debug m) (jm_saved m)
    (jm_save_label m).
Definition meta_active (last_pid : option N) (last_active_at : option Time) (m : Meta) : Meta :=
  MkMeta
    (jm_parent_id m) (jm_title m) (jm_custom_title m) (jm_updated_at m) (jm_compaction m)
    (jm_provider_session_id m) (jm_provider_key m) (jm_model m) (jm_reasoning_effort m) (jm_subagent_model m)
    (jm_improve_mode m) (jm_autoreview_enabled m) (jm_autojudge_enabled m) (jm_is_canary m) (jm_testing_build m)
    (jm_working_dir m) (jm_short_name m) (jm_status m) last_pid last_active_at (jm_is_debug m) (jm_saved m)
    (jm_save_label m).
Definition meta_saved (saved : bool) (save_label : option string) (m : Meta) : Meta :=
  MkMeta
    (jm_parent_id m) (jm_title m) (jm_custom_title m) (jm_updated_at m) (jm_compaction m)
    (jm_provider_session_id m) (jm_provider_key m) (jm_model m) (jm_reasoning_effort m) (jm_subagent_model m)
    (jm_improve_mode m) (jm_autoreview_enabled m) (jm_autojudge_enabled m) (jm_is_canary m) (jm_testing_build m)
    (jm_working_dir m) (jm_short_name m) (jm_status m) (jm_last_pid m) (jm_last_active_at m) (jm_is_debug m) saved
    save_label.
Definition meta_is_debug (is_debug : bool) (m : Meta) : Meta :=
  MkMeta
    (jm_parent_id m) (jm_title m) (jm_custom_title m) (jm_updated_at m) (jm_compaction m)
    (jm_provider_session_id m) (jm_provider_key m) (jm_model m) (jm_reasoning_effort m) (jm_subagent_model m)
    (jm_improve_mode m) (jm_autoreview_enabled m) (jm_autojudge_enabled m) (jm_is_canary m) (jm_testing_build m)
    (jm_working_dir m) (jm_short_name m) (jm_status m) (jm_last_pid m) (jm_last_active_at m) is_debug (jm_saved m)
    (jm_save_label m).

Definition update_meta (f : Meta → Meta) (s : Session) : Session := put_meta (f (ses_meta s)) s.

(** ** The metadata of a journal entry *)

Definition metadata_requires_snapshot (prev current : Meta) : bool :=
  differs (jm_parent_id prev) (jm_parent_id current)
  || differs (jm_title prev) (jm_title current)
  || differs (jm_custom_title prev) (jm_custom_title current)
  || differs (jm_provider_key prev) (jm_provider_key current)
  || differs (jm_reasoning_effort prev) (jm_reasoning_effort current)
  || differs (jm_subagent_model prev) (jm_subagent_model current)
  || differs (jm_improve_mode prev) (jm_improve_mode current)
  || differs (jm_autoreview_enabled prev) (jm_autoreview_enabled current)
  || differs (jm_autojudge_enabled prev) (jm_autojudge_enabled current)
  || differs (jm_is_canary prev) (jm_is_canary current)
  || differs (jm_testing_build prev) (jm_testing_build current)
  || differs (jm_working_dir prev) (jm_working_dir current)
  || differs (jm_short_name prev) (jm_short_name current)
  || differs (jm_status prev) (jm_status current)
  || differs (jm_is_debug prev) (jm_is_debug current)
  || differs (jm_saved prev) (jm_saved current)
  || differs (jm_save_label prev) (jm_save_label current).

Definition journal_meta (s : Session) : Meta := ses_meta s.
Definition apply_journal_meta (m : Meta) (s : Session) : Session := put_meta m s.

Definition reset_persist_state (snapshot_exists : bool) (s : Session) : Session :=
  put_persist_state
    (MkPersist snapshot_exists (length (ses_messages s)) (length (ses_env_snapshots s)) (length (ses_memory_injections s))
       (length (ses_replay_events s)) Clean Clean Clean Clean (Some (journal_meta s))) s.

(** ** Which parts changed *)

Definition append_dirty (mode : PersistVectorMode) : PersistVectorMode := match mode with Full => Full | _ => Append end.

Definition with_modes (f_messages f_env f_memory f_replay : PersistVectorMode → PersistVectorMode) (s : Session) : Session :=
  let p := ses_persist_state s in
  put_persist_state
    (MkPersist (ps_snapshot_exists p) (ps_messages_len p) (ps_env_snapshots_len p) (ps_memory_injections_len p)
       (ps_replay_events_len p) (f_messages (ps_messages_mode p)) (f_env (ps_env_snapshots_mode p))
       (f_memory (ps_memory_injections_mode p)) (f_replay (ps_replay_events_mode p)) (ps_last_meta p)) s.

Definition set_cache_mode (mode : PersistVectorMode) (s : Session) : Session :=
  put_cache (ses_provider_messages_cache s) (ses_prefix_hashes_cache s) (ses_cache_len s) mode s.

Definition same (mode : PersistVectorMode) : PersistVectorMode := mode.
Definition full (mode : PersistVectorMode) : PersistVectorMode := Full.

Definition mark_messages_append_dirty (s : Session) : Session :=
  set_cache_mode (append_dirty (ses_cache_mode s)) (with_modes append_dirty same same same s).
Definition mark_messages_full_dirty (s : Session) : Session := set_cache_mode Full (with_modes full same same same s).
Definition mark_env_snapshots_append_dirty (s : Session) : Session := with_modes same append_dirty same same s.
Definition mark_env_snapshots_full_dirty (s : Session) : Session := with_modes same full same same s.
Definition mark_memory_injections_append_dirty (s : Session) : Session := with_modes same same append_dirty same s.
Definition mark_replay_events_append_dirty (s : Session) : Session := with_modes same same same append_dirty s.

(** ** The transcript and the other parts *)

Definition append_stored_message (message : Stored) (s : Session) : Session :=
  mark_messages_append_dirty (put_messages (ses_messages s ++ [message]) s).

(** [add_message_ext_with_display_role]: the id and the time are given. *)
Definition add_message (id : string) (now : Time) (role : Role) (content : list (ContentBlock Json)) (tool_duration_ms : option N)
    (token_usage : option StoredTokenUsage) (display_role : option StoredDisplayRole) (s : Session) : Session :=
  append_stored_message (MkStoredMessage id role content display_role (Some now) tool_duration_ms token_usage) s.

(** [insert_message]: an index past the end panics. *)
Definition insert_message (index : nat) (message : Stored) (s : Session) : option Session :=
  if index <=? length (ses_messages s)
  then Some (mark_messages_full_dirty (put_messages (take index (ses_messages s) ++ message :: drop index (ses_messages s)) s))
  else None.

Definition replace_messages (messages : list Stored) (s : Session) : Session :=
  mark_messages_full_dirty (put_messages messages s).

Definition truncate_messages (len : nat) (s : Session) : Session :=
  if len <? length (ses_messages s) then mark_messages_full_dirty (put_messages (take len (ses_messages s)) s) else s.

Definition put_content (content : list (ContentBlock Json)) (m : Stored) : Stored :=
  MkStoredMessage (st_id m) (st_role m) content (st_display_role m) (st_timestamp m) (st_tool_duration_ms m) (st_token_usage m).

Definition strip_oversized_images (target_total_chars : nat) (s : Session) : Session * nat :=
  let '(contents, stripped) := strip_large_images_in_contents (map st_content (ses_messages s)) target_total_chars in
  if stripped =? 0 then (s, 0)
  else (mark_messages_full_dirty (put_messages (zip_with put_content contents (ses_messages s)) s), stripped).

Definition is_tool_use (b : ContentBlock Json) : bool := match b with ToolUse _ _ _ _ => true | _ => false end.

(** The calls of the first message with this id are taken out. *)
Fixpoint drop_calls_of (message_id : string) (messages : list Stored) : option (list Stored) :=
  match messages with
  | [] => None
  | m :: messages =>
      if String.eqb (st_id m) message_id
      then Some (put_content (filter (λ b, is_tool_use b = false) (st_content m)) m :: messages)
      else (λ l, m :: l) <$> drop_calls_of message_id messages
  end.

Definition remove_tool_use_blocks (message_id : string) (s : Session) : Session :=
  match drop_calls_of message_id (ses_messages s) with
  | Some messages => mark_messages_full_dirty (put_messages messages s)
  | None => s
  end.

Definition record_env_snapshot (snapshot : EnvSnapshot Time) (s : Session) : Session :=
  let snapshots := ses_env_snapshots s ++ [snapshot] in
  if MAX_ENV_SNAPSHOTS <? length snapshots
  then mark_env_snapshots_full_dirty (put_env_snapshots (drop (length snapshots - MAX_ENV_SNAPSHOTS) snapshots) s)
  else mark_env_snapshots_append_dirty (put_env_snapshots snapshots s).

Definition record_memory_injection (now : Time) (summary content : string) (count : N) (age_ms : N) (memory_ids : list string)
    (s : Session) : Session :=
  mark_memory_injections_append_dirty
    (put_memory_injections
       (ses_memory_injections s
        ++ [MkInjection summary content count memory_ids (Some age_ms) (Some (length (ses_messages s))) now]) s).

Definition push_replay_event (now : Time) (kind : StoredReplayEventKind Member) (s : Session) : Session :=
  mark_replay_events_append_dirty (put_replay_events (ses_replay_events s ++ [MkReplayEvent now kind]) s).

Definition record_replay_display_message (now : Time) (role : string) (title : option string) (content : string) (s : Session)
    : Session := push_replay_event now (DisplayMessage role title content) s.

(** A status or a plan like the last event is not recorded again. *)
Definition push_new_event (now : Time) (kind : StoredReplayEventKind Member) (s : Session) : Session :=
  if bool_decide (re_kind <$> last (ses_replay_events s) = Some kind) then s else push_replay_event now kind s.

Definition record_swarm_status_event (now : Time) (members : list Member) (s : Session) : Session :=
  push_new_event now (SwarmStatus members) s.
Definition record_swarm_plan_event (now : Time) (swarm_id : string) (version : N) (items : list PlanItem)
    (participants : list string) (reason : option string) (s : Session) : Session :=
  push_new_event now (SwarmPlan swarm_id version items participants reason) s.

(** ** Status and labels *)

Definition set_canary (build_hash : string) : Session → Session := update_meta (meta_canary true (Some build_hash)).
Definition clear_canary : Session → Session := update_meta (meta_canary false None).
Definition set_status (status : SessionStatus) : Session → Session := update_meta (meta_status status).
Definition mark_closed : Session → Session := set_status Status_Closed.
Definition mark_crashed (message : option string) : Session → Session := set_status (Status_Crashed message).
Definition mark_error (message : string) : Session → Session := set_status (Status_Error message).
Definition set_debug (is_debug : bool) : Session → Session := update_meta (meta_is_debug is_debug).
Definition mark_saved (label : option string) (s : Session) : Session :=
  update_meta (meta_saved true (match label with Some _ => label | None => jm_save_label (ses_meta s) end)) s.
Definition unmark_saved : Session → Session := update_meta (meta_saved false None).
Definition rename_title (now : Time) (title : option string) : Session → Session :=
  update_meta (λ m, meta_updated_at now
    (meta_custom_title (let?? title := title in if is_empty (trim title) then None else Some (trim title)) m)).

(** ** The messages a provider is given *)

Definition to_message (m : Stored) : Msg :=
  {| m_role := st_role m; m_content := st_content m; m_timestamp := st_timestamp m; m_tool_duration_ms := st_tool_duration_ms m |}.

Definition stored_messages_to_messages (messages : list Stored) : list Msg := map to_message messages.

(** [reset_provider_messages_cache], and [release_provider_messages_cache]. *)
Definition reset_provider_messages_cache (s : Session) : Session := put_cache [] [] 0 Full s.

Section hashes.
Context (message_json : Msg → string).

(** The message as [serde_json] writes it. *)
Definition stable_message_hash (message : Msg) : N := stable_hash_bytes (message_json message).

Definition push_provider_message_cache_entry (message : Msg) (s : Session) : Session :=
  let message_hash := stable_message_hash message in
  let prefix_hash := match last (ses_prefix_hashes_cache s) with
                     | Some prev => extend_stable_hash prev message_hash
                     | None => message_hash
                     end in
  put_cache (ses_provider_messages_cache s ++ [message]) (ses_prefix_hashes_cache s ++ [prefix_hash]) (ses_cache_len s)
    (ses_cache_mode s) s.

Definition push_entries (messages : list Stored) (s : Session) : Session :=
  foldl (λ s m, push_provider_message_cache_entry (to_message m) s) s messages.

(** The cache is up to date. *)
Definition cache_is_clean (s : Session) : Session :=
  put_cache (ses_provider_messages_cache s) (ses_prefix_hashes_cache s) (length (ses_messages s)) Clean s.

Definition provider_messages (s : Session) : Session * list Msg :=
  let s :=
    if bool_decide (ses_cache_mode s = Full) || (length (ses_messages s) <? ses_cache_len s) then
      cache_is_clean (push_entries (ses_messages s) (put_cache [] [] (ses_cache_len s) (ses_cache_mode s) s))
    else if bool_decide (ses_cache_mode s = Append) && (ses_cache_len s <? length (ses_messages s)) then
      cache_is_clean (push_entries (drop (ses_cache_len s) (ses_messages s)) s)
    else s in
  (s, ses_provider_messages_cache s).

Definition provider_message_prefix_hashes (s : Session) : Session * list N :=
  let s := (provider_messages s).1 in (s, ses_prefix_hashes_cache s).
End hashes.

Definition messages_for_provider_uncached (s : Session) : list Msg := stored_messages_to_messages (ses_messages s).

(** [strip_transcript_for_remote_client] *)
Definition no_compaction (m : Meta) : Meta :=
  MkMeta
    (jm_parent_id m) (jm_title m) (jm_custom_title m) (jm_updated_at m) None (jm_provider_session_id m)
    (jm_provider_key m) (jm_model m) (jm_reasoning_effort m) (jm_subagent_model m) (jm_improve_mode m)
    (jm_autoreview_enabled m) (jm_autojudge_enabled m) (jm_is_canary m) (jm_testing_build m) (jm_working_dir m)
    (jm_short_name m) (jm_status m) (jm_last_pid m) (jm_last_active_at m) (jm_is_debug m) (jm_saved m)
    (jm_save_label m).

Definition strip_transcript_for_remote_client (s : Session) : Session :=
  reset_persist_state true
    (reset_provider_messages_cache
       (put_replay_events [] (put_memory_injections [] (put_env_snapshots [] (update_meta no_compaction (put_messages [] s)))))).

(** ** The files *)

(** The snapshot, its backup, the journal, the copies of [guard_snapshot_shrink], and the copy of a damaged
    journal. *)
Record Disk := MkDisk {
  d_snapshot : option string;
  d_backup : option string;
  d_journal : option string;
  d_pre_wipe : list (string * option string);
  d_corrupt : option string;
}.

Definition set_journal (journal : option string) (d : Disk) : Disk :=
  MkDisk (d_snapshot d) (d_backup d) journal (d_pre_wipe d) (d_corrupt d).

(** What the file system makes of the writes of one [save]: an append goes through or stops after some
    bytes, the snapshot is replaced or not, the journal is removed or not. *)
Inductive AppendOutcome := Append_Ok | Append_Fails (written : nat).
Record Io := MkIo {
  io_append : AppendOutcome;
  io_write : bool;
  io_remove : bool;
}.

(** [storage::write_json_fast]: the old version becomes the backup, and the new one takes its place at once. *)
Definition write_json_fast (text : string) (io : Io) (d : Disk) : Disk * bool :=
  if io_write io
  then (MkDisk (Some text) (match d_snapshot d with Some old => Some old | None => d_backup d end) (d_journal d)
          (d_pre_wipe d) (d_corrupt d), true)
  else (d, false).

(** [storage::append_json_line_fast] *)
Definition append_json_line_fast (text : string) (io : Io) (d : Disk) : Disk * bool :=
  let line := text +:+ nl in
  match io_append io with
  | Append_Ok => (set_journal (Some (default "" (d_journal d) +:+ line)) d, true)
  | Append_Fails 0 => (d, false)
  | Append_Fails n => (set_journal (Some (default "" (d_journal d) +:+ str_take n line)) d, false)
  end.

Definition file_len_or_zero (file : option string) : N := match file with Some text => N.of_nat (String.length text) | None => 0 end.

(** The save failed: it was refused, or a write failed. *)
Inductive SaveError := Refused (message : string) | Write_Failed.

Definition MIN_TRANSCRIPT_SNAPSHOT_BYTES : N := 4 * 1024.

Definition guard_snapshot_shrink (s : Session) (d : Disk) : Disk :=
  if negb (is_nil (ses_messages s)) || (file_len_or_zero (d_snapshot d) <=? MIN_TRANSCRIPT_SNAPSHOT_BYTES)%N then d
  else match d_snapshot d with
       | Some snapshot => MkDisk (d_snapshot d) (d_backup d) (d_journal d) (d_pre_wipe d ++ [(snapshot, d_journal d)]) (d_corrupt d)
       | None => d
       end.

Section persistence.
Context (session_json : Session → string) (parse_session : string → option Session).
Context (entry_json : Entry → string) (parse_entry : string → option Entry).
(** The entries that a text starts with, up to the first that does not parse. *)
Context (entry_stream : string → list Entry).

Definition checkpoint_snapshot (io : Io) (s : Session) (d : Disk) : Session * Disk * result unit SaveError :=
  let p := ses_persist_state s in
  if is_nil (ses_messages s) && (0 <? ps_messages_len p) && bool_decide (is_Some (d_snapshot d)) then
    (s, guard_snapshot_shrink s d,
     Err (Refused ("refusing to replace non-empty persisted transcript for session " +:+ ses_id s +:+ " with an empty checkpoint")))
  else
    let '(d, written) := write_json_fast (session_json s) io (guard_snapshot_shrink s d) in
    if negb written then (s, d, Err Write_Failed)
    else (reset_persist_state true s, if io_remove io then set_journal None d else d, Ok tt).

(** A checkpoint is due, whatever the metadata is. *)
Definition vectors_need_snapshot (s : Session) : bool :=
  let p := ses_persist_state s in
  negb (ps_snapshot_exists p)
  || bool_decide (ps_messages_mode p = Full) || bool_decide (ps_env_snapshots_mode p = Full)
  || bool_decide (ps_memory_injections_mode p = Full) || bool_decide (ps_replay_events_mode p = Full)
  || (length (ses_messages s) <? ps_messages_len p) || (length (ses_env_snapshots s) <? ps_env_snapshots_len p)
  || (length (ses_memory_injections s) <? ps_memory_injections_len p) || (length (ses_replay_events s) <? ps_replay_events_len p).

Definition metadata_needs_snapshot (s : Session) : bool :=
  match ps_last_meta (ses_persist_state s) with
  | Some prev => metadata_requires_snapshot prev (journal_meta s)
  | None => false
  end.

(** What was appended since the last save. *)
Definition delta_entry (s : Session) : Entry :=
  let p := ses_persist_state s in
  MkEntry (journal_meta s) (drop (ps_messages_len p) (ses_messages s)) (drop (ps_env_snapshots_len p) (ses_env_snapshots s))
    (drop (ps_memory_injections_len p) (ses_memory_injections s)) (drop (ps_replay_events_len p) (ses_replay_events s)).

(** [save] *)
Definition save (now : Time) (io : Io) (s : Session) (d : Disk) : Session * Disk * result unit SaveError :=
  let s := update_meta (meta_updated_at now) s in
  if metadata_needs_snapshot s || vectors_need_snapshot s then checkpoint_snapshot io s d
  else
    let '(d, appended) := append_json_line_fast (entry_json (delta_entry s)) io d in
    if appended then
      let s := reset_persist_state true s in
      if (MAX_SESSION_JOURNAL_BYTES <? file_len_or_zero (d_journal d))%N then checkpoint_snapshot io s d else (s, d, Ok tt)
    else checkpoint_snapshot io s d.

(** [mark_active_with_pid] *)
Definition mark_active_with_pid (now : Time) (pid : N) (io : Io) (s : Session) (d : Disk) : Session * Disk :=
  (save now io (update_meta (λ m, meta_active (Some pid) (Some now) (meta_status Status_Active m)) s) d).1.

(** ** Reading *)

Definition apply_journal_entry (s : Session) (e : Entry) : Session :=
  let s := apply_journal_meta (je_meta e) s in
  let s := put_messages (ses_messages s ++ je_append_messages e) s in
  let s := put_env_snapshots (ses_env_snapshots s ++ je_append_env_snapshots e) s in
  let s := put_memory_injections (ses_memory_injections s ++ je_append_memory_injections e) s in
  put_replay_events (ses_replay_events s ++ je_append_replay_events e) s.

(** [salvage_glued_journal_entries]: from the first place where an entry may start and some can be read,
    these entries; one unit of fuel for a byte. *)
Fixpoint salvage_go (fuel : nat) (line : string) : list Entry :=
  match fuel with
  | 0 => []
  | S fuel =>
      match line with
      | EmptyString => []
      | String c rest =>
          if starts_with ENTRY_START line then
            match entry_stream line with
            | [] => salvage_go fuel (str_drop (String.length ENTRY_START) line)
            | parsed => parsed
            end
          else salvage_go fuel rest
      end
  end.
Definition salvage_glued_journal_entries (line : string) : list Entry := salvage_go (S (String.length line)) line.

Record JournalReplayStats := MkReplayStats {
  rs_entries : nat;
  rs_skipped_lines : nat;
  rs_salvaged_entries : nat;
}.
Definition is_corrupt (stats : JournalReplayStats) : bool := 0 <? rs_skipped_lines stats.

(** [BufRead::lines] fails at a line that is not UTF-8. *)
Definition is_utf8 (line : string) : bool := match from_utf8 line with AllValid => true | _ => false end.

Fixpoint replay_lines (ls : list string) (s : Session) (stats : JournalReplayStats) : option (Session * JournalReplayStats) :=
  match ls with
  | [] => Some (s, stats)
  | line :: ls =>
      if negb (is_utf8 line) then None
      else
        let trimmed := trim line in
        if is_empty trimmed then replay_lines ls s stats
        else match parse_entry trimmed with
             | Some e =>
                 replay_lines ls (apply_journal_entry s e)
                   (MkReplayStats (S (rs_entries stats)) (rs_skipped_lines stats) (rs_salvaged_entries stats))
             | None =>
                 let salvaged := salvage_glued_journal_entries trimmed in
                 replay_lines ls (foldl apply_journal_entry s salvaged)
                   (MkReplayStats (rs_entries stats + length salvaged) (S (rs_skipped_lines stats))
                      (rs_salvaged_entries stats + length salvaged))
             end
  end.

Definition replay_journal_lines (journal : option string) (s : Session) : option (Session * JournalReplayStats) :=
  match journal with
  | Some text => replay_lines (lines text) s (MkReplayStats 0 0 0)
  | None => Some (s, MkReplayStats 0 0 0)
  end.

Inductive LoadError := Load_Io | Load_Corrupt.

(** [storage::read_json]: a file that does not parse is replaced by its backup. *)
Definition read_session (d : Disk) : Disk * result Session LoadError :=
  match d_snapshot d with
  | None => (d, Err Load_Io)
  | Some text =>
      if negb (is_utf8 text) then (d, Err Load_Io)
      else match parse_session text with
           | Some s => (d, Ok s)
           | None =>
               match d_backup d with
               | None => (d, Err Load_Corrupt)
               | Some bak =>
                   if negb (is_utf8 bak) then (d, Err Load_Io)
                   else match parse_session bak with
                        | Some s => (MkDisk (Some bak) (d_backup d) (d_journal d) (d_pre_wipe d) (d_corrupt d), Ok s)
                        | None => (d, Err Load_Corrupt)
                        end
               end
           end
  end.

Definition schedule_checkpoint_after_corrupt_journal (s : Session) (d : Disk) : Session * Disk :=
  (mark_messages_full_dirty s,
   MkDisk (d_snapshot d) (d_backup d) (d_journal d) (d_pre_wipe d) (match d_journal d with Some j => Some j | None => d_corrupt d end)).

(** [load_from_path] *)
Definition load_from_path (d : Disk) : Disk * result Session LoadError :=
  match read_session d with
  | (d, Err e) => (d, Err e)
  | (d, Ok s) =>
      match replay_journal_lines (d_journal d) s with
      | None => (d, Err Load_Io)
      | Some (s, stats) =>
          let s := reset_provider_messages_cache (reset_persist_state true s) in
          if is_corrupt stats then
            let '(s, d) := schedule_checkpoint_after_corrupt_journal s d in (d, Ok s)
          else (d, Ok s)
      end
  end.
End persistence.
End session.
Arguments Session : clear implicits.
