(* ===== verification/AgentTurn.v ===== *)
(** * One turn of an agent (crates/arterm-app-core/src/agent.rs)

    Before every request an agent looks for calls whose tool was interrupted and puts a placeholder after
    them, and asks the session and the manager of compaction for the messages.  This file models the two
    steps and puts the parts together: the transcript of [SessionStore], the manager of
    [CompactionManager] and the request of [AnthropicRequest].

    Left out: the tracker of client caches, the locked list of tools and the log lines, which no message
    of a request depends on. *)

From S2P Require Export ToolRegistry AnthropicTheorems CompactionManagerTheorems SessionStoreTheorems.

(** ** The calls an agent knows of *)

Record ToolTracking := MkTracking {
  tt_tool_call_ids : gset string;
  tt_tool_result_ids : gset string;
  tt_scan_index : nat;
}.

Definition reset_tool_output_tracking : ToolTracking := MkTracking ∅ ∅ 0.

#[export] Instance StoredCompactionState_eq_dec : EqDecision StoredCompactionState. Proof. solve_decision. Defined.

Section agent.
Context {J Time Member : Type} `{EqDecision Member}.
Notation Stored := (StoredMessage J Time).
Notation Ses := (Session J Time Member).
Notation Entry := (SessionJournalEntry J Time Member).

Definition stored_uses (m : Stored) : list string := concat (map block_uses (st_content m)).
Definition stored_results (m : Stored) : list string := concat (map block_results (st_content m)).

(** The results and the calls of the messages that were not scanned yet. *)
Fixpoint scan_messages (index : nat) (messages : list Stored) : list string * list (nat * list string) :=
  match messages with
  | [] => ([], [])
  | m :: messages =>
      let '(results, calls) := scan_messages (S index) messages in
      match st_role m with
      | User => (stored_results m ++ results, calls)
      | Assistant => (results, if is_nil (stored_uses m) then calls else (index, stored_uses m) :: calls)
      end
  end.

Definition is_missing (in_flight : gmap string nat) (result_ids : gset string) (id : string) : bool :=
  negb (bool_decide (id ∈ result_ids)) && negb (is_tool_in_flight id in_flight).

(** The calls without a result, message by message. *)
Fixpoint missing_repairs (in_flight : gmap string nat) (result_ids : gset string) (calls : list (nat * list string))
    : list (nat * list string) :=
  match calls with
  | [] => []
  | (index, ids) :: calls =>
      let missing := filter (λ id, is_missing in_flight result_ids id = true) ids in
      if is_nil missing then missing_repairs in_flight result_ids calls
      else (index, missing) :: missing_repairs in_flight result_ids calls
  end.

(** Message ids are random; [new_id] gives them in order. *)
Definition missing_output_message (new_id : nat → string) (now : Time) (n : nat) (id : string) : Stored :=
  MkStoredMessage (new_id n) User [ToolResult id TOOL_OUTPUT_MISSING_TEXT (Some true)] None (Some now) None None.

Section repair.
Context (new_id : nat → string) (now : Time) (in_flight : gmap string nat).

Fixpoint insert_missing (at_ n : nat) (ids : list string) (s : Ses) (result_ids : gset string) : option (Ses * gset string) :=
  match ids with
  | [] => Some (s, result_ids)
  | id :: ids =>
      let?? s := insert_message at_ (missing_output_message new_id now n id) s in
      insert_missing (S at_) (S n) ids s ({[id]} ∪ result_ids)
  end.

(** [inserted] messages have been put in before. *)
Fixpoint insert_repairs (inserted : nat) (repairs : list (nat * list string)) (s : Ses) (result_ids : gset string)
    : option (Ses * gset string * nat) :=
  match repairs with
  | [] => Some (s, result_ids, inserted)
  | (index, ids) :: repairs =>
      let?? r := insert_missing (index + 1 + inserted) inserted ids s result_ids in
      insert_repairs (inserted + length ids) repairs r.1 r.2
  end.

(** [repair_missing_tool_outputs], without the save at its end. *)
Definition repair_transcript (s : Ses) (t : ToolTracking) : option (Ses * ToolTracking * nat) :=
  let t := if length (ses_messages s) <? tt_scan_index t then reset_tool_output_tracking else t in
  let '(results, calls) := scan_messages (tt_scan_index t) (drop (tt_scan_index t) (ses_messages s)) in
  let result_ids := list_to_set results ∪ tt_tool_result_ids t in
  let call_ids := list_to_set (concat (map snd calls)) ∪ tt_tool_call_ids t in
  let?? r := insert_repairs 0 (missing_repairs in_flight result_ids calls) s result_ids in
  let '(s, result_ids, repaired) := r in
  Some (s, MkTracking call_ids result_ids (length (ses_messages s)), repaired).
End repair.

Section stored.
Context (session_json : Ses → string) (entry_json : Entry → string) (message_json : Message J Time → string).

(** [repair_missing_tool_outputs]: whether the save goes through is not looked at. *)
Definition repair_missing_tool_outputs (new_id : nat → string) (now : Time) (in_flight : gmap string nat) (io : Io)
    (s : Ses) (d : Disk) (t : ToolTracking) : option (Ses * Disk * ToolTracking * nat) :=
  let?? r := repair_transcript new_id now in_flight s t in
  let '(s, t, repaired) := r in
  let '(s, d) := if 0 <? repaired then (save session_json entry_json now io s d).1 else (s, d) in
  Some (s, d, t, repaired).

(** ** The messages of a request *)

Definition meta_compaction (compaction : option StoredCompactionState) (m : SessionJournalMeta Time) : SessionJournalMeta Time :=
  MkMeta
    (jm_parent_id m) (jm_title m) (jm_custom_title m) (jm_updated_at m) compaction (jm_provider_session_id m)
    (jm_provider_key m) (jm_model m) (jm_reasoning_effort m) (jm_subagent_model m) (jm_improve_mode m)
    (jm_autoreview_enabled m) (jm_autojudge_enabled m) (jm_is_canary m) (jm_testing_build m) (jm_working_dir m)
    (jm_short_name m) (jm_status m) (jm_last_pid m) (jm_last_active_at m) (jm_is_debug m) (jm_saved m)
    (jm_save_label m).
Definition meta_provider_session_id (provider_session_id : option string) (m : SessionJournalMeta Time) : SessionJournalMeta Time :=
  MkMeta
    (jm_parent_id m) (jm_title m) (jm_custom_title m) (jm_updated_at m) (jm_compaction m) provider_session_id
    (jm_provider_key m) (jm_model m) (jm_reasoning_effort m) (jm_subagent_model m) (jm_improve_mode m)
    (jm_autoreview_enabled m) (jm_autojudge_enabled m) (jm_is_canary m) (jm_testing_build m) (jm_working_dir m)
    (jm_short_name m) (jm_status m) (jm_last_pid m) (jm_last_active_at m) (jm_is_debug m) (jm_saved m)
    (jm_save_label m).

(** [persist_session_best_effort] *)
Definition persist_session_best_effort (now : Time) (io : Io) (s : Ses) (d : Disk) : Ses * Disk :=
  (save session_json entry_json now io s d).1.

(** [sync_session_compaction_state_from_manager] *)
Definition sync_session_compaction_state_from_manager (now : Time) (io : Io) (m : @Manager J Time) (s : Ses) (d : Disk)
    : Ses * Disk :=
  let new_state := persisted_state m in
  if differs (jm_compaction (ses_meta s)) new_state
  then persist_session_best_effort now io (update_meta (meta_compaction new_state) s) d
  else (s, d).

(** [note_compaction_applied]: what concerns the session. *)
Definition note_compaction_applied (s : Ses) : Ses := update_meta (meta_provider_session_id None) s.

(** What the agent asks its provider. *)
Record AgentProvider := MkAgentProvider {
  ap_supports_compaction : bool;
  ap_uses_arterm_compaction : bool;
  ap_provider : @Provider J Time;
}.

Context (json_to_string : J → string) (embed : string → option (list spec_float)) (semantic_cache_key : string → N)
  (wide_alphanumeric : string → bool).

(** [Agent::messages_for_provider]: [free] when no one holds the manager's lock, [ending] is what a
    background task that is waited for ends with.  [None] is a panic of the manager. *)
Definition messages_for_provider (now : Time) (io : Io) (free : bool) (p : AgentProvider) (ending : option Ending)
    (s : Ses) (d : Disk) (m : @Manager J Time) : option (Ses * Disk * @Manager J Time * list (Message J Time) * option CompactionEvent) :=
  if (ap_supports_compaction p || bool_decide (is_Some (jm_compaction (ses_meta s)))) && free then
    let '(m, discarded_oversized_native) := discard_oversized_openai_native_compaction m in
    let '(s, all_messages) := provider_messages message_json s in
    let?? m :=
      if ap_uses_arterm_compaction p
      then fst <$> ensure_context_fits json_to_string embed semantic_cache_key wide_alphanumeric all_messages (ap_provider p) ending m
      else Some m in
    let '(m, messages) := messages_for_api_with json_to_string all_messages m in
    let '(m, event) := take_compaction_event m in
    let '(s, d) :=
      if bool_decide (is_Some event) || discarded_oversized_native
      then sync_session_compaction_state_from_manager now io m s d else (s, d) in
    let '(s, d) :=
      if bool_decide (is_Some event) then persist_session_best_effort now io (note_compaction_applied s) d else (s, d) in
    Some (s, d, m, messages, event)
  else
    let '(s, all_messages) := provider_messages message_json s in Some (s, d, m, all_messages, None).
End stored.
End agent.

(** ** Results right after their calls *)

Section order.
Context {J Time : Type}.
Notation Msg := (Message J Time).
Implicit Types (ms : list Msg) (m : Msg) (cur : list string).

Definition called_in m : list string := concat (map block_uses (m_content m)).
Definition answered_in m : list string := concat (map block_results (m_content m)).

(** Every result stands in the user's messages right after the assistant's message with its call; [cur] are
    the calls of the last message of the assistant. *)
Fixpoint in_order cur ms : Prop :=
  match ms with
  | [] => True
  | m :: ms =>
      match m_role m with
      | User => (∀ id, id ∈ answered_in m → id ∈ cur) ∧ in_order cur ms
      | Assistant => answered_in m = [] ∧ in_order (called_in m) ms
      end
  end.

Lemma in_order_mono cur cur' ms : (∀ id, id ∈ cur → id ∈ cur') → in_order cur ms → in_order cur' ms.
Proof. revert cur cur'. induction ms as [|m ms IH]; intros cur cur' H; [done|]. cbn. destruct (m_role m); [|done]. intros [H1 H2]. split; eauto. Qed.

Lemma in_order_drop cur ms1 ms2 :
  in_order cur (ms1 ++ ms2) → ∃ cur', in_order cur' ms2 ∧ ∀ id, id ∈ cur' → id ∈ cur ++ tool_uses ms1.
Proof.
  revert cur. induction ms1 as [|m ms1 IH]; intros cur H; [exists cur; split; [done|]; intros id; rewrite elem_of_app; by left|].
  cbn in H. change (tool_uses (m :: ms1)) with (called_in m ++ tool_uses ms1).
  destruct (m_role m); destruct H as [_ H]; destruct (IH _ H) as (cur' & H1 & H2); exists cur'; (split; [done|]);
    intros id Hid%H2; set_solver.
Qed.

(** Results whose calls are all outside are none. *)
Lemma in_order_free cur ms (U : list string) :
  (∀ id, id ∈ tool_results ms → id ∈ U) → (∀ id, id ∈ cur → id ∉ U) → in_order cur ms → in_order [] ms.
Proof.
  revert cur. induction ms as [|m ms IH]; intros cur HU Hc; [done|]. change (tool_results (m :: ms)) with (answered_in m ++ tool_results ms) in HU.
  cbn. destruct (m_role m); [|done]. intros [H1 H2]. split.
  - intros id Hid. exfalso. apply (Hc id); [by apply H1|]. apply HU. set_solver.
  - apply (IH cur); [|done|done]. intros id Hid. apply HU. set_solver.
Qed.

(** A suffix that has every call of its results keeps the order. *)
Lemma in_order_suffix ms k :
  NoDup (tool_uses ms) → in_order [] ms → closed_run (drop k ms) → in_order [] (drop k ms).
Proof.
  intros Hn Ho Hc. rewrite <- (take_drop k ms) in Ho, Hn. rewrite tool_uses_app in Hn. apply NoDup_app in Hn as (_ & Hn & _).
  destruct (in_order_drop _ _ _ Ho) as (cur & H1 & H2). apply (in_order_free cur _ (tool_uses (drop k ms))); [exact Hc| |done].
  intros id Hid%H2. by apply Hn.
Qed.

Lemma in_order_app cur ms1 ms2 : in_order cur (ms1 ++ ms2) → in_order cur ms1.
Proof. revert cur. induction ms1 as [|m ms1 IH]; intros cur; [done|]. cbn. destruct (m_role m); intros [? ?]; split; eauto. Qed.

(** Where the call of a result stands. *)
Lemma in_order_call cur ms j m id :
  in_order cur ms → ms !! j = Some m → id ∈ answered_in m →
  (id ∈ cur ∧ (∀ k, k ≤ j → ∃ u, ms !! k = Some u ∧ m_role u = User))
  ∨ ∃ i a, ms !! i = Some a ∧ m_role a = Assistant ∧ id ∈ called_in a ∧ i < j
      ∧ ∀ k, i < k ≤ j → ∃ u, ms !! k = Some u ∧ m_role u = User.
Proof.
  revert cur j. induction ms as [|x ms IH]; intros cur j Ho Hj Hid; [done|]. cbn in Ho. destruct j as [|j].
  - injection Hj as ->. destruct (m_role m) eqn:Hr; destruct Ho as [H1 H2].
    + left. split; [by apply H1|]. intros k Hk. replace k with 0 by lia. by exists m.
    + rewrite H1 in Hid. by apply not_elem_of_nil in Hid.
  - cbn in Hj. destruct (m_role x) eqn:Hr; destruct Ho as [H1 H2]; destruct (IH _ _ H2 Hj Hid) as [[Hc Hu]|(i & a & Ha & Hra & Hida & Hij & Hu)].
    + left. split; [done|]. intros [|k] Hk; [by exists x|]. apply Hu. lia.
    + right. exists (S i), a. split_and!; [done..|lia|]. intros [|k] Hk; [lia|]. apply Hu. lia.
    + right. exists 0, x. split_and!; [done..|lia|]. intros [|k] Hk; [lia|]. apply Hu. lia.
    + right. exists (S i), a. split_and!; [done..|lia|]. intros [|k] Hk; [lia|]. apply Hu. lia.
Qed.
End order.

Lemma NoDup_concat_once {A} (f : A → list string) (l : list A) i j a b x :
  NoDup (concat (map f l)) → l !! i = Some a → l !! j = Some b → x ∈ f a → x ∈ f b → i = j.
Proof.
  revert i j. induction l as [|y l IH]; intros i j Hn Hi Hj Ha Hb; [done|]. cbn [map concat] in Hn. apply NoDup_app in Hn as (_ & Hd & Hn).
  destruct i as [|i], j as [|j]; [done|..]; cbn in Hi, Hj.
  - injection Hi as ->. destruct (Hd x Ha). exact (elem_of_concat_map f l j b x Hj Hb).
  - injection Hj as ->. destruct (Hd x Hb). exact (elem_of_concat_map f l i a x Hi Ha).
  - f_equal. by apply IH.
Qed.

Section request.
Context {Time : Type}.
Notation Msg := (Message Json Time).
Implicit Types (ms : list Msg) (L : list ApiMessage).

Lemma in_order_prompt ms : NoDup (tool_uses ms) → in_order [] ms → prompt_answers ms.
Proof.
  intros Hn Ho i j a m id Hi Hr Hu Hj Hm. destruct (in_order_call _ _ _ _ _ Ho Hj Hm) as [[H _]|(i' & a' & Ha & _ & Hid & Hij & Hrun)].
  - by apply not_elem_of_nil in H.
  - assert (i' = i) as -> by exact (NoDup_concat_once _ ms _ _ _ _ id Hn Ha Hi Hid Hu). by split.
Qed.

Lemma in_order_loses cur ms ms' : Forall2 loses_results ms ms' → in_order cur ms → in_order cur ms'.
Proof.
  intros H. revert cur. induction H as [|m m' ms ms' L H IH]; intros cur; [done|]. cbn. rewrite (loses_role _ _ L).
  pose proof (λ id, loses_ids _ _ id L) as Hids. destruct (m_role m); intros [H1 H2]; (split; [|apply IH]).
  - intros id Hid. by apply H1, Hids.
  - done.
  - change (msg_results m = []) in H1. change (msg_results m' = []). destruct (msg_results m') as [|id l] eqn:E; [done|exfalso].
    specialize (Hids id). rewrite H1 in Hids. apply (not_elem_of_nil id), Hids. by left.
  - change (called_in m') with (msg_uses m'). by rewrite (loses_uses _ _ L).
Qed.

(** The same of the messages that are sent. *)
Fixpoint api_in_order (cur : list string) L : Prop :=
  match L with
  | [] => True
  | m :: L =>
      if is_user m then (∀ id, id ∈ api_results m → id ∈ cur) ∧ api_in_order cur L
      else api_results m = [] ∧ api_in_order (api_uses m) L
  end.

Lemma api_in_order_mono cur cur' L : (∀ id, id ∈ cur → id ∈ cur') → api_in_order cur L → api_in_order cur' L.
Proof. revert cur cur'. induction L as [|m L IH]; intros cur cur' H; [done|]. cbn. destruct (is_user m); [|done]. intros [H1 H2]. split; eauto. Qed.

Lemma api_in_order_app cur L1 L2 cur' :
  api_in_order cur L1 → (∀ c, api_in_order c L2) → cur' = cur → api_in_order cur' (L1 ++ L2).
Proof.
  intros H1 H2 ->. revert cur H1. induction L1 as [|m L1 IH]; intros cur; [by intros _; apply H2|]. cbn. destruct (is_user m); intros [? ?]; split; eauto.
Qed.

Lemma format_in_order is_oauth dangling cur ms :
  in_order cur ms → api_in_order (map sanitize_tool_id cur) (concat (map (format_message is_oauth dangling) ms)).
Proof.
  revert cur. induction ms as [|m ms IH]; intros cur; [done|]. cbn [in_order map concat]. unfold format_message.
  destruct (format_content_ids is_oauth (m_content m)) as [Hu Hr]. set (content := format_content_blocks (m_content m) is_oauth) in *.
  change (concat (map block_uses (m_content m))) with (called_in m) in Hu. change (concat (map block_results (m_content m))) with (answered_in m) in Hr.
  destruct (m_role m); cbn [role_str]; intros [H1 H2]; apply IH in H2.
  - rewrite app_nil_r. destruct content as [|b content]; [done|]. cbn [is_nil app api_in_order]. cbn [is_user am_role String.eqb]. split; [|exact H2].
    intros id Hid. change (id ∈ block_api_results (b :: content)) in Hid. rewrite Hr in Hid. apply list_elem_of_fmap in Hid as (x & -> & Hx).
    apply list_elem_of_fmap_2, H1, Hx.
  - rewrite H1 in Hr. assert (∀ id, id ∈ block_api_results (synthetic_results dangling (m_content m)) → id ∈ map sanitize_tool_id (called_in m)) as Hs.
    { intros id. rewrite synthetic_all. intros (x & -> & [_ Hx]%list_elem_of_filter)%list_elem_of_fmap. by apply list_elem_of_fmap_2. }
    set (synthetic := synthetic_results dangling (m_content m)) in *.
    assert (api_in_order (map sanitize_tool_id (called_in m)) ((if is_nil synthetic then [] else [MkApiMessage "user" synthetic]) ++ concat (map (format_message is_oauth dangling) ms))) as Hrest.
    { destruct synthetic as [|b synthetic]; [exact H2|]. cbn [is_nil app api_in_order is_user am_role String.eqb]. by split. }
    rewrite <- app_assoc. destruct content as [|b content]; cbn [is_nil app].
    + eapply api_in_order_mono; [|exact Hrest]. rewrite <- Hu. by intros id ?%not_elem_of_nil.
    + cbn [api_in_order is_user am_role String.eqb]. cbn. split; [exact Hr|].
      eapply api_in_order_mono; [|exact Hrest]. intros id. rewrite <- Hu. done.
Qed.

Lemma join_in_order cur m L : roles_ok (m :: L) → api_in_order cur (m :: L) → api_in_order cur (join_message m L).
Proof.
  destruct L as [|g L]; [done|]. intros Hroles. cbn [join_message]. destruct (String.eqb (am_role m) (am_role g)) eqn:E; [|done].
  apply String.eqb_eq in E. cbn [api_in_order]. unfold is_user. cbn [am_role]. rewrite <- E. destruct (String.eqb (am_role m) "user").
  - intros [H1 [H2 H3]]. split; [|done]. intros id. rewrite api_results_app. intros [H|H]%elem_of_app; [by apply H1|by apply H2].
  - intros [H1 [H2 H3]]. split; [by rewrite api_results_app; unfold api_results in *; cbn in *; rewrite H1, H2|].
    eapply api_in_order_mono; [|exact H3]. intros id Hid. rewrite api_uses_app. apply elem_of_app. by right.
Qed.

Lemma joined_in_order cur L : roles_ok L → api_in_order cur L → api_in_order cur (joined L).
Proof.
  revert cur. induction L as [|m L IH]; intros cur Hr; [done|]. intros H. cbn [joined foldr]. fold (joined L).
  assert (roles_ok L) as HrL by (intros x Hx; apply Hr; by right). apply join_in_order.
  - intros x [->|Hx]%elem_of_cons; [apply Hr; by left|by apply (joined_roles L)].
  - cbn [api_in_order] in *. destruct (is_user m); destruct H as [H1 H2]; (split; [done|by apply IH]).
Qed.

(** Every result answers a call of the message right before it. *)
Definition results_answer_calls L : Prop :=
  ∀ n m id, L !! n = Some m → id ∈ api_results m → ∃ k p, n = S k ∧ L !! k = Some p ∧ is_assistant p = true ∧ id ∈ api_uses p.

Lemma in_order_answers cur L n m id :
  roles_ok L → alternating L → api_in_order cur L → L !! n = Some m → id ∈ api_results m →
  (n = 0 ∧ id ∈ cur) ∨ ∃ k p, n = S k ∧ L !! k = Some p ∧ is_assistant p = true ∧ id ∈ api_uses p.
Proof.
  revert cur n. induction L as [|x L IH]; intros cur n Hr Ha Ho Hn Hid; [done|]. cbn in Ho.
  assert (roles_ok L) as HrL by (intros y Hy; apply Hr; by right). assert (alternating L) as HaL by (by destruct L; [|destruct Ha]).
  destruct n as [|n].
  - injection Hn as ->. destruct (is_user m); destruct Ho as [H1 H2]; [left; by split; [|apply H1]|].
    rewrite H1 in Hid. by apply not_elem_of_nil in Hid.
  - cbn in Hn. right. destruct (is_user x) eqn:Hx; destruct Ho as [H1 H2]; destruct (IH _ _ HrL HaL H2 Hn Hid) as [[-> Hc]|(k & p & -> & Hp)].
    + destruct L as [|y L]; [done|]. injection Hn as ->. destruct Ha as [Ha _]. cbn in H2. assert (is_user m = false) as Hm.
      { unfold is_user in *. apply String.eqb_eq in Hx. apply String.eqb_neq. congruence. }
      rewrite Hm in H2. destruct H2 as [H2 _]. rewrite H2 in Hid. by apply not_elem_of_nil in Hid.
    + by exists (S k), p.
    + exists 0, x. split_and!; [done..| |done]. unfold is_user, is_assistant in *. destruct (Hr x ltac:(by left)) as [E|E]; rewrite E in *; done.
    + by exists (S k), p.
Qed.

Lemma request_in_order ms is_oauth : in_order [] ms → results_answer_calls (format_messages ms is_oauth).
Proof.
  intros Ho n m id Hn Hid. destruct (request_shape ms is_oauth) as (Hr & Ha & _).
  assert (api_in_order [] (format_messages ms is_oauth)) as H.
  { rewrite format_messages_joined. pose proof (in_order_loses _ _ _ (dedupe_loses ms) Ho) as Hd.
    apply (format_in_order is_oauth (dangling_calls (dedupe_tool_results ms))) in Hd. cbn [map] in Hd.
    assert (api_in_order [] (joined (formatted ms is_oauth))) as Hj by (apply joined_in_order; [apply format_roles|exact Hd]).
    unfold ensure_user_last. repeat case_match; try done.
    eapply api_in_order_app; [exact Hj| |done]. intros c. split; [by intros ? ?%not_elem_of_nil|done]. }
  destruct (in_order_answers _ _ _ _ _ Hr Ha H Hn Hid) as [[_ Hc]|]; [by apply not_elem_of_nil in Hc|done].
Qed.
End request.

(** ** What a repair does *)

Section repair_theory.
Context {J Time Member : Type} `{EqDecision Member}.
Notation Stored := (StoredMessage J Time).
Notation Ses := (Session J Time Member).
Context (new_id : nat → string) (now : Time).
Implicit Types (l : list Stored) (s : Ses) (t : ToolTracking) (in_flight : gmap string nat) (known : gset string).

Notation repair_transcript := (repair_transcript new_id now).
Notation insert_missing := (insert_missing new_id now).
Notation insert_repairs := (insert_repairs new_id now).

(** The reference: one pass that puts the placeholders of a message right after it. *)
Definition missing_ids in_flight known (m : Stored) : list string :=
  match st_role m with Assistant => filter (λ id, is_missing in_flight known id = true) (stored_uses m) | User => [] end.

Fixpoint placeholders (n : nat) (ids : list string) : list Stored :=
  match ids with [] => [] | id :: ids => missing_output_message new_id now n id :: placeholders (S n) ids end.

Fixpoint with_placeholders in_flight known (n : nat) l : list Stored :=
  match l with
  | [] => []
  | m :: l =>
      let ids := missing_ids in_flight known m in
      m :: placeholders n ids ++ with_placeholders in_flight known (n + length ids) l
  end.

Definition user_results l : list string :=
  concat (map (λ m, match st_role m with User => stored_results m | Assistant => [] end) l).

Fixpoint repairs_of in_flight known (index : nat) l : list (nat * list string) :=
  match l with
  | [] => []
  | m :: l =>
      let ids := missing_ids in_flight known m in
      (if is_nil ids then [] else [(index, ids)]) ++ repairs_of in_flight known (S index) l
  end.

Lemma scan_results index l : (scan_messages index l).1 = user_results l.
Proof.
  revert index. induction l as [|m l IH]; intros index; [done|]. cbn [scan_messages]. specialize (IH (S index)).
  destruct (scan_messages (S index) l) as [results calls]. cbn [fst] in IH. subst. unfold user_results. cbn [map concat].
  by destruct (st_role m).
Qed.

Lemma scan_repairs in_flight known index l : missing_repairs in_flight known (scan_messages index l).2 = repairs_of in_flight known index l.
Proof.
  revert index. induction l as [|m l IH]; intros index; [done|]. cbn [scan_messages repairs_of]. specialize (IH (S index)).
  destruct (scan_messages (S index) l) as [results calls]. cbn [snd] in IH. rewrite <- IH. unfold missing_ids.
  destruct (st_role m); cbn [snd]; [done|]. destruct (stored_uses m) as [|id ids]; [done|]. cbn [is_nil missing_repairs].
  by destruct (is_nil _).
Qed.

Lemma length_placeholders n ids : length (placeholders n ids) = length ids.
Proof. revert n. induction ids as [|id ids IH]; intros n; [done|]. cbn. by rewrite IH. Qed.

Lemma insert_missing_spec (P : Ses → Prop) at_ n ids s known :
  (∀ i m s1 s2, insert_message i m s1 = Some s2 → P s1 → P s2) → P s → at_ ≤ length (ses_messages s) →
  ∃ s', insert_missing at_ n ids s known = Some (s', list_to_set ids ∪ known) ∧ P s'
    ∧ ses_messages s' = take at_ (ses_messages s) ++ placeholders n ids ++ drop at_ (ses_messages s).
Proof.
  intros HP. revert at_ n s known. induction ids as [|id ids IH]; intros at_ n s known Hs Hat; cbn [AgentTurn.insert_missing placeholders list_to_set].
  - exists s. split_and!; [|done|by rewrite app_nil_l, take_drop]. do 2 f_equal. set_solver.
  - destruct (insert_message at_ (missing_output_message new_id now n id) s) as [s1|] eqn:E.
    + pose proof (HP _ _ _ _ E Hs) as Hs1. unfold insert_message in E. rewrite (proj2 (Nat.leb_le _ _) Hat) in E. injection E as <-.
      destruct (IH (S at_) (S n) _ ({[id]} ∪ known) Hs1) as (s' & -> & HP' & E').
      { cbn. rewrite length_app, length_take. cbn. lia. }
      exists s'. split_and!; [|done|].
      * do 2 f_equal. set_solver.
      * rewrite E'. cbn. rewrite take_app_ge, drop_app_ge by (rewrite length_take; lia). rewrite length_take_le by lia.
        replace (S at_ - at_) with 1 by lia. cbn. rewrite drop_0. by rewrite <- app_assoc.
    + unfold insert_message in E. by rewrite (proj2 (Nat.leb_le _ _) Hat) in E.
Qed.

Lemma insert_repairs_spec (P : Ses → Prop) in_flight known rs index inserted l before s :
  (∀ i m s1 s2, insert_message i m s1 = Some s2 → P s1 → P s2) → P s →
  ses_messages s = before ++ l → length before = index + inserted →
  let ids := concat (map (missing_ids in_flight known) l) in
  ∃ s', insert_repairs inserted (repairs_of in_flight known index l) s rs = Some (s', list_to_set ids ∪ rs, inserted + length ids)
    ∧ P s' ∧ ses_messages s' = before ++ with_placeholders in_flight known inserted l.
Proof.
  intros HP. revert index inserted before s rs. induction l as [|m l IH]; intros index inserted before s rs Hs Hm Hl; cbv zeta.
  - exists s. cbn. split_and!; [|done|done]. do 2 f_equal; [f_equal; set_solver|lia].
  - cbn [map concat repairs_of with_placeholders]. set (ids := missing_ids in_flight known m). rewrite length_app, list_to_set_app_L.
    destruct (is_nil ids) eqn:E.
    + assert (ids = []) as E0 by (by destruct ids). rewrite E0. cbn [app placeholders length list_to_set].
      destruct (IH (S index) inserted (before ++ [m]) s rs Hs) as (s' & -> & H1 & H2).
      { by rewrite Hm, <- app_assoc. } { rewrite length_app. cbn. lia. }
      exists s'. split_and!; [do 2 f_equal; f_equal; set_solver|done|]. rewrite H2, <- app_assoc. cbn. by rewrite Nat.add_0_r.
    + cbn [app AgentTurn.insert_repairs].
      destruct (insert_missing_spec P (index + 1 + inserted) inserted ids s rs HP Hs) as (s1 & -> & HP1 & E1).
      { rewrite Hm, length_app, Hl. cbn. lia. }
      cbn [fst snd]. rewrite Hm in E1. replace (before ++ m :: l) with ((before ++ [m]) ++ l) in E1 by (by rewrite <- app_assoc).
      replace (index + 1 + inserted) with (length (before ++ [m])) in E1 by (rewrite length_app, Hl; cbn; lia).
      rewrite take_app_length, drop_app_length in E1.
      destruct (IH (S index) (inserted + length ids) ((before ++ [m]) ++ placeholders inserted ids) s1 (list_to_set ids ∪ rs) HP1) as (s' & -> & H1 & H2).
      { by rewrite E1, !app_assoc. } { rewrite !length_app, length_placeholders, Hl. cbn. lia. }
      exists s'. split_and!; [|done|rewrite H2, <- !app_assoc; done].
      do 2 f_equal; [f_equal; set_solver|lia].
Qed.

(** ** The whole repair *)

Definition scan_start s t : nat := if length (ses_messages s) <? tt_scan_index t then 0 else tt_scan_index t.
Definition known_results s t : gset string :=
  list_to_set (user_results (drop (scan_start s t) (ses_messages s)))
  ∪ (if length (ses_messages s) <? tt_scan_index t then ∅ else tt_tool_result_ids t).

Lemma repair_spec (P : Ses → Prop) in_flight s t :
  (∀ i m s1 s2, insert_message i m s1 = Some s2 → P s1 → P s2) → P s →
  let k := scan_start s t in
  let ids := concat (map (missing_ids in_flight (known_results s t)) (drop k (ses_messages s))) in
  ∃ s' t', repair_transcript in_flight s t = Some (s', t', length ids) ∧ P s'
    ∧ ses_messages s' = take k (ses_messages s) ++ with_placeholders in_flight (known_results s t) 0 (drop k (ses_messages s))
    ∧ tt_scan_index t' = length (ses_messages s') ∧ tt_tool_result_ids t' = list_to_set ids ∪ known_results s t.
Proof.
  intros HP Hs. cbv zeta. unfold AgentTurn.repair_transcript.
  set (t1 := if _ <? _ then reset_tool_output_tracking else t).
  assert (tt_scan_index t1 = scan_start s t) as Hk by (unfold t1, scan_start; by destruct (_ <? _)).
  assert (scan_start s t ≤ length (ses_messages s)) as Hle.
  { unfold scan_start. destruct (_ <? _) eqn:E; [lia|]. by apply Nat.ltb_ge in E. }
  rewrite Hk. set (k := scan_start s t) in *. pose proof (scan_results k (drop k (ses_messages s))) as Hr.
  pose proof (λ known, scan_repairs in_flight known k (drop k (ses_messages s))) as Hm.
  destruct (scan_messages k (drop k (ses_messages s))) as [results calls]. cbn [fst snd] in Hr, Hm. rewrite Hm, Hr.
  assert (list_to_set (user_results (drop k (ses_messages s))) ∪ tt_tool_result_ids t1 = known_results s t) as ->.
  { unfold known_results, t1. fold k. by destruct (_ <? _). }
  destruct (insert_repairs_spec P in_flight (known_results s t) (known_results s t) k 0 (drop k (ses_messages s)) (take k (ses_messages s)) s HP Hs)
    as (s' & -> & HP' & Hs').
  { by rewrite take_drop. } { rewrite length_take. lia. }
  exists s', (MkTracking (list_to_set (concat (map snd calls)) ∪ tt_tool_call_ids t1)
    (list_to_set (concat (map (missing_ids in_flight (known_results s t)) (drop k (ses_messages s)))) ∪ known_results s t) (length (ses_messages s'))).
  by split_and!.
Qed.
End repair_theory.

(** ** What an agent knows of its calls *)

Section tracking.
Context {J Time Member : Type} `{EqDecision Member}.
Notation Stored := (StoredMessage J Time).
Notation Ses := (Session J Time Member).
Implicit Types (l : list Stored) (s : Ses) (t : ToolTracking) (in_flight : gmap string nat) (known late : gset string).

(** An edit in place that keeps the results: images are taken out, or discarded calls. *)
Definition keeps_results (m m' : Stored) : Prop :=
  st_role m' = st_role m ∧ stored_results m' = stored_results m ∧ ∀ id, id ∈ stored_uses m' → id ∈ stored_uses m.

(** What happens between two resets of the tracking; [late] are the calls that some repair found still
    running. *)
Inductive turn : Ses * ToolTracking * gset string → Prop :=
  | turn_start s : turn (s, reset_tool_output_tracking, ∅)
  | turn_append m s t late : turn (s, t, late) → turn (append_stored_message m s, t, late)
  | turn_edit s s' t late : turn (s, t, late) → Forall2 keeps_results (ses_messages s) (ses_messages s') → turn (s', t, late)
  | turn_repair new_id now in_flight s t late s' t' n :
      turn (s, t, late) → repair_transcript new_id now in_flight s t = Some (s', t', n) → turn (s', t', dom in_flight ∪ late).

Definition turn_ok s t late : Prop :=
  tt_scan_index t ≤ length (ses_messages s)
  ∧ (∀ id, id ∈ tt_tool_result_ids t → id ∈ user_results (ses_messages s))
  ∧ ∀ a id, a ∈ take (tt_scan_index t) (ses_messages s) → st_role a = Assistant → id ∈ stored_uses a →
      id ∈ tt_tool_result_ids t ∨ id ∈ late.

Lemma user_results_app l1 l2 : user_results (l1 ++ l2) = user_results l1 ++ user_results l2.
Proof. unfold user_results. by rewrite map_app, concat_app. Qed.

Lemma user_results_cons m l : user_results (m :: l) = user_results [m] ++ user_results l.
Proof. exact (user_results_app [m] l). Qed.

Lemma in_placeholders new_id (now : Time) n ids (m : Stored) :
  m ∈ placeholders new_id now n ids → st_role m = User ∧ stored_uses m = [] ∧ ∃ id, id ∈ ids ∧ stored_results m = [id].
Proof.
  revert n. induction ids as [|id ids IH]; intros n; cbn [placeholders]; [by intros ?%not_elem_of_nil|].
  intros [->|Hm]%elem_of_cons; [split_and!; [done..|]; exists id; split; [by left|done]|].
  destruct (IH _ Hm) as (? & ? & x & Hx & ?). split_and!; [done..|]. exists x. split; [by right|done].
Qed.

Lemma placeholders_results new_id (now : Time) n ids : user_results (placeholders (J:=J) new_id now n ids) = ids.
Proof. revert n. induction ids as [|id ids IH]; intros n; [done|]. cbn [placeholders]. unfold user_results in *. cbn. by rewrite IH. Qed.

(** What a pass adds: the results it was asked for, and no call. *)
Lemma pass_results new_id (now : Time) in_flight known n l id :
  id ∈ user_results (with_placeholders new_id now in_flight known n l)
  ↔ id ∈ user_results l ∨ id ∈ concat (map (missing_ids in_flight known) l).
Proof.
  revert n. induction l as [|m l IH]; intros n; [cbn; set_solver|]. cbn [with_placeholders map concat].
  rewrite (user_results_cons m l), (user_results_cons m (_ ++ _)), user_results_app, placeholders_results, !elem_of_app, IH. tauto.
Qed.

Lemma pass_assistants new_id (now : Time) in_flight known n l a :
  a ∈ with_placeholders new_id now in_flight known n l → st_role a = Assistant → a ∈ l.
Proof.
  revert n. induction l as [|m l IH]; intros n; [done|]. cbn [with_placeholders].
  intros [->|[H|H]%elem_of_app]%elem_of_cons Hr; [by left| |right; by eapply IH].
  apply in_placeholders in H as [H _]. congruence.
Qed.

Lemma missing_or_known in_flight known (a : Stored) id :
  st_role a = Assistant → id ∈ stored_uses a → id ∈ missing_ids in_flight known a ∨ id ∈ known ∨ id ∈ dom in_flight.
Proof.
  intros Hr Hid. unfold missing_ids. rewrite Hr. destruct (is_missing in_flight known id) eqn:E; [left; by apply list_elem_of_filter|].
  right. unfold is_missing, is_tool_in_flight in E. apply andb_false_iff in E as [E|E]; apply negb_false_iff, bool_decide_eq_true in E; [by left|].
  right. by apply elem_of_dom.
Qed.

Lemma elem_of_missing in_flight known l a id : a ∈ l → id ∈ missing_ids in_flight known a → id ∈ concat (map (missing_ids in_flight known) l).
Proof. intros Ha Hid. apply list_elem_of_lookup in Ha as [i Hi]. exact (elem_of_concat_map _ l i a id Hi Hid). Qed.

Lemma repair_keeps new_id now in_flight s t late s' t' n :
  turn_ok s t late → repair_transcript new_id now in_flight s t = Some (s', t', n) → turn_ok s' t' (dom in_flight ∪ late).
Proof.
  intros (Hk & Hres & Hcalls) E.
  destruct (repair_spec new_id now (λ _, True) in_flight s t) as (s1 & t1 & E1 & _ & Hm & Hi & Ht); [done..|].
  rewrite E1 in E. injection E as <- <- <-. assert (scan_start s t = tt_scan_index t) as Hst.
  { unfold scan_start. rewrite (proj2 (Nat.ltb_ge _ _)) by done. done. }
  assert (known_results s t = list_to_set (user_results (drop (tt_scan_index t) (ses_messages s))) ∪ tt_tool_result_ids t) as Hkn.
  { unfold known_results. rewrite Hst. by rewrite (proj2 (Nat.ltb_ge _ _)) by done. }
  rewrite Hst in *. set (k := tt_scan_index t) in *. set (known := known_results s t) in *.
  assert (∀ id, id ∈ known → id ∈ user_results (ses_messages s)) as Hknown.
  { intros id. rewrite Hkn, elem_of_union, elem_of_list_to_set. intros [H|H]; [|by apply Hres].
    rewrite <- (take_drop k (ses_messages s)), user_results_app. apply elem_of_app. by right. }
  split_and!; [by rewrite Hi| |].
  - intros id. rewrite Ht, elem_of_union, elem_of_list_to_set, Hm, user_results_app, elem_of_app, pass_results. intros [H|H%Hknown]; [by right; right|].
    rewrite <- (take_drop k (ses_messages s)), user_results_app in H. apply elem_of_app in H as [H|H]; [by left|by right; left].
  - intros a id Ha Hr Hid. rewrite Hi, firstn_all, Hm in Ha. rewrite Ht, !elem_of_union, elem_of_list_to_set.
    apply elem_of_app in Ha as [Ha|Ha].
    + destruct (Hcalls a id Ha Hr Hid) as [H|H]; [|by right; right]. left. right. rewrite Hkn. set_solver.
    + apply pass_assistants in Ha; [|done]. destruct (missing_or_known in_flight known a id Hr Hid) as [H|[H|H]]; [|by left; right|by right; left].
      left. left. by eapply elem_of_missing.
Qed.

Lemma turn_inv x : turn x → turn_ok x.1.1 x.1.2 x.2.
Proof.
  induction 1 as [s|m s t late _ IH|s s' t late _ IH H|new_id now in_flight s t late s' t' n _ IH H]; cbn [fst snd] in *.
  - split_and!; [cbn; lia|cbn; set_solver|]. intros a id Ha. by apply not_elem_of_nil in Ha.
  - destruct IH as (H1 & H2 & H3). unfold turn_ok. change (ses_messages (append_stored_message m s)) with (ses_messages s ++ [m]). rewrite length_app, user_results_app, take_app_le by done. split_and!; [lia| |done].
    intros id Hid. apply elem_of_app. left. by apply H2.
  - destruct IH as (H1 & H2 & H3). unfold turn_ok. rewrite <- (Forall2_length _ _ _ H). split_and!; [done| |].
    + intros id Hid%H2. replace (user_results (ses_messages s')) with (user_results (ses_messages s)); [done|].
      unfold user_results. f_equal. clear -H. induction H as [|m m' l l' (Hr & Hs & _) _ IH]; [done|]. cbn. by rewrite IH, Hr, Hs.
    + intros a' id Ha' Hr Hid. apply list_elem_of_lookup in Ha' as [i Hi]. apply lookup_take_Some in Hi as [Hi Hlt].
      destruct (Forall2_lookup_r _ _ _ _ _ H Hi) as (a & Ha & Hra & _ & Hu). apply (H3 a); [|congruence|by apply Hu].
      apply list_elem_of_lookup. exists i. by apply lookup_take_Some.
  - by eapply repair_keeps.
Qed.

(** A placeholder stands right after its call. *)
Lemma pass_in_order new_id (now : Time) in_flight known n l cur :
  in_order cur (map to_message l) → in_order cur (map to_message (with_placeholders new_id now in_flight known n l)).
Proof.
  revert n cur. induction l as [|m l IH]; intros n cur; [done|]. cbn [map with_placeholders in_order]. rewrite map_app.
  change (m_role (to_message m)) with (st_role m). unfold missing_ids. destruct (st_role m); intros [H1 H2]; (split; [done|]); [by apply IH|].
  set (ids := filter _ _). assert (∀ id, id ∈ ids → id ∈ called_in (to_message m)) as Hids by (by intros id [_ H]%list_elem_of_filter).
  clearbody ids. apply (IH (n + length ids)) in H2. generalize dependent (n + length ids). intros n' H2. revert n. induction ids as [|id ids IHi]; intros n; [done|].
  cbn [placeholders map app in_order]. split; [intros x ->%list_elem_of_singleton; apply Hids; by left|]. apply IHi. intros x Hx. apply Hids. by right.
Qed.

Lemma in_order_replace cur (ms1 ms2 ms3 : list (Message J Time)) :
  (∀ cur, in_order cur ms2 → in_order cur ms3) → in_order cur (ms1 ++ ms2) → in_order cur (ms1 ++ ms3).
Proof. intros H. revert cur. induction ms1 as [|m ms1 IH]; intros cur; [apply H|]. cbn. destruct (m_role m); intros [? ?]; split; auto. Qed.
End tracking.

(** ** Properties *)

Section repair_properties.
Context {J Time Member : Type} `{EqDecision Member}.
Implicit Types (s : Session J Time Member) (t : ToolTracking).

(** C33. The repair of a transcript never panics, and does what one pass does that puts, right after every
    message of the assistant that was not scanned before, a placeholder for each of its calls that has no
    result and is not running: the places that shift with every insertion are counted right.  It returns
    how many it put in. *)
Theorem repair_is_one_pass new_id (now : Time) in_flight s t :
  let k := scan_start s t in
  let ids := concat (map (missing_ids in_flight (known_results s t)) (drop k (ses_messages s))) in
  ∃ s' t', repair_transcript new_id now in_flight s t = Some (s', t', length ids)
    ∧ ses_messages s' = take k (ses_messages s) ++ with_placeholders new_id now in_flight (known_results s t) 0 (drop k (ses_messages s))
    ∧ tt_scan_index t' = length (ses_messages s').
Proof.
  cbv zeta. destruct (repair_spec new_id now (λ _, True) in_flight s t) as (s' & t' & E & _ & Hm & Hi & _); [done..|]. by exists s', t'.
Qed.

(** C19. After a repair every call of the assistant has its result in the transcript, except calls whose tool
    is running now or was running at an earlier repair; and a placeholder stands where a result may: if
    every result stood right after its call before, so it does after. *)
Theorem interrupted_calls_are_answered new_id (now : Time) in_flight s t late s' t' n :
  turn (s, t, late) → repair_transcript new_id now in_flight s t = Some (s', t', n) →
  (∀ a id, a ∈ ses_messages s' → st_role a = Assistant → id ∈ stored_uses a →
     id ∈ user_results (ses_messages s') ∨ id ∈ dom in_flight ∨ id ∈ late)
  ∧ (in_order [] (stored_messages_to_messages (ses_messages s)) → in_order [] (stored_messages_to_messages (ses_messages s'))).
Proof.
  intros Ht E. apply turn_inv in Ht. cbn [fst snd] in Ht. pose proof (repair_keeps _ _ _ _ _ _ _ _ _ Ht E) as (_ & Hres & Hcalls).
  destruct (repair_spec new_id now (λ _, True) in_flight s t) as (s1 & t1 & E1 & _ & Hm & Hi & _); [done..|].
  rewrite E1 in E. injection E as -> -> <-. split.
  - intros a id Ha Hr Hid. rewrite Hi, firstn_all in Hcalls. destruct (Hcalls a id Ha Hr Hid) as [H|H]; [left; by apply Hres|right]. by apply elem_of_union.
  - unfold stored_messages_to_messages. rewrite Hm. rewrite <- (take_drop (scan_start s t) (ses_messages s)) at 1. rewrite !map_app.
    apply in_order_replace. intros cur. apply pass_in_order.
Qed.
End repair_properties.

(** What a provider accepts of a request: its shape, an answer to every call in the next message, and no
    answer to anything else. *)
Definition accepted (L : list ApiMessage) : Prop := well_shaped L ∧ unanswered L = [] ∧ results_answer_calls L.

Section request_properties.
Context {Time Member : Type} `{EqDecision Member}.
Notation Ses := (Session Json Time Member).
Notation Entry := (SessionJournalEntry Json Time Member).
Notation Msg := (Message Json Time).
Context (session_json : Ses → string) (parse_session : string → option Ses).
Context (entry_json : Entry → string) (parse_entry : string → option Entry) (entry_stream : string → list Entry).
Context (message_json : Msg → string) (json_to_string : Json → string) (embed : string → option (list spec_float)).
Context (semantic_cache_key : string → N) (wide_alphanumeric : string → bool) (show_percent : spec_float → string).

Lemma order_accepted (ms : list Msg) is_oauth : NoDup (tool_uses ms) → in_order [] ms → accepted (format_messages ms is_oauth).
Proof.
  intros Hn Ho. split_and!; [apply request_shape| |by apply request_in_order].
  by apply request_answered, prompt_answers_dedupe, in_order_prompt.
Qed.

Lemma view_order (m : @Manager Json Time) (ms : list Msg) :
  whole m ms → NoDup (tool_uses ms) → in_order [] ms → NoDup (tool_uses (api_view m ms)) ∧ in_order [] (api_view m ms).
Proof.
  intros Hw Hn Ho. assert (NoDup (tool_uses (active_messages m ms)) ∧ in_order [] (active_messages m ms)) as [H1 H2].
  { rewrite (active_whole _ _ Hw). split; [|apply in_order_suffix; [done..|apply Hw]].
    rewrite <- (take_drop (cm_compacted_count m) ms), tool_uses_app in Hn. by apply NoDup_app in Hn as (_ & _ & ?). }
  unfold api_view. destruct (cm_active_summary m) as [sm|]; [|done]. rewrite tool_uses_app, (proj1 (summary_message_free sm)). split; [exact H1|].
  cbn [app in_order]. split; [|exact H2]. intros id. change (answered_in (summary_message sm)) with (msg_results (Time:=Time) (summary_message sm)).
  destruct sm as [? [?|] ??]; by intros ?%not_elem_of_nil.
Qed.

End request_properties.

(** ** Examples *)

Module TurnDemo.
#[local] Notation Stored0 := (StoredMessage Json unit).
#[local] Notation Ses0 := (Session Json unit unit).

Definition said (role : Role) (content : list (ContentBlock Json)) : Stored0 := MkStoredMessage "m" role content None None None None.
Definition runs (id : string) : Stored0 := said Assistant [ToolUse id "bash" (JObject []) None].
Definition reports (id : string) : Stored0 := said User [ToolResult id "done" None].
Definition says (t : string) : Stored0 := said User [Text t None].

Definition session (messages : list Stored0) : Ses0 :=
  created (MkSession "s1" tt
    (MkMeta None None None tt None None None None None None None None None false None None None Status_Active None None false false None)
    None messages [] [] [] default_persist_state [] [] 0 Clean).

Definition new_id (n : nat) : string := "r".
Definition repaired (in_flight : gmap string nat) (s : Ses0) (t : ToolTracking) := repair_transcript new_id tt in_flight s t.
Definition ids_of (s : Ses0) : list (list string * list string) := map (λ m, (stored_uses m, stored_results m)) (ses_messages s).

(** The calls [a] and [c] were interrupted. *)
Definition interrupted : Ses0 := session [says "go"; runs "a"; says "go on"; runs "b"; reports "b"; runs "c"].

Example interrupted_repaired :
  (λ r, (ids_of r.1.1, r.2)) <$> repaired ∅ interrupted reset_tool_output_tracking
  = Some ([([], []); (["a"], []); ([], ["a"]); ([], []); (["b"], []); ([], ["b"]); (["c"], []); ([], ["c"])], 2).
Proof. by vm_compute. Qed.

(** A repair that finds the tool of a call still running passes over the call and never comes back to it:
    when the turn that waits for the tool is given up, the call stays without a result. *)
Example in_flight_call_never_repaired :
  let s := session [says "go"; runs "a"] in
  (r ← repaired {["a" := 1]} s reset_tool_output_tracking; (λ r, (ids_of r.1.1, r.2)) <$> repaired ∅ r.1.1 r.1.2)
  = Some ([([], []); (["a"], [])], 0)
  ∧ (λ r, r.2) <$> repaired ∅ s reset_tool_output_tracking = Some 1.
Proof. by vm_compute. Qed.

(** The manager counts the messages that a summary stands for, and a repair that puts a placeholder among
    them moves the cut by one: the request begins with a result whose call is cut away. *)
Definition json_to_string (_ : Json) : string := "{}".
Definition cut_at_five : StoredCompactionState := MkStored "what happened" None 5 5 5.
Definition resumed : Ses0 := session [says "go"; runs "a"; says "go on"; runs "b"; reports "b"; says "thanks"; said Assistant [Text "ok" None]].

Definition request_of (s : Ses0) : list (Message Json unit) :=
  (messages_for_api_with json_to_string (stored_messages_to_messages (ses_messages s))
     (seed_compaction_from_session json_to_string default_compaction_config 200000 (Some cut_at_five)
        (stored_messages_to_messages (ses_messages resumed))).1).2.

Example repair_moves_the_cut :
  map answered_in (request_of resumed) = [[]; []; []]
  ∧ (λ r, map answered_in (request_of r.1.1)) <$> repaired ∅ resumed reset_tool_output_tracking = Some [[]; ["b"]; []; []]
  ∧ (λ r, map called_in (request_of r.1.1)) <$> repaired ∅ resumed reset_tool_output_tracking = Some [[]; []; []; []].
Proof. by vm_compute. Qed.

(** A session with one call, and the manager that was told of its messages. *)
Definition worked : Ses0 := session [says "go"; runs "a"; reports "a"].
Notation spoken := (stored_messages_to_messages (ses_messages worked)).
Definition no_text {A} (_ : A) : string := "".
Definition no_session (_ : string) : option Ses0 := None.
Definition no_entry (_ : string) : option (SessionJournalEntry Json unit unit) := None.
Definition no_entries (_ : string) : list (SessionJournalEntry Json unit unit) := [].
Definition no_embedding (_ : string) : option (list spec_float) := None.
Definition no_key (_ : string) : N := 0.
Definition not_wide (_ : string) : bool := false.

Notation told := (CompactionManagerTheorems.reachable (Time:=unit) json_to_string no_embedding no_key not_wide no_text true).

Lemma told_step (m : @Manager Json unit) ms msg :
  told (m, ms) → (∀ id, id ∈ tool_results [msg] → id ∈ tool_uses (kept m ms ++ [msg])) →
  told (notify_message_added_blocks json_to_string (m_content msg) m, ms ++ [msg]).
Proof. intros H Ha. apply (reach_op _ _ _ _ _ _ (CompactionManagerTheorems.Op_Add msg) _ _ H Ha); done. Qed.

Lemma worked_told : ∃ m, told (m, spoken) ∧ 0 < cc_stall_window (cm_compaction_config m).
Proof.
  pose proof (reach_new json_to_string no_embedding no_key not_wide no_text true default_compaction_config : told (_, [])) as H.
  apply (λ h, told_step _ _ (to_message (says "go")) h) in H; [|by intros id ?%not_elem_of_nil].
  apply (λ h, told_step _ _ (to_message (runs "a")) h) in H; [|by intros id ?%not_elem_of_nil].
  apply (λ h, told_step _ _ (to_message (reports "a")) h) in H; [|intros id ->%list_elem_of_singleton; by apply (bool_decide_unpack _); vm_compute].
  eexists. split; [exact H|]. by apply Nat.ltb_lt.
Qed.

Definition anthropic : @AgentProvider Json unit :=
  MkAgentProvider true true (MkProvider (λ _ _ _, None) (λ _ _, Ok "summary") 200000).
Definition works : Io := MkIo Append_Ok true true.
End TurnDemo.

Section witnesses.
Import TurnDemo.

Lemma interrupted_calls_are_answered_witness :
  turn (interrupted, reset_tool_output_tracking, ∅)
  ∧ ∃ s' t', repaired ∅ interrupted reset_tool_output_tracking = Some (s', t', 2)
    ∧ (∀ a id, a ∈ ses_messages s' → st_role a = Assistant → id ∈ stored_uses a →
         id ∈ user_results (ses_messages s') ∨ id ∈ dom (∅ : gmap string nat) ∨ id ∈ (∅ : gset string)).
Proof.
  split; [constructor|]. destruct (repaired ∅ interrupted reset_tool_output_tracking) as [[[s' t'] n]|] eqn:E; [|by vm_compute in E].
  assert (n = 2) as -> by (pose proof interrupted_repaired as H; rewrite E in H; by injection H).
  exists s', t'. split; [done|].
  apply (interrupted_calls_are_answered new_id tt ∅ interrupted reset_tool_output_tracking ∅ s' t' 2); [constructor|exact E].
Defined.

End witnesses.
