(* ===== verification/SessionSearch.v ===== *)
(** * Searching past sessions (crates/arterm-session-types/src/lib.rs)

    The pure part of the session search: the profile of a query, the tests on raw files, paths and texts,
    the score and the snippet of a match, the filters, and the report.  A body that slices a text returns
    [option], and [None] is the panic.

    [str::to_lowercase] on a text outside ASCII is a parameter, as is which of its characters are
    alphanumeric; times are compared and printed by parameters; the scan for a byte is the [memchr] crate's,
    a class with its two functions and what they return. *)

From S2P Require Export Floats TextEdit Hooks.

(** ** Queries *)

Record SessionSearchQueryProfile := MkQuery {
  sq_normalized : string;
  sq_terms : list string;
  sq_min_term_matches : nat;
}.

Definition is_session_search_stop_word (token : string) : bool :=
  one_of ["a"; "an"; "and"; "are"; "as"; "at"; "be"; "but"; "by"; "for"; "from"; "how"; "i"; "in"; "into"; "is"; "it"; "my"; "of"; "on";
          "or"; "our"; "that"; "the"; "their"; "this"; "to"; "we"; "what"; "when"; "where"; "which"; "with"; "you"; "your"] token.

Definition minimum_session_search_term_matches (term_count : nat) : nat :=
  match term_count with 0 => 0 | 1 => 1 | 2 => 2 | 3 | 4 | 5 => 2 | _ => 3 end.

Definition query_is_empty (q : SessionSearchQueryProfile) : bool := is_empty (sq_normalized q).
Definition is_actionable (q : SessionSearchQueryProfile) : bool := negb (is_empty (sq_normalized q)) && negb (is_nil (sq_terms q)).

(** The [memchr] crate: the first place of a byte, or of one of two. *)
Fixpoint first_of (a b : ascii) (s : string) : option nat :=
  match s with
  | EmptyString => None
  | String c s => if Ascii.eqb c a || Ascii.eqb c b then Some 0 else S <$> first_of a b s
  end.

Class Memchr := {
  memchr : ascii → string → option nat;
  memchr2 : ascii → ascii → string → option nat;
  memchr_first a s : memchr a s = first_of a a s;
  memchr2_first a b s : memchr2 a b s = first_of a b s;
}.

(** A plain scan meets it. *)
Definition scan_bytes : Memchr :=
  {| memchr a := first_of a a; memchr2 := first_of; memchr_first _ _ := eq_refl; memchr2_first _ _ _ := eq_refl |}.

Section lowercase.
Context `{MC : Memchr} (lowercase : string → string) (wide_alphanumeric : string → bool).

(** [query.split(|c| !c.is_alphanumeric())], with the word read so far. *)
Fixpoint split_words (word : string) (cs : list string) : list string :=
  match cs with
  | [] => [word]
  | c :: cs =>
      if is_alphanumeric wide_alphanumeric c then split_words (word +:+ c) cs else word :: split_words "" cs
  end.

Definition is_single_digit (c : string) : bool := match c with String d EmptyString => is_ascii_digit d | _ => false end.

Definition keep_token (terms : list string) (token : string) : list string :=
  if is_empty token then terms
  else
    let token := lowercase token in
    if is_session_search_stop_word token then terms
    else if ((2 <=? length (chars token)) || forallb is_single_digit (chars token)) && negb (existsb (String.eqb token) terms)
         then terms ++ [token] else terms.

Definition tokenize_session_search_query (query : string) : list string := foldl keep_token [] (split_words "" (chars query)).

(** [SessionSearchQueryProfile::new] *)
Definition query_new (query : string) : SessionSearchQueryProfile :=
  let normalized := lowercase (trim query) in
  let terms := tokenize_session_search_query normalized in
  MkQuery normalized terms (minimum_session_search_term_matches (length terms)).

(** ** Raw files *)

(** The bytes agree in lower case, as far as both go. *)
Fixpoint zip_all_lower (h n : string) : bool :=
  match h, n with
  | String a h, String b n => Ascii.eqb (to_ascii_lowercase_char a) b && zip_all_lower h n
  | _, _ => true
  end.

(** The loop; every round moves on by a byte, so the length of the haystack and one more is enough fuel. *)
Fixpoint contains_go (fuel : nat) (haystack : string) (first_lower : ascii) (rest : string) (search_end offset : nat) : bool :=
  match fuel with
  | 0 => false
  | S fuel =>
      if search_end <? offset then false
      else
        let first_upper := to_ascii_uppercase_char first_lower in
        let window := str_drop offset haystack in
        match (if Ascii.eqb first_upper first_lower then memchr first_lower window else memchr2 first_lower first_upper window) with
        | None => false
        | Some pos =>
            let candidate := offset + pos in
            if search_end <? candidate then false
            else if zip_all_lower (str_take (String.length rest) (str_drop (S candidate) haystack)) rest then true
            else contains_go fuel haystack first_lower rest search_end (S candidate)
        end
  end.

Definition contains_case_insensitive_bytes (haystack needle_lower : string) : bool :=
  match needle_lower with
  | EmptyString => true
  | String first_lower rest =>
      if String.length haystack <? String.length needle_lower then false
      else contains_go (S (String.length haystack)) haystack first_lower rest (String.length haystack - String.length needle_lower) 0
  end.

Definition count_terms (found : string → bool) (terms : list string) : nat := length (filter (λ t, found t = true) terms).

Definition normalized_session_search_text_matches (text_lower : string) (q : SessionSearchQueryProfile) : bool :=
  if negb (is_actionable q) then false
  else contains (sq_normalized q) text_lower || (sq_min_term_matches q <=? count_terms (λ t, contains t text_lower) (sq_terms q)).

Definition is_ascii (s : string) : bool := string_forallb (λ c, (byte c <? 128)%N) s.

Definition session_search_raw_matches_query (raw : string) (q : SessionSearchQueryProfile) : bool :=
  if negb (is_actionable q) then false
  else if is_ascii (sq_normalized q) then
    contains_case_insensitive_bytes raw (sq_normalized q)
    || (sq_min_term_matches q <=? count_terms (λ t, contains_case_insensitive_bytes raw t) (sq_terms q))
  else match from_utf8 raw with
       | AllValid => normalized_session_search_text_matches (lowercase raw) q
       | _ => false
       end.

Definition session_search_path_matches_query (path_text : string) (q : SessionSearchQueryProfile) : bool :=
  normalized_session_search_text_matches (lowercase path_text) q.

(** ** Snippets *)

Definition slice_text (s : string) (a b : nat) : option string :=
  if (a <=? b) && (b <=? String.length s) && is_char_boundary s a && is_char_boundary s b
  then Some (str_take (b - a) (str_drop a s)) else None.

Definition floor_char_boundary (s : string) (i : nat) : nat := if String.length s <=? i then String.length s else back_up s i.

Fixpoint go_up (fuel : nat) (s : string) (i : nat) : nat :=
  match fuel with
  | 0 => i
  | S fuel => if (i <? String.length s) && negb (is_char_boundary s i) then go_up fuel s (S i) else i
  end.
Definition ceil_char_boundary (s : string) (i : nat) : nat :=
  if String.length s <=? i then String.length s else min (go_up (String.length s) s i) (String.length s).

(** [find(char::is_whitespace)] and [rfind(char::is_whitespace)]: where the first and the last whitespace
    character starts. *)
Fixpoint find_ws (s : string) : option nat :=
  match s with EmptyString => None | String _ s' => if lead_ws s then Some 0 else S <$> find_ws s' end.
Fixpoint rfind_ws (s : string) : option nat :=
  match s with
  | EmptyString => None
  | String _ s' => match rfind_ws s' with Some p => Some (S p) | None => if lead_ws s then Some 0 else None end
  end.

Definition focus_len (q : SessionSearchQueryProfile) : nat :=
  if negb (is_empty (sq_normalized q)) then String.length (sq_normalized q)
  else match sq_terms q with term :: _ => String.length term | [] => 0 end.

Definition extract_session_search_snippet (text : string) (anchor : option nat) (q : SessionSearchQueryProfile) (max_len : nat)
    : option string :=
  match anchor with
  | Some pos =>
      let start := floor_char_boundary text (pos - max_len / 2) in
      let end_ := ceil_char_boundary text (min (pos + focus_len q + max_len / 2) (String.length text)) in
      let?? before := slice_text text 0 start in
      let?? after := slice_text text end_ (String.length text) in
      let start := match rfind_ws before with Some p => p + 1 | None => start end in
      let end_ := match find_ws after with Some p => end_ + p | None => end_ end in
      let?? snippet := slice_text text start end_ in
      let snippet := if 0 <? start then "..." +:+ snippet else snippet in
      Some (if end_ <? String.length text then snippet +:+ "..." else snippet)
  | None => Some (String.concat "" (firstn max_len (chars text)))
  end.

(** ** Scores *)

Record SessionSearchMatchScore := MkScore {
  ms_snippet : string;
  ms_score : spec_float;
  ms_matched_terms : list string;
  ms_exact_match : bool;
}.

(** The matched terms, the number of hits, and the first place. *)
Definition note_term (text_lower : string) (acc : list string * nat * option nat) (term : string) : list string * nat * option nat :=
  let '(matched, hits, first) := acc in
  match str_find term text_lower with
  | Some pos =>
      (matched ++ [term], hits + count_matches term text_lower,
       Some (match first with Some current => min current pos | None => pos end))
  | None => acc
  end.

Definition f64_of_nat (n : nat) : spec_float := f64_of_N (N.of_nat n).

Definition match_score (exact : bool) (matched terms hits text_len : nat) : spec_float :=
  let coverage := f64_div (f64_of_nat matched) (f64_of_nat terms) in
  let score := f64_add (if exact then f64_of_nat 4 else f64_of_nat 0) (f64_mul coverage (f64_of_nat 3)) in
  let score := f64_add score (f64_mul (f64_of_nat matched) (f64_of_ratio 1 4)) in
  f64_add score (f64_mul (f64_div (f64_of_nat hits) (f64_add (f64_of_nat text_len) (f64_of_nat 1))) (f64_of_nat 200)).

(** [None] is a panic, [Some None] is no match. *)
Definition score_session_search_text_match (text : string) (q : SessionSearchQueryProfile) : option (option SessionSearchMatchScore) :=
  if negb (is_actionable q) then Some None
  else
    let text_lower := lowercase text in
    let exact_pos := if is_empty (sq_normalized q) then None else str_find (sq_normalized q) text_lower in
    let '(matched, hits, first) := foldl (note_term text_lower) ([], 0, None) (sq_terms q) in
    if negb (bool_decide (is_Some exact_pos)) && (length matched <? sq_min_term_matches q) then Some None
    else
      let anchor := match exact_pos with Some p => Some p | None => first end in
      let?? snippet := extract_session_search_snippet text anchor q 280 in
      Some (Some (MkScore snippet (match_score (bool_decide (is_Some exact_pos)) (length matched) (length (sq_terms q)) hits (String.length text))
                    matched (bool_decide (is_Some exact_pos)))).

(** ** Filters *)

Definition normalize_path_for_session_search_match (path : string) : string :=
  lowercase (trim_end_matches (λ c, Ascii.eqb c "/") (replace (String "\" "") "/" (trim path))).

Definition session_search_working_dir_matches (session_wd filter_ : string) : bool :=
  let session_norm := normalize_path_for_session_search_match session_wd in
  let filter_norm := normalize_path_for_session_search_match filter_ in
  if is_empty filter_norm then true
  else if String.eqb session_norm filter_norm then true
  else if starts_with (filter_norm +:+ "/") session_norm then true
  else negb (contains_char "/" filter_norm) && contains filter_norm session_norm.
End lowercase.

Definition session_search_truncate_title_text (text : string) (max_chars : nat) : string :=
  let trimmed := trim text in
  if length (chars trimmed) <=? max_chars then trimmed
  else String.concat "" (firstn (max_chars - 1) (chars trimmed)) +:+ "…".

Definition session_search_field_filter_matches (value filter_ : option string) : bool :=
  match filter_ with
  | None => true
  | Some f => match value with Some v => contains f (to_ascii_lowercase v) | None => false end
  end.

Definition session_search_format_matched_terms (terms : list string) : string :=
  if is_nil terms then "matched exact phrase"
  else
    let rendered := String.concat ", " (map (λ t, "`" +:+ t +:+ "`") (firstn 8 terms)) in
    if 8 <? length terms then "matched terms " +:+ rendered +:+ ", ..." else "matched terms " +:+ rendered.

(** [longest_repeated_char_run], for an ASCII character. *)
Fixpoint longest_run (needle : ascii) (longest current : nat) (text : string) : nat :=
  match text with
  | EmptyString => longest
  | String c text =>
      if Ascii.eqb c needle then longest_run needle (max longest (S current)) (S current) text else longest_run needle longest 0 text
  end.
Definition longest_repeated_char_run (text : string) (needle : ascii) : nat := longest_run needle 0 0 text.

Fixpoint repeat_char (c : ascii) (n : nat) : string := match n with 0 => EmptyString | S n => String c (repeat_char c n) end.

Definition fence_of (text : string) : string :=
  let longest_backtick_run := longest_repeated_char_run text "`" in
  repeat_char "`" (if 3 <=? longest_backtick_run then longest_backtick_run + 1 else 3).

Definition session_search_markdown_code_block (text : string) : string :=
  let fence := fence_of text in fence +:+ "text" +:+ nl +:+ text +:+ nl +:+ fence.

(** ** The report *)

Inductive SessionSearchResultKind := Kind_Metadata | Kind_Message.
Definition kind_label (k : SessionSearchResultKind) : string := match k with Kind_Metadata => "metadata" | Kind_Message => "message" end.

Section report.
Context {Time : Type} (before : Time → Time → bool) (session_search_format_datetime : Time → string).

Definition session_search_datetime_matches (value : Time) (after_ before_ : option Time) : bool :=
  negb (match after_ with Some a => before value a | None => false end)
  && negb (match before_ with Some b => before b value | None => false end).

Record SessionSearchContextLine := MkContextLine {
  cl_message_index : nat;
  cl_role : string;
  cl_timestamp : option Time;
  cl_text : string;
}.

Record SessionSearchResult := MkSearchResult {
  sr_source : string;
  sr_session_id : string;
  sr_short_name : option string;
  sr_title : option string;
  sr_working_dir : option string;
  sr_provider_key : option string;
  sr_model : option string;
  sr_updated_at : Time;
  sr_kind : SessionSearchResultKind;
  sr_role : string;
  sr_message_index : option nat;
  sr_message_id : option string;
  sr_message_timestamp : option Time;
  sr_snippet : string;
  sr_score : spec_float;
  sr_matched_terms : list string;
  sr_exact_match : bool;
  sr_context : list SessionSearchContextLine;
}.

Record SessionSearchReport := MkReport {
  rp_results : list SessionSearchResult;
  rp_scanned_arterm_sessions : nat;
  rp_candidate_arterm_sessions : nat;
  rp_scanned_external_sessions : nat;
  rp_external_sources : list string;
  rp_read_errors : nat;
  rp_parse_errors : nat;
  rp_truncated : bool;
}.

Record SessionSearchRenderOptions := MkRenderOptions {
  ro_include_current : bool;
  ro_include_external : bool;
  ro_include_tools : bool;
  ro_include_system : bool;
  ro_max_per_session : nat;
  ro_has_working_dir_filter : bool;
}.

Definition quoted (label : string) (value : option string) : string :=
  match value with Some v => "- " +:+ label +:+ ": `" +:+ v +:+ "`" +:+ nl | None => "" end.

Definition format_context_line (c : SessionSearchContextLine) : string :=
  "- #" +:+ show_nat (cl_message_index c + 1) +:+ " " +:+ cl_role c
  +:+ match cl_timestamp c with Some ts => " at " +:+ session_search_format_datetime ts | None => "" end +:+ nl
  +:+ session_search_markdown_code_block (cl_text c) +:+ nl.

Definition format_result (i : nat) (r : SessionSearchResult) : string :=
  let name := match sr_short_name r with Some n => n | None => match sr_title r with Some t => t | None => sr_session_id r end end in
  "### Result " +:+ show_nat (i + 1) +:+ " - " +:+ name +:+ nl
  +:+ quoted "Source" (Some (sr_source r)) +:+ quoted "Session ID" (Some (sr_session_id r))
  +:+ match sr_title r with Some t => "- Title: " +:+ t +:+ nl | None => "" end
  +:+ quoted "Working dir" (sr_working_dir r) +:+ quoted "Provider" (sr_provider_key r) +:+ quoted "Model" (sr_model r)
  +:+ "- Updated: " +:+ session_search_format_datetime (sr_updated_at r) +:+ nl +:+ "- Match: " +:+ kind_label (sr_kind r)
  +:+ match sr_message_index r with Some index => " #" +:+ show_nat (index + 1) | None => "" end
  +:+ " (" +:+ sr_role r +:+ ")"
  +:+ match sr_message_id r with Some id => ", id `" +:+ id +:+ "`" | None => "" end
  +:+ match sr_message_timestamp r with Some ts => ", at " +:+ session_search_format_datetime ts | None => "" end +:+ nl
  +:+ "- Why: " +:+ (if sr_exact_match r then "exact phrase; " else "") +:+ session_search_format_matched_terms (sr_matched_terms r) +:+ nl +:+ nl
  +:+ session_search_markdown_code_block (sr_snippet r)
  +:+ (if is_nil (sr_context r) then ""
       else nl +:+ nl +:+ "Context:" +:+ nl +:+ String.concat "" (map format_context_line (sr_context r)))
  +:+ nl +:+ nl.

Fixpoint format_results_from (i : nat) (rs : list SessionSearchResult) : string :=
  match rs with [] => "" | r :: rs => format_result i r +:+ format_results_from (S i) rs end.

Definition format_session_search_results (query : string) (report : SessionSearchReport) (options : SessionSearchRenderOptions) : string :=
  "## Found " +:+ show_nat (length (rp_results report)) +:+ " results for '" +:+ trim query +:+ "'" +:+ nl +:+ nl
  +:+ "_Defaults: current session " +:+ (if ro_include_current options then "included" else "excluded")
  +:+ ", external sources " +:+ (if ro_include_external options then "included" else "hidden")
  +:+ ", tool calls/results " +:+ (if ro_include_tools options then "included" else "hidden")
  +:+ ", system reminders " +:+ (if ro_include_system options then "included" else "hidden")
  +:+ ". Max per session: " +:+ show_nat (ro_max_per_session options) +:+ "._" +:+ nl +:+ nl
  +:+ "_Scanned: " +:+ show_nat (rp_scanned_arterm_sessions report) +:+ " Arterm sessions ("
  +:+ show_nat (rp_candidate_arterm_sessions report) +:+ " candidates), "
  +:+ show_nat (rp_scanned_external_sessions report) +:+ " external sessions"
  +:+ (if is_nil (rp_external_sources report) then "" else " from " +:+ String.concat ", " (rp_external_sources report))
  +:+ (if rp_truncated report then "; scan truncated" else "") +:+ "._" +:+ nl +:+ nl
  +:+ format_results_from 0 (rp_results report).
End report.

Definition no_results_hints (options : SessionSearchRenderOptions) : list string :=
  (if negb (ro_include_current options)
   then ["current session is excluded by default; retry with include_current=true if needed"] else [])
  ++ (if negb (ro_include_tools options)
      then ["tool calls/results are hidden by default; retry with include_tools=true for raw logs"] else [])
  ++ (if negb (ro_include_system options)
      then ["system reminders are hidden by default; retry with include_system=true for internal context"] else [])
  ++ (if ro_has_working_dir_filter options then ["the working_dir filter may be too narrow"] else []).

Definition format_session_search_no_results (query : string) (options : SessionSearchRenderOptions) : string :=
  "No results found for '" +:+ trim query +:+ "' in past sessions."
  +:+ (if is_nil (no_results_hints options) then ""
       else nl +:+ nl +:+ "Search notes:" +:+ nl +:+ String.concat "" (map (λ h, "- " +:+ h +:+ nl) (no_results_hints options))).

(** ** The search in raw bytes *)

(** The reference: a window that is the needle whatever the case. *)
Definition window_is (haystack needle : string) (i : nat) : bool :=
  eq_ignore_ascii_case (str_take (String.length needle) (str_drop i haystack)) needle.
Definition naive_contains (haystack needle : string) : bool :=
  is_empty needle || existsb (window_is haystack needle) (seq 0 (S (String.length haystack) - String.length needle)).

Lemma str_drop_drop j i (s : string) : str_drop j (str_drop i s) = str_drop (i + j) s.
Proof. revert s. induction i as [|i IH]; intros s; [done|]. destruct s as [|c s]; [by destruct j|]. apply IH. Qed.

Lemma char_either_case c l :
  to_ascii_lowercase_char l = l → Ascii.eqb c l || Ascii.eqb c (to_ascii_uppercase_char l) = Ascii.eqb (to_ascii_lowercase_char c) l.
Proof.
  intros Hl. assert (c = to_ascii_lowercase_char c ∨ c = to_ascii_uppercase_char (to_ascii_lowercase_char c)) as Hc
    by (destruct c as [[] [] [] [] [] [] [] []]; vm_compute; auto).
  assert (to_ascii_lowercase_char (to_ascii_uppercase_char l) = to_ascii_lowercase_char l) as Hu
    by (destruct l as [[] [] [] [] [] [] [] []]; reflexivity).
  apply bool_eq_iff. rewrite orb_true_iff, !Ascii.eqb_eq. split; [intros [->| ->]; congruence|]. intros <-. destruct Hc; auto.
Qed.

Lemma zip_all_lower_eq h n :
  String.length h = String.length n → to_ascii_lowercase n = n → zip_all_lower h n = String.eqb (to_ascii_lowercase h) n.
Proof.
  revert n. induction h as [|a h IH]; intros [|b n] Hl Hn; [done..|]. cbn in Hl, Hn |- *. injection Hn as _ Hn.
  rewrite IH by (by injection Hl). by destruct (Ascii.eqb _ b).
Qed.

Lemma first_of_spec a b s :
  match first_of a b s with
  | Some p => (∃ c rest, str_drop p s = String c rest ∧ Ascii.eqb c a || Ascii.eqb c b = true)
      ∧ ∀ i c rest, i < p → str_drop i s = String c rest → Ascii.eqb c a || Ascii.eqb c b = false
  | None => ∀ i c rest, str_drop i s = String c rest → Ascii.eqb c a || Ascii.eqb c b = false
  end.
Proof.
  induction s as [|d s IH]; [by intros [|i] c rest|]. cbn [first_of]. destruct (Ascii.eqb d a || Ascii.eqb d b) eqn:E.
  - split; [by exists d, s|]. intros i c rest Hi. lia.
  - destruct (first_of a b s) as [p|]; cbn.
    + destruct IH as [H1 H2]. split; [done|]. intros [|i] c rest Hi; cbn; [by intros [= <- <-]|]. apply H2. lia.
    + intros [|i] c rest; cbn; [by intros [= <- <-]|]. apply IH.
Qed.

Lemma memchr_either `{MC : Memchr} l u window :
  (if Ascii.eqb u l then memchr l window else memchr2 l u window) = first_of l u window.
Proof. destruct (Ascii.eqb u l) eqn:E; [apply Ascii.eqb_eq in E as ->; apply memchr_first|apply memchr2_first]. Qed.

Section bytes.
Context `{MC : Memchr} (haystack rest : string) (l : ascii).
Notation needle := (String l rest).
Hypothesis Hl : to_ascii_lowercase_char l = l.
Hypothesis Hrest : to_ascii_lowercase rest = rest.
Hypothesis Hlen : String.length needle ≤ String.length haystack.
Notation search_end := (String.length haystack - String.length needle).

Lemma window_at i c tail :
  i ≤ search_end → str_drop i haystack = String c tail →
  window_is haystack needle i = (Ascii.eqb c l || Ascii.eqb c (to_ascii_uppercase_char l))
    && zip_all_lower (str_take (String.length rest) (str_drop (S i) haystack)) rest.
Proof.
  intros Hi E. rewrite char_either_case by exact Hl. unfold window_is, eq_ignore_ascii_case. rewrite E.
  assert (str_drop (S i) haystack = tail) as -> by (replace (S i) with (i + 1) by lia; by rewrite <- str_drop_drop, E).
  assert (String.length tail + S i = String.length haystack) as Ht.
  { assert (String.length (str_drop i haystack) = String.length haystack - i) as H by apply str_length_drop. rewrite E in H. cbn in H, Hlen. lia. }
  cbn [String.length str_take]. rewrite zip_all_lower_eq; [|rewrite str_length_take; cbn in Hi, Hlen; lia|exact Hrest].
  change (to_ascii_lowercase needle) with (String (to_ascii_lowercase_char l) (to_ascii_lowercase rest)). rewrite Hl, Hrest.
  change (to_ascii_lowercase (String c ?t)) with (String (to_ascii_lowercase_char c) (to_ascii_lowercase t)). cbn [String.eqb].
  by destruct (Ascii.eqb _ l).
Qed.

Lemma contains_go_naive fuel offset :
  S search_end - offset ≤ fuel → contains_go fuel haystack l rest search_end offset = existsb (window_is haystack needle) (seq offset (S search_end - offset)).
Proof.
  revert offset. induction fuel as [|fuel IH]; intros offset Hf; [by replace (S search_end - offset) with 0 by lia|]. cbn [contains_go].
  destruct (search_end <? offset) eqn:Ho; [apply Nat.ltb_lt in Ho; by replace (S search_end - offset) with 0 by lia|apply Nat.ltb_ge in Ho].
  assert (∀ i, i ≤ search_end → ∃ c tail, str_drop i haystack = String c tail) as Hget.
  { intros i Hi. destruct (str_drop i haystack) as [|c tail] eqn:E; [|by exists c, tail].
    assert (String.length (str_drop i haystack) = String.length haystack - i) as H by apply str_length_drop. rewrite E in H. cbn in H, Hi, Hlen. lia. }
  assert (∀ k n, offset ≤ k → k + n ≤ S search_end →
    (∀ i c tail, offset ≤ i → i < k + n → str_drop i haystack = String c tail → Ascii.eqb c l || Ascii.eqb c (to_ascii_uppercase_char l) = false) →
    existsb (window_is haystack needle) (seq k n) = false) as Hnone.
  { intros k n Hk Hn H. apply existsb_elem_false. intros i [Hi1 Hi2]%elem_of_seq. destruct (Hget i ltac:(lia)) as (c & tail & E).
    rewrite (window_at i c tail) by (done || lia). by rewrite (H i c tail) by (done || lia). }
  cbv zeta. rewrite memchr_either. pose proof (first_of_spec l (to_ascii_uppercase_char l) (str_drop offset haystack)) as Hm.
  destruct (first_of _ _ _) as [pos|].
  - destruct Hm as [(c & tail & E & Hc) Hbefore]. rewrite str_drop_drop in E.
    assert (∀ i c tail, offset ≤ i → i < offset + pos → str_drop i haystack = String c tail → Ascii.eqb c l || Ascii.eqb c (to_ascii_uppercase_char l) = false) as Hb.
    { intros i c' tail' H1 H2 E'. apply (Hbefore (i - offset) c' tail'); [lia|]. rewrite str_drop_drop. by replace (offset + (i - offset)) with i by lia. }
    destruct (search_end <? offset + pos) eqn:Hc'; [apply Nat.ltb_lt in Hc'; symmetry; apply Hnone; [lia..|intros i c' tail' ? ?; apply Hb; lia]|apply Nat.ltb_ge in Hc'].
    replace (S search_end - offset) with (pos + S (search_end - (offset + pos))) by lia. rewrite seq_app, existsb_app. cbn [seq existsb].
    rewrite (Hnone offset pos) by (done || lia). cbn [orb]. rewrite (window_at (offset + pos) c tail) by done. rewrite Hc. cbn [andb].
    destruct (zip_all_lower _ _); [done|]. cbn [orb]. by rewrite IH by lia.
  - symmetry. apply Hnone; [lia..|]. intros i c tail H1 H2 E. apply (Hm (i - offset) c tail). rewrite str_drop_drop.
    by replace (offset + (i - offset)) with i by lia.
Qed.
End bytes.

Lemma contains_bytes_naive `{MC : Memchr} haystack needle :
  to_ascii_lowercase needle = needle → contains_case_insensitive_bytes haystack needle = naive_contains haystack needle.
Proof.
  unfold naive_contains. destruct needle as [|l rest]; [done|]. intros [= Hl Hrest]. unfold contains_case_insensitive_bytes. cbn [is_empty orb].
  destruct (String.length haystack <? String.length (String l rest)) eqn:E.
  - apply Nat.ltb_lt in E. by replace (S (String.length haystack) - String.length (String l rest)) with 0 by lia.
  - apply Nat.ltb_ge in E. rewrite contains_go_naive by (done || lia).
    replace (S (String.length haystack - String.length (String l rest)) - 0) with (S (String.length haystack) - String.length (String l rest)) by lia. done.
Qed.

(** ** Snippets *)

(** The byte at a place begins no character. *)
Definition starts_inside (s : string) : bool := match s with String c _ => is_continuation c | EmptyString => false end.

(** A text begins with a character, and after an ASCII byte a character begins. *)
Definition well_split (s : string) : Prop :=
  starts_inside s = false ∧ ∀ i c rest, str_drop i s = String c rest → (byte c <? 128)%N = true → starts_inside rest = false.

Lemma continuation_wide c : is_continuation c = true → (byte c <? 128)%N = false.
Proof. destruct c as [[] [] [] [] [] [] [] []]; done. Qed.

Lemma well_split_wide c s :
  starts_inside (String c "") = false → (byte c <? 128)%N = false →
  (∀ i d rest, str_drop i s = String d rest → (byte d <? 128)%N = true → starts_inside rest = false) → well_split (String c s).
Proof. intros Hc Hw H. split; [exact Hc|]. intros [|i] d rest; cbn; [intros [= <- <-]; congruence|apply H]. Qed.

Lemma tail_split c s :
  is_continuation c = true → (∀ i d rest, str_drop i s = String d rest → (byte d <? 128)%N = true → starts_inside rest = false) →
  ∀ i d rest, str_drop i (String c s) = String d rest → (byte d <? 128)%N = true → starts_inside rest = false.
Proof. intros Hc H [|i] d rest; cbn; [intros [= <- <-] Hd|apply H]. by rewrite (continuation_wide c Hc) in Hd. Qed.

Lemma second_continues a b : second_ok a b = true → is_continuation b = true.
Proof.
  unfold second_ok, in_range, is_continuation. intros H. repeat case_match; apply andb_true_iff in H as [Hlo%N.leb_le Hhi%N.leb_le];
    apply andb_true_iff; (split; [apply N.leb_le; lia|apply N.ltb_lt; lia]).
Qed.

Lemma lead_begins a lo hi : (194 <= lo)%N → in_range lo hi a = true → starts_inside (String a "") = false ∧ (byte a <? 128)%N = false.
Proof.
  unfold in_range. intros Hlo [H1%N.leb_le _]%andb_true_iff. cbn. unfold is_continuation. split; [|apply N.ltb_ge; lia].
  apply andb_false_iff. right. apply N.ltb_ge; lia.
Qed.

Lemma valid_splits fuel done_ s : String.length s < fuel → from_utf8_go fuel done_ s = AllValid → well_split s.
Proof.
  revert done_ s. induction fuel as [|fuel IH]; intros done_ s Hf; [lia|]. cbn [from_utf8_go]. destruct s as [|a s1]; [by split; [|intros [|i]]|].
  assert (∀ n, 1 ≤ n → from_utf8_go fuel (done_ + n) (str_drop n (String a s1)) = AllValid → well_split (str_drop n (String a s1))) as IHn.
  { intros n Hn. apply IH. pose proof (str_length_drop n (String a s1)) as H. cbn in Hf, H. lia. }
  cbn [front]. destruct (byte a <? 128)%N eqn:Ha.
  - intros H. destruct (IHn 1 ltac:(lia) H) as [H1 H2]. cbn in H1, H2. split.
    + cbn. destruct (is_continuation a) eqn:E; [|done]. by rewrite (continuation_wide a E) in Ha.
    + intros [|i] c rest; cbn; [by intros [= <- <-]|apply H2].
  - destruct (in_range 194 223 a) eqn:E2; [|destruct (in_range 224 239 a) eqn:E3; [|destruct (in_range 240 244 a) eqn:E4; [|done]]].
    + destruct (lead_begins a 194 223 ltac:(lia) E2) as [Hl _]. destruct s1 as [|b s2]; [done|]. cbn [front_one]. destruct (is_continuation b) eqn:Eb; [|done].
      intros H. destruct (IHn 2 ltac:(lia) H) as [_ H2]. apply well_split_wide; [done..|]. by apply tail_split.
    + destruct (lead_begins a 224 239 ltac:(lia) E3) as [Hl _]. destruct s1 as [|b s2]; [done|]. destruct (second_ok a b) eqn:Eb; [|done].
      destruct s2 as [|c s3]; [done|]. cbn [front_one]. destruct (is_continuation c) eqn:Ec; [|done].
      intros H. destruct (IHn 3 ltac:(lia) H) as [_ H2]. apply well_split_wide; [done..|]. apply tail_split; [by eapply second_continues|]. by apply tail_split.
    + destruct (lead_begins a 240 244 ltac:(lia) E4) as [Hl _]. destruct s1 as [|b s2]; [done|]. destruct (second_ok a b) eqn:Eb; [|done].
      destruct s2 as [|c s3]; [done|]. cbn [front_two]. destruct (is_continuation c) eqn:Ec; [|done].
      destruct s3 as [|d s4]; [done|]. cbn [front_one]. destruct (is_continuation d) eqn:Ed; [|done].
      intros H. destruct (IHn 4 ltac:(lia) H) as [_ H2]. apply well_split_wide; [done..|]. apply tail_split; [by eapply second_continues|].
      apply tail_split; [done|]. by apply tail_split.
Qed.

Lemma utf8_well_split s : from_utf8 s = AllValid → well_split s.
Proof. apply valid_splits. lia. Qed.

Lemma boundary_inside s i : is_char_boundary s i = negb (starts_inside (str_drop i s)).
Proof. unfold is_char_boundary. by destruct (str_drop i s). Qed.

Lemma boundary_end s i : String.length s ≤ i → is_char_boundary s i = true.
Proof.
  intros H. unfold is_char_boundary. destruct (str_drop i s) as [|c t] eqn:E; [done|].
  pose proof (str_length_drop i s) as Hl. rewrite E in Hl. cbn in Hl. lia.
Qed.

Lemma floor_spec s i : is_char_boundary s 0 = true →
  is_char_boundary s (floor_char_boundary s i) = true ∧ floor_char_boundary s i ≤ min i (String.length s).
Proof.
  intros H0. unfold floor_char_boundary. destruct (_ <=? _) eqn:E; [apply Nat.leb_le in E; split; [by apply boundary_end|lia]|].
  apply Nat.leb_gt in E. destruct (back_up_spec s i) as [[H1 H2]|H]; [split; [done|lia]|rewrite H; split; [done|lia]].
Qed.

Lemma go_up_spec fuel s i :
  String.length s ≤ fuel + i → i ≤ go_up fuel s i ∧ (is_char_boundary s (go_up fuel s i) = true ∨ String.length s ≤ go_up fuel s i).
Proof.
  revert i. induction fuel as [|fuel IH]; intros i Hf; cbn [go_up]; [split; [lia|right; lia]|].
  destruct (i <? String.length s) eqn:E; cbn [andb]; [|apply Nat.ltb_ge in E; split; [lia|by right]].
  destruct (is_char_boundary s i) eqn:Eb; cbn [negb]; [split; [lia|by left]|]. destruct (IH (S i)) as [H1 H2]; [lia|]. split; [lia|done].
Qed.

Lemma ceil_spec s i :
  is_char_boundary s (ceil_char_boundary s i) = true ∧ min i (String.length s) ≤ ceil_char_boundary s i ≤ String.length s.
Proof.
  unfold ceil_char_boundary. destruct (_ <=? _) eqn:E; [apply Nat.leb_le in E; split; [by apply boundary_end|lia]|].
  apply Nat.leb_gt in E. destruct (go_up_spec (String.length s) s i) as [H1 H2]; [lia|].
  destruct (Nat.min_spec (go_up (String.length s) s i) (String.length s)) as [[Hm ->]|[Hm ->]]; (split; [|lia]); [|by apply boundary_end].
  destruct H2 as [H2|H2]; [done|lia].
Qed.

Lemma slice_some s a b :
  a ≤ b → b ≤ String.length s → is_char_boundary s a = true → is_char_boundary s b = true → slice_text s a b = Some (str_take (b - a) (str_drop a s)).
Proof. intros H1 H2 H3 H4. unfold slice_text. by rewrite (proj2 (Nat.leb_le _ _) H1), (proj2 (Nat.leb_le _ _) H2), H3, H4. Qed.

Lemma rfind_ws_spec s p : rfind_ws s = Some p → p < String.length s ∧ lead_ws (str_drop p s) = true.
Proof.
  revert p. induction s as [|c s IH]; intros p; [done|]. cbn [rfind_ws]. destruct (rfind_ws s) as [q|].
  - intros [= <-]. destruct (IH q eq_refl) as [H1 H2]. split; [cbn; lia|done].
  - destruct (lead_ws (String c s)) eqn:E; [|done]. intros [= <-]. split; [cbn; lia|done].
Qed.

Lemma find_ws_spec s p : find_ws s = Some p → p < String.length s ∧ lead_ws (str_drop p s) = true.
Proof.
  revert p. induction s as [|c s IH]; intros p; [done|]. cbn [find_ws]. destruct (lead_ws (String c s)) eqn:E.
  - intros [= <-]. split; [cbn; lia|done].
  - destruct (find_ws s) as [q|]; [|done]. intros [= <-]. destruct (IH q eq_refl) as [H1 H2]. split; [cbn; lia|done].
Qed.

(** A whitespace character begins where it is found. *)
Lemma ws_begins s : lead_ws s = true → starts_inside s = false.
Proof.
  destruct s as [|a s]; [done|]. cbn. unfold ws_two, ws_three. intros H. destruct (is_continuation a) eqn:E; [exfalso|done].
  assert (ws_ascii a = false) as Ha by (revert E; by destruct a as [[] [] [] [] [] [] [] []]).
  assert ((byte a =? 194) = false ∧ (byte a =? 225) = false ∧ (byte a =? 226) = false ∧ (byte a =? 227) = false)%N as (H1 & H2 & H3 & H4)
    by (revert E; by destruct a as [[] [] [] [] [] [] [] []]).
  rewrite Ha, H1, H2, H3, H4 in H. by destruct s as [|b [|c s]].
Qed.

(** All whitespace is ASCII. *)
Definition plain_spaces (s : string) : Prop :=
  ∀ i, lead_ws (str_drop i s) = true → ∃ c rest, str_drop i s = String c rest ∧ (byte c <? 128)%N = true.

Lemma str_drop_take k n (s : string) : str_drop k (str_take n s) = str_take (n - k) (str_drop k s).
Proof. revert n s. induction k as [|k IH]; intros n s; [by rewrite Nat.sub_0_r|]. destruct n as [|n], s as [|c s]; [done|done|cbn; by destruct (n - k)|]. apply IH. Qed.

Lemma lead_ws_take n s : lead_ws (str_take n s) = true → lead_ws s = true.
Proof.
  intros H. destruct (lead_ws s) eqn:E; [done|]. rewrite <- (str_take_drop n s) in E. apply lead_ws_prefix in E. congruence.
Qed.

Lemma snippet_some text anchor q max_len :
  well_split text → plain_spaces text → is_Some (extract_session_search_snippet text anchor q max_len).
Proof.
  intros [H0 Hsplit] Hplain. unfold extract_session_search_snippet. destruct anchor as [pos|]; [|by eexists].
  assert (is_char_boundary text 0 = true) as Hz by (rewrite boundary_inside; cbn [str_drop]; by rewrite H0).
  destruct (floor_spec text (pos - max_len / 2) Hz) as [Hs1 Hs2]. set (start := floor_char_boundary text _) in *.
  destruct (ceil_spec text (min (pos + focus_len q + max_len / 2) (String.length text))) as [He1 He2]. set (end_ := ceil_char_boundary text _) in *.
  assert (start ≤ end_) as Hse by lia.
  rewrite (slice_some text 0 start) by (done || lia). rewrite (slice_some text end_ (String.length text)) by (done || lia || by apply boundary_end).
  cbn [str_drop]. rewrite Nat.sub_0_r.
  set (start' := match rfind_ws _ with Some p => p + 1 | None => start end). set (end' := match find_ws _ with Some p => end_ + p | None => end_ end).
  assert (start' ≤ start ∧ is_char_boundary text start' = true) as [Ha Hb].
  { unfold start'. destruct (rfind_ws _) as [p|] eqn:E; [|by split]. apply rfind_ws_spec in E as [E1 E2]. rewrite str_length_take in E1 by lia. split; [lia|].
    rewrite str_drop_take in E2. apply lead_ws_take in E2. destruct (Hplain p E2) as (c & rest & Ec & Hc).
    rewrite boundary_inside, <- (str_drop_drop 1 p), Ec. cbn. by rewrite (Hsplit p c rest Ec Hc). }
  assert (end_ ≤ end' ≤ String.length text ∧ is_char_boundary text end' = true) as [Hc Hd].
  { unfold end'. destruct (find_ws _) as [p|] eqn:E; [|by split; [lia|]]. apply find_ws_spec in E as [E1 E2].
    rewrite str_length_take in E1 by (rewrite str_length_drop; lia). split; [lia|]. rewrite str_drop_take, str_drop_drop in E2. apply lead_ws_take in E2.
    by rewrite boundary_inside, (ws_begins _ E2). }
  rewrite slice_some by (done || lia). by eexists.
Qed.

(** ** Fences *)

Lemma longest_run_mono c best cur s : best ≤ longest_run c best cur s.
Proof. revert best cur. induction s as [|d s IH]; intros best cur; cbn; [lia|]. destruct (Ascii.eqb d c); [|apply IH]. pose proof (IH (max best (S cur)) (S cur)). lia. Qed.

Lemma longest_run_repeat c k best cur s : 0 < k → cur + k ≤ longest_run c best cur (repeat_char c k +:+ s).
Proof.
  intros Hk. revert best cur. induction k as [|k IH]; intros best cur; [lia|]. cbn. rewrite Ascii.eqb_refl. destruct k as [|k].
  - pose proof (longest_run_mono c (max best (S cur)) (S cur) s). cbn. lia.
  - pose proof (IH ltac:(lia) (max best (S cur)) (S cur)). lia.
Qed.

Lemma longest_run_inside c k best cur a s : 0 < k → k ≤ longest_run c best cur (a +:+ repeat_char c k +:+ s).
Proof.
  intros Hk. revert best cur. induction a as [|d a IH]; intros best cur.
  - pose proof (longest_run_repeat c k best cur s Hk). cbn. lia.
  - cbn. destruct (Ascii.eqb d c); apply IH.
Qed.

(** ** The first pass misses nothing *)

Lemma forallb_suffix f a b : string_forallb f (a +:+ b) = true → string_forallb f b = true.
Proof. rewrite string_forallb_app. by intros [_ H]%andb_true_iff. Qed.
Lemma forallb_prefix f a b : string_forallb f (a +:+ b) = true → string_forallb f a = true.
Proof. rewrite string_forallb_app. by intros [H _]%andb_true_iff. Qed.

Lemma trim_start_suffix s : ∃ p, s = p +:+ trim_start s.
Proof.
  induction s as [s IH] using str_size_ind. destruct s as [|a s]; [by exists ""|]. cbn [trim_start]. case_match.
  { destruct (IH s) as [q Hq]; [simpl; lia|]. exists (String a q). by rewrite Hq at 1. }
  destruct s as [|b s]; [by exists ""|]. case_match.
  { destruct (IH s) as [q Hq]; [simpl; lia|]. exists (String a (String b q)). by rewrite Hq at 1. }
  destruct s as [|c s]; [by exists ""|]. case_match; [|by exists ""].
  destruct (IH s) as [q Hq]; [simpl; lia|]. exists (String a (String b (String c q))). by rewrite Hq at 1.
Qed.

Lemma ascii_trim s : is_ascii s = true → is_ascii (trim s) = true.
Proof.
  unfold is_ascii, trim. intros H. destruct (trim_start_suffix s) as [p Hp], (trim_end_prefix (trim_start s)) as [q Hq].
  apply (forallb_prefix _ _ q). rewrite <- Hq. apply (forallb_suffix _ p). by rewrite <- Hp.
Qed.

Lemma ascii_lower s : is_ascii s = true → is_ascii (to_ascii_lowercase s) = true.
Proof.
  unfold is_ascii. induction s as [|c s IH]; [done|]. cbn. intros [Hc Hs]%andb_true_iff. rewrite IH by done.
  revert Hc. by destruct c as [[] [] [] [] [] [] [] []].
Qed.

Lemma chars_ascii s : is_ascii s = true → Forall (λ c, is_ascii c = true) (chars s).
Proof.
  unfold is_ascii. induction s as [|c s IH]; [done|]. cbn [chars string_forallb]. intros [Hc Hs]%andb_true_iff. specialize (IH Hs).
  destruct (chars s) as [|d ds]; [repeat constructor; cbn; by rewrite Hc|]. apply Forall_cons in IH as [Hd Hds].
  repeat case_match; repeat constructor; try done; cbn; rewrite Hc; done.
Qed.

Lemma split_words_ascii wide word cs :
  is_ascii word = true → Forall (λ c, is_ascii c = true) cs → Forall (λ w, is_ascii w = true) (split_words wide word cs).
Proof.
  intros Hw Hcs. revert word Hw. induction Hcs as [|c cs Hc _ IH]; intros word Hw; cbn; [by constructor|]. case_match.
  - apply IH. unfold is_ascii. rewrite string_forallb_app. by apply andb_true_iff.
  - constructor; [done|]. by apply IH.
Qed.

Lemma lower_length s : String.length (to_ascii_lowercase s) = String.length s.
Proof. unfold to_ascii_lowercase. induction s as [|c s IH]; [done|]. cbn. by rewrite IH. Qed.
Lemma lower_take n s : to_ascii_lowercase (str_take n s) = str_take n (to_ascii_lowercase s).
Proof. unfold to_ascii_lowercase. revert s. induction n as [|n IH]; intros [|c s]; [done..|]. cbn. by rewrite IH. Qed.
Lemma lower_drop n s : to_ascii_lowercase (str_drop n s) = str_drop n (to_ascii_lowercase s).
Proof. unfold to_ascii_lowercase. revert s. induction n as [|n IH]; intros [|c s]; [done..|]. apply IH. Qed.

(** A word in lower case. *)
Definition lower_word (w : string) : Prop := to_ascii_lowercase w = w.

(** Whatever is found in a part of a file in lower case is found in the file. *)
Lemma naive_finds `{MC : Memchr} a text b p :
  lower_word p → contains p (to_ascii_lowercase text) = true → contains_case_insensitive_bytes (a +:+ text +:+ b) p = true.
Proof.
  intros Hp (x & y & E)%contains_iff. rewrite contains_bytes_naive by done. unfold naive_contains. apply orb_true_iff. right.
  assert (String.length text = String.length x + (String.length p + String.length y)) as Hlen.
  { rewrite <- (lower_length text), E. by rewrite !str_length_app. }
  apply existsb_exists. exists (String.length a + String.length x). split.
  - apply in_seq. rewrite !str_length_app. lia.
  - unfold window_is, eq_ignore_ascii_case. rewrite Hp. rewrite <- str_drop_drop, str_drop_app, str_drop_app_le by lia.
    rewrite str_take_app_le by (rewrite str_length_drop; lia). apply String.eqb_eq. rewrite lower_take, lower_drop, E.
    by rewrite str_drop_app, str_take_app.
Qed.

Lemma count_terms_mono f g terms :
  Forall (λ t, f t = true → g t = true) terms → count_terms f terms ≤ count_terms g terms.
Proof.
  unfold count_terms. induction 1 as [|t ts Ht _ IH]; [done|]. rewrite !filter_cons.
  destruct (decide (f t = true)) as [Hf|Hf]; [rewrite decide_True by auto; cbn; lia|]. case_decide; cbn; lia.
Qed.

Lemma note_terms_count text_lower terms acc :
  length (foldl (note_term text_lower) acc terms).1.1 = length acc.1.1 + count_terms (λ t, contains t text_lower) terms.
Proof.
  unfold count_terms. revert acc. induction terms as [|t ts IH]; intros [[m h] f]; cbn [foldl]; [cbn; lia|]. rewrite IH, filter_cons.
  unfold note_term, contains. destruct (str_find t text_lower) as [pos|].
  - rewrite decide_True by done. cbn. rewrite length_app. cbn. lia.
  - by rewrite decide_False by done.
Qed.

Section first_pass.
Context `{MC : Memchr} (lowercase : string → string) (wide_alphanumeric : string → bool).
Hypothesis lowercase_ascii : ∀ s, is_ascii s = true → lowercase s = to_ascii_lowercase s.

Lemma keep_token_lower terms token :
  is_ascii token = true → Forall lower_word terms → Forall lower_word (keep_token lowercase terms token).
Proof.
  intros Ht Hs. unfold keep_token. rewrite lowercase_ascii by done. repeat case_match; try done. apply Forall_app. split; [done|].
  constructor; [apply lower_idemp|done].
Qed.

Lemma tokens_lower query : is_ascii query = true → Forall lower_word (tokenize_session_search_query lowercase wide_alphanumeric query).
Proof.
  intros Hq. unfold tokenize_session_search_query.
  assert (Forall (λ w, is_ascii w = true) (split_words wide_alphanumeric "" (chars query))) as H by (by apply split_words_ascii; [|apply chars_ascii]).
  assert (∀ terms, Forall lower_word terms → Forall lower_word (foldl (keep_token lowercase) terms (split_words wide_alphanumeric "" (chars query)))) as Hg.
  { induction H as [|w ws Hw _ IH]; intros terms Ht; [done|]. cbn. apply IH. by apply keep_token_lower. }
  by apply Hg.
Qed.

Lemma query_new_lower query (q := query_new lowercase wide_alphanumeric query) :
  is_ascii query = true → is_ascii (sq_normalized q) = true ∧ lower_word (sq_normalized q) ∧ Forall lower_word (sq_terms q).
Proof.
  intros Hq. subst q. unfold query_new. cbn [sq_normalized sq_terms]. rewrite lowercase_ascii by (by apply ascii_trim).
  assert (is_ascii (to_ascii_lowercase (trim query)) = true) as Ha by (by apply ascii_lower, ascii_trim).
  split; [done|]. split; [apply lower_idemp|by apply tokens_lower].
Qed.

Lemma first_pass_complete a text b query r (q := query_new lowercase wide_alphanumeric query) :
  is_ascii query = true → is_ascii text = true → score_session_search_text_match lowercase text q = Some (Some r) →
  session_search_raw_matches_query lowercase (a +:+ text +:+ b) q = true.
Proof.
  intros Hq Ht. destruct (query_new_lower query Hq) as (Ha & Hn & Hts). fold q in Ha, Hn, Hts. clearbody q.
  unfold score_session_search_text_match, session_search_raw_matches_query. destruct (is_actionable q); cbn [negb]; [|done].
  rewrite Ha, lowercase_ascii by done. pose proof (note_terms_count (to_ascii_lowercase text) (sq_terms q) ([], 0, None)) as Hc.
  destruct (foldl _ _ _) as [[matched hits] first]. cbn in Hc.
  assert (count_terms (λ t, contains t (to_ascii_lowercase text)) (sq_terms q)
    ≤ count_terms (λ t, contains_case_insensitive_bytes (a +:+ text +:+ b) t) (sq_terms q)) as Hm.
  { apply count_terms_mono. eapply Forall_impl; [exact Hts|]. intros t. apply naive_finds. }
  destruct (is_empty (sq_normalized q)) eqn:Ee.
  - rewrite bool_decide_eq_false_2 by (by intros [? ?]). cbn [negb andb]. destruct (length matched <? _) eqn:E; [done|]. apply Nat.ltb_ge in E. intros _. apply orb_true_iff. right. apply Nat.leb_le. lia.
  - destruct (str_find (sq_normalized q) (to_ascii_lowercase text)) as [p|] eqn:Ef.
    + intros _. apply orb_true_iff. left. apply naive_finds; [done|]. unfold contains. by rewrite Ef.
    + rewrite bool_decide_eq_false_2 by (by intros [? ?]). cbn [negb andb]. destruct (length matched <? _) eqn:E; [done|]. apply Nat.ltb_ge in E. intros _. apply orb_true_iff. right. apply Nat.leb_le. lia.
Qed.
End first_pass.

(** ** Theorems *)

(** The search for a word in the bytes of a session file, which looks for the first letter in both cases
    and then compares the rest, finds exactly what comparing every window of the file in lower case finds;
    it never reads past the end. *)
Theorem raw_search_is_reference `{MC : Memchr} haystack needle :
  to_ascii_lowercase needle = needle → contains_case_insensitive_bytes haystack needle = naive_contains haystack needle.
Proof. apply contains_bytes_naive. Qed.

Lemma raw_search_is_reference_witness :
  contains_case_insensitive_bytes (MC := scan_bytes) "{`text`: `The CACHE is warm`}" "cache" = naive_contains "{`text`: `The CACHE is warm`}" "cache"
  ∧ contains_case_insensitive_bytes (MC := scan_bytes) "{`text`: `The CACHE is warm`}" "cache" = true.
Proof. split; [apply (raw_search_is_reference (MC := scan_bytes)); reflexivity|vm_compute; reflexivity]. Defined.

(** Decidable, for a concrete text. *)
Fixpoint plain_spacesb (s : string) : bool :=
  match s with EmptyString => true | String c s' => implb (lead_ws s) (byte c <? 128)%N && plain_spacesb s' end.
Lemma plain_spaces_dec s : plain_spacesb s = true → plain_spaces s.
Proof.
  induction s as [|c s IH]; [intros _ [|i]; done|]. intros [H1 H2]%andb_true_iff. intros [|i]; [|apply IH, H2].
  cbn [str_drop]. intros H. rewrite H in H1. by exists c, s.
Qed.

(** Scoring a text whose whitespace is ASCII never panics, whatever the lower-case form of the text is: the
    place of the match counts bytes of that form, and so may lie anywhere in the text, past its end included. *)
Theorem search_never_panics lowercase text q :
  from_utf8 text = AllValid → plain_spaces text → is_Some (score_session_search_text_match lowercase text q).
Proof.
  intros Hu Hp. unfold score_session_search_text_match. destruct (negb _); [by eexists|]. destruct (foldl _ _ _) as [[matched hits] first].
  destruct (_ && _); [by eexists|].
  destruct (snippet_some text (match (if is_empty (sq_normalized q) then None else str_find (sq_normalized q) (lowercase text)) with
    Some p => Some p | None => first end) q 280 (utf8_well_split _ Hu) Hp) as [s ->]. by eexists.
Qed.

Lemma search_never_panics_witness :
  is_Some (score_session_search_text_match to_ascii_lowercase "the café was warm, the cache was warmer"
    (query_new to_ascii_lowercase (λ _, true) "cache warm")).
Proof. apply search_never_panics; [vm_compute; reflexivity|apply plain_spaces_dec; vm_compute; reflexivity]. Defined.

(** The text need not be exotic: [p + 1] after the last whitespace is inside a wide space, such as the one of
    Japanese text (U+3000), and the slice panics. *)
Definition ideographic_space : string := String (Ascii.ascii_of_nat 227) (String (Ascii.ascii_of_nat 128) (String (Ascii.ascii_of_nat 128) "")).
Example wide_space_panics :
  score_session_search_text_match to_ascii_lowercase (ideographic_space +:+ repeat_char "a" 150 +:+ "cache")
    (query_new to_ascii_lowercase (λ _, true) "cache") = None.
Proof. vm_compute. reflexivity. Qed.

(** With an ordinary space in its place the snippet is there. *)
Example plain_space_does_not :
  option_map (option_map ms_exact_match) (score_session_search_text_match to_ascii_lowercase (" " +:+ repeat_char "a" 150 +:+ "cache")
    (query_new to_ascii_lowercase (λ _, true) "cache")) = Some (Some true).
Proof. vm_compute. reflexivity. Qed.

(** A code block cannot be closed by the text inside it. *)
Theorem fence_not_in_text text : contains (fence_of text) text = false.
Proof.
  destruct (contains (fence_of text) text) eqn:E; [exfalso|done]. apply contains_iff in E as (a & b & E).
  unfold fence_of, longest_repeated_char_run in E.
  set (k := if _ <=? _ then _ else _) in E.
  assert (0 < k) as Hk by (unfold k; destruct (_ <=? _); lia).
  pose proof (longest_run_inside "`" k 0 0 a b Hk) as H. rewrite <- E in H. unfold k in H.
  destruct (3 <=? _) eqn:E3; [|apply Nat.leb_gt in E3]; lia.
Qed.


